(* ===== verification/_CoqProject ===== *)
-Q . S2P
Prelude.v
Kernel.v
DevMem.v
DevPages.v
Intervals.v
SvmHw.v
SvmSys.v
SvmIo.v
SvmCopy.v
RamToDev.v
DevToRam.v
DevToDev.v
Placement.v
Movers.v
FaultArray.v
CpuFault.v
PageFault.v
Lifecycle.v
SvmLife.v
Access.v
Fsp.v
ZynqDma.v
DmaWrite.v
DmaRead.v
DmaLife.v
Irq.v
PcieBuf.v
Qdma.v
PbMem.v
PbStream.v
PbFields.v
PbDecode.v
PbRefine.v
PbWire.v
PbEncode.v
PbEncodeProof.v
StatusCore.v
StatusRefine.v
StatusInit.v
StatusWire.v
Status.v
DeviceLife.v
Registers.v
ZynqDevice.v
PcieDevice.v
BusLife.v
SimDevice.v
Perfc.v
Commands.v
PcieTune.v
UserAlloc.v
UserArgs.v
UserJob.v
UserRun.v
UserLib.v
