(* ===== verification/Prelude.v ===== *)
(** * The TaPaSCo runtime: a verification development

    TaPaSCo runs hardware accelerators on FPGA cards.  This library verifies its
    kernel module (TLKM), src/runtime/kernel, and the way of a job through the user
    space library, src/runtime/libtapasco: from the C++ call that launches it to the
    processing element and back.  It follows the code function by function; every
    definition that models code keeps the name it has there, as far as possible.

    ** The program

    tlkm_module loads the bus (tlkm/tlkm_bus.c), which finds the devices of the
    classes Zynq and PCIe (with the variants AWS and Versal) and sets each up with
    tlkm_device_init (tlkm/tlkm_device.c): two device files, register windows, the
    description of the bitstream (tlkm/tlkm_status.c), subsystems and interrupts of
    the class.  User space opens the main file to acquire devices (tlkm/tlkm_ioctl.c),
    and the control file of a device to register interrupts (device/) and to manage
    memory: DMA buffers of a Zynq (zynq/), DMA and kernel buffers of a PCIe card
    (pcie/pcie_ioctl.c), or shared virtual memory (pcie/pcie_svm.c), where the pages
    of a process migrate between host and card memory on page faults and on demand.
    dma/ is the driver of the BlueDMA engine, pcie/pcie_qdma.c sets up the QDMA core.
    nanopb/ is the protobuf library the description of the bitstream is decoded with.

    The user space library is written in Rust with a C interface (src/ffi.rs) and a C++
    header on top of it (src/tapasco.hpp).  launch collects the arguments in a list,
    acquires an idle processing element from the scheduler (src/scheduler.rs), allocates
    card memory for the buffers (src/allocator.rs), copies them, writes the registers and
    starts it (src/job.rs, src/pe.rs); the future that launch returns waits for the
    interrupt, returns the processing element and copies the results back.

    ** Method

    Pure code is a function.  Code that calls the kernel or touches registers is a
    program of the free monad of Kernel.v over a signature of calls; a model says when
    a call is legal and what it may answer, and [wp] quantifies over all answers, so
    that a statement covers every failure, includes termination, and excludes illegal
    calls (double frees, releases of what is not held).  Code that runs concurrently
    (the pool, the DMA engine, access to devices, SVM sessions, page queues) is a
    step function per thread and an inductive step relation for all interleavings,
    with invariants by rule induction.  Integers are [Z] with the wrap-around of
    their width written out.  nanopb works on structs through offsets, so its model has
    a byte memory: a decoder or encoder is a function of stream and memory that
    returns, fails or is undefined, and [dwp] is its weakest precondition, false of
    undefined behaviour (a read or write outside an object, a loop out of fuel).
    Kernel services and hardware are the models' answers; Linux's interval tree and
    sort, the encoding of migration entries and the device classes are parameters with
    their laws (classes [IntervalTreeLaws], [MigratorLaws], [FaultService],
    [DeviceClass], [AllocatorLaws] and the interrupt interface), for each of which an
    instance is given.  Where a statement has to say what happened and the code keeps
    no trace of it, the state has a field that only the model writes: the pages of the
    migration under way ([migr] of SvmSys.v), the fault addresses the MMU has handed
    out ([reported]), the commands a DMA engine was given and has completed.  The DMA
    engines complete a command and report it in separate steps, and the report, an
    interrupt, may be lost.

    ** The files, in dependency order

    - Prelude.v: machine integers, error numbers, tactics, lemmas on lists.
    - Kernel.v: programs, models, weakest preconditions, runs.
    - DevMem.v: the first-fit allocator of card memory.
    - DevPages.v: device pages between allocator, kernel and work queues.
    - Intervals.v: the intervals of a process present on a device.
    - SvmHw.v, SvmSys.v: PageDMA and IOMMU registers; the services and the state the
      SVM code works on.  SvmIo.v, SvmCopy.v: register protocols, common parts of the
      migrations.
    - RamToDev.v, DevToRam.v, DevToDev.v: the three migrations of a page range.
    - Placement.v: migration requests, proved against the interface [Migrator];
      Movers.v: the migrations implement it.
    - FaultArray.v, PageFault.v: page faults of the card; CpuFault.v: faults of the
      CPU and the MMU notifier.
    - Lifecycle.v: the signature of acquiring and releasing resources.
    - SvmLife.v: set-up, sessions, interrupts and removal of SVM, with the page fault
      handler behind the interface [FaultService], which PageFault.v is shown to keep.
    - Access.v: the bus, reference counts, commands of the main file.
    - Fsp.v: the lock-free pool of indices.  ZynqDma.v: buffers and memory commands
      of a Zynq.
    - DmaWrite.v, DmaRead.v, DmaLife.v: the BlueDMA engine.
    - Irq.v: registration and delivery of interrupts, for all classes.
    - PcieBuf.v: the buffers of a PCIe device.  Qdma.v: the QDMA core.
    - PbMem.v: byte memory and the monad of nanopb.  PbStream.v: input streams and
      scalar decoders (pb_decode.c).  PbFields.v: field descriptors and their iterator
      (pb.h, pb_common.c).  PbDecode.v: the decoder (pb_decode.c).  PbEncode.v: the
      encoder (pb_encode.c).
    - PbRefine.v: the message loop of the decoder refines a fold over the fields of the
      message.  PbWire.v: the wire format and what the decoders do on it.
      PbEncodeProof.v: what the encoders write, and round trips.
    - StatusCore.v: the descriptors of the status messages (status_core.pb.[ch]) and
      tlkm_status_init.  StatusRefine.v, StatusInit.v: it implements a specification on
      records.  StatusWire.v: the specification on well-formed messages.  Status.v:
      lookups in the component table.
    - DeviceLife.v: set-up and removal of a device, for any class; Registers.v: its
      register windows and the dispatch of its commands; ZynqDevice.v and PcieDevice.v:
      the classes.  BusLife.v: loading and unloading the module.  SimDevice.v: the class
      for simulation (sim/).
    - Perfc.v: performance counters and their file.  Commands.v: the command numbers and
      the commands version, info and size.  PcieTune.v: the parameters of the PCIe link
      (tune_pcie_parameters).
    - UserAlloc.v: the allocator of card memory in user space and the interface of
      allocators.  UserArgs.v: the arguments of a job (class JobArgumentList and the
      functions of ffi.rs it calls).  UserJob.v: jobs, processing elements and the
      scheduler; UserRun.v: what running a job does.  UserLib.v: launch, try_launch,
      futures, memory and errors of the C++ interface.

    ** What the theorems show

    - Card memory is allocated exactly (C1, C2), pages have one owner in every
      interleaving and none is lost (C5).
    - The intervals describe what is on a device (C8).
    - Each migration is safe whatever fails (C13, C16, C19) and, when it reports
      success, has moved every page of the range once, from and to the pages that
      belong to its address, in order, with device memory, intervals and translations
      in step (C14, C17, C20); the requests bring the whole region where it was asked
      to be, unless a list of intervals cannot be allocated (C21, search_failure_ignored,
      and the theorems user_managed_to_device_correct and user_managed_to_ram_correct
      of Movers.v).
    - Faults of the card are fetched, sorted, serviced and replayed (C25, C30);
      CPU faults bring their page back, or leave it where it is, and changes of the
      address space keep host and card consistent (C26, C27).
    - Setting up and removing is all or nothing: SVM (C31), a device (C37), QDMA
      (C10), the module (C6); a session keeps its interrupt armed and can be ended,
      with the queued faults serviced first (C33, C34).
    - Devices have at most one exclusive user, and
      the commands that create and destroy them keep the counts, where they are
      defined (C35).  The pool hands out no index
      twice and loses none (C38, C39), so Zynq buffers are disjoint and keep what is
      written (C40, and zynq_alloc_free).  PCIe buffers are accounted for exactly (C18).
    - The DMA engine writes and reads what was asked for although buffers are reused
      and interrupts may be lost; a call returns as long as none is (C28, C4).
      Interrupts are registered consistently and delivered to the right
      eventfds (C12, C15).  The registers of a bitstream keep what is written (C32).
    - nanopb is right and safe: a field is found by its tag from any position (C22),
      varints are decoded within bounds (C23), what the encoder writes for a number the
      decoder reads back (C29), and the size of a message is computed exactly, so that
      no buffer is overrun (C24).  Whatever bytes are in the status core, reading it
      touches only its own objects and gives what a specification on records gives
      (C3); of a well-formed description every component is found by name (C11).
    - A program that launches a job and waits for it: the processing element starts on
      the arguments that were given, the results are in the program's buffers, nothing
      else is touched and nothing is left behind (C7).  It rests on the arguments being
      encoded as their types say (C36) and on the allocator, whose whole history refines
      a ledger of blocks handed out (C9).  What is copied to card memory is copied back
      (memory_roundtrip), and an error reaches the program with its text
      (handle_error_text).

    Where the code does not keep a promise in general, the theorem states the
    condition under which it does, and a lemma beside it shows a run that breaks it
    (for instance [killed_caller_blocks_others], [unreadable_memory_blocks],
    [killed_read_corrupts_next], [second_read_loses_interrupt], [failed_mapping_leaks],
    [unmap_unmapped], [registration_unchecked], [create_unchecked], [width2_tag_lost],
    [annotation_leaks]).

    ** Assumptions

    The doc comment of each theorem lists its conditions.  The ones that recur, and
    that the code does not check: the arguments of ioctls that are used as an index
    (interrupt numbers, DMA buffer ids) are in range; a status core has at most the 16
    components of the table; allocations whose result the code ignores succeed where
    the statement says so; kernel services keep their documented contracts (fresh
    addresses, disjoint pages, answers of migrate_vma_setup); register windows behave
    as memory (C32).

    ** Bounds

    Loops whose length is in the data have the data as fuel, or a fuel computed from
    it that is proved enough (free_device_memory, the fault array, the transfer
    loops).  The retry loops of the migrations have the code's own bound.  Busy waits
    on hardware take a number of readings as fuel; running out of it is the call
    [hang], which is never legal, so the theorems show it is not reached: the polling
    of a transfer ends by the driver's own timeout (the clock advances by at least
    [tick] per reading, and the fuel covers the timeout), the wait for the IOMMU by the
    assumption that it is busy for finitely many readings, [busy], fewer than the fuel.
    QDMA polls at most 99 times, as in the code.  The loops of nanopb that read have
    one more round as fuel than the stream has bytes, those over fields one more than
    the descriptor has fields; messages nest at most [decode_fuel] deep in a status
    core, and the theorems on pb_encode take the nesting as a parameter.  Running out
    of fuel is undefined behaviour, which the theorems exclude.

    ** Not modelled

    Of nanopb/ the code under PB_ENABLE_MALLOC (pointer fields, pb_release), which the
    module does not compile, input streams with a callback of their own, and the packing
    macro PB_FIELDINFO_8, which nothing uses.  Logging has no effect on the rest, and the
    calls that count for the performance counters are left out of the operations they
    stand in.  user/ holds declarations shared with user space, test/ a test program.

    Of the user space library the part of a job that is not on its way: opening a device
    (Device::new, Scheduler::new), the DMA engines, VFIO, the client of the simulation,
    debugging and plugins are Rust code behind the calls of UserJob.v; the allocators
    other than GenericAllocator are other instances of the interface.  TapascoPE, whose
    launch cannot be instantiated, and the functions of TapascoDevice that only return
    a value are left out.  A launch that finds no idle processing element polls for one;
    the model takes the number of attempts as fuel and reports [Waits] after it, and C7
    is about an element that is idle.  Locks are never poisoned.

    The tool flow (Scala, Tcl), hardware and examples are other programs.  Cache
    maintenance (the dma_sync calls) and memory barriers are not visible in the models,
    which are sequentially consistent. *)
From stdpp Require Export base tactics list numbers gmap sorting.
From Stdlib Require Export Lia.

#[export] Set Default Goal Selector "!".

Declare Scope tlkm_scope.
Declare Scope prog_scope.
Delimit Scope tlkm_scope with tlkm.
Delimit Scope prog_scope with prog.
Open Scope Z_scope.

(** ** Machine integers

    A C integer of width [w] is kept as the [Z] it denotes; every operation
    that can leave the range writes the wrap-around out with [wrap]. *)
Definition wrap (w x : Z) : Z := x mod 2 ^ w.
Definition u8 (x : Z) : Z := wrap 8 x.
Definition u16 (x : Z) : Z := wrap 16 x.
Definition u32 (x : Z) : Z := wrap 32 x.
Definition u64 (x : Z) : Z := wrap 64 x.
(** [int] and [int64_t]: two's complement reading of the low bits. *)
Definition swrap (w x : Z) : Z := (x + 2 ^ (w - 1)) mod 2 ^ w - 2 ^ (w - 1).
Definition s32 (x : Z) : Z := swrap 32 x.
Definition s64 (x : Z) : Z := swrap 64 x.
(** C truth value of an integer. *)
Definition nonzero (x : Z) : bool := negb (x =? 0).

(** ** Error numbers (Linux uapi), returned negated by the driver. *)
Definition ENOENT : Z := 2.
Definition EINTR : Z := 4.
Definition EIO : Z := 5.
Definition ENXIO : Z := 6.
Definition EAGAIN : Z := 11.
Definition ENOMEM : Z := 12.
Definition EACCES : Z := 13.
Definition EFAULT : Z := 14.
Definition EBUSY : Z := 16.
Definition ENODEV : Z := 19.
Definition EINVAL : Z := 22.
Definition EMFILE : Z := 24.
Definition ENOSPC : Z := 28.
Definition ETIME : Z := 62.

(** ** Pages: x86-64 and the Zynq parts use 4 KiB pages. *)
Definition PAGE_SHIFT : Z := 12.
Definition PAGE_SIZE : Z := 4096.

(** ** Automation *)
Create HintDb tlkm.
Create Rewrite HintDb words.

Ltac unfold_words :=
  unfold u8, u16, u32, u64, s32, s64, wrap, swrap, nonzero in *;
  change (2 ^ 64) with 18446744073709551616 in *;
  change (2 ^ 63) with 9223372036854775808 in *;
  change (2 ^ 32) with 4294967296 in *;
  change (2 ^ 31) with 2147483648 in *;
  change (2 ^ 16) with 65536 in *;
  change (2 ^ 8) with 256 in *.

(** [lia] with division and remainder by constants. *)
Ltac dlia := Z.div_mod_to_equations; lia.

(** Case analysis on every boolean comparison of [Z] the goal branches on. *)
Ltac zcases :=
  repeat match goal with
  | |- context [if (?a <? ?b) then _ else _] => destruct (Z.ltb_spec a b)
  | |- context [if (?a <=? ?b) then _ else _] => destruct (Z.leb_spec a b)
  | |- context [if (?a =? ?b) then _ else _] => destruct (Z.eqb_spec a b)
  | |- context [if (?a >? ?b) then _ else _] =>
      rewrite (Z.gtb_ltb a b); destruct (Z.ltb_spec b a)
  | |- context [if (?a >=? ?b) then _ else _] =>
      rewrite (Z.geb_leb a b); destruct (Z.leb_spec b a)
  end.

(** ** Words *)
Lemma wrap_small (w x : Z) : 0 <= x < 2 ^ w -> wrap w x = x.
Proof. intros. apply Z.mod_small. lia. Qed.

Lemma wrap_range (w x : Z) : 0 <= w -> 0 <= wrap w x < 2 ^ w.
Proof. intros. apply Z.mod_pos_bound. lia. Qed.

Lemma u64_small (x : Z) : 0 <= x < 2 ^ 64 -> u64 x = x.
Proof. apply wrap_small. Qed.

Lemma u32_small (x : Z) : 0 <= x < 2 ^ 32 -> u32 x = x.
Proof. apply wrap_small. Qed.

Lemma u64_range (x : Z) : 0 <= u64 x < 2 ^ 64.
Proof. apply wrap_range. lia. Qed.

Lemma u32_range (x : Z) : 0 <= u32 x < 2 ^ 32.
Proof. apply wrap_range. lia. Qed.

Lemma swrap_small (w x : Z) :
  0 < w -> - 2 ^ (w - 1) <= x < 2 ^ (w - 1) -> swrap w x = x.
Proof.
  intros Hw Hx. unfold swrap.
  assert (2 ^ w = 2 * 2 ^ (w - 1)) as E.
  { rewrite <- Z.pow_succ_r by lia. f_equal. lia. }
  rewrite Z.mod_small by lia. lia.
Qed.

Lemma s32_small (x : Z) : - 2 ^ 31 <= x < 2 ^ 31 -> s32 x = x.
Proof. intros. apply swrap_small; simpl Z.sub; lia. Qed.

#[export] Hint Resolve u64_range u32_range : tlkm.
#[export] Hint Rewrite u64_small u32_small s32_small using lia : words.

Lemma PAGE_SIZE_pos : 0 < PAGE_SIZE.
Proof. done. Qed.

(** ** Multisets as lists *)
Fixpoint remove_one `{EqDecision A} (x : A) (l : list A) : list A :=
  match l with
  | [] => []
  | y :: l' => if decide (x = y) then l' else y :: remove_one x l'
  end.

Lemma remove_one_perm `{EqDecision A} (x : A) (l : list A) :
  x ∈ l -> Permutation l (x :: remove_one x l).
Proof.
  induction l as [|y l IH]; intros Hx; simpl; [by apply elem_of_nil in Hx|].
  destruct (decide (x = y)) as [->|Hne]; [done|].
  apply elem_of_cons in Hx as [->|Hx]; [done|]. rewrite (IH Hx) at 1. apply Permutation_swap.
Qed.

(** ** Equality of multisets, by cancellation *)
Lemma perm_bring_skip {A} (x y : A) (r r' : list A) :
  Permutation r (x :: r') -> Permutation (y :: r) (x :: y :: r').
Proof. intros ->. apply Permutation_swap. Qed.
Lemma perm_bring_app {A} (x : A) (s r r' : list A) :
  Permutation r (x :: r') -> Permutation (s ++ r) (x :: s ++ r').
Proof. intros ->. symmetry. apply Permutation_middle. Qed.
Lemma perm_seg_skip {A} (y : A) (s r r' : list A) :
  Permutation r (s ++ r') -> Permutation (y :: r) (s ++ y :: r').
Proof. intros ->. apply Permutation_middle. Qed.
Lemma perm_seg_app {A} (s t r r' : list A) :
  Permutation r (s ++ r') -> Permutation (t ++ r) (s ++ t ++ r').
Proof. intros ->. apply Permutation_app_swap_app. Qed.
Lemma perm_seg_end {A} (s : list A) : Permutation s (s ++ []).
Proof. by rewrite app_nil_r. Qed.

Ltac perm_elem x :=
  lazymatch goal with
  | |- Permutation (x :: _) _ => reflexivity
  | |- Permutation (_ :: _) _ => eapply perm_bring_skip; perm_elem x
  | |- Permutation (_ ++ _) _ => eapply perm_bring_app; perm_elem x
  end.
Ltac perm_seg s :=
  lazymatch goal with
  | |- Permutation (s ++ _) _ => reflexivity
  | |- Permutation s _ => apply perm_seg_end
  | |- Permutation (_ :: _) _ => eapply perm_seg_skip; perm_seg s
  | |- Permutation (_ ++ _) _ => eapply perm_seg_app; perm_seg s
  end.
Ltac perm_cancel :=
  lazymatch goal with
  | |- Permutation [] _ => reflexivity
  | |- Permutation (?x :: ?l) ?r =>
      etransitivity; [apply perm_skip|symmetry; perm_elem x]; perm_cancel
  | |- Permutation (?s ++ ?l) ?r =>
      etransitivity; [apply Permutation_app_head|symmetry; perm_seg s]; perm_cancel
  | |- Permutation ?s ?r =>
      first [reflexivity | etransitivity; [apply perm_seg_end|]; perm_cancel]
  end.
Ltac perm := simpl; rewrite <- ?app_assoc, ?app_nil_r; simpl; rewrite <- ?app_assoc; perm_cancel.
