(* ===== verification/Kernel.v ===== *)
(** * Driver code that calls the kernel

    Driver functions that allocate, map, write registers or wait are programs
    of the free monad [prog] over a signature of calls: each call names a
    kernel service (or a register access) and the type of its answer.  A
    [model] says of each call when the driver may use it ([pre]) and what it may
    answer and do to the state ([post]); [wp] is the weakest precondition that
    follows, over every answer the model allows.  Programs are finite trees, so
    a [wp] statement includes termination.  [exec]/[run] evaluate a program
    against one concrete behaviour of the kernel. *)
From S2P Require Import Prelude.

Module Kernel.

(** ** Programs *)
Inductive prog (E : Type -> Type) (A : Type) : Type :=
| Ret (a : A)
| Vis (X : Type) (e : E X) (k : X -> prog E A).

Arguments Ret {E A} a.
Arguments Vis {E A X} e k.

Section Prog.
Context {E : Type -> Type}.

Fixpoint bind {A B} (p : prog E A) (f : A -> prog E B) : prog E B :=
  match p with
  | Ret a => f a
  | Vis e k => Vis e (fun x => bind (k x) f)
  end.

Definition call {X} (e : E X) : prog E X := Vis e Ret.

(** [for (i = 0; i < length l; ++i) body l[i]] *)
Fixpoint for_each {A} (l : list A) (body : A -> prog E unit) : prog E unit :=
  match l with
  | [] => Ret tt
  | a :: l' => bind (body a) (fun _ => for_each l' body)
  end.

(** [if (c) p;] *)
Definition when (c : bool) (p : prog E unit) : prog E unit := if c then p else Ret tt.

(** ** Models and weakest preconditions *)
Record model (S : Type) := {
  pre : forall X, E X -> S -> Prop;
  post : forall X, E X -> S -> X -> S -> Prop
}.
Arguments pre {S} m {X}.
Arguments post {S} m {X}.

Section Wp.
Context {S : Type} (m : model S).

Fixpoint wp {A} (p : prog E A) (s : S) (Q : A -> S -> Prop) : Prop :=
  match p with
  | Ret a => Q a s
  | Vis e k => pre m e s /\ forall x s', post m e s x s' -> wp (k x) s' Q
  end.

Lemma wp_ret {A} (a : A) (s : S) (Q : A -> S -> Prop) : Q a s -> wp (Ret a) s Q.
Proof. done. Qed.

Lemma wp_mono {A} (p : prog E A) (s : S) (Q R : A -> S -> Prop) :
  wp p s Q -> (forall a s', Q a s' -> R a s') -> wp p s R.
Proof.
  revert s. induction p as [a|X e k IH]; simpl; intros s Hp HQ; [auto|].
  destruct Hp as [Hpre Hk]. split; [done|]. intros x s' Hx. eauto.
Qed.

Lemma wp_bind {A B} (p : prog E A) (f : A -> prog E B) (s : S) (Q : B -> S -> Prop) :
  wp p s (fun a s' => wp (f a) s' Q) -> wp (bind p f) s Q.
Proof.
  revert s. induction p as [a|X e k IH]; simpl; intros s Hp; [done|].
  destruct Hp as [Hpre Hk]. split; [done|]. intros x s' Hx. eauto.
Qed.

(** A specification of two steps, used in front of a third. *)
Lemma wp_bind_assoc {A B C} (p : prog E A) (q : A -> prog E B) (f : B -> prog E C) (s : S)
    (Q : C -> S -> Prop) :
  wp (bind p q) s (fun b s' => wp (f b) s' Q) -> wp (bind p (fun a => bind (q a) f)) s Q.
Proof.
  revert s. induction p as [a|X e k IH]; simpl; intros s Hp; [by apply wp_bind|].
  destruct Hp as [Hpre Hk]. split; [done|]. intros x s' Hx. eauto.
Qed.

Lemma wp_call {X} (e : E X) (s : S) (Q : X -> S -> Prop) :
  pre m e s -> (forall x s', post m e s x s' -> Q x s') -> wp (call e) s Q.
Proof. done. Qed.

Lemma wp_conj {A} (p : prog E A) (s : S) (Q R : A -> S -> Prop) :
  wp p s Q -> wp p s R -> wp p s (fun a s' => Q a s' /\ R a s').
Proof.
  revert s. induction p as [a|X e k IH]; simpl; intros s HQ HR; [done|].
  destruct HQ as [Hpre HQ]. destruct HR as [_ HR]. split; [done|]. eauto.
Qed.

(** A loop over a list keeps what every iteration keeps. *)
Lemma wp_for_each {A} (l : list A) (body : A -> prog E unit) (I : list A -> S -> Prop)
    (s : S) :
  (forall a l' s, I (a :: l') s -> wp (body a) s (fun _ s' => I l' s')) ->
  I l s -> wp (for_each l body) s (fun _ s' => I [] s').
Proof.
  intros Hbody. revert s. induction l as [|a l IH]; intros s Hs; simpl; [done|].
  apply wp_bind. eapply wp_mono; [by apply Hbody|]. auto.
Qed.

(** ** Outcomes: the answers and states a program can end in *)
Fixpoint outcome {A} (p : prog E A) (s : S) (a : A) (s' : S) : Prop :=
  match p with
  | Ret b => b = a /\ s = s'
  | Vis e k => exists x s1, post m e s x s1 /\ outcome (k x) s1 a s'
  end.

Lemma wp_outcome {A} (p : prog E A) (s s' : S) (a : A) (Q : A -> S -> Prop) :
  wp p s Q -> outcome p s a s' -> Q a s'.
Proof.
  revert s. induction p as [b|X e k IH]; simpl; intros s Hp Ho; [by destruct Ho as [-> ->]|].
  destruct Hp as [_ Hk], Ho as (x & s1 & Hx & Ho). eauto.
Qed.

(** What every call keeps, all outcomes keep. *)
Lemma outcome_rel {A} (R : S -> S -> Prop) `{!PreOrder R} (p : prog E A) (s s' : S) (a : A) :
  (forall X (e : E X) s x s', post m e s x s' -> R s s') -> outcome p s a s' -> R s s'.
Proof.
  intros Hpost. revert s. induction p as [b|X e k IH]; simpl; intros s Ho; [by destruct Ho as [_ ->]|].
  destruct Ho as (x & s1 & Hx & Ho). transitivity s1; [by eapply Hpost|by eapply IH].
Qed.

(** ** Runs *)
Section Run.
Variable exec : forall X, E X -> S -> X * S.

Fixpoint run {A} (p : prog E A) (s : S) : A * S :=
  match p with
  | Ret a => (a, s)
  | Vis e k => let (x, s') := exec _ e s in run (k x) s'
  end.

(** What holds after every run allowed by the model holds after this one. *)
Lemma wp_run {A} (p : prog E A) (s : S) (Q : A -> S -> Prop) :
  (forall X (e : E X) s, pre m e s -> let (x, s') := exec _ e s in post m e s x s') ->
  wp p s Q -> let (a, s') := run p s in Q a s'.
Proof.
  intros Hex. revert s. induction p as [a|X e k IH]; simpl; intros s Hp; [done|].
  destruct Hp as [Hpre Hk]. specialize (Hex X e s Hpre).
  destruct (exec X e s) as [x s']. apply IH. auto.
Qed.

(** A run is one of the outcomes. *)
Lemma run_outcome {A} (p : prog E A) (s : S) (Q : A -> S -> Prop) :
  (forall X (e : E X) s, pre m e s -> let (x, s') := exec _ e s in post m e s x s') ->
  wp p s Q -> let (a, s') := run p s in outcome p s a s'.
Proof.
  intros Hex. revert s. induction p as [a|X e k IH]; simpl; intros s Hp; [done|].
  destruct Hp as [Hpre Hk]. specialize (Hex X e s Hpre).
  destruct (exec X e s) as [x s']. specialize (IH x s' (Hk x s' Hex)).
  destruct (run (k x) s') as [b s2]. by exists x, s'.
Qed.
End Run.
End Wp.
End Prog.

Arguments pre {E S} m {X} _ _.
Arguments post {E S} m {X} _ _ _ _.

Notation "'let!' x ':=' p 'in' q" := (bind p (fun x => q))
  (at level 200, x pattern, p at level 100, q at level 200, right associativity) : prog_scope.
Notation "p ';;;' q" := (bind p (fun _ => q))
  (at level 199, right associativity) : prog_scope.

#[global] Arguments wp : simpl never.
#[global] Arguments outcome : simpl never.
#[global] Arguments bind {E A B} & p f : simpl never.
#[global] Arguments call {E X} & e : simpl never.

(** Steps of a [wp] proof: a sequence is proved from the specification of its
    first part, a call from its model. *)
Tactic Notation "wp_seq" uconstr(H) := apply wp_bind; eapply wp_mono; [apply H|].
Ltac wp_do := apply wp_bind, wp_call.

End Kernel.
