(* ===== verification/DevMem.v ===== *)
(** * Device memory allocator of the SVM subsystem (pcie/pcie_svm.c)

    The free blocks of the card's memory are a list of
    [struct device_memory_block], kept by the source in address order.
    [allocate_device_memory] takes the first block that is large enough,
    [free_device_memory] walks to the place of the freed region and merges it
    with its neighbours.  Both run under [mem_block_mutex], so each is one
    atomic step here.  [kmalloc] is an argument: whether it succeeds. *)
From S2P Require Import Prelude.

Module DevMem.

(** ** Data and operations *)

(** struct device_memory_block, its list links being the position in the list. *)
Record device_memory_block := mk_block { base_addr : Z; size : Z }.

#[export] Instance device_memory_block_eq_dec : EqDecision device_memory_block.
Proof. solve_decision. Defined.

(** PHYS_MEM_SIZE: 4 GB of card memory. *)
Definition PHYS_MEM_SIZE : Z := Z.shiftl 4 30.

(** dev_addr_to_pfn / pfn_to_dev_addr: translation between addresses in card
    memory and the page frames that stand for them on the host. *)
Definition dev_addr_to_pfn (base_pfn dev_addr : Z) : Z :=
  u64 (Z.shiftr dev_addr PAGE_SHIFT + base_pfn).

Definition pfn_to_dev_addr (base_pfn pfn : Z) : Z :=
  u64 (Z.shiftl (u64 (pfn - base_pfn)) PAGE_SHIFT).

(** The [while (1)] loop of allocate_device_memory from a given block on:
    [None] when the last block is reached without a match. *)
Fixpoint allocate_search (blocks : list device_memory_block) (sz : Z)
    : option (Z * list device_memory_block) :=
  match blocks with
  | [] => None
  | mem_block :: rest =>
      if size mem_block >=? sz then
        let size' := u64 (size mem_block - sz) in
        Some (base_addr mem_block,
              if nonzero size'
              then mk_block (u64 (base_addr mem_block + sz)) size' :: rest
              else rest)
      else
        match allocate_search rest sz with
        | Some (addr, rest') => Some (addr, mem_block :: rest')
        | None => None
        end
  end.

(** allocate_device_memory: the address, or (uint64_t)-1, and the new list. *)
Definition allocate_device_memory (blocks : list device_memory_block) (sz : Z)
    : Z * list device_memory_block :=
  match allocate_search blocks sz with
  | Some r => r
  | None => (u64 (-1), blocks)
  end.

(** create_mem_block_entry *)
Definition create_mem_block_entry (kmalloc_ok : bool) (dev_addr sz : Z)
    : option device_memory_block :=
  if kmalloc_ok then Some (mk_block dev_addr sz) else None.

(** [list_add]/[list_add_tail] of a block that may be NULL: nothing is added
    when the allocation of the entry failed. *)
Definition add_entry (entry : option device_memory_block)
    (rest : list device_memory_block) : list device_memory_block :=
  match entry with Some b => b :: rest | None => rest end.

(** The [while (1)] loop of free_device_memory with [prev_mem_block = prev],
    [mem_block = cur]; the result is the list from [prev] on. *)
Fixpoint free_loop (kmalloc_ok : bool) (dev_addr sz : Z)
    (prev : option device_memory_block) (cur : device_memory_block)
    (rest : list device_memory_block) : list device_memory_block :=
  if base_addr cur >? dev_addr then
    match prev with
    | Some p =>
        if u64 (base_addr p + size p) =? dev_addr then
          if u64 (dev_addr + sz) =? base_addr cur
          then mk_block (base_addr p) (u64 (size p + u64 (sz + size cur))) :: rest
          else mk_block (base_addr p) (u64 (size p + sz)) :: cur :: rest
        else if u64 (dev_addr + sz) =? base_addr cur
        then p :: mk_block dev_addr (u64 (size cur + sz)) :: rest
        else p :: add_entry (create_mem_block_entry kmalloc_ok dev_addr sz) (cur :: rest)
    | None =>
        if u64 (dev_addr + sz) =? base_addr cur
        then mk_block dev_addr (u64 (size cur + sz)) :: rest
        else add_entry (create_mem_block_entry kmalloc_ok dev_addr sz) (cur :: rest)
    end
  else
    add_entry prev
      match rest with
      | [] =>
          if u64 (base_addr cur + size cur) =? dev_addr
          then [mk_block (base_addr cur) (u64 (size cur + sz))]
          else cur :: add_entry (create_mem_block_entry kmalloc_ok dev_addr sz) []
      | next :: rest' => free_loop kmalloc_ok dev_addr sz (Some cur) next rest'
      end.

(** free_device_memory *)
Definition free_device_memory (kmalloc_ok : bool)
    (blocks : list device_memory_block) (dev_addr sz : Z)
    : list device_memory_block :=
  match blocks with
  | [] => add_entry (create_mem_block_entry kmalloc_ok dev_addr sz) []
  | first :: rest => free_loop kmalloc_ok dev_addr sz None first rest
  end.

(** is_contiguous_page: a [struct page *] is represented by its page frame
    number (the memory map is one array of [struct page]). *)
Definition is_contiguous_page (page last : Z) : bool := page =? last + 1.

(** The inner loop of handle_device_pages_free: how many entries after
    [last] continue its run. *)
Fixpoint run_length (last : Z) (pages : list Z) : nat :=
  match pages with
  | p :: rest => if is_contiguous_page p last then S (run_length p rest) else O
  | [] => O
  end.

(** One iteration of the outer loop of handle_device_pages_free: the run at the
    head of the array is freed, the rest remains. *)
Definition pages_free_iter (kmalloc_ok : bool) (base_pfn : Z)
    (blocks : list device_memory_block) (page : Z) (rest : list Z)
    : list device_memory_block * list Z :=
  let ncontiguous := S (run_length page rest) in
  (free_device_memory kmalloc_ok blocks (pfn_to_dev_addr base_pfn page)
     (u64 (Z.of_nat ncontiguous * PAGE_SIZE)),
   drop ncontiguous (page :: rest)).

(** The outer loop.  Every iteration consumes at least one page, so the length
    of the array is enough fuel.  The outcome of each [kmalloc] is given by
    [oks] in call order (success when exhausted). *)
Fixpoint pages_free_loop (fuel : nat) (oks : list bool) (base_pfn : Z)
    (blocks : list device_memory_block) (pages : list Z)
    : list device_memory_block :=
  match fuel, pages with
  | S fuel', page :: rest =>
      let (blocks', pages') := pages_free_iter (hd true oks) base_pfn blocks page rest in
      pages_free_loop fuel' (tl oks) base_pfn blocks' pages'
  | _, _ => blocks
  end.

(** handle_device_pages_free *)
Definition handle_device_pages_free (oks : list bool) (base_pfn : Z)
    (blocks : list device_memory_block) (pages : list Z)
    : list device_memory_block :=
  pages_free_loop (length pages) oks base_pfn blocks pages.

(** The part of pcie_init_svm that sets the allocator up: one block holding
    the whole card memory. *)
Definition initial_blocks : list device_memory_block := [mk_block 0 PHYS_MEM_SIZE].

(** ** Well-formed free lists

    In address order, with a gap between any two blocks (so nothing is left
    to merge), non-empty, and inside the card's memory. *)
Fixpoint wf_from (lo : Z) (bs : list device_memory_block) : Prop :=
  match bs with
  | [] => True
  | b :: rest =>
      lo <= base_addr b /\ 0 < size b /\ base_addr b + size b <= PHYS_MEM_SIZE /\
      wf_from (base_addr b + size b + 1) rest
  end.

Definition wf_blocks (bs : list device_memory_block) : Prop := wf_from 0 bs.

(** [x] lies in the region of [sz] bytes at [a]. *)
Definition in_region (a sz x : Z) : Prop := a <= x < a + sz.

(** Byte [x] of the card's memory is free. *)
Definition in_free (bs : list device_memory_block) (x : Z) : Prop :=
  exists b, b ∈ bs /\ in_region (base_addr b) (size b) x.

(** ** Lemmas *)

Lemma in_free_nil (x : Z) : in_free [] x <-> False.
Proof. split; [|done]. intros (b & Hb & _). by apply elem_of_nil in Hb. Qed.

Lemma in_free_cons (b : device_memory_block) (bs : list device_memory_block) (x : Z) :
  in_free (b :: bs) x <-> in_region (base_addr b) (size b) x \/ in_free bs x.
Proof.
  unfold in_free. setoid_rewrite elem_of_cons. split.
  - intros (b' & [->|Hb] & Hx); eauto.
  - intros [Hx|(b' & Hb & Hx)]; eauto.
Qed.

Create Rewrite HintDb in_free.
#[local] Hint Rewrite in_free_nil in_free_cons : in_free.

(** Reduces membership statements to linear arithmetic. *)
Ltac free_solve :=
  repeat match goal with
  | |- forall _, _ => intro
  | |- _ /\ _ => split
  end;
  autorewrite with in_free in *; unfold in_region in *; cbn [base_addr size] in *;
  try solve [lia | tauto | intuition lia].

Lemma wf_from_weaken (lo lo' : Z) (bs : list device_memory_block) :
  lo' <= lo -> wf_from lo bs -> wf_from lo' bs.
Proof. destruct bs; simpl; [done|]. intuition lia. Qed.

Lemma wf_from_bound (lo x : Z) (bs : list device_memory_block) :
  wf_from lo bs -> in_free bs x -> lo <= x < PHYS_MEM_SIZE.
Proof.
  revert lo. induction bs as [|b bs IH]; simpl; intros lo Hwf Hx.
  { by apply in_free_nil in Hx. }
  apply in_free_cons in Hx as [Hx|Hx].
  - unfold in_region in Hx. lia.
  - destruct Hwf as (? & ? & ? & Hwf). specialize (IH _ Hwf Hx). lia.
Qed.

Lemma PHYS_MEM_SIZE_eq : PHYS_MEM_SIZE = 4294967296.
Proof. reflexivity. Qed.

(** A well-formed free list is determined by the bytes it holds. *)
Lemma wf_from_canonical (lo lo' : Z) (bs bs' : list device_memory_block) :
  wf_from lo bs -> wf_from lo' bs' ->
  (forall x, in_free bs x <-> in_free bs' x) -> bs = bs'.
Proof.
  revert lo lo' bs'.
  induction bs as [|b bs IH]; intros lo lo' [|b' bs'] Hwf Hwf' Heq.
  - done.
  - exfalso. destruct Hwf' as (? & ? & ? & ?).
    specialize (Heq (base_addr b')). revert Heq. free_solve.
  - exfalso. destruct Hwf as (? & ? & ? & ?).
    specialize (Heq (base_addr b)). revert Heq. free_solve.
  - destruct Hwf as (H1 & H2 & H3 & Hwf), Hwf' as (H1' & H2' & H3' & Hwf').
    assert (forall x, in_free bs x -> base_addr b + size b + 1 <= x) as Hb
      by (intros x Hx; apply (wf_from_bound _ _ _ Hwf) in Hx; lia).
    assert (forall x, in_free bs' x -> base_addr b' + size b' + 1 <= x) as Hb'
      by (intros x Hx; apply (wf_from_bound _ _ _ Hwf') in Hx; lia).
    assert (forall x, (in_region (base_addr b) (size b) x \/ in_free bs x) <->
              (in_region (base_addr b') (size b') x \/ in_free bs' x)) as Hall
      by (intros x; rewrite <- !in_free_cons; apply Heq).
    unfold in_region in Hall.
    assert (base_addr b' <= base_addr b).
    { destruct (proj1 (Hall (base_addr b)) ltac:(left; lia)) as [?|Hx]; [lia|].
      apply Hb' in Hx. lia. }
    assert (base_addr b <= base_addr b').
    { destruct (proj2 (Hall (base_addr b')) ltac:(left; lia)) as [?|Hx]; [lia|].
      apply Hb in Hx. lia. }
    assert (size b = size b') as E2.
    { destruct (Z.lt_trichotomy (size b) (size b')) as [?|[?|?]]; [|done|].
      - destruct (proj2 (Hall (base_addr b + size b)) ltac:(left; lia)) as [?|Hx]; [lia|].
        apply Hb in Hx. lia.
      - destruct (proj1 (Hall (base_addr b' + size b')) ltac:(left; lia)) as [?|Hx]; [lia|].
        apply Hb' in Hx. lia. }
    assert (base_addr b = base_addr b') as E1 by lia.
    destruct b, b'; simpl in *; subst. f_equal.
    apply (IH _ _ _ Hwf Hwf'). intros x. specialize (Hall x).
    pose proof (Hb x). pose proof (Hb' x). intuition lia.
Qed.

Lemma allocate_search_spec (lo sz : Z) (bs : list device_memory_block) :
  0 <= lo -> wf_from lo bs -> 0 < sz ->
  match allocate_search bs sz with
  | Some (a, bs') =>
      wf_from lo bs' /\ lo <= a /\ a + sz <= PHYS_MEM_SIZE /\
      (forall x, in_free bs' x <-> in_free bs x /\ ~ in_region a sz x) /\
      (forall x, in_region a sz x -> in_free bs x)
  | None => forall b, b ∈ bs -> size b < sz
  end.
Proof.
  rewrite PHYS_MEM_SIZE_eq.
  revert lo. induction bs as [|b bs IH]; intros lo Hlo Hwf Hsz; simpl.
  { set_solver. }
  destruct Hwf as (H1 & H2 & H3 & Hwf). rewrite PHYS_MEM_SIZE_eq in H3.
  assert (forall x, in_free bs x -> base_addr b + size b + 1 <= x) as Hb
    by (intros x Hx; apply (wf_from_bound _ _ _ Hwf) in Hx; lia).
  rewrite Z.geb_leb. destruct (Z.leb_spec sz (size b)) as [Hfit|Hfit].
  - rewrite !u64_small by lia. unfold nonzero.
    destruct (Z.eqb_spec (size b - sz) 0); simpl.
    + split_and!; try lia.
      * eapply wf_from_weaken; [|done]. lia.
      * intros x. specialize (Hb x). free_solve.
      * free_solve.
    + split_and!; try lia.
      * rewrite PHYS_MEM_SIZE_eq. lia.
      * eapply wf_from_weaken; [|done]. lia.
      * intros x. specialize (Hb x). free_solve.
      * free_solve.
  - specialize (IH (base_addr b + size b + 1) ltac:(lia) Hwf Hsz).
    destruct (allocate_search bs sz) as [[a bs']|]; [|set_solver].
    destruct IH as (I1 & I2 & I3 & I4 & I5). simpl. rewrite PHYS_MEM_SIZE_eq.
    split_and!; try lia; try done.
    + intros x. specialize (I4 x). free_solve.
    + intros x Hx. specialize (I5 x Hx). free_solve.
Qed.

(** The region does not touch any free byte. *)
Definition region_used (bs : list device_memory_block) (a sz : Z) : Prop :=
  forall x, in_region a sz x -> ~ in_free bs x.

Lemma region_used_cons (b : device_memory_block) (bs : list device_memory_block) (a sz : Z) :
  region_used (b :: bs) a sz ->
  0 < sz -> 0 < size b ->
  (a + sz <= base_addr b \/ base_addr b + size b <= a) /\ region_used bs a sz.
Proof.
  intros H Hsz Hb. split.
  - assert (~ (base_addr b <= a < base_addr b + size b)) as A.
    { intros Hx. apply (H a); [unfold in_region; lia|]. rewrite in_free_cons. by left. }
    assert (~ (a <= base_addr b < a + sz)) as B.
    { intros Hx. apply (H (base_addr b)); [done|].
      rewrite in_free_cons. left. unfold in_region. lia. }
    lia.
  - intros x Hx Hf. apply (H x Hx). rewrite in_free_cons. by right.
Qed.

(** What freeing must achieve, as a predicate on the resulting list. *)
Definition freed (lo : Z) (bs bs' : list device_memory_block) (a sz : Z) : Prop :=
  wf_from lo bs' /\ forall x, in_free bs' x <-> in_free bs x \/ in_region a sz x.

(** One block added by the walk in front of a correctly updated remainder. *)
Lemma freed_cons (lo a sz : Z) (b : device_memory_block) (bs bs' : list device_memory_block) :
  lo <= base_addr b -> 0 < size b -> base_addr b + size b <= PHYS_MEM_SIZE ->
  freed (base_addr b + size b + 1) bs bs' a sz -> freed lo (b :: bs) (b :: bs') a sz.
Proof.
  intros H1 H2 H3 [Hwf Heq]. split; [simpl; auto|].
  intros x. specialize (Heq x). free_solve.
Qed.

(** The region is put in front of [cur]. *)
Lemma free_before_first (lo a sz : Z) (cur : device_memory_block)
    (rest : list device_memory_block) :
  0 <= lo <= a -> 0 < sz -> a < base_addr cur ->
  wf_from lo (cur :: rest) -> region_used (cur :: rest) a sz ->
  freed lo (cur :: rest)
    (if u64 (a + sz) =? base_addr cur
     then mk_block a (u64 (size cur + sz)) :: rest
     else add_entry (create_mem_block_entry true a sz) (cur :: rest)) a sz.
Proof.
  intros Hlo Hsz Ha (H1 & H2 & H3 & Hwf) Hused.
  rewrite PHYS_MEM_SIZE_eq in H3.
  apply region_used_cons in Hused as [Hd Hused]; [|done..].
  rewrite !u64_small by lia. unfold freed.
  destruct (Z.eqb_spec (a + sz) (base_addr cur)); simpl; rewrite PHYS_MEM_SIZE_eq.
  - split_and!; try lia; [|free_solve].
    eapply wf_from_weaken; [|done]. lia.
  - split_and!; try lia; [done|free_solve].
Qed.

(** The region is put between [p] and [cur]. *)
Lemma free_between (lo a sz : Z) (p cur : device_memory_block)
    (rest : list device_memory_block) :
  0 <= lo -> 0 < sz -> base_addr p <= a -> a < base_addr cur ->
  wf_from lo (p :: cur :: rest) -> region_used (p :: cur :: rest) a sz ->
  freed lo (p :: cur :: rest)
    (if u64 (base_addr p + size p) =? a then
       if u64 (a + sz) =? base_addr cur
       then mk_block (base_addr p) (u64 (size p + u64 (sz + size cur))) :: rest
       else mk_block (base_addr p) (u64 (size p + sz)) :: cur :: rest
     else if u64 (a + sz) =? base_addr cur
     then p :: mk_block a (u64 (size cur + sz)) :: rest
     else p :: add_entry (create_mem_block_entry true a sz) (cur :: rest)) a sz.
Proof.
  intros Hlo Hsz Hp Ha (H1 & H2 & H3 & H4 & H5 & H6 & Hwf) Hused.
  rewrite PHYS_MEM_SIZE_eq in H3, H6.
  apply region_used_cons in Hused as [Hd Hused]; [|done..].
  apply region_used_cons in Hused as [Hd' Hused]; [|done..].
  rewrite !u64_small by (rewrite ?u64_small by lia; lia). unfold freed.
  destruct (Z.eqb_spec (base_addr p + size p) a); [|];
    destruct (Z.eqb_spec (a + sz) (base_addr cur)); simpl; rewrite PHYS_MEM_SIZE_eq.
  - split_and!; try lia; [|free_solve]. eapply wf_from_weaken; [|done]. lia.
  - split_and!; try lia; [done|free_solve].
  - split_and!; try lia; [|free_solve]. eapply wf_from_weaken; [|done]. lia.
  - split_and!; try lia; [done|free_solve].
Qed.

(** The region is put behind the last block. *)
Lemma free_behind_last (lo a sz : Z) (cur : device_memory_block) :
  0 <= lo -> 0 < sz -> base_addr cur <= a -> a + sz <= PHYS_MEM_SIZE ->
  wf_from lo [cur] -> region_used [cur] a sz ->
  freed lo [cur]
    (if u64 (base_addr cur + size cur) =? a
     then [mk_block (base_addr cur) (u64 (size cur + sz))]
     else cur :: add_entry (create_mem_block_entry true a sz) []) a sz.
Proof.
  intros Hlo Hsz Ha Hmax (H1 & H2 & H3 & _) Hused.
  rewrite PHYS_MEM_SIZE_eq in H3, Hmax.
  apply region_used_cons in Hused as [Hd Hused]; [|done..].
  rewrite !u64_small by lia. unfold freed.
  destruct (Z.eqb_spec (base_addr cur + size cur) a); simpl; rewrite PHYS_MEM_SIZE_eq.
  - split_and!; try lia; free_solve.
  - split_and!; try lia; free_solve.
Qed.

Lemma free_loop_spec (a sz : Z) (rest : list device_memory_block) :
  forall (lo : Z) (prev : option device_memory_block) (cur : device_memory_block),
  0 <= lo <= a -> 0 < sz -> a + sz <= PHYS_MEM_SIZE ->
  wf_from lo (add_entry prev (cur :: rest)) ->
  match prev with Some p => base_addr p <= a | None => True end ->
  region_used (add_entry prev (cur :: rest)) a sz ->
  freed lo (add_entry prev (cur :: rest)) (free_loop true a sz prev cur rest) a sz.
Proof.
  assert (forall lo p l l', lo <= base_addr p -> 0 < size p ->
    base_addr p + size p <= PHYS_MEM_SIZE ->
    freed (base_addr p + size p + 1) l l' a sz ->
    freed lo (add_entry (Some p) l) (add_entry (Some p) l') a sz) as Hcons
    by (intros; by apply freed_cons).
  induction rest as [|next rest IH]; intros lo prev cur Hlo Hsz Hmax Hwf Hprev Hused;
    simpl free_loop; rewrite Z.gtb_ltb;
    destruct (Z.ltb_spec a (base_addr cur)) as [Hlt|Hge].
  1,3: destruct prev as [p|]; simpl in Hwf, Hused |- *;
       [apply free_between; (done || lia) | apply free_before_first; done].
  - destruct prev as [p|]; [|apply free_behind_last; (done || lia)].
    simpl in Hwf, Hused. destruct Hwf as (H1 & H2 & H3 & Hwf).
    apply region_used_cons in Hused as [_ Hused]; [|done..].
    apply Hcons; [done..|]. apply free_behind_last; (done || lia).
  - destruct prev as [p|].
    + simpl in Hwf, Hused. destruct Hwf as (H1 & H2 & H3 & Hwf).
      apply region_used_cons in Hused as [_ Hused]; [|done..].
      apply Hcons; [done..|]. destruct Hwf.
      apply (IH _ (Some cur) next); (done || lia).
    + apply (IH _ (Some cur) next); (done || lia).
Qed.

(** free_device_memory, when the entry can be allocated: the freed list is
    well formed again and holds exactly the old free bytes and the region. *)
Lemma free_device_memory_freed (bs : list device_memory_block) (a sz : Z) :
  wf_blocks bs -> 0 <= a -> 0 < sz -> a + sz <= PHYS_MEM_SIZE ->
  region_used bs a sz -> freed 0 bs (free_device_memory true bs a sz) a sz.
Proof.
  intros Hwf Ha Hsz Hmax Hused. destruct bs as [|b bs].
  - split; [simpl; lia|]. intros x. simpl. free_solve.
  - apply (free_loop_spec a sz bs 0 None b); (done || lia).
Qed.

(** Without memory for a new entry the list stays as it was, or a neighbour
    grows by the region: nothing else can happen. *)
Lemma free_loop_no_entry (a sz : Z) (rest : list device_memory_block) :
  forall (prev : option device_memory_block) (cur : device_memory_block),
  free_loop false a sz prev cur rest = add_entry prev (cur :: rest) \/
  free_loop false a sz prev cur rest = free_loop true a sz prev cur rest.
Proof.
  induction rest as [|next rest IH]; intros prev cur; simpl;
    destruct (base_addr cur >? a).
  1,3: destruct prev as [p|]; simpl;
       repeat match goal with |- context [if ?b then _ else _] => destruct b end; auto.
  - destruct (u64 (base_addr cur + size cur) =? a); auto.
  - destruct (IH (Some cur) next) as [E|E]; rewrite E; auto.
Qed.

(** ** Freeing an array of pages *)

(** The page frames that stand for the card's memory. *)
Definition dev_pfn (bpfn p : Z) : Prop :=
  0 <= bpfn /\ bpfn <= p < bpfn + PHYS_MEM_SIZE / PAGE_SIZE.

(** Byte [x] of the card's memory belongs to one of the pages. *)
Definition in_pages (bpfn : Z) (pages : list Z) (x : Z) : Prop :=
  exists p, p ∈ pages /\ in_region (pfn_to_dev_addr bpfn p) PAGE_SIZE x.

Lemma PHYS_PAGES_eq : PHYS_MEM_SIZE / PAGE_SIZE = 1048576.
Proof. reflexivity. Qed.

Lemma pfn_to_dev_addr_eq (bpfn p : Z) :
  dev_pfn bpfn p -> pfn_to_dev_addr bpfn p = (p - bpfn) * PAGE_SIZE.
Proof.
  unfold dev_pfn. rewrite PHYS_PAGES_eq. intros [H1 H2]. unfold pfn_to_dev_addr.
  rewrite (u64_small (p - bpfn)) by lia. rewrite Z.shiftl_mul_pow2 by (unfold PAGE_SHIFT; lia).
  change (2 ^ PAGE_SHIFT) with PAGE_SIZE. apply u64_small. unfold PAGE_SIZE. lia.
Qed.

Lemma run_length_lookup (last : Z) (pages : list Z) (i : nat) :
  (i < run_length last pages)%nat -> pages !! i = Some (last + 1 + Z.of_nat i).
Proof.
  revert last i. induction pages as [|p pages IH]; simpl; intros last i Hi; [lia|].
  unfold is_contiguous_page in Hi. destruct (Z.eqb_spec p (last + 1)) as [->|]; [|lia].
  destruct i as [|i]; simpl; [f_equal; lia|].
  rewrite (IH (last + 1)) by lia. f_equal. lia.
Qed.

Lemma run_length_bound (last : Z) (pages : list Z) :
  (run_length last pages <= length pages)%nat.
Proof.
  revert last. induction pages as [|p pages IH]; simpl; intros last; [lia|].
  destruct (is_contiguous_page p last); [|lia]. specialize (IH p). lia.
Qed.

(** The pages of the run that starts the array. *)
Lemma run_elem (page q : Z) (rest : list Z) :
  q ∈ take (S (run_length page rest)) (page :: rest) <->
  page <= q < page + Z.of_nat (S (run_length page rest)).
Proof.
  rewrite list_elem_of_lookup. split.
  - intros [i Hi]. apply lookup_take_Some in Hi as [Hi Hlt].
    destruct i as [|i]; simpl in Hi; [naive_solver lia|].
    rewrite (run_length_lookup page) in Hi by lia. naive_solver lia.
  - intros Hq. exists (Z.to_nat (q - page)). apply lookup_take_Some. split; [|lia].
    destruct (Z.to_nat (q - page)) as [|i] eqn:E; simpl; [f_equal; lia|].
    rewrite (run_length_lookup page) by lia. f_equal. lia.
Qed.

(** The bytes of the run are one region. *)
Lemma run_in_pages (bpfn page : Z) (rest : list Z) (x : Z) :
  (forall p, p ∈ page :: rest -> dev_pfn bpfn p) ->
  in_pages bpfn (take (S (run_length page rest)) (page :: rest)) x <->
  in_region (pfn_to_dev_addr bpfn page)
    (Z.of_nat (S (run_length page rest)) * PAGE_SIZE) x.
Proof.
  intros Hdev. set (k := S (run_length page rest)).
  assert (forall q, page <= q < page + Z.of_nat k -> dev_pfn bpfn q) as Hin.
  { intros q Hq. apply Hdev. apply run_elem in Hq. by eapply elem_of_take in Hq as (?&?%list_elem_of_lookup_2&?). }
  pose proof (Hdev page ltac:(left)) as Hp.
  rewrite (pfn_to_dev_addr_eq bpfn page Hp). unfold in_pages, in_region. split.
  - intros (q & Hq & Hx). apply run_elem in Hq.
    rewrite pfn_to_dev_addr_eq in Hx by auto. unfold PAGE_SIZE in *. nia.
  - intros Hx. exists (page + (x - (page - bpfn) * PAGE_SIZE) / PAGE_SIZE).
    assert (page <= page + (x - (page - bpfn) * PAGE_SIZE) / PAGE_SIZE < page + Z.of_nat k) as Hr.
    { unfold PAGE_SIZE in *. dlia. }
    split; [by apply run_elem|]. rewrite pfn_to_dev_addr_eq by auto.
    unfold PAGE_SIZE in *. dlia.
Qed.

(** The free list after the pages have been returned. *)
Definition pages_freed (bpfn : Z) (bs bs' : list device_memory_block) (pages : list Z) : Prop :=
  wf_blocks bs' /\ forall x, in_free bs' x <-> in_free bs x \/ in_pages bpfn pages x.

(** What the array must satisfy: distinct device pages, all of them in use. *)
Definition pages_used (bpfn : Z) (bs : list device_memory_block) (pages : list Z) : Prop :=
  NoDup pages /\ (forall p, p ∈ pages -> dev_pfn bpfn p) /\
  forall x, in_pages bpfn pages x -> ~ in_free bs x.

Lemma in_pages_app (bpfn : Z) (l k : list Z) (x : Z) :
  in_pages bpfn (l ++ k) x <-> in_pages bpfn l x \/ in_pages bpfn k x.
Proof. unfold in_pages. setoid_rewrite elem_of_app. naive_solver. Qed.

Lemma in_pages_disjoint (bpfn : Z) (l k : list Z) (x : Z) :
  NoDup (l ++ k) -> (forall p, p ∈ l ++ k -> dev_pfn bpfn p) ->
  in_pages bpfn l x -> in_pages bpfn k x -> False.
Proof.
  intros (_ & Hd & _)%NoDup_app Hdev (p & Hp & Hx) (q & Hq & Hy).
  assert (p ≠ q) by (intros ->; eapply Hd; done).
  unfold in_region in *.
  rewrite pfn_to_dev_addr_eq in Hx by (apply Hdev; set_solver).
  rewrite pfn_to_dev_addr_eq in Hy by (apply Hdev; set_solver).
  unfold PAGE_SIZE in *. nia.
Qed.

(** What holds of a free whatever [kmalloc] answers: only bytes of the region
    become free. *)
Definition freed_within (bs bs' : list device_memory_block) (P : Z -> Prop) : Prop :=
  wf_blocks bs' /\ forall x, in_free bs' x -> in_free bs x \/ P x.

Lemma free_device_memory_cases (ok : bool) (bs : list device_memory_block) (a sz : Z) :
  free_device_memory ok bs a sz = bs \/
  free_device_memory ok bs a sz = free_device_memory true bs a sz.
Proof.
  destruct ok; [by right|]. destruct bs as [|b bs]; simpl; [by left|].
  apply free_loop_no_entry.
Qed.

Lemma free_device_memory_within (ok : bool) (bs : list device_memory_block) (a sz : Z) :
  wf_blocks bs -> 0 <= a -> 0 < sz -> a + sz <= PHYS_MEM_SIZE -> region_used bs a sz ->
  freed_within bs (free_device_memory ok bs a sz) (in_region a sz).
Proof.
  intros Hwf Ha Hsz Hmax Hused.
  destruct (free_device_memory_cases ok bs a sz) as [-> | ->]; [split; auto|].
  destruct (free_device_memory_freed bs a sz) as [Hwf' Heq]; try done.
  split; [done|]. intros x Hx. by apply Heq.
Qed.

(** Pages that are in use stay in use when others are freed. *)
Lemma pages_used_frame (bpfn : Z) (bs bs' : list device_memory_block) (l k : list Z) :
  pages_used bpfn bs (l ++ k) -> freed_within bs bs' (in_pages bpfn l) ->
  pages_used bpfn bs' k.
Proof.
  intros (Hnd & Hdev & Hused) [_ Hle]. split_and!.
  - by apply NoDup_app in Hnd as (_ & _ & ?).
  - intros p ?. apply Hdev. set_solver.
  - intros x Hx Hf. apply Hle in Hf as [Hf|Hf].
    + apply (Hused x); [|done]. rewrite in_pages_app. by right.
    + by eapply in_pages_disjoint.
Qed.

(** The region of the run at the head of an array of used pages. *)
Lemma run_region (bpfn page : Z) (bs : list device_memory_block) (rest : list Z) :
  pages_used bpfn bs (page :: rest) ->
  let k := S (run_length page rest) in
  let a := pfn_to_dev_addr bpfn page in
  let sz := u64 (Z.of_nat k * PAGE_SIZE) in
  0 <= a /\ 0 < sz /\ a + sz <= PHYS_MEM_SIZE /\ region_used bs a sz /\
  forall x, in_region a sz x <-> in_pages bpfn (take k (page :: rest)) x.
Proof.
  intros (Hnd & Hdev & Hused) k a sz.
  assert (0 < Z.of_nat k) as Hk by (unfold k; lia).
  assert (page :: rest = take k (page :: rest) ++ drop k (page :: rest)) as Esplit
    by (by rewrite take_drop).
  pose proof (Hdev page ltac:(left)) as Hp.
  assert (dev_pfn bpfn (page + Z.of_nat k - 1)) as Hlast.
  { apply Hdev. assert (page + Z.of_nat k - 1 ∈ take k (page :: rest)) as Hin
      by (apply run_elem; lia). rewrite Esplit. set_solver. }
  assert (a + Z.of_nat k * PAGE_SIZE <= PHYS_MEM_SIZE) as Hmax.
  { unfold a. rewrite pfn_to_dev_addr_eq by done. unfold dev_pfn in Hlast.
    rewrite PHYS_PAGES_eq in Hlast. rewrite PHYS_MEM_SIZE_eq. unfold PAGE_SIZE. lia. }
  assert (0 <= a) by (unfold a, pfn_to_dev_addr; apply u64_range).
  rewrite PHYS_MEM_SIZE_eq in *.
  assert (sz = Z.of_nat k * PAGE_SIZE) as Esz
    by (apply u64_small; unfold PAGE_SIZE in *; lia).
  pose proof (fun x => run_in_pages bpfn page rest x Hdev) as Hrun. fold k a in Hrun.
  rewrite Esz. unfold PAGE_SIZE in *. split_and!; try lia.
  - intros x Hx. apply Hused. rewrite Esplit, in_pages_app. left. by apply Hrun.
  - intros x. symmetry. apply Hrun.
Qed.

(** One iteration, whatever [kmalloc] answers. *)
Lemma pages_free_iter_within (ok : bool) (bpfn page : Z) (bs : list device_memory_block)
    (rest : list Z) :
  wf_blocks bs -> pages_used bpfn bs (page :: rest) ->
  let k := S (run_length page rest) in
  let (bs', pages') := pages_free_iter ok bpfn bs page rest in
  pages' = drop k (page :: rest) /\
  freed_within bs bs' (in_pages bpfn (take k (page :: rest))).
Proof.
  intros Hwf Hused k. unfold pages_free_iter. fold k. split; [done|].
  destruct (run_region bpfn page bs rest Hused) as (H1 & H2 & H3 & H4 & H5).
  destruct (free_device_memory_within ok bs _ _ Hwf H1 H2 H3 H4) as [Hwf' Hle].
  split; [done|]. intros x [Hx|Hx]%Hle; [by left|right]. by apply H5.
Qed.

(** One iteration when the entry can be allocated. *)
Lemma pages_free_iter_freed (bpfn page : Z) (bs : list device_memory_block) (rest : list Z) :
  wf_blocks bs -> pages_used bpfn bs (page :: rest) ->
  let k := S (run_length page rest) in
  let (bs', pages') := pages_free_iter true bpfn bs page rest in
  pages' = drop k (page :: rest) /\ pages_freed bpfn bs bs' (take k (page :: rest)).
Proof.
  intros Hwf Hused k. unfold pages_free_iter. fold k. split; [done|].
  destruct (run_region bpfn page bs rest Hused) as (H1 & H2 & H3 & H4 & H5).
  destruct (free_device_memory_freed bs _ _ Hwf H1 H2 H3 H4) as [Hwf' Heq].
  split; [done|]. intros x. etransitivity; [exact (Heq x)|].
  specialize (H5 x). fold k in H5 |- *. tauto.
Qed.

Lemma pages_freed_within (bpfn : Z) (bs bs' : list device_memory_block) (l : list Z) :
  pages_freed bpfn bs bs' l -> freed_within bs bs' (in_pages bpfn l).
Proof. intros [Hwf Heq]. split; [done|]. intros x Hx. by apply Heq. Qed.

Lemma pages_free_loop_spec (bpfn : Z) (fuel : nat) :
  forall (bs : list device_memory_block) (pages : list Z),
  (length pages <= fuel)%nat -> wf_blocks bs -> pages_used bpfn bs pages ->
  pages_freed bpfn bs (pages_free_loop fuel [] bpfn bs pages) pages.
Proof.
  induction fuel as [|fuel IH]; intros bs [|page rest] Hlen Hwf Hused; simpl in Hlen; try lia.
  1,2: split; [done|]; intros x; simpl; unfold in_pages; set_solver.
  pose proof (pages_free_iter_freed bpfn page bs rest Hwf Hused) as Hiter.
  cbn [pages_free_loop hd tl].
  set (k := S (run_length page rest)) in *.
  destruct (pages_free_iter true bpfn bs page rest) as [bs' pages'].
  destruct Hiter as [-> Hfreed]. edestruct (IH bs' (drop k (page :: rest))) as [Hwf'' Heq''].
  - rewrite length_drop. simpl. lia.
  - apply Hfreed.
  - eapply (pages_used_frame bpfn bs _ (take k (page :: rest))); [by rewrite take_drop|].
    by apply pages_freed_within.
  - split; [exact Hwf''|]. intros x. destruct Hfreed as [_ Heq].
    pose proof (in_pages_app bpfn (take k (page :: rest)) (drop k (page :: rest)) x) as Happ.
    rewrite take_drop in Happ. etransitivity; [exact (Heq'' x)|].
    rewrite (Heq x), Happ. tauto.
Qed.

(** ** Properties of the allocator *)

(** C1: allocate_device_memory on a well-formed free list either returns
    [(uint64_t)-1] and leaves the list alone, and then no block is large
    enough, or returns a region that lies in the card's memory, was entirely
    free and is exactly what leaves the free list, which stays well formed. *)
Theorem allocate_device_memory_correct (bs : list device_memory_block) (sz : Z) :
  wf_blocks bs -> 0 < sz ->
  let (a, bs') := allocate_device_memory bs sz in
  (a = u64 (-1) /\ bs' = bs /\ forall b, b ∈ bs -> size b < sz) \/
  (a <> u64 (-1) /\ 0 <= a /\ a + sz <= PHYS_MEM_SIZE /\ wf_blocks bs' /\
   (forall x, in_region a sz x -> in_free bs x) /\
   (forall x, in_free bs' x <-> in_free bs x /\ ~ in_region a sz x)).
Proof.
  intros Hwf Hsz. unfold allocate_device_memory.
  pose proof (allocate_search_spec 0 sz bs ltac:(lia) Hwf Hsz) as Hspec.
  destruct (allocate_search bs sz) as [[a bs']|].
  - right. destruct Hspec as (H1 & H2 & H3 & H4 & H5).
    rewrite PHYS_MEM_SIZE_eq in *. split_and!; try done; try lia.
    change (u64 (-1)) with 18446744073709551615. lia.
  - by left.
Qed.

(** C2: free_device_memory of a region that is in use, with memory for a list
    entry, gives a well-formed list (in order, merged, in bounds) whose free
    bytes are the old ones and exactly those of the region. *)
Theorem free_device_memory_correct (bs : list device_memory_block) (a sz : Z) :
  wf_blocks bs -> 0 <= a -> 0 < sz -> a + sz <= PHYS_MEM_SIZE ->
  region_used bs a sz ->
  wf_blocks (free_device_memory true bs a sz) /\
  forall x, in_free (free_device_memory true bs a sz) x <->
            in_free bs x \/ in_region a sz x.
Proof. apply free_device_memory_freed. Qed.

(** Freeing what was just allocated restores the very same free list. *)
Theorem allocate_free_roundtrip (bs bs' : list device_memory_block) (sz a : Z) :
  wf_blocks bs -> 0 < sz -> allocate_device_memory bs sz = (a, bs') ->
  a <> u64 (-1) -> free_device_memory true bs' a sz = bs.
Proof.
  intros Hwf Hsz Ea Hne. unfold allocate_device_memory in Ea.
  pose proof (allocate_search_spec 0 sz bs ltac:(lia) Hwf Hsz) as Hspec.
  destruct (allocate_search bs sz) as [[a0 bs0]|]; [|congruence].
  injection Ea as -> ->. destruct Hspec as (Hwf' & Ha & Hmax & Hfree & Hreg).
  assert (freed 0 bs' (free_device_memory true bs' a sz) a sz) as [Hwf'' Heq].
  { apply free_device_memory_freed; try done. intros x Hx Hf.
    by apply Hfree in Hf as [_ Hf]. }
  apply (wf_from_canonical 0 0); [done..|].
  intros x. rewrite (Heq x), (Hfree x). specialize (Hreg x).
  assert (in_region a sz x \/ ~ in_region a sz x) by (unfold in_region; lia). tauto.
Qed.

(** handle_device_pages_free, which frees runs of adjacent pages with one
    call each, terminates with exactly the bytes of all its pages added to a
    well-formed free list, for distinct pages that are in use. *)
Theorem handle_device_pages_free_correct (bpfn : Z)
    (bs : list device_memory_block) (pages : list Z) :
  wf_blocks bs -> pages_used bpfn bs pages ->
  wf_blocks (handle_device_pages_free [] bpfn bs pages) /\
  forall x, in_free (handle_device_pages_free [] bpfn bs pages) x <->
            in_free bs x \/ in_pages bpfn pages x.
Proof. intros. by apply pages_free_loop_spec. Qed.

(** ** Witnesses *)

Lemma allocate_device_memory_correct_witness :
  wf_blocks initial_blocks /\
  let (a, bs') := allocate_device_memory initial_blocks 8192 in
  (a = u64 (-1) /\ bs' = initial_blocks /\ forall b, b ∈ initial_blocks -> size b < 8192) \/
  (a <> u64 (-1) /\ 0 <= a /\ a + 8192 <= PHYS_MEM_SIZE /\ wf_blocks bs' /\
   (forall x, in_region a 8192 x -> in_free initial_blocks x) /\
   (forall x, in_free bs' x <-> in_free initial_blocks x /\ ~ in_region a 8192 x)).
Proof.
  assert (wf_blocks initial_blocks) as Hwf by (vm_compute; intuition discriminate).
  split; [exact Hwf|].
  exact (allocate_device_memory_correct initial_blocks 8192 Hwf ltac:(lia)).
Defined.

(** Two free blocks around a used page. *)
Definition example_blocks : list device_memory_block :=
  [mk_block 0 4096; mk_block 8192 4096].

Lemma example_blocks_wf : wf_blocks example_blocks.
Proof. vm_compute. intuition discriminate. Defined.

Lemma example_blocks_used : region_used example_blocks 4096 4096.
Proof.
  intros x Hx. unfold example_blocks. rewrite !in_free_cons, in_free_nil.
  unfold in_region in *. simpl. lia.
Defined.

Lemma free_device_memory_correct_witness :
  free_device_memory true example_blocks 4096 4096 = [mk_block 0 12288] /\
  wf_blocks (free_device_memory true example_blocks 4096 4096) /\
  forall x, in_free (free_device_memory true example_blocks 4096 4096) x <->
            in_free example_blocks x \/ in_region 4096 4096 x.
Proof.
  split; [vm_compute; reflexivity|].
  apply (free_device_memory_correct example_blocks 4096 4096);
    [exact example_blocks_wf|lia|lia|rewrite PHYS_MEM_SIZE_eq; lia|exact example_blocks_used].
Defined.

Lemma allocate_free_roundtrip_witness :
  allocate_device_memory example_blocks 4096 = (0, [mk_block 8192 4096]) /\
  free_device_memory true [mk_block 8192 4096] 0 4096 = example_blocks.
Proof.
  split; [vm_compute; reflexivity|].
  apply (allocate_free_roundtrip example_blocks [mk_block 8192 4096] 4096 0);
    [exact example_blocks_wf|lia|vm_compute; reflexivity|vm_compute; discriminate].
Defined.

Lemma handle_device_pages_free_correct_witness :
  handle_device_pages_free [] 1000 [mk_block 0 4096] [1002; 1003; 1001] =
    [mk_block 0 16384] /\
  wf_blocks (handle_device_pages_free [] 1000 [mk_block 0 4096] [1002; 1003; 1001]) /\
  forall x, in_free (handle_device_pages_free [] 1000 [mk_block 0 4096] [1002; 1003; 1001]) x <->
            in_free [mk_block 0 4096] x \/ in_pages 1000 [1002; 1003; 1001] x.
Proof.
  split; [vm_compute; reflexivity|].
  apply (handle_device_pages_free_correct 1000 [mk_block 0 4096] [1002; 1003; 1001]).
  - vm_compute. intuition discriminate.
  - assert (forall p, p ∈ [1002; 1003; 1001] -> dev_pfn 1000 p) as Hdev.
    { intros p Hp. unfold dev_pfn. rewrite PHYS_PAGES_eq. set_unfold. lia. }
    split_and!; [|exact Hdev|].
    + rewrite !NoDup_cons. set_unfold. split_and!; [lia..|constructor].
    + intros x (p & Hp & Hx). rewrite pfn_to_dev_addr_eq in Hx by auto.
      rewrite in_free_cons, in_free_nil. unfold in_region, PAGE_SIZE in *. simpl.
      set_unfold. lia.
Defined.

End DevMem.
