(* ===== verification/DevPages.v ===== *)
(** * Life cycle of device pages in the SVM subsystem (pcie/pcie_svm.c)

    Device memory is handed out in pages by [svm_migrate_ram_to_dev] and
    [svm_migrate_dev_to_dev] and comes back on two asynchronous paths: the
    kernel drops the last reference of a page ([kernel_page_free], which queues
    one page), or a migration away from the device queues its array of pages.
    This file models the shared state, the operations as steps, and proves
    that no interleaving gives a page to two owners and that none is lost
    unless an allocation of a list entry or work item fails. *)
From S2P Require Import Prelude.
From S2P Require Import DevMem.

Module DevPages.
Import DevMem.

(** ** Data and operations: work items that free memory later

    Device pages are returned to the allocator by work items on two queues.
    [zone_device_data] records for which page frames that field of the
    [struct page] is not NULL. *)
Record svm_mem := mk_mem {
  base_pfn : Z;
  free_mem_blocks : list device_memory_block;
  dev_mem_free_queue : list (Z * Z);
  dev_pages_free_queue : list (list Z);
  zone_device_data : gset Z
}.

(** queue_dev_mem_free_work: the result is C's [true]/[false]; a freshly
    initialised work item is always accepted by [queue_work]. *)
Definition queue_dev_mem_free_work (kmalloc_ok : bool) (m : svm_mem)
    (dev_addr sz : Z) : bool * svm_mem :=
  if kmalloc_ok
  then (true, mk_mem (base_pfn m) (free_mem_blocks m)
                (dev_mem_free_queue m ++ [(dev_addr, sz)])
                (dev_pages_free_queue m) (zone_device_data m))
  else (false, m).

(** queue_dev_pages_free_work *)
Definition queue_dev_pages_free_work (kmalloc_ok : bool) (m : svm_mem)
    (pages : list Z) : bool * svm_mem :=
  if kmalloc_ok
  then (true, mk_mem (base_pfn m) (free_mem_blocks m) (dev_mem_free_queue m)
                (dev_pages_free_queue m ++ [pages]) (zone_device_data m))
  else (false, m).

(** free_device_page, called by kernel_page_free when the kernel drops the
    last reference of a device page. *)
Definition free_device_page (kmalloc_ok : bool) (m : svm_mem) (page : Z) : svm_mem :=
  if decide (page ∈ zone_device_data m)
  then snd (queue_dev_mem_free_work kmalloc_ok m
              (pfn_to_dev_addr (base_pfn m) page) PAGE_SIZE)
  else m.

(** handle_device_memory_free for the item at index [i]; the queue is unbounded
    in concurrency, so the items may be handled in any order. *)
Definition handle_device_memory_free (kmalloc_ok : bool) (m : svm_mem) (i : nat) : svm_mem :=
  match dev_mem_free_queue m !! i with
  | None => m
  | Some (dev_addr, sz) =>
      mk_mem (base_pfn m)
        (free_device_memory kmalloc_ok (free_mem_blocks m) dev_addr sz)
        (delete i (dev_mem_free_queue m)) (dev_pages_free_queue m) (zone_device_data m)
  end.

(** Allocation of the destination pages of a migration: one region for all of
    them, its page frames, and their [zone_device_data] set.  [None] is the
    failure path (address -1). *)
Definition alloc_device_pages (m : svm_mem) (npages : Z) : option (list Z * svm_mem) :=
  let (dev_base_addr, bs') :=
    allocate_device_memory (free_mem_blocks m) (u64 (npages * PAGE_SIZE)) in
  if dev_base_addr =? u64 (-1) then None
  else
    let pages := seqZ (dev_addr_to_pfn (base_pfn m) dev_base_addr) npages in
    Some (pages, mk_mem (base_pfn m) bs' (dev_mem_free_queue m)
                   (dev_pages_free_queue m)
                   (zone_device_data m ∪ list_to_set pages)).

(** The end of a migration away from the device: the pages lose their owner
    and are queued for freeing. *)
Definition retire_pages (kmalloc_ok : bool) (m : svm_mem) (pages : list Z) : svm_mem :=
  snd (queue_dev_pages_free_work kmalloc_ok
         (mk_mem (base_pfn m) (free_mem_blocks m) (dev_mem_free_queue m)
            (dev_pages_free_queue m) (zone_device_data m ∖ list_to_set pages))
         pages).

(** One iteration of handle_device_pages_free for the item at index [i]: the
    mutex is taken for each run separately, so workers interleave between
    iterations.  An item whose array is exhausted disappears. *)
Definition work_device_pages_free (kmalloc_ok : bool) (m : svm_mem) (i : nat) : svm_mem :=
  match dev_pages_free_queue m !! i with
  | Some (page :: rest) =>
      let (blocks', pages') :=
        pages_free_iter kmalloc_ok (base_pfn m) (free_mem_blocks m) page rest in
      mk_mem (base_pfn m) blocks' (dev_mem_free_queue m)
        (take i (dev_pages_free_queue m) ++
         (if pages' is [] then [] else [pages']) ++
         drop (S i) (dev_pages_free_queue m))
        (zone_device_data m)
  | _ => m
  end.

(** ** The step relation

    The first component lists the pages that are in use by a migration or by
    the process; it only records what the kernel may do next.  [allowed] says
    which answers of [kmalloc] are considered. *)
Section Steps.
Variable allowed : bool -> Prop.

Inductive mem_step : list Z * svm_mem -> list Z * svm_mem -> Prop :=
| step_alloc (live : list Z) (m m' : svm_mem) (npages : Z) (pages : list Z) :
    0 < npages -> npages * PAGE_SIZE <= PHYS_MEM_SIZE ->
    alloc_device_pages m npages = Some (pages, m') ->
    mem_step (live, m) (pages ++ live, m')
| step_page_free (live : list Z) (m : svm_mem) (p : Z) (ok : bool) :
    allowed ok -> p ∈ zone_device_data m ->
    mem_step (p :: live, m) (live, free_device_page ok m p)
| step_page_free_retired (live : list Z) (m : svm_mem) (p : Z) (ok : bool) :
    allowed ok -> p ∉ zone_device_data m ->
    mem_step (live, m) (live, free_device_page ok m p)
| step_retire (live : list Z) (m : svm_mem) (pages : list Z) (ok : bool) :
    allowed ok -> mem_step (pages ++ live, m) (live, retire_pages ok m pages)
| step_work_mem (live : list Z) (m : svm_mem) (ok : bool) (i : nat) :
    allowed ok -> mem_step (live, m) (live, handle_device_memory_free ok m i)
| step_work_pages (live : list Z) (m : svm_mem) (ok : bool) (i : nat) :
    allowed ok -> mem_step (live, m) (live, work_device_pages_free ok m i)
| step_reorder (live live' : list Z) (m : svm_mem) :
    Permutation live live' -> mem_step (live, m) (live', m).

(** Right after pcie_init_svm. *)
Definition mem_init (bpfn : Z) : list Z * svm_mem :=
  ([], mk_mem bpfn initial_blocks [] [] ∅).

Inductive mem_reach (bpfn : Z) : list Z * svm_mem -> Prop :=
| reach_init : mem_reach bpfn (mem_init bpfn)
| reach_step (s s' : list Z * svm_mem) :
    mem_reach bpfn s -> mem_step s s' -> mem_reach bpfn s'.
End Steps.

(** ** The invariant *)

(** The pages waiting in the two queues. *)
Definition pages_of_item (bpfn : Z) (item : Z * Z) : Z := dev_addr_to_pfn bpfn (fst item).

Definition pending (m : svm_mem) : list Z :=
  map (pages_of_item (base_pfn m)) (dev_mem_free_queue m) ++ concat (dev_pages_free_queue m).

Definition aligned_block (b : device_memory_block) : Prop :=
  base_addr b mod PAGE_SIZE = 0 /\ size b mod PAGE_SIZE = 0.

(** Every item of the first queue is one whole page. *)
Definition page_item (bpfn : Z) (item : Z * Z) : Prop :=
  item = (pfn_to_dev_addr bpfn (pages_of_item bpfn item), PAGE_SIZE).

Record mem_inv (bpfn : Z) (live : list Z) (m : svm_mem) : Prop := {
  inv_base : base_pfn m = bpfn;
  inv_wf : wf_blocks (free_mem_blocks m);
  inv_aligned : Forall aligned_block (free_mem_blocks m);
  inv_items : Forall (page_item bpfn) (dev_mem_free_queue m);
  inv_used : pages_used bpfn (free_mem_blocks m) (live ++ pending m)
}.

(** Nothing is lost: every byte is free or belongs to an owned page. *)
Definition mem_complete (bpfn : Z) (live : list Z) (m : svm_mem) : Prop :=
  forall x, 0 <= x < PHYS_MEM_SIZE ->
    in_free (free_mem_blocks m) x \/ in_pages bpfn (live ++ pending m) x.

(** ** Lemmas *)

Lemma mod_wrap_page (x : Z) : x mod PAGE_SIZE = 0 -> u64 x mod PAGE_SIZE = 0.
Proof.
  unfold_words. unfold PAGE_SIZE. intros. dlia.
Qed.

Lemma mod_add_page (x y : Z) :
  x mod PAGE_SIZE = 0 -> y mod PAGE_SIZE = 0 -> (x + y) mod PAGE_SIZE = 0.
Proof. unfold PAGE_SIZE. intros. dlia. Qed.

#[local] Hint Resolve mod_wrap_page mod_add_page : tlkm.

Lemma allocate_search_aligned (bs bs' : list device_memory_block) (sz a : Z) :
  Forall aligned_block bs -> sz mod PAGE_SIZE = 0 ->
  allocate_search bs sz = Some (a, bs') ->
  a mod PAGE_SIZE = 0 /\ Forall aligned_block bs'.
Proof.
  revert a bs'. induction bs as [|b bs IH]; simpl; intros a bs' Hal Hsz E; [done|].
  apply Forall_cons in Hal as [[Hb Hs] Hal].
  destruct (size b >=? sz).
  - injection E as <- <-. split; [done|].
    destruct (nonzero (u64 (size b - sz))); [|done].
    constructor; [|done]. split; simpl; [auto with tlkm|].
    apply mod_wrap_page. unfold PAGE_SIZE in *. dlia.
  - destruct (allocate_search bs sz) as [[a0 bs0]|]; [|done].
    injection E as <- <-. edestruct IH as [? ?]; [done..|].
    split; [done|]. constructor; done.
Qed.

Lemma free_loop_aligned (ok : bool) (a sz : Z) (rest : list device_memory_block) :
  forall (prev : option device_memory_block) (cur : device_memory_block),
  a mod PAGE_SIZE = 0 -> sz mod PAGE_SIZE = 0 ->
  Forall aligned_block (add_entry prev (cur :: rest)) ->
  Forall aligned_block (free_loop ok a sz prev cur rest).
Proof.
  induction rest as [|next rest IH]; intros prev cur Ha Hsz Hal;
    [|pose proof (IH (Some cur) next Ha Hsz) as IH']; simpl;
    destruct (base_addr cur >? a); destruct prev as [p|]; destruct ok;
    simpl in *; rewrite ?Forall_cons in *; unfold aligned_block in *;
    repeat match goal with |- context [if ?b then _ else _] => destruct b end;
    rewrite ?Forall_cons; simpl; intuition auto with tlkm.
Qed.

Lemma free_device_memory_aligned (ok : bool) (bs : list device_memory_block) (a sz : Z) :
  a mod PAGE_SIZE = 0 -> sz mod PAGE_SIZE = 0 -> Forall aligned_block bs ->
  Forall aligned_block (free_device_memory ok bs a sz).
Proof.
  intros Ha Hsz Hal. destruct bs as [|b bs]; simpl.
  - destruct ok; repeat constructor; done.
  - apply free_loop_aligned; done.
Qed.

Lemma pfn_to_dev_addr_aligned (bpfn p : Z) : pfn_to_dev_addr bpfn p mod PAGE_SIZE = 0.
Proof.
  unfold pfn_to_dev_addr. apply mod_wrap_page.
  rewrite Z.shiftl_mul_pow2 by (unfold PAGE_SHIFT; lia). apply Z.mod_mul. done.
Qed.

Lemma pages_free_iter_aligned (ok : bool) (bpfn page : Z) (bs : list device_memory_block)
    (rest : list Z) :
  Forall aligned_block bs ->
  Forall aligned_block (fst (pages_free_iter ok bpfn bs page rest)).
Proof.
  intros Hal. apply free_device_memory_aligned; [apply pfn_to_dev_addr_aligned| |done].
  apply mod_wrap_page, Z.mod_mul. done.
Qed.

Lemma dev_addr_pfn_roundtrip (bpfn p : Z) :
  dev_pfn bpfn p -> p < 2 ^ 64 -> dev_addr_to_pfn bpfn (pfn_to_dev_addr bpfn p) = p.
Proof.
  intros Hp Hmax. rewrite pfn_to_dev_addr_eq by done. unfold dev_addr_to_pfn.
  rewrite Z.shiftr_div_pow2 by (unfold PAGE_SHIFT; lia).
  change (2 ^ PAGE_SHIFT) with PAGE_SIZE.
  rewrite Z.div_mul by done. unfold dev_pfn in Hp. rewrite u64_small by lia. lia.
Qed.

Lemma in_pages_perm (bpfn : Z) (l k : list Z) (x : Z) :
  Permutation l k -> in_pages bpfn l x <-> in_pages bpfn k x.
Proof. intros Hp. unfold in_pages. by setoid_rewrite Hp. Qed.

Lemma pages_used_perm (bpfn : Z) (bs : list device_memory_block) (l k : list Z) :
  Permutation l k -> pages_used bpfn bs l -> pages_used bpfn bs k.
Proof.
  intros Hp (Hnd & Hdev & Hused). split_and!.
  - by rewrite <- Hp.
  - intros p Hk. apply Hdev. by rewrite Hp.
  - intros x Hx. apply Hused. by eapply in_pages_perm.
Qed.

Lemma pages_used_app_r (bpfn : Z) (bs : list device_memory_block) (l k : list Z) :
  wf_blocks bs -> pages_used bpfn bs (l ++ k) -> pages_used bpfn bs k.
Proof. intros Hwf H. eapply pages_used_frame; [exact H|]. split; [done|]. auto. Qed.

Lemma in_pages_singleton (bpfn p x : Z) :
  in_pages bpfn [p] x <-> in_region (pfn_to_dev_addr bpfn p) PAGE_SIZE x.
Proof. unfold in_pages. setoid_rewrite list_elem_of_singleton. naive_solver. Qed.

(** The pages of a region that starts at a page boundary. *)
Lemma region_pages (bpfn a n : Z) :
  0 <= bpfn -> bpfn + PHYS_MEM_SIZE / PAGE_SIZE <= 2 ^ 64 ->
  0 <= a -> a mod PAGE_SIZE = 0 -> 0 < n -> a + n * PAGE_SIZE <= PHYS_MEM_SIZE ->
  let pages := seqZ (dev_addr_to_pfn bpfn a) n in
  (forall p, p ∈ pages -> dev_pfn bpfn p) /\
  forall x, in_pages bpfn pages x <-> in_region a (n * PAGE_SIZE) x.
Proof.
  rewrite PHYS_PAGES_eq, PHYS_MEM_SIZE_eq. intros Hb Hb' Ha Hal Hn Hmax pages.
  assert (dev_addr_to_pfn bpfn a = a / PAGE_SIZE + bpfn) as Epfn.
  { unfold dev_addr_to_pfn. rewrite Z.shiftr_div_pow2 by (unfold PAGE_SHIFT; lia).
    change (2 ^ PAGE_SHIFT) with PAGE_SIZE. apply u64_small. unfold PAGE_SIZE in *. dlia. }
  assert (forall p, p ∈ pages <-> a / PAGE_SIZE + bpfn <= p < a / PAGE_SIZE + bpfn + n) as Hpages
    by (intros p; unfold pages; rewrite elem_of_seqZ, Epfn; done).
  assert (forall p, p ∈ pages -> dev_pfn bpfn p) as Hdev.
  { intros p Hp. apply Hpages in Hp. unfold dev_pfn. rewrite PHYS_PAGES_eq.
    unfold PAGE_SIZE in *. dlia. }
  split; [done|]. intros x. unfold in_pages, in_region. split.
  - intros (p & Hp & Hx). rewrite pfn_to_dev_addr_eq in Hx by auto. apply Hpages in Hp.
    unfold PAGE_SIZE in *. dlia.
  - intros Hx. exists (x / PAGE_SIZE + bpfn).
    assert (x / PAGE_SIZE + bpfn ∈ pages) as Hin
      by (apply Hpages; unfold PAGE_SIZE in *; dlia).
    split; [done|]. rewrite pfn_to_dev_addr_eq by auto. unfold PAGE_SIZE in *. dlia.
Qed.

(** Pages of a free region and pages in use are distinct. *)
Lemma pages_used_extend (bpfn : Z) (bs bs' : list device_memory_block) (a sz : Z)
    (pages l : list Z) :
  NoDup pages -> (forall p, p ∈ pages -> dev_pfn bpfn p) ->
  (forall x, in_pages bpfn pages x <-> in_region a sz x) ->
  (forall x, in_region a sz x -> in_free bs x) ->
  (forall x, in_free bs' x <-> in_free bs x /\ ~ in_region a sz x) ->
  pages_used bpfn bs l -> pages_used bpfn bs' (pages ++ l).
Proof.
  intros Hnd Hdev Hreg Hfree Hbs' (Hnd' & Hdev' & Hused). split_and!.
  - apply NoDup_app. split_and!; [done| |done]. intros p Hp Hp'.
    assert (in_region (pfn_to_dev_addr bpfn p) PAGE_SIZE (pfn_to_dev_addr bpfn p)) as Hself
      by (unfold in_region, PAGE_SIZE; lia).
    apply (Hused (pfn_to_dev_addr bpfn p)); [by exists p|]. apply Hfree, Hreg. by exists p.
  - intros p [?|?]%elem_of_app; auto.
  - intros x [Hx|Hx]%in_pages_app Hf; apply Hbs' in Hf as [Hf Hn].
    + apply Hn. by apply Hreg.
    + by apply (Hused x).
Qed.

Lemma pending_move (live A B : list Z) (p : Z) :
  Permutation (p :: live ++ A ++ B) (live ++ (A ++ [p]) ++ B).
Proof. solve_Permutation. Qed.

Section Preservation.
Variable bpfn : Z.
Hypothesis bpfn_pos : 0 <= bpfn.
Hypothesis bpfn_max : bpfn + PHYS_MEM_SIZE / PAGE_SIZE <= 2 ^ 64.

Lemma alloc_device_pages_spec (live pages : list Z) (m m' : svm_mem) (n : Z) :
  mem_inv bpfn live m -> 0 < n -> n * PAGE_SIZE <= PHYS_MEM_SIZE ->
  alloc_device_pages m n = Some (pages, m') ->
  mem_inv bpfn (pages ++ live) m' /\
  (forall x, in_pages bpfn pages x -> in_free (free_mem_blocks m) x) /\
  (forall x, in_free (free_mem_blocks m) x ->
     in_free (free_mem_blocks m') x \/ in_pages bpfn pages x) /\
  pending m' = pending m.
Proof.
  intros [Eb Hwf Hal Hit Hused] Hn Hmax E.
  unfold alloc_device_pages, allocate_device_memory in E.
  rewrite PHYS_MEM_SIZE_eq in Hmax.
  assert (u64 (n * PAGE_SIZE) = n * PAGE_SIZE) as Esz
    by (apply u64_small; unfold PAGE_SIZE in *; lia).
  rewrite Esz in E.
  pose proof (allocate_search_spec 0 (n * PAGE_SIZE) _ ltac:(lia) Hwf ltac:(unfold PAGE_SIZE; lia)) as Hspec.
  destruct (allocate_search (free_mem_blocks m) (n * PAGE_SIZE)) as [[a bs']|] eqn:Es;
    [|by rewrite Z.eqb_refl in E].
  destruct (Z.eqb_spec a (u64 (-1))); [done|]. injection E as <- <-.
  destruct Hspec as (Hwf' & Ha & Ha' & Hfree & Hreg).
  apply allocate_search_aligned in Es as [Hal1 Hal2]; [|done|apply Z.mod_mul; done].
  rewrite Eb. destruct (region_pages bpfn a n) as [Hdev Hpg]; try done.
  simpl. split_and!.
  - constructor; simpl; try done. unfold pending; simpl. rewrite <- app_assoc.
    eapply pages_used_extend; try done; [apply NoDup_seqZ|]. 
    unfold pending in Hused. by rewrite Eb in Hused.
  - intros x Hx. by apply Hreg, Hpg.
  - intros x Hx. rewrite Hfree, Hpg.
    assert (in_region a (n * PAGE_SIZE) x \/ ~ in_region a (n * PAGE_SIZE) x)
      by (unfold in_region; lia). tauto.
  - unfold pending. simpl. by rewrite Eb.
Qed.

Lemma page_item_intro (p : Z) :
  dev_pfn bpfn p ->
  page_item bpfn (pfn_to_dev_addr bpfn p, PAGE_SIZE) /\
  pages_of_item bpfn (pfn_to_dev_addr bpfn p, PAGE_SIZE) = p.
Proof.
  intros Hp. unfold page_item, pages_of_item. simpl.
  assert (p < 2 ^ 64) by (unfold dev_pfn in Hp; lia).
  by rewrite dev_addr_pfn_roundtrip.
Qed.

Lemma free_page_preserves (ok : bool) (live : list Z) (m : svm_mem) (p : Z) :
  mem_inv bpfn (p :: live) m -> p ∈ zone_device_data m ->
  mem_inv bpfn live (free_device_page ok m p).
Proof.
  intros [Eb Hwf Hal Hit Hused] Hz.
  unfold free_device_page. rewrite decide_True by done. unfold queue_dev_mem_free_work.
  destruct ok; simpl.
  - assert (dev_pfn bpfn p) as Hp by (apply Hused; left).
    destruct (page_item_intro p Hp) as [Hitem Epg].
    constructor; simpl; rewrite ?Eb; try done.
    + apply Forall_app. split; [done|]. by constructor.
    + unfold pending in *. simpl. rewrite Eb in *.
      rewrite map_app. simpl. rewrite Epg.
      eapply pages_used_perm; [|exact Hused]. apply pending_move.
  - constructor; try done. by eapply (pages_used_app_r _ _ [p]).
Qed.

Lemma retire_preserves (ok : bool) (live pages : list Z) (m : svm_mem) :
  mem_inv bpfn (pages ++ live) m -> mem_inv bpfn live (retire_pages ok m pages).
Proof.
  intros [Eb Hwf Hal Hit Hused]. rewrite <- app_assoc in Hused.
  unfold retire_pages, queue_dev_pages_free_work.
  destruct ok; simpl; constructor; simpl; try done.
  - unfold pending in *. simpl. rewrite concat_app. simpl. rewrite app_nil_r.
    eapply pages_used_perm; [|exact Hused]. solve_Permutation.
  - by apply pages_used_app_r in Hused.
Qed.

(** An item of the first queue is a page that is in use. *)
Lemma work_item (live : list Z) (m : svm_mem) (i : nat) (a sz : Z) :
  mem_inv bpfn live m -> dev_mem_free_queue m !! i = Some (a, sz) ->
  exists p,
    let queue := delete i (dev_mem_free_queue m) in
    let rest := live ++ map (pages_of_item bpfn) queue ++ concat (dev_pages_free_queue m) in
    pages_of_item bpfn (a, sz) = p /\ Permutation (live ++ pending m) ([p] ++ rest) /\
    sz = PAGE_SIZE /\ a mod PAGE_SIZE = 0 /\ 0 <= a /\ a + sz <= PHYS_MEM_SIZE /\
    region_used (free_mem_blocks m) a sz /\
    (forall x, in_region a sz x <-> in_pages bpfn [p] x) /\
    Forall (page_item bpfn) queue /\ pages_used bpfn (free_mem_blocks m) ([p] ++ rest).
Proof.
  intros [Eb Hwf Hal Hit Hused] Eq. unfold pending in *. rewrite Eb in *.
  exists (pages_of_item bpfn (a, sz)). set (p := pages_of_item bpfn (a, sz)).
  pose proof (delete_Permutation _ _ _ Eq) as Hdel.
  set (queue := delete i (dev_mem_free_queue m)) in *.
  rewrite Hdel in Hit. apply Forall_cons in Hit as [Hitem Hit]. unfold page_item in Hitem.
  fold p in Hitem. injection Hitem as Ea Es.
  set (rest := live ++ map (pages_of_item bpfn) queue ++ concat (dev_pages_free_queue m)).
  assert (Permutation (live ++ map (pages_of_item bpfn) (dev_mem_free_queue m) ++
    concat (dev_pages_free_queue m)) ([p] ++ rest)) as Hperm.
  { rewrite (Permutation_map (pages_of_item bpfn) Hdel). simpl. fold p.
    unfold rest. solve_Permutation. }
  assert (pages_used bpfn (free_mem_blocks m) ([p] ++ rest)) as Hused'
    by (eapply pages_used_perm; [|exact Hused]; done).
  assert (pages_used bpfn (free_mem_blocks m) [p]) as Hp.
  { eapply pages_used_app_r; [done|]. eapply pages_used_perm; [|exact Hused'].
    apply (Permutation_app_comm [p]). }
  destruct (run_region bpfn p _ [] Hp) as (H1 & H2 & H3 & H4 & H5).
  change (u64 (Z.of_nat (S (run_length p [])) * PAGE_SIZE)) with PAGE_SIZE in *.
  rewrite <- Ea in *. rewrite Es in *. split_and!; try done.
  rewrite Ea. apply pfn_to_dev_addr_aligned.
Qed.

Lemma work_mem_preserves (ok : bool) (live : list Z) (m : svm_mem) (i : nat) :
  mem_inv bpfn live m -> mem_inv bpfn live (handle_device_memory_free ok m i).
Proof.
  intros Hinv. unfold handle_device_memory_free.
  destruct (dev_mem_free_queue m !! i) as [[a sz]|] eqn:Eq; [|done].
  destruct (work_item live m i a sz Hinv Eq)
    as (p & Ep & _ & -> & Hmod & H1 & H3 & H4 & H5 & Hit & Hused).
  destruct Hinv as [Eb Hwf Hal _ _].
  pose proof (free_device_memory_within ok _ _ _ Hwf H1 PAGE_SIZE_pos H3 H4) as [Hwf' Hle].
  constructor; simpl; try done.
  - by apply free_device_memory_aligned.
  - unfold pending. simpl. rewrite Eb.
    eapply pages_used_frame; [exact Hused|]. split; [done|].
    intros x [?|Hx]%Hle; [by left|right]. by apply H5.
Qed.

(** The pages of an array that is being worked on. *)
Lemma work_array (live : list Z) (m : svm_mem) (i : nat) (pages pages' : list Z) :
  dev_pages_free_queue m !! i = Some (pages ++ pages') ->
  Permutation (live ++ pending m)
    (pages ++ live ++ map (pages_of_item (base_pfn m)) (dev_mem_free_queue m) ++
     concat (take i (dev_pages_free_queue m) ++
             (if pages' is [] then [] else [pages']) ++
             drop (S i) (dev_pages_free_queue m))).
Proof.
  intros Eq. unfold pending. rewrite <- (take_drop_middle _ _ _ Eq) at 1.
  rewrite !concat_app. simpl.
  destruct pages' as [|p pages']; simpl; rewrite ?app_nil_r; solve_Permutation.
Qed.

Lemma array_used (live : list Z) (m : svm_mem) (i : nat) (pages : list Z) :
  wf_blocks (free_mem_blocks m) ->
  pages_used bpfn (free_mem_blocks m) (live ++ pending m) ->
  dev_pages_free_queue m !! i = Some pages ->
  pages_used bpfn (free_mem_blocks m) pages.
Proof.
  intros Hwf Hused Eq. rewrite <- (app_nil_r pages) in Eq.
  eapply pages_used_app_r; [done|]. eapply pages_used_perm; [|exact Hused].
  rewrite (work_array live m i pages [] Eq). apply Permutation_app_comm.
Qed.

Lemma work_pages_preserves (ok : bool) (live : list Z) (m : svm_mem) (i : nat) :
  mem_inv bpfn live m -> mem_inv bpfn live (work_device_pages_free ok m i).
Proof.
  intros [Eb Hwf Hal Hit Hused]. unfold work_device_pages_free.
  destruct (dev_pages_free_queue m !! i) as [[|page rest]|] eqn:Eq; [done| |done].
  pose proof (array_used live m i _ Hwf Hused Eq) as Hp.
  set (k := S (run_length page rest)).
  rewrite <- (take_drop k (page :: rest)) in Eq.
  apply (work_array live) in Eq as Hperm.
  rewrite <- Eb in Hp.
  pose proof (pages_free_iter_within ok (base_pfn m) page _ rest Hwf Hp) as Hin.
  pose proof (pages_free_iter_aligned ok (base_pfn m) page _ rest Hal) as Hal'.
  destruct (pages_free_iter ok (base_pfn m) (free_mem_blocks m) page rest) as [bs' pages'].
  destruct Hin as [-> Hin]. fold k in Hin |- *. constructor; simpl; try done.
  - apply Hin.
  - eapply pages_used_frame; [eapply pages_used_perm; [exact Hperm|exact Hused]|].
    rewrite <- Eb. exact Hin.
Qed.

Lemma mem_step_preserves (allowed : bool -> Prop) (live live' : list Z) (m m' : svm_mem) :
  mem_step allowed (live, m) (live', m') -> mem_inv bpfn live m -> mem_inv bpfn live' m'.
Proof.
  intros Hstep Hinv. inversion Hstep; subst.
  - by eapply alloc_device_pages_spec.
  - by apply free_page_preserves.
  - unfold free_device_page. by rewrite decide_False.
  - by apply retire_preserves.
  - by apply work_mem_preserves.
  - by apply work_pages_preserves.
  - destruct Hinv. constructor; try done.
    eapply pages_used_perm; [|done]. by apply Permutation_app_tail.
Qed.

Lemma mem_init_inv : mem_inv bpfn [] (snd (mem_init bpfn)).
Proof.
  constructor.
  - done.
  - vm_compute. intuition discriminate.
  - repeat constructor.
  - constructor.
  - split_and!; [constructor|set_solver|]. intros x (p & Hp & _). set_solver.
Qed.

Lemma mem_reach_inv (allowed : bool -> Prop) (s : list Z * svm_mem) :
  mem_reach allowed bpfn s -> mem_inv bpfn (fst s) (snd s).
Proof.
  induction 1 as [|[live m] [live' m'] _ IH Hstep]; [apply mem_init_inv|].
  by eapply mem_step_preserves.
Qed.

(** Conservation when no allocation of an entry fails. *)
Lemma complete_perm (live live' : list Z) (m m' : svm_mem) :
  free_mem_blocks m' = free_mem_blocks m ->
  Permutation (live ++ pending m) (live' ++ pending m') ->
  mem_complete bpfn live m -> mem_complete bpfn live' m'.
Proof.
  intros Ef Hp Hc x Hx. rewrite Ef. rewrite <- (in_pages_perm _ _ _ x Hp). auto.
Qed.

Lemma work_mem_complete (live : list Z) (m : svm_mem) (i : nat) :
  mem_inv bpfn live m -> mem_complete bpfn live m ->
  mem_complete bpfn live (handle_device_memory_free true m i).
Proof.
  intros Hinv Hc. unfold handle_device_memory_free.
  destruct (dev_mem_free_queue m !! i) as [[a sz]|] eqn:Eq; [|done].
  destruct (work_item live m i a sz Hinv Eq)
    as (p & Ep & Hperm & -> & Hmod & H1 & H3 & H4 & H5 & Hit & Hused).
  destruct Hinv as [Eb Hwf Hal _ _].
  destruct (free_device_memory_freed _ _ _ Hwf H1 PAGE_SIZE_pos H3 H4) as [_ Heq].
  intros x Hx. simpl. rewrite Heq, H5. unfold pending; simpl. rewrite Eb.
  specialize (Hc x Hx). rewrite (in_pages_perm _ _ _ x Hperm), in_pages_app in Hc. tauto.
Qed.

Lemma work_pages_complete (live : list Z) (m : svm_mem) (i : nat) :
  mem_inv bpfn live m -> mem_complete bpfn live m ->
  mem_complete bpfn live (work_device_pages_free true m i).
Proof.
  intros [Eb Hwf Hal Hit Hused] Hc. unfold work_device_pages_free.
  destruct (dev_pages_free_queue m !! i) as [[|page rest]|] eqn:Eq; [done| |done].
  pose proof (array_used live m i _ Hwf Hused Eq) as Hp.
  set (k := S (run_length page rest)).
  rewrite <- (take_drop k (page :: rest)) in Eq.
  apply (work_array live) in Eq as Hperm.
  rewrite <- Eb in Hp.
  pose proof (pages_free_iter_freed (base_pfn m) page _ rest Hwf Hp) as Hin.
  destruct (pages_free_iter true (base_pfn m) (free_mem_blocks m) page rest) as [bs' pages'].
  destruct Hin as [-> [_ Heq]]. fold k in Heq |- *. intros x Hx.
  unfold pending; simpl. rewrite (Heq x), Eb in *.
  specialize (Hc x Hx). rewrite (in_pages_perm _ _ _ x Hperm), in_pages_app in Hc. tauto.
Qed.

Lemma mem_step_complete (live live' : list Z) (m m' : svm_mem) :
  mem_step (eq true) (live, m) (live', m') -> mem_inv bpfn live m ->
  mem_complete bpfn live m -> mem_complete bpfn live' m'.
Proof.
  intros Hstep Hinv Hc. inversion Hstep; subst.
  - destruct (alloc_device_pages_spec live pages m m' npages) as (_ & _ & Hsplit & Epend); try done.
    intros x Hx. rewrite Epend, <- app_assoc, in_pages_app.
    destruct (Hc x Hx) as [?%Hsplit|?]; tauto.
  - unfold free_device_page, queue_dev_mem_free_work. rewrite decide_True by done.
    assert (dev_pfn bpfn p) as Hp by (apply (inv_used _ _ _ Hinv); left).
    apply (complete_perm (p :: live') live' m); [done| |exact Hc]. unfold pending. simpl.
    rewrite (inv_base _ _ _ Hinv), map_app. simpl.
    rewrite (proj2 (page_item_intro p Hp)). apply pending_move.
  - unfold free_device_page. by rewrite decide_False.
  - apply (complete_perm (pages ++ live') live' m); [done| |exact Hc].
    unfold pending. simpl. rewrite concat_app. simpl. rewrite app_nil_r. solve_Permutation.
  - by apply work_mem_complete.
  - by apply work_pages_complete.
  - apply (complete_perm live live' m'); [done| |exact Hc]. by apply Permutation_app_tail.
Qed.

Lemma mem_reach_complete (s : list Z * svm_mem) :
  mem_reach (eq true) bpfn s -> mem_complete bpfn (fst s) (snd s).
Proof.
  induction 1 as [|[live m] [live' m'] Hr IH Hstep].
  - intros x Hx. left. exists (mk_block 0 PHYS_MEM_SIZE). split; [left|]. done.
  - eapply mem_step_complete; [done| |done]. exact (mem_reach_inv _ _ Hr).
Qed.

End Preservation.

Lemma mem_reach_mono (P Q : bool -> Prop) (bpfn : Z) (s : list Z * svm_mem) :
  (forall ok, P ok -> Q ok) -> mem_reach P bpfn s -> mem_reach Q bpfn s.
Proof.
  intros HPQ. induction 1 as [|s s' Hr IH Hstep]; [constructor|]. apply (reach_step Q bpfn _ _ IH).
  destruct Hstep; econstructor; eauto.
Qed.

(** ** Properties *)

(** C5: in every state the subsystem can reach, whatever [kmalloc] answers and
    however the workers, the kernel's page callbacks and migrations interleave,
    the free list is well formed and page-aligned, and the pages in use and
    the pages waiting in the two queues are pairwise distinct and none of
    their bytes is free: no page has two owners.  As long as no entry or work
    item fails to be allocated, no byte of the card's memory is lost either: each
    is free, in a page in use or in a page that waits to be freed. *)
Theorem device_pages_exclusive (allowed : bool -> Prop) (bpfn : Z)
    (live : list Z) (m : svm_mem) :
  0 <= bpfn -> bpfn + PHYS_MEM_SIZE / PAGE_SIZE <= 2 ^ 64 ->
  mem_reach allowed bpfn (live, m) ->
  wf_blocks (free_mem_blocks m) /\ Forall aligned_block (free_mem_blocks m) /\
  NoDup (live ++ pending m) /\
  (forall x, in_pages bpfn (live ++ pending m) x -> ~ in_free (free_mem_blocks m) x) /\
  ((forall ok, allowed ok -> true = ok) -> forall x, 0 <= x < PHYS_MEM_SIZE ->
    in_free (free_mem_blocks m) x \/ in_pages bpfn (live ++ pending m) x).
Proof.
  intros H1 H2 Hr. destruct (mem_reach_inv bpfn H1 H2 _ _ Hr) as [_ Hwf Hal _ Hused].
  destruct Hused as (? & ? & ?). split_and!; try done. intros Hall.
  exact (mem_reach_complete bpfn H1 H2 _ (mem_reach_mono _ _ _ _ Hall Hr)).
Qed.

(** an allocation in a reachable state hands out pages that are in nobody's
    use: none of them is live, and none waits in a queue. *)
Theorem allocated_pages_fresh (allowed : bool -> Prop) (bpfn npages : Z)
    (live pages : list Z) (m m' : svm_mem) :
  0 <= bpfn -> bpfn + PHYS_MEM_SIZE / PAGE_SIZE <= 2 ^ 64 ->
  mem_reach allowed bpfn (live, m) ->
  0 < npages -> npages * PAGE_SIZE <= PHYS_MEM_SIZE ->
  alloc_device_pages m npages = Some (pages, m') ->
  NoDup pages /\ Z.of_nat (length pages) = npages /\
  forall p, p ∈ pages -> p ∉ live /\ p ∉ pending m.
Proof.
  intros H1 H2 Hr Hn Hmax E.
  pose proof (mem_reach_inv bpfn H1 H2 _ _ Hr) as Hinv. simpl in Hinv.
  destruct (alloc_device_pages_spec bpfn H1 H2 _ _ _ _ _ Hinv Hn Hmax E) as (Hinv' & _ & _ & Ep).
  destruct Hinv' as [_ _ _ _ [Hnd _]]. rewrite Ep, <- app_assoc in Hnd.
  apply NoDup_app in Hnd as (Hnd & Hd & _). split_and!; [done| |].
  - unfold alloc_device_pages in E. destruct (allocate_device_memory _ _) as [a bs'].
    destruct (a =? u64 (-1)); [done|]. injection E as <- _. rewrite length_seqZ. lia.
  - intros p Hp. specialize (Hd p Hp). set_solver.
Qed.

(** As long as no entry or work item fails to be allocated, no byte of the
    card's memory is ever lost: each is free, in a live page or in a page that
    waits to be freed. *)
Theorem device_memory_conserved (bpfn : Z) (live : list Z) (m : svm_mem) :
  0 <= bpfn -> bpfn + PHYS_MEM_SIZE / PAGE_SIZE <= 2 ^ 64 ->
  mem_reach (eq true) bpfn (live, m) ->
  forall x, 0 <= x < PHYS_MEM_SIZE ->
    in_free (free_mem_blocks m) x \/ in_pages bpfn (live ++ pending m) x.
Proof. intros H1 H2 Hr. exact (mem_reach_complete bpfn H1 H2 _ Hr). Qed.

(** ** Witnesses *)

(** Two pages are allocated, one is dropped by the kernel, one is retired. *)
Definition example_state : svm_mem :=
  mk_mem 1000 [mk_block 8192 (PHYS_MEM_SIZE - 8192)] [(0, 4096)] [[1001]] {[1000]}.

Lemma example_reach (allowed : bool -> Prop) :
  allowed true -> mem_reach allowed 1000 ([], example_state).
Proof.
  intros Hok.
  refine (reach_step _ _ ([1001] ++ [],
    mk_mem 1000 [mk_block 8192 (PHYS_MEM_SIZE - 8192)] [(0, 4096)] [] {[1000; 1001]}) _ _
    (step_retire _ [] _ [1001] true Hok)).
  refine (reach_step _ _ (1000 :: [1001],
    mk_mem 1000 [mk_block 8192 (PHYS_MEM_SIZE - 8192)] [] [] {[1000; 1001]}) _ _
    (step_page_free _ [1001] _ 1000 true Hok _)); [|vm_compute; tauto].
  refine (reach_step _ _ _ _ (reach_init _ _) (step_alloc _ _ _ _ 2 [1000; 1001] _ _ _));
    [lia|vm_compute; discriminate|vm_compute; reflexivity].
Defined.

Lemma device_pages_exclusive_witness :
  wf_blocks (free_mem_blocks example_state) /\
  Forall aligned_block (free_mem_blocks example_state) /\
  NoDup ([] ++ pending example_state) /\
  (forall x, in_pages 1000 ([] ++ pending example_state) x -> ~ in_free (free_mem_blocks example_state) x) /\
  forall x, 0 <= x < PHYS_MEM_SIZE ->
    in_free (free_mem_blocks example_state) x \/ in_pages 1000 ([] ++ pending example_state) x.
Proof.
  destruct (device_pages_exclusive (eq true) 1000 [] example_state) as (H1 & H2 & H3 & H4 & H5);
    [lia|rewrite PHYS_PAGES_eq; lia|apply example_reach; done|].
  split_and!; [exact H1|exact H2|exact H3|exact H4|]. apply H5. done.
Defined.

Lemma allocated_pages_fresh_witness :
  NoDup [1002; 1003; 1004] /\ Z.of_nat (length [1002; 1003; 1004]) = 3 /\
  forall p, p ∈ [1002; 1003; 1004] -> p ∉ ([] : list Z) /\ p ∉ pending example_state.
Proof.
  apply (allocated_pages_fresh (fun _ => True) 1000 3 [] [1002; 1003; 1004] example_state
    (mk_mem 1000 [mk_block 20480 (PHYS_MEM_SIZE - 20480)] [(0, 4096)] [[1001]]
      ({[1000]} ∪ list_to_set [1002; 1003; 1004])));
    [lia|rewrite PHYS_PAGES_eq; lia|apply example_reach; done|lia
    |vm_compute; discriminate|vm_compute; reflexivity].
Defined.

Lemma device_memory_conserved_witness :
  in_free (free_mem_blocks example_state) 100 \/
  in_pages 1000 ([] ++ pending example_state) 100.
Proof.
  apply (device_memory_conserved 1000 [] example_state);
    [lia|rewrite PHYS_PAGES_eq; lia|apply example_reach; done|rewrite PHYS_MEM_SIZE_eq; lia].
Defined.

End DevPages.
