(* ===== verification/Intervals.v ===== *)
(** * Virtual memory intervals present on a device (pcie/pcie_svm.c)

    Each device keeps the virtual address ranges whose pages reside in its
    memory in a Linux interval tree.  The tree itself is kernel code outside
    the repository; the driver uses it through the operations of the class
    [IntervalTree], and relies on what [IntervalTreeLaws] states of them.  The
    theorems on [insert_vmem_interval], [remove_vmem_interval],
    [search_vmem_intervals] and [is_page_present] are proved against that
    interface; [ListTree] shows that it can be implemented. *)
From S2P Require Import Prelude.

Module Intervals.

(** ** The interface of the interval tree *)

(** struct interval_tree_node: a closed interval of addresses. *)
Record node := mk_node { start : Z; last : Z }.

#[export] Instance node_eq_dec : EqDecision node.
Proof. solve_decision. Defined.

(** The node intersects [s, l]. *)
Definition overlaps (s l : Z) (n : node) : bool := (start n <=? l) && (s <=? last n).

(** The operations of <linux/interval_tree.h>; [it_nodes] is the contents in
    the order the tree is walked. *)
Class IntervalTree (T : Type) := {
  RB_ROOT_CACHED : T;
  interval_tree_insert : node -> T -> T;
  interval_tree_remove : node -> T -> T;
  interval_tree_iter_first : T -> Z -> Z -> option node;
  interval_tree_iter_next : T -> node -> Z -> Z -> option node;
  it_nodes : T -> list node
}.

(** Their documented behaviour: the walk is by ascending start address, and
    [iter_first]/[iter_next] give the first intersecting node of the whole
    walk, or of what follows a node. *)
Class IntervalTreeLaws (T : Type) {IT : IntervalTree T} : Prop := {
  nodes_empty : it_nodes RB_ROOT_CACHED = [];
  nodes_sorted (t : T) : StronglySorted (fun a b => start a <= start b) (it_nodes t);
  nodes_insert (n : node) (t : T) :
    Permutation (it_nodes (interval_tree_insert n t)) (n :: it_nodes t);
  nodes_remove (n : node) (t : T) :
    n ∈ it_nodes t -> Permutation (it_nodes t) (n :: it_nodes (interval_tree_remove n t));
  iter_first_spec (t : T) (s l : Z) :
    interval_tree_iter_first t s l = List.find (overlaps s l) (it_nodes t);
  iter_next_spec (t : T) (n : node) (s l : Z) (before after : list node) :
    it_nodes t = before ++ n :: after -> NoDup (it_nodes t) ->
    interval_tree_iter_next t n s l = List.find (overlaps s l) after
}.

(** ** Operations of the driver *)
Section Operations.
Context {T : Type} {IT : IntervalTree T}.

(** insert_vmem_interval *)
Definition insert_vmem_interval (kmalloc_ok : bool) (t : T) (vaddr npages : Z) : Z * T :=
  if kmalloc_ok then
    let predecessor :=
      if vaddr >? 0
      then interval_tree_iter_first t (u64 (vaddr - PAGE_SIZE)) (u64 (vaddr - 1))
      else None in
    let successor :=
      interval_tree_iter_first t (u64 (vaddr + npages * PAGE_SIZE))
        (u64 (vaddr + npages * PAGE_SIZE)) in
    let (new_start, t) :=
      match predecessor with
      | Some p => (start p, interval_tree_remove p t)
      | None => (vaddr, t)
      end in
    let (new_last, t) :=
      match successor with
      | Some s => (last s, interval_tree_remove s t)
      | None => (u64 (vaddr + npages * PAGE_SIZE - 1), t)
      end in
    (0, interval_tree_insert (mk_node new_start new_last) t)
  else (- ENOMEM, t).

(** The body of the loop of remove_vmem_interval for [node], which has just
    been taken out of the tree. *)
Definition remove_node (kmalloc_ok : bool) (t : T) (from to : Z) (n : node) : T :=
  if negb (start n =? from) then
    let t :=
      if last n >? to then
        if kmalloc_ok then interval_tree_insert (mk_node (u64 (to + 1)) (last n)) t else t
      else t in
    interval_tree_insert (mk_node (start n) (u64 (from - 1))) t
  else if last n >? to then interval_tree_insert (mk_node (u64 (to + 1)) (last n)) t
  else t.

(** The loop; the successor is looked up before the node is removed. *)
Fixpoint remove_loop (fuel : nat) (oks : list bool) (t : T) (from to : Z)
    (cur : option node) : T :=
  match fuel, cur with
  | S fuel', Some n =>
      let next_start := Z.min (u64 (last n + 1)) to in
      let next_node := interval_tree_iter_next t n from to in
      remove_loop fuel' (tl oks)
        (remove_node (hd true oks) (interval_tree_remove n t) from to n)
        next_start to next_node
  | _, _ => t
  end.

(** remove_vmem_interval; every node of the tree is visited at most once. *)
Definition remove_vmem_interval (oks : list bool) (t : T) (vaddr npages : Z) : T :=
  let to := u64 (vaddr + npages * PAGE_SIZE - 1) in
  remove_loop (length (it_nodes t)) oks t vaddr to (interval_tree_iter_first t vaddr to).

(** The loop of search_vmem_intervals: the result code and the entries that
    were appended to the list. *)
Fixpoint search_loop (fuel : nat) (oks : list bool) (t : T) (to : Z)
    (cur : option node) : Z * list node :=
  match fuel, cur with
  | S fuel', Some n =>
      if hd true oks then
        let from := Z.min (u64 (last n + 1)) to in
        let (res, rest) :=
          search_loop fuel' (tl oks) t to (interval_tree_iter_next t n from to) in
        (res, n :: rest)
      else (- ENOMEM, [])
  | _, _ => (0, [])
  end.

(** search_vmem_intervals *)
Definition search_vmem_intervals (oks : list bool) (t : T) (vaddr npages : Z)
    : Z * list node :=
  let to := u64 (vaddr + npages * PAGE_SIZE - 1) in
  search_loop (length (it_nodes t)) oks t to (interval_tree_iter_first t vaddr to).

(** is_page_present *)
Definition is_page_present (t : T) (vaddr : Z) : bool :=
  match interval_tree_iter_first t vaddr (u64 (vaddr + PAGE_SIZE - 1)) with
  | Some _ => true
  | None => false
  end.

(** The loop of pcie_teardown_svm that empties the tree. *)
Fixpoint clear_loop (fuel : nat) (t : T) : T :=
  match fuel, interval_tree_iter_first t 0 (2 ^ 64 - 1) with
  | S fuel', Some n => clear_loop fuel' (interval_tree_remove n t)
  | _, _ => t
  end.

Definition clear_intervals (t : T) : T := clear_loop (length (it_nodes t)) t.

End Operations.

(** ** Well-formed interval sets *)

(** User addresses: the lower half of the address space. *)
Definition VA_MAX : Z := 2 ^ 63.

Definition node_ok (n : node) : Prop :=
  0 <= start n /\ start n <= last n /\ last n < VA_MAX /\
  start n mod PAGE_SIZE = 0 /\ (last n + 1) mod PAGE_SIZE = 0.

(** There is at least one address between two nodes (so, both being made of
    whole pages, at least one page): nothing is left to merge. *)
Definition apart (a b : node) : Prop := last a + 1 < start b \/ last b + 1 < start a.

Definition wf_nodes (ns : list node) : Prop :=
  NoDup ns /\ (forall n, n ∈ ns -> node_ok n) /\
  forall a b, a ∈ ns -> b ∈ ns -> a <> b -> apart a b.

(** The address is present on the device. *)
Definition covered (ns : list node) (x : Z) : Prop :=
  exists n, n ∈ ns /\ start n <= x <= last n.

(** Reference for search_vmem_intervals: copy the nodes one by one until an
    allocation fails. *)
Fixpoint collect (oks : list bool) (found : list node) : Z * list node :=
  match found with
  | [] => (0, [])
  | n :: found' =>
      if hd true oks then (let (res, l) := collect (tl oks) found' in (res, n :: l))
      else (- ENOMEM, [])
  end.

(** ** Lemmas *)

Lemma wf_nodes_perm (ns ns' : list node) : Permutation ns ns' -> wf_nodes ns -> wf_nodes ns'.
Proof.
  intros Hp (H1 & H2 & H3). split_and!.
  - by rewrite <- Hp.
  - intros n. rewrite <- Hp. apply H2.
  - intros a b. rewrite <- Hp. apply H3.
Qed.

Lemma covered_perm (ns ns' : list node) (x : Z) :
  Permutation ns ns' -> covered ns x <-> covered ns' x.
Proof. intros Hp. unfold covered. by setoid_rewrite Hp. Qed.

Lemma covered_nil (x : Z) : covered [] x <-> False.
Proof. split; [|done]. intros (n & Hn & _). by apply elem_of_nil in Hn. Qed.

Lemma covered_cons (n : node) (ns : list node) (x : Z) :
  covered (n :: ns) x <-> start n <= x <= last n \/ covered ns x.
Proof.
  unfold covered. setoid_rewrite elem_of_cons. split.
  - intros (m & [->|Hm] & Hx); eauto.
  - intros [Hx|(m & Hm & Hx)]; eauto.
Qed.

Lemma wf_nodes_cons (n : node) (ns : list node) :
  wf_nodes (n :: ns) <->
  node_ok n /\ wf_nodes ns /\ forall m, m ∈ ns -> apart n m.
Proof.
  unfold wf_nodes. rewrite NoDup_cons. setoid_rewrite elem_of_cons. split.
  - intros ([Hn Hnd] & Hok & Hap). split_and!; auto.
    intros m Hm. apply Hap; auto. by intros ->.
  - intros (Hok & (Hnd & Hoks & Hap) & Hn). split_and!; auto.
    + intros Hin. specialize (Hn _ Hin). unfold apart, node_ok in *. lia.
    + intros m [->|?]; auto.
    + intros a b [->|Ha] [->|Hb] Hne; auto; try done.
      destruct (Hn a Ha); [right|left]; done.
Qed.

Lemma wf_nodes_nil : wf_nodes [].
Proof.
  split_and!; [constructor|..]; intros a; [|intros b]; by intros H%elem_of_nil.
Qed.

Lemma overlaps_spec (s l : Z) (n : node) :
  overlaps s l n = true <-> start n <= l /\ s <= last n.
Proof. unfold overlaps. rewrite andb_true_iff, !Z.leb_le. done. Qed.

Section Laws.
Context {T : Type} {IT : IntervalTree T} {Laws : IntervalTreeLaws T}.

Lemma iter_first_some (t : T) (s l : Z) (n : node) :
  interval_tree_iter_first t s l = Some n ->
  n ∈ it_nodes t /\ start n <= l /\ s <= last n.
Proof.
  rewrite iter_first_spec. intros Hf%List.find_some.
  rewrite <- list_elem_of_In in Hf. by rewrite overlaps_spec in Hf.
Qed.

Lemma iter_first_none (t : T) (s l : Z) (n : node) :
  interval_tree_iter_first t s l = None -> n ∈ it_nodes t ->
  l < start n \/ last n < s.
Proof.
  rewrite iter_first_spec. intros Hf Hn%list_elem_of_In.
  pose proof (List.find_none _ _ Hf _ Hn) as E.
  destruct (Z_lt_le_dec l (start n)); [by left|].
  destruct (Z_lt_le_dec (last n) s); [by right|].
  assert (overlaps s l n = true) by (apply overlaps_spec; lia). congruence.
Qed.

(** Removing a node of a well-formed tree. *)
Lemma remove_wf (n : node) (t : T) :
  wf_nodes (it_nodes t) -> n ∈ it_nodes t ->
  node_ok n /\ wf_nodes (it_nodes (interval_tree_remove n t)) /\
  (forall m, m ∈ it_nodes (interval_tree_remove n t) -> apart n m) /\
  (forall m, m ∈ it_nodes t <-> m = n \/ m ∈ it_nodes (interval_tree_remove n t)) /\
  (forall x, covered (it_nodes t) x <->
     start n <= x <= last n \/ covered (it_nodes (interval_tree_remove n t)) x).
Proof.
  intros Hwf Hn. pose proof (nodes_remove n t Hn) as Hp.
  apply (wf_nodes_perm _ _ Hp) in Hwf. apply wf_nodes_cons in Hwf as (? & ? & ?).
  split_and!; try done.
  - intros m. rewrite Hp. apply elem_of_cons.
  - intros x. rewrite (covered_perm _ _ x Hp). apply covered_cons.
Qed.

(** Inserting a node that is apart from all others. *)
Lemma insert_wf (n : node) (t : T) :
  wf_nodes (it_nodes t) -> node_ok n -> (forall m, m ∈ it_nodes t -> apart n m) ->
  wf_nodes (it_nodes (interval_tree_insert n t)) /\
  (forall m, m ∈ it_nodes (interval_tree_insert n t) <-> m = n \/ m ∈ it_nodes t) /\
  (forall x, covered (it_nodes (interval_tree_insert n t)) x <->
     start n <= x <= last n \/ covered (it_nodes t) x).
Proof.
  intros Hwf Hok Hap. pose proof (nodes_insert n t) as Hp. split_and!.
  - eapply wf_nodes_perm; [by symmetry|]. by apply wf_nodes_cons.
  - intros m. rewrite Hp. apply elem_of_cons.
  - intros x. rewrite (covered_perm _ _ x Hp). apply covered_cons.
Qed.

Lemma wf_node_le (ns : list node) (m : node) :
  wf_nodes ns -> m ∈ ns -> 0 <= start m <= last m.
Proof. intros (_ & Hok & _) Hm. destruct (Hok m Hm) as (? & ? & _). lia. Qed.

(** Two nodes of a well-formed set that share an address are the same. *)
Lemma wf_nodes_eq (ns : list node) (a b : node) (x : Z) :
  wf_nodes ns -> a ∈ ns -> b ∈ ns ->
  start a <= x <= last a -> start b <= x <= last b -> a = b.
Proof.
  intros (_ & _ & Hap) Ha Hb Hxa Hxb. destruct (decide (a = b)) as [|Hne]; [done|].
  destruct (Hap a b Ha Hb Hne); lia.
Qed.

(** A page-aligned address is in a node made of whole pages as soon as one of
    the addresses of its page is. *)
Lemma node_ok_page (n : node) (v : Z) :
  node_ok n -> v mod PAGE_SIZE = 0 -> start n <= v + PAGE_SIZE - 1 -> v <= last n ->
  start n <= v /\ v + PAGE_SIZE - 1 <= last n.
Proof. unfold node_ok, PAGE_SIZE. intros (? & ? & ? & ? & ?) ? ? ?. dlia. Qed.

Lemma u64_va (x : Z) : 0 <= x <= VA_MAX -> u64 x = x.
Proof. unfold VA_MAX. intros. apply u64_small. lia. Qed.

(** is_page_present tells whether the page is covered. *)
Lemma is_page_present_covered (t : T) (v : Z) :
  wf_nodes (it_nodes t) -> v mod PAGE_SIZE = 0 -> 0 <= v < VA_MAX ->
  is_page_present t v = true <-> covered (it_nodes t) v.
Proof.
  intros Hwf Ha Hv. unfold is_page_present.
  assert (v + PAGE_SIZE <= VA_MAX) as Hm.
  { unfold VA_MAX, PAGE_SIZE in *. change (2 ^ 63) with 9223372036854775808 in *. dlia. }
  rewrite u64_va by (unfold PAGE_SIZE in *; lia).
  destruct (interval_tree_iter_first t v (v + PAGE_SIZE - 1)) as [n|] eqn:E.
  - apply iter_first_some in E as (Hn & H1 & H2). split; [|done]. intros _.
    exists n. split; [done|]. destruct Hwf as (_ & Hok & _).
    destruct (node_ok_page n v (Hok n Hn) Ha H1 H2). unfold PAGE_SIZE in *. lia.
  - split; [done|]. intros (n & Hn & Hx).
    destruct (iter_first_none _ _ _ n E Hn); unfold PAGE_SIZE in *; lia.
Qed.

(** What insert_vmem_interval finds below and above the new range. *)
Lemma predecessor_spec (t : T) (v : Z) (p : node) :
  wf_nodes (it_nodes t) -> v mod PAGE_SIZE = 0 -> 0 < v <= VA_MAX ->
  ~ covered (it_nodes t) v ->
  interval_tree_iter_first t (u64 (v - PAGE_SIZE)) (u64 (v - 1)) = Some p ->
  p ∈ it_nodes t /\ last p = v - 1.
Proof.
  intros Hwf Ha Hv Hc E. apply iter_first_some in E as (Hp & H1 & H2). split; [done|].
  assert (PAGE_SIZE <= v) by (unfold PAGE_SIZE in *; dlia).
  rewrite u64_va in H1, H2 by (unfold PAGE_SIZE in *; lia).
  destruct Hwf as (_ & Hok & _). specialize (Hok p Hp).
  assert (~ v <= last p) by (intros ?; apply Hc; exists p; split; [done|lia]).
  unfold node_ok, PAGE_SIZE in *. dlia.
Qed.

Lemma successor_spec (t : T) (v e : Z) (s : node) :
  wf_nodes (it_nodes t) -> 0 <= v < e -> e <= VA_MAX ->
  (forall x, v <= x < e -> ~ covered (it_nodes t) x) ->
  interval_tree_iter_first t (u64 e) (u64 e) = Some s ->
  s ∈ it_nodes t /\ start s = e.
Proof.
  intros Hwf Hv He Hc E. apply iter_first_some in E as (Hs & H1 & H2). split; [done|].
  rewrite u64_va in H1, H2 by lia.
  assert (~ start s < e); [|lia].
  intros Hlt. apply (Hc (e - 1)); [lia|]. exists s. split; [done|]. lia.
Qed.

(** A range free of nodes, with nothing in the page below nor at its end, is
    apart from every node. *)
Lemma apart_of_uncovered (t : T) (v e : Z) (m : node) :
  wf_nodes (it_nodes t) -> 0 <= v < e -> m ∈ it_nodes t ->
  (forall x, v <= x < e -> ~ covered (it_nodes t) x) ->
  last m + 1 <> v -> start m <> e ->
  apart (mk_node v (e - 1)) m.
Proof.
  intros Hwf Hv Hm Hc Hl Hs. unfold apart. simpl.
  destruct Hwf as (_ & Hok & _). destruct (Hok m Hm) as (? & ? & _).
  destruct (Z_lt_le_dec e (start m)); [lia|].
  destruct (Z_lt_le_dec (last m + 1) v); [lia|].
  exfalso. apply (Hc (Z.max v (start m))); [lia|]. exists m. split; [done|lia].
Qed.

(** Taking the predecessor out extends the new range downwards. *)
Lemma merge_predecessor (t : T) (v : Z) (pred : option node) :
  wf_nodes (it_nodes t) -> v mod PAGE_SIZE = 0 -> 0 <= v ->
  ~ covered (it_nodes t) v ->
  match pred with
  | Some p => p ∈ it_nodes t /\ last p = v - 1
  | None => forall m, m ∈ it_nodes t -> last m + 1 <> v
  end ->
  exists ns t1,
    match pred with
    | Some p => (start p, interval_tree_remove p t)
    | None => (v, t)
    end = (ns, t1) /\
    0 <= ns <= v /\ ns mod PAGE_SIZE = 0 /\ wf_nodes (it_nodes t1) /\
    (forall x, covered (it_nodes t) x <-> ns <= x < v \/ covered (it_nodes t1) x) /\
    (forall m, m ∈ it_nodes t1 -> last m + 1 <> ns /\ (last m < ns \/ v <= start m)) /\
    (forall m, m ∈ it_nodes t -> v <= last m -> m ∈ it_nodes t1).
Proof.
  intros Hwf Ha Hv Hnc Hp. destruct pred as [p|].
  - destruct Hp as [Hp Hl].
    destruct (remove_wf p t Hwf Hp) as ((Hs & Hsl & _ & Hsa & _) & Hwf1 & Hap & Hin & Hc).
    exists (start p), (interval_tree_remove p t). split_and!; try done; try lia.
    + intros x. rewrite Hc. split; (intros [|]; [left; lia|by right]).
    + intros m Hm. pose proof (wf_node_le _ m Hwf1 Hm). destruct (Hap m Hm); lia.
    + intros m Hm Hvl. apply Hin in Hm as [->|]; [lia|done].
  - exists v, t. split_and!; try done; try lia.
    + intros x. split; [by right|]. intros [|]; [lia|done].
    + intros m Hm. split; [auto|].
      destruct (Z_lt_le_dec (last m) v); [by left|right].
      apply Z.nlt_ge. intros ?. apply Hnc. exists m. split; [done|lia].
Qed.

(** Taking the successor out extends it upwards. *)
Lemma merge_successor (t : T) (e : Z) (succ : option node) :
  wf_nodes (it_nodes t) -> e mod PAGE_SIZE = 0 -> 0 < e <= VA_MAX ->
  ~ covered (it_nodes t) (e - 1) ->
  match succ with
  | Some s => s ∈ it_nodes t /\ start s = e
  | None => forall m, m ∈ it_nodes t -> start m <> e
  end ->
  exists nl t2,
    match succ with
    | Some s => (last s, interval_tree_remove s t)
    | None => (u64 (e - 1), t)
    end = (nl, t2) /\
    e - 1 <= nl < VA_MAX /\ (nl + 1) mod PAGE_SIZE = 0 /\ wf_nodes (it_nodes t2) /\
    (forall x, covered (it_nodes t) x <-> e <= x <= nl \/ covered (it_nodes t2) x) /\
    (forall m, m ∈ it_nodes t2 ->
       m ∈ it_nodes t /\ start m <> nl + 1 /\ (last m < e \/ nl < start m)).
Proof.
  intros Hwf Ha He Hnc Hs. destruct succ as [s|].
  - destruct Hs as [Hs Hl].
    destruct (remove_wf s t Hwf Hs) as ((? & Hsl & Hm & _ & Hsa) & Hwf1 & Hap & Hin & Hc).
    exists (last s), (interval_tree_remove s t). split_and!; try done; try lia.
    + intros x. rewrite Hc, Hl. done.
    + intros m Hm'. split; [apply Hin; by right|]. pose proof (wf_node_le _ m Hwf1 Hm'). destruct (Hap m Hm'); lia.
  - exists (e - 1), t. rewrite u64_va by lia. split_and!; try done; try lia.
    + by replace (e - 1 + 1) with e by lia.
    + intros x. split; [by right|]. intros [|]; [lia|done].
    + intros m Hm. specialize (Hs m Hm). split_and!; [done|lia|].
      destruct (Z_lt_le_dec (last m) e); [by left|right].
      apply Z.nle_gt. intros ?. apply Hnc. exists m. split; [done|lia].
Qed.

Lemma insert_vmem_interval_spec (t : T) (v n : Z) :
  wf_nodes (it_nodes t) -> v mod PAGE_SIZE = 0 -> 0 <= v -> 0 < n ->
  v + n * PAGE_SIZE <= VA_MAX ->
  (forall x, v <= x < v + n * PAGE_SIZE -> ~ covered (it_nodes t) x) ->
  exists t', insert_vmem_interval true t v n = (0, t') /\
    wf_nodes (it_nodes t') /\
    forall x, covered (it_nodes t') x <->
      covered (it_nodes t) x \/ v <= x < v + n * PAGE_SIZE.
Proof.
  intros Hwf Ha Hv Hn He Hc. unfold insert_vmem_interval. cbv zeta.
  set (e := v + n * PAGE_SIZE) in *.
  assert (v < e) by (unfold e, PAGE_SIZE; lia).
  assert (e mod PAGE_SIZE = 0) as Hea by (unfold e, PAGE_SIZE in *; dlia).
  set (pred := if v >? 0 then interval_tree_iter_first t (u64 (v - PAGE_SIZE)) (u64 (v - 1))
               else None).
  set (succ := interval_tree_iter_first t (u64 e) (u64 e)).
  destruct (merge_predecessor t v pred Hwf Ha Hv (Hc v ltac:(lia))) as
    (ns & t1 & -> & Hns & Hnsa & Hwf1 & Hc1 & Hm1 & Hin1).
  { subst pred. rewrite Z.gtb_ltb. destruct (Z.ltb_spec 0 v) as [Hv0|Hv0].
    - destruct (interval_tree_iter_first t (u64 (v - PAGE_SIZE)) (u64 (v - 1))) as [p|] eqn:E.
      + apply predecessor_spec in E; try done; [lia|]. apply Hc. lia.
      + intros m Hm. destruct (iter_first_none _ _ _ m E Hm) as [Hl|Hl].
        * rewrite u64_va in Hl by lia. destruct Hwf as (_ & Hok & _).
          destruct (Hok m Hm) as (? & ? & _). lia.
        * assert (PAGE_SIZE <= v) by (unfold PAGE_SIZE in *; dlia).
          rewrite u64_va in Hl by (unfold PAGE_SIZE in *; lia). unfold PAGE_SIZE in *. lia.
    - intros m Hm. destruct Hwf as (_ & Hok & _). destruct (Hok m Hm) as (? & ? & _). lia. }
  destruct (merge_successor t1 e succ Hwf1 Hea) as
    (nl & t2 & -> & Hnl & Hnla & Hwf2 & Hc2 & Hm2); [lia| | |].
  { intros Hx. apply (Hc (e - 1)); [lia|]. apply Hc1. by right. }
  { subst succ. destruct (interval_tree_iter_first t (u64 e) (u64 e)) as [s|] eqn:E.
    - apply (successor_spec t v e) in E as [Hs Hse]; try done; [].
      split; [|done]. apply Hin1; [done|]. destruct Hwf as (_ & Hok & _).
      destruct (Hok s Hs) as (? & ? & _). lia.
    - intros m Hm Hme.
      assert (covered (it_nodes t) e) as (k & Hk & Hke).
      { apply Hc1. right. exists m. split; [done|]. destruct Hwf1 as (_ & Hok & _).
        destruct (Hok m Hm) as (? & ? & _). lia. }
      destruct (iter_first_none _ _ _ k E Hk) as [Hl|Hl]; rewrite u64_va in Hl by lia; lia. }
  destruct (insert_wf (mk_node ns nl) t2 Hwf2) as (Hwf' & _ & Hcov).
  { unfold node_ok. simpl. split_and!; try done; lia. }
  { intros m Hm. replace nl with ((nl + 1) - 1) by lia.
    destruct (Hm2 m Hm) as (Hm' & Hs & Hlo). destruct (Hm1 m Hm') as (Hl & Hlo').
    apply (apart_of_uncovered t2); try done; [lia|].
    intros x Hx Hcx.
    assert (covered (it_nodes t1) x) as Hcx1 by (apply Hc2; by right).
    destruct Hcx as (k & Hk & Hkx). destruct (Hm2 k Hk) as (Hk' & _ & Hk1).
    destruct (Hm1 k Hk') as (_ & Hk2).
    apply (Hc x); [lia|]. apply Hc1. by right. }
  eexists. split; [done|]. split; [done|].
  intros x. rewrite Hcov, Hc1, Hc2. simpl.
  split; [intros [?|?]; [|tauto]|intros [[?|[?|?]]|?]; auto; left; lia].
  destruct (Z_lt_le_dec x v); [left; left; lia|].
  destruct (Z_lt_le_dec x e); [right; lia|left; right; left; lia].
Qed.

Lemma find_none_all {A} (f : A -> bool) (l : list A) :
  (forall x, x ∈ l -> f x = false) -> List.find f l = None.
Proof.
  induction l as [|a l IH]; intros H; simpl; [done|].
  rewrite (H a (list_elem_of_here _ _)). apply IH. intros x Hx. apply H. by right.
Qed.

(** A range inside one node of a well-formed tree: the walk finds that node
    and nothing after it. *)
Lemma walk_single (t : T) (m : node) (v l from : Z) :
  wf_nodes (it_nodes t) -> m ∈ it_nodes t -> start m <= v <= l -> l <= last m -> v <= from ->
  interval_tree_iter_first t v l = Some m /\ interval_tree_iter_next t m from l = None.
Proof.
  intros Hwf Hm Hv Hl Hf.
  assert (forall k, k ∈ it_nodes t -> overlaps v l k = true -> k = m) as Huniq.
  { intros k Hk Ho%overlaps_spec. pose proof (wf_node_le _ k Hwf Hk).
    apply (wf_nodes_eq _ k m (Z.max v (start k)) Hwf Hk Hm); lia. }
  split.
  - destruct (interval_tree_iter_first t v l) as [k|] eqn:E.
    + apply iter_first_some in E as (Hk & Ho). f_equal. apply Huniq; [done|].
      apply overlaps_spec. lia.
    + destruct (iter_first_none _ _ _ m E Hm); lia.
  - pose proof Hwf as (Hnd & _). pose proof Hm as Hm'.
    apply list_elem_of_split in Hm' as (l1 & l2 & Hs).
    rewrite (iter_next_spec t m from l l1 l2 Hs Hnd). apply find_none_all.
    intros k Hk. destruct (overlaps from l k) eqn:Ho; [|done].
    assert (k = m) as ->.
    { apply Huniq; [rewrite Hs; set_solver|]. apply overlaps_spec in Ho.
      apply overlaps_spec. lia. }
    rewrite Hs in Hnd. apply NoDup_app in Hnd as (_ & _ & Hnd).
    by apply NoDup_cons in Hnd as [? _].
Qed.

(** Boolean reasoning on the addresses covered, [covered _ x] being an atom. *)
Ltac by_cover H x :=
  specialize (H x); revert H;
  match goal with |- (covered ?ns x -> _) -> _ => generalize (covered ns x) end;
  intros ? ?; intuition lia.

(** The node is split around the removed range. *)
Lemma remove_node_spec (ok : bool) (t : T) (m : node) (v e : Z) :
  wf_nodes (it_nodes t) -> m ∈ it_nodes t ->
  v mod PAGE_SIZE = 0 -> e mod PAGE_SIZE = 0 ->
  start m <= v -> v < e -> e <= last m + 1 ->
  let t' := remove_node ok (interval_tree_remove m t) v (e - 1) m in
  wf_nodes (it_nodes t') /\
  forall x, covered (it_nodes t') x <->
    covered (it_nodes t) x /\ ~ (v <= x < e) /\
    (ok = false -> start m < v -> ~ (e <= x <= last m)).
Proof.
  intros Hwf Hm Hva Hea Hs Hve Hl.
  destruct (remove_wf m t Hwf Hm) as (Hok & Hwf1 & Hap & _ & Hc).
  set (t1 := interval_tree_remove m t) in *.
  assert (forall x, covered (it_nodes t1) x -> ~ (start m <= x <= last m)) as Hdis.
  { intros x (k & Hk & Hx). destruct (Hap k Hk); lia. }
  destruct Hok as (Hs0 & Hsl & Hlm & Hsa & Hla).
  unfold remove_node. rewrite !Z.gtb_ltb. rewrite (u64_va (e - 1 + 1)) by lia.
  assert (node_ok (mk_node (start m) (v - 1)) \/ start m = v) as Hlo.
  { destruct (decide (start m = v)); [by right|left]. unfold node_ok. simpl.
    split_and!; try done; try lia. by replace (v - 1 + 1) with v by lia. }
  assert (node_ok (mk_node (e - 1 + 1) (last m)) \/ last m = e - 1) as Hhi.
  { destruct (decide (last m = e - 1)); [by right|left]. unfold node_ok. simpl.
    replace (e - 1 + 1) with e by lia. split_and!; try done; lia. }
  assert (forall a b, start m <= a -> b <= last m ->
            forall k, k ∈ it_nodes t1 -> apart (mk_node a b) k) as Hsub.
  { intros a b Ha Hb k Hk. destruct (Hap k Hk); unfold apart; simpl; lia. }
  destruct (Z.eqb_spec (start m) v) as [Hsv|Hsv]; simpl;
    destruct (Z.ltb_spec (e - 1) (last m)) as [Hlt|Hge].
  - destruct Hhi as [Hhi|]; [|lia].
    destruct (insert_wf _ t1 Hwf1 Hhi) as (Hw & _ & Hcv); [apply Hsub; lia|].
    split; [done|]. intros x. rewrite Hcv, Hc. simpl. by_cover Hdis x.
  - split; [done|]. intros x. rewrite Hc. by_cover Hdis x.
  - rewrite u64_va by lia.
    destruct Hhi as [Hhi|]; [|lia]. destruct Hlo as [Hlo|]; [|lia].
    destruct ok.
    + destruct (insert_wf _ t1 Hwf1 Hhi) as (Hw & Hin & Hcv); [apply Hsub; lia|].
      destruct (insert_wf _ _ Hw Hlo) as (Hw' & _ & Hcv').
      { intros k [->|Hk]%Hin; [unfold apart; simpl; lia|apply Hsub; [lia|lia|done]]. }
      split; [done|]. intros x. rewrite Hcv', Hcv, Hc. simpl. by_cover Hdis x.
    + destruct (insert_wf _ t1 Hwf1 Hlo) as (Hw & Hin & Hcv); [apply Hsub; lia|].
      split; [done|]. intros x. rewrite Hcv, Hc. simpl. by_cover Hdis x.
  - rewrite u64_va by lia. destruct Hlo as [Hlo|]; [|lia].
    destruct (insert_wf _ t1 Hwf1 Hlo) as (Hw & Hin & Hcv); [apply Hsub; lia|].
    split; [done|]. intros x. rewrite Hcv, Hc. simpl. by_cover Hdis x.
Qed.

Lemma remove_vmem_interval_spec (oks : list bool) (t : T) (m : node) (v n : Z) :
  wf_nodes (it_nodes t) -> m ∈ it_nodes t -> v mod PAGE_SIZE = 0 -> 0 < n ->
  start m <= v -> v + n * PAGE_SIZE <= last m + 1 ->
  let t' := remove_vmem_interval oks t v n in
  wf_nodes (it_nodes t') /\
  forall x, covered (it_nodes t') x <->
    covered (it_nodes t) x /\ ~ (v <= x < v + n * PAGE_SIZE) /\
    (hd true oks = false -> start m < v -> ~ (v + n * PAGE_SIZE <= x <= last m)).
Proof.
  intros Hwf Hm Ha Hn Hs He. unfold remove_vmem_interval. cbv zeta.
  set (e := v + n * PAGE_SIZE) in *.
  assert (v < e) by (unfold e, PAGE_SIZE; lia).
  assert (e mod PAGE_SIZE = 0) as Hea by (unfold e, PAGE_SIZE in *; dlia).
  pose proof Hwf as (_ & Hok & _). destruct (Hok m Hm) as (? & ? & ? & _).
  rewrite u64_va by lia.
  destruct (walk_single t m v (e - 1) v) as [-> Hnx]; try done; try lia.
  destruct (length (it_nodes t)) as [|f] eqn:El.
  { apply length_zero_iff_nil in El. rewrite El in Hm. by apply elem_of_nil in Hm. }
  simpl. rewrite Hnx.
  replace (remove_loop f _ _ _ _ None) with
    (remove_node (hd true oks) (interval_tree_remove m t) v (e - 1) m) by (by destruct f).
  by apply remove_node_spec.
Qed.

(** In the order of the walk, a node lies below all that follow it. *)
Lemma nodes_after (t : T) (n m : node) (before after : list node) :
  wf_nodes (it_nodes t) -> it_nodes t = before ++ n :: after -> m ∈ after ->
  last n + 1 < start m /\ start m <= last m.
Proof.
  intros Hwf Hs Hm. pose proof (nodes_sorted t) as Hsort. rewrite Hs in Hsort.
  apply StronglySorted_app in Hsort as (_ & _ & Hsort).
  apply StronglySorted_inv in Hsort as [_ Hall].
  rewrite Forall_forall in Hall. specialize (Hall m Hm). simpl in Hall.
  assert (n ∈ it_nodes t /\ m ∈ it_nodes t) as [Hn Hm'] by (rewrite Hs; set_solver).
  pose proof (wf_node_le _ _ Hwf Hn). pose proof (wf_node_le _ _ Hwf Hm').
  destruct Hwf as (Hnd & _ & Hap). rewrite Hs in Hnd.
  apply NoDup_app in Hnd as (_ & _ & Hnd). apply NoDup_cons in Hnd as [Hnin _].
  assert (n <> m) as Hne by (intros ->; done).
  destruct (Hap n m Hn Hm' Hne); lia.
Qed.

Lemma search_loop_spec (t : T) (to : Z) (rest before : list node) (from : Z)
    (fuel : nat) (oks : list bool) :
  wf_nodes (it_nodes t) -> to < VA_MAX -> it_nodes t = before ++ rest ->
  (length rest <= fuel)%nat ->
  search_loop fuel oks t to (List.find (overlaps from to) rest) =
  collect oks (List.filter (overlaps from to) rest).
Proof.
  intros Hwf Hto. revert before from fuel oks.
  induction rest as [|k rest IH]; intros before from fuel oks Hs Hf; [by destruct fuel|].
  simpl. destruct (overlaps from to k) eqn:Ho.
  2:{ apply (IH (before ++ [k])); [by rewrite <- app_assoc|simpl in Hf; lia]. }
  destruct fuel as [|fuel]; [simpl in Hf; lia|]. simpl.
  destruct (hd true oks); [|done].
  assert (k ∈ it_nodes t) as Hk by (rewrite Hs; set_solver).
  pose proof Hwf as (Hnd & Hok & _). destruct (Hok k Hk) as (? & ? & ? & _).
  rewrite u64_va by lia.
  rewrite (iter_next_spec t k _ to before rest Hs Hnd).
  rewrite (IH (before ++ [k])); [|by rewrite <- app_assoc|simpl in Hf; lia].
  apply overlaps_spec in Ho.
  rewrite (List.filter_ext_in _ (overlaps from to)); [done|].
  intros m Hm%list_elem_of_In. pose proof (nodes_after t k m before rest Hwf Hs Hm).
  unfold overlaps. destruct (Z.leb_spec (start m) to); [simpl|done].
  destruct (Z.leb_spec (Z.min (last k + 1) to) (last m)), (Z.leb_spec from (last m)); lia.
Qed.

Lemma clear_loop_spec (t : T) (fuel : nat) :
  wf_nodes (it_nodes t) -> (length (it_nodes t) <= fuel)%nat ->
  it_nodes (clear_loop fuel t) = [].
Proof.
  revert t. induction fuel as [|fuel IH]; intros t Hwf Hf; simpl.
  - apply length_zero_iff_nil. lia.
  - destruct (interval_tree_iter_first t 0 (2 ^ 64 - 1)) as [n|] eqn:E.
    + apply iter_first_some in E as (Hn & _).
      destruct (remove_wf n t Hwf Hn) as (_ & Hwf' & _).
      apply IH; [done|]. rewrite (nodes_remove n t Hn) in Hf. simpl in Hf. lia.
    + destruct (it_nodes t) as [|k ks] eqn:Ek; [done|].
      assert (k ∈ it_nodes t) as Hk by (rewrite Ek; by left).
      destruct Hwf as (_ & Hok & _). rewrite <- Ek in Hok. destruct (Hok k Hk) as (? & ? & Hl & _).
      unfold VA_MAX in Hl. destruct (iter_first_none _ _ _ k E Hk); lia.
Qed.

End Laws.

(** ** An implementation of the interface: sorted lists of nodes *)
Module ListTree.

Fixpoint insert (n : node) (l : list node) : list node :=
  match l with
  | [] => [n]
  | m :: l' => if start n <=? start m then n :: l else m :: insert n l'
  end.

Fixpoint remove (n : node) (l : list node) : list node :=
  match l with
  | [] => []
  | m :: l' => if decide (m = n) then l' else m :: remove n l'
  end.

Fixpoint after (n : node) (l : list node) : list node :=
  match l with
  | [] => []
  | m :: l' => if decide (m = n) then l' else after n l'
  end.

Definition by_start (a b : node) : Prop := start a <= start b.

Lemma insert_perm (n : node) (l : list node) : Permutation (insert n l) (n :: l).
Proof.
  induction l as [|m l IH]; simpl; [done|]. destruct (start n <=? start m); [done|].
  rewrite IH. apply Permutation_swap.
Qed.

Lemma insert_sorted (n : node) (l : list node) :
  StronglySorted by_start l -> StronglySorted by_start (insert n l).
Proof.
  induction 1 as [|m l Hs IH Hall]; simpl; [repeat constructor|].
  destruct (Z.leb_spec (start n) (start m)).
  - repeat constructor; try done. eapply Forall_impl; [exact Hall|].
    unfold by_start. lia.
  - constructor; [done|]. rewrite insert_perm. constructor; [unfold by_start; lia|done].
Qed.

Lemma remove_perm (n : node) (l : list node) : n ∈ l -> Permutation l (n :: remove n l).
Proof.
  induction l as [|m l IH]; intros Hn; simpl; [by apply elem_of_nil in Hn|].
  destruct (decide (m = n)) as [->|Hne]; [done|].
  apply elem_of_cons in Hn as [->|Hn]; [done|]. rewrite (IH Hn) at 1. apply Permutation_swap.
Qed.

Lemma remove_sorted (n : node) (l : list node) :
  StronglySorted by_start l -> StronglySorted by_start (remove n l).
Proof.
  induction 1 as [|m l Hs IH Hall]; simpl; [constructor|].
  destruct (decide (m = n)); [done|]. constructor; [done|].
  rewrite Forall_forall in Hall |- *. intros k Hk. apply Hall. clear -Hk.
  induction l as [|a l IH]; simpl in *; [done|].
  destruct (decide (a = n)); [by right|]. set_solver.
Qed.

Lemma after_app (n : node) (l1 l2 : list node) :
  n ∉ l1 -> after n (l1 ++ n :: l2) = l2.
Proof.
  induction l1 as [|m l1 IH]; intros Hn; simpl.
  - by rewrite decide_True.
  - rewrite decide_False by set_solver. apply IH. set_solver.
Qed.

Definition tree : Type := { l : list node | StronglySorted by_start l }.

#[global] Instance list_tree : IntervalTree tree := {
  RB_ROOT_CACHED := exist _ [] (SSorted_nil _);
  interval_tree_insert n t := exist _ (insert n (`t)) (insert_sorted n (`t) (proj2_sig t));
  interval_tree_remove n t := exist _ (remove n (`t)) (remove_sorted n (`t) (proj2_sig t));
  interval_tree_iter_first t s l := List.find (overlaps s l) (`t);
  interval_tree_iter_next t n s l := List.find (overlaps s l) (after n (`t));
  it_nodes t := `t
}.

#[global] Instance list_tree_laws : IntervalTreeLaws tree.
Proof.
  split; simpl.
  - done.
  - intros t. exact (proj2_sig t).
  - intros n t. apply insert_perm.
  - intros n t Hn. by apply remove_perm.
  - done.
  - intros t n s l l1 l2 Hs Hnd. rewrite Hs in *. rewrite after_app; [done|].
    apply NoDup_app in Hnd as (_ & Hnd & _). intros Hn. apply (Hnd n Hn). by left.
Qed.

(** Trees for the witnesses. *)
Definition of_list (l : list node) : tree := foldr interval_tree_insert RB_ROOT_CACHED l.

End ListTree.

(** ** The properties *)
Section Properties.
Context {T : Type} {IT : IntervalTree T} {Laws : IntervalTreeLaws T}.

(** C8: insert_vmem_interval, for a range of whole pages none of which is
    present: it succeeds, the tree stays a set of page-aligned intervals with
    gaps between them (both neighbours are merged), and exactly the new range
    becomes present; a failed allocation leaves the tree alone.
    remove_vmem_interval, for a range of whole pages inside one present
    interval: exactly that range stops being present and the invariant is
    kept; when the node for the upper part cannot be allocated, the part above
    the range is lost too, and nothing else. *)
Theorem vmem_intervals_correct (t : T) :
  wf_nodes (it_nodes t) ->
  (forall ok v n, v mod PAGE_SIZE = 0 -> 0 <= v -> 0 < n -> v + n * PAGE_SIZE <= VA_MAX ->
     (forall x, v <= x < v + n * PAGE_SIZE -> ~ covered (it_nodes t) x) ->
     let '(res, t') := insert_vmem_interval ok t v n in
     wf_nodes (it_nodes t') /\
     (if ok then res = 0 /\
        forall x, covered (it_nodes t') x <-> covered (it_nodes t) x \/ v <= x < v + n * PAGE_SIZE
      else res = - ENOMEM /\ t' = t)) /\
  (forall oks m v n, m ∈ it_nodes t -> v mod PAGE_SIZE = 0 -> 0 < n ->
     start m <= v -> v + n * PAGE_SIZE <= last m + 1 ->
     let t' := remove_vmem_interval oks t v n in
     wf_nodes (it_nodes t') /\
     forall x, covered (it_nodes t') x <->
       covered (it_nodes t) x /\ ~ (v <= x < v + n * PAGE_SIZE) /\
       (hd true oks = false -> start m < v -> ~ (v + n * PAGE_SIZE <= x <= last m))).
Proof.
  intros Hwf. split; [|intros oks m v n; by apply remove_vmem_interval_spec].
  intros ok v n H1 H2 H3 H4 H5. destruct ok; [|by simpl].
  destruct (insert_vmem_interval_spec t v n) as (t' & -> & ? & ?); done.
Qed.

(** search_vmem_intervals lists, in ascending order, exactly the
    intervals that intersect the range, each once; it stops with -ENOMEM at
    the first allocation that fails, with the entries before it in the list. *)
Theorem search_vmem_intervals_correct (oks : list bool) (t : T) (v n : Z) :
  wf_nodes (it_nodes t) -> 0 <= v -> 0 < n -> v + n * PAGE_SIZE <= VA_MAX ->
  search_vmem_intervals oks t v n =
  collect oks (List.filter (overlaps v (v + n * PAGE_SIZE - 1)) (it_nodes t)).
Proof.
  intros Hwf Hv Hn He. unfold search_vmem_intervals. cbv zeta.
  rewrite u64_va by (unfold PAGE_SIZE in *; lia). rewrite iter_first_spec.
  apply (search_loop_spec t _ _ []); try done; lia.
Qed.

(** is_page_present answers whether the page at an aligned address is
    present, and the tear-down loop leaves no page present. *)
Theorem is_page_present_correct (t : T) (v : Z) :
  wf_nodes (it_nodes t) -> v mod PAGE_SIZE = 0 -> 0 <= v < VA_MAX ->
  (is_page_present t v = true <-> covered (it_nodes t) v) /\
  is_page_present (clear_intervals t) v = false.
Proof.
  intros Hwf Ha Hv. split; [by apply is_page_present_covered|].
  unfold is_page_present. rewrite iter_first_spec.
  unfold clear_intervals. by rewrite clear_loop_spec.
Qed.

(** remove_vmem_interval does not remove an interval that starts strictly
    inside the range: the node is put back with the address before the range
    as its last one, an interval with its bounds inverted. *)
Theorem remove_vmem_interval_inverts (oks : list bool) (t : T) (m : node) (v n : Z) :
  wf_nodes (it_nodes t) -> m ∈ it_nodes t -> 0 < v -> 0 < n ->
  v + n * PAGE_SIZE <= VA_MAX -> v < start m -> last m < v + n * PAGE_SIZE ->
  List.filter (overlaps v (v + n * PAGE_SIZE - 1)) (it_nodes t) = [m] ->
  let t' := remove_vmem_interval oks t v n in
  mk_node (start m) (v - 1) ∈ it_nodes t' /\ v - 1 < start m.
Proof.
  intros Hwf Hm Hv Hn He Hs Hl Hf. unfold remove_vmem_interval. cbv zeta.
  set (to := v + n * PAGE_SIZE - 1) in *.
  rewrite u64_va by (unfold to, PAGE_SIZE in *; lia).
  pose proof (wf_node_le _ _ Hwf Hm) as Hml.
  assert (interval_tree_iter_first t v to = Some m) as ->.
  { rewrite iter_first_spec. clear -Hf. induction (it_nodes t) as [|k ks IH]; simpl in *; [done|].
    destruct (overlaps v to k); [congruence|auto]. }
  destruct (length (it_nodes t)) as [|f] eqn:El.
  { apply length_zero_iff_nil in El. rewrite El in Hm. by apply elem_of_nil in Hm. }
  simpl. pose proof Hm as Hm'. apply list_elem_of_split in Hm' as (l1 & l2 & Hsp).
  pose proof Hwf as (Hnd & _).
  rewrite (iter_next_spec t m v to l1 l2 Hsp Hnd).
  rewrite (find_none_all (overlaps v to) l2).
  2:{ intros k Hk. destruct (overlaps v to k) eqn:Hko; [|done].
      assert (k ∈ List.filter (overlaps v to) (it_nodes t)) as Hkf.
      { apply list_elem_of_In, List.filter_In. split; [|done]. apply list_elem_of_In.
        rewrite Hsp. set_solver. }
      rewrite Hf in Hkf. apply list_elem_of_singleton in Hkf as ->. rewrite Hsp in Hnd.
      apply NoDup_app in Hnd as (_ & _ & Hnd). by apply NoDup_cons in Hnd as [? _]. }
  replace (remove_loop f _ _ _ _ None) with
    (remove_node (hd true oks) (interval_tree_remove m t) v to m) by (by destruct f).
  unfold remove_node. rewrite !Z.gtb_ltb.
  destruct (Z.eqb_spec (start m) v); [lia|]. simpl.
  destruct (Z.ltb_spec to (last m)); [unfold to in *; lia|].
  rewrite nodes_insert, u64_va by (unfold PAGE_SIZE in *; lia). split; [by left|lia].
Qed.

End Properties.

(** ** Witnesses *)

(** Two present ranges: pages 1 and 3. *)
Definition demo_tree : ListTree.tree :=
  ListTree.of_list [mk_node 4096 8191; mk_node 12288 16383].

Lemma demo_tree_wf : wf_nodes (it_nodes demo_tree).
Proof.
  change (it_nodes demo_tree) with [mk_node 4096 8191; mk_node 12288 16383].
  rewrite !wf_nodes_cons. unfold node_ok, VA_MAX, PAGE_SIZE. simpl.
  split_and!; try done; try lia; try apply wf_nodes_nil; intros m Hm.
  - by apply elem_of_nil in Hm.
  - apply list_elem_of_singleton in Hm as ->. unfold apart. simpl. lia.
Defined.

Lemma demo_tree_uncovered (x : Z) : 8192 <= x < 12288 -> ~ covered (it_nodes demo_tree) x.
Proof.
  change (it_nodes demo_tree) with [mk_node 4096 8191; mk_node 12288 16383].
  rewrite !covered_cons, covered_nil. simpl. lia.
Qed.

Lemma vmem_intervals_correct_witness :
  it_nodes (snd (insert_vmem_interval true demo_tree 8192 1)) = [mk_node 4096 16383] /\
  (let '(res, t') := insert_vmem_interval true demo_tree 8192 1 in
   wf_nodes (it_nodes t') /\
   (res = 0 /\ forall x, covered (it_nodes t') x <->
        covered (it_nodes demo_tree) x \/ 8192 <= x < 8192 + 1 * PAGE_SIZE)) /\
  it_nodes (remove_vmem_interval [] demo_tree 4096 1) = [mk_node 12288 16383] /\
  wf_nodes (it_nodes (remove_vmem_interval [] demo_tree 4096 1)).
Proof.
  destruct (vmem_intervals_correct demo_tree demo_tree_wf) as [Hins Hrem].
  split; [vm_compute; reflexivity|]. split; [|split; [vm_compute; reflexivity|]].
  - exact (Hins true 8192 1 eq_refl ltac:(lia) ltac:(lia) ltac:(vm_compute; discriminate) demo_tree_uncovered).
  - refine (proj1 (Hrem [] (mk_node 4096 8191) 4096 1 _ eq_refl ltac:(lia) _ _)); [|vm_compute; discriminate..].
    vm_compute. left.
Defined.

Definition demo_wide : ListTree.tree := ListTree.of_list [mk_node 4096 16383].

Lemma demo_wide_wf : wf_nodes (it_nodes demo_wide).
Proof.
  change (it_nodes demo_wide) with [mk_node 4096 16383].
  rewrite !wf_nodes_cons. unfold node_ok, VA_MAX, PAGE_SIZE. simpl.
  split_and!; try done; try lia; try apply wf_nodes_nil.
  intros m Hm. by apply elem_of_nil in Hm.
Defined.

Lemma search_vmem_intervals_correct_witness :
  search_vmem_intervals [true; false] demo_tree 0 4 = (- ENOMEM, [mk_node 4096 8191]) /\
  search_vmem_intervals [] demo_tree 0 4 =
    collect [] (List.filter (overlaps 0 16383) (it_nodes demo_tree)).
Proof.
  split; [vm_compute; reflexivity|].
  exact (search_vmem_intervals_correct [] demo_tree 0 4 demo_tree_wf
           ltac:(lia) ltac:(lia) ltac:(vm_compute; discriminate)).
Defined.

Lemma is_page_present_correct_witness :
  is_page_present demo_tree 4096 = true /\
  is_page_present (clear_intervals demo_tree) 4096 = false.
Proof.
  split; [vm_compute; reflexivity|].
  exact (proj2 (is_page_present_correct demo_tree 4096 demo_tree_wf eq_refl
           ltac:(unfold VA_MAX; lia))).
Defined.

Lemma remove_vmem_interval_inverts_witness :
  it_nodes (remove_vmem_interval [] demo_wide 2048 4) = [mk_node 4096 2047] /\
  mk_node 4096 2047 ∈ it_nodes (remove_vmem_interval [] demo_wide 2048 4).
Proof.
  split; [vm_compute; reflexivity|].
  refine (proj1 (remove_vmem_interval_inverts [] demo_wide (mk_node 4096 16383) 2048 4
            demo_wide_wf _ ltac:(lia) ltac:(lia) _ _ _ _));
    [|vm_compute; try discriminate; reflexivity..].
  apply list_elem_of_singleton. reflexivity.
Defined.

End Intervals.
