(* ===== verification/SvmHw.v ===== *)
(** * The PageDMA core and the on-FPGA IOMMU as the driver sees them
      (pcie/pcie_svm.h)

    The register maps, the command encodings, and what a sequence of register
    writes means: a write to a start register issues the transfer described by
    the address registers at that moment, a write to the command register of
    the IOMMU issues the command with the current virtual and physical address.
    The encodings are those of the masks and shifts of pcie_svm.h. *)
From S2P Require Import Prelude.

Module SvmHw.

(** ** Constants *)
Definition MMU_DROP_FAULT : Z := 0x1.
Definition MMU_INVALIDATE_ENTRY : Z := 0x2.
Definition MMU_INVALIDATE_ALL : Z := 0x3.
Definition MMU_ADD_ENTRY : Z := 0x4.
Definition MMU_ADD_AL_ENTRY : Z := 0x6.
Definition MMU_ACTIVATE : Z := 0x8.
Definition MMU_DEACTIVATE : Z := 0x9.
Definition MMU_FAULT_REPLAY : Z := 0xA.
Definition MMU_MAX_MAPPING_LENGTH : Z := 32768.
Definition MMU_AL_LENGTH_SHIFT : Z := 48.
Definition MMU_INVALIDATE_LENGTH_SHIFT : Z := 48.
Definition MMU_STATUS_MEM_ACCESS_ACTIVE : Z := 1.
Definition MMU_STATUS_ANY_MEM_ACCESS : Z := 2.
Definition MMU_INTR_ENABLE : Z := 1.
Definition MMU_ISSUE_FAULT_ENABLE : Z := 2.
Definition VALID_ADDR_FLAG : Z := 2 ^ 63.
Definition VADDR_MASK : Z := 0xFFFFFFFFFFFF.
Definition MAX_NUM_FAULTS : Z := 48.
Definition NETWORK_PAGE_DMA_ID : Z := 0x5A6ED4AE.
Definition PAGE_DMA_STAT_BUSY : Z := 1.
Definition PAGE_DMA_STAT_ERROR_FLAGS : Z := 12.
Definition PAGE_DMA_CTRL_RESET_INTR : Z := 2.
Definition PAGE_DMA_CTRL_INTR_ENABLE : Z := 32.
Definition PAGE_DMA_CTRL_INTR_DISABLE : Z := 64.
Definition PAGE_DMA_CMD_START : Z := 2 ^ 63.
Definition PAGE_DMA_CMD_CLEAR : Z := 2 ^ 62.
Definition PAGE_DMA_CMD_NETWORK : Z := 2 ^ 60.
Definition PAGE_DMA_POLL_LIMIT : Z := 128.
Definition PAGE_DMA_MAX_NPAGES : Z := 4096.
Definition DEV_TO_DEV_DMA_MAX_NPAGES : Z := 1024.
Definition PAGE_DMA_TIMEOUT_MSECS : Z := 1000.
Definition UMPM_MAX_PAGES : Z := 131072.
Definition DMA_TIMEOUT_ERROR : Z := 1.
Definition MMU_DEACTIVATED_ERROR : Z := 2.

(** ** Register maps: struct page_dma_regs and struct mmu_regs *)
Inductive reg :=
| c2h_status_ctrl | c2h_src_addr | c2h_dst_addr | c2h_start_len | c2h_cmd_cnt
| h2c_status_ctrl | h2c_src_addr | h2c_dst_addr | h2c_start_len | h2c_cmd_cnt
| dma_id | own_mac | dst_mac
| mmu_cmd | mmu_vaddr | mmu_paddr | faulted_vaddr | intr_enable | mmu_status.

#[export] Instance reg_eq_dec : EqDecision reg.
Proof. solve_decision. Defined.

(** ** Commands *)

(** A page transfer: [t_npages] pages from [t_src] to [t_dst]; [t_clear] zeroes
    the destination instead, [t_network] replaces one side by the network port. *)
Record transfer := mk_transfer {
  t_src : Z; t_dst : Z; t_npages : Z; t_clear : bool; t_network : bool
}.

Inductive mmu_op :=
| Invalidate (v : Z) (length : Z)
| InvalidateAll
| AddEntry (v p : Z)
| AddAlEntry (v p : Z) (length : Z)
| Activate
| Deactivate
| FaultReplay
| DropFault
| OtherOp (w : Z).

(** ** The device: address registers and the commands issued so far *)
Record hw_dev := mk_hw {
  regs : reg -> Z;
  h2c_issued : list transfer;
  c2h_issued : list transfer;
  mmu_issued : list mmu_op
}.

Definition set_reg (r : reg) (v : Z) (f : reg -> Z) : reg -> Z :=
  fun r' => if decide (r' = r) then v else f r'.

(** A word written to a start register. *)
Definition decode_transfer (s d w : Z) : transfer :=
  mk_transfer s d (Z.land w (Z.ones 32)) (Z.testbit w 62) (Z.testbit w 60).

(** A word written to the command register of the IOMMU: the opcode in the low
    bits, a length in pages in bits 48 to 63. *)
Definition decode_mmu (v p w : Z) : mmu_op :=
  let op := Z.land w (Z.ones 48) in
  let len := Z.shiftr w 48 in
  if op =? MMU_INVALIDATE_ENTRY then Invalidate v len
  else if op =? MMU_INVALIDATE_ALL then InvalidateAll
  else if op =? MMU_ADD_ENTRY then AddEntry v p
  else if op =? MMU_ADD_AL_ENTRY then AddAlEntry v p len
  else if op =? MMU_ACTIVATE then Activate
  else if op =? MMU_DEACTIVATE then Deactivate
  else if op =? MMU_FAULT_REPLAY then FaultReplay
  else if op =? MMU_DROP_FAULT then DropFault
  else OtherOp w.

Definition hw_write (h : hw_dev) (r : reg) (v : Z) : hw_dev :=
  let g := set_reg r v (regs h) in
  match r with
  | h2c_start_len =>
      if Z.testbit v 63
      then mk_hw g (h2c_issued h ++ [decode_transfer (g h2c_src_addr) (g h2c_dst_addr) v])
             (c2h_issued h) (mmu_issued h)
      else mk_hw g (h2c_issued h) (c2h_issued h) (mmu_issued h)
  | c2h_start_len =>
      if Z.testbit v 63
      then mk_hw g (h2c_issued h)
             (c2h_issued h ++ [decode_transfer (g c2h_src_addr) (g c2h_dst_addr) v])
             (mmu_issued h)
      else mk_hw g (h2c_issued h) (c2h_issued h) (mmu_issued h)
  | mmu_cmd =>
      mk_hw g (h2c_issued h) (c2h_issued h)
        (mmu_issued h ++ [decode_mmu (g mmu_vaddr) (g mmu_paddr) v])
  | _ => mk_hw g (h2c_issued h) (c2h_issued h) (mmu_issued h)
  end.

(** ** What the commands do to pages *)

(** The page-wise effect of a transfer: (source page or cleared, destination). *)
Definition pages_of (t : transfer) : list (option Z * Z) :=
  map (fun i => (if t_clear t then None else Some (t_src t + i * PAGE_SIZE),
                 t_dst t + i * PAGE_SIZE))
    (seqZ 0 (t_npages t)).

(** The translations an IOMMU command adds. *)
Definition mappings_of (o : mmu_op) : list (Z * Z) :=
  match o with
  | AddEntry v p => [(v, p)]
  | AddAlEntry v p n => map (fun i => (v + i * PAGE_SIZE, p + i * PAGE_SIZE)) (seqZ 0 n)
  | _ => []
  end.

(** ** Lemmas on the encodings *)

Lemma land_ones_lor_high (n w k : Z) :
  0 <= k -> 0 <= n < 2 ^ k -> Z.land w (Z.ones k) = 0 -> Z.land (Z.lor n w) (Z.ones k) = n.
Proof.
  intros Hk Hn Hw. rewrite Z.land_lor_distr_l, Hw, Z.lor_0_r.
  rewrite Z.land_ones by done. by apply Z.mod_small.
Qed.

Lemma testbit_small (n k i : Z) : 0 <= n < 2 ^ k -> k <= i -> Z.testbit n i = false.
Proof.
  intros Hn Hk. destruct (decide (n = 0)) as [->|]; [apply Z.bits_0|].
  apply Z.bits_above_log2; [lia|]. apply Z.log2_lt_pow2; [lia|].
  eapply Z.lt_le_trans; [apply Hn|]. apply Z.pow_le_mono_r; lia.
Qed.

(** The word of a page transfer and its reading. *)
Lemma decode_transfer_word (s d n : Z) (c w : bool) :
  0 <= n < 2 ^ 32 ->
  let word :=
    Z.lor (Z.lor (Z.lor n PAGE_DMA_CMD_START) (if c then PAGE_DMA_CMD_CLEAR else 0))
      (if w then PAGE_DMA_CMD_NETWORK else 0) in
  Z.testbit word 63 = true /\ decode_transfer s d word = mk_transfer s d n c w.
Proof.
  intros Hn word. split.
  - unfold word. rewrite !Z.lor_spec. change (Z.testbit PAGE_DMA_CMD_START 63) with true.
    by rewrite orb_true_r.
  - unfold decode_transfer. f_equal.
    + unfold word. rewrite <- !Z.lor_assoc. apply land_ones_lor_high; [lia|done|].
      destruct c, w; reflexivity.
    + unfold word. rewrite !Z.lor_spec, (testbit_small n 32) by lia. by destruct c, w.
    + unfold word. rewrite !Z.lor_spec, (testbit_small n 32) by lia. by destruct c, w.
Qed.

(** The word of an IOMMU command with a length; the field has 16 bits. *)
Lemma decode_mmu_length (op n : Z) :
  0 <= op < 16 -> 0 <= n ->
  let w := Z.lor (u64 (Z.shiftl n 48)) op in
  Z.land w (Z.ones 48) = op /\ Z.shiftr w 48 = n mod 65536.
Proof.
  intros Hop Hn w. unfold w.
  assert (u64 (Z.shiftl n 48) = Z.shiftl (n mod 65536) 48) as ->.
  { unfold u64, wrap. rewrite !Z.shiftl_mul_pow2 by lia.
    change (2 ^ 64) with (65536 * 2 ^ 48). rewrite Z.mul_mod_distr_r by lia. done. }
  split.
  - rewrite Z.lor_comm. apply land_ones_lor_high; [lia|lia|].
    rewrite Z.land_ones by lia. rewrite Z.shiftl_mul_pow2 by lia. apply Z.mod_mul. lia.
  - rewrite Z.shiftr_lor, Z.shiftr_shiftl_l by lia. simpl Z.sub. rewrite Z.shiftl_0_r.
    rewrite (Z.shiftr_div_pow2 op) by lia. rewrite Z.div_small by lia. apply Z.lor_0_r.
Qed.

(** A command word without a length. *)
Lemma decode_mmu_add (v p : Z) : decode_mmu v p MMU_ADD_ENTRY = AddEntry v p.
Proof. reflexivity. Qed.

End SvmHw.
