(* ===== verification/SvmSys.v ===== *)
(** * The system the SVM code runs in (pcie/pcie_svm.c)

    Signature of the kernel services and register accesses the SVM code uses,
    the state they act on, and the [model] of their behaviour: which calls are
    legal ([pre]: a page is only put by who holds a reference, an array is only
    freed once, a mapping is only undone when it exists, a migration is set up
    and finalised in turns) and what they may answer ([post]).  The interval
    tree is that of the class [IntervalTree]; the kernel's encoding of migration
    entries is a parameter. *)
From S2P Require Import Prelude Kernel.
From S2P Require Import DevMem DevPages Intervals SvmHw.

Module SvmSys.
Import Kernel DevMem DevPages Intervals SvmHw.

(** ** State *)
Section State.
Context {T : Type}.

(** One device: struct tlkm_pcie_svm_data with its hardware.  [live] are the
    device pages in use (referenced by the process or a migration). *)
Record svm_dev := mk_svm {
  hw : hw_dev;
  mem : svm_mem;
  live : list Z;
  vmem_intervals : T;
  error_state : Z;
  network_dma_enabled : bool;
  mac_addr : Z;
  rdma_bar : Z
}.

(** The kernel's side: [heap] are the arrays the driver holds, [maps] its DMA
    mappings, [host] the host pages it has allocated, [mm] the state of the
    address space, [clock] the time in ns, and [busy] how often the hardware may
    still answer that an access is in flight or a fault pending.  [reported] are
    the faulted addresses that have been read from the IOMMUs, with the device. *)
Inductive mm_state :=
| mm_unlocked
| mm_locked                          (* the mmap lock is held *)
| mm_migrating (src : list Z).       (* and a migration is set up: migrate.src *)

(** What the kernel was last asked to migrate (struct migrate_vma): the first
    address, the page it has collected for each page from there on, and the
    pages it was given to put in their places. *)
Record migration := mk_migration {
  mig_start : Z;
  mig_src : list (option Z);
  mig_dst : list Z
}.

Definition no_migration : migration := mk_migration 0 [] [].

Record sys := mk_sys {
  devs : Z -> svm_dev;
  heap : list Z;
  maps : list Z;
  host : list Z;
  mm : mm_state;
  clock : Z;
  busy : nat;
  migr : migration;
  reported : list (Z * Z)
}.

Definition set_hw (h : hw_dev) (v : svm_dev) : svm_dev :=
  mk_svm h (mem v) (live v) (vmem_intervals v) (error_state v) (network_dma_enabled v)
    (mac_addr v) (rdma_bar v).
Definition set_mem (m : svm_mem) (l : list Z) (v : svm_dev) : svm_dev :=
  mk_svm (hw v) m l (vmem_intervals v) (error_state v) (network_dma_enabled v)
    (mac_addr v) (rdma_bar v).
Definition set_tree (t : T) (v : svm_dev) : svm_dev :=
  mk_svm (hw v) (mem v) (live v) t (error_state v) (network_dma_enabled v)
    (mac_addr v) (rdma_bar v).
Definition set_error (e : Z) (v : svm_dev) : svm_dev :=
  mk_svm (hw v) (mem v) (live v) (vmem_intervals v) e (network_dma_enabled v)
    (mac_addr v) (rdma_bar v).

Definition upd (d : Z) (f : svm_dev -> svm_dev) (s : sys) : sys :=
  mk_sys (fun d' => if d' =? d then f (devs s d') else devs s d')
    (heap s) (maps s) (host s) (mm s) (clock s) (busy s) (migr s) (reported s).
Definition set_heap (h : list Z) (s : sys) : sys :=
  mk_sys (devs s) h (maps s) (host s) (mm s) (clock s) (busy s) (migr s) (reported s).
Definition set_maps (l : list Z) (s : sys) : sys :=
  mk_sys (devs s) (heap s) l (host s) (mm s) (clock s) (busy s) (migr s) (reported s).
Definition set_host (l : list Z) (s : sys) : sys :=
  mk_sys (devs s) (heap s) (maps s) l (mm s) (clock s) (busy s) (migr s) (reported s).
Definition set_mm (c : mm_state) (s : sys) : sys :=
  mk_sys (devs s) (heap s) (maps s) (host s) c (clock s) (busy s) (migr s) (reported s).
Definition set_migr (m : migration) (s : sys) : sys :=
  mk_sys (devs s) (heap s) (maps s) (host s) (mm s) (clock s) (busy s) m (reported s).
Definition set_time (t : Z) (b : nat) (s : sys) : sys :=
  mk_sys (devs s) (heap s) (maps s) (host s) (mm s) t b (migr s) (reported s).
Definition set_reported (l : list (Z * Z)) (s : sys) : sys :=
  mk_sys (devs s) (heap s) (maps s) (host s) (mm s) (clock s) (busy s) (migr s) l.
End State.
Arguments svm_dev : clear implicits.
Arguments sys : clear implicits.

(** ** Page tables *)

(** What a walk of the process's page tables finds for an address, level by
    level: an upper level that is empty or bad, or the entry of the last level. *)
Inductive pte :=
| pte_none
| pte_present
| pte_swapped (device_private : bool) (page : Z).

Record page_walk := mk_walk {
  pgd_none_or_bad : bool;
  p4d_none_or_bad : bool;
  pud_none_or_bad : bool;
  pmd_none : bool;
  last_level : pte
}.

(** svm_perform_ptw: the page of a device private entry. *)
Definition svm_perform_ptw (w : page_walk) : option Z :=
  if pgd_none_or_bad w then None
  else if p4d_none_or_bad w then None
  else if pud_none_or_bad w then None
  else if pmd_none w then None
  else match last_level w with
       | pte_none | pte_present => None
       | pte_swapped device_private page => if device_private then Some page else None
       end.

(** ** The calls *)
Inductive svmE (T : Type) : Type -> Type :=
| writeq (d : Z) (r : reg) (v : Z) : svmE T unit
| readq (d : Z) (r : reg) : svmE T Z
(* kmalloc, kcalloc: the new object, or NULL *)
| kalloc : svmE T (option Z)
| kfree (p : Z) : svmE T unit
(* an array that becomes part of a queued work item *)
| hand_over (p : Z) : svmE T unit
(* an allocation whose object is linked into a structure of the driver: a work
   item, a node of the interval tree *)
| kmalloc_ok : svmE T bool
| kmalloc_node : svmE T bool
(* a struct vmem_interval_list_entry *)
| kmalloc_entry : svmE T (option Z)
(* mmget and mmap_write_lock, mmap_write_unlock and mmput *)
| mmap_write_lock (d : Z) : svmE T unit
| mmap_write_unlock (d : Z) : svmE T unit
(* the page tables at an address *)
| walk_page_tables (d : Z) (va : Z) : svmE T page_walk
| ktime_get : svmE T Z
(* wait_event_interruptible_timeout on the C2H or H2C wait queue *)
| wait_event (d : Z) (c2h : bool) : svmE T Z
| find_vma_intersection (d : Z) (from to : Z) : svmE T bool
(* the result, migrate.cpages and migrate.src *)
| migrate_vma_setup (owner : Z) (device_private : bool) (from to : Z)
    : svmE T (Z * Z * list Z)
(* the pages of migrate.dst; migrate.src afterwards *)
| migrate_vma_pages (dst : list Z) : svmE T (list Z)
| migrate_vma_finalize : svmE T unit
(* None: dma_mapping_error holds of the address *)
| dma_map_page (d : Z) (page : Z) : svmE T (option Z)
| dma_unmap_page (d : Z) (addr : Z) : svmE T unit
| dma_unmap_failed (d : Z) : svmE T unit
| put_page (d : Z) (page : Z) : svmE T unit
| alloc_page_vma (va : Z) : svmE T (option Z)
| free_page (page : Z) : svmE T unit
(* the driver's own state *)
| get_dev (d : Z) : svmE T (svm_dev T)
| alloc_pages (d : Z) (n : Z) : svmE T (option (list Z))
| retire (d : Z) (pages : list Z) (ok : bool) : svmE T unit
| put_tree (d : Z) (t : T) : svmE T unit
| put_error (d : Z) (e : Z) : svmE T unit
(* a loop that has used up its fuel *)
| hang : svmE T unit.
Arguments writeq {T} d r v.
Arguments readq {T} d r.
Arguments kalloc {T}.
Arguments kfree {T} p.
Arguments hand_over {T} p.
Arguments kmalloc_ok {T}.
Arguments kmalloc_node {T}.
Arguments kmalloc_entry {T}.
Arguments mmap_write_lock {T} d.
Arguments mmap_write_unlock {T} d.
Arguments walk_page_tables {T} d va.
Arguments ktime_get {T}.
Arguments wait_event {T} d c2h.
Arguments find_vma_intersection {T} d from to.
Arguments migrate_vma_setup {T} owner device_private from to.
Arguments migrate_vma_pages {T} dst.
Arguments migrate_vma_finalize {T}.
Arguments dma_map_page {T} d page.
Arguments dma_unmap_page {T} d addr.
Arguments dma_unmap_failed {T} d.
Arguments put_page {T} d page.
Arguments alloc_page_vma {T} va.
Arguments free_page {T} page.
Arguments get_dev {T} d.
Arguments alloc_pages {T} d n.
Arguments retire {T} d pages ok.
Arguments put_tree {T} d t.
Arguments put_error {T} d e.
Arguments hang {T}.

(** ** The behaviour of the calls *)

(** Which calls may fail beyond those that always may: dma_map_page, and the
    allocation of interval nodes and list entries. *)
Record kernel_faults := mk_faults { map_fails : bool; node_fails : bool }.

Section Model.
Context {T : Type}.
(** The kernel's migration entries: [page_of] is migrate_pfn_to_page (pages are
    identified by their frame numbers).  [dma_of] is the bus address of a host
    page, [populated] tells which virtual pages have a page behind them (it does
    not change while the mmap lock is held), [tick] is the least time between
    two readings of the clock, and [faults] which calls may fail. *)
Variable page_of : Z -> option Z.
Variable dma_of : Z -> Z.
Variable populated : Z -> bool.
Variable tick : Z.
Variable faults : kernel_faults.

Definition svm_pre (X : Type) (e : svmE T X) (s : sys T) : Prop :=
  match e with
  | kfree p | hand_over p => p ∈ heap s
  | migrate_vma_setup _ _ from to => mm s = mm_locked /\ from <= to
  | migrate_vma_pages _ | migrate_vma_finalize => exists src, mm s = mm_migrating src
  | find_vma_intersection _ _ _ => mm s <> mm_unlocked
  | mmap_write_lock _ => mm s = mm_unlocked
  | mmap_write_unlock _ => mm s = mm_locked
  | dma_unmap_page _ a => a ∈ maps s
  | put_page d p => p ∈ live (devs s d)
  | free_page p => p ∈ host s
  | alloc_pages d n => 0 < n /\ n * PAGE_SIZE <= PHYS_MEM_SIZE
  | retire d pages _ => exists l, Permutation (live (devs s d)) (pages ++ l)
  | hang => False
  | _ => True
  end.

(** The work queues may run before the mutex of the allocator is taken. *)
Inductive worker_step : svm_mem -> svm_mem -> Prop :=
| worker_mem (m : svm_mem) (ok : bool) (i : nat) :
    worker_step m (handle_device_memory_free ok m i)
| worker_pages (m : svm_mem) (ok : bool) (i : nat) :
    worker_step m (work_device_pages_free ok m i).

(** The IOMMU reports accesses in flight and faults, and the PageDMA core
    a transfer under way, only finitely often. *)
Definition busy_answer (r : reg) (v : Z) : bool :=
  match r with
  | mmu_status => negb (Z.land v 3 =? 0)
  | faulted_vaddr => negb (Z.land v VALID_ADDR_FLAG =? 0)
  | c2h_status_ctrl => negb (Z.land v PAGE_DMA_STAT_BUSY =? 0)
  | _ => false
  end.

(** A valid answer of the fault register is a faulted address. *)
Definition report (d : Z) (r : reg) (v : Z) (s : sys T) : sys T :=
  match r with
  | faulted_vaddr =>
      if nonzero (Z.land v VALID_ADDR_FLAG)
      then set_reported (reported s ++ [(d, Z.land v VADDR_MASK)]) s
      else s
  | _ => s
  end.

Definition svm_post (X : Type) (e : svmE T X) (s : sys T) : X -> sys T -> Prop :=
  match e in svmE _ X return X -> sys T -> Prop with
  | writeq d r v => fun _ s' => s' = upd d (fun c => set_hw (hw_write (hw c) r v) c) s
  | readq d r => fun v s' =>
      0 <= v < 2 ^ 64 /\ (r = faulted_vaddr -> Z.land v VADDR_MASK mod PAGE_SIZE = 0) /\
      exists b, s' = report d r v (set_time (clock s) b s) /\ (b <= busy s)%nat /\
        (busy_answer r v = true -> (b < busy s)%nat)
  | kalloc => fun p s' =>
      match p with
      | Some a => a ∉ heap s /\ s' = set_heap (a :: heap s) s
      | None => s' = s
      end
  | kfree p | hand_over p => fun _ s' => exists h, Permutation (heap s) (p :: h) /\ s' = set_heap h s
  | kmalloc_ok => fun _ s' => s' = s
  | kmalloc_node => fun ok s' => (ok = false -> node_fails faults = true) /\ s' = s
  | kmalloc_entry => fun p s' =>
      match p with
      | Some a => a ∉ heap s /\ s' = set_heap (a :: heap s) s
      | None => node_fails faults = true /\ s' = s
      end
  | mmap_write_lock _ => fun _ s' => s' = set_mm mm_locked s
  | mmap_write_unlock _ => fun _ s' => s' = set_mm mm_unlocked s
  | walk_page_tables d _ => fun w s' =>
      s' = s /\ match svm_perform_ptw w with Some p => p ∈ live (devs s d) | None => True end
  | ktime_get => fun t s' => clock s + tick <= t /\ s' = set_time t (busy s) s
  | wait_event _ _ => fun _ s' => exists t, clock s <= t /\ s' = set_time t (busy s) s
  | find_vma_intersection _ _ _ => fun _ s' => s' = s
  | migrate_vma_setup d private from to => fun '(res, cpages, src) s' =>
      if res <? 0 then s' = s
      else res = 0 /\
           s' = set_mm (mm_migrating src) (set_migr (mk_migration from (map page_of src) []) s) /\
           Z.of_nat (length src) = (to - from) / PAGE_SIZE /\
           0 <= cpages <= (to - from) / PAGE_SIZE /\
           (cpages = (to - from) / PAGE_SIZE ->
            if private
            then exists ps l, map page_of src = map Some ps /\
                   Permutation (live (devs s d)) (ps ++ l)
            else forall i e, src !! i = Some e ->
                   bool_decide (is_Some (page_of e)) = populated (from + Z.of_nat i * PAGE_SIZE))
  | migrate_vma_pages dst => fun src s' =>
      exists src0, mm s = mm_migrating src0 /\ length src = length src0 /\
        s' = set_mm (mm_migrating src) (set_migr (mk_migration (mig_start (migr s)) (mig_src (migr s)) dst) s)
  | migrate_vma_finalize => fun _ s' => s' = set_mm mm_locked s
  | dma_map_page _ p => fun a s' =>
      match a with
      | Some a => a = dma_of p /\ s' = set_maps (a :: maps s) s
      | None => map_fails faults = true /\ s' = s
      end
  | dma_unmap_page _ a => fun _ s' =>
      exists l, Permutation (maps s) (a :: l) /\ s' = set_maps l s
  | dma_unmap_failed _ => fun _ s' => s' = s
  | put_page d p => fun _ s' => exists ok l, Permutation (live (devs s d)) (p :: l) /\
      s' = upd d (fun c => set_mem (free_device_page ok (mem c) p) l c) s
  | alloc_page_vma _ => fun p s' =>
      match p with Some p => s' = set_host (p :: host s) s | None => s' = s end
  | free_page p => fun _ s' => exists l, Permutation (host s) (p :: l) /\ s' = set_host l s
  | get_dev d => fun c s' => c = devs s d /\ s' = s
  | alloc_pages d n => fun r s' =>
      exists m, rtc worker_step (mem (devs s d)) m /\
      match alloc_device_pages m n with
      | Some (pages, m') =>
          r = Some pages /\ s' = upd d (fun c => set_mem m' (pages ++ live c) c) s
      | None => r = None /\ s' = upd d (fun c => set_mem m (live c) c) s
      end
  | retire d pages ok => fun _ s' => exists l, Permutation (live (devs s d)) (pages ++ l) /\
      s' = upd d (fun c => set_mem (retire_pages ok (mem c) pages) l c) s
  | put_tree d t => fun _ s' => s' = upd d (set_tree t) s
  | put_error d e => fun _ s' => s' = upd d (set_error e) s
  | hang => fun _ _ => False
  end.

Definition svm_model : @model (svmE T) (sys T) :=
  {| pre := svm_pre; post := svm_post |}.

End Model.

(** ** Frames: which parts of the state a piece of code leaves alone *)
Section Frames.
Context {T : Type}.

(** Everything but the hardware and error state of device [d] and the time. *)
Record io_only (d : Z) (s s' : sys T) : Prop := {
  io_other d' : d' <> d -> devs s' d' = devs s d';
  io_mem : mem (devs s' d) = mem (devs s d);
  io_live : live (devs s' d) = live (devs s d);
  io_tree : vmem_intervals (devs s' d) = vmem_intervals (devs s d);
  io_net : network_dma_enabled (devs s' d) = network_dma_enabled (devs s d);
  io_mac : mac_addr (devs s' d) = mac_addr (devs s d);
  io_rdma : rdma_bar (devs s' d) = rdma_bar (devs s d);
  io_heap : heap s' = heap s;
  io_maps : maps s' = maps s;
  io_host : host s' = host s;
  io_mm : mm s' = mm s;
  io_migr : migr s' = migr s;
  io_busy : (busy s' <= busy s)%nat;
  io_reported : reported s' = reported s
}.

#[export] Instance io_only_preorder (d : Z) : PreOrder (io_only d).
Proof.
  split.
  - intros s. by split.
  - intros s1 s2 s3 H1 H2. split; intros;
      [by rewrite (io_other _ _ _ H2), (io_other _ _ _ H1)|..];
      destruct H1, H2; lia || congruence.
Qed.

(** Everything but the memory of device [d]. *)
Record mem_only (d : Z) (s s' : sys T) : Prop := {
  mo_other d' : d' <> d -> devs s' d' = devs s d';
  mo_hw : hw (devs s' d) = hw (devs s d);
  mo_tree : vmem_intervals (devs s' d) = vmem_intervals (devs s d);
  mo_error : error_state (devs s' d) = error_state (devs s d);
  mo_net : network_dma_enabled (devs s' d) = network_dma_enabled (devs s d);
  mo_mac : mac_addr (devs s' d) = mac_addr (devs s d);
  mo_rdma : rdma_bar (devs s' d) = rdma_bar (devs s d);
  mo_heap : heap s' = heap s;
  mo_maps : maps s' = maps s;
  mo_host : host s' = host s;
  mo_mm : mm s' = mm s;
  mo_migr : migr s' = migr s;
  mo_busy : (busy s' <= busy s)%nat;
  mo_reported : reported s' = reported s
}.

#[export] Instance mem_only_preorder (d : Z) : PreOrder (mem_only d).
Proof.
  split.
  - intros s. by split.
  - intros s1 s2 s3 H1 H2. split; intros;
      [by rewrite (mo_other _ _ _ H2), (mo_other _ _ _ H1)|..];
      destruct H1, H2; lia || congruence.
Qed.

(** Everything but device [d] (its configuration included), the DMA mappings,
    the migration set-up and the time. *)
Record kept (d : Z) (s s' : sys T) : Prop := {
  kp_other d' : d' <> d -> devs s' d' = devs s d';
  kp_net : network_dma_enabled (devs s' d) = network_dma_enabled (devs s d);
  kp_mac : mac_addr (devs s' d) = mac_addr (devs s d);
  kp_rdma : rdma_bar (devs s' d) = rdma_bar (devs s d);
  kp_heap : heap s' = heap s;
  kp_host : host s' = host s;
  kp_busy : (busy s' <= busy s)%nat;
  kp_reported : reported s' = reported s
}.

#[export] Instance kept_preorder (d : Z) : PreOrder (kept d).
Proof.
  split.
  - intros s. by split.
  - intros s1 s2 s3 H1 H2. split; intros;
      [by rewrite (kp_other _ _ _ H2), (kp_other _ _ _ H1)|..];
      destruct H1, H2; lia || congruence.
Qed.

Lemma io_kept (d : Z) (s s' : sys T) : io_only d s s' -> kept d s s'.
Proof. intros []. by split. Qed.

Lemma mem_kept (d : Z) (s s' : sys T) : mem_only d s s' -> kept d s s'.
Proof. intros []. by split. Qed.

(** The configuration of all devices, no more patience used up, and no fault
    read. *)
Definition same_cfg (s s' : sys T) : Prop :=
  (busy s' <= busy s)%nat /\ reported s' = reported s /\ forall d, rdma_bar (devs s' d) = rdma_bar (devs s d).

#[export] Instance same_cfg_preorder : PreOrder same_cfg.
Proof.
  split; [by split|]. intros s1 s2 s3 (H1 & F1 & R1) (H2 & F2 & R2).
  split_and!; [lia|congruence|]. intros d. by rewrite R2, R1.
Qed.

Lemma kept_same_cfg (d : Z) (s s' : sys T) : kept d s s' -> same_cfg s s'.
Proof.
  intros H. split_and!; [exact (kp_busy _ _ _ H)|exact (kp_reported _ _ _ H)|]. intros d'. destruct (decide (d' = d)) as [->|Hne].
  - exact (kp_rdma _ _ _ H).
  - by rewrite (kp_other _ _ _ H).
Qed.

Definition h2c (s : sys T) (d : Z) : list transfer := h2c_issued (hw (devs s d)).
Definition c2h (s : sys T) (d : Z) : list transfer := c2h_issued (hw (devs s d)).
Definition mmu (s : sys T) (d : Z) : list mmu_op := mmu_issued (hw (devs s d)).

End Frames.

(** ** A kernel that grants everything

    One concrete behaviour the model allows, so that programs can be evaluated:
    pages are their own entries, every allocation and transfer succeeds. *)
Section Obliging.
Context {T : Type}.

Definition remove_all (xs l : list Z) : list Z := foldl (fun l x => remove_one x l) l xs.

Definition obliging (X : Type) (e : svmE T X) (s : sys T) : X * sys T :=
  match e in svmE _ X return X * sys T with
  | writeq d r v => (tt, upd d (fun c => set_hw (hw_write (hw c) r v) c) s)
  | readq _ _ => (0, set_time (clock s) (busy s) s)
  | kalloc => let a := 1 + foldr Z.max 0 (heap s) in (Some a, set_heap (a :: heap s) s)
  | kfree p | hand_over p => (tt, set_heap (remove_one p (heap s)) s)
  | kmalloc_ok | kmalloc_node => (true, s)
  | kmalloc_entry => let a := 1 + foldr Z.max 0 (heap s) in (Some a, set_heap (a :: heap s) s)
  | mmap_write_lock _ => (tt, set_mm mm_locked s)
  | mmap_write_unlock _ => (tt, set_mm mm_unlocked s)
  | walk_page_tables _ _ => (mk_walk false false false true pte_none, s)
  | ktime_get => (clock s + 1000000, set_time (clock s + 1000000) (busy s) s)
  | wait_event _ _ => (1, set_time (clock s) (busy s) s)
  | find_vma_intersection _ _ _ => (true, s)
  | migrate_vma_setup _ private from to =>
      if private then (- 1, 0, [], s)
      else let n := (to - from) / PAGE_SIZE in
           (0, n, seqZ 1 n,
            set_mm (mm_migrating (seqZ 1 n)) (set_migr (mk_migration from (map Some (seqZ 1 n)) []) s))
  | migrate_vma_pages dst =>
      (match mm s with mm_migrating src => src | _ => [] end,
       set_mm (mm s) (set_migr (mk_migration (mig_start (migr s)) (mig_src (migr s)) dst) s))
  | migrate_vma_finalize => (tt, set_mm mm_locked s)
  | dma_map_page _ p => (Some (p * PAGE_SIZE), set_maps (p * PAGE_SIZE :: maps s) s)
  | dma_unmap_page _ a => (tt, set_maps (remove_one a (maps s)) s)
  | dma_unmap_failed _ => (tt, s)
  | put_page d p => (tt, upd d (fun c => set_mem (free_device_page true (mem c) p)
                                          (remove_one p (live (devs s d))) c) s)
  | alloc_page_vma va => (Some va, set_host (va :: host s) s)
  | free_page p => (tt, set_host (remove_one p (host s)) s)
  | get_dev d => (devs s d, s)
  | alloc_pages d n =>
      match alloc_device_pages (mem (devs s d)) n with
      | Some (pages, m') => (Some pages, upd d (fun c => set_mem m' (pages ++ live c) c) s)
      | None => (None, upd d (fun c => set_mem (mem (devs s d)) (live c) c) s)
      end
  | retire d pages ok => (tt, upd d (fun c => set_mem (retire_pages ok (mem c) pages)
                                      (remove_all pages (live (devs s d))) c) s)
  | put_tree d t => (tt, upd d (set_tree t) s)
  | put_error d e => (tt, upd d (set_error e) s)
  | hang => (tt, s)
  end.

Lemma remove_all_perm (xs l k : list Z) :
  Permutation l (xs ++ k) -> Permutation l (xs ++ remove_all xs l).
Proof.
  revert l. induction xs as [|x xs IH]; intros l Hl; simpl; [done|].
  assert (x ∈ l) as Hx by (rewrite Hl; by left).
  rewrite (remove_one_perm x l Hx) at 1. constructor. apply IH.
  apply (Permutation_cons_inv (a := x)). by rewrite <- (remove_one_perm x l Hx).
Qed.

Lemma fresh_heap (l : list Z) : 1 + foldr Z.max 0 l ∉ l.
Proof.
  assert (forall x, x ∈ l -> x <= foldr Z.max 0 l) as H.
  { induction l as [|y l IH]; intros x Hx; [by apply elem_of_nil in Hx|].
    simpl. apply elem_of_cons in Hx as [->|Hx]; [lia|]. specialize (IH x Hx). lia. }
  intros Hin. specialize (H _ Hin). lia.
Qed.

(** The obliging kernel behaves as the model says. *)
Lemma obliging_post (X : Type) (e : svmE T X) (s : sys T) :
  svm_pre X e s ->
  let (x, s') := obliging X e s in
  svm_post Some (fun p => p * PAGE_SIZE) (fun _ => true) 1000000 (mk_faults false false) X e s x s'.
Proof.
  destruct e; simpl; intros Hpre; try done.
  - split; [lia|]. split; [by intros _|]. exists (busy s). by destruct r.
  - split; [apply fresh_heap|done].
  - eexists. split; [|done]. by apply remove_one_perm.
  - eexists. split; [|done]. by apply remove_one_perm.
  - split; [apply fresh_heap|done].
  - exists (clock s). split; [lia|done].
  - destruct Hpre as [_ Hle]. destruct device_private; [done|]. split_and!; try done.
    + rewrite length_seqZ. unfold PAGE_SIZE. dlia.
    + unfold PAGE_SIZE. dlia.
  - destruct Hpre as [src Hsrc]. exists src. rewrite Hsrc. done.
  - eexists. split; [|done]. by apply remove_one_perm.
  - exists true. eexists. split; [|done]. by apply remove_one_perm.
  - eexists. split; [|done]. by apply remove_one_perm.
  - destruct (alloc_device_pages (mem (devs s d)) n) as [[pages m']|] eqn:E;
      exists (mem (devs s d)); (split; [apply rtc_refl|]); by rewrite E.
  - destruct Hpre as [l Hl]. eexists. split; [|done]. by eapply remove_all_perm.
Qed.

End Obliging.

End SvmSys.
