(* ===== verification/SvmIo.v ===== *)
(** * Register protocols of the SVM code (pcie/pcie_svm.c)

    Issuing page transfers and IOMMU commands, waiting for the DMA engine, and
    the loop that installs the translations of a migrated range.  Each function
    has a [wp] specification: the commands the hardware receives, and that
    nothing else of the state changes. *)
From S2P Require Import Prelude Kernel.
From S2P Require Import DevMem DevPages Intervals SvmHw SvmSys.

Module SvmIo.
Import Kernel DevMem DevPages Intervals SvmHw SvmSys.
Open Scope prog_scope.

Section Io.
Context {T : Type}.
Notation P := (prog (svmE T)).

(** Bounds on busy waiting: iterations of the polling loops, and readings of
    the IOMMU status.  [hang] marks a loop that would need more. *)
Variable poll_fuel busy_fuel : nat.

(** ** The functions *)

Definition dma_cmd_len (npages : Z) : Z :=
  if npages >? PAGE_DMA_MAX_NPAGES then PAGE_DMA_MAX_NPAGES else npages.

(** The loops of init_c2h_dma and init_h2c_dma. *)
Fixpoint init_c2h_loop (fuel : nat) (d host_addr dev_addr npages : Z) (network : bool) : P unit :=
  if npages =? 0 then Ret tt else
  match fuel with
  | O => call hang
  | S fuel' =>
      call (writeq d c2h_src_addr dev_addr);;;
      when (negb network) (call (writeq d c2h_dst_addr host_addr));;;
      let npages_cmd := dma_cmd_len npages in
      let wval := Z.lor npages_cmd PAGE_DMA_CMD_START in
      let wval := if network then Z.lor wval PAGE_DMA_CMD_NETWORK else wval in
      call (writeq d c2h_start_len wval);;;
      init_c2h_loop fuel' d host_addr dev_addr (npages - npages_cmd) network
  end.

Definition init_c2h_dma (d host_addr dev_addr npages : Z) (network : bool) : P unit :=
  init_c2h_loop (Z.to_nat (npages / PAGE_DMA_MAX_NPAGES + 1)) d host_addr dev_addr npages network.

Fixpoint init_h2c_loop (fuel : nat) (d host_addr dev_addr npages : Z) (clear network : bool)
    : P unit :=
  if npages =? 0 then Ret tt else
  match fuel with
  | O => call hang
  | S fuel' =>
      let npages_cmd := dma_cmd_len npages in
      let wval := Z.lor npages_cmd PAGE_DMA_CMD_START in
      let wval := if clear then Z.lor wval PAGE_DMA_CMD_CLEAR else wval in
      let wval := if network then Z.lor wval PAGE_DMA_CMD_NETWORK else wval in
      when (negb network && negb clear) (call (writeq d h2c_src_addr host_addr));;;
      call (writeq d h2c_dst_addr dev_addr);;;
      call (writeq d h2c_start_len wval);;;
      init_h2c_loop fuel' d host_addr dev_addr (npages - npages_cmd) clear network
  end.

Definition init_h2c_dma (d host_addr dev_addr npages : Z) (clear network : bool) : P unit :=
  init_h2c_loop (Z.to_nat (npages / PAGE_DMA_MAX_NPAGES + 1)) d host_addr dev_addr npages
    clear network.

Definition add_tlb_entry (d va pa : Z) : P unit :=
  call (writeq d mmu_vaddr va);;;
  call (writeq d mmu_paddr pa);;;
  call (writeq d mmu_cmd MMU_ADD_ENTRY).

Definition add_al_tlb_entry (d va pa npages : Z) : P unit :=
  call (writeq d mmu_vaddr va);;;
  call (writeq d mmu_paddr pa);;;
  call (writeq d mmu_cmd
          (Z.lor MMU_ADD_AL_ENTRY (u64 (Z.shiftl (u64 npages) MMU_AL_LENGTH_SHIFT)))).

Definition invalidate_tlb_entry (d va : Z) : P unit :=
  call (writeq d mmu_vaddr va);;;
  call (writeq d mmu_cmd MMU_INVALIDATE_ENTRY).

Definition invalidate_tlb_range (d base npages : Z) : P unit :=
  call (writeq d mmu_vaddr base);;;
  let w_val := u64 (Z.shiftl (u64 npages) MMU_INVALIDATE_LENGTH_SHIFT) in
  let w_val := Z.lor w_val MMU_INVALIDATE_ENTRY in
  call (writeq d mmu_cmd w_val).

Definition start_fault_replay (d : Z) : P unit := call (writeq d mmu_cmd MMU_FAULT_REPLAY).

(** do { rval = readq(...); now = ktime_get(); ... } while (busy and time left) *)
Fixpoint poll_status (fuel : nat) (d : Z) (r : reg) (start : Z) : P (Z * Z) :=
  match fuel with
  | O => call hang;;; Ret (0, 0)
  | S fuel' =>
      let! rval := call (readq d r) in
      let! now := call ktime_get in
      let millis_elapsed := (now - start) / 1000000 in
      if nonzero (Z.land rval PAGE_DMA_STAT_BUSY) && (millis_elapsed <? PAGE_DMA_TIMEOUT_MSECS)
      then poll_status fuel' d r start
      else Ret (rval, millis_elapsed)
  end.

Definition or_error_state (d e : Z) : P unit :=
  let! c := call (get_dev d) in call (put_error d (Z.lor (error_state c) e)).

(** The two wait functions, which differ in the register and the wait queue. *)
Definition wait_for_intr (is_c2h : bool) (d : Z) (poll : bool) : P Z :=
  let ctrl := if is_c2h then c2h_status_ctrl else h2c_status_ctrl in
  if poll then
    let! start := call ktime_get in
    let! (rval, millis_elapsed) := poll_status poll_fuel d ctrl start in
    if nonzero (Z.land rval PAGE_DMA_STAT_ERROR_FLAGS) then Ret (- EFAULT)
    else if millis_elapsed >=? PAGE_DMA_TIMEOUT_MSECS then
      or_error_state d DMA_TIMEOUT_ERROR;;; Ret (- ETIME)
    else Ret 0
  else
    call (writeq d ctrl PAGE_DMA_CTRL_INTR_ENABLE);;;
    let! t := call (wait_event d is_c2h) in
    let! res :=
      if t =? 0 then or_error_state d DMA_TIMEOUT_ERROR;;; Ret (- ETIME)
      else if t <? 0 then Ret (- EINTR) else Ret 0 in
    (* atomic_set(&wait_flag, 0) *)
    call (writeq d ctrl (Z.lor PAGE_DMA_CTRL_INTR_DISABLE PAGE_DMA_CTRL_RESET_INTR));;;
    Ret res.

Definition wait_for_c2h_intr : Z -> bool -> P Z := wait_for_intr true.
Definition wait_for_h2c_intr : Z -> bool -> P Z := wait_for_intr false.

(** while (readq(&mmu_regs->status) & mask); *)
Fixpoint wait_mmu_idle (fuel : nat) (d mask : Z) : P unit :=
  match fuel with
  | O => call hang
  | S fuel' =>
      let! v := call (readq d mmu_status) in
      if nonzero (Z.land v mask) then wait_mmu_idle fuel' d mask else Ret tt
  end.

(** The translations of pages i .. i+n-1 of a range, one entry each. *)
Fixpoint add_tlb_pages (n : nat) (d bpfn va pfn i : Z) : P unit :=
  match n with
  | O => Ret tt
  | S n' =>
      add_tlb_entry d (u64 (va + i * PAGE_SIZE)) (pfn_to_dev_addr bpfn (u64 (pfn + i)));;;
      add_tlb_pages n' d bpfn va pfn (i + 1)
  end.

(** The while loop over the inner pages, and the whole sequence: the first and
    the last page have entries of their own. *)
Fixpoint add_tlb_inner (fuel : nat) (d bpfn va pfn i npages : Z) : P Z :=
  if i <? npages - 1 then
    match fuel with
    | O => call hang;;; Ret i
    | S fuel' =>
        let ncontiguous := Z.min (npages - 1 - i) MMU_MAX_MAPPING_LENGTH in
        (if ncontiguous >=? 64
         then add_al_tlb_entry d (u64 (va + i * PAGE_SIZE))
                (pfn_to_dev_addr bpfn (u64 (pfn + i))) ncontiguous
         else add_tlb_pages (Z.to_nat ncontiguous) d bpfn va pfn i);;;
        add_tlb_inner fuel' d bpfn va pfn (i + ncontiguous) npages
    end
  else Ret i.

Definition add_tlb_entries (d bpfn va pfn npages : Z) : P unit :=
  add_tlb_entry d va (pfn_to_dev_addr bpfn pfn);;;
  let! i := add_tlb_inner (Z.to_nat (npages / MMU_MAX_MAPPING_LENGTH + 1)) d bpfn va pfn 1
              npages in
  when (i <? npages)
    (add_tlb_entry d (u64 (va + i * PAGE_SIZE)) (pfn_to_dev_addr bpfn (u64 (pfn + i)))).

(** ** Specifications *)
#[local] Set Default Proof Using "Type*".
Variable page_of : Z -> option Z.
Variable dma_of : Z -> Z.
Variable populated : Z -> bool.
Variable tick : Z.
Variable faults : kernel_faults.
Notation M := (svm_model page_of dma_of populated tick faults).

(** A register write. *)
Definition wr (d : Z) (r : reg) (v : Z) (s : sys T) : sys T :=
  upd d (fun c => set_hw (hw_write (hw c) r v) c) s.

Lemma devs_upd (d : Z) (f : svm_dev T -> svm_dev T) (s : sys T) :
  devs (upd d f s) d = f (devs s d).
Proof. unfold upd. simpl. by rewrite Z.eqb_refl. Qed.

Lemma devs_upd_ne (d d' : Z) (f : svm_dev T -> svm_dev T) (s : sys T) :
  d' <> d -> devs (upd d f s) d' = devs s d'.
Proof. intros Hne. unfold upd. simpl. by destruct (Z.eqb_spec d' d). Qed.

Lemma wr_io_only (d : Z) (r : reg) (v : Z) (s : sys T) : io_only d s (wr d r v s).
Proof.
  unfold wr. split; intros; rewrite ?devs_upd, ?devs_upd_ne by done; done.
Qed.

Lemma wr_hw (d : Z) (r : reg) (v : Z) (s : sys T) :
  hw (devs (wr d r v s) d) = hw_write (hw (devs s d)) r v.
Proof. unfold wr. by rewrite devs_upd. Qed.

Lemma wp_writeq {A} (d : Z) (r : reg) (v : Z) (k : unit -> P A) (s : sys T) Q :
  wp M (k tt) (wr d r v s) Q -> wp M (bind (call (writeq d r v)) k) s Q.
Proof. intros H. split; [done|]. simpl. intros [] s' ->. done. Qed.

Lemma wp_writeq_last (d : Z) (r : reg) (v : Z) (s : sys T) (Q : unit -> sys T -> Prop) :
  Q tt (wr d r v s) -> wp M (call (writeq d r v)) s Q.
Proof. intros H. split; [done|]. simpl. intros [] s' ->. done. Qed.

(** What a function that only touches the registers of [d] does: the
    commands it adds to the three engines. *)
Definition issues (d : Z) (hs cs : list transfer) (ms : list mmu_op) (s s' : sys T) : Prop :=
  io_only d s s' /\ error_state (devs s' d) = error_state (devs s d) /\
  h2c s' d = h2c s d ++ hs /\ c2h s' d = c2h s d ++ cs /\ mmu s' d = mmu s d ++ ms.

Lemma issues_refl (d : Z) (s : sys T) : issues d [] [] [] s s.
Proof. unfold issues. rewrite !app_nil_r. done. Qed.

Lemma issues_trans (d : Z) (hs1 hs2 cs1 cs2 : list transfer) (ms1 ms2 : list mmu_op)
    (s1 s2 s3 : sys T) :
  issues d hs1 cs1 ms1 s1 s2 -> issues d hs2 cs2 ms2 s2 s3 ->
  issues d (hs1 ++ hs2) (cs1 ++ cs2) (ms1 ++ ms2) s1 s3.
Proof.
  intros (H1 & E1 & A1 & B1 & C1) (H2 & E2 & A2 & B2 & C2). unfold issues.
  rewrite A2, A1, B2, B1, C2, C1, E2, E1, !app_assoc. split_and!; try done.
  by transitivity s2.
Qed.

Lemma wr_issues (d : Z) (r : reg) (v : Z) (s : sys T) :
  r <> h2c_start_len -> r <> c2h_start_len -> r <> mmu_cmd -> issues d [] [] [] s (wr d r v s).
Proof.
  intros H1 H2 H3. split; [apply wr_io_only|]. unfold h2c, c2h, mmu.
  rewrite wr_hw, !app_nil_r. split; [unfold wr; by rewrite devs_upd|].
  by destruct r.
Qed.

Lemma issues_wr (d : Z) (r : reg) (v : Z) (hs cs : list transfer) (ms : list mmu_op)
    (s s' : sys T) :
  r <> h2c_start_len -> r <> c2h_start_len -> r <> mmu_cmd ->
  issues d hs cs ms (wr d r v s) s' -> issues d hs cs ms s s'.
Proof.
  intros H1 H2 H3 H. apply (issues_trans d [] hs [] cs [] ms s (wr d r v s) s'); [|exact H].
  by apply wr_issues.
Qed.

Lemma wr_mmu (d v : Z) (s : sys T) :
  issues d [] [] [decode_mmu (regs (hw (devs s d)) mmu_vaddr) (regs (hw (devs s d)) mmu_paddr) v]
    s (wr d mmu_cmd v s).
Proof.
  split; [apply wr_io_only|]. unfold h2c, c2h, mmu. rewrite wr_hw, !app_nil_r.
  split; [unfold wr; by rewrite devs_upd|]. done.
Qed.

Lemma wr_regs (d : Z) (r : reg) (v : Z) (s : sys T) :
  regs (hw (devs (wr d r v s) d)) = set_reg r v (regs (hw (devs s d))).
Proof. rewrite wr_hw. unfold hw_write. destruct r; try done; by destruct (Z.testbit v 63). Qed.

Lemma add_tlb_entry_spec (d va pa : Z) (s : sys T) :
  wp M (add_tlb_entry d va pa) s (fun _ s' => issues d [] [] [AddEntry va pa] s s').
Proof.
  unfold add_tlb_entry. apply wp_writeq, wp_writeq, wp_writeq_last.
  apply (issues_wr d mmu_vaddr va); try done. apply (issues_wr d mmu_paddr pa); try done.
  pose proof (wr_mmu d MMU_ADD_ENTRY (wr d mmu_paddr pa (wr d mmu_vaddr va s))) as H.
  rewrite !wr_regs in H. exact H.
Qed.

Lemma add_al_tlb_entry_spec (d va pa n : Z) (s : sys T) :
  0 <= n < 65536 ->
  wp M (add_al_tlb_entry d va pa n) s (fun _ s' => issues d [] [] [AddAlEntry va pa n] s s').
Proof.
  intros Hn. unfold add_al_tlb_entry. apply wp_writeq, wp_writeq, wp_writeq_last.
  apply (issues_wr d mmu_vaddr va); try done. apply (issues_wr d mmu_paddr pa); try done.
  match goal with |- issues _ _ _ _ ?s1 (wr _ _ ?v _) => pose proof (wr_mmu d v s1) as H end.
  rewrite !wr_regs in H. unfold decode_mmu in H.
  rewrite (u64_small n), Z.lor_comm in H by lia. rewrite (u64_small n), Z.lor_comm by lia.
  destruct (decode_mmu_length MMU_ADD_AL_ENTRY n) as [E1 E2]; [unfold MMU_ADD_AL_ENTRY; lia|lia|].
  unfold MMU_AL_LENGTH_SHIFT in *. rewrite E1, E2, Z.mod_small in H by lia. exact H.
Qed.

(** The length field of the command has 16 bits, the argument 32. *)
Lemma invalidate_tlb_range_spec (d base n : Z) (s : sys T) :
  0 <= n < 2 ^ 31 ->
  wp M (invalidate_tlb_range d base n) s
    (fun _ s' => issues d [] [] [Invalidate base (n mod 65536)] s s').
Proof.
  intros Hn. unfold invalidate_tlb_range. apply wp_writeq, wp_writeq_last.
  apply (issues_wr d mmu_vaddr base); try done.
  match goal with |- issues _ _ _ _ ?s1 (wr _ _ ?v _) => pose proof (wr_mmu d v s1) as H end.
  rewrite !wr_regs in H. unfold decode_mmu in H. rewrite (u64_small n) in * by lia.
  destruct (decode_mmu_length MMU_INVALIDATE_ENTRY n) as [E1 E2];
    [unfold MMU_INVALIDATE_ENTRY; lia|lia|].
  unfold MMU_INVALIDATE_LENGTH_SHIFT in *. rewrite E1, E2 in H. exact H.
Qed.

(** The translations of pages [i, i+n) of a range that starts at [va], [pa]. *)
Definition translations (va pa i n : Z) : list (Z * Z) :=
  map (fun j => (va + j * PAGE_SIZE, pa + j * PAGE_SIZE)) (seqZ i n).

Lemma translations_app (va pa i n k : Z) :
  0 <= n -> 0 <= k ->
  translations va pa i (n + k) = translations va pa i n ++ translations va pa (i + n) k.
Proof. intros. unfold translations. rewrite seqZ_app by done. apply map_app. Qed.

Section Tlb.
Variables bpfn va pfn npages : Z.
Hypothesis Hbpfn : 0 <= bpfn /\ bpfn + PHYS_MEM_SIZE / PAGE_SIZE <= 2 ^ 64.
Hypothesis Hpfn : bpfn <= pfn /\ pfn + npages <= bpfn + PHYS_MEM_SIZE / PAGE_SIZE.
Hypothesis Hva : 0 <= va /\ va + npages * PAGE_SIZE <= 2 ^ 64.
Notation pa := (pfn_to_dev_addr bpfn pfn).

Lemma tlb_addrs (i : Z) :
  0 <= i < npages ->
  u64 (va + i * PAGE_SIZE) = va + i * PAGE_SIZE /\
  pfn_to_dev_addr bpfn (u64 (pfn + i)) = pa + i * PAGE_SIZE.
Proof.
  intros Hi. split; [apply u64_small; unfold PAGE_SIZE in *; lia|].
  rewrite PHYS_PAGES_eq in *. rewrite (u64_small (pfn + i)) by lia.
  rewrite !pfn_to_dev_addr_eq by (unfold dev_pfn; rewrite PHYS_PAGES_eq; lia). lia.
Qed.

Lemma add_tlb_pages_spec (n : nat) (d i : Z) (s : sys T) :
  0 <= i -> i + Z.of_nat n <= npages ->
  wp M (add_tlb_pages n d bpfn va pfn i) s (fun _ s' => exists ms,
    issues d [] [] ms s s' /\ mbind mappings_of ms = translations va pa i (Z.of_nat n)).
Proof.
  revert i s. induction n as [|n IH]; intros i s Hi Hn; simpl.
  { apply wp_ret. exists []. split; [apply issues_refl|done]. }
  destruct (tlb_addrs i) as [-> ->]; [lia|].
  apply wp_bind. eapply wp_mono; [apply add_tlb_entry_spec|]. intros [] s1 H1.
  eapply wp_mono; [apply (IH (i + 1)); lia|]. intros [] s2 (ms & H2 & Hms).
  exists (AddEntry (va + i * PAGE_SIZE) (pa + i * PAGE_SIZE) :: ms). split.
  { exact (issues_trans _ [] [] [] [] _ _ _ _ _ H1 H2). }
  replace (Z.of_nat (S n)) with (1 + Z.of_nat n) by lia.
  rewrite translations_app by lia. by rewrite <- Hms.
Qed.

Lemma add_tlb_inner_spec (fuel : nat) (d i : Z) (s : sys T) :
  1 <= i -> npages - 1 - i <= Z.of_nat fuel * MMU_MAX_MAPPING_LENGTH ->
  wp M (add_tlb_inner fuel d bpfn va pfn i npages) s (fun i' s' => i' = Z.max i (npages - 1) /\
    exists ms, issues d [] [] ms s s' /\
      mbind mappings_of ms = translations va pa i (i' - i)).
Proof.
  revert i s. induction fuel as [|fuel IH]; intros i s Hi Hf; simpl;
    destruct (Z.ltb_spec i (npages - 1)) as [Hlt|Hge].
  - lia.
  - apply wp_ret. split; [lia|]. exists []. rewrite Z.sub_diag. split; [apply issues_refl|done].
  - set (nc := Z.min (npages - 1 - i) MMU_MAX_MAPPING_LENGTH).
    assert (0 < nc /\ nc <= npages - 1 - i /\ nc <= 32768) as (Hnc & Hnc1 & Hnc2)
      by (unfold nc, MMU_MAX_MAPPING_LENGTH in *; lia).
    apply wp_bind. eapply (wp_mono _ _ _ (fun _ s' => exists ms,
      issues d [] [] ms s s' /\ mbind mappings_of ms = translations va pa i nc)).
    { destruct (Z.geb_spec nc 64).
      - destruct (tlb_addrs i) as [-> ->]; [lia|].
        eapply wp_mono; [apply add_al_tlb_entry_spec; lia|]. intros [] s1 H1.
        eexists. split; [exact H1|]. simpl. rewrite app_nil_r. unfold translations.
        replace (seqZ i nc) with (map (Z.add i) (seqZ 0 nc)).
        + rewrite map_map. apply map_ext. intros j. f_equal; lia.
        + unfold seqZ. rewrite map_map. apply map_ext. intros. lia.
      - eapply wp_mono; [apply add_tlb_pages_spec; lia|]. intros [] s1 (ms & H1 & Hms).
        exists ms. split; [done|]. by rewrite Hms, Z2Nat.id by lia. }
    intros [] s1 (ms & H1 & Hms).
    eapply wp_mono; [apply (IH (i + nc)); [lia|]|].
    { unfold nc, MMU_MAX_MAPPING_LENGTH in *. lia. }
    intros i' s2 (-> & ms' & H2 & Hms'). split; [lia|]. exists (ms ++ ms'). split.
    { exact (issues_trans _ [] [] [] [] _ _ _ _ _ H1 H2). }
    rewrite bind_app, Hms, Hms', <- translations_app by lia. f_equal. lia.
  - apply wp_ret. split; [lia|]. exists []. rewrite Z.sub_diag.
    split; [apply issues_refl|done].
Qed.

Lemma add_tlb_entries_spec (d : Z) (s : sys T) :
  0 < npages ->
  wp M (add_tlb_entries d bpfn va pfn npages) s (fun _ s' => exists ms,
    issues d [] [] ms s s' /\ mbind mappings_of ms = translations va pa 0 npages).
Proof.
  intros Hn. unfold add_tlb_entries.
  apply wp_bind. eapply wp_mono; [apply add_tlb_entry_spec|]. intros [] s1 H1.
  apply wp_bind. eapply wp_mono; [apply add_tlb_inner_spec; [lia|]|].
  { rewrite Z2Nat.id by (unfold MMU_MAX_MAPPING_LENGTH; dlia).
    unfold MMU_MAX_MAPPING_LENGTH. dlia. }
  intros i s2 (-> & ms & H2 & Hms). pose proof (issues_trans _ [] [] [] [] _ _ _ _ _ H1 H2) as H12.
  assert (mbind mappings_of ([AddEntry va pa] ++ ms) =
          translations va pa 0 (Z.max 1 (npages - 1))) as Hpre.
  { rewrite bind_app, Hms.
    replace (Z.max 1 (npages - 1)) with (1 + (Z.max 1 (npages - 1) - 1)) at 2 by lia.
    rewrite translations_app by lia. unfold translations at 2. simpl.
    by rewrite !Z.add_0_r. }
  unfold when. destruct (Z.ltb_spec (Z.max 1 (npages - 1)) npages) as [Hlt|Hge].
  - destruct (tlb_addrs (Z.max 1 (npages - 1))) as [-> ->]; [lia|].
    eapply wp_mono; [apply add_tlb_entry_spec|]. intros [] s3 H3.
    eexists. split; [exact (issues_trans _ _ [] _ [] _ _ _ _ _ H12 H3)|].
    rewrite bind_app, Hpre.
    replace npages with (Z.max 1 (npages - 1) + 1) at 4 by lia.
    rewrite translations_app by lia. done.
  - eexists. split; [exact H12|]. rewrite Hpre. f_equal. lia.
Qed.
End Tlb.

(** ** Page transfers *)

Lemma transfer_word (n : Z) (c w : bool) :
  (if w then Z.lor (if c then Z.lor (Z.lor n PAGE_DMA_CMD_START) PAGE_DMA_CMD_CLEAR
                    else Z.lor n PAGE_DMA_CMD_START) PAGE_DMA_CMD_NETWORK
   else if c then Z.lor (Z.lor n PAGE_DMA_CMD_START) PAGE_DMA_CMD_CLEAR
   else Z.lor n PAGE_DMA_CMD_START) =
  Z.lor (Z.lor (Z.lor n PAGE_DMA_CMD_START) (if c then PAGE_DMA_CMD_CLEAR else 0))
    (if w then PAGE_DMA_CMD_NETWORK else 0).
Proof. destruct c, w; by rewrite ?Z.lor_0_r. Qed.

Lemma wr_h2c_start (d n : Z) (c w : bool) (s : sys T) :
  0 <= n < 2 ^ 32 ->
  let wval := Z.lor n PAGE_DMA_CMD_START in
  let wval := if c then Z.lor wval PAGE_DMA_CMD_CLEAR else wval in
  let wval := if w then Z.lor wval PAGE_DMA_CMD_NETWORK else wval in
  issues d [mk_transfer (regs (hw (devs s d)) h2c_src_addr) (regs (hw (devs s d)) h2c_dst_addr)
              n c w] [] [] s (wr d h2c_start_len wval s).
Proof.
  intros Hn. cbv zeta.
  destruct (decode_transfer_word (regs (hw (devs s d)) h2c_src_addr)
              (regs (hw (devs s d)) h2c_dst_addr) n c w Hn) as [Hb Hd].
  split; [apply wr_io_only|]. unfold h2c, c2h, mmu. rewrite wr_hw, !app_nil_r.
  split; [unfold wr; by rewrite devs_upd|].
  rewrite transfer_word. unfold hw_write. rewrite Hb. by rewrite <- Hd.
Qed.

Lemma wr_c2h_start (d n : Z) (w : bool) (s : sys T) :
  0 <= n < 2 ^ 32 ->
  let wval := Z.lor n PAGE_DMA_CMD_START in
  let wval := if w then Z.lor wval PAGE_DMA_CMD_NETWORK else wval in
  issues d [] [mk_transfer (regs (hw (devs s d)) c2h_src_addr)
                 (regs (hw (devs s d)) c2h_dst_addr) n false w] [] s (wr d c2h_start_len wval s).
Proof.
  intros Hn. cbv zeta.
  destruct (decode_transfer_word (regs (hw (devs s d)) c2h_src_addr)
              (regs (hw (devs s d)) c2h_dst_addr) n false w Hn) as [Hb Hd].
  split; [apply wr_io_only|]. unfold h2c, c2h, mmu. rewrite wr_hw, !app_nil_r.
  split; [unfold wr; by rewrite devs_upd|].
  pose proof (transfer_word n false w) as E. simpl in E. rewrite E.
  unfold hw_write. rewrite Hb. by rewrite <- Hd.
Qed.

(** A transfer of at most [PAGE_DMA_MAX_NPAGES] pages is one command. *)
Lemma init_h2c_dma_spec (d host_addr dev_addr n : Z) (c w : bool) (s : sys T) :
  0 < n <= PAGE_DMA_MAX_NPAGES ->
  wp M (init_h2c_dma d host_addr dev_addr n c w) s (fun _ s' => exists a,
    (c = false -> w = false -> a = host_addr) /\
    issues d [mk_transfer a dev_addr n c w] [] [] s s').
Proof.
  unfold PAGE_DMA_MAX_NPAGES. intros Hn. unfold init_h2c_dma.
  assert (exists f, Z.to_nat (n / PAGE_DMA_MAX_NPAGES + 1) = S f) as [f ->].
  { exists (Z.to_nat (n / PAGE_DMA_MAX_NPAGES)).
    rewrite <- Z2Nat.inj_succ by (unfold PAGE_DMA_MAX_NPAGES; dlia). done. }
  simpl. destruct (Z.eqb_spec n 0); [lia|].
  assert (dma_cmd_len n = n) as ->.
  { unfold dma_cmd_len, PAGE_DMA_MAX_NPAGES. zcases; lia. }
  rewrite Z.sub_diag.
  set (wval := if w then _ else _).
  assert (forall s1, io_only d s s1 -> error_state (devs s1 d) = error_state (devs s d) ->
    h2c s1 d = h2c s d -> c2h s1 d = c2h s d -> mmu s1 d = mmu s d ->
    (c = false -> w = false -> regs (hw (devs s1 d)) h2c_src_addr = host_addr) ->
    wp M (call (writeq d h2c_dst_addr dev_addr);;; call (writeq d h2c_start_len wval);;;
          init_h2c_loop f d host_addr dev_addr 0 c w) s1
      (fun _ s' => exists a, (c = false -> w = false -> a = host_addr) /\
         issues d [mk_transfer a dev_addr n c w] [] [] s s')) as Hrest.
  { intros s1 Hio He Hh Hc Hm Hsrc. apply wp_writeq, wp_writeq.
    replace (init_h2c_loop f d host_addr dev_addr 0 c w) with (Ret (E:=svmE T) tt)
      by (by destruct f). apply wp_ret.
    exists (regs (hw (devs s1 d)) h2c_src_addr). split; [done|].
    apply (issues_trans d [] _ [] [] [] [] s s1 _).
    { unfold issues. rewrite !app_nil_r. done. }
    apply (issues_wr d h2c_dst_addr dev_addr); try done.
    pose proof (wr_h2c_start d n c w (wr d h2c_dst_addr dev_addr s1)) as Hw.
    rewrite !wr_regs in Hw. apply Hw. lia. }
  unfold when. destruct (negb w && negb c) eqn:Eb.
  - apply wp_writeq. pose proof (wr_issues d h2c_src_addr host_addr s) as Hi.
    destruct Hi as (? & ? & ? & ? & ?); try done. rewrite ?app_nil_r in *.
    apply Hrest; try done. intros _ _. by rewrite wr_regs.
  - apply wp_bind, wp_ret. apply Hrest; try done. intros -> ->. done.
Qed.

Lemma init_c2h_dma_spec (d host_addr dev_addr n : Z) (w : bool) (s : sys T) :
  0 < n <= PAGE_DMA_MAX_NPAGES ->
  wp M (init_c2h_dma d host_addr dev_addr n w) s (fun _ s' => exists a,
    (w = false -> a = host_addr) /\
    issues d [] [mk_transfer dev_addr a n false w] [] s s').
Proof.
  unfold PAGE_DMA_MAX_NPAGES. intros Hn. unfold init_c2h_dma.
  assert (exists f, Z.to_nat (n / PAGE_DMA_MAX_NPAGES + 1) = S f) as [f ->].
  { exists (Z.to_nat (n / PAGE_DMA_MAX_NPAGES)).
    rewrite <- Z2Nat.inj_succ by (unfold PAGE_DMA_MAX_NPAGES; dlia). done. }
  simpl. destruct (Z.eqb_spec n 0); [lia|].
  assert (dma_cmd_len n = n) as ->.
  { unfold dma_cmd_len, PAGE_DMA_MAX_NPAGES. zcases; lia. }
  rewrite Z.sub_diag. set (wval := if w then _ else _).
  replace (init_c2h_loop f d host_addr dev_addr 0 w) with (Ret (E:=svmE T) tt)
    by (by destruct f).
  apply wp_writeq. set (s1 := wr d c2h_src_addr dev_addr s).
  assert (issues d [] [] [] s s1) as H1 by (by apply wr_issues).
  unfold when. destruct w; simpl negb.
  - apply wp_bind, wp_ret, wp_writeq, wp_ret. exists (regs (hw (devs s1 d)) c2h_dst_addr).
    split; [done|]. apply (issues_trans d [] [] [] _ [] [] s s1 _ H1).
    pose proof (wr_c2h_start d n true s1) as Hw. unfold s1 in *. rewrite wr_regs in *.
    apply Hw. lia.
  - apply wp_writeq, wp_writeq, wp_ret. exists host_addr. split; [done|].
    apply (issues_trans d [] [] [] _ [] [] s s1 _ H1).
    apply (issues_wr d c2h_dst_addr host_addr); try done.
    pose proof (wr_c2h_start d n false (wr d c2h_dst_addr host_addr s1)) as Hw.
    unfold s1 in *. rewrite !wr_regs in *. apply Hw. lia.
Qed.

(** ** Waiting *)

(** Calls that answer something and at most advance the time. *)
Definition quiet (d : Z) (s s' : sys T) : Prop :=
  io_only d s s' /\ hw (devs s' d) = hw (devs s d) /\
  error_state (devs s' d) = error_state (devs s d).

Lemma quiet_set_time (d t : Z) (b : nat) (s : sys T) :
  (b <= busy s)%nat -> quiet d s (set_time t b s).
Proof. intros Hb. by repeat split. Qed.

Lemma quiet_refl (d : Z) (s : sys T) : quiet d s s.
Proof. by repeat split. Qed.

Lemma quiet_trans (d : Z) (s1 s2 s3 : sys T) : quiet d s1 s2 -> quiet d s2 s3 -> quiet d s1 s3.
Proof.
  intros (H1 & A1 & B1) (H2 & A2 & B2). split; [by transitivity s2|].
  rewrite A2, A1, B2, B1. done.
Qed.

Lemma quiet_issues (d : Z) (s s' : sys T) : quiet d s s' -> issues d [] [] [] s s'.
Proof.
  intros (H & A & B). unfold issues, h2c, c2h, mmu. rewrite A, B, !app_nil_r. done.
Qed.

Lemma readq_spec (d d' : Z) (r : reg) (s : sys T) :
  r <> faulted_vaddr ->
  wp M (call (readq d' r)) s (fun v s' => quiet d s s' /\ 0 <= v < 2 ^ 64 /\
    clock s' = clock s /\ (busy_answer r v = true -> (busy s' < busy s)%nat)).
Proof.
  intros Hr. apply wp_call; [done|]. simpl. intros v s' (Hv & _ & b & -> & Hb & Hlt).
  replace (report d' r v (set_time (clock s) b s)) with (set_time (clock s) b s) by (by destruct r).
  split; [by apply quiet_set_time|]. done.
Qed.

Lemma poll_status_spec (fuel : nat) (d start : Z) (r : reg) (s : sys T) :
  0 <= tick -> r <> mmu_status -> r <> faulted_vaddr ->
  start <= clock s < start + 1000000000 ->
  start + 1000000000 <= clock s + Z.of_nat fuel * tick ->
  wp M (poll_status fuel d r start) s (fun _ s' => quiet d s s').
Proof.
  intros Ht Hr Hrf. revert s. induction fuel as [|fuel IH]; intros s Hc Hf; [lia|].
  cbn [poll_status]. wp_seq (readq_spec d); [done|]. intros v s1 (H1 & _ & Hc1 & _).
  apply wp_bind, wp_call; [done|]. intros now s2 [Hnow ->].
  pose proof (quiet_trans d _ _ _ H1 (quiet_set_time d now (busy s1) s1 (le_n _))) as H2.
  destruct (nonzero _ && _) eqn:E; [|by apply wp_ret].
  apply andb_prop in E as [_ E]. unfold PAGE_DMA_TIMEOUT_MSECS in E.
  assert (now - start < 1000000000) by dlia.
  eapply wp_mono; [apply IH; simpl in *; lia|]. intros ? s3 H3. by eapply quiet_trans.
Qed.

(** The result of waiting: success, or one of three errors, a timeout being
    recorded in [error_state]; no commands are issued. *)
Definition waited (d res : Z) (s s' : sys T) : Prop :=
  io_only d s s' /\ h2c s' d = h2c s d /\ c2h s' d = c2h s d /\ mmu s' d = mmu s d /\
  (res = 0 \/ res = - EFAULT \/ res = - ETIME \/ res = - EINTR) /\
  error_state (devs s' d) =
    if res =? - ETIME then Z.lor (error_state (devs s d)) DMA_TIMEOUT_ERROR
    else error_state (devs s d).

Lemma or_error_state_spec (d e : Z) (s : sys T) :
  wp M (or_error_state d e) s
    (fun _ s' => s' = upd d (set_error (Z.lor (error_state (devs s d)) e)) s).
Proof.
  apply wp_bind, wp_call; [done|]. intros c s' [-> ->]. apply wp_call; [done|].
  by intros [] s' ->.
Qed.

Lemma set_error_waited (d : Z) (s s1 : sys T) :
  issues d [] [] [] s s1 ->
  waited d (- ETIME) s
    (upd d (set_error (Z.lor (error_state (devs s1 d)) DMA_TIMEOUT_ERROR)) s1).
Proof.
  intros (Hio & He & Hh & Hc & Hm). rewrite app_nil_r in *.
  unfold waited, h2c, c2h, mmu in *. rewrite !devs_upd. simpl. rewrite Hh, Hc, Hm, He.
  split_and!; try done; [|auto].
  transitivity s1; [done|]. split; intros; rewrite ?devs_upd, ?devs_upd_ne by done; done.
Qed.

Lemma issues_waited (d res : Z) (s s' : sys T) :
  issues d [] [] [] s s' -> res = 0 \/ res = - EFAULT \/ res = - EINTR -> waited d res s s'.
Proof.
  intros (Hio & He & Hh & Hc & Hm) Hr. rewrite app_nil_r in *. split_and!; try done; [destruct Hr as [|[|]]; auto|].
  destruct Hr as [E|[E|E]]; rewrite E; done.
Qed.

Lemma waited_issues (d res : Z) (s s1 s2 : sys T) :
  waited d res s s1 -> issues d [] [] [] s1 s2 -> waited d res s s2.
Proof.
  intros (H & Hh & Hc & Hm & Hr & He) (H' & He' & Hh' & Hc' & Hm').
  rewrite app_nil_r in *. unfold waited. rewrite Hh', Hc', Hm', He'.
  split_and!; try done. by transitivity s1.
Qed.

Lemma wait_for_intr_spec (is_c2h : bool) (d : Z) (poll : bool) (s : sys T) :
  0 < tick -> 1000000000 <= Z.of_nat poll_fuel * tick ->
  wp M (wait_for_intr is_c2h d poll) s (fun res s' => waited d res s s').
Proof.
  intros Ht Hf. unfold wait_for_intr.
  set (ctrl := if is_c2h then c2h_status_ctrl else h2c_status_ctrl).
  assert (ctrl <> mmu_status /\ ctrl <> h2c_start_len /\ ctrl <> c2h_start_len /\ ctrl <> mmu_cmd)
    as (N1 & N2 & N3 & N4) by (unfold ctrl; by destruct is_c2h).
  destruct poll.
  - apply wp_bind, wp_call; [done|]. intros start s1 [Hst ->].
    set (s1 := set_time start (busy s) s).
    assert (quiet d s s1) as H1 by (by apply quiet_set_time).
    wp_seq poll_status_spec; [lia|done|unfold ctrl; by destruct is_c2h|simpl; lia|simpl; lia|].
    intros [rval ms] s2 H2. pose proof (quiet_issues _ _ _ (quiet_trans _ _ _ _ H1 H2)) as H12.
    destruct (nonzero _); [apply wp_ret, issues_waited; auto|].
    destruct (ms >=? _); [|apply wp_ret, issues_waited; auto].
    wp_seq or_error_state_spec. intros [] s3 ->. by apply wp_ret, set_error_waited.
  - apply wp_writeq. set (s1 := wr d ctrl _ s).
    assert (issues d [] [] [] s s1) as H1 by (by apply wr_issues).
    apply wp_bind, wp_call; [done|]. intros t s2 (t' & _ & ->).
    pose proof (issues_trans _ _ _ _ _ _ _ _ _ _ H1
      (quiet_issues _ _ _ (quiet_set_time d t' (busy s1) s1 (le_n _)))) as H2.
    set (s2 := set_time t' (busy s1) s1) in *.
    apply wp_bind. eapply (wp_mono _ _ _ (fun res s' => waited d res s s')).
    { destruct (t =? 0); [|destruct (t <? 0); apply wp_ret, issues_waited; auto].
      wp_seq or_error_state_spec. intros [] s3 ->. by apply wp_ret, set_error_waited. }
    intros res s3 H3. apply wp_writeq, wp_ret. eapply waited_issues; [done|].
    by apply wr_issues.
Qed.

(** The IOMMU becomes idle within [busy_fuel] readings. *)
Lemma wait_mmu_idle_spec (fuel : nat) (d mask : Z) (s : sys T) :
  0 < mask <= 3 -> (busy s < fuel)%nat ->
  wp M (wait_mmu_idle fuel d mask) s (fun _ s' => quiet d s s').
Proof.
  intros Hm. revert s. induction fuel as [|fuel IH]; intros s Hb; [lia|].
  cbn [wait_mmu_idle]. wp_seq (readq_spec d); [done|]. intros v s1 (H1 & Hv & _ & Hlt).
  destruct (nonzero (Z.land v mask)) eqn:E; [|by apply wp_ret].
  assert (busy_answer mmu_status v = true) as Hbusy.
  { unfold busy_answer.
    destruct (Z.eqb_spec (Z.land v 3) 0) as [E0|]; [|done].
    exfalso. unfold nonzero in E. replace (Z.land v mask) with 0 in E; [done|].
    assert (mask = Z.land 3 mask) as -> by (assert (mask = 1 \/ mask = 2 \/ mask = 3)
      as [->|[->| ->]] by lia; done).
    rewrite Z.land_assoc, E0. by rewrite Z.land_0_l. }
  specialize (Hlt Hbusy).
  eapply wp_mono; [apply IH; lia|]. intros [] s2 H2. by eapply quiet_trans.
Qed.

End Io.
End SvmIo.
