(* ===== verification/SvmCopy.v ===== *)
(** * Common parts of the page migrations (pcie/pcie_svm.c)

    Contiguous runs, throttling of the DMA engine, the loops that put pages and
    undo DMA mappings, and the arrays a migration allocates; with their
    specifications. *)
From S2P Require Import Prelude Kernel.
From S2P Require Import DevMem DevPages Intervals SvmHw SvmSys SvmIo.

Module SvmCopy.
Import Kernel DevMem DevPages Intervals SvmHw SvmSys SvmIo.
Open Scope prog_scope.

(** is_contiguous *)
Definition is_contiguous (addr last : Z) : bool :=
  Z.land addr VADDR_MASK =? Z.land last VADDR_MASK + PAGE_SIZE.

(** The while loops that extend a run of pages by [rest], for pages that have a
    source (contiguous bus addresses) and for pages to be cleared; [n] is
    [ncontiguous]. *)
Fixpoint present_run (last : Z) (rest : list (option Z * Z)) (n : Z) : Z :=
  match rest with
  | (Some _, a) :: rest' =>
      if (n <? PAGE_DMA_MAX_NPAGES) && is_contiguous a last
      then present_run a rest' (n + 1) else n
  | _ => n
  end.

Fixpoint clear_run (rest : list (option Z * Z)) (n : Z) : Z :=
  match rest with
  | (None, _) :: rest' =>
      if n <? PAGE_DMA_MAX_NPAGES then clear_run rest' (n + 1) else n
  | _ => n
  end.

(** ** Runs are contiguous *)

(** A bus address the masks of the driver do not truncate. *)
Definition bus_ok (x : option Z * Z) : Prop :=
  match fst x with Some _ => 0 <= snd x < 2 ^ 48 | None => True end.

Lemma mask_small (a : Z) : 0 <= a < 2 ^ 48 -> Z.land a VADDR_MASK = a.
Proof.
  intros Ha. change VADDR_MASK with (Z.ones 48). rewrite Z.land_ones by lia.
  by apply Z.mod_small.
Qed.

Lemma is_contiguous_eq (a l : Z) :
  0 <= a < 2 ^ 48 -> 0 <= l < 2 ^ 48 -> is_contiguous a l = true -> a = l + PAGE_SIZE.
Proof.
  intros Ha Hl. unfold is_contiguous. rewrite !mask_small by done. by intros ?%Z.eqb_eq.
Qed.

Lemma present_run_spec (rest : list (option Z * Z)) (last n : Z) :
  0 <= last < 2 ^ 48 -> Forall bus_ok rest -> n <= PAGE_DMA_MAX_NPAGES ->
  exists k : nat, present_run last rest n = n + Z.of_nat k /\ (k <= length rest)%nat /\
    n + Z.of_nat k <= PAGE_DMA_MAX_NPAGES /\
    forall j, (j < k)%nat ->
      exists p, rest !! j = Some (Some p, last + Z.of_nat (S j) * PAGE_SIZE).
Proof.
  revert last n. induction rest as [|[[p|] a] rest IH]; intros last n Hl Hok Hn; simpl.
  - exists 0%nat. split_and!; try lia.
  - apply Forall_cons in Hok as [Ha Hok]. simpl in Ha.
    destruct (Z.ltb_spec n PAGE_DMA_MAX_NPAGES) as [Hlt|]; simpl;
      [|exists 0%nat; split_and!; lia].
    destruct (is_contiguous a last) eqn:E; [|exists 0%nat; split_and!; lia].
    apply is_contiguous_eq in E; [|done..].
    destruct (IH a (n + 1)) as (k & Hk & Hlen & Hmax & Hrun); [done..|lia|].
    exists (S k). split_and!; try lia. intros [|j] Hj; simpl.
    + exists p. do 2 f_equal. unfold PAGE_SIZE in *. lia.
    + destruct (Hrun j) as [q Hq]; [lia|]. exists q. rewrite Hq. do 2 f_equal.
      unfold PAGE_SIZE in *. lia.
  - exists 0%nat. split_and!; lia.
Qed.

Lemma clear_run_spec (rest : list (option Z * Z)) (n : Z) :
  n <= PAGE_DMA_MAX_NPAGES ->
  exists k : nat, clear_run rest n = n + Z.of_nat k /\ (k <= length rest)%nat /\
    n + Z.of_nat k <= PAGE_DMA_MAX_NPAGES /\
    forall j, (j < k)%nat -> exists a, rest !! j = Some (None, a).
Proof.
  revert n. induction rest as [|[[p|] a] rest IH]; intros n Hn; simpl.
  - exists 0%nat. split_and!; lia.
  - exists 0%nat. split_and!; lia.
  - destruct (Z.ltb_spec n PAGE_DMA_MAX_NPAGES) as [Hlt|]; simpl;
      [|exists 0%nat; split_and!; lia].
    destruct (IH (n + 1)) as (k & Hk & Hlen & Hmax & Hrun); [lia|].
    exists (S k). split_and!; try lia. intros [|j] Hj; simpl; [by exists a|].
    apply Hrun. lia.
Qed.

Section Code.
Context {T : Type} {IT : IntervalTree T}.
Notation P := (prog (svmE T)).
Variable poll_fuel : nat.

(** Check whether PageDMA can accept further commands: the result code and the
    new value of [cmd_cnt]. *)
Definition throttle (is_c2h : bool) (d cmd_cnt : Z) : P (Z * Z) :=
  if cmd_cnt >=? 64 then
    let! v := call (readq d (if is_c2h then c2h_cmd_cnt else h2c_cmd_cnt)) in
    let cmd_cnt := s32 v in
    if cmd_cnt >=? 64 then
      let! res := wait_for_intr poll_fuel is_c2h d false in
      if nonzero res then Ret (res, cmd_cnt) else Ret (0, 0)
    else Ret (0, cmd_cnt)
  else Ret (0, cmd_cnt).

(** unlock_page(dst_pages[i]); put_page(dst_pages[i]); for all pages *)
Definition put_pages (d : Z) (pages : list Z) : P unit :=
  for_each pages (fun p => call (put_page d p)).

(** if (dma_addrs[i]) dma_unmap_page(...); for all addresses *)
Definition unmap_pages (d : Z) (addrs : list Z) : P unit :=
  for_each addrs (fun a => when (nonzero a) (call (dma_unmap_page d a))).

(** [n] calls of kcalloc. *)
Fixpoint kcalloc_arrays (n : nat) : P (list (option Z)) :=
  match n with
  | O => Ret []
  | S n' => let! p := call kalloc in let! ps := kcalloc_arrays n' in Ret (p :: ps)
  end.

(** if (array) kfree(array); for all arrays *)
Definition kfree_arrays (ps : list (option Z)) : P unit :=
  for_each ps (fun p => match p with Some a => call (kfree a) | None => Ret tt end).

(** The calls of insert_vmem_interval and remove_vmem_interval on the tree of
    a device; the result of the former is not used by the callers.  The removal
    may split every node it visits: one answer of the allocator for each. *)
Definition insert_interval (d va npages : Z) : P unit :=
  let! ok := call kmalloc_node in
  let! c := call (get_dev d) in
  call (put_tree d (snd (insert_vmem_interval ok (vmem_intervals c) va npages))).

Fixpoint kmalloc_nodes (n : nat) : P (list bool) :=
  match n with
  | O => Ret []
  | S n' => let! ok := call kmalloc_node in let! oks := kmalloc_nodes n' in Ret (ok :: oks)
  end.

Definition remove_interval (d va npages : Z) : P unit :=
  let! c := call (get_dev d) in
  let! oks := kmalloc_nodes (length (it_nodes (vmem_intervals c))) in
  call (put_tree d (remove_vmem_interval oks (vmem_intervals c) va npages)).

(** ** Specifications *)
#[local] Set Default Proof Using "Type*".
Variable page_of : Z -> option Z.
Variable dma_of : Z -> Z.
Variable populated : Z -> bool.
Variable tick : Z.
Variable faults : kernel_faults.
Notation M := (svm_model page_of dma_of populated tick faults).

Lemma throttle_spec (is_c2h : bool) (d cmd_cnt : Z) (s : sys T) :
  0 < tick -> 1000000000 <= Z.of_nat poll_fuel * tick ->
  wp M (throttle is_c2h d cmd_cnt) s (fun '(res, _) s' => waited d res s s').
Proof.
  intros Ht Hf. unfold throttle. destruct (cmd_cnt >=? 64).
  2:{ apply wp_ret. apply issues_waited; [apply issues_refl|auto]. }
  wp_seq (readq_spec _ _ _ _ _ d); [by destruct is_c2h|]. intros v s1 (H1 & _).
  apply quiet_issues in H1.
  destruct (s32 v >=? 64); [|apply wp_ret; apply issues_waited; auto].
  wp_seq wait_for_intr_spec; [done|done|]. intros res s2 H2.
  assert (waited d res s s2) as H12.
  { destruct H1 as (Hio & He & Hh & Hc & Hm), H2 as (Hio' & Hh' & Hc' & Hm' & Hr & He').
    rewrite app_nil_r in *. unfold waited. rewrite Hh', Hc', Hm', He', Hh, Hc, Hm, He.
    split_and!; try done. by transitivity s1. }
  unfold nonzero. destruct (Z.eqb_spec res 0) as [->|]; by apply wp_ret.
Qed.

(** What the allocator may answer for a node. *)
Definition node_answer (ok : bool) : Prop := ok = false -> node_fails faults = true.

Lemma insert_interval_spec (d va npages : Z) (s : sys T) :
  wp M (insert_interval d va npages) s (fun _ s' => exists ok, node_answer ok /\
    s' = upd d (set_tree (snd (insert_vmem_interval ok (vmem_intervals (devs s d)) va npages))) s).
Proof.
  unfold insert_interval. wp_do; [done|]. intros ok s1 [Hok ->].
  wp_do; [done|]. intros c s2 [-> ->]. apply wp_call; [done|]. intros [] s3 ->. by exists ok.
Qed.

Lemma kmalloc_nodes_spec (n : nat) (s : sys T) :
  wp M (kmalloc_nodes n) s (fun oks s' => s' = s /\ length oks = n /\ Forall node_answer oks).
Proof.
  induction n as [|n IH]; cbn [kmalloc_nodes]; [by apply wp_ret|].
  wp_do; [done|]. intros ok s1 [Hok ->]. wp_seq IH. intros oks s2 (-> & Hl & Ha).
  apply wp_ret. simpl. split_and!; [done|lia|]. by constructor.
Qed.

Lemma remove_interval_spec (d va npages : Z) (s : sys T) :
  wp M (remove_interval d va npages) s (fun _ s' => exists oks, Forall node_answer oks /\
    (length oks = length (it_nodes (vmem_intervals (devs s d)))) /\
    s' = upd d (set_tree (remove_vmem_interval oks (vmem_intervals (devs s d)) va npages)) s).
Proof.
  unfold remove_interval. wp_do; [done|]. intros c s1 [-> ->].
  wp_seq kmalloc_nodes_spec. intros oks s2 (-> & Hl & Ha).
  apply wp_call; [done|]. intros [] s3 ->. by exists oks.
Qed.

Lemma kfree_arrays_spec (ps : list (option Z)) (s : sys T) (h : list Z) :
  Permutation (heap s) (omap (fun p => p) ps ++ h) ->
  wp M (kfree_arrays ps) s (fun _ s' => exists h', Permutation h' h /\ s' = set_heap h' s).
Proof.
  revert s. induction ps as [|[a|] ps IH]; intros s Hh; cbn [kfree_arrays for_each].
  - apply wp_ret. exists (heap s). split; [done|]. by destruct s.
  - unfold kfree_arrays. cbn [for_each]. apply wp_bind, wp_call.
    { simpl. rewrite Hh. by left. }
    intros [] s' (h' & Hp & ->). eapply wp_mono; [apply IH|].
    { simpl. apply (Permutation_cons_inv (a := a)). by rewrite <- Hp, Hh. }
    simpl. intros [] s2 (h2 & Hh2 & ->). by exists h2.
  - unfold kfree_arrays. cbn [for_each]. apply wp_bind, wp_ret. by apply IH.
Qed.

Lemma kcalloc_arrays_spec (n : nat) (s : sys T) :
  wp M (kcalloc_arrays n) s (fun ps s' =>
    exists h, Permutation h (omap (fun p => p) ps ++ heap s) /\ s' = set_heap h s).
Proof.
  revert s. induction n as [|n IH]; intros s; cbn [kcalloc_arrays].
  - apply wp_ret. exists (heap s). split; [done|]. by destruct s.
  - apply wp_bind, wp_call; [done|]. intros [a|] s1; simpl.
    + intros [_ ->]. wp_seq IH. intros ps s2 (h & Hh & ->). apply wp_ret. simpl in *.
      exists h. split; [|done]. rewrite Hh. symmetry. apply Permutation_middle.
    + intros ->. wp_seq IH. intros ps s2 (h & Hh & ->). apply wp_ret. by exists h.
Qed.

Lemma unmap_pages_spec (d : Z) (addrs : list Z) (s : sys T) (l : list Z) :
  Permutation (maps s) (List.filter nonzero addrs ++ l) ->
  wp M (unmap_pages d addrs) s (fun _ s' => exists l', Permutation l' l /\ s' = set_maps l' s).
Proof.
  revert s. induction addrs as [|a addrs IH]; intros s Hm; unfold unmap_pages; cbn [for_each].
  - apply wp_ret. exists (maps s). split; [done|]. by destruct s.
  - simpl in Hm. apply wp_bind. unfold when. destruct (nonzero a).
    + apply wp_call; [simpl; rewrite Hm; by left|]. intros [] s' (l' & Hp & ->).
      eapply wp_mono; [apply IH|].
      { simpl. apply (Permutation_cons_inv (a := a)). by rewrite <- Hp, Hm. }
      simpl. intros [] s2 (l2 & Hl2 & ->). by exists l2.
    + apply wp_ret. by apply IH.
Qed.

(** Putting a page hands it to the work queue, or loses it when no work item
    can be allocated; the invariant holds for the pages that are left. *)
Lemma put_preserves (bpfn : Z) (ok : bool) (l : list Z) (m : svm_mem) (p : Z) :
  0 <= bpfn -> bpfn + PHYS_MEM_SIZE / PAGE_SIZE <= 2 ^ 64 ->
  mem_inv bpfn (p :: l) m -> mem_inv bpfn l (free_device_page ok m p).
Proof.
  intros H1 H2 Hinv. destruct (decide (p ∈ zone_device_data m)) as [Hz|Hz].
  - by apply free_page_preserves.
  - unfold free_device_page. rewrite decide_False by done. destruct Hinv.
    constructor; try done. by eapply (pages_used_app_r _ _ [p]).
Qed.

Lemma mem_inv_perm (bpfn : Z) (l k : list Z) (m : svm_mem) :
  Permutation l k -> mem_inv bpfn l m -> mem_inv bpfn k m.
Proof.
  intros Hp []. constructor; try done. eapply pages_used_perm; [|done].
  by apply Permutation_app_tail.
Qed.

Lemma workers_preserve (bpfn : Z) (l : list Z) (m m' : svm_mem) :
  0 <= bpfn -> bpfn + PHYS_MEM_SIZE / PAGE_SIZE <= 2 ^ 64 ->
  rtc worker_step m m' -> mem_inv bpfn l m -> mem_inv bpfn l m'.
Proof.
  intros H1 H2. induction 1 as [|m m1 m2 Hstep _ IH]; [done|]. intros Hinv. apply IH.
  destruct Hstep; [by apply work_mem_preserves|by apply work_pages_preserves].
Qed.

Section Mem.
Variable bpfn : Z.
Hypothesis bpfn_pos : 0 <= bpfn.
Hypothesis bpfn_max : bpfn + PHYS_MEM_SIZE / PAGE_SIZE <= 2 ^ 64.

Definition dev_inv (d : Z) (s : sys T) : Prop :=
  mem_inv bpfn (live (devs s d)) (mem (devs s d)).

Lemma set_mem_only (d : Z) (f : svm_dev T -> svm_mem) (g : svm_dev T -> list Z) (s : sys T) :
  mem_only d s (upd d (fun c => set_mem (f c) (g c) c) s).
Proof. split; intros; rewrite ?devs_upd, ?devs_upd_ne by done; done. Qed.

Lemma put_pages_spec (d : Z) (pages : list Z) (s : sys T) (l : list Z) :
  dev_inv d s -> Permutation (live (devs s d)) (pages ++ l) ->
  wp M (put_pages d pages) s (fun _ s' =>
    mem_only d s s' /\ dev_inv d s' /\ Permutation (live (devs s' d)) l).
Proof.
  revert s. induction pages as [|p pages IH]; intros s Hinv Hl;
    unfold put_pages; cbn [for_each]; [by apply wp_ret|].
  apply wp_bind, wp_call; [simpl; rewrite Hl; by left|].
  intros [] s' (ok & l' & Hp & ->).
  pose proof (set_mem_only d (fun c => free_device_page ok (mem c) p) (fun _ => l') s) as Hm.
  set (s1 := upd d _ s) in *.
  assert (dev_inv d s1 /\ live (devs s1 d) = l') as [Hinv1 El].
  { unfold dev_inv, s1. rewrite devs_upd. simpl. split; [|done].
    apply put_preserves; try done. by eapply mem_inv_perm. }
  eapply wp_mono; [apply (IH s1)|].
  - done.
  - rewrite El. apply (Permutation_cons_inv (a := p)). by rewrite <- Hp, Hl.
  - simpl. intros [] s2 (H1 & H2 & H3). split_and!; try done. by transitivity s1.
Qed.

End Mem.

Lemma maps_kept (d : Z) (l : list Z) (s : sys T) : kept d s (set_maps l s).
Proof. by split. Qed.

Lemma mm_kept (d : Z) (c : mm_state) (s : sys T) : kept d s (set_mm c s).
Proof. by split. Qed.

Lemma tree_kept (d : Z) (t : T) (s : sys T) : kept d s (upd d (set_tree t) s).
Proof. split; intros; rewrite ?devs_upd, ?devs_upd_ne by done; done. Qed.

End Code.
(** ** Transfers on one engine *)
Section Copied.
Context {T : Type}.
Variable d : Z.

(** The effect of a sequence of transfers on one engine of device [d]: when it
    succeeds they do exactly what is [expected], page by page; a failure may come
    after some commands. *)
Definition copied_h2c (res : Z) (expected : list (option Z * Z)) (s s' : sys T) : Prop :=
  io_only d s s' /\ c2h s' d = c2h s d /\ mmu s' d = mmu s d /\ res <= 0 /\
  exists ts, h2c s' d = h2c s d ++ ts /\ (res = 0 -> mbind pages_of ts = expected).

Definition copied_c2h (res : Z) (expected : list (option Z * Z)) (s s' : sys T) : Prop :=
  io_only d s s' /\ h2c s' d = h2c s d /\ mmu s' d = mmu s d /\ res <= 0 /\
  exists ts, c2h s' d = c2h s d ++ ts /\ (res = 0 -> mbind pages_of ts = expected).

Lemma waited_nonpos (res : Z) (s s' : sys T) : waited d res s s' -> res <= 0.
Proof. intros (_ & _ & _ & _ & Hr & _). unfold EFAULT, ETIME, EINTR in Hr. lia. Qed.

Lemma waited_copied_h2c (res : Z) (s s' : sys T) : waited d res s s' -> copied_h2c res [] s s'.
Proof.
  intros H. pose proof (waited_nonpos _ _ _ H). destruct H as (H & Hh & Hc & Hm & _).
  split_and!; try done. exists []. by rewrite app_nil_r.
Qed.

Lemma waited_copied_c2h (res : Z) (s s' : sys T) : waited d res s s' -> copied_c2h res [] s s'.
Proof.
  intros H. pose proof (waited_nonpos _ _ _ H). destruct H as (H & Hh & Hc & Hm & _).
  split_and!; try done. exists []. by rewrite app_nil_r.
Qed.

Lemma copied_h2c_trans (res : Z) (e1 e2 : list (option Z * Z)) (s1 s2 s3 : sys T) :
  copied_h2c 0 e1 s1 s2 -> copied_h2c res e2 s2 s3 -> copied_h2c res (e1 ++ e2) s1 s3.
Proof.
  intros (H1 & C1 & M1 & _ & ts1 & T1 & E1) (H2 & C2 & M2 & R & ts2 & T2 & E2).
  split_and!; [by transitivity s2|congruence|congruence|done|].
  exists (ts1 ++ ts2). rewrite T2, T1, app_assoc. split; [done|].
  intros Hr. by rewrite bind_app, E1, E2.
Qed.

Lemma copied_c2h_trans (res : Z) (e1 e2 : list (option Z * Z)) (s1 s2 s3 : sys T) :
  copied_c2h 0 e1 s1 s2 -> copied_c2h res e2 s2 s3 -> copied_c2h res (e1 ++ e2) s1 s3.
Proof.
  intros (H1 & C1 & M1 & _ & ts1 & T1 & E1) (H2 & C2 & M2 & R & ts2 & T2 & E2).
  split_and!; [by transitivity s2|congruence|congruence|done|].
  exists (ts1 ++ ts2). rewrite T2, T1, app_assoc. split; [done|].
  intros Hr. by rewrite bind_app, E1, E2.
Qed.

(** A failure forgets what was to be copied. *)
Lemma copied_c2h_failed (res : Z) (e e' : list (option Z * Z)) (s s' : sys T) :
  res <> 0 -> copied_c2h res e s s' -> copied_c2h res e' s s'.
Proof.
  intros Hr (? & ? & ? & ? & ts & ? & _). split_and!; try done. by exists ts.
Qed.

Lemma copied_h2c_failed (res : Z) (e e' : list (option Z * Z)) (s s' : sys T) :
  res <> 0 -> copied_h2c res e s s' -> copied_h2c res e' s s'.
Proof.
  intros Hr (? & ? & ? & ? & ts & ? & _). split_and!; try done. by exists ts.
Qed.

End Copied.

(** ** Assumptions the properties of the migrations share *)

(** The clock advances and the polling loops are given enough iterations for a
    second; bus addresses fit the driver's mask. *)
Definition platform_ok (poll_fuel : nat) (dma_of : Z -> Z) (tick : Z) : Prop :=
  0 < tick /\ 1000000000 <= Z.of_nat poll_fuel * tick /\ forall p, 0 < dma_of p < 2 ^ 48.

(** A range of user pages that fits into device memory. *)
Definition range_ok (va npages : Z) : Prop :=
  0 < npages /\ npages * PAGE_SIZE <= PHYS_MEM_SIZE /\ 0 <= va /\
  va + npages * PAGE_SIZE <= VA_MAX.

(** The device's memory is consistent and its frames are addressable. *)
Definition device_ok {T} (bpfn d : Z) (s : sys T) : Prop :=
  0 <= bpfn /\ bpfn + PHYS_MEM_SIZE / PAGE_SIZE <= 2 ^ 64 /\ dev_inv bpfn d s.

(** An idle system with all device memory free. *)
Definition demo_dev : svm_dev ListTree.tree :=
  mk_svm (mk_hw (fun _ => 0) [] [] []) (mk_mem 1048576 initial_blocks [] [] ∅) []
    RB_ROOT_CACHED 0 false 0 0.
Definition demo_sys : sys ListTree.tree := mk_sys (fun _ => demo_dev) [] [] [] mm_locked 0 0 no_migration [].

Lemma demo_platform : platform_ok 1000 (fun _ => 4096) 1000000.
Proof. unfold platform_ok. split_and!; try lia. Qed.

Lemma demo_range : range_ok 65536 3.
Proof. unfold range_ok. split_and!; vm_compute; congruence. Qed.

Lemma demo_device : device_ok 1048576 0 demo_sys.
Proof.
  split; [lia|]. split; [vm_compute; congruence|].
  apply (mem_init_inv 1048576); [lia|vm_compute; congruence].
Qed.

Lemma demo_uncovered (x : Z) : ~ covered (it_nodes (vmem_intervals demo_dev)) x.
Proof.
  change (it_nodes (vmem_intervals demo_dev)) with (@nil node).
  intros H. by apply covered_nil in H.
Qed.

(** The same device with two pages in use, which hold the range of two pages at
    65536. *)
Definition demo_mem2 : svm_mem :=
  match alloc_device_pages (mem demo_dev) 2 with Some (_, m) => m | None => mem demo_dev end.
Definition demo_dev2 : svm_dev ListTree.tree :=
  mk_svm (mk_hw (fun _ => 0) [] [] []) demo_mem2 [1048576; 1048577]
    (ListTree.of_list [mk_node 65536 73727]) 0 false 0 0.
Definition demo_sys2 : sys ListTree.tree := mk_sys (fun _ => demo_dev2) [] [] [] mm_locked 0 0 no_migration [].

Lemma demo_device2 : device_ok 1048576 0 demo_sys2.
Proof.
  split; [lia|]. split; [vm_compute; congruence|].
  pose proof demo_device as (_ & _ & Hinv).
  refine (proj1 (alloc_device_pages_spec 1048576 _ _ [] [1048576; 1048577] (mem demo_dev)
            demo_mem2 2 Hinv _ _ eq_refl)); [lia|vm_compute; congruence|lia|vm_compute; congruence].
Qed.

Lemma demo_tree2_wf : wf_nodes (it_nodes (vmem_intervals demo_dev2)).
Proof.
  change (it_nodes (vmem_intervals demo_dev2)) with [mk_node 65536 73727].
  rewrite wf_nodes_cons. unfold node_ok, VA_MAX, PAGE_SIZE. simpl.
  split_and!; try done; try lia; try apply wf_nodes_nil.
  intros m Hm. by apply elem_of_nil in Hm.
Qed.

End SvmCopy.
