(* ===== verification/RamToDev.v ===== *)
(** * Migration of pages from RAM to device memory (svm_migrate_ram_to_dev)

    The function with its retry loop and all of its error paths, as a program
    over the calls of [SvmSys], and what it guarantees whatever the kernel and
    the hardware answer. *)
From S2P Require Import Prelude Kernel.
From S2P Require Import DevMem DevPages Intervals SvmHw SvmSys SvmIo SvmCopy.

Module RamToDev.
Import Kernel DevMem DevPages Intervals SvmHw SvmSys SvmIo SvmCopy.
Open Scope prog_scope.

(** ** The function *)
Section Code.
Context {T : Type} {IT : IntervalTree T}.
Notation P := (prog (svmE T)).
Variable poll_fuel : nat.
Variable page_of : Z -> option Z.
(** The entry has MIGRATE_PFN_MIGRATE set. *)
Variable migrating : Z -> bool.

(** Map the source pages for the transfer.  [addrs] is the array dma_addrs as
    the last attempt left it; [false] is the path to fail_dmamap. *)
Fixpoint map_src_pages (d : Z) (src_pages : list (option Z)) (dst_pages addrs : list Z)
    : P (list Z * bool) :=
  match src_pages, dst_pages, addrs with
  | None :: ps, _ :: ds, a0 :: rest =>
      let! (l, ok) := map_src_pages d ps ds rest in Ret (a0 :: l, ok)
  | Some p :: ps, q :: ds, _ :: rest =>
      let! r := call (dma_map_page d p) in
      match r with
      | Some a => let! (l, ok) := map_src_pages d ps ds rest in Ret (a :: l, ok)
      | None =>
          call (put_page d q);;;
          call (dma_unmap_failed d);;;
          Ret (0 :: rest, false)
      end
  | _, _, _ => Ret (addrs, true)
  end.

(** One command per run of contiguous pages; [items] are the pages from index
    [i] on with their addresses. *)
Fixpoint copy_loop (fuel : nat) (d bpfn base_pfn i cmd_cnt : Z)
    (items : list (option Z * Z)) : P Z :=
  match items with
  | [] => Ret 0
  | (p, a) :: rest =>
      match fuel with
      | O => call hang;;; Ret 0
      | S fuel' =>
          let '(clear, ncontiguous) :=
            match p with
            | Some _ => (false, present_run a rest 1)
            | None => (true, clear_run rest 1)
            end in
          let! (res, cmd_cnt) := throttle poll_fuel false d cmd_cnt in
          if nonzero res then Ret res
          else
            init_h2c_dma d a (pfn_to_dev_addr bpfn (u64 (base_pfn + i))) ncontiguous
              clear false;;;
            copy_loop fuel' d bpfn base_pfn (i + ncontiguous) (cmd_cnt + 1)
              (drop (Z.to_nat ncontiguous) items)
      end
  end.

(** fail_allocmem: and fail_dma: *)
Definition fail_allocmem (d : Z) (dst_pages : list Z) : P unit :=
  put_pages d dst_pages;;; call migrate_vma_finalize.

Definition fail_dma (d : Z) (addrs dst_pages : list Z) : P unit :=
  unmap_pages d addrs;;; fail_allocmem d dst_pages.

(** How one attempt ends: success, an error code, or a retry; in the last case
    with the contents of dma_addrs. *)
Inductive outcome :=
| Migrated
| Failed (res : Z)
| NotCollected
| NotMigrated (addrs : list Z).

(** From the DMA transfer to the check of the status register. *)
Definition transfer_pages (d bpfn : Z) (src_pages : list (option Z)) (dst_pages addrs : list Z)
    (npages : Z) : P Z :=
  let! res := copy_loop (length src_pages) d bpfn (hd 0 dst_pages) 0 0 (zip src_pages addrs) in
  if nonzero res then Ret res else
  let! res := wait_for_h2c_intr poll_fuel d (npages <? PAGE_DMA_POLL_LIMIT) in
  if nonzero res then Ret res else
  let! v := call (readq d h2c_status_ctrl) in
  if nonzero (Z.land v PAGE_DMA_STAT_ERROR_FLAGS) then Ret (- EACCES) else Ret 0.

(** After the pages have been moved. *)
Definition complete_migration (d bpfn va npages : Z) (dst_pages addrs src : list Z) : P outcome :=
  if forallb migrating src then
    add_tlb_entries d bpfn va (hd 0 dst_pages) npages;;;
    call migrate_vma_finalize;;;
    insert_interval d va npages;;;
    Ret Migrated
  else
    (put_pages d dst_pages;;; call migrate_vma_finalize);;;
    Ret (NotMigrated addrs).

(** From the allocation of the device pages on. *)
Definition migrate_to (d va npages : Z) (src dst_pages addrs : list Z) : P outcome :=
  let src_pages := map page_of src in
  let! (addrs, ok) := map_src_pages d src_pages dst_pages addrs in
  if negb ok then fail_dma d addrs dst_pages;;; Ret (Failed (- EACCES)) else
  let! c := call (get_dev d) in
  let bpfn := base_pfn (mem c) in
  let! res := transfer_pages d bpfn src_pages dst_pages addrs npages in
  if nonzero res then fail_dma d addrs dst_pages;;; Ret (Failed res) else
  unmap_pages d addrs;;;
  let! src := call (migrate_vma_pages dst_pages) in
  complete_migration d bpfn va npages dst_pages addrs src.

(** The code from the label retry on. *)
Definition attempt (d va npages : Z) (addrs : list Z) : P outcome :=
  let! (res, cpages, src) :=
    call (migrate_vma_setup d false va (u64 (va + npages * PAGE_SIZE))) in
  if res <? 0 then Ret (Failed res) else
  if negb (cpages =? npages) then call migrate_vma_finalize;;; Ret NotCollected else
  let! r := call (alloc_pages d npages) in
  match r with
  | None => fail_allocmem d [];;; Ret (Failed (- ENOMEM))
  | Some dst_pages => migrate_to d va npages src dst_pages addrs
  end.

(** goto retry; [retry_cnt] is an int the function does not initialise. *)
Fixpoint retry_loop (fuel : nat) (d va npages : Z) (addrs : list Z) (retry_cnt : Z) : P Z :=
  match fuel with
  | O => call hang;;; Ret 0
  | S fuel' =>
      let! o := attempt d va npages addrs in
      let retry_cnt := s32 (retry_cnt + 1) in
      match o with
      | Migrated => Ret 0
      | Failed res => Ret res
      | NotCollected =>
          if retry_cnt >? 3 then Ret (- ENOMEM)
          else retry_loop fuel' d va npages addrs retry_cnt
      | NotMigrated addrs =>
          if retry_cnt >? 4 then Ret (- ENOMEM)
          else retry_loop fuel' d va npages addrs retry_cnt
      end
  end.

(** From the search for the VMA on. *)
Definition migrate_vma_range (retry_cnt d va npages : Z) : P Z :=
  let! found := call (find_vma_intersection d va (u64 (va + npages * PAGE_SIZE))) in
  if found
  then retry_loop (S (Z.to_nat (5 - retry_cnt))) d va npages (replicate (Z.to_nat npages) 0)
         retry_cnt
  else Ret (- EFAULT).

(** svm_migrate_ram_to_dev; [retry_cnt] is the initial content of that
    variable. *)
Definition svm_migrate_ram_to_dev (retry_cnt d va npages : Z) : P Z :=
  let! arrays := kcalloc_arrays 5 in
  let! res :=
    if forallb (fun p => bool_decide (is_Some p)) arrays
    then migrate_vma_range retry_cnt d va npages
    else Ret (- ENOMEM) in
  kfree_arrays arrays;;;
  Ret res.

End Code.

(** ** The copy: what is transferred *)

(** What the transfers of the pages [items], from index [i] of the range on,
    must do: page by page, read its bus address or clear, and write the device
    page. *)
Definition plan (bpfn pfn i : Z) (items : list (option Z * Z)) : list (option Z * Z) :=
  imap (fun j x => (match fst x with Some _ => Some (snd x) | None => None end,
                    pfn_to_dev_addr bpfn pfn + (i + Z.of_nat j) * PAGE_SIZE)) items.

Lemma plan_app (bpfn pfn i : Z) (l k : list (option Z * Z)) :
  plan bpfn pfn i (l ++ k) =
  plan bpfn pfn i l ++ plan bpfn pfn (i + Z.of_nat (length l)) k.
Proof.
  unfold plan. rewrite imap_app. f_equal. apply imap_ext. intros j x _. simpl.
  f_equal. lia.
Qed.

(** A single transfer does what is planned for the pages of its run. *)
Lemma pages_of_plan (bpfn pfn i a0 : Z) (clear : bool) (items : list (option Z * Z)) :
  (forall j : nat, (j < length items)%nat ->
     exists x, items !! j = Some x /\
       match fst x with
       | Some _ => clear = false /\ snd x = a0 + Z.of_nat j * PAGE_SIZE
       | None => clear = true
       end) ->
  pages_of (mk_transfer a0 (pfn_to_dev_addr bpfn pfn + i * PAGE_SIZE)
              (Z.of_nat (length items)) clear false) = plan bpfn pfn i items.
Proof.
  intros Hrun. unfold pages_of, plan. simpl. apply list_eq. intros j.
  rewrite list_lookup_imap. destruct (decide (j < length items)%nat) as [Hj|Hj].
  - destruct (Hrun j Hj) as (x & Hx & Hm). rewrite Hx. simpl.
    rewrite list_lookup_fmap, lookup_seqZ_lt by lia. simpl.
    destruct x as [[p|] a]; simpl in *.
    + destruct Hm as [-> ->]. apply f_equal. f_equal; unfold PAGE_SIZE; lia.
    + subst clear. apply f_equal. f_equal. unfold PAGE_SIZE. lia.
  - rewrite (lookup_ge_None_2 items) by lia. apply lookup_ge_None_2.
    rewrite length_map, length_seqZ. lia.
Qed.

Section Spec.
Context {T : Type} {IT : IntervalTree T}.
#[local] Set Default Proof Using "All".
Variable poll_fuel : nat.
Variable page_of : Z -> option Z.
Variable migrating : Z -> bool.
Variable dma_of : Z -> Z.
Variable populated : Z -> bool.
Variable tick : Z.
Variable nodes_fail : bool.
Hypothesis Htick : 0 < tick.
Hypothesis Hpoll : 1000000000 <= Z.of_nat poll_fuel * tick.
Hypothesis Hdma : forall p, 0 < dma_of p < 2 ^ 48.
Variables d bpfn : Z.
Hypothesis bpfn_pos : 0 <= bpfn.
Hypothesis bpfn_max : bpfn + PHYS_MEM_SIZE / PAGE_SIZE <= 2 ^ 64.
Notation M := (svm_model page_of dma_of populated tick (mk_faults false nodes_fail)).

Notation copied := (copied_h2c d).

(** The run at the head of [items] and its transfer. *)
Lemma r2d_run_plan (pfn i a : Z) (p : option Z) (rest : list (option Z * Z)) :
  Forall bus_ok ((p, a) :: rest) ->
  let '(clear, n) :=
    match p with
    | Some _ => (false, present_run a rest 1)
    | None => (true, clear_run rest 1)
    end in
  0 < n <= PAGE_DMA_MAX_NPAGES /\ n <= Z.of_nat (length ((p, a) :: rest)) /\
  forall a0, (clear = false -> a0 = a) ->
    pages_of (mk_transfer a0 (pfn_to_dev_addr bpfn pfn + i * PAGE_SIZE) n clear false) =
    plan bpfn pfn i (take (Z.to_nat n) ((p, a) :: rest)).
Proof.
  intros Hok. apply Forall_cons in Hok as [Ha Hok]. unfold bus_ok in Ha. simpl in Ha.
  destruct p as [p|].
  - destruct (present_run_spec rest a 1 Ha Hok) as (k & -> & Hlen & Hmax & Hrun);
      [unfold PAGE_DMA_MAX_NPAGES; lia|].
    split_and!; [lia|done|simpl; lia|]. intros a0 ->; [|done].
    rewrite <- pages_of_plan with (a0 := a) (clear := false).
    { rewrite length_take. do 2 f_equal. simpl. lia. }
    rewrite length_take. intros j Hj. rewrite lookup_take_lt by lia.
    destruct j as [|j]; simpl.
    + eexists. split; [done|]. simpl. split; [done|lia].
    + destruct (Hrun j) as [q Hq]; [simpl in Hj; lia|]. rewrite Hq. eexists. split; [done|].
      simpl. split; [done|lia].
  - destruct (clear_run_spec rest 1) as (k & -> & Hlen & Hmax & Hrun);
      [unfold PAGE_DMA_MAX_NPAGES; lia|].
    split_and!; [lia|done|simpl; lia|]. intros a0 _.
    rewrite <- pages_of_plan with (a0 := a0) (clear := true).
    { rewrite length_take. do 2 f_equal. simpl. lia. }
    rewrite length_take. intros j Hj. rewrite lookup_take_lt by lia.
    destruct j as [|j]; simpl; [by eexists|].
    destruct (Hrun j) as [q Hq]; [simpl in Hj; lia|]. rewrite Hq. by eexists.
Qed.

(** Destination frames that belong to the device. *)
Definition frames_ok (pfn n : Z) : Prop :=
  bpfn <= pfn /\ pfn + n <= bpfn + PHYS_MEM_SIZE / PAGE_SIZE.

Lemma dev_addr_offset (pfn n i : Z) :
  frames_ok pfn n -> 0 <= i < n ->
  pfn_to_dev_addr bpfn (u64 (pfn + i)) = pfn_to_dev_addr bpfn pfn + i * PAGE_SIZE.
Proof.
  intros [H1 H2] Hi. rewrite PHYS_PAGES_eq in *. rewrite (u64_small (pfn + i)) by lia.
  rewrite !pfn_to_dev_addr_eq by (unfold dev_pfn; rewrite PHYS_PAGES_eq; lia). lia.
Qed.

Lemma r2d_copy_loop_spec (fuel : nat) (pfn n i cmd_cnt : Z) (items : list (option Z * Z))
    (s : sys T) :
  frames_ok pfn n -> 0 <= i -> i + Z.of_nat (length items) <= n ->
  Forall bus_ok items -> (length items <= fuel)%nat ->
  wp M (copy_loop poll_fuel fuel d bpfn pfn i cmd_cnt items) s
    (fun res s' => copied res (plan bpfn pfn i items) s s').
Proof.
  intros Hfr. revert i cmd_cnt items s.
  induction fuel as [|fuel IH]; intros i cmd_cnt [|[p a] rest] s Hi Hn Hok Hf;
    cbn [copy_loop]; try (simpl in Hf; lia).
  1,2: apply wp_ret; split_and!; try done; exists []; by rewrite app_nil_r.
  pose proof (r2d_run_plan pfn i a p rest Hok) as Hrun.
  destruct (match p with Some _ => _ | None => _ end) as [clear k].
  destruct Hrun as (Hk & Hlen & Hpages).
  wp_seq throttle_spec; [done|done|]. intros [res cnt] s1 H1.
  unfold nonzero. destruct (Z.eqb_spec res 0) as [->|Hres]; cbn [negb].
  2:{ apply wp_ret. apply waited_copied_h2c in H1 as (H & C & Mm & R & ts & Hts & _).
      split_and!; try done. exists ts. split; [done|]. intros ->. done. }
  apply waited_copied_h2c in H1. simpl length in Hn.
  rewrite (dev_addr_offset pfn n i Hfr) by lia.
  wp_seq init_h2c_dma_spec; [done|]. intros [] s2 (a0 & Ha0 & Hiss).
  assert (copied 0 (plan bpfn pfn i (take (Z.to_nat k) ((p, a) :: rest))) s1 s2) as H2.
  { destruct Hiss as (Hio & _ & Hh & Hc & Hm). rewrite app_nil_r in *.
    split_and!; try done. eexists. split; [done|]. intros _.
    simpl mbind. rewrite app_nil_r. apply Hpages. intros ->. by apply Ha0. }
  pose proof (copied_h2c_trans _ _ _ _ _ _ _ H1 H2) as H12.
  rewrite <- (take_drop (Z.to_nat k) ((p, a) :: rest)) in Hok.
  apply Forall_app in Hok as [_ Hok].
  eapply wp_mono; [apply (IH (i + k))|].
  - lia.
  - rewrite length_drop. simpl length in *. lia.
  - done.
  - rewrite length_drop. simpl length in *. lia.
  - intros res s3 H3. pose proof (copied_h2c_trans _ _ _ _ _ _ _ H12 H3) as H13. simpl app in H13.
    rewrite <- (take_drop (Z.to_nat k) ((p, a) :: rest)) at 1.
    rewrite plan_app, length_take. rewrite Nat.min_l by (simpl length in *; lia).
    rewrite Z2Nat.id by lia. exact H13.
Qed.

(** ** Mapping the source pages *)

Definition dma_addrs (src_pages : list (option Z)) : list Z :=
  map (from_option dma_of 0) src_pages.

(** dma_addrs has no entry for pages without a source. *)
Definition stale_ok (src_pages : list (option Z)) (addrs : list Z) : Prop :=
  Forall2 (fun p a => p = None -> a = 0) src_pages addrs.

Lemma map_src_pages_spec (src_pages : list (option Z)) (dst_pages addrs : list Z) (s : sys T) :
  stale_ok src_pages addrs -> length dst_pages = length src_pages ->
  wp M (map_src_pages d src_pages dst_pages addrs) s (fun '(addrs', ok) s' =>
    ok = true /\ addrs' = dma_addrs src_pages /\
    exists l, Permutation l (List.filter nonzero addrs' ++ maps s) /\ s' = set_maps l s).
Proof.
  intros Hst. revert dst_pages s.
  induction Hst as [|p a src_pages addrs Hpa Hst IH]; intros [|q ds] s Hlen; try done;
    cbn [map_src_pages].
  { apply wp_ret. split_and!; try done. exists (maps s). split; [done|]. by destruct s. }
  destruct p as [p|].
  - apply wp_bind, wp_call; [done|]. intros [a'|] s1; [|by intros []].
    intros [-> ->]. wp_seq IH; [by injection Hlen|].
    intros [l ok] s2 (-> & -> & k & Hk & ->). apply wp_ret. split_and!; try done.
    exists k. split; [|done]. simpl. unfold nonzero at 1. destruct (Z.eqb_spec (dma_of p) 0) as [E|].
    { specialize (Hdma p). lia. }
    simpl. rewrite Hk. simpl. symmetry. apply Permutation_middle.
  - rewrite (Hpa eq_refl). wp_seq IH; [by injection Hlen|].
    intros [l ok] s2 (-> & -> & k & Hk & ->). apply wp_ret. split_and!; try done.
    by exists k.
Qed.

Lemma zip_bus_ok (src_pages : list (option Z)) :
  Forall bus_ok (zip src_pages (dma_addrs src_pages)).
Proof.
  induction src_pages as [|[p|] l IH]; simpl; constructor; try done.
  unfold bus_ok. simpl. specialize (Hdma p). lia.
Qed.

(** What a migration of [src_pages] to the frames from [pfn] on must transfer. *)
Definition transfers_of (pfn : Z) (src_pages : list (option Z)) : list (option Z * Z) :=
  imap (fun i p => (dma_of <$> p, pfn_to_dev_addr bpfn pfn + Z.of_nat i * PAGE_SIZE)) src_pages.

Lemma plan_transfers (pfn : Z) (src_pages : list (option Z)) :
  plan bpfn pfn 0 (zip src_pages (dma_addrs src_pages)) = transfers_of pfn src_pages.
Proof.
  unfold plan, transfers_of. apply list_eq. intros i. rewrite !list_lookup_imap.
  unfold dma_addrs. rewrite lookup_zip_with, list_lookup_fmap.
  destruct (src_pages !! i) as [[p|]|]; done.
Qed.

Lemma r2d_transfer_pages_spec (pfn n : Z) (src_pages : list (option Z)) (s : sys T) :
  frames_ok pfn n -> 0 < n -> Z.of_nat (length src_pages) = n ->
  wp M (transfer_pages poll_fuel d bpfn src_pages (seqZ pfn n) (dma_addrs src_pages) n) s
    (fun res s' => copied res (transfers_of pfn src_pages) s s').
Proof.
  intros Hfr Hn Hlen. unfold transfer_pages.
  assert (hd 0 (seqZ pfn n) = pfn) as -> by (rewrite seqZ_cons by lia; done).
  assert (length (zip src_pages (dma_addrs src_pages)) = length src_pages) as Hz.
  { unfold dma_addrs. rewrite length_zip_with, length_map. lia. }
  wp_seq (r2d_copy_loop_spec _ pfn n); [done|lia|rewrite Hz; lia|apply zip_bus_ok|rewrite Hz; lia|].
  rewrite plan_transfers. intros res s1 H1.
  unfold nonzero at 1. destruct (Z.eqb_spec res 0) as [->|]; cbn [negb]; [|by apply wp_ret].
  wp_seq wait_for_intr_spec; [done|done|]. intros res s2 H2.
  apply waited_copied_h2c in H2. pose proof (copied_h2c_trans _ _ _ _ _ _ _ H1 H2) as H12.
  rewrite app_nil_r in H12.
  unfold nonzero at 1. destruct (Z.eqb_spec res 0) as [->|]; cbn [negb]; [|by apply wp_ret].
  wp_seq (readq_spec _ _ _ _ _ d); [done|]. intros v s3 (H3 & _).
  apply quiet_issues, (issues_waited d 0) in H3; [|auto]. apply waited_copied_h2c in H3.
  pose proof (copied_h2c_trans _ _ _ _ _ _ _ H12 H3) as H13. rewrite app_nil_r in H13.
  destruct (nonzero _); apply wp_ret; [|done].
  destruct H13 as (? & ? & ? & _ & ts & ? & _). split_and!; try done. by exists ts.
Qed.

(** ** Clean-up paths *)

(** The device pages [pages] have been given up; [l] are left. *)
Definition cleaned (l : list Z) (s s' : sys T) : Prop :=
  kept d s s' /\ hw (devs s' d) = hw (devs s d) /\
  vmem_intervals (devs s' d) = vmem_intervals (devs s d) /\
  mm s' = mm_locked /\ dev_inv bpfn d s' /\ Permutation (live (devs s' d)) l.

Lemma put_finalize_spec (dst_pages l : list Z) (s : sys T) :
  dev_inv bpfn d s -> Permutation (live (devs s d)) (dst_pages ++ l) -> (exists src0, mm s = mm_migrating src0) ->
  wp M (put_pages d dst_pages;;; call migrate_vma_finalize) s
    (fun _ s' => cleaned l s s' /\ maps s' = maps s).
Proof.
  intros Hinv Hl Hc. wp_seq put_pages_spec; [done..|]. intros [] s1 (H1 & Hinv1 & Hl1).
  apply wp_call; [simpl; by rewrite (mo_mm _ _ _ H1)|]. intros [] s2 ->.
  split; [|by rewrite <- (mo_maps _ _ _ H1)]. split_and!; try done.
  - transitivity s1; [by apply mem_kept|apply mm_kept].
  - exact (mo_hw _ _ _ H1).
  - exact (mo_tree _ _ _ H1).
Qed.

Lemma fail_dma_spec (addrs dst_pages l lm : list Z) (s : sys T) :
  dev_inv bpfn d s -> Permutation (live (devs s d)) (dst_pages ++ l) -> (exists src0, mm s = mm_migrating src0) ->
  Permutation (maps s) (List.filter nonzero addrs ++ lm) ->
  wp M (fail_dma d addrs dst_pages) s
    (fun _ s' => cleaned l s s' /\ Permutation (maps s') lm).
Proof.
  intros Hinv Hl Hc Hm. unfold fail_dma. wp_seq unmap_pages_spec; [done|].
  intros [] s1 (l' & Hl' & ->). eapply wp_mono; [by apply put_finalize_spec|].
  intros [] s2 ((H2 & ? & ? & ? & ? & ?) & Hm2). split; [|by rewrite Hm2].
  split_and!; try done. transitivity (set_maps l' s); [apply maps_kept|done].
Qed.

(** ** One attempt *)

(** [addrs] has entries only where the process has a page. *)
Definition addrs_ok (va : Z) (addrs : list Z) : Prop :=
  forall i a, addrs !! i = Some a -> populated (va + Z.of_nat i * PAGE_SIZE) = false -> a = 0.

(** [srcs] are pages of the range: one where the process has one. *)
Definition srcs_ok (va : Z) (srcs : list (option Z)) : Prop :=
  forall i p, srcs !! i = Some p ->
    bool_decide (is_Some p) = populated (va + Z.of_nat i * PAGE_SIZE).

Lemma stale_ok_intro (va : Z) (srcs : list (option Z)) (addrs : list Z) :
  length addrs = length srcs -> srcs_ok va srcs -> addrs_ok va addrs -> stale_ok srcs addrs.
Proof.
  intros Hlen Hs Ha. apply Forall2_lookup. intros i.
  destruct (srcs !! i) as [p|] eqn:Ep.
  - destruct (lookup_lt_is_Some_2 addrs i) as [a Ea].
    { rewrite Hlen. by eapply lookup_lt_Some. }
    rewrite Ea. constructor. intros ->. apply (Ha i a Ea). rewrite <- (Hs i None Ep).
    by apply bool_decide_eq_false, is_Some_None.
  - apply lookup_ge_None in Ep. rewrite (lookup_ge_None_2 addrs) by lia. constructor.
Qed.

Lemma addrs_ok_intro (va : Z) (srcs : list (option Z)) :
  srcs_ok va srcs -> addrs_ok va (dma_addrs srcs).
Proof.
  intros Hs i a Ha Hp. unfold dma_addrs in Ha. rewrite list_lookup_fmap in Ha.
  destruct (srcs !! i) as [p|] eqn:Ep; [|done]. injection Ha as <-.
  specialize (Hs i p Ep). destruct p as [p|]; [|done].
  rewrite Hp in Hs. by apply bool_decide_eq_false in Hs as [].
Qed.

(** The state after a successful migration of [npages] pages. *)
Definition migrated (va npages : Z) (s s' : sys T) (ts : list transfer) : Prop :=
  exists pfn srcs ms ok,
    node_answer (mk_faults false nodes_fail) ok /\
    frames_ok pfn npages /\ Permutation (live (devs s' d)) (seqZ pfn npages ++ live (devs s d)) /\
    Z.of_nat (length srcs) = npages /\ srcs_ok va srcs /\
    migr s' = mk_migration va srcs (seqZ pfn npages) /\
    mbind pages_of ts = transfers_of pfn srcs /\
    mmu s' d = mmu s d ++ ms /\
    mbind mappings_of ms = translations va (pfn_to_dev_addr bpfn pfn) 0 npages /\
    vmem_intervals (devs s' d) =
      snd (insert_vmem_interval ok (vmem_intervals (devs s d)) va npages).

(** Nothing of the device has changed, but for commands to the DMA engine. *)
Definition unmoved (s s' : sys T) : Prop :=
  Permutation (live (devs s' d)) (live (devs s d)) /\ mmu s' d = mmu s d /\
  vmem_intervals (devs s' d) = vmem_intervals (devs s d).

Definition ended (o : outcome) (va npages : Z) (s s' : sys T) : Prop :=
  kept d s s' /\ Permutation (maps s') (maps s) /\ mm s' = mm_locked /\ dev_inv bpfn d s' /\
  exists ts, h2c s' d = h2c s d ++ ts /\
  match o with
  | Migrated => migrated va npages s s' ts
  | Failed res => res < 0 /\ unmoved s s'
  | NotCollected => unmoved s s'
  | NotMigrated addrs =>
      unmoved s s' /\ addrs_ok va addrs /\ Z.of_nat (length addrs) = npages
  end.

Lemma alloc_shape (m m' : svm_mem) (n : Z) (pages : list Z) :
  alloc_device_pages m n = Some (pages, m') -> exists pfn, pages = seqZ pfn n.
Proof.
  unfold alloc_device_pages. destruct (allocate_device_memory _ _) as [a bs].
  destruct (a =? u64 (-1)); [done|]. intros [= <- _]. by eexists.
Qed.

(** The pages handed out are frames of the device. *)
Lemma r2d_alloc_frames (pfn n : Z) (l : list Z) (m : svm_mem) :
  0 < n -> mem_inv bpfn (seqZ pfn n ++ l) m -> frames_ok pfn n.
Proof.
  intros Hn [_ _ _ _ (_ & Hdev & _)].
  assert (dev_pfn bpfn pfn) as Hp1.
  { apply Hdev, elem_of_app. left. apply elem_of_app. left. apply elem_of_seqZ. lia. }
  assert (dev_pfn bpfn (pfn + n - 1)) as Hp2.
  { apply Hdev, elem_of_app. left. apply elem_of_app. left. apply elem_of_seqZ. lia. }
  unfold frames_ok, dev_pfn in *. rewrite PHYS_PAGES_eq in *. lia.
Qed.

Section Range.
Variables va npages : Z.
Hypothesis Hn : 0 < npages.
Hypothesis Hphys : npages * PAGE_SIZE <= PHYS_MEM_SIZE.
Hypothesis Hva : 0 <= va /\ va + npages * PAGE_SIZE <= VA_MAX.

Lemma r2d_range_pages :
  u64 (va + npages * PAGE_SIZE) = va + npages * PAGE_SIZE /\
  (va + npages * PAGE_SIZE - va) / PAGE_SIZE = npages.
Proof.
  unfold VA_MAX in Hva. split.
  - apply u64_small. unfold PAGE_SIZE in *. lia.
  - replace (va + npages * PAGE_SIZE - va) with (npages * PAGE_SIZE) by lia.
    by apply Z.div_mul.
Qed.

(** After the transfer: the mappings are gone; the migration is completed, or
    undone when the kernel did not move every page. *)
Lemma r2d_complete_spec (pfn : Z) (addrs src lv : list Z) (s : sys T) :
  dev_inv bpfn d s -> Permutation (live (devs s d)) (seqZ pfn npages ++ lv) ->
  (exists src0, mm s = mm_migrating src0) ->
  wp M (complete_migration migrating d bpfn va npages (seqZ pfn npages) addrs src) s
    (fun o s' => kept d s s' /\ maps s' = maps s /\ mm s' = mm_locked /\ dev_inv bpfn d s' /\
       h2c s' d = h2c s d /\
       ((o = NotMigrated addrs /\ Permutation (live (devs s' d)) lv /\ mmu s' d = mmu s d /\
         vmem_intervals (devs s' d) = vmem_intervals (devs s d)) \/
        (o = Migrated /\ live (devs s' d) = live (devs s d) /\ migr s' = migr s /\ exists ms ok,
           node_answer (mk_faults false nodes_fail) ok /\
           mmu s' d = mmu s d ++ ms /\
           mbind mappings_of ms = translations va (pfn_to_dev_addr bpfn pfn) 0 npages /\
           vmem_intervals (devs s' d) =
             snd (insert_vmem_interval ok (vmem_intervals (devs s d)) va npages)))).
Proof.
  intros Hinv Hl Hc. unfold complete_migration.
  assert (frames_ok pfn npages) as Hfr by (eapply r2d_alloc_frames; [done|by eapply mem_inv_perm]).
  destruct (forallb migrating src).
  - assert (hd 0 (seqZ pfn npages) = pfn) as -> by (rewrite seqZ_cons by lia; done).
    destruct Hfr as [Hf1 Hf2].
    wp_seq add_tlb_entries_spec; try done; [unfold VA_MAX in Hva; lia|].
    intros [] s1 (ms & (Hio & _ & Hh & _ & Hm) & Hms).
    rewrite app_nil_r in Hh.
    apply wp_bind, wp_call; [simpl; by rewrite (io_mm _ _ _ Hio)|]. intros [] s2 ->.
    wp_seq insert_interval_spec. intros [] s2 (ok & Hok & ->). apply wp_ret.
    unfold dev_inv, h2c, mmu. rewrite devs_upd. simpl.
    rewrite (io_mem _ _ _ Hio), (io_live _ _ _ Hio), (io_tree _ _ _ Hio).
    split_and!; try done.
    + transitivity s1; [by apply io_kept|].
      transitivity (set_mm mm_locked s1); [apply mm_kept|apply tree_kept].
    + exact (io_maps _ _ _ Hio).
    + right. split_and!; try done; [exact (io_migr _ _ _ Hio)|]. by exists ms, ok.
  - wp_seq put_finalize_spec; [done..|].
    intros [] s1 ((H1 & Hhw & Ht & Hco & Hinv1 & Hl1) & Hm1). apply wp_ret.
    unfold h2c, mmu. rewrite Hhw. split_and!; try done. left. done.
Qed.

(** No device memory: the set-up is undone. *)
Lemma no_memory_spec (m : svm_mem) (s : sys T) :
  mem_inv bpfn (live (devs s d)) m -> (exists src0, mm s = mm_migrating src0) ->
  wp M (fail_allocmem d [];;; Ret (Failed (- ENOMEM))) (upd d (fun c => set_mem m (live c) c) s)
    (fun o s' => ended o va npages s s').
Proof.
  intros Hinv Hc. set (s2 := upd d _ s).
  assert (dev_inv bpfn d s2 /\ live (devs s2 d) = live (devs s d) /\
          hw (devs s2 d) = hw (devs s d) /\
          vmem_intervals (devs s2 d) = vmem_intervals (devs s d)) as (Hinv2 & Hl2 & Hhw2 & Ht2)
    by (unfold dev_inv, s2; by rewrite devs_upd).
  wp_seq (put_finalize_spec [] (live (devs s d))); [done|by rewrite Hl2|done|].
  intros [] s3 ((H3 & Hhw & Ht & Hco & Hinv3 & Hl3) & Hm3). apply wp_ret.
  unfold ended, unmoved, h2c, mmu. rewrite Hhw, Ht, Hhw2, Ht2.
  split_and!; try done; [|by rewrite Hm3|exists []; rewrite app_nil_r; split_and!; done].
  transitivity s2; [|done]. apply mem_kept, set_mem_only.
Qed.

(** The state between the transfer and its outcome, relative to the state [s]
    in which the device pages had been allocated. *)
Lemma after_transfer (pfn : Z) (srcs : list (option Z)) (s s' : sys T) (lm : list Z)
    (ts : list transfer) :
  dev_inv bpfn d s -> (exists src0, mm s = mm_migrating src0) ->
  Permutation lm (List.filter nonzero (dma_addrs srcs) ++ maps s) ->
  io_only d (set_maps lm s) s' ->
  dev_inv bpfn d s' /\ live (devs s' d) = live (devs s d) /\ (exists src0, mm s' = mm_migrating src0) /\
  Permutation (maps s') (List.filter nonzero (dma_addrs srcs) ++ maps s) /\ kept d s s' /\
  vmem_intervals (devs s' d) = vmem_intervals (devs s d).
Proof.
  intros Hinv Hc Hlm Hio. unfold dev_inv.
  rewrite (io_mem _ _ _ Hio), (io_live _ _ _ Hio), (io_mm _ _ _ Hio),
    (io_maps _ _ _ Hio), (io_tree _ _ _ Hio).
  split_and!; try done. transitivity (set_maps lm s); [apply maps_kept|by apply io_kept].
Qed.

(** [s] is the state in which the device pages [seqZ pfn npages] are held and
    [lv] are the other pages in use. *)
Lemma migrate_to_spec (pfn : Z) (src addrs lv : list Z) (s : sys T) :
  dev_inv bpfn d s -> live (devs s d) = seqZ pfn npages ++ lv -> (exists src0, mm s = mm_migrating src0) ->
  srcs_ok va (map page_of src) -> addrs_ok va addrs ->
  Z.of_nat (length addrs) = npages -> Z.of_nat (length src) = npages ->
  migr s = mk_migration va (map page_of src) [] ->
  wp M (migrate_to poll_fuel page_of migrating d va npages src (seqZ pfn npages) addrs) s
    (fun o s' => forall s0, dev_inv bpfn d s0 -> live (devs s0 d) = lv ->
       hw (devs s0 d) = hw (devs s d) ->
       vmem_intervals (devs s0 d) = vmem_intervals (devs s d) ->
       maps s0 = maps s -> kept d s0 s -> ended o va npages s0 s').
Proof.
  intros Hinv Hlv Hco Hso Ha Hlen Hsrc Hmg. unfold migrate_to.
  assert (frames_ok pfn npages) as Hfr
    by (eapply r2d_alloc_frames; [done|]; unfold dev_inv in Hinv; by rewrite Hlv in Hinv).
  wp_seq map_src_pages_spec.
  { apply (stale_ok_intro va); [rewrite length_map; lia|done|done]. }
  { rewrite length_map, length_seqZ. lia. }
  intros [addrs' ok] s3 (-> & -> & lm & Hlm & ->). cbn [negb].
  apply wp_bind, wp_call; [done|]. intros c s4 [-> ->].
  change (devs (set_maps lm s) d) with (devs s d). rewrite (inv_base _ _ _ Hinv).
  wp_seq r2d_transfer_pages_spec; [done|done|rewrite length_map; lia|].
  intros res s4 (Hio & Hc4 & Hm4 & Hr4 & ts & Hts & Hplan).
  destruct (after_transfer pfn _ _ _ _ ts Hinv Hco Hlm Hio)
    as (Hinv4 & Hl4 & Hco4 & Hmp4 & K4 & Ht4).
  change (h2c (set_maps lm s) d) with (h2c s d) in Hts.
  change (mmu (set_maps lm s) d) with (mmu s d) in Hm4.
  unfold nonzero at 1. destruct (Z.eqb_spec res 0) as [->|Hres]; cbn [negb].
  - wp_seq unmap_pages_spec; [done|]. intros [] s5 (lm' & Hlm' & ->).
    apply wp_bind, wp_call; [done|]. intros src' s6 (src0 & _ & _ & ->).
    eapply wp_mono; [apply (r2d_complete_spec pfn _ _ lv)|];
      [done|by rewrite <- Hlv, <- Hl4|by eexists|].
    intros o s7 (K7 & Hm7 & Hc7 & Hinv7 & Hh7 & Hcase) s0 Hi0 Hl0 Hhw0 Ht0 Hm0 K0.
    simpl in *. unfold ended.
    split_and!; try done;
      [transitivity s; [done|]; transitivity s4; [done|];
       eapply (PreOrder_Transitive (R := kept d)); [|exact K7]; by split
      |by rewrite Hm7, Hm0|].
    exists ts. unfold h2c, mmu in *. simpl in *. rewrite Hhw0, Hh7. split; [done|].
    destruct Hcase as [(-> & Hl7 & Hm7' & Ht7)|(-> & Hl7 & Hg7 & ms & ok & Hok & Hm7' & Hms & Ht7)].
    + split_and!; [|by apply addrs_ok_intro|unfold dma_addrs; rewrite !length_map; lia].
      unfold unmoved, mmu. rewrite Hm7', Ht7, Hl0, Hhw0, Ht0. done.
    + exists pfn, (map page_of src), ms, ok. unfold mmu.
      rewrite Hl7, Hl4, Hlv, Hl0, Ht7, Ht4, Ht0, Hm7', Hm4, Hhw0.
      assert (migr s4 = migr s) as Hmg4 by (by rewrite (io_migr _ _ _ Hio)).
      split_and!; try done; [rewrite length_map; lia|by rewrite Hg7, Hmg4, Hmg|auto].
  - wp_seq fail_dma_spec; [done|by rewrite Hl4, Hlv|done|done|].
    intros [] s5 ((K5 & Hhw5 & Ht5 & Hco5 & Hinv5 & Hl5) & Hm5). apply wp_ret.
    intros s0 Hi0 Hl0 Hhw0 Ht0 Hm0 K0. unfold ended, unmoved.
    split_and!; try done; [by transitivity s; [|transitivity s4]|by rewrite Hm0|].
    exists ts. unfold h2c, mmu in *. rewrite Hhw5, Ht5, Hl0, Hhw0, Ht0.
    split_and!; try done; lia.
Qed.

Lemma r2d_attempt_spec (addrs : list Z) (s : sys T) :
  dev_inv bpfn d s -> mm s = mm_locked -> addrs_ok va addrs ->
  Z.of_nat (length addrs) = npages ->
  wp M (attempt poll_fuel page_of migrating d va npages addrs) s
    (fun o s' => ended o va npages s s').
Proof.
  intros Hinv Hc Ha Hlen. unfold attempt. destruct r2d_range_pages as [-> Hpages].
  apply wp_bind, wp_call; [simpl; split; [done|unfold PAGE_SIZE; lia]|]. intros [[res cpages] src] s1. simpl. rewrite Hpages.
  destruct (Z.ltb_spec res 0) as [Hres|Hres].
  { intros ->. apply wp_ret. split_and!; try done. exists []. by rewrite app_nil_r. }
  intros (_ & -> & Hsrc & Hcp & Hfull).
  destruct (Z.eqb_spec cpages npages) as [->|]; cbn [negb].
  2:{ apply wp_bind, wp_call; [by eexists|]. intros [] s1 ->. apply wp_ret.
      split_and!; try done. exists []. by rewrite app_nil_r. }
  specialize (Hfull eq_refl). set (s1 := set_mm (mm_migrating src) (set_migr _ s)).
  apply wp_bind, wp_call; [done|]. intros r s2 (m & Hw & Halloc).
  simpl in Hw. apply (workers_preserve bpfn (live (devs s d))) in Hw as Hm; try done.
  destruct (alloc_device_pages m npages) as [[pages m']|] eqn:Ealloc;
    destruct Halloc as [-> ->].
  2:{ eapply wp_mono; [apply no_memory_spec; [done|by eexists]|].
      intros o s3 (K3 & Hm3 & Hc3 & Hi3 & Hrest). split_and!; try done.
      transitivity s1; [by split|done]. }
  destruct (alloc_shape _ _ _ _ Ealloc) as [pfn ->].
  destruct (alloc_device_pages_spec bpfn bpfn_pos bpfn_max _ _ _ _ _ Hm Hn Hphys Ealloc)
    as (Hinv' & _).
  set (s2 := upd d _ s1).
  assert (devs s2 d = set_mem m' (seqZ pfn npages ++ live (devs s d)) (devs s d)) as Hd2
    by (unfold s2; by rewrite devs_upd).
  eapply wp_mono; [apply (migrate_to_spec pfn src addrs (live (devs s d)))|].
  - unfold dev_inv. by rewrite Hd2.
  - by rewrite Hd2.
  - by eexists.
  - intros i p Hp. rewrite list_lookup_fmap in Hp.
    destruct (src !! i) as [e|] eqn:Ee; [|done]. injection Hp as <-. by apply Hfull.
  - done.
  - done.
  - done.
  - done.
  - intros o s3 H3. apply H3; try done; [by rewrite Hd2..|].
    transitivity s1; [by split|]. apply mem_kept, set_mem_only.
Qed.

(** ** The retry loop and the whole function *)

(** What the function guarantees: [old] are commands of attempts that failed. *)
Definition finished (res : Z) (s s' : sys T) : Prop :=
  kept d s s' /\ Permutation (maps s') (maps s) /\ mm s' = mm_locked /\ dev_inv bpfn d s' /\
  exists old ts, h2c s' d = h2c s d ++ old ++ ts /\
    if res =? 0 then migrated va npages s s' ts else res < 0 /\ unmoved s s'.

Lemma finished_after (res : Z) (s s1 s2 : sys T) (ts1 : list transfer) :
  kept d s s1 -> Permutation (maps s1) (maps s) -> h2c s1 d = h2c s d ++ ts1 ->
  unmoved s s1 -> finished res s1 s2 -> finished res s s2.
Proof.
  intros K1 Hm1 Hh1 (Hl1 & Hmm1 & Ht1) (K2 & Hm2 & Hc2 & Hi2 & old & ts & Hh2 & Hcase).
  split_and!; try done; [by transitivity s1|by rewrite Hm2|].
  exists (ts1 ++ old), ts. rewrite Hh2, Hh1, <- !app_assoc. split; [done|].
  destruct (res =? 0).
  - destruct Hcase as (pfn & srcs & ms & ok & Hok & H1 & H2 & H3 & H4 & H5 & H6 & H7 & H8 & H9).
    exists pfn, srcs, ms, ok. rewrite H2, Hl1, H7, Hmm1, H9, Ht1. done.
  - destruct Hcase as (Hr & H1 & H2 & H3). split; [done|]. unfold unmoved.
    rewrite H1, H2, H3. done.
Qed.

Lemma ended_finished (o : outcome) (res : Z) (s s' : sys T) :
  ended o va npages s s' -> (if res =? 0 then o = Migrated else res < 0 /\ o <> Migrated) ->
  finished res s s'.
Proof.
  intros (K & Hm & Hc & Hi & ts & Hh & Ho) Hres. split_and!; try done.
  exists [], ts. split; [done|]. destruct (res =? 0); [by subst o|].
  destruct Hres as [Hr Hne]. split; [done|]. destruct o; [done|..]; apply Ho.
Qed.

Lemma r2d_retry_loop_spec (fuel : nat) (addrs : list Z) (retry_cnt : Z) (s : sys T) :
  dev_inv bpfn d s -> mm s = mm_locked -> addrs_ok va addrs ->
  Z.of_nat (length addrs) = npages ->
  - 2 ^ 31 <= retry_cnt < 2 ^ 31 - 1 -> 5 - retry_cnt < Z.of_nat fuel -> (0 < fuel)%nat ->
  wp M (retry_loop poll_fuel page_of migrating fuel d va npages addrs retry_cnt) s
    (fun res s' => finished res s s').
Proof.
  revert addrs retry_cnt s. induction fuel as [|fuel IH]; [lia|].
  intros addrs r s Hinv Hc Ha Hlen Hr Hf _. cbn [retry_loop].
  wp_seq r2d_attempt_spec; [done..|]. intros o s1 Ho. rewrite (s32_small (r + 1)) by lia.
  assert (forall bound, 3 <= bound <= 4 -> forall addrs', addrs_ok va addrs' ->
    Z.of_nat (length addrs') = npages -> o <> Migrated -> unmoved s s1 ->
    wp M (if r + 1 >? bound then Ret (- ENOMEM)
          else retry_loop poll_fuel page_of migrating fuel d va npages addrs' (r + 1)) s1
      (fun res s' => finished res s s')) as Hretry.
  { intros bound Hb addrs' Ha' Hlen' Hne Hun. rewrite Z.gtb_ltb.
    destruct (Z.ltb_spec bound (r + 1)).
    - apply wp_ret. eapply (ended_finished o); [exact Ho|]. by split.
    - destruct Ho as (K & Hm & Hc1 & Hi1 & ts & Hh & _).
      eapply wp_mono; [apply (IH addrs'); try done; lia|].
      intros res s2 H2. by eapply finished_after. }
  destruct o as [|res| |addrs'].
  - apply wp_ret. by eapply ended_finished.
  - apply wp_ret. destruct Ho as (K & Hm & Hc1 & Hi1 & ts & Hh & Hneg & Hun).
    split_and!; try done. exists [], ts. split; [done|]. destruct (Z.eqb_spec res 0); [lia|done].
  - apply Hretry; try done. destruct Ho as (_ & _ & _ & _ & ts & _ & Hun). done.
  - destruct Ho as (K & Hm & Hc1 & Hi1 & ts & Hh & Hun & Ha' & Hlen').
    apply Hretry; try done.
Qed.

Lemma ram_to_dev_spec (retry_cnt : Z) (s : sys T) :
  dev_inv bpfn d s -> mm s = mm_locked -> - 2 ^ 31 <= retry_cnt < 2 ^ 31 - 1 ->
  wp M (svm_migrate_ram_to_dev poll_fuel page_of migrating retry_cnt d va npages) s
    (fun res s' => exists s1, finished res s s1 /\ exists h,
       Permutation h (heap s) /\ s' = set_heap h s1).
Proof.
  intros Hinv Hc Hr. unfold svm_migrate_ram_to_dev.
  wp_seq kcalloc_arrays_spec. intros arrays s1 (h & Hh & ->). set (s1 := set_heap h s).
  apply wp_bind. eapply (wp_mono _ _ _ (fun res s' => exists s2, finished res s s2 /\
    s' = set_heap h s2)).
  - destruct (forallb _ arrays).
    + unfold migrate_vma_range. apply wp_bind, wp_call; [simpl; congruence|]. intros found s' ->.
      destruct found.
      * eapply wp_mono; [apply (r2d_retry_loop_spec _ _ _ s1)|]; try done; try lia.
        { intros i a Hi _. by apply lookup_replicate in Hi as [-> _]. }
        { rewrite length_replicate. lia. }
        intros res s2 (K & Hrest). exists (set_heap (heap s) s2). split.
        { split; [|done]. destruct K as [K1 K2 K3 K4 K5 K6 K7]. by split. }
        unfold set_heap. simpl. destruct s2. simpl in *. f_equal. apply (kp_heap _ _ _ K).
      * apply wp_ret. exists s. split; [|done]. split_and!; try done. exists [], []. by rewrite !app_nil_r.
    + apply wp_ret. exists s. split; [|done]. split_and!; try done. exists [], []. by rewrite !app_nil_r.
  - intros res s' (s2 & Hfin & ->). wp_seq kfree_arrays_spec; [done|].
    intros [] s3 (h' & Hh' & ->). apply wp_ret. exists s2. split; [done|]. by exists h'.
Qed.

End Range.
End Spec.

(** ** The properties *)
Section Properties.
Context {T : Type} {IT : IntervalTree T} {Laws : IntervalTreeLaws T}.
Variable poll_fuel : nat.
Variable page_of : Z -> option Z.
Variable migrating : Z -> bool.
Variable dma_of : Z -> Z.
Variable populated : Z -> bool.
Variable tick : Z.
Variable nodes_fail : bool.

Notation M := (svm_model page_of dma_of populated tick (mk_faults false nodes_fail)).

(** C13: svm_migrate_ram_to_dev, whatever the kernel and the hardware answer
    (allocation failures, pages not collected or not migrated, DMA errors and
    timeouts, a mapping always succeeding): the function terminates within its
    retries, uses every service legally (no page is put, no array freed, no
    mapping undone twice), and on return holds no array, DMA mapping or set-up
    migration that it did not hold before; the memory of the device is
    consistent, other devices are untouched, and after an error no page, no
    translation and no interval has changed. *)
Theorem ram_to_dev_safe (bpfn d va npages retry_cnt : Z) (s : sys T) :
  platform_ok poll_fuel dma_of tick -> range_ok va npages -> device_ok bpfn d s -> mm s = mm_locked ->
  - 2 ^ 31 <= retry_cnt < 2 ^ 31 - 1 ->
  wp M (svm_migrate_ram_to_dev poll_fuel page_of migrating retry_cnt d va npages) s (fun res s' =>
    Permutation (heap s') (heap s) /\ Permutation (maps s') (maps s) /\
    host s' = host s /\ mm s' = mm_locked /\ device_ok bpfn d s' /\
    (forall d', d' <> d -> devs s' d' = devs s d') /\
    (res <> 0 -> res < 0 /\ Permutation (live (devs s' d)) (live (devs s d)) /\
       mmu s' d = mmu s d /\ vmem_intervals (devs s' d) = vmem_intervals (devs s d))).
Proof.
  intros (Ht & Hp & Hd) (Hn & Hph & Hv) (Hb & Hb' & Hinv) Hc Hr.
  eapply wp_mono; [by apply (ram_to_dev_spec poll_fuel page_of migrating dma_of populated tick nodes_fail
    Ht Hp Hd d bpfn Hb Hb' va npages Hn Hph Hv)|].
  intros res s' (s1 & (K & Hm & Hc1 & Hi & old & ts & _ & Hcase) & h & Hh & ->).
  split_and!; try done.
  - exact (kp_host _ _ _ K).
  - exact (kp_other _ _ _ K).
  - intros Hres. destruct (Z.eqb_spec res 0) as [->|]; [done|]. exact Hcase.
Qed.

(** C14: when svm_migrate_ram_to_dev succeeds (for a range of whole pages none of
    which is present on the device, provided every DMA mapping succeeds and the
    process has pages at the same addresses of the range in every retry), the
    range has moved: with srcs the pages
    that the kernel collected for it in the last set-up, the one at index i for the
    i-th page from va on, the kernel was given frames pfn, pfn + 1, ... of the
    device, now in use, to put in their places; the transfers issued last write
    frame by frame, each exactly once, the page that was collected for the same
    address, from its bus address, or clear the frame where the process has no
    page; exactly the translations of the addresses to these frames are added to
    the IOMMU; and the range is added to the intervals present on the device,
    unless the node for it cannot be allocated, which the function ignores. *)
Theorem ram_to_dev_migrates (bpfn d va npages retry_cnt : Z) (s : sys T) :
  platform_ok poll_fuel dma_of tick -> range_ok va npages -> device_ok bpfn d s -> mm s = mm_locked ->
  - 2 ^ 31 <= retry_cnt < 2 ^ 31 - 1 ->
  va mod PAGE_SIZE = 0 -> wf_nodes (it_nodes (vmem_intervals (devs s d))) ->
  (forall x, va <= x < va + npages * PAGE_SIZE ->
     ~ covered (it_nodes (vmem_intervals (devs s d))) x) ->
  wp M (svm_migrate_ram_to_dev poll_fuel page_of migrating retry_cnt d va npages) s (fun res s' => res = 0 ->
    exists pfn srcs ms old ts,
      frames_ok bpfn pfn npages /\
      Permutation (live (devs s' d)) (seqZ pfn npages ++ live (devs s d)) /\
      Z.of_nat (length srcs) = npages /\ srcs_ok populated va srcs /\
      migr s' = mk_migration va srcs (seqZ pfn npages) /\
      h2c s' d = h2c s d ++ old ++ ts /\
      mbind pages_of ts = transfers_of dma_of bpfn pfn srcs /\
      mmu s' d = mmu s d ++ ms /\
      mbind mappings_of ms = translations va (pfn_to_dev_addr bpfn pfn) 0 npages /\
      let t' := vmem_intervals (devs s' d) in
      wf_nodes (it_nodes t') /\
      ((forall x, covered (it_nodes t') x <->
          covered (it_nodes (vmem_intervals (devs s d))) x \/
          va <= x < va + npages * PAGE_SIZE) \/
       (nodes_fail = true /\ t' = vmem_intervals (devs s d)))).
Proof.
  intros (Ht & Hp & Hd) (Hn & Hph & Hv) (Hb & Hb' & Hinv) Hc Hr Hal Hwf Hunc.
  eapply wp_mono; [by apply (ram_to_dev_spec poll_fuel page_of migrating dma_of populated tick nodes_fail
    Ht Hp Hd d bpfn Hb Hb' va npages Hn Hph Hv)|].
  intros res s' (s1 & (K & Hm & Hc1 & Hi & old & ts & Hh & Hcase) & h & _ & ->) ->.
  destruct Hcase as (pfn & srcs & ms & ok & Hok & H1 & H2 & H3 & H4 & H5 & H6 & H7 & H8 & H9).
  exists pfn, srcs, ms, old, ts. simpl. change (devs (set_heap h s1)) with (devs s1).
  split_and!; try done; rewrite H9.
  - destruct ok; [|done].
    by destruct (insert_vmem_interval_spec (vmem_intervals (devs s d)) va npages)
      as (t' & -> & ? & _); try lia.
  - destruct ok; [left|right; split; [by apply Hok|done]].
    by destruct (insert_vmem_interval_spec (vmem_intervals (devs s d)) va npages)
      as (t' & -> & _ & ?); try lia.
Qed.

(** when a source page cannot be mapped for DMA, svm_migrate_ram_to_dev
    puts the destination page of that entry and leaves it in dst_pages, so the
    clean-up puts it again: no run of that path is legal, for the page is no
    longer held. *)
Theorem ram_to_dev_double_put (d va e p q : Z) (s : sys T) :
  page_of e = Some p -> NoDup (live (devs s d)) -> q ∈ live (devs s d) ->
  ~ wp (svm_model page_of dma_of populated tick (mk_faults true nodes_fail))
      (migrate_to poll_fuel page_of migrating d va 1 [e] [q] [0]) s (fun _ _ => True).
Proof.
  intros He Hnd Hq Hwp. unfold migrate_to in Hwp. simpl map in Hwp. rewrite He in Hwp.
  cbn [map_src_pages] in Hwp. unfold bind, call in Hwp. simpl in Hwp.
  unfold wp in Hwp; simpl in Hwp. destruct Hwp as [_ Hwp].
  specialize (Hwp None s (conj eq_refl eq_refl)). simpl in Hwp. destruct Hwp as [_ Hwp].
  apply elem_of_Permutation in Hq as [l Hl].
  specialize (Hwp tt _ (ex_intro _ true (ex_intro _ l (conj Hl eq_refl)))).
  destruct Hwp as [_ Hwp]. specialize (Hwp tt _ eq_refl). simpl in Hwp.
  destruct Hwp as [Hin _]. rewrite Z.eqb_refl in Hin. simpl in Hin.
  rewrite Hl in Hnd. by apply NoDup_cons in Hnd as [? _].
Qed.

End Properties.

(** ** Witnesses *)

(** A kernel that grants everything lets the migration succeed: three pages
    are copied by one command, and the first and last page get entries of their
    own. *)
Example demo_run :
  let (res, s) := run obliging (svm_migrate_ram_to_dev 1000 Some (fun _ => true) 0 0 65536 3)
                    demo_sys in
  res = 0 /\ live (devs s 0) = [1048576; 1048577; 1048578] /\ heap s = [] /\ maps s = [] /\
  h2c s 0 = [mk_transfer 4096 0 3 false false] /\
  mmu s 0 = [AddEntry 65536 0; AddEntry 69632 4096; AddEntry 73728 8192] /\
  it_nodes (vmem_intervals (devs s 0)) = [mk_node 65536 77823].
Proof. vm_compute. split_and!; reflexivity. Qed.

Lemma ram_to_dev_safe_witness :
  wp (svm_model Some (fun _ => 4096) (fun _ => true) 1000000 (mk_faults false false))
    (svm_migrate_ram_to_dev 1000 Some (fun _ => true) 0 0 65536 3) demo_sys
    (fun res s' => Permutation (heap s') [] /\ Permutation (maps s') []).
Proof.
  eapply wp_mono; [apply (ram_to_dev_safe 1000 Some (fun _ => true) (fun _ => 4096) (fun _ => true)
    1000000 false 1048576 0 65536 3 0 demo_sys demo_platform demo_range demo_device eq_refl)|].
  - split; vm_compute; congruence.
  - intros res s' (H1 & H2 & _). split; [exact H1|exact H2].
Defined.

Lemma ram_to_dev_migrates_witness :
  wp (svm_model Some (fun _ => 4096) (fun _ => true) 1000000 (mk_faults false false))
    (svm_migrate_ram_to_dev 1000 Some (fun _ => true) 0 0 65536 3) demo_sys
    (fun res s' => res = 0 -> exists pfn, Permutation (live (devs s' 0)) (seqZ pfn 3)).
Proof.
  eapply wp_mono; [apply (ram_to_dev_migrates 1000 Some (fun _ => true) (fun _ => 4096) (fun _ => true)
    1000000 false 1048576 0 65536 3 0 demo_sys demo_platform demo_range demo_device eq_refl)|].
  - split; vm_compute; congruence.
  - reflexivity.
  - apply wf_nodes_nil.
  - intros x _. apply demo_uncovered.
  - intros res s' H Hres. destruct (H Hres) as (pfn & _ & _ & _ & _ & _ & Hl & _).
    exists pfn. change (live (devs demo_sys 0)) with (@nil Z) in Hl.
    rewrite app_nil_r in Hl. exact Hl.
Defined.

Lemma ram_to_dev_double_put_witness :
  let c := set_mem (mem demo_dev) [1048576] demo_dev in
  let s := mk_sys (fun _ => c) [] [] [] mm_locked 0 0 no_migration [] in
  ~ wp (svm_model Some (fun _ => 4096) (fun _ => true) 1000000 (mk_faults true false))
      (migrate_to 1000 Some (fun _ => true) 0 65536 1 [7] [1048576] [0]) s (fun _ _ => True).
Proof.
  intros c s.
  apply (ram_to_dev_double_put 1000 Some (fun _ => true) (fun _ => 4096) (fun _ => true)
    1000000 false 0 65536 7 7 1048576 s eq_refl).
  - apply NoDup_singleton.
  - by apply list_elem_of_singleton.
Defined.

End RamToDev.
