(* ===== verification/DevToRam.v ===== *)
(** * Migration of pages from device memory to RAM (svm_migrate_dev_to_ram)

    The function with its error paths as a program over the calls of [SvmSys],
    and what it guarantees whatever the kernel and the hardware answer. *)
From S2P Require Import Prelude Kernel.
From S2P Require Import DevMem DevPages Intervals SvmHw SvmSys SvmIo SvmCopy.

Module DevToRam.
Import Kernel DevMem DevPages Intervals SvmHw SvmSys SvmIo SvmCopy.
Open Scope prog_scope.

(** ** The function *)

(** The while loop that extends a run of pages which are contiguous on both
    sides; the items are device pages with the bus addresses they go to. *)
Fixpoint both_run (last_page last_addr : Z) (rest : list (Z * Z)) (n : Z) : Z :=
  match rest with
  | (q, a) :: rest' =>
      if (n <? PAGE_DMA_MAX_NPAGES) && (is_contiguous a last_addr && is_contiguous_page q last_page)
      then both_run q a rest' (n + 1) else n
  | [] => n
  end.

Section Code.
Context {T : Type} {IT : IntervalTree T}.
Notation P := (prog (svmE T)).
Variable poll_fuel busy_fuel : nat.
Variable page_of : Z -> option Z.
Variable migrating : Z -> bool.

(** Allocate the host pages from index [i] on and map them; the pages with their
    addresses, and an error code. *)
Fixpoint alloc_host_pages (n : nat) (d va i : Z) : P (list (Z * Z) * Z) :=
  match n with
  | O => Ret ([], 0)
  | S n' =>
      let! r := call (alloc_page_vma (u64 (va + i * PAGE_SIZE))) in
      match r with
      | None => Ret ([], - ENOMEM)
      | Some p =>
          let! m := call (dma_map_page d p) in
          match m with
          | None =>
              call (free_page p);;;
              call (dma_unmap_failed d);;;
              Ret ([], - EACCES)
          | Some a =>
              let! (l, res) := alloc_host_pages n' d va (i + 1) in
              Ret ((p, a) :: l, res)
          end
      end
  end.

Fixpoint copy_loop (fuel : nat) (d bpfn cmd_cnt : Z) (items : list (Z * Z)) : P Z :=
  match items with
  | [] => Ret 0
  | (q, a) :: rest =>
      match fuel with
      | O => call hang;;; Ret 0
      | S fuel' =>
          let ncontiguous := both_run q a rest 1 in
          let! (res, cmd_cnt) := throttle poll_fuel true d cmd_cnt in
          if nonzero res then Ret res
          else
            init_c2h_dma d a (pfn_to_dev_addr bpfn q) ncontiguous false;;;
            copy_loop fuel' d bpfn (cmd_cnt + 1) (drop (Z.to_nat ncontiguous) items)
      end
  end.

(** From the DMA transfer to the check of the status register. *)
Definition transfer_pages (d bpfn npages : Z) (items : list (Z * Z)) : P Z :=
  let! res := copy_loop (length items) d bpfn 0 items in
  if nonzero res then Ret res else
  let! res := wait_for_c2h_intr poll_fuel d (npages <? PAGE_DMA_POLL_LIMIT) in
  if nonzero res then Ret res else
  let! v := call (readq d c2h_status_ctrl) in
  if nonzero (Z.land v PAGE_DMA_STAT_ERROR_FLAGS) then Ret (- EACCES) else Ret 0.

(** fail_allocpage: *)
Definition free_pages (pages : list Z) : P unit := for_each pages (fun p => call (free_page p)).

Definition fail_allocpage (d : Z) (dst : list (Z * Z)) : P unit :=
  for_each dst (fun x =>
    when (nonzero (snd x)) (call (dma_unmap_page d (snd x)));;; call (free_page (fst x)));;;
  call migrate_vma_finalize.

(** The end of a migration whose pages have been transferred; [array] is the
    array src_pages.  Work items are queued for the device pages. *)
Definition complete_migration (d va npages array : Z) (src_pages dst_pages src : list Z) : P Z :=
  if forallb migrating src then
    let! ok := call kmalloc_ok in
    call (retire d src_pages ok);;;
    when ok (call (hand_over array));;;
    call migrate_vma_finalize;;;
    remove_interval d va npages;;;
    Ret 0
  else
    free_pages dst_pages;;;
    call migrate_vma_finalize;;;
    Ret (- ENOMEM).

(** From the label retry on; [None] stands for goto retry.  A collected page of
    device memory has a struct page, so no entry is dropped from src_pages. *)
Definition attempt (d va npages array : Z) : P (option Z) :=
  let! (res, cpages, src) :=
    call (migrate_vma_setup d true va (u64 (va + npages * PAGE_SIZE))) in
  if res <? 0 then Ret (Some res) else
  if negb (cpages =? npages) then call migrate_vma_finalize;;; Ret None else
  let src_pages := omap page_of src in
  let! (dst, res) := alloc_host_pages (Z.to_nat npages) d va 0 in
  if nonzero res then fail_allocpage d dst;;; Ret (Some res) else
  let! c := call (get_dev d) in
  let! res := transfer_pages d (base_pfn (mem c)) npages (zip src_pages (map snd dst)) in
  if nonzero res then fail_allocpage d dst;;; Ret (Some res) else
  unmap_pages d (map snd dst);;;
  let! src := call (migrate_vma_pages (map fst dst)) in
  let! res := complete_migration d va npages array src_pages (map fst dst) src in
  Ret (Some res).

Fixpoint retry_loop (fuel : nat) (d va npages array retry_cnt : Z) : P Z :=
  match fuel with
  | O => call hang;;; Ret 0
  | S fuel' =>
      let! o := attempt d va npages array in
      match o with
      | Some res => Ret res
      | None =>
          let retry_cnt := s32 (retry_cnt + 1) in
          if retry_cnt >? 3 then Ret (- ENOMEM)
          else retry_loop fuel' d va npages array retry_cnt
      end
  end.

(** From the search for the VMA on. *)
Definition migrate_vma_range (retry_cnt d va npages array : Z) : P Z :=
  let! found := call (find_vma_intersection d va (u64 (va + npages * PAGE_SIZE))) in
  if found then
    call (writeq d mmu_cmd MMU_DEACTIVATE);;;
    invalidate_tlb_range d va npages;;;
    wait_mmu_idle busy_fuel d MMU_STATUS_ANY_MEM_ACCESS;;;
    let! res := retry_loop (S (Z.to_nat (4 - retry_cnt))) d va npages array retry_cnt in
    call (writeq d mmu_cmd MMU_ACTIVATE);;;
    Ret res
  else Ret (- EFAULT).

(** svm_migrate_dev_to_ram; [retry_cnt] and [res] are the initial contents of
    those variables.  The arrays are migrate.src, migrate.dst, src_pages,
    dst_pages and dma_addrs.  On success src_pages is not freed: it belongs to
    the work item, or is lost when none could be queued. *)
Definition svm_migrate_dev_to_ram (retry_cnt res d va npages : Z) : P Z :=
  let! arrays := kcalloc_arrays 5 in
  match arrays with
  | [Some msrc; Some mdst; Some src_pages; Some dst_pages; Some dma_addrs] =>
      let! res := migrate_vma_range retry_cnt d va npages src_pages in
      kfree_arrays (if res =? 0 then [Some dma_addrs; Some dst_pages; Some mdst; Some msrc]
                    else arrays);;;
      Ret res
  | _ => kfree_arrays arrays;;; Ret res
  end.

End Code.

(** ** Specifications *)

Lemma both_run_spec (rest : list (Z * Z)) (q a n : Z) :
  0 <= a < 2 ^ 48 -> Forall (fun x => 0 <= snd x < 2 ^ 48) rest -> n <= PAGE_DMA_MAX_NPAGES ->
  exists k : nat, both_run q a rest n = n + Z.of_nat k /\ (k <= length rest)%nat /\
    n + Z.of_nat k <= PAGE_DMA_MAX_NPAGES /\
    forall j, (j < k)%nat ->
      rest !! j = Some (q + Z.of_nat (S j), a + Z.of_nat (S j) * PAGE_SIZE).
Proof.
  revert q a n. induction rest as [|[q' a'] rest IH]; intros q a n Ha Hok Hn; simpl.
  - exists 0%nat. split_and!; lia.
  - apply Forall_cons in Hok as [Ha' Hok]. simpl in Ha'.
    destruct (Z.ltb_spec n PAGE_DMA_MAX_NPAGES) as [Hlt|]; simpl;
      [|exists 0%nat; split_and!; lia].
    destruct (is_contiguous a' a) eqn:E; simpl; [|exists 0%nat; split_and!; lia].
    apply is_contiguous_eq in E; [|done..]. unfold is_contiguous_page.
    destruct (Z.eqb_spec q' (q + 1)); [|exists 0%nat; split_and!; lia].
    destruct (IH q' a' (n + 1)) as (k & Hk & Hlen & Hmax & Hrun); [done..|lia|].
    exists (S k). split_and!; try lia. intros [|j] Hj; simpl.
    + subst. apply f_equal. f_equal; unfold PAGE_SIZE in *; lia.
    + rewrite (Hrun j) by lia. subst. apply f_equal. f_equal; unfold PAGE_SIZE in *; lia.
Qed.

(** What the transfers must do: each device page goes to its bus address. *)
Definition plan (bpfn : Z) (items : list (Z * Z)) : list (option Z * Z) :=
  map (fun x => (Some (pfn_to_dev_addr bpfn (fst x)), snd x)) items.

Definition items_ok (bpfn : Z) (items : list (Z * Z)) : Prop :=
  Forall (fun x => dev_pfn bpfn (fst x) /\ 0 <= snd x < 2 ^ 48) items.

(** The run at the head and its transfer. *)
Lemma d2r_run_plan (bpfn q a : Z) (rest : list (Z * Z)) :
  items_ok bpfn ((q, a) :: rest) ->
  let n := both_run q a rest 1 in
  0 < n <= PAGE_DMA_MAX_NPAGES /\ n <= Z.of_nat (length ((q, a) :: rest)) /\
  pages_of (mk_transfer (pfn_to_dev_addr bpfn q) a n false false) =
  plan bpfn (take (Z.to_nat n) ((q, a) :: rest)).
Proof.
  intros Hok. pose proof Hok as Hall. apply Forall_cons in Hok as [[Hq Ha] Hok].
  simpl in Hq, Ha. cbv zeta.
  destruct (both_run_spec rest q a 1 Ha) as (k & -> & Hlen & Hmax & Hrun);
    [by eapply Forall_impl; [exact Hok|]; intros x [_ ?]|unfold PAGE_DMA_MAX_NPAGES; lia|].
  split_and!; [lia|done|simpl; lia|]. unfold pages_of, plan. simpl t_npages.
  apply list_eq. intros j. rewrite !list_lookup_fmap.
  destruct (decide (j < S k)%nat) as [Hj|Hj].
  - rewrite lookup_seqZ_lt, lookup_take_lt by lia. simpl.
    assert (((q, a) :: rest) !! j = Some (q + Z.of_nat j, a + Z.of_nat j * PAGE_SIZE)) as Ej.
    { destruct j as [|j]; simpl; [apply f_equal; f_equal; lia|]. by rewrite Hrun by lia. }
    rewrite Ej. simpl. apply f_equal. f_equal. f_equal.
    pose proof (list_elem_of_lookup_2 _ _ _ Ej) as Hin.
    unfold items_ok in Hall. rewrite Forall_forall in Hall. destruct (Hall _ Hin) as [Hqj _]. simpl in Hqj.
    rewrite !pfn_to_dev_addr_eq by done. unfold PAGE_SIZE. lia.
  - rewrite !lookup_ge_None_2; [done|rewrite length_take; simpl; lia|rewrite length_seqZ; lia].
Qed.

Section Spec.
Context {T : Type} {IT : IntervalTree T}.
#[local] Set Default Proof Using "All".
Variable poll_fuel busy_fuel : nat.
Variable page_of : Z -> option Z.
Variable migrating : Z -> bool.
Variable dma_of : Z -> Z.
Variable populated : Z -> bool.
Variable tick : Z.
Variable faults : kernel_faults.
Hypothesis Htick : 0 < tick.
Hypothesis Hpoll : 1000000000 <= Z.of_nat poll_fuel * tick.
Hypothesis Hdma : forall p, 0 < dma_of p < 2 ^ 48.
Variables d bpfn : Z.
Hypothesis bpfn_pos : 0 <= bpfn.
Hypothesis bpfn_max : bpfn + PHYS_MEM_SIZE / PAGE_SIZE <= 2 ^ 64.
Notation M := (svm_model page_of dma_of populated tick faults).

Notation copied := (copied_c2h d).

Lemma d2r_copy_loop_spec (fuel : nat) (cmd_cnt : Z) (items : list (Z * Z)) (s : sys T) :
  items_ok bpfn items -> (length items <= fuel)%nat ->
  wp M (copy_loop poll_fuel fuel d bpfn cmd_cnt items) s
    (fun res s' => copied res (plan bpfn items) s s').
Proof.
  revert cmd_cnt items s.
  induction fuel as [|fuel IH]; intros cmd_cnt [|[q a] rest] s Hok Hf;
    cbn [copy_loop]; try (simpl in Hf; lia).
  1,2: apply wp_ret; split_and!; try done; exists []; by rewrite app_nil_r.
  pose proof (d2r_run_plan bpfn q a rest Hok) as (Hk & Hlen & Hpages).
  set (k := both_run q a rest 1) in *.
  wp_seq throttle_spec; [done|done|]. intros [res cnt] s1 H1.
  unfold nonzero. destruct (Z.eqb_spec res 0) as [->|Hres]; cbn [negb].
  2:{ apply wp_ret. apply waited_copied_c2h in H1 as (H & C & Mm & R & ts & Hts & _).
      split_and!; try done. exists ts. split; [done|]. intros ->. done. }
  apply waited_copied_c2h in H1. wp_seq init_c2h_dma_spec; [done|].
  intros [] s2 (a0 & Ha0 & Hiss). rewrite (Ha0 eq_refl) in Hiss.
  assert (copied 0 (plan bpfn (take (Z.to_nat k) ((q, a) :: rest))) s1 s2) as H2.
  { destruct Hiss as (Hio & _ & Hh & Hc & Hm). rewrite app_nil_r in *.
    split_and!; try done. eexists. split; [done|]. intros _.
    simpl mbind. rewrite app_nil_r. apply Hpages. }
  pose proof (copied_c2h_trans _ _ _ _ _ _ _ H1 H2) as H12.
  unfold items_ok in Hok. rewrite <- (take_drop (Z.to_nat k) ((q, a) :: rest)) in Hok.
  apply Forall_app in Hok as [_ Hok].
  eapply wp_mono; [apply IH; [done|]|].
  { rewrite length_drop. simpl length in *. lia. }
  intros res s3 H3. pose proof (copied_c2h_trans _ _ _ _ _ _ _ H12 H3) as H13. simpl app in H13.
  rewrite <- (take_drop (Z.to_nat k) ((q, a) :: rest)) at 1.
  unfold plan in *. rewrite map_app. exact H13.
Qed.

Lemma d2r_transfer_pages_spec (n : Z) (items : list (Z * Z)) (s : sys T) :
  items_ok bpfn items ->
  wp M (transfer_pages poll_fuel d bpfn n items) s
    (fun res s' => copied res (plan bpfn items) s s').
Proof.
  intros Hok. unfold transfer_pages. wp_seq d2r_copy_loop_spec; [done|done|]. intros res s1 H1.
  unfold nonzero at 1. destruct (Z.eqb_spec res 0) as [->|]; cbn [negb]; [|by apply wp_ret].
  wp_seq wait_for_intr_spec; [done|done|]. intros res s2 H2.
  apply waited_copied_c2h in H2. pose proof (copied_c2h_trans _ _ _ _ _ _ _ H1 H2) as H12.
  rewrite app_nil_r in H12.
  unfold nonzero at 1. destruct (Z.eqb_spec res 0) as [->|]; cbn [negb]; [|by apply wp_ret].
  wp_seq (readq_spec _ _ _ _ _ d); [done|]. intros v s3 (H3 & _).
  apply quiet_issues, (issues_waited d 0) in H3; [|auto]. apply waited_copied_c2h in H3.
  pose proof (copied_c2h_trans _ _ _ _ _ _ _ H12 H3) as H13. rewrite app_nil_r in H13.
  destruct (nonzero _); apply wp_ret; [|done].
  destruct H13 as (? & ? & ? & _ & ts & ? & _). split_and!; try done. by exists ts.
Qed.

(** ** Host pages *)

Definition set_io (lm lh : list Z) (s : sys T) : sys T := set_host lh (set_maps lm s).

Lemma alloc_host_pages_spec (n : nat) (va i : Z) (s : sys T) :
  wp M (alloc_host_pages n d va i) s (fun '(l, res) s' =>
    res <= 0 /\ (res = 0 -> length l = n) /\ map snd l = map dma_of (map fst l) /\
    exists lm lh, Permutation lm (map snd l ++ maps s) /\
      Permutation lh (map fst l ++ host s) /\ s' = set_io lm lh s).
Proof.
  revert i s. induction n as [|n IH]; intros i s; cbn [alloc_host_pages].
  { apply wp_ret. split_and!; try done. exists (maps s), (host s). split_and!; try done.
    by destruct s. }
  apply wp_bind, wp_call; [done|]. intros [p|] s1; simpl; intros ->.
  2:{ apply wp_ret. split_and!; try done. exists (maps s), (host s). split_and!; try done.
      by destruct s. }
  apply wp_bind, wp_call; [done|]. intros [a|] s2; simpl.
  - intros [-> ->]. wp_seq IH. intros [l res] s3 (Hr & Hl & Hm & lm & lh & Hlm & Hlh & ->).
    apply wp_ret. split_and!; [done|simpl; intros E; by rewrite (Hl E)|simpl; by rewrite Hm|].
    exists lm, lh. simpl in *. split_and!; [|by rewrite Hlh; symmetry; apply Permutation_middle|done].
    rewrite Hlm. symmetry. apply Permutation_middle.
  - intros [_ ->]. apply wp_bind, wp_call; [by left|]. intros [] s3 (lh & Hlh & ->).
    apply wp_bind, wp_call; [done|]. intros [] s4 ->. apply wp_ret. split_and!; try done.
    simpl in Hlh. exists (maps s), lh. split_and!; [done| |by destruct s].
    simpl. symmetry. by apply (Permutation_cons_inv (a := p)).
Qed.

Lemma free_pages_spec (pages lh : list Z) (s : sys T) :
  Permutation (host s) (pages ++ lh) ->
  wp M (free_pages pages) s (fun _ s' => exists lh', Permutation lh' lh /\ s' = set_host lh' s).
Proof.
  revert s. induction pages as [|p pages IH]; intros s Hh; unfold free_pages; cbn [for_each].
  - apply wp_ret. exists (host s). split; [done|]. by destruct s.
  - apply wp_bind, wp_call; [simpl; rewrite Hh; by left|]. intros [] s1 (l & Hl & ->).
    eapply wp_mono; [apply IH|].
    { simpl. apply (Permutation_cons_inv (a := p)). by rewrite <- Hl, Hh. }
    simpl. intros [] s2 (lh' & Hlh' & ->). by exists lh'.
Qed.

Lemma fail_allocpage_spec (dst : list (Z * Z)) (lm lh : list Z) (s : sys T) :
  map snd dst = map dma_of (map fst dst) ->
  Permutation (maps s) (map snd dst ++ lm) -> Permutation (host s) (map fst dst ++ lh) ->
  (exists src0, mm s = mm_migrating src0) ->
  wp M (fail_allocpage d dst) s (fun _ s' => exists lm' lh',
    Permutation lm' lm /\ Permutation lh' lh /\ s' = set_mm mm_locked (set_io lm' lh' s)).
Proof.
  intros Hd Hm Hh Hc. unfold fail_allocpage. apply wp_bind.
  eapply (wp_mono _ _ _ (fun _ s' => exists lm' lh',
    Permutation lm' lm /\ Permutation lh' lh /\ s' = set_io lm' lh' s)).
  2:{ intros [] s1 (lm' & lh' & H1 & H2 & ->). apply wp_call; [done|]. intros [] s2 ->.
      by exists lm', lh'. }
  clear Hc. revert s Hm Hh. induction dst as [|[p a] dst IH]; intros s Hm Hh; cbn [for_each].
  { apply wp_ret. exists (maps s), (host s). split_and!; try done. by destruct s. }
  simpl in Hd. injection Hd as -> Hd. simpl in *. apply wp_bind, wp_bind. unfold when, nonzero.
  destruct (Z.eqb_spec (dma_of p) 0) as [E|_]; [specialize (Hdma p); lia|]. simpl.
  apply wp_call; [simpl; rewrite Hm; by left|]. intros [] s1 (l1 & Hl1 & ->).
  apply wp_call; [simpl; rewrite Hh; by left|]. intros [] s2 (l2 & Hl2 & ->). simpl in Hl2.
  eapply wp_mono; [apply (IH Hd)|].
  - simpl. apply (Permutation_cons_inv (a := dma_of p)). by rewrite <- Hl1, Hm.
  - simpl. apply (Permutation_cons_inv (a := p)). by rewrite <- Hl2, Hh.
  - simpl. intros [] s3 (lm' & lh' & H1 & H2 & ->). by exists lm', lh'.
Qed.

(** ** One attempt *)

(** The configuration and the other devices. *)
Record cfg (s s' : sys T) : Prop := {
  cfg_other d' : d' <> d -> devs s' d' = devs s d';
  cfg_h2c : h2c s' d = h2c s d;
  cfg_rdma : rdma_bar (devs s' d) = rdma_bar (devs s d);
  cfg_busy : (busy s' <= busy s)%nat;
  cfg_reported : reported s' = reported s
}.

Lemma cfg_refl (s : sys T) : cfg s s.
Proof. by split. Qed.

Lemma cfg_trans (s1 s2 s3 : sys T) : cfg s1 s2 -> cfg s2 s3 -> cfg s1 s3.
Proof.
  intros H1 H2. split.
  - intros d' Hd. by rewrite (cfg_other _ _ H2), (cfg_other _ _ H1).
  - by rewrite (cfg_h2c _ _ H2), (cfg_h2c _ _ H1).
  - by rewrite (cfg_rdma _ _ H2), (cfg_rdma _ _ H1).
  - pose proof (cfg_busy _ _ H1). pose proof (cfg_busy _ _ H2). lia.
  - by rewrite (cfg_reported _ _ H2), (cfg_reported _ _ H1).
Qed.

(** The pages have left the device: they are queued to be freed (or lost when
    no work item could be allocated), transferred to host pages, and their
    interval is removed; the array of the pages belongs to the work item. *)
Definition moved_out (va npages array : Z) (s s' : sys T) (ts : list transfer) : Prop :=
  exists pages hosts ok okm,
    Forall (node_answer faults) okm /\ length okm = length (it_nodes (vmem_intervals (devs s d))) /\
    Permutation (live (devs s d)) (pages ++ live (devs s' d)) /\
    Z.of_nat (length pages) = npages /\ length hosts = length pages /\
    mbind pages_of ts = plan bpfn (zip pages (map dma_of hosts)) /\
    Permutation (host s') (hosts ++ host s) /\
    migr s' = mk_migration va (map Some pages) hosts /\
    (if (ok : bool) then Permutation (heap s) (array :: heap s') else heap s' = heap s) /\
    vmem_intervals (devs s' d) = remove_vmem_interval okm (vmem_intervals (devs s d)) va npages.

Definition stayed (s s' : sys T) : Prop :=
  live (devs s' d) = live (devs s d) /\ Permutation (host s') (host s) /\ heap s' = heap s /\
  vmem_intervals (devs s' d) = vmem_intervals (devs s d).

Definition ended (res : Z) (va npages array : Z) (s s' : sys T) : Prop :=
  cfg s s' /\ mmu s' d = mmu s d /\ Permutation (maps s') (maps s) /\ mm s' = mm_locked /\
  dev_inv bpfn d s' /\ exists ts, c2h s' d = c2h s d ++ ts /\
  if res =? 0 then moved_out va npages array s s' ts else res < 0 /\ stayed s s'.

Lemma d2r_complete_spec (va npages array : Z) (pages hosts src lh : list Z) (s : sys T) :
  dev_inv bpfn d s -> (exists l, Permutation (live (devs s d)) (pages ++ l)) ->
  array ∈ heap s -> (exists src0, mm s = mm_migrating src0) -> Permutation (host s) (hosts ++ lh) ->
  wp M (complete_migration migrating d va npages array pages hosts src) s (fun res s' =>
    (res = 0 /\ cfg s s' /\ hw (devs s' d) = hw (devs s d) /\ maps s' = maps s /\
     mm s' = mm_locked /\ migr s' = migr s /\ dev_inv bpfn d s' /\ host s' = host s /\
     Permutation (live (devs s d)) (pages ++ live (devs s' d)) /\
     exists ok okm,
       Forall (node_answer faults) okm /\
       length okm = length (it_nodes (vmem_intervals (devs s d))) /\
       (if (ok : bool) then Permutation (heap s) (array :: heap s') else heap s' = heap s) /\
       vmem_intervals (devs s' d) =
         remove_vmem_interval okm (vmem_intervals (devs s d)) va npages) \/
    (res = - ENOMEM /\ exists lh', Permutation lh' lh /\
       s' = set_mm mm_locked (set_host lh' s))).
Proof.
  intros Hinv Hl Ha Hc Hh. unfold complete_migration. destruct (forallb migrating src).
  - apply wp_bind, wp_call; [done|]. intros ok s0 ->.
    apply wp_bind, wp_call; [done|]. intros [] s1 (l & Hl' & ->).
    pose proof (set_mem_only d (fun c => retire_pages ok (mem c) pages) (fun _ => l) s) as Hmo.
    set (s1 := upd d _ s) in *.
    assert (live (devs s1 d) = l /\ dev_inv bpfn d s1) as [Hl1 Hinv1].
    { unfold dev_inv, s1. rewrite devs_upd. split; [done|]. apply retire_preserves; try done.
      by eapply mem_inv_perm. }
    clearbody s1. destruct Hmo as [M1 M2 M3 _ _ _ M7 M8 M9 M10 M11 M13 M12 M14].
    apply wp_bind. eapply (wp_mono _ _ _ (fun _ s' => exists h, s' = set_heap h s1 /\
      if ok then Permutation (heap s) (array :: h) else h = heap s)).
    { unfold when. destruct ok; [|apply wp_ret; exists (heap s); split; [|done]; rewrite <- M8; by destruct s1].
      apply wp_call; [simpl; by rewrite M8|]. intros [] s2 (h & Hh' & ->). exists h.
      by rewrite <- M8. }
    intros [] s2 (h & -> & Hheap).
    apply wp_bind, wp_call; [simpl; by rewrite M11|]. intros [] s3 ->.
    wp_seq remove_interval_spec. intros [] s4 (okm & Hokm & Hlen & ->). apply wp_ret. left.
    unfold dev_inv in *. rewrite devs_upd. simpl. rewrite Hl1, M2, M3, M9, M10 in *.
    split_and!; try done.
    + split; [|unfold h2c; by rewrite devs_upd; simpl; rewrite M2|by rewrite devs_upd|done|done].
      intros d' Hd'. by rewrite devs_upd_ne; [apply M1|].
    + exists ok, okm. simpl in Hlen. by rewrite M3 in Hlen.
  - wp_seq free_pages_spec; [done|]. intros [] s1 (lh' & Hlh' & ->).
    apply wp_bind, wp_call; [done|]. intros [] s2 ->. apply wp_ret. right.
    split; [done|]. by exists lh'.
Qed.

Section Range.
Variables va npages : Z.
Hypothesis Hn : 0 < npages < 2 ^ 31.
Hypothesis Hva : 0 <= va /\ va + npages * PAGE_SIZE <= VA_MAX.

Lemma d2r_range_pages :
  u64 (va + npages * PAGE_SIZE) = va + npages * PAGE_SIZE /\
  (va + npages * PAGE_SIZE - va) / PAGE_SIZE = npages.
Proof.
  unfold VA_MAX in Hva. split.
  - apply u64_small. unfold PAGE_SIZE in *. lia.
  - replace (va + npages * PAGE_SIZE - va) with (npages * PAGE_SIZE) by lia.
    by apply Z.div_mul.
Qed.

(** From the transfer on: [s0] is the state before the attempt. *)
Lemma transfer_failed (res : Z) (dst : list (Z * Z)) (array : Z) (ts : list transfer)
    (s0 s : sys T) :
  res < 0 -> cfg s0 s -> mmu s d = mmu s0 d -> c2h s d = c2h s0 d ++ ts ->
  dev_inv bpfn d s -> live (devs s d) = live (devs s0 d) -> heap s = heap s0 ->
  vmem_intervals (devs s d) = vmem_intervals (devs s0 d) ->
  map snd dst = map dma_of (map fst dst) -> (exists src0, mm s = mm_migrating src0) ->
  Permutation (maps s) (map snd dst ++ maps s0) ->
  Permutation (host s) (map fst dst ++ host s0) ->
  wp M (fail_allocpage d dst;;; Ret (Some res)) s
    (fun o s' => exists r, o = Some r /\ ended r va npages array s0 s').
Proof.
  intros Hres Hcfg Hmm Hts Hinv Hl Hheap Ht Hd Hc Hm Hh.
  wp_seq (fail_allocpage_spec dst (maps s0) (host s0)); [done..|]. intros [] s1 (lm & lh & Hlm & Hlh & ->).
  apply wp_ret. exists res. split; [done|]. unfold ended. split_and!; try done; [destruct Hcfg; by split|].
  exists ts. split; [done|]. destruct (Z.eqb_spec res 0); [lia|]. done.
Qed.

Lemma filter_nonzero_dma (hosts : list Z) :
  List.filter nonzero (map dma_of hosts) = map dma_of hosts.
Proof.
  induction hosts as [|p hosts IH]; simpl; [done|]. unfold nonzero at 1.
  destruct (Z.eqb_spec (dma_of p) 0) as [E|_]; [specialize (Hdma p); lia|].
  simpl. by rewrite IH.
Qed.

Lemma d2r_attempt_spec (array : Z) (s : sys T) :
  dev_inv bpfn d s -> mm s = mm_locked -> array ∈ heap s ->
  wp M (attempt poll_fuel page_of migrating d va npages array) s (fun o s' =>
    match o with
    | Some res => ended res va npages array s s'
    | None => exists m, s' = set_mm mm_locked (set_migr m s)
    end).
Proof.
  intros Hinv Hc Ha. unfold attempt. destruct d2r_range_pages as [-> Hpages].
  apply wp_bind, wp_call; [simpl; split; [done|unfold PAGE_SIZE; lia]|].
  intros [[res cpages] src] s1. simpl. rewrite Hpages.
  destruct (Z.ltb_spec res 0) as [Hres|Hres].
  { intros ->. apply wp_ret. split_and!; try done. exists []. rewrite app_nil_r. split; [done|].
    destruct (Z.eqb_spec res 0); [lia|done]. }
  intros (_ & -> & Hsrc & Hcp & Hfull).
  destruct (Z.eqb_spec cpages npages) as [->|]; cbn [negb].
  2:{ apply wp_bind, wp_call; [by eexists|]. intros [] s1 ->. apply wp_ret. by eexists. }
  destruct (Hfull eq_refl) as (pages & l & Hpg & Hlive).
  assert (omap page_of src = pages) as ->.
  { clear -Hpg. revert pages Hpg. induction src as [|e src IH]; intros [|p ps] E; try done.
    simpl in E. injection E as E1 E2. simpl. rewrite E1. f_equal. by apply IH. }
  assert (Z.of_nat (length pages) = npages) as Hlen.
  { apply (f_equal length) in Hpg. rewrite !length_map in Hpg. lia. }
  wp_seq alloc_host_pages_spec. intros [dst res'] s2 (Hr & Hlend & Hd & lm & lh & Hlm & Hlh & ->).
  set (s2 := set_io lm lh _).
  unfold nonzero at 1. destruct (Z.eqb_spec res' 0) as [->|Hres']; cbn [negb].
  2:{ eapply wp_mono; [apply (transfer_failed res' dst array [] s s2)|];
      try done; try lia; try (by rewrite app_nil_r); try (by eexists);
      try (by split); try (intros o s3 (r & -> & H3); exact H3). }
  specialize (Hlend eq_refl).
  apply wp_bind, wp_call; [done|]. intros c s3 [-> ->].
  change (devs s2 d) with (devs s d). rewrite (inv_base _ _ _ Hinv).
  assert (items_ok bpfn (zip pages (map snd dst))) as Hitems.
  { apply Forall_forall. intros [q a] Hin. split; simpl.
    - apply elem_of_zip_l in Hin. destruct Hinv as [_ _ _ _ (_ & Hdev & _)].
      apply Hdev, elem_of_app. left. rewrite Hlive. apply elem_of_app. by left.
    - apply elem_of_zip_r in Hin. rewrite Hd in Hin.
      apply list_elem_of_fmap in Hin as (p & -> & _). specialize (Hdma p). lia. }
  wp_seq d2r_transfer_pages_spec; [done|].
  intros rt s4 (Hio & Hh4 & Hm4 & Hr4 & ts & Hts & Hplan).
  change (h2c s2 d) with (h2c s d) in Hh4. change (mmu s2 d) with (mmu s d) in Hm4.
  change (c2h s2 d) with (c2h s d) in Hts.
  assert (cfg s s4) as Hcfg4 by (split; [apply (io_other _ _ _ Hio)|done|apply (io_rdma _ _ _ Hio)|apply (io_busy _ _ _ Hio)|apply (io_reported _ _ _ Hio)]).
  assert (dev_inv bpfn d s4) as Hinv4.
  { unfold dev_inv. by rewrite (io_mem _ _ _ Hio), (io_live _ _ _ Hio). }
  unfold nonzero at 1. destruct (Z.eqb_spec rt 0) as [->|Hres2]; cbn [negb].
  2:{ eapply wp_mono; [apply (transfer_failed rt dst array ts s s4)|]; try done.
      - lia.
      - exact (io_live _ _ _ Hio).
      - exact (io_heap _ _ _ Hio).
      - exact (io_tree _ _ _ Hio).
      - rewrite (io_mm _ _ _ Hio). by eexists.
      - by rewrite (io_maps _ _ _ Hio).
      - by rewrite (io_host _ _ _ Hio).
      - intros o s5 (r & -> & H5). done. }
  wp_seq unmap_pages_spec.
  { rewrite Hd, filter_nonzero_dma, <- Hd. rewrite (io_maps _ _ _ Hio). exact Hlm. }
  intros [] s5 (lm' & Hlm' & ->).
  apply wp_bind, wp_call; [simpl; rewrite (io_mm _ _ _ Hio); by eexists|].
  intros src' s6 (src0 & _ & _ & ->).
  wp_seq (d2r_complete_spec va npages array pages (map fst dst) src' (host s)).
  { exact Hinv4. }
  { exists l. simpl. by rewrite (io_live _ _ _ Hio). }
  { simpl. by rewrite (io_heap _ _ _ Hio). }
  { by eexists. }
  { simpl. by rewrite (io_host _ _ _ Hio). }
  intros r s7 [(-> & Hcfg & Hhw & Hm7 & Hc7 & Hg7 & Hinv7 & Hh7 & Hl7 & ok & okm & Hok7 & Hlen7 & Hheap & Ht7)
    |(-> & lh' & Hlh' & ->)]; apply wp_ret; unfold ended; simpl in *.
  - split_and!; try done.
    + eapply cfg_trans; [exact Hcfg4|]. destruct Hcfg. by split.
    + unfold mmu in *. rewrite Hhw. exact Hm4.
    + by rewrite Hm7.
    + exists ts. split; [unfold c2h in *; rewrite Hhw; exact Hts|].
      exists pages, (map fst dst), ok, okm. rewrite <- Hd, Ht7, (io_tree _ _ _ Hio) in *.
      rewrite (io_live _ _ _ Hio) in Hl7. rewrite (io_heap _ _ _ Hio) in Hheap.
      rewrite length_map. split_and!; try done; [lia|by apply Hplan|by rewrite Hh7, (io_host _ _ _ Hio)|].
      rewrite Hg7, (io_migr _ _ _ Hio). simpl. by rewrite Hpg.
  - split_and!; try done; [destruct Hcfg4; by split|].
    exists ts. split; [done|]. split; [done|]. split_and!.
    + exact (io_live _ _ _ Hio).
    + exact Hlh'.
    + exact (io_heap _ _ _ Hio).
    + exact (io_tree _ _ _ Hio).
Qed.

Lemma d2r_retry_loop_spec (fuel : nat) (array retry_cnt : Z) (s : sys T) :
  dev_inv bpfn d s -> mm s = mm_locked -> array ∈ heap s ->
  - 2 ^ 31 <= retry_cnt < 2 ^ 31 - 1 -> 4 - retry_cnt < Z.of_nat fuel -> (0 < fuel)%nat ->
  wp M (retry_loop poll_fuel page_of migrating fuel d va npages array retry_cnt) s
    (fun res s' => ended res va npages array s s').
Proof.
  revert retry_cnt s. induction fuel as [|fuel IH]; [lia|].
  intros r s Hinv Hc Ha Hr Hf _. cbn [retry_loop].
  wp_seq d2r_attempt_spec; [done..|]. intros [res|] s1 H1; [by apply wp_ret|]. destruct H1 as [m ->].
  set (s1 := set_mm mm_locked (set_migr m s)).
  assert (forall res s', ended res va npages array s1 s' -> ended res va npages array s s') as Hback.
  { intros res s' (C & H). split; [destruct C; by split|exact H]. }
  rewrite (s32_small (r + 1)) by lia. rewrite Z.gtb_ltb. destruct (Z.ltb_spec 3 (r + 1)).
  - apply wp_ret, Hback. split_and!; try done. exists []. by rewrite app_nil_r.
  - eapply wp_mono; [apply IH; try done; lia|]. intros res s'. apply Hback.
Qed.

Lemma d2r_mmu_write (w : Z) (o : mmu_op) (s : sys T) :
  (forall v p, decode_mmu v p w = o) -> issues d [] [] [o] s (wr d mmu_cmd w s).
Proof. intros Ho. pose proof (wr_mmu d w s) as H. by rewrite Ho in H. Qed.

Lemma issues_cfg (ms : list mmu_op) (s s' : sys T) : issues d [] [] ms s s' -> cfg s s'.
Proof.
  intros (Hio & _ & Hh & _). rewrite app_nil_r in Hh.
  split; [apply (io_other _ _ _ Hio)|done|apply (io_rdma _ _ _ Hio)|apply (io_busy _ _ _ Hio)|apply (io_reported _ _ _ Hio)].
Qed.

(** The IOMMU is switched off, the range invalidated, and switched on again. *)
Definition fenced : list mmu_op := [Deactivate; Invalidate va (npages mod 65536); Activate].

Definition finished (res array : Z) (s s' : sys T) : Prop :=
  cfg s s' /\ (mmu s' d = mmu s d \/ mmu s' d = mmu s d ++ fenced) /\
  Permutation (maps s') (maps s) /\ mm s' = mm_locked /\
  dev_inv bpfn d s' /\ exists ts, c2h s' d = c2h s d ++ ts /\
  if res =? 0 then moved_out va npages array s s' ts /\ mmu s' d = mmu s d ++ fenced
  else res < 0 /\ stayed s s'.

Lemma d2r_range_spec (retry_cnt array : Z) (s : sys T) :
  dev_inv bpfn d s -> mm s = mm_locked -> array ∈ heap s -> (busy s < busy_fuel)%nat ->
  - 2 ^ 31 <= retry_cnt < 2 ^ 31 - 1 ->
  wp M (migrate_vma_range poll_fuel busy_fuel page_of migrating retry_cnt d va npages array) s
    (fun res s' => finished res array s s').
Proof.
  intros Hinv Hc Ha Hb Hr. unfold migrate_vma_range.
  apply wp_bind, wp_call; [simpl; congruence|]. intros [|] s0 ->.
  2:{ apply wp_ret. split_and!; try done; [by left|]. exists []. by rewrite app_nil_r. }
  apply wp_writeq. set (s1 := wr d mmu_cmd MMU_DEACTIVATE s).
  assert (issues d [] [] [Deactivate] s s1) as I1 by (by apply d2r_mmu_write).
  wp_seq invalidate_tlb_range_spec; [lia|]. intros [] s2 I2.
  pose proof (issues_trans _ _ _ _ _ _ _ _ _ _ I1 I2) as I12. simpl in I12.
  wp_seq wait_mmu_idle_spec.
  { unfold MMU_STATUS_ANY_MEM_ACCESS. lia. }
  { pose proof (cfg_busy _ _ (issues_cfg _ _ _ I12)). lia. }
  intros [] s3 Q3. pose proof (issues_trans _ _ _ _ _ _ _ _ _ _ I12 (quiet_issues _ _ _ Q3)) as I13.
  simpl in I13. clearbody s1. clear I1 I2 I12 Q3. pose proof I13 as (Hio & _ & _ & Hc3 & Hm3).
  rewrite app_nil_r in Hc3.
  wp_seq d2r_retry_loop_spec; try done; try lia.
  { unfold dev_inv. by rewrite (io_mem _ _ _ Hio), (io_live _ _ _ Hio). }
  { by rewrite (io_mm _ _ _ Hio). }
  { by rewrite (io_heap _ _ _ Hio). }
  intros res s4 (C4 & Hm4 & Hmp4 & Hc4 & Hi4 & ts & Hts & Hcase).
  apply wp_writeq, wp_ret. set (s5 := wr d mmu_cmd MMU_ACTIVATE s4).
  assert (issues d [] [] [Activate] s4 s5) as I5 by (by apply d2r_mmu_write).
  clearbody s5. pose proof I5 as (Hio5 & _ & _ & Hc5 & Hm5). rewrite app_nil_r in Hc5.
  assert (mmu s5 d = mmu s d ++ fenced) as Hmm by (rewrite Hm5, Hm4, Hm3, <- app_assoc; done).
  unfold finished, dev_inv.
  rewrite (io_mem _ _ _ Hio5), (io_live _ _ _ Hio5), (io_maps _ _ _ Hio5), (io_mm _ _ _ Hio5).
  split_and!; try done; [|by right|by rewrite Hmp4, (io_maps _ _ _ Hio)|].
  - eapply cfg_trans; [by eapply issues_cfg|]. eapply cfg_trans; [done|by eapply issues_cfg].
  - exists ts. split; [by rewrite Hc5, Hts, Hc3|].
    unfold moved_out, stayed in *.
    rewrite (io_live _ _ _ Hio5), (io_host _ _ _ Hio5), (io_heap _ _ _ Hio5), (io_tree _ _ _ Hio5), (io_migr _ _ _ Hio5).
    rewrite (io_live _ _ _ Hio), (io_host _ _ _ Hio), (io_heap _ _ _ Hio), (io_tree _ _ _ Hio) in Hcase.
    destruct (res =? 0); [split; done|done].
Qed.

(** What remains allocated: nothing, or the array of the pages when it could not
    be handed over. *)
Lemma dev_to_ram_spec (retry_cnt res0 : Z) (s : sys T) :
  dev_inv bpfn d s -> mm s = mm_locked -> (busy s < busy_fuel)%nat ->
  - 2 ^ 31 <= retry_cnt < 2 ^ 31 - 1 ->
  wp M (svm_migrate_dev_to_ram poll_fuel busy_fuel page_of migrating retry_cnt res0 d va npages) s
    (fun res s' =>
       (res = res0 /\ exists h, Permutation h (heap s) /\ s' = set_heap h s) \/
       exists array s0 s1 h0 h, s0 = set_heap h0 s /\ finished res array s0 s1 /\
         s' = set_heap h s1 /\
         (Permutation h (heap s) \/ res = 0 /\ Permutation h (array :: heap s))).
Proof.
  intros Hinv Hc Hb Hr. unfold svm_migrate_dev_to_ram.
  wp_seq kcalloc_arrays_spec. intros arrays s1 (h & Hh & ->).
  assert (wp M (kfree_arrays arrays;;; Ret res0) (set_heap h s) (fun res s' =>
    res = res0 /\ exists h, Permutation h (heap s) /\ s' = set_heap h s)) as Hfail.
  { wp_seq (kfree_arrays_spec _ _ _ _ _ _ _ (heap s)); [done|]. intros [] s2 (h' & Hh' & ->).
    apply wp_ret. split; [done|]. by exists h'. }
  destruct arrays as [|[a1|] [|[a2|] [|[a3|] [|[a4|] [|[a5|] [|]]]]]];
    try (eapply wp_mono; [exact Hfail|]; intros; by left).
  clear Hfail. simpl in Hh.
  wp_seq (d2r_range_spec retry_cnt a3 (set_heap h s)); try done.
  { simpl. rewrite Hh. set_solver. }
  intros res s2 Hfin. pose proof Hfin as (_ & _ & _ & _ & _ & ts & _ & Hcase).
  destruct (res =? 0) eqn:Eres.
  - destruct Hcase as ((pages & hosts & ok & okm & _ & _ & _ & _ & _ & _ & _ & _ & Hheap & _) & _).
    simpl in Hheap.
    assert (exists lost, Permutation (heap s2) ([a5; a4; a2; a1] ++ lost) /\
      (lost = heap s \/ lost = a3 :: heap s)) as (lost & Hlost & Hcase).
    { destruct ok.
      - exists (heap s). split; [|by left]. apply (Permutation_cons_inv (a := a3)).
        rewrite <- Hheap, Hh. solve_Permutation.
      - exists (a3 :: heap s). split; [|by right]. rewrite Hheap, Hh. solve_Permutation. }
    wp_seq (kfree_arrays_spec _ _ _ _ _ _ _ lost); [done|]. intros [] s3 (h' & Hh' & ->).
    apply wp_ret. right. exists a3, (set_heap h s), s2, h, h'. split_and!; try done.
    rewrite Hh'. apply Z.eqb_eq in Eres. destruct Hcase as [->| ->]; [by left|by right].
  - destruct Hcase as (_ & _ & _ & Hheap & _).
    wp_seq (kfree_arrays_spec _ _ _ _ _ _ _ (heap s)); [rewrite Hheap; exact Hh|].
    intros [] s3 (h' & Hh' & ->). apply wp_ret. right.
    exists a3, (set_heap h s), s2, h, h'. split_and!; try done. by left.
Qed.

End Range.
End Spec.

(** ** The properties *)
Section Properties.
Context {T : Type} {IT : IntervalTree T} {Laws : IntervalTreeLaws T}.
Variable poll_fuel busy_fuel : nat.
Variable page_of : Z -> option Z.
Variable migrating : Z -> bool.
Variable dma_of : Z -> Z.
Variable populated : Z -> bool.
Variable tick : Z.
Variable faults : kernel_faults.
Notation M := (svm_model page_of dma_of populated tick faults).

(** C16: svm_migrate_dev_to_ram, whatever the kernel and the hardware answer
    (DMA mappings that fail included): it terminates, uses every service legally,
    leaves no DMA mapping or set-up migration behind, the device's memory is
    consistent and other devices are untouched.  The IOMMU receives nothing, or
    is switched off, told to invalidate the range and switched on again.  After
    an error nothing has moved and all arrays and host pages are freed. *)
Theorem dev_to_ram_safe (bpfn d va npages retry_cnt res0 : Z) (s : sys T) :
  platform_ok poll_fuel dma_of tick -> range_ok va npages -> device_ok bpfn d s ->
  mm s = mm_locked -> (busy s < busy_fuel)%nat -> - 2 ^ 31 <= retry_cnt < 2 ^ 31 - 1 ->
  wp M (svm_migrate_dev_to_ram poll_fuel busy_fuel page_of migrating retry_cnt res0 d va npages) s (fun res s' =>
    Permutation (maps s') (maps s) /\ mm s' = mm_locked /\ device_ok bpfn d s' /\
    (forall d', d' <> d -> devs s' d' = devs s d') /\
    (mmu s' d = mmu s d \/ mmu s' d = mmu s d ++ fenced va npages) /\
    (res <> 0 -> live (devs s' d) = live (devs s d) /\ Permutation (host s') (host s) /\
       Permutation (heap s') (heap s) /\
       vmem_intervals (devs s' d) = vmem_intervals (devs s d))).
Proof.
  intros (Ht & Hp & Hd) (Hn & Hph & Hv) (Hb & Hb' & Hinv) Hc Hbusy Hr.
  assert (0 < npages < 2 ^ 31) as Hn'.
  { rewrite PHYS_MEM_SIZE_eq in Hph. unfold PAGE_SIZE in Hph. lia. }
  eapply wp_mono; [by apply (dev_to_ram_spec poll_fuel busy_fuel page_of migrating dma_of populated
    tick faults Ht Hp Hd d bpfn Hb Hb' va npages Hn' Hv)|].
  intros res s' [(-> & h & Hh & ->)|(array & s0 & s1 & h0 & h & -> & Hfin & -> & Hheap)].
  { split_and!; try done. by left. }
  destruct Hfin as (C & Hmm & Hm & Hc1 & Hi & ts & _ & Hcase). split_and!; try done.
  - exact (cfg_other _ _ _ C).
  - intros Hres. destruct (Z.eqb_spec res 0) as [->|]; [done|].
    destruct Hcase as (_ & Hl & Hho & _ & Htr). split_and!; try done.
    by destruct Hheap as [|[? _]].
Qed.

(** C17: when svm_migrate_dev_to_ram reports success, for a range of whole pages
    inside one interval present on the device (and provided [res], which the
    function does not initialise, did not hold 0 before): with pages the device
    pages that the kernel collected for the range, the one at index i for the i-th
    page from va on, the kernel was given fresh host pages to put in their places,
    in the same order; the transfers issued copy each device page exactly once to
    the bus address of the host page for the same address; the device pages are no
    longer in use (they are queued to be freed), the IOMMU has been told to
    invalidate the range while it was off, and the range is removed from the
    intervals of the device; the only allocation that can be left is the array of
    device pages. *)
Theorem dev_to_ram_moves (bpfn d va npages retry_cnt res0 : Z) (m : node) (s : sys T) :
  platform_ok poll_fuel dma_of tick -> range_ok va npages -> device_ok bpfn d s ->
  mm s = mm_locked -> (busy s < busy_fuel)%nat -> - 2 ^ 31 <= retry_cnt < 2 ^ 31 - 1 ->
  res0 <> 0 -> va mod PAGE_SIZE = 0 -> wf_nodes (it_nodes (vmem_intervals (devs s d))) ->
  m ∈ it_nodes (vmem_intervals (devs s d)) ->
  start m <= va -> va + npages * PAGE_SIZE <= last m + 1 ->
  wp M (svm_migrate_dev_to_ram poll_fuel busy_fuel page_of migrating retry_cnt res0 d va npages) s (fun res s' => res = 0 ->
    exists pages hosts ts,
      Permutation (live (devs s d)) (pages ++ live (devs s' d)) /\
      Z.of_nat (length pages) = npages /\ length hosts = length pages /\
      Permutation (host s') (hosts ++ host s) /\
      migr s' = mk_migration va (map Some pages) hosts /\
      c2h s' d = c2h s d ++ ts /\
      mbind pages_of ts = plan bpfn (zip pages (map dma_of hosts)) /\
      mmu s' d = mmu s d ++ fenced va npages /\
      (Permutation (heap s') (heap s) \/
       exists array, Permutation (heap s') (array :: heap s)) /\
      let t' := vmem_intervals (devs s' d) in
      wf_nodes (it_nodes t') /\
      forall x, va <= x < va + npages * PAGE_SIZE -> ~ covered (it_nodes t') x).
Proof.
  intros (Ht & Hp & Hd) (Hn & Hph & Hv) (Hb & Hb' & Hinv) Hc Hbusy Hr Hr0 Hal Hwf Hm Hsm Hlm.
  assert (0 < npages < 2 ^ 31) as Hn'.
  { rewrite PHYS_MEM_SIZE_eq in Hph. unfold PAGE_SIZE in Hph. lia. }
  eapply wp_mono; [by apply (dev_to_ram_spec poll_fuel busy_fuel page_of migrating dma_of populated
    tick faults Ht Hp Hd d bpfn Hb Hb' va npages Hn' Hv)|].
  intros res s' [(-> & _)|(array & s0 & s1 & h0 & h & -> & Hfin & -> & Hheap)] Hres; [done|].
  destruct Hfin as (C & _ & _ & _ & _ & ts & Hts & Hcase). subst res.
  destruct Hcase as ((pages & hosts & ok & okm & _ & _ & H1 & H2 & H3 & H4 & H5 & H6 & _ & H7) & Hmm).
  exists pages, hosts, ts. simpl in *.
  destruct (remove_vmem_interval_spec okm (vmem_intervals (devs s d)) m va npages) as [Hwf' Hcov];
    try done.
  change (devs (set_heap h s1)) with (devs s1). rewrite H7.
  split_and!; try done.
  - destruct Hheap as [|[_ ?]]; [by left|right]. by exists array.
  - intros x Hx Hcx. apply Hcov in Hcx as (_ & ? & _). done.
Qed.

End Properties.

(** svm_migrate_dev_to_ram leaves [res] unassigned when an array cannot be
    allocated: under a kernel that is out of memory its result is whatever that
    variable held, 0 (success) included, and nothing has been migrated. *)
Theorem dev_to_ram_uninitialised {T : Type} {IT : IntervalTree T} (poll_fuel busy_fuel : nat)
    (page_of : Z -> option Z) (migrating : Z -> bool) (retry_cnt res0 d va npages : Z)
    (s : sys T) :
  let starved X (e : svmE T X) s :=
    match e in svmE _ X return X * sys T with
    | kalloc => (None, s)
    | e => obliging _ e s
    end in
  run starved (svm_migrate_dev_to_ram poll_fuel busy_fuel page_of migrating retry_cnt res0 d va
                 npages) s = (res0, s).
Proof. reflexivity. Qed.

(** ** Witnesses *)

Lemma dev_to_ram_safe_witness :
  wp (svm_model Some (fun _ => 4096) (fun _ => true) 1000000 (mk_faults true true))
    (svm_migrate_dev_to_ram 1000 1 Some (fun _ => true) 0 7 0 65536 2) demo_sys2
    (fun res s' => Permutation (maps s') [] /\ mm s' = mm_locked).
Proof.
  eapply wp_mono; [apply (dev_to_ram_safe 1000 1 Some (fun _ => true) (fun _ => 4096)
    (fun _ => true) 1000000 (mk_faults true true) 1048576 0 65536 2 0 7 demo_sys2 demo_platform)|].
  - unfold range_ok. split_and!; vm_compute; congruence.
  - apply demo_device2.
  - reflexivity.
  - apply Nat.lt_0_1.
  - split; vm_compute; congruence.
  - intros res s' (H1 & H2 & _). split; [exact H1|exact H2].
Defined.

Lemma dev_to_ram_moves_witness :
  wp (svm_model Some (fun _ => 4096) (fun _ => true) 1000000 (mk_faults true true))
    (svm_migrate_dev_to_ram 1000 1 Some (fun _ => true) 0 7 0 65536 2) demo_sys2
    (fun res s' => res = 0 -> ~ covered (it_nodes (vmem_intervals (devs s' 0))) 65536).
Proof.
  eapply wp_mono; [apply (dev_to_ram_moves 1000 1 Some (fun _ => true) (fun _ => 4096)
    (fun _ => true) 1000000 (mk_faults true true) 1048576 0 65536 2 0 7 (mk_node 65536 73727) demo_sys2
    demo_platform)|].
  - unfold range_ok. split_and!; vm_compute; congruence.
  - apply demo_device2.
  - reflexivity.
  - apply Nat.lt_0_1.
  - split; vm_compute; congruence.
  - lia.
  - reflexivity.
  - apply demo_tree2_wf.
  - by apply list_elem_of_singleton.
  - vm_compute. congruence.
  - vm_compute. congruence.
  - intros res s' H Hres.
    destruct (H Hres) as (pages & hosts & ts & _ & _ & _ & _ & _ & _ & _ & _ & _ & Hx).
    apply Hx. vm_compute. split; congruence.
Defined.

End DevToRam.
