(* ===== verification/DevToDev.v ===== *)
(** * Migration of pages between devices (svm_migrate_dev_to_dev)

    The three ways to copy pages from one device to another (over the network,
    PCIe endpoint to endpoint, through a buffer in host memory) and the function
    that uses them. *)
From S2P Require Import Prelude Kernel.
From S2P Require Import DevMem DevPages Intervals SvmHw SvmSys SvmIo SvmCopy.

Module DevToDev.
Import Kernel DevMem DevPages Intervals SvmHw SvmSys SvmIo SvmCopy.
Open Scope prog_scope.

(** ** The functions *)

(** The while loop that extends a run of contiguous source pages, up to [limit]
    pages. *)
Fixpoint page_run (limit last : Z) (rest : list Z) (n : Z) : Z :=
  match rest with
  | q :: rest' =>
      if (n <? limit) && is_contiguous_page q last then page_run limit q rest' (n + 1) else n
  | [] => n
  end.

Section Code.
Context {T : Type} {IT : IntervalTree T}.
Notation P := (prog (svmE T)).
Variable poll_fuel busy_fuel : nat.
Variable page_of : Z -> option Z.
Variable migrating : Z -> bool.

(** ** Over the network *)

(** Prepare the destination for receiving pages i .. npages-1. *)
Fixpoint receive_loop (fuel : nat) (dst dst_base i npages : Z) : P unit :=
  if i <? npages then
    match fuel with
    | O => call hang
    | S fuel' =>
        let ncontiguous := Z.min (npages - i) PAGE_DMA_MAX_NPAGES in
        init_h2c_dma dst 0 (u64 (dst_base + i * PAGE_SIZE)) ncontiguous false true;;;
        receive_loop fuel' dst dst_base (i + ncontiguous) npages
    end
  else Ret tt.

Fixpoint send_loop (fuel : nat) (src bpfn : Z) (pages : list Z) : P unit :=
  match pages with
  | [] => Ret tt
  | q :: rest =>
      match fuel with
      | O => call hang
      | S fuel' =>
          let ncontiguous := page_run PAGE_DMA_MAX_NPAGES q rest 1 in
          init_c2h_dma src 0 (pfn_to_dev_addr bpfn q) ncontiguous true;;;
          send_loop fuel' src bpfn (drop (Z.to_nat ncontiguous) pages)
      end
  end.

Definition copy_dev_to_dev_network (src dst : Z) (src_pages dst_pages : list Z) (npages : Z)
    : P Z :=
  let! cs := call (get_dev src) in
  let! cd := call (get_dev dst) in
  let dst_base := pfn_to_dev_addr (base_pfn (mem cd)) (hd 0 dst_pages) in
  call (writeq src dst_mac (mac_addr cd));;;
  receive_loop (Z.to_nat (npages / PAGE_DMA_MAX_NPAGES + 1)) dst dst_base 0 npages;;;
  send_loop (length src_pages) src (base_pfn (mem cs)) src_pages;;;
  let! res := wait_for_h2c_intr poll_fuel dst (npages <? PAGE_DMA_POLL_LIMIT) in
  if nonzero res then Ret res else Ret 0.

(** ** PCIe endpoint to endpoint *)

Fixpoint push_loop (fuel : nat) (src bpfn dst_base i cmd_cnt : Z) (pages : list Z) : P Z :=
  match pages with
  | [] => Ret 0
  | q :: rest =>
      match fuel with
      | O => call hang;;; Ret 0
      | S fuel' =>
          let ncontiguous := page_run PAGE_DMA_MAX_NPAGES q rest 1 in
          let! (res, cmd_cnt) := throttle poll_fuel true src cmd_cnt in
          if nonzero res then Ret res
          else
            init_c2h_dma src (u64 (dst_base + i * PAGE_SIZE)) (pfn_to_dev_addr bpfn q) ncontiguous
              false;;;
            push_loop fuel' src bpfn dst_base (i + ncontiguous) (cmd_cnt + 1)
              (drop (Z.to_nat ncontiguous) pages)
      end
  end.

Definition copy_dev_to_dev_pcie_e2e (src dst : Z) (src_pages dst_pages : list Z) (npages : Z)
    : P Z :=
  let! cs := call (get_dev src) in
  let! cd := call (get_dev dst) in
  let dst_base :=
    u64 (rdma_bar cd + pfn_to_dev_addr (base_pfn (mem cd)) (hd 0 dst_pages)) in
  let! res := push_loop (length src_pages) src (base_pfn (mem cs)) dst_base 0 0 src_pages in
  if nonzero res then Ret res else
  let! res := wait_for_c2h_intr poll_fuel src (npages <? PAGE_DMA_POLL_LIMIT) in
  if nonzero res then Ret res else Ret 0.

(** ** Through a buffer *)

(** Fill the buffer with pages of the source: the result code and the number
    of pages moved ([move_cnt]). *)
Fixpoint fill_loop (fuel : nat) (src bpfn buf_addr move_cnt cmd_cnt : Z) (pages : list Z)
    : P (Z * Z) :=
  match pages with
  | [] => Ret (0, move_cnt)
  | q :: rest =>
      if move_cnt <? DEV_TO_DEV_DMA_MAX_NPAGES then
        match fuel with
        | O => call hang;;; Ret (0, move_cnt)
        | S fuel' =>
            let ncontiguous :=
              page_run (Z.min (DEV_TO_DEV_DMA_MAX_NPAGES - move_cnt) PAGE_DMA_MAX_NPAGES)
                q rest 1 in
            let! (res, cmd_cnt) := throttle poll_fuel true src cmd_cnt in
            if nonzero res then Ret (res, move_cnt)
            else
              init_c2h_dma src (u64 (buf_addr + move_cnt * PAGE_SIZE)) (pfn_to_dev_addr bpfn q)
                ncontiguous false;;;
              fill_loop fuel' src bpfn buf_addr (move_cnt + ncontiguous) (cmd_cnt + 1)
                (drop (Z.to_nat ncontiguous) pages)
        end
      else Ret (0, move_cnt)
  end.

(** while (copied_pages < npages); the lists are the pages still to be copied. *)
Fixpoint buffer_loop (fuel : nat) (src dst bpfn_src bpfn_dst buf_addr : Z)
    (src_pages dst_pages : list Z) : P Z :=
  match src_pages with
  | [] => Ret 0
  | _ =>
      match fuel with
      | O => call hang;;; Ret 0
      | S fuel' =>
          let! (res, move_cnt) :=
            fill_loop (length src_pages) src bpfn_src buf_addr 0 0 src_pages in
          if nonzero res then Ret res else
          let! res := wait_for_c2h_intr poll_fuel src (move_cnt <? PAGE_DMA_POLL_LIMIT) in
          if nonzero res then Ret res else
          init_h2c_dma dst buf_addr (pfn_to_dev_addr bpfn_dst (hd 0 dst_pages)) move_cnt
            false false;;;
          let! res := wait_for_h2c_intr poll_fuel dst (move_cnt <? PAGE_DMA_POLL_LIMIT) in
          if nonzero res then Ret res else
          buffer_loop fuel' src dst bpfn_src bpfn_dst buf_addr
            (drop (Z.to_nat move_cnt) src_pages) (drop (Z.to_nat move_cnt) dst_pages)
      end
  end.

(** [dma_map_page] stands for dma_map_single of the buffer. *)
Definition copy_dev_to_dev_buffered (src dst : Z) (src_pages dst_pages : list Z) : P Z :=
  let! buf := call kalloc in
  match buf with
  | None => Ret (- ENOMEM)
  | Some buf =>
      let! r := call (dma_map_page dst buf) in
      match r with
      | None =>
          call (dma_unmap_failed dst);;;
          call (kfree buf);;;
          Ret (- EACCES)
      | Some buf_addr =>
          let! cs := call (get_dev src) in
          let! cd := call (get_dev dst) in
          let! res := buffer_loop (length src_pages) src dst (base_pfn (mem cs)) (base_pfn (mem cd))
                        buf_addr src_pages dst_pages in
          call (dma_unmap_page dst buf_addr);;;
          call (kfree buf);;;
          Ret res
      end
  end.

(** ** The migration *)

(** Choose the copy method, copy, and check the status registers. *)
Definition copy_pages (src dst : Z) (src_pages dst_pages : list Z) (npages : Z) : P Z :=
  let! cs := call (get_dev src) in
  let! cd := call (get_dev dst) in
  let! res :=
    if network_dma_enabled cs && network_dma_enabled cd
    then copy_dev_to_dev_network src dst src_pages dst_pages npages
    else if nonzero (rdma_bar cd)
    then copy_dev_to_dev_pcie_e2e src dst src_pages dst_pages npages
    else copy_dev_to_dev_buffered src dst src_pages dst_pages in
  if nonzero res then Ret res else
  let! v := call (readq src c2h_status_ctrl) in
  if nonzero (Z.land v PAGE_DMA_STAT_ERROR_FLAGS) then Ret (- EACCES) else
  let! v := call (readq dst h2c_status_ctrl) in
  if nonzero (Z.land v PAGE_DMA_STAT_ERROR_FLAGS) then Ret (- EACCES) else Ret 0.

(** After the copy: [array] is the array src_pages. *)
Definition complete_migration (src dst va npages array : Z) (src_pages dst_pages msrc : list Z)
    : P Z :=
  if forallb migrating msrc then
    let! cd := call (get_dev dst) in
    add_tlb_entries dst (base_pfn (mem cd)) va (hd 0 dst_pages) npages;;;
    let! ok := call kmalloc_ok in
    call (retire src src_pages ok);;;
    when ok (call (hand_over array));;;
    call migrate_vma_finalize;;;
    remove_interval src va npages;;;
    insert_interval dst va npages;;;
    Ret 0
  else
    put_pages dst dst_pages;;;
    call migrate_vma_finalize;;;
    Ret (- ENOMEM).

(** From the label retry on; [None] stands for goto retry. *)
Definition attempt (src dst va npages array : Z) : P (option Z) :=
  let! (res, cpages, msrc) :=
    call (migrate_vma_setup src true va (u64 (va + npages * PAGE_SIZE))) in
  if res <? 0 then Ret (Some res) else
  if negb (cpages =? npages) then call migrate_vma_finalize;;; Ret None else
  let! r := call (alloc_pages dst npages) in
  match r with
  | None => call migrate_vma_finalize;;; Ret (Some (- ENOMEM))
  | Some dst_pages =>
      let src_pages := omap page_of msrc in
      let! res := copy_pages src dst src_pages dst_pages npages in
      if nonzero res then
        put_pages dst dst_pages;;;
        call migrate_vma_finalize;;;
        Ret (Some res)
      else
        let! msrc := call (migrate_vma_pages dst_pages) in
        let! res := complete_migration src dst va npages array src_pages dst_pages msrc in
        Ret (Some res)
  end.

Fixpoint retry_loop (fuel : nat) (src dst va npages array retry_cnt : Z) : P Z :=
  match fuel with
  | O => call hang;;; Ret 0
  | S fuel' =>
      let! o := attempt src dst va npages array in
      match o with
      | Some res => Ret res
      | None =>
          let retry_cnt := s32 (retry_cnt + 1) in
          if retry_cnt >? 3 then Ret (- ENOMEM)
          else retry_loop fuel' src dst va npages array retry_cnt
      end
  end.

(** From the search for the VMA on. *)
Definition migrate_vma_range (retry_cnt src dst va npages array : Z) : P Z :=
  let! found := call (find_vma_intersection dst va (u64 (va + npages * PAGE_SIZE))) in
  if found then
    call (writeq src mmu_cmd MMU_DEACTIVATE);;;
    invalidate_tlb_range src va npages;;;
    wait_mmu_idle busy_fuel src MMU_STATUS_ANY_MEM_ACCESS;;;
    call (writeq src mmu_cmd MMU_ACTIVATE);;;
    retry_loop (S (Z.to_nat (4 - retry_cnt))) src dst va npages array retry_cnt
  else Ret (- EFAULT).

(** svm_migrate_dev_to_dev; the arrays are migrate.src, migrate.dst, src_pages
    and dst_pages. *)
Definition svm_migrate_dev_to_dev (retry_cnt src dst va npages : Z) : P Z :=
  let! arrays := kcalloc_arrays 4 in
  match arrays with
  | [Some msrc; Some mdst; Some src_pages; Some dst_pages] =>
      let! res := migrate_vma_range retry_cnt src dst va npages src_pages in
      kfree_arrays (if res =? 0 then [Some dst_pages; Some mdst; Some msrc] else arrays);;;
      Ret res
  | _ => kfree_arrays arrays;;; Ret (- ENOMEM)
  end.

End Code.

(** ** What is copied *)

(** Consecutive page addresses. *)
Definition page_addrs (base i n : Z) : list Z := map (fun j => base + j * PAGE_SIZE) (seqZ i n).

Lemma page_addrs_app (base i n k : Z) :
  0 <= n -> 0 <= k -> page_addrs base i (n + k) = page_addrs base i n ++ page_addrs base (i + n) k.
Proof. intros. unfold page_addrs. rewrite seqZ_app by done. apply map_app. Qed.

Lemma length_page_addrs (base i n : Z) : length (page_addrs base i n) = Z.to_nat n.
Proof. unfold page_addrs. by rewrite length_map, length_seqZ. Qed.

Lemma page_addrs_shift (base i n k : Z) :
  page_addrs (base + k * PAGE_SIZE) i n = page_addrs base (k + i) n.
Proof.
  unfold page_addrs, seqZ. rewrite !map_map. apply map_ext. intros j. unfold PAGE_SIZE. lia.
Qed.

Lemma page_run_spec (rest : list Z) (limit q n : Z) :
  n <= limit ->
  exists k : nat, page_run limit q rest n = n + Z.of_nat k /\ (k <= length rest)%nat /\
    n + Z.of_nat k <= limit /\ forall j, (j < k)%nat -> rest !! j = Some (q + Z.of_nat (S j)).
Proof.
  revert q n. induction rest as [|q' rest IH]; intros q n Hn; simpl.
  - exists 0%nat. split_and!; lia.
  - destruct (Z.ltb_spec n limit); simpl; [|exists 0%nat; split_and!; lia].
    unfold is_contiguous_page. destruct (Z.eqb_spec q' (q + 1)) as [->|];
      [|exists 0%nat; split_and!; lia].
    destruct (IH (q + 1) (n + 1)) as (k & Hk & Hlen & Hmax & Hrun); [lia|].
    exists (S k). split_and!; try lia. intros [|j] Hj; simpl; [f_equal; lia|].
    rewrite Hrun by lia. f_equal. lia.
Qed.

(** The source addresses of device pages. *)
Definition sources (bpfn : Z) (pages : list Z) : list (option Z) :=
  map (fun q => Some (pfn_to_dev_addr bpfn q)) pages.

(** The transfer of a run reads the pages of the run. *)
Lemma run_pages (bpfn limit q h : Z) (w : bool) (rest : list Z) :
  0 < limit -> Forall (dev_pfn bpfn) (q :: rest) ->
  let n := page_run limit q rest 1 in
  0 < n <= limit /\ n <= Z.of_nat (length (q :: rest)) /\
  pages_of (mk_transfer (pfn_to_dev_addr bpfn q) h n false w) =
  zip (sources bpfn (take (Z.to_nat n) (q :: rest))) (page_addrs h 0 n).
Proof.
  intros Hlim Hdev. cbv zeta.
  destruct (page_run_spec rest limit q 1) as (k & -> & Hlen & Hmax & Hrun); [lia|].
  split_and!; [lia|done|simpl; lia|]. unfold pages_of, sources, page_addrs. simpl t_npages.
  apply list_eq. intros j. rewrite lookup_zip_with, !list_lookup_fmap.
  destruct (decide (j < S k)%nat) as [Hj|Hj].
  - rewrite lookup_seqZ_lt, lookup_take_lt by lia. simpl.
    assert ((q :: rest) !! j = Some (q + Z.of_nat j)) as Ej.
    { destruct j as [|j]; simpl; [f_equal; lia|]. by rewrite Hrun by lia. }
    rewrite Ej. simpl. apply f_equal. f_equal. f_equal.
    pose proof (list_elem_of_lookup_2 _ _ _ Ej) as Hin.
    rewrite Forall_forall in Hdev. pose proof (Hdev _ Hin) as Hqj.
    assert (dev_pfn bpfn q) as Hq by (apply Hdev; by left).
    rewrite !pfn_to_dev_addr_eq by done. unfold PAGE_SIZE. lia.
  - rewrite (lookup_ge_None_2 (seqZ _ _)) by (rewrite length_seqZ; lia). simpl.
    rewrite (lookup_ge_None_2 (take _ _)) by (rewrite length_take; simpl; lia). done.
Qed.

Lemma zip_app_eq {A B} (l1 l2 : list A) (k1 k2 : list B) :
  length l1 = length k1 -> zip (l1 ++ l2) (k1 ++ k2) = zip l1 k1 ++ zip l2 k2.
Proof. intros H. by rewrite zip_with_app. Qed.

Section Spec.
Context {T : Type} {IT : IntervalTree T}.
#[local] Set Default Proof Using "All".
Variable poll_fuel busy_fuel : nat.
Variable page_of : Z -> option Z.
Variable migrating : Z -> bool.
Variable dma_of : Z -> Z.
Variable populated : Z -> bool.
Variable tick : Z.
Variable faults : kernel_faults.
Hypothesis Htick : 0 < tick.
Hypothesis Hpoll : 1000000000 <= Z.of_nat poll_fuel * tick.
Hypothesis Hdma : forall p, 0 < dma_of p < 2 ^ 48.
Variables a b bpa bpb : Z.
Hypothesis Hab : a <> b.
Hypothesis bpa_ok : 0 <= bpa /\ bpa + PHYS_MEM_SIZE / PAGE_SIZE <= 2 ^ 64.
Hypothesis bpb_ok : 0 <= bpb /\ bpb + PHYS_MEM_SIZE / PAGE_SIZE <= 2 ^ 64.
Notation M := (svm_model page_of dma_of populated tick faults).

Lemma push_loop_spec (fuel : nat) (base i cmd_cnt : Z) (pages : list Z) (s : sys T) :
  Forall (dev_pfn bpa) pages -> (length pages <= fuel)%nat ->
  0 <= base -> 0 <= i -> base + (i + Z.of_nat (length pages)) * PAGE_SIZE <= 2 ^ 64 ->
  wp M (push_loop poll_fuel fuel a bpa base i cmd_cnt pages) s (fun res s' =>
    copied_c2h a res (zip (sources bpa pages) (page_addrs base i (Z.of_nat (length pages)))) s s').
Proof.
  intros Hdev Hf Hb. revert i cmd_cnt pages s Hdev Hf.
  induction fuel as [|fuel IH]; intros i cmd_cnt [|q rest] s Hdev Hf Hi Hmax;
    cbn [push_loop]; try (simpl in Hf; lia).
  1,2: apply wp_ret; split_and!; try done; exists []; by rewrite app_nil_r.
  destruct (run_pages bpa PAGE_DMA_MAX_NPAGES q (base + i * PAGE_SIZE) false rest)
    as (Hk & Hlen & Hpages); [unfold PAGE_DMA_MAX_NPAGES; lia|done|].
  set (k := page_run PAGE_DMA_MAX_NPAGES q rest 1) in *.
  wp_seq throttle_spec; [done|done|]. intros [res cnt] s1 H1. apply waited_copied_c2h in H1.
  unfold nonzero. destruct (Z.eqb_spec res 0) as [->|Hres]; cbn [negb].
  2:{ apply wp_ret. by eapply copied_c2h_failed. }
  rewrite (u64_small (base + i * PAGE_SIZE)) by (simpl length in *; unfold PAGE_SIZE in *; lia).
  wp_seq init_c2h_dma_spec; [done|]. intros [] s2 (a0 & Ha0 & Hiss). rewrite (Ha0 eq_refl) in Hiss.
  assert (copied_c2h a 0 (zip (sources bpa (take (Z.to_nat k) (q :: rest)))
    (page_addrs base i k)) s1 s2) as H2.
  { destruct Hiss as (Hio & _ & Hh & Hc & Hm). rewrite app_nil_r in *.
    split_and!; try done. eexists. split; [done|]. intros _.
    simpl mbind. rewrite app_nil_r, Hpages, page_addrs_shift. do 2 f_equal. lia. }
  pose proof (copied_c2h_trans _ _ _ _ _ _ _ H1 H2) as H12.
  rewrite <- (take_drop (Z.to_nat k) (q :: rest)) in Hdev. apply Forall_app in Hdev as [_ Hdev].
  assert (length (drop (Z.to_nat k) (q :: rest)) = (length (q :: rest) - Z.to_nat k)%nat) as Hdl
    by apply length_drop.
  eapply wp_mono; [apply (IH (i + k)); [done|rewrite Hdl; simpl length in *; lia|lia|]|].
  { rewrite Hdl, Nat2Z.inj_sub, Z2Nat.id by lia. unfold PAGE_SIZE in *. lia. }
  intros res s3 H3. pose proof (copied_c2h_trans _ _ _ _ _ _ _ H12 H3) as H13. simpl app in H13.
  rewrite <- (take_drop (Z.to_nat k) (q :: rest)) at 1.
  replace (Z.of_nat (length (q :: rest))) with (k + Z.of_nat (length (drop (Z.to_nat k) (q :: rest))))
    by (rewrite Hdl, Nat2Z.inj_sub, Z2Nat.id by lia; lia).
  rewrite page_addrs_app by lia. unfold sources in *. rewrite map_app, zip_app_eq; [done|].
  rewrite length_map, length_page_addrs, length_take. lia.
Qed.

Lemma send_loop_spec (fuel : nat) (pages : list Z) (s : sys T) :
  Forall (dev_pfn bpa) pages -> (length pages <= fuel)%nat ->
  wp M (send_loop fuel a bpa pages) s (fun _ s' => exists dsts,
    length dsts = length pages /\ copied_c2h a 0 (zip (sources bpa pages) dsts) s s').
Proof.
  intros Hdev Hf. revert pages s Hdev Hf.
  induction fuel as [|fuel IH]; intros [|q rest] s Hdev Hf;
    cbn [send_loop]; try (simpl in Hf; lia).
  1,2: apply wp_ret; exists []; split; [done|]; split_and!; try done; exists [];
    by rewrite app_nil_r.
  destruct (run_pages bpa PAGE_DMA_MAX_NPAGES q 0 true rest)
    as (Hk & Hlen & _); [unfold PAGE_DMA_MAX_NPAGES; lia|done|].
  set (k := page_run PAGE_DMA_MAX_NPAGES q rest 1) in *.
  wp_seq init_c2h_dma_spec; [done|]. intros [] s2 (a0 & _ & Hiss).
  destruct (run_pages bpa PAGE_DMA_MAX_NPAGES q a0 true rest)
    as (_ & _ & Hpages); [unfold PAGE_DMA_MAX_NPAGES; lia|done|]. fold k in Hpages.
  assert (copied_c2h a 0 (zip (sources bpa (take (Z.to_nat k) (q :: rest)))
    (page_addrs a0 0 k)) s s2) as H2.
  { destruct Hiss as (Hio & _ & Hh & Hc & Hm). rewrite app_nil_r in *.
    split_and!; try done. eexists. split; [done|]. intros _.
    simpl mbind. by rewrite app_nil_r, Hpages. }
  rewrite <- (take_drop (Z.to_nat k) (q :: rest)) in Hdev. apply Forall_app in Hdev as [_ Hdev].
  eapply wp_mono; [apply IH; [done|rewrite length_drop; simpl length in *; lia]|].
  intros [] s3 (dsts & Hd & H3). pose proof (copied_c2h_trans _ _ _ _ _ _ _ H2 H3) as H13.
  exists (page_addrs a0 0 k ++ dsts). split.
  { rewrite length_app, length_page_addrs, Hd, length_drop. lia. }
  rewrite <- (take_drop (Z.to_nat k) (q :: rest)) at 1.
  unfold sources in *. rewrite map_app, zip_app_eq; [done|].
  rewrite length_map, length_page_addrs, length_take. lia.
Qed.

Lemma receive_loop_spec (fuel : nat) (base i npages : Z) (s : sys T) :
  0 <= i <= npages -> npages - i <= Z.of_nat fuel * PAGE_DMA_MAX_NPAGES ->
  0 <= base -> base + npages * PAGE_SIZE <= 2 ^ 64 ->
  wp M (receive_loop fuel b base i npages) s (fun _ s' => exists srcs,
    length srcs = Z.to_nat (npages - i) /\
    copied_h2c b 0 (zip srcs (page_addrs base i (npages - i))) s s').
Proof.
  intros Hi Hf Hb Hmax. revert i s Hi Hf.
  induction fuel as [|fuel IH]; intros i s Hi Hf; cbn [receive_loop];
    (destruct (Z.ltb_spec i npages) as [Hlt|Hge];
     [|apply wp_ret; replace (npages - i) with 0 by lia; exists []; split; [done|];
       split_and!; try done; exists []; by rewrite app_nil_r]).
  { simpl in Hf. lia. }
  set (k := Z.min (npages - i) PAGE_DMA_MAX_NPAGES).
  assert (0 < k <= PAGE_DMA_MAX_NPAGES /\ k <= npages - i) as [Hk Hk'].
  { unfold k, PAGE_DMA_MAX_NPAGES in *. lia. }
  rewrite (u64_small (base + i * PAGE_SIZE)) by (unfold PAGE_SIZE in *; lia).
  wp_seq init_h2c_dma_spec; [done|]. intros [] s2 (a0 & _ & Hiss).
  assert (copied_h2c b 0 (zip (map Some (page_addrs a0 0 k)) (page_addrs base i k)) s s2) as H2.
  { destruct Hiss as (Hio & _ & Hh & Hc & Hm). rewrite app_nil_r in *.
    split_and!; try done. eexists. split; [done|]. intros _. simpl mbind. rewrite app_nil_r.
    replace (page_addrs base i k) with (page_addrs (base + i * PAGE_SIZE) 0 k)
      by (rewrite page_addrs_shift; f_equal; lia).
    unfold pages_of, page_addrs. simpl. apply list_eq. intros j.
    rewrite lookup_zip_with, !list_lookup_fmap. by destruct (seqZ 0 k !! j). }
  eapply wp_mono; [apply (IH (i + k)); [lia|unfold k, PAGE_DMA_MAX_NPAGES in *; lia]|].
  intros [] s3 (srcs & Hs & H3). pose proof (copied_h2c_trans _ _ _ _ _ _ _ H2 H3) as H13.
  exists (map Some (page_addrs a0 0 k) ++ srcs). split.
  { rewrite length_app, length_map, length_page_addrs, Hs. lia. }
  replace (npages - i) with (k + (npages - (i + k))) by lia.
  rewrite page_addrs_app, zip_app_eq by (lia || by rewrite length_map, !length_page_addrs).
  exact H13.
Qed.

Lemma fill_loop_spec (fuel : nat) (buf m cmd_cnt : Z) (pages : list Z) (s : sys T) :
  Forall (dev_pfn bpa) pages -> (length pages <= fuel)%nat ->
  0 <= buf < 2 ^ 48 -> 0 <= m <= DEV_TO_DEV_DMA_MAX_NPAGES ->
  wp M (fill_loop poll_fuel fuel a bpa buf m cmd_cnt pages) s (fun '(res, m') s' =>
    let k := Z.min (DEV_TO_DEV_DMA_MAX_NPAGES - m) (Z.of_nat (length pages)) in
    (res = 0 -> m' = m + k) /\
    copied_c2h a res (zip (sources bpa (take (Z.to_nat k) pages)) (page_addrs buf m k)) s s').
Proof.
  intros Hdev Hf Hb. revert m cmd_cnt pages s Hdev Hf.
  assert (forall m (pages : list Z) (s : sys T),
    let k := Z.min (DEV_TO_DEV_DMA_MAX_NPAGES - m) (Z.of_nat (length pages)) in k = 0 ->
    (0 = 0 -> m = m + k) /\
    copied_c2h a 0 (zip (sources bpa (take (Z.to_nat k) pages)) (page_addrs buf m k)) s s) as Hz.
  { intros m pages s k ->. split; [lia|]. split_and!; try done. exists [].
    by rewrite app_nil_r. }
  induction fuel as [|fuel IH]; intros m cmd_cnt [|q rest] s Hdev Hf Hm;
    cbn [fill_loop]; try (simpl in Hf; lia).
  1,2: apply wp_ret; apply Hz; simpl; unfold DEV_TO_DEV_DMA_MAX_NPAGES in *; lia.
  destruct (Z.ltb_spec m DEV_TO_DEV_DMA_MAX_NPAGES) as [Hlt|Hge].
  2:{ apply wp_ret. apply Hz. simpl. unfold DEV_TO_DEV_DMA_MAX_NPAGES in *. lia. }
  set (limit := Z.min (DEV_TO_DEV_DMA_MAX_NPAGES - m) PAGE_DMA_MAX_NPAGES).
  assert (0 < limit <= PAGE_DMA_MAX_NPAGES /\ limit = DEV_TO_DEV_DMA_MAX_NPAGES - m) as [Hl1 Hl2].
  { unfold limit, PAGE_DMA_MAX_NPAGES, DEV_TO_DEV_DMA_MAX_NPAGES in *. lia. }
  destruct (run_pages bpa limit q (buf + m * PAGE_SIZE) false rest)
    as (Hk & Hlen & Hpages); [lia|done|].
  set (k := page_run limit q rest 1) in *.
  wp_seq throttle_spec; [done|done|]. intros [res cnt] s1 H1. apply waited_copied_c2h in H1.
  unfold nonzero. destruct (Z.eqb_spec res 0) as [->|Hres]; cbn [negb].
  2:{ apply wp_ret. split; [done|]. by eapply copied_c2h_failed. }
  rewrite (u64_small (buf + m * PAGE_SIZE))
    by (unfold PAGE_SIZE, DEV_TO_DEV_DMA_MAX_NPAGES in *; lia).
  wp_seq init_c2h_dma_spec; [lia|]. intros [] s2 (a0 & Ha0 & Hiss). rewrite (Ha0 eq_refl) in Hiss.
  assert (copied_c2h a 0 (zip (sources bpa (take (Z.to_nat k) (q :: rest)))
    (page_addrs buf m k)) s1 s2) as H2.
  { destruct Hiss as (Hio & _ & Hh & Hc & Hm'). rewrite app_nil_r in *.
    split_and!; try done. eexists. split; [done|]. intros _.
    simpl mbind. rewrite app_nil_r, Hpages, page_addrs_shift. do 2 f_equal. lia. }
  pose proof (copied_c2h_trans _ _ _ _ _ _ _ H1 H2) as H12.
  pose proof Hdev as Hdev0.
  rewrite <- (take_drop (Z.to_nat k) (q :: rest)) in Hdev. apply Forall_app in Hdev as [_ Hdev].
  pose proof (length_drop (q :: rest) (Z.to_nat k)) as Hdl.
  eapply wp_mono; [apply (IH (m + k)); [done|rewrite Hdl; simpl length in *; lia|lia]|].
  intros [res m'] s3 [Hm' H3]. pose proof (copied_c2h_trans _ _ _ _ _ _ _ H12 H3) as H13.
  simpl app in H13. rewrite Hdl, Nat2Z.inj_sub, Z2Nat.id in Hm', H13 by lia.
  set (n := Z.min (DEV_TO_DEV_DMA_MAX_NPAGES - m) (Z.of_nat (length (q :: rest)))) in *.
  replace (Z.min (DEV_TO_DEV_DMA_MAX_NPAGES - (m + k)) (Z.of_nat (length (q :: rest)) - k))
    with (n - k) in * by lia.
  split; [intros E; rewrite (Hm' E); lia|].
  replace n with (k + (n - k)) by lia. rewrite page_addrs_app by lia.
  rewrite Z2Nat.inj_add, <- take_take_drop by lia.
  unfold sources in *. rewrite map_app, zip_app_eq; [exact H13|].
  rewrite length_map, length_page_addrs, length_take. lia.
Qed.

(** ** Two devices *)

(** Everything but the hardware, the error states and the time. *)
Record io2 (s s' : sys T) : Prop := {
  io2_other d : d <> a -> d <> b -> devs s' d = devs s d;
  io2_mem d : mem (devs s' d) = mem (devs s d);
  io2_live d : live (devs s' d) = live (devs s d);
  io2_tree d : vmem_intervals (devs s' d) = vmem_intervals (devs s d);
  io2_rdma d : rdma_bar (devs s' d) = rdma_bar (devs s d);
  io2_heap : Permutation (heap s') (heap s);
  io2_maps : Permutation (maps s') (maps s);
  io2_host : host s' = host s;
  io2_mm : mm s' = mm s;
  io2_migr : migr s' = migr s;
  io2_busy : (busy s' <= busy s)%nat;
  io2_reported : reported s' = reported s
}.

Lemma io2_refl (s : sys T) : io2 s s.
Proof. by split. Qed.

Lemma io2_trans (s1 s2 s3 : sys T) : io2 s1 s2 -> io2 s2 s3 -> io2 s1 s3.
Proof.
  intros H1 H2. split; intros;
    [by rewrite (io2_other _ _ H2), (io2_other _ _ H1)
    |by rewrite (io2_mem _ _ H2), (io2_mem _ _ H1)
    |by rewrite (io2_live _ _ H2), (io2_live _ _ H1)
    |by rewrite (io2_tree _ _ H2), (io2_tree _ _ H1)
    |by rewrite (io2_rdma _ _ H2), (io2_rdma _ _ H1)
    |by rewrite (io2_heap _ _ H2), (io2_heap _ _ H1)
    |by rewrite (io2_maps _ _ H2), (io2_maps _ _ H1)|..];
    destruct H1, H2; lia || congruence.
Qed.

Lemma io2_same_cfg (s s' : sys T) : io2 s s' -> same_cfg s s'.
Proof. intros H. split_and!; [exact (io2_busy _ _ H)|exact (io2_reported _ _ H)|exact (io2_rdma _ _ H)]. Qed.

Lemma io_only_io2 (x : Z) (s s' : sys T) : x = a \/ x = b -> io_only x s s' -> io2 s s'.
Proof.
  intros Hx H.
  assert (forall d, d = x \/ devs s' d = devs s d) as Hd.
  { intros d. destruct (decide (d = x)); [by left|right]. by apply (io_other _ _ _ H). }
  destruct H as [H1 H2 H3 H4 H5 H6 H7 H8 H9 H10 H11 H13 H12 H14].
  split; try done; try (by rewrite ?H8, ?H9); intros d; [intros; apply H1; naive_solver|..];
    (destruct (Hd d) as [->|E]; [done|by rewrite E]).
Qed.

(** The effect of a copy between the devices: transfers on the C2H engine of
    the source and on the H2C engine of the destination. *)
Definition copied2 (res : Z) (ec eh : list (option Z * Z)) (s s' : sys T) : Prop :=
  io2 s s' /\ mmu s' a = mmu s a /\ mmu s' b = mmu s b /\ res <= 0 /\
  exists tc th, c2h s' a = c2h s a ++ tc /\ h2c s' b = h2c s b ++ th /\
    (res = 0 -> mbind pages_of tc = ec /\ mbind pages_of th = eh).

Lemma copied2_refl (s : sys T) : copied2 0 [] [] s s.
Proof.
  split_and!; try done. exists [], []. by rewrite !app_nil_r.
Qed.

Lemma copied2_trans (res : Z) (ec eh ec' eh' : list (option Z * Z)) (s1 s2 s3 : sys T) :
  copied2 0 ec eh s1 s2 -> copied2 res ec' eh' s2 s3 -> copied2 res (ec ++ ec') (eh ++ eh') s1 s3.
Proof.
  intros (I1 & A1 & B1 & _ & tc & th & C1 & D1 & E1) (I2 & A2 & B2 & R & tc' & th' & C2 & D2 & E2).
  split_and!; [by eapply io2_trans|congruence|congruence|done|].
  exists (tc ++ tc'), (th ++ th'). rewrite C2, C1, D2, D1, !app_assoc. split_and!; try done.
  intros Hr. destruct (E1 eq_refl), (E2 Hr). rewrite !bind_app. split; congruence.
Qed.

Lemma copied2_failed (res : Z) (ec eh ec' eh' : list (option Z * Z)) (s s' : sys T) :
  res <> 0 -> copied2 res ec eh s s' -> copied2 res ec' eh' s s'.
Proof.
  intros Hr (? & ? & ? & ? & tc & th & ? & ? & _). split_and!; try done. by exists tc, th.
Qed.

Lemma c2h_copied2 (res : Z) (e : list (option Z * Z)) (s s' : sys T) :
  copied_c2h a res e s s' -> copied2 res e [] s s'.
Proof.
  intros (Hio & Hh & Hm & Hr & ts & Hts & He).
  assert (devs s' b = devs s b) as Eb by (by apply (io_other _ _ _ Hio)).
  split_and!; try done; [apply (io_only_io2 a); auto|unfold mmu; by rewrite Eb|].
  exists ts, []. unfold h2c. rewrite Eb, app_nil_r. split_and!; try done. auto.
Qed.

Lemma h2c_copied2 (res : Z) (e : list (option Z * Z)) (s s' : sys T) :
  copied_h2c b res e s s' -> copied2 res [] e s s'.
Proof.
  intros (Hio & Hh & Hm & Hr & ts & Hts & He).
  assert (devs s' a = devs s a) as Ea by (apply (io_other _ _ _ Hio); congruence).
  split_and!; try done; [apply (io_only_io2 b); auto|unfold mmu; by rewrite Ea|].
  exists [], ts. unfold c2h. rewrite Ea, app_nil_r. split_and!; try done. auto.
Qed.

(** The places in the buffer of the pages of a copy. *)
Definition slots (buf n : Z) : list Z :=
  map (fun j => buf + (j mod DEV_TO_DEV_DMA_MAX_NPAGES) * PAGE_SIZE) (seqZ 0 n).

Lemma length_slots (buf n : Z) : length (slots buf n) = Z.to_nat n.
Proof. unfold slots. by rewrite length_map, length_seqZ. Qed.

Lemma slots_batch (buf n : Z) :
  0 <= n ->
  let k := Z.min DEV_TO_DEV_DMA_MAX_NPAGES n in
  slots buf n = page_addrs buf 0 k ++ slots buf (n - k).
Proof.
  intros Hn k. assert (0 <= k <= DEV_TO_DEV_DMA_MAX_NPAGES /\ k <= n /\
    (k = DEV_TO_DEV_DMA_MAX_NPAGES \/ n - k = 0)) as (Hk & Hk' & Hcase)
    by (unfold k, DEV_TO_DEV_DMA_MAX_NPAGES; lia).
  clearbody k. unfold slots, page_addrs. replace n with (k + (n - k)) at 1 by lia.
  rewrite seqZ_app, map_app by lia. f_equal.
  - apply list_eq. intros i. rewrite !list_lookup_fmap.
    destruct (decide (i < Z.to_nat k)%nat).
    + rewrite lookup_seqZ_lt by lia. simpl. rewrite Z.mod_small; [done|lia].
    + rewrite lookup_seqZ_ge by lia. done.
  - destruct Hcase as [->| ->]; [|done]. unfold seqZ. rewrite !map_map. apply map_ext. intros j.
    do 2 f_equal. unfold DEV_TO_DEV_DMA_MAX_NPAGES. simpl. dlia.
Qed.

Lemma buffer_loop_spec (fuel : nat) (buf pfn : Z) (pages : list Z) (s : sys T) :
  Forall (dev_pfn bpa) pages -> (length pages <= fuel)%nat -> 0 <= buf < 2 ^ 48 ->
  (forall i, 0 <= i < Z.of_nat (length pages) -> dev_pfn bpb (pfn + i)) ->
  let n := Z.of_nat (length pages) in
  wp M (buffer_loop poll_fuel fuel a b bpa bpb buf pages (seqZ pfn n)) s (fun res s' =>
    copied2 res (zip (sources bpa pages) (slots buf n))
      (zip (map Some (slots buf n)) (page_addrs (pfn_to_dev_addr bpb pfn) 0 n)) s s').
Proof.
  intros Hdev Hf Hb. revert pfn pages s Hdev Hf.
  induction fuel as [|fuel IH]; intros pfn [|q rest] s Hdev Hf Hpfn; cbv zeta;
    cbn [buffer_loop]; try (simpl in Hf; lia).
  1,2: apply wp_ret, copied2_refl.
  set (pages := q :: rest) in *. assert (0 < Z.of_nat (length pages)) as Hpos by (simpl; lia).
  set (n := Z.of_nat (length pages)) in *.
  wp_seq fill_loop_spec; [done|done|done|unfold DEV_TO_DEV_DMA_MAX_NPAGES; lia|].
  intros [res k] s1 [Hkr H1]. rewrite Z.sub_0_r in *. fold n in Hkr, H1.
  unfold nonzero at 1. destruct (Z.eqb_spec res 0) as [->|]; cbn [negb].
  2:{ apply wp_ret. eapply copied2_failed; [done|by apply c2h_copied2]. }
  rewrite (Hkr eq_refl). rewrite Z.add_0_l. set (m := Z.min DEV_TO_DEV_DMA_MAX_NPAGES n) in *.
  assert (0 < m <= n /\ m <= PAGE_DMA_MAX_NPAGES) as [Hm Hm'].
  { unfold m, DEV_TO_DEV_DMA_MAX_NPAGES, PAGE_DMA_MAX_NPAGES. lia. }
  wp_seq wait_for_intr_spec; [done|done|]. intros res s2 H2. apply waited_copied_c2h in H2.
  pose proof (c2h_copied2 _ _ _ _ (copied_c2h_trans _ _ _ _ _ _ _ H1 H2)) as H12.
  rewrite app_nil_r in H12.
  unfold nonzero at 1. destruct (Z.eqb_spec res 0) as [->|]; cbn [negb].
  2:{ apply wp_ret. by eapply copied2_failed. }
  rewrite (seqZ_cons pfn n) by lia. cbn [hd].
  wp_seq init_h2c_dma_spec; [lia|]. intros [] s3 (a0 & Ha0 & Hiss). rewrite (Ha0 eq_refl eq_refl) in Hiss.
  assert (copied_h2c b 0 (zip (map Some (page_addrs buf 0 m))
    (page_addrs (pfn_to_dev_addr bpb pfn) 0 m)) s2 s3) as H3.
  { destruct Hiss as (Hio & _ & Hh & Hc & Hmm). rewrite app_nil_r in *.
    split_and!; try done. eexists. split; [done|]. intros _. simpl mbind. rewrite app_nil_r.
    unfold pages_of, page_addrs. simpl. apply list_eq. intros j.
    rewrite lookup_zip_with, !list_lookup_fmap. by destruct (seqZ 0 m !! j). }
  wp_seq wait_for_intr_spec; [done|done|]. intros res s4 H4. apply waited_copied_h2c in H4.
  pose proof (copied2_trans _ _ _ _ _ _ _ _ H12
    (h2c_copied2 _ _ _ _ (copied_h2c_trans _ _ _ _ _ _ _ H3 H4))) as H14.
  rewrite !app_nil_r, app_nil_l in H14.
  unfold nonzero at 1. destruct (Z.eqb_spec res 0) as [->|]; cbn [negb].
  2:{ apply wp_ret. by eapply copied2_failed. }
  pose proof (length_drop pages (Z.to_nat m)) as Hdl.
  assert (drop (Z.to_nat m) (pfn :: seqZ (Z.succ pfn) (Z.pred n)) =
          seqZ (pfn + m) (Z.of_nat (length (drop (Z.to_nat m) pages)))) as ->.
  { rewrite <- seqZ_cons by lia. replace n with (m + (n - m)) by lia.
    rewrite seqZ_app, drop_app_length' by (rewrite ?length_seqZ; lia). f_equal.
    rewrite Hdl. unfold n. lia. }
  rewrite <- (take_drop (Z.to_nat m) pages) in Hdev. apply Forall_app in Hdev as [_ Hdev].
  eapply wp_mono; [apply (IH (pfn + m)); [done|rewrite Hdl; lia|]|].
  { intros i Hi. rewrite <- Z.add_assoc. apply Hpfn. unfold n in *. lia. }
  intros res s5 H5. pose proof (copied2_trans _ _ _ _ _ _ _ _ H14 H5) as H15.
  replace (Z.of_nat (length (drop (Z.to_nat m) pages))) with (n - m) in H15
    by (rewrite Hdl; unfold n in *; lia).
  rewrite (slots_batch buf n) by lia. fold m.
  rewrite <- (take_drop (Z.to_nat m) pages) at 1.
  replace n with (m + (n - m)) at 3 by lia. rewrite page_addrs_app by lia.
  assert (page_addrs (pfn_to_dev_addr bpb pfn) (0 + m) (n - m) =
          page_addrs (pfn_to_dev_addr bpb (pfn + m)) 0 (n - m)) as ->.
  { destruct (decide (n - m = 0)) as [->|]; [done|].
    rewrite !pfn_to_dev_addr_eq.
    - replace ((pfn + m - bpb) * PAGE_SIZE) with ((pfn - bpb) * PAGE_SIZE + m * PAGE_SIZE) by lia.
      rewrite page_addrs_shift. f_equal. lia.
    - apply Hpfn. lia.
    - rewrite <- (Z.add_0_r pfn). apply Hpfn. lia. }
  unfold sources in *. rewrite !map_app, !zip_app_eq; [exact H15|..];
    rewrite ?length_map, ?length_page_addrs, ?length_take; lia.
Qed.

(** ** The three methods *)

(** What a copy of [pages] to the frames from [pfn] on does.  Over the network
    the pages are sent in order and received in order; with PCIe they are written
    to the window of the destination, or pass through the buffer. *)
Definition copy_form (network : bool) (bar pfn : Z) (pages : list Z)
    (ec eh : list (option Z * Z)) : Prop :=
  let n := Z.of_nat (length pages) in
  let dev := pfn_to_dev_addr bpb pfn in
  if network then
    exists dsts srcs, length dsts = length pages /\ length srcs = length pages /\
      ec = zip (sources bpa pages) dsts /\ eh = zip srcs (page_addrs dev 0 n)
  else if nonzero bar then
    ec = zip (sources bpa pages) (page_addrs (bar + dev) 0 n) /\ eh = []
  else
    exists buf, ec = zip (sources bpa pages) (slots buf n) /\
      eh = zip (map Some (slots buf n)) (page_addrs dev 0 n).

(** Both devices have a network interface for their DMA engines. *)
Definition over_network (s : sys T) : bool :=
  network_dma_enabled (devs s a) && network_dma_enabled (devs s b).

Section Copies.
Variables (pages : list Z) (pfn n : Z).
Hypothesis Hpages : Forall (dev_pfn bpa) pages.
Hypothesis Hn : 0 < n /\ Z.of_nat (length pages) = n.
Hypothesis Hpfn : forall i, 0 <= i < n -> dev_pfn bpb (pfn + i).

Lemma dst_window (bar : Z) :
  0 <= bar -> bar + PHYS_MEM_SIZE <= 2 ^ 64 ->
  0 <= bar + pfn_to_dev_addr bpb pfn /\ bar + pfn_to_dev_addr bpb pfn + n * PAGE_SIZE <= 2 ^ 64.
Proof.
  intros H1 H2. assert (dev_pfn bpb pfn) as Hp by (rewrite <- (Z.add_0_r pfn); apply Hpfn; lia).
  assert (dev_pfn bpb (pfn + (n - 1))) as Hq by (apply Hpfn; lia).
  rewrite pfn_to_dev_addr_eq by done. unfold dev_pfn in *. rewrite PHYS_PAGES_eq in *.
  rewrite PHYS_MEM_SIZE_eq in *. unfold PAGE_SIZE in *. lia.
Qed.

Lemma hd_seqZ : hd 0 (seqZ pfn n) = pfn.
Proof. rewrite seqZ_cons by lia. done. Qed.

Lemma mac_write_copied2 (w : Z) (s : sys T) : copied2 0 [] [] s (wr a dst_mac w s).
Proof.
  assert (issues a [] [] [] s (wr a dst_mac w s)) as Hi by (by apply wr_issues).
  apply c2h_copied2. apply waited_copied_c2h, issues_waited; auto.
Qed.

Lemma network_spec (s : sys T) :
  base_pfn (mem (devs s a)) = bpa -> base_pfn (mem (devs s b)) = bpb ->
  wp M (copy_dev_to_dev_network poll_fuel a b pages (seqZ pfn n) n) s (fun res s' =>
    exists ec eh, copied2 res ec eh s s' /\ copy_form true 0 pfn pages ec eh).
Proof.
  intros Ha Hb. unfold copy_dev_to_dev_network.
  apply wp_bind, wp_call; [done|]. intros cs s0 [-> ->].
  apply wp_bind, wp_call; [done|]. intros cd s0 [-> ->].
  rewrite Ha, Hb, hd_seqZ. destruct (dst_window 0) as [W1 W2];
    [lia|rewrite PHYS_MEM_SIZE_eq; lia|]. rewrite Z.add_0_l in *.
  apply wp_writeq. pose proof (mac_write_copied2 (mac_addr (devs s b)) s) as H1.
  wp_seq receive_loop_spec; [lia| |done|done|].
  { rewrite Z2Nat.id by (unfold PAGE_DMA_MAX_NPAGES; dlia). unfold PAGE_DMA_MAX_NPAGES. dlia. }
  intros [] s2 (srcs & Hs & H2).
  pose proof (copied2_trans _ _ _ _ _ _ _ _ H1 (h2c_copied2 _ _ _ _ H2)) as H12.
  wp_seq send_loop_spec; [done|done|]. intros [] s3 (dsts & Hd & H3).
  pose proof (copied2_trans _ _ _ _ _ _ _ _ H12 (c2h_copied2 _ _ _ _ H3)) as H13.
  wp_seq wait_for_intr_spec; [done|done|]. intros res s4 H4. apply waited_copied_h2c in H4.
  pose proof (copied2_trans _ _ _ _ _ _ _ _ H13 (h2c_copied2 _ _ _ _ H4)) as H14.
  rewrite Z.sub_0_r in *. simpl app in H14. rewrite !app_nil_r in H14.
  assert (exists ec eh, copied2 res ec eh s s4 /\ copy_form true 0 pfn pages ec eh) as Hres.
  { eexists _, _. split; [exact H14|]. exists dsts, srcs. destruct Hn as [_ <-].
    split_and!; try done. lia. }
  unfold nonzero. destruct (Z.eqb_spec res 0) as [->|]; by apply wp_ret.
Qed.

Lemma e2e_spec (s : sys T) :
  base_pfn (mem (devs s a)) = bpa -> base_pfn (mem (devs s b)) = bpb ->
  let bar := rdma_bar (devs s b) in
  0 < bar -> bar + PHYS_MEM_SIZE <= 2 ^ 64 ->
  wp M (copy_dev_to_dev_pcie_e2e poll_fuel a b pages (seqZ pfn n) n) s (fun res s' =>
    exists ec eh, copied2 res ec eh s s' /\ copy_form false bar pfn pages ec eh).
Proof.
  intros Ha Hb bar Hbar Hmax. unfold copy_dev_to_dev_pcie_e2e.
  apply wp_bind, wp_call; [done|]. intros cs s0 [-> ->].
  apply wp_bind, wp_call; [done|]. intros cd s0 [-> ->].
  rewrite Ha, Hb, hd_seqZ. fold bar. destruct (dst_window bar) as [W1 W2]; [lia|lia|].
  rewrite u64_small by (unfold PAGE_SIZE in *; lia). destruct Hn as [Hn0 Hn1].
  wp_seq push_loop_spec; [done|done|lia|lia|rewrite Hn1; lia|].
  rewrite Hn1. intros res s1 H1.
  assert (forall res s', copied2 res (zip (sources bpa pages)
    (page_addrs (bar + pfn_to_dev_addr bpb pfn) 0 n)) [] s s' ->
    exists ec eh, copied2 res ec eh s s' /\ copy_form false bar pfn pages ec eh) as Hform.
  { intros res' s' H. eexists _, _. split; [exact H|]. unfold copy_form, nonzero.
    destruct (Z.eqb_spec bar 0); [lia|]. simpl. by rewrite Hn1. }
  apply c2h_copied2 in H1. unfold nonzero at 1.
  destruct (Z.eqb_spec res 0) as [->|]; cbn [negb]; [|by apply wp_ret, Hform].
  wp_seq wait_for_intr_spec; [done|done|]. intros res s2 H2. apply waited_copied_c2h in H2.
  pose proof (copied2_trans _ _ _ _ _ _ _ _ H1 (c2h_copied2 _ _ _ _ H2)) as H12.
  rewrite !app_nil_r in H12. apply Hform in H12.
  unfold nonzero. destruct (Z.eqb_spec res 0) as [->|]; by apply wp_ret.
Qed.

Lemma buffered_spec (s : sys T) :
  base_pfn (mem (devs s a)) = bpa -> base_pfn (mem (devs s b)) = bpb ->
  wp M (copy_dev_to_dev_buffered poll_fuel a b pages (seqZ pfn n)) s (fun res s' =>
    exists ec eh, copied2 res ec eh s s' /\ copy_form false 0 pfn pages ec eh).
Proof.
  intros Ha Hb. unfold copy_dev_to_dev_buffered. destruct Hn as [Hn0 Hn1].
  assert (forall res s', res < 0 -> io2 s s' -> hw (devs s' a) = hw (devs s a) ->
    hw (devs s' b) = hw (devs s b) ->
    exists ec eh, copied2 res ec eh s s' /\ copy_form false 0 pfn pages ec eh) as Hfail.
  { intros res s' Hr Hio Eha Ehb. eexists _, _. split; [|exists 0; split; reflexivity].
    unfold copied2, mmu, c2h, h2c. rewrite Eha, Ehb. split_and!; try done; [lia|].
    exists [], []. rewrite !app_nil_r. split_and!; try done; intros; lia. }
  apply wp_bind, wp_call; [done|]. intros [buf|] s1.
  2:{ intros ->. apply wp_ret. by apply Hfail. }
  intros [_ ->]. apply wp_bind, wp_call; [done|]. intros [addr|] s2.
  2:{ intros [_ ->]. apply wp_bind, wp_call; [done|]. intros [] s3 ->.
      apply wp_bind, wp_call; [by left|]. intros [] s3 (h & Hh & ->). apply wp_ret.
      simpl in Hh. apply Permutation_cons_inv in Hh.
      apply Hfail; try done; by split. }
  intros [-> ->]. apply wp_bind, wp_call; [done|]. intros cs s3 [-> ->].
  apply wp_bind, wp_call; [done|]. intros cd s3 [-> ->]. simpl. rewrite Ha, Hb.
  set (s3 := set_maps _ (set_heap _ s)).
  replace (seqZ pfn n) with (seqZ pfn (Z.of_nat (length pages))) by (by rewrite Hn1).
  wp_seq (buffer_loop_spec _ (dma_of buf) pfn pages s3); [done|done| | |].
  { specialize (Hdma buf). lia. }
  { rewrite Hn1. exact Hpfn. }
  rewrite Hn1. intros res s4 H4. pose proof H4 as (Hio & Hma & Hmb & Hr & tc & th & Htc & Hth & Hr0).
  apply wp_bind, wp_call; [simpl; rewrite (io2_maps _ _ Hio); by left|].
  intros [] s5 (lm & Hlm & ->).
  apply wp_bind, wp_call; [simpl; rewrite (io2_heap _ _ Hio); by left|].
  intros [] s6 (h & Hh & ->). apply wp_ret. simpl in Hh.
  eexists (zip (sources bpa pages) (slots (dma_of buf) n)),
    (zip (map Some (slots (dma_of buf) n)) (page_addrs (pfn_to_dev_addr bpb pfn) 0 n)).
  split; [|unfold copy_form; simpl; exists (dma_of buf); done].
  split_and!; try done; [|by exists tc, th].
  rewrite (io2_maps _ _ Hio) in Hlm. rewrite (io2_heap _ _ Hio) in Hh.
  apply Permutation_cons_inv in Hlm, Hh. destruct Hio as [I1 I2 I3 I4 I5 _ _ I8 I9 I10 I11].
  by split.
Qed.

Lemma copy_pages_spec (s : sys T) :
  base_pfn (mem (devs s a)) = bpa -> base_pfn (mem (devs s b)) = bpb ->
  0 <= rdma_bar (devs s b) -> rdma_bar (devs s b) + PHYS_MEM_SIZE <= 2 ^ 64 ->
  wp M (copy_pages poll_fuel a b pages (seqZ pfn n) n) s (fun res s' =>
    exists ec eh, copied2 res ec eh s s' /\
      copy_form (over_network s) (rdma_bar (devs s b)) pfn pages ec eh).
Proof.
  intros Ha Hb Hbar Hmax. unfold copy_pages.
  apply wp_bind, wp_call; [done|]. intros cs s0 [-> ->].
  apply wp_bind, wp_call; [done|]. intros cd s0 [-> ->].
  apply wp_bind. eapply (wp_mono _ _ _ (fun res s' => exists ec eh,
    copied2 res ec eh s s' /\ copy_form (over_network s) (rdma_bar (devs s b)) pfn pages ec eh)).
  { unfold over_network. destruct (_ && _).
    - by apply network_spec.
    - unfold nonzero. destruct (Z.eqb_spec (rdma_bar (devs s b)) 0) as [->|]; cbn [negb].
      + by apply buffered_spec.
      + by apply e2e_spec; try lia. }
  intros res s1 (ec & eh & H1 & Hform).
  unfold nonzero at 1. destruct (Z.eqb_spec res 0) as [->|]; cbn [negb].
  2:{ apply wp_ret. by exists ec, eh. }
  wp_seq (readq_spec _ _ _ _ _ a); [done|]. intros v s2 (Q2 & _).
  apply quiet_issues, (issues_waited a 0), waited_copied_c2h, c2h_copied2 in Q2; [|auto].
  pose proof (copied2_trans _ _ _ _ _ _ _ _ H1 Q2) as H12. rewrite !app_nil_r in H12.
  destruct (nonzero _).
  { apply wp_ret. exists ec, eh. split; [|done].
    destruct H12 as (? & ? & ? & _ & tc & th & ? & ? & _). split_and!; try done. by exists tc, th. }
  wp_seq (readq_spec _ _ _ _ _ b); [done|]. intros v' s3 (Q3 & _).
  apply quiet_issues, (issues_waited b 0), waited_copied_h2c, h2c_copied2 in Q3; [|auto].
  pose proof (copied2_trans _ _ _ _ _ _ _ _ H12 Q3) as H13. rewrite !app_nil_r in H13.
  destruct (nonzero _); apply wp_ret; exists ec, eh; (split; [|done]); [|done].
  destruct H13 as (? & ? & ? & _ & tc & th & ? & ? & _). split_and!; try done. by exists tc, th.
Qed.

End Copies.

(** ** Completion *)

(** The pages of the destination are given up: [lb] are left there. *)
Definition given_up (lb : list Z) (s s' : sys T) : Prop :=
  mem_only b s (set_mm (mm s) (set_migr (migr s) s')) /\ mm s' = mm_locked /\
  dev_inv bpb b s' /\ Permutation (live (devs s' b)) lb.

Lemma give_up_spec (r : Z) (dst lb : list Z) (s : sys T) :
  dev_inv bpb b s -> Permutation (live (devs s b)) (dst ++ lb) -> (exists src0, mm s = mm_migrating src0) ->
  wp M (put_pages b dst;;; call migrate_vma_finalize;;; Ret r) s
    (fun r' s' => r' = r /\ given_up lb s s').
Proof.
  intros Hinv Hl Hc. wp_seq put_pages_spec; [apply bpb_ok|apply bpb_ok|done|done|].
  intros [] s1 (H1 & Hi1 & Hl1).
  apply wp_bind, wp_call; [simpl; by rewrite (mo_mm _ _ _ H1)|]. intros [] s2 ->.
  apply wp_ret. split; [done|]. split_and!; try done. destruct H1. by split.
Qed.

(** What a successful completion does to the two devices, the copy apart. *)
Definition switched (va n pfn array : Z) (pages : list Z) (s s' : sys T) : Prop :=
  Permutation (live (devs s a)) (pages ++ live (devs s' a)) /\
  live (devs s' b) = live (devs s b) /\
  (exists ms, mmu s' b = mmu s b ++ ms /\
     mbind mappings_of ms = translations va (pfn_to_dev_addr bpb pfn) 0 n) /\
  (exists ok : bool, if ok then Permutation (heap s) (array :: heap s') else heap s' = heap s) /\
  (exists oks, Forall (node_answer faults) oks /\
     length oks = length (it_nodes (vmem_intervals (devs s a))) /\
     vmem_intervals (devs s' a) =
     remove_vmem_interval oks (vmem_intervals (devs s a)) va n) /\
  (exists ok, node_answer faults ok /\ vmem_intervals (devs s' b) =
     snd (insert_vmem_interval ok (vmem_intervals (devs s b)) va n)).

Definition completed (va n pfn array : Z) (pages : list Z) (s s' : sys T) : Prop :=
  (forall d, d <> a -> d <> b -> devs s' d = devs s d) /\
  mmu s' a = mmu s a /\ c2h s' a = c2h s a /\ h2c s' b = h2c s b /\
  maps s' = maps s /\ host s' = host s /\ mm s' = mm_locked /\ migr s' = migr s /\
  same_cfg s s' /\ dev_inv bpa a s' /\ dev_inv bpb b s' /\ switched va n pfn array pages s s'.

Lemma d2d_complete_spec (va n pfn array : Z) (pages msrc lb : list Z) (s : sys T) :
  0 < n -> 0 <= va -> va + n * PAGE_SIZE <= VA_MAX ->
  bpb <= pfn /\ pfn + n <= bpb + PHYS_MEM_SIZE / PAGE_SIZE ->
  dev_inv bpa a s -> dev_inv bpb b s ->
  (exists l, Permutation (live (devs s a)) (pages ++ l)) ->
  Permutation (live (devs s b)) (seqZ pfn n ++ lb) ->
  array ∈ heap s -> (exists src0, mm s = mm_migrating src0) ->
  wp M (complete_migration migrating a b va n array pages (seqZ pfn n) msrc) s (fun res s' =>
    (res = 0 /\ completed va n pfn array pages s s') \/ (res = - ENOMEM /\ given_up lb s s')).
Proof.
  intros Hn Hva Hva' Hfr Ha Hb Hl Hlb Harr Hc. unfold complete_migration.
  destruct (forallb migrating msrc).
  2:{ eapply wp_mono; [by apply give_up_spec|]. intros r s' [-> H]. by right. }
  apply wp_bind, wp_call; [done|]. intros cd s0 [-> ->].
  assert (hd 0 (seqZ pfn n) = pfn) as -> by (rewrite seqZ_cons by lia; done).
  rewrite (inv_base _ _ _ Hb). destruct bpb_ok, Hfr.
  wp_seq add_tlb_entries_spec; try done; [unfold VA_MAX in *; lia|].
  intros [] s1 (ms & (Hio & _ & Hh & Hcc & Hm) & Hms). rewrite app_nil_r in Hh, Hcc.
  assert (devs s1 a = devs s a) as Ea by (by apply (io_other _ _ _ Hio)).
  apply wp_bind, wp_call; [done|]. intros ok s0 ->.
  apply wp_bind, wp_call; [simpl; by rewrite Ea|]. intros [] s2 (l & Hl' & ->). rewrite Ea in Hl'.
  pose proof (set_mem_only a (fun c => retire_pages ok (mem c) pages) (fun _ => l) s1) as Hmo.
  set (s2 := upd a _ s1) in *.
  assert (live (devs s2 a) = l /\ dev_inv bpa a s2) as [Hl2 Hinv2].
  { unfold dev_inv, s2. rewrite devs_upd, Ea. split; [done|]. destruct bpa_ok.
    apply retire_preserves; try done. by eapply mem_inv_perm. }
  assert (same_cfg s s2) as (Hsb & Hsf & Hsr)
    by (transitivity s1; eapply kept_same_cfg; [by apply io_kept|by apply mem_kept]).
  clearbody s2. destruct Hmo as [M1 M2 M3 _ _ _ _ M8 M9 M10 M11 M13 M12].
  apply wp_bind. eapply (wp_mono _ _ _ (fun _ s' => exists h, s' = set_heap h s2 /\
    if ok then Permutation (heap s) (array :: h) else h = heap s)).
  { rewrite <- (io_heap _ _ _ Hio), <- M8. unfold when.
    destruct ok; [|apply wp_ret; exists (heap s2); split; [by destruct s2|done]].
    apply wp_call; [simpl; by rewrite M8, (io_heap _ _ _ Hio)|].
    intros [] s3 (h & Hh' & ->). by exists h. }
  intros [] s3 (h & -> & Hheap).
  apply wp_bind, wp_call; [simpl; by rewrite M11, (io_mm _ _ _ Hio)|]. intros [] s4 ->.
  wp_seq remove_interval_spec. intros [] s5 (ok1 & Hok1 & Hlen1 & ->).
  wp_seq insert_interval_spec. intros [] s6 (ok2 & Hok2 & ->). apply wp_ret. left. split; [done|].
  assert (b <> a) as Hba by congruence.
  assert (devs s2 b = devs s1 b) as Eb by (by apply M1).
  unfold completed, switched, dev_inv, mmu, c2h, h2c in *.
  repeat first [rewrite devs_upd | rewrite (devs_upd_ne b a) by done
               | rewrite (devs_upd_ne a b) by done].
  cbn [mem live vmem_intervals hw set_tree maps host heap mm migr busy set_mm set_heap
       upd devs]. rewrite Eb, Hl2, M2, M3, M9, M10, M13, Ea, (io_mem _ _ _ Hio), (io_live _ _ _ Hio),
    (io_maps _ _ _ Hio), (io_host _ _ _ Hio), (io_tree _ _ _ Hio), (io_migr _ _ _ Hio).
  split_and!; try done.
  - intros d Hda Hdb. destruct (Z.eqb_spec d b), (Z.eqb_spec d a); try done. rewrite M1 by done.
    by apply (io_other _ _ _ Hio).
  - split_and!; [done|done|]. intros x. rewrite <- Hsr. simpl.
    by destruct (Z.eqb_spec x b), (Z.eqb_spec x a); subst.
  - by rewrite <- Hl2.
  - by exists ms.
  - by exists ok.
  - exists ok1. simpl in Hlen1. by rewrite M3, Ea in Hlen1.
  - by exists ok2.
Qed.

(** ** One attempt *)

(** Both devices are as before, but for commands to their DMA engines. *)
Definition stayed2 (s s' : sys T) : Prop :=
  live (devs s' a) = live (devs s a) /\ Permutation (live (devs s' b)) (live (devs s b)) /\
  Permutation (heap s') (heap s) /\ mmu s' a = mmu s a /\ mmu s' b = mmu s b /\
  (forall d, vmem_intervals (devs s' d) = vmem_intervals (devs s d)).

(** The pages have moved from one device to the other. *)
Definition moved2 (va n array : Z) (s s' : sys T) (tc th : list transfer) : Prop :=
  exists pages pfn ms ok1 ok2,
    Forall (node_answer faults) ok1 /\
    length ok1 = length (it_nodes (vmem_intervals (devs s a))) /\ node_answer faults ok2 /\
    Z.of_nat (length pages) = n /\
    migr s' = mk_migration va (map Some pages) (seqZ pfn n) /\
    copy_form (over_network s) (rdma_bar (devs s b)) pfn pages
      (mbind pages_of tc) (mbind pages_of th) /\
    Permutation (live (devs s a)) (pages ++ live (devs s' a)) /\
    Permutation (live (devs s' b)) (seqZ pfn n ++ live (devs s b)) /\
    mmu s' a = mmu s a /\ mmu s' b = mmu s b ++ ms /\
    mbind mappings_of ms = translations va (pfn_to_dev_addr bpb pfn) 0 n /\
    (Permutation (heap s) (array :: heap s') \/ Permutation (heap s') (heap s)) /\
    vmem_intervals (devs s' a) = remove_vmem_interval ok1 (vmem_intervals (devs s a)) va n /\
    vmem_intervals (devs s' b) =
      snd (insert_vmem_interval ok2 (vmem_intervals (devs s b)) va n).

Definition ended2 (res va n array : Z) (s s' : sys T) : Prop :=
  (forall d, d <> a -> d <> b -> devs s' d = devs s d) /\
  Permutation (maps s') (maps s) /\ host s' = host s /\ mm s' = mm_locked /\ same_cfg s s' /\
  dev_inv bpa a s' /\ dev_inv bpb b s' /\
  exists tc th, c2h s' a = c2h s a ++ tc /\ h2c s' b = h2c s b ++ th /\
  if res =? 0 then moved2 va n array s s' tc th else res < 0 /\ stayed2 s s'.

Section Range.
Variables va n : Z.
Hypothesis Hn : 0 < n < 2 ^ 31.
Hypothesis Hphys : n * PAGE_SIZE <= PHYS_MEM_SIZE.
Hypothesis Hva : 0 <= va /\ va + n * PAGE_SIZE <= VA_MAX.

Lemma d2d_range_pages :
  u64 (va + n * PAGE_SIZE) = va + n * PAGE_SIZE /\ (va + n * PAGE_SIZE - va) / PAGE_SIZE = n.
Proof.
  unfold VA_MAX in Hva. split.
  - apply u64_small. unfold PAGE_SIZE in *. lia.
  - replace (va + n * PAGE_SIZE - va) with (n * PAGE_SIZE) by lia. by apply Z.div_mul.
Qed.

(** Giving up after a copy, relative to the state [s] in which the pages of the
    destination had been allocated, and the state [s0] before that. *)
Lemma given_up_ended (res array pfn : Z) (s0 s s' s'' : sys T) (ec eh : list (option Z * Z)) :
  res < 0 -> (forall d, d <> b -> devs s d = devs s0 d) ->
  hw (devs s b) = hw (devs s0 b) -> vmem_intervals (devs s b) = vmem_intervals (devs s0 b) ->
  same_cfg s0 s -> heap s = heap s0 -> maps s = maps s0 -> host s = host s0 -> dev_inv bpa a s0 ->
  copied2 res ec eh s s' \/ copied2 0 ec eh s s' ->
  given_up (live (devs s0 b)) s' s'' -> ended2 res va n array s0 s''.
Proof.
  intros Hres Hoth Hhw Htr Hcfg Hheap Hmaps Hhost Ha Hcop (Hmo & Hc & Hi & Hl).
  assert (exists r, copied2 r ec eh s s') as (r & Hio & Hma & Hmb & _ & tc & th & Htc & Hth & _)
    by (destruct Hcop; by eexists).
  assert (devs s a = devs s0 a) as Esa by (by apply Hoth).
  assert (same_cfg s0 s'') as Hcfg'.
  { transitivity s; [done|]. transitivity s'; [by apply io2_same_cfg|].
    by apply (kept_same_cfg b s' (set_mm (mm s') (set_migr (migr s') s''))), mem_kept. }
  destruct Hmo as [M1 M2 M3 _ _ _ _ M8 M9 M10 _ _ _]. simpl in *.
  assert (devs s'' a = devs s' a) as Ea by (by apply M1).
  unfold ended2, stayed2, dev_inv, mmu, c2h, h2c in *.
  rewrite M2, Ea, (io2_mem _ _ Hio), (io2_live _ _ Hio), M9, M10, (io2_host _ _ Hio), Hhost.
  rewrite Esa in *. rewrite Hhw in *. split_and!; try done.
  - intros d Hda Hdb. rewrite M1, (io2_other _ _ Hio), Hoth by done. done.
  - by rewrite (io2_maps _ _ Hio), Hmaps.
  - exists tc, th. split_and!; try done. destruct (Z.eqb_spec res 0); [lia|].
    split_and!; try done; [by rewrite M8, (io2_heap _ _ Hio), Hheap|]. intros d. destruct (decide (d = b)) as [->|Hd].
    + by rewrite M3, (io2_tree _ _ Hio), Htr.
    + by rewrite M1, (io2_tree _ _ Hio), Hoth.
Qed.

(** The pages handed out are frames of the destination. *)
Lemma d2d_alloc_frames (pfn : Z) (l : list Z) (m : svm_mem) :
  mem_inv bpb (seqZ pfn n ++ l) m ->
  (bpb <= pfn /\ pfn + n <= bpb + PHYS_MEM_SIZE / PAGE_SIZE) /\
  forall i, 0 <= i < n -> dev_pfn bpb (pfn + i).
Proof.
  intros [_ _ _ _ (_ & Hdev & _)].
  assert (forall i, 0 <= i < n -> dev_pfn bpb (pfn + i)) as Hall.
  { intros i Hi. apply Hdev, elem_of_app. left. apply elem_of_app. left.
    apply elem_of_seqZ. lia. }
  split; [|done]. pose proof (Hall 0 ltac:(lia)). pose proof (Hall (n - 1) ltac:(lia)).
  unfold dev_pfn in *. rewrite PHYS_PAGES_eq in *. lia.
Qed.

(** From the allocation on: [s] holds the destination pages, [s0] is the state
    before the attempt. *)
Definition allocated (pfn : Z) (pages : list Z) (s0 s : sys T) : Prop :=
  (forall d, d <> b -> devs s d = devs s0 d) /\ hw (devs s b) = hw (devs s0 b) /\
  vmem_intervals (devs s b) = vmem_intervals (devs s0 b) /\
  rdma_bar (devs s b) = rdma_bar (devs s0 b) /\ same_cfg s0 s /\
  live (devs s b) = seqZ pfn n ++ live (devs s0 b) /\
  heap s = heap s0 /\ maps s = maps s0 /\ host s = host s0 /\
  dev_inv bpa a s0 /\ dev_inv bpb b s /\ (exists src0, mm s = mm_migrating src0) /\
  over_network s = over_network s0 /\ migr s = mk_migration va (map Some pages) [] /\
  Z.of_nat (length pages) = n /\
  exists l, Permutation (live (devs s0 a)) (pages ++ l).

Lemma copied_ended (array pfn : Z) (pages msrc' : list Z) (s0 s s' : sys T)
    (ec eh : list (option Z * Z)) :
  allocated pfn pages s0 s -> array ∈ heap s0 ->
  copied2 0 ec eh s s' -> copy_form (over_network s) (rdma_bar (devs s b)) pfn pages ec eh ->
  wp M (let! res := complete_migration migrating a b va n array pages (seqZ pfn n) msrc' in
        Ret (Some res))
    (set_mm (mm_migrating msrc')
       (set_migr (mk_migration (mig_start (migr s')) (mig_src (migr s')) (seqZ pfn n)) s'))
    (fun o s'' => exists res, o = Some res /\ ended2 res va n array s0 s'').
Proof.
  intros (Hoth & Hhw & Htr & Hbar & Hcfg & Hlb & Hheap & Hmaps & Hhost & Ha & Hb & _ & Hnet & Hmig &
    Hlen & l & Hl) Harr Hcop Hform.
  pose proof Hcop as (Hio & Hma & Hmb & _ & tc & th & Htc & Hth & Hpg).
  destruct (Hpg eq_refl) as [Hec Heh].
  assert (devs s a = devs s0 a) as Esa by (by apply Hoth).
  assert (mem_inv bpb (seqZ pfn n ++ live (devs s0 b)) (mem (devs s b))) as Hb'
    by (unfold dev_inv in Hb; by rewrite Hlb in Hb).
  destruct (d2d_alloc_frames _ _ _ Hb') as [Hfr _].
  wp_seq (d2d_complete_spec va n pfn array pages msrc' (live (devs s0 b))).
  1-4: lia || done.
  { unfold dev_inv. simpl. rewrite (io2_mem _ _ Hio), (io2_live _ _ Hio), Esa. exact Ha. }
  { unfold dev_inv. simpl. rewrite (io2_mem _ _ Hio), (io2_live _ _ Hio). exact Hb. }
  { exists l. simpl. by rewrite (io2_live _ _ Hio), Esa. }
  { simpl. by rewrite (io2_live _ _ Hio), Hlb. }
  { simpl. by rewrite (io2_heap _ _ Hio), Hheap. }
  { by eexists. }
  intros res s'' [[-> Hdone]|[-> Hgive]]; apply wp_ret; eexists; (split; [done|]).
  2:{ eapply (given_up_ended _ array pfn s0 s s'); try done; [by right|].
      destruct Hgive as (Hmo & Hrest). split; [|done]. destruct Hmo. by split. }
  destruct Hdone as (O1 & Hm1 & Hc1 & Hh1 & Hmp1 & Hho1 & Hco1 & Hg1 & Hcfg1 & Hi1 & Hi2 &
    Hla & Hlb' & (ms & Hms & Htr') & (ok & Hhp) & (ok1 & Hok1 & Hlen1 & Ht1) & (ok2 & Hok2 & Ht2)).
  simpl in *. unfold ended2, mmu, c2h, h2c in *. simpl in *.
  split_and!; try done.
  - intros d Hda Hdb. by rewrite O1, (io2_other _ _ Hio), Hoth.
  - by rewrite Hmp1, (io2_maps _ _ Hio), Hmaps.
  - by rewrite Hho1, (io2_host _ _ Hio).
  - transitivity s; [done|]. transitivity s'; [by apply io2_same_cfg|done].
  - exists tc, th. rewrite Hc1, Htc, Hh1, Hth, Esa, Hhw. split_and!; try done.
    exists pages, pfn, ms, ok1, ok2. rewrite Hec, Heh, <- Hbar, <- Hnet.
    rewrite (io2_live _ _ Hio), Esa in Hla. unfold mmu.
    rewrite Hlb', Hm1, Hma, Hms, Hmb, Ht1, Ht2, !(io2_tree _ _ Hio), !(io2_live _ _ Hio), Hlb,
      Esa, Hhw, Htr. rewrite (io2_tree _ _ Hio), Esa in Hlen1. split_and!; try done.
    { rewrite Hg1, (io2_migr _ _ Hio), Hmig. done. }
    destruct ok; [left|right].
    + by rewrite <- Hheap, <- (io2_heap _ _ Hio).
    + by rewrite Hhp, (io2_heap _ _ Hio), Hheap.
Qed.

Lemma d2d_attempt_spec (array : Z) (s : sys T) :
  dev_inv bpa a s -> dev_inv bpb b s -> mm s = mm_locked -> array ∈ heap s ->
  0 <= rdma_bar (devs s b) -> rdma_bar (devs s b) + PHYS_MEM_SIZE <= 2 ^ 64 ->
  wp M (attempt poll_fuel page_of migrating a b va n array) s (fun o s' =>
    match o with
    | Some res => ended2 res va n array s s'
    | None => exists m, s' = set_mm mm_locked (set_migr m s)
    end).
Proof.
  intros Ha Hb Hc Harr Hbar Hbar'. unfold attempt. destruct d2d_range_pages as [-> Hpages].
  apply wp_bind, wp_call; [simpl; split; [done|unfold PAGE_SIZE; lia]|].
  intros [[res cpages] src] s1. simpl. rewrite Hpages.
  destruct (Z.ltb_spec res 0) as [Hres|Hres].
  { intros ->. apply wp_ret. split_and!; try done. exists [], []. rewrite !app_nil_r.
    split_and!; try done. destruct (Z.eqb_spec res 0); [lia|done]. }
  intros (_ & -> & Hsrc & Hcp & Hfull).
  destruct (Z.eqb_spec cpages n) as [->|]; cbn [negb].
  2:{ apply wp_bind, wp_call; [by eexists|]. intros [] s1 ->. apply wp_ret. by eexists. }
  destruct (Hfull eq_refl) as (pages & l & Hpg & Hlive).
  assert (omap page_of src = pages) as ->.
  { clear -Hpg. revert pages Hpg. induction src as [|e src IH]; intros [|p ps] E; try done.
    simpl in E. injection E as E1 E2. simpl. rewrite E1. f_equal. by apply IH. }
  assert (Z.of_nat (length pages) = n) as Hlen.
  { apply (f_equal length) in Hpg. rewrite !length_map in Hpg. lia. }
  apply wp_bind, wp_call; [split; [lia|done]|]. intros r s2 (m & Hw & Halloc). simpl in Hw.
  destruct bpb_ok as [B1 B2].
  apply (workers_preserve bpb (live (devs s b))) in Hw as Hm; try done.
  destruct (alloc_device_pages m n) as [[dst m']|] eqn:Ealloc; destruct Halloc as [-> ->].
  2:{ apply wp_bind, wp_call; [by eexists|]. intros [] s2 ->. apply wp_ret.
      assert (a <> b) by done. unfold ended2, stayed2, dev_inv, mmu, c2h, h2c. simpl.
      rewrite Z.eqb_refl. destruct (Z.eqb_spec a b); [done|]. split_and!; try done.
      - intros d Hda Hdb. by destruct (Z.eqb_spec d b).
      - split_and!; [done|done|]. intros x. simpl. by destruct (Z.eqb_spec x b) as [->|].
      - exists [], []. rewrite !app_nil_r. split_and!; try done.
        intros d. by destruct (Z.eqb_spec d b) as [->|]. }
  assert (0 < n) as Hn0 by lia.
  destruct (alloc_device_pages_spec bpb B1 B2 _ _ _ _ _ Hm Hn0 Hphys Ealloc) as (Hinv' & _).
  assert (exists pfn, dst = seqZ pfn n) as [pfn ->].
  { unfold alloc_device_pages in Ealloc. destruct (allocate_device_memory _ _) as [x bs].
    destruct (x =? u64 (-1)); [done|]. injection Ealloc as <- _. by eexists. }
  destruct (d2d_alloc_frames _ _ _ Hinv') as [_ Hfr].
  set (s2 := upd b _ _).
  assert (devs s2 b = set_mem m' (seqZ pfn n ++ live (devs s b)) (devs s b)) as Hd2
    by (unfold s2; by rewrite devs_upd).
  assert (allocated pfn pages s s2) as Hal.
  { unfold allocated, dev_inv. rewrite Hd2. split_and!; try done; [| | | | |by exists l].
    - intros d Hd. unfold s2. by rewrite devs_upd_ne.
    - split_and!; [done|done|]. intros x. simpl. by destruct (Z.eqb_spec x b) as [->|].
    - by eexists.
    - unfold over_network, s2. by rewrite devs_upd, devs_upd_ne by done.
    - simpl. by rewrite Hpg. }
  assert (devs s2 a = devs s a) as Ea by (by apply Hal).
  assert (Forall (dev_pfn bpa) pages) as Hdev.
  { apply Forall_forall. intros q Hq. destruct Ha as [_ _ _ _ (_ & Hdev & _)].
    apply Hdev, elem_of_app. left. rewrite Hlive. apply elem_of_app. by left. }
  wp_seq (copy_pages_spec pages pfn n).
  { done. }
  { split; [lia|done]. }
  { done. }
  { rewrite Ea. apply (inv_base _ _ _ Ha). }
  { rewrite Hd2. apply (inv_base _ _ _ Hinv'). }
  { by rewrite Hd2. }
  { by rewrite Hd2. }
  intros res' s3 (ec & eh & H3 & Hform).
  assert ((exists src0, mm s3 = mm_migrating src0)) as Hco3.
  { destruct H3 as [Hio _]. rewrite (io2_mm _ _ Hio). by eexists. }
  unfold nonzero. destruct (Z.eqb_spec res' 0) as [->|Hr]; cbn [negb].
  - apply wp_bind, wp_call; [done|]. intros msrc s4 (m0 & _ & _ & ->).
    eapply wp_mono; [by eapply copied_ended|]. intros o s5 (r & -> & H5). done.
  - pose proof H3 as (Hio & _ & _ & Hneg & _).
    destruct Hal as (A1 & A2 & A3 & _ & A4 & A5 & A6 & A7 & A8 & _ & A10 & _).
    assert (dev_inv bpb b s3) as Hi3.
    { unfold dev_inv. by rewrite (io2_mem _ _ Hio), (io2_live _ _ Hio). }
    wp_seq put_pages_spec; [done|done|exact Hi3|by rewrite (io2_live _ _ Hio), A5|].
    intros [] s4 (Hmo & Hi4 & Hl4).
    apply wp_bind, wp_call; [simpl; by rewrite (mo_mm _ _ _ Hmo)|]. intros [] s5 ->.
    apply wp_ret. eapply (given_up_ended _ array pfn s s2 s3); try done; [lia|by left|].
    split_and!; try done. destruct Hmo. by split.
Qed.

Lemma d2d_retry_loop_spec (fuel : nat) (array retry_cnt : Z) (s : sys T) :
  dev_inv bpa a s -> dev_inv bpb b s -> mm s = mm_locked -> array ∈ heap s ->
  0 <= rdma_bar (devs s b) -> rdma_bar (devs s b) + PHYS_MEM_SIZE <= 2 ^ 64 ->
  - 2 ^ 31 <= retry_cnt < 2 ^ 31 - 1 -> 4 - retry_cnt < Z.of_nat fuel -> (0 < fuel)%nat ->
  wp M (retry_loop poll_fuel page_of migrating fuel a b va n array retry_cnt) s
    (fun res s' => ended2 res va n array s s').
Proof.
  revert retry_cnt s. induction fuel as [|fuel IH]; [lia|].
  intros r s Ha Hb Hc Harr Hbar Hbar' Hr Hf _. cbn [retry_loop].
  wp_seq d2d_attempt_spec; [done..|]. intros [res|] s1 H1; [by apply wp_ret|]. destruct H1 as [m ->].
  set (s1 := set_mm mm_locked (set_migr m s)).
  assert (forall res s', ended2 res va n array s1 s' -> ended2 res va n array s s') as Hback by done.
  rewrite (s32_small (r + 1)) by lia. rewrite Z.gtb_ltb. destruct (Z.ltb_spec 3 (r + 1)).
  - apply wp_ret, Hback. split_and!; try done. exists [], []. by rewrite !app_nil_r.
  - eapply wp_mono; [apply IH; try done; lia|]. intros res s'. apply Hback.
Qed.

Lemma d2d_mmu_write (w : Z) (o : mmu_op) (s : sys T) :
  (forall v p, decode_mmu v p w = o) -> issues a [] [] [o] s (wr a mmu_cmd w s).
Proof. intros Ho. pose proof (wr_mmu a w s) as H. by rewrite Ho in H. Qed.

(** The source's IOMMU is switched off, the range invalidated, and switched on
    again before the pages are copied. *)
Definition fenced : list mmu_op := [Deactivate; Invalidate va (n mod 65536); Activate].

(** [s1] is [s] after the IOMMU of the source has been told. *)
Definition fence (s s1 : sys T) : Prop :=
  s1 = s \/ issues a [] [] fenced s s1.

Lemma d2d_range_spec (retry_cnt array : Z) (s : sys T) :
  dev_inv bpa a s -> dev_inv bpb b s -> mm s = mm_locked -> array ∈ heap s ->
  0 <= rdma_bar (devs s b) -> rdma_bar (devs s b) + PHYS_MEM_SIZE <= 2 ^ 64 ->
  (busy s < busy_fuel)%nat -> - 2 ^ 31 <= retry_cnt < 2 ^ 31 - 1 ->
  wp M (migrate_vma_range poll_fuel busy_fuel page_of migrating retry_cnt a b va n array) s
    (fun res s' => exists s1, fence s s1 /\ (res = 0 -> issues a [] [] fenced s s1) /\
       ended2 res va n array s1 s').
Proof.
  intros Ha Hb Hc Harr Hbar Hbar' Hbusy Hr. unfold migrate_vma_range.
  apply wp_bind, wp_call; [simpl; congruence|]. intros [|] s0 ->.
  2:{ apply wp_ret. exists s. split; [by left|]. split; [done|]. split_and!; try done.
      exists [], []. by rewrite !app_nil_r. }
  apply wp_writeq. set (s1 := wr a mmu_cmd MMU_DEACTIVATE s).
  assert (issues a [] [] [Deactivate] s s1) as I1 by (by apply d2d_mmu_write). clearbody s1.
  wp_seq invalidate_tlb_range_spec; [lia|]. intros [] s2 I2.
  pose proof (issues_trans _ _ _ _ _ _ _ _ _ _ I1 I2) as I12. simpl in I12.
  wp_seq wait_mmu_idle_spec.
  { unfold MMU_STATUS_ANY_MEM_ACCESS. lia. }
  { destruct I12 as [Hio _]. pose proof (io_busy _ _ _ Hio). lia. }
  intros [] s3 Q3. pose proof (issues_trans _ _ _ _ _ _ _ _ _ _ I12 (quiet_issues _ _ _ Q3)) as I13.
  apply wp_writeq. set (s4 := wr a mmu_cmd MMU_ACTIVATE s3).
  assert (issues a [] [] [Activate] s3 s4) as I4 by (by apply d2d_mmu_write). clearbody s4.
  pose proof (issues_trans _ _ _ _ _ _ _ _ _ _ I13 I4) as I14. simpl in I14.
  pose proof I14 as (Hio & _).
  assert (devs s4 b = devs s b) as Eb by (apply (io_other _ _ _ Hio); congruence).
  eapply wp_mono; [apply d2d_retry_loop_spec; try done; try lia|].
  - unfold dev_inv. by rewrite (io_mem _ _ _ Hio), (io_live _ _ _ Hio).
  - unfold dev_inv. by rewrite Eb.
  - by rewrite (io_mm _ _ _ Hio).
  - by rewrite (io_heap _ _ _ Hio).
  - by rewrite Eb.
  - by rewrite Eb.
  - intros res s5 H5. exists s4. split; [by right|]. split; [done|exact H5].
Qed.

Lemma dev_to_dev_spec (retry_cnt : Z) (s : sys T) :
  dev_inv bpa a s -> dev_inv bpb b s -> mm s = mm_locked ->
  0 <= rdma_bar (devs s b) -> rdma_bar (devs s b) + PHYS_MEM_SIZE <= 2 ^ 64 ->
  (busy s < busy_fuel)%nat -> - 2 ^ 31 <= retry_cnt < 2 ^ 31 - 1 ->
  wp M (svm_migrate_dev_to_dev poll_fuel busy_fuel page_of migrating retry_cnt a b va n) s
    (fun res s' =>
       (res = - ENOMEM /\ exists h, Permutation h (heap s) /\ s' = set_heap h s) \/
       exists array s0 s1 s2 h0 h, s0 = set_heap h0 s /\ fence s0 s1 /\
         (res = 0 -> issues a [] [] fenced s0 s1) /\ ended2 res va n array s1 s2 /\
         s' = set_heap h s2 /\
         (Permutation h (heap s) \/ res = 0 /\ Permutation h (array :: heap s))).
Proof.
  intros Ha Hb Hc Hbar Hbar' Hbusy Hr. unfold svm_migrate_dev_to_dev.
  wp_seq kcalloc_arrays_spec. intros arrays s1 (h & Hh & ->).
  assert (wp M (kfree_arrays arrays;;; Ret (- ENOMEM)) (set_heap h s) (fun res s' =>
    res = - ENOMEM /\ exists h, Permutation h (heap s) /\ s' = set_heap h s)) as Hfail.
  { wp_seq (kfree_arrays_spec _ _ _ _ _ _ _ (heap s)); [done|]. intros [] s2 (h' & Hh' & ->).
    apply wp_ret. split; [done|]. by exists h'. }
  destruct arrays as [|[a1|] [|[a2|] [|[a3|] [|[a4|] [|]]]]];
    try (eapply wp_mono; [exact Hfail|]; intros; by left).
  clear Hfail. simpl in Hh.
  wp_seq (d2d_range_spec retry_cnt a3 (set_heap h s)); try done.
  { simpl. rewrite Hh. set_solver. }
  intros res s2 (s1 & Hfence & Hf0 & Hend).
  assert (heap s1 = h) as Hh1.
  { destruct Hfence as [->|(Hio & _)]; [done|]. by rewrite (io_heap _ _ _ Hio). }
  pose proof Hend as (_ & _ & _ & _ & _ & _ & _ & tc & th & _ & _ & Hcase).
  assert (Permutation (heap s2) (omap (fun p => p)
      (if res =? 0 then [Some a4; Some a2; Some a1] else [Some a1; Some a2; Some a3; Some a4]) ++
      heap s) \/ res = 0 /\ Permutation (heap s2) ([a4; a2; a1] ++ a3 :: heap s)) as Hheap.
  { destruct (Z.eqb_spec res 0) as [->|].
    - destruct Hcase as (? & ? & ? & ? & ? & _ & _ & _ & _ & _ & _ & _ & _ & _ & _ & _ & [Hhp|Hhp] & _);
        rewrite Hh1 in Hhp; [left|right; split; [done|]].
      + apply (Permutation_cons_inv (a := a3)). rewrite <- Hhp, Hh. simpl. solve_Permutation.
      + rewrite Hhp, Hh. solve_Permutation.
    - left. destruct Hcase as (_ & _ & _ & Hhp & _). by rewrite Hhp, Hh1. }
  apply wp_bind. destruct Hheap as [Hheap|[-> Hheap]].
  - eapply wp_mono; [apply (kfree_arrays_spec _ _ _ _ _ _ _ _ Hheap)|].
    intros [] s3 (h' & Hh' & ->). apply wp_ret. right.
    exists a3, (set_heap h s), s1, s2, h, h'. split_and!; try done. by left.
  - eapply wp_mono; [apply (kfree_arrays_spec _ _ _ _ _ _ _ (a3 :: heap s)); exact Hheap|].
    intros [] s3 (h' & Hh' & ->). apply wp_ret. right.
    exists a3, (set_heap h s), s1, s2, h, h'. split_and!; try done. by right.
Qed.

End Range.
End Spec.

(** ** The properties *)
Section Properties.
Context {T : Type} {IT : IntervalTree T} {Laws : IntervalTreeLaws T}.
Variable poll_fuel busy_fuel : nat.
Variable page_of : Z -> option Z.
Variable migrating : Z -> bool.
Variable dma_of : Z -> Z.
Variable populated : Z -> bool.
Variable tick : Z.
Variable faults : kernel_faults.
Notation M := (svm_model page_of dma_of populated tick faults).

(** The window of the destination, if it has one, is addressable. *)
Definition window_ok (d : Z) (s : sys T) : Prop :=
  0 <= rdma_bar (devs s d) /\ rdma_bar (devs s d) + PHYS_MEM_SIZE <= 2 ^ 64.

(** C19: svm_migrate_dev_to_dev, whatever the kernel and the hardware answer and
    with any of the three copy methods: it terminates, uses every service
    legally, leaves no DMA mapping or set-up migration behind, keeps the memory of
    both devices consistent and touches no other device.  After an error both
    devices hold what they held, no translation has been added to the
    destination, the intervals are unchanged and all arrays are freed. *)
Theorem dev_to_dev_safe (bpa bpb a b va npages retry_cnt : Z) (s : sys T) :
  platform_ok poll_fuel dma_of tick -> range_ok va npages -> a <> b ->
  device_ok bpa a s -> device_ok bpb b s -> window_ok b s ->
  mm s = mm_locked -> (busy s < busy_fuel)%nat -> - 2 ^ 31 <= retry_cnt < 2 ^ 31 - 1 ->
  wp M (svm_migrate_dev_to_dev poll_fuel busy_fuel page_of migrating retry_cnt a b va npages) s (fun res s' =>
    Permutation (maps s') (maps s) /\ host s' = host s /\ mm s' = mm_locked /\
    device_ok bpa a s' /\ device_ok bpb b s' /\
    (forall d, d <> a -> d <> b -> devs s' d = devs s d) /\
    (res <> 0 -> res < 0 /\ Permutation (heap s') (heap s) /\
       live (devs s' a) = live (devs s a) /\
       Permutation (live (devs s' b)) (live (devs s b)) /\ mmu s' b = mmu s b /\
       forall d, vmem_intervals (devs s' d) = vmem_intervals (devs s d))).
Proof.
  intros (Ht & Hp & Hd) (Hn & Hph & Hv) Hab (Ha1 & Ha2 & Ha) (Hb1 & Hb2 & Hb) [Hw1 Hw2] Hc Hbusy Hr.
  assert (0 < npages < 2 ^ 31) as Hn'.
  { rewrite PHYS_MEM_SIZE_eq in Hph. unfold PAGE_SIZE in Hph. lia. }
  eapply wp_mono; [by apply (dev_to_dev_spec poll_fuel busy_fuel page_of migrating dma_of populated
    tick faults Ht Hp Hd a b bpa bpb Hab (conj Ha1 Ha2) (conj Hb1 Hb2) va npages Hn' Hph Hv)|].
  intros res s' [(-> & h & Hh & ->)|(array & s0 & s1 & s2 & h0 & h & -> & Hf & _ & Hend & -> & Hheap)].
  { split_and!; try done. }
  destruct Hend as (O & Hm & Hho & Hc2 & _ & Hia & Hib & tc & th & _ & _ & Hcase).
  assert ((forall d, d <> a -> devs s1 d = devs s d) /\ live (devs s1 a) = live (devs s a) /\
    vmem_intervals (devs s1 a) = vmem_intervals (devs s a) /\ maps s1 = maps s /\
    host s1 = host s) as (F1 & F2 & F3 & F4 & F5).
  { destruct Hf as [->|([] & _)]; done. }
  split_and!; try done.
  - by rewrite <- F4.
  - by rewrite <- F5.
  - intros d Hda Hdb. simpl. by rewrite O, F1.
  - intros Hres. destruct (Z.eqb_spec res 0) as [->|]; [done|].
    destruct Hcase as (Hneg & Hla & Hlb & _ & _ & Hmb & Htr). unfold mmu in *. rewrite F1 in * by congruence.
    split_and!; try done; [by destruct Hheap as [|[? _]]|by rewrite <- F2|].
    intros d. simpl. rewrite Htr. destruct (decide (d = a)) as [->|]; [done|]. by rewrite F1.
Qed.

(** C20: when svm_migrate_dev_to_dev succeeds, the range has moved.  The kernel
    was asked to migrate the range from [va] on, found the device pages [pages]
    there, in the order of the addresses, and was given the destination's frames
    pfn, pfn + 1, ... for them in the same order.  The copy sends page i of
    [pages] to frame pfn + i, every page once, by the method the configuration of
    the two devices selects ([copy_form]: the network when both have an interface,
    else the destination's window if it has one, else a buffer in host memory).
    The source's pages are no longer in use there, those of the destination are;
    the IOMMU of the source was told to invalidate the range while it was off,
    that of the destination got exactly the translations of the range; the range
    is removed from the intervals of the source and added to those of the
    destination (unless its node cannot be allocated).  Conditions: an aligned
    range of whole pages inside one interval of the source and disjoint from the
    intervals of the destination, memory of both devices consistent, an
    addressable window, mmap lock held, bus addresses below 2^48, enough fuel for
    the timeouts. *)
Theorem dev_to_dev_moves (bpa bpb a b va npages retry_cnt : Z) (m : node) (s : sys T) :
  platform_ok poll_fuel dma_of tick -> range_ok va npages -> a <> b ->
  device_ok bpa a s -> device_ok bpb b s -> window_ok b s ->
  mm s = mm_locked -> (busy s < busy_fuel)%nat -> - 2 ^ 31 <= retry_cnt < 2 ^ 31 - 1 ->
  va mod PAGE_SIZE = 0 ->
  wf_nodes (it_nodes (vmem_intervals (devs s a))) ->
  m ∈ it_nodes (vmem_intervals (devs s a)) ->
  start m <= va -> va + npages * PAGE_SIZE <= last m + 1 ->
  wf_nodes (it_nodes (vmem_intervals (devs s b))) ->
  (forall x, va <= x < va + npages * PAGE_SIZE ->
     ~ covered (it_nodes (vmem_intervals (devs s b))) x) ->
  wp M (svm_migrate_dev_to_dev poll_fuel busy_fuel page_of migrating retry_cnt a b va npages) s (fun res s' => res = 0 ->
    exists pages pfn ms tc th,
      Z.of_nat (length pages) = npages /\
      migr s' = mk_migration va (map Some pages) (seqZ pfn npages) /\
      c2h s' a = c2h s a ++ tc /\ h2c s' b = h2c s b ++ th /\
      copy_form bpa bpb (network_dma_enabled (devs s a) && network_dma_enabled (devs s b))
        (rdma_bar (devs s b)) pfn pages
        (mbind pages_of tc) (mbind pages_of th) /\
      Permutation (live (devs s a)) (pages ++ live (devs s' a)) /\
      Permutation (live (devs s' b)) (seqZ pfn npages ++ live (devs s b)) /\
      mmu s' a = mmu s a ++ fenced va npages /\ mmu s' b = mmu s b ++ ms /\
      mbind mappings_of ms = translations va (pfn_to_dev_addr bpb pfn) 0 npages /\
      (forall x, va <= x < va + npages * PAGE_SIZE ->
         ~ covered (it_nodes (vmem_intervals (devs s' a))) x) /\
      ((forall x, covered (it_nodes (vmem_intervals (devs s' b))) x <->
          covered (it_nodes (vmem_intervals (devs s b))) x \/
          va <= x < va + npages * PAGE_SIZE) \/
       (node_fails faults = true /\ vmem_intervals (devs s' b) = vmem_intervals (devs s b)))).
Proof.
  intros (Ht & Hp & Hd) (Hn & Hph & Hv) Hab (Ha1 & Ha2 & Ha) (Hb1 & Hb2 & Hb) [Hw1 Hw2] Hc Hbusy Hr
    Hal Hwfa Hma Hsm Hlm Hwfb Hunc.
  assert (0 < npages < 2 ^ 31) as Hn'.
  { rewrite PHYS_MEM_SIZE_eq in Hph. unfold PAGE_SIZE in Hph. lia. }
  eapply wp_mono; [by apply (dev_to_dev_spec poll_fuel busy_fuel page_of migrating dma_of populated
    tick faults Ht Hp Hd a b bpa bpb Hab (conj Ha1 Ha2) (conj Hb1 Hb2) va npages Hn' Hph Hv)|].
  intros res s' [(-> & _)|(array & s0 & s1 & s2 & h0 & h & -> & _ & Hf & Hend & -> & _)] Hres;
    [done|]. subst res.
  destruct (Hf eq_refl) as (Hio & _ & _ & Hcf & Hmf). simpl in Hcf, Hmf.
  destruct Hend as (_ & _ & _ & _ & _ & _ & _ & tc & th & Htc & Hth & pages & pfn & ms & ok1 & ok2 &
    _ & _ & Hok2 & H1 & Hmig & H2 & H3 & H4 & H5 & H6 & H7 & _ & H9 & H10).
  assert (devs s1 b = devs s b) as Eb by (apply (io_other _ _ _ Hio); congruence).
  unfold over_network in H2. rewrite (io_net _ _ _ Hio) in H2.
  rewrite Eb, (io_live _ _ _ Hio), (io_tree _ _ _ Hio) in *. simpl in *.
  exists pages, pfn, ms, tc, th. unfold c2h, h2c, mmu in *. simpl. rewrite app_nil_r in Hcf.
  rewrite Eb in *.
  destruct (remove_vmem_interval_spec ok1 (vmem_intervals (devs s a)) m va npages) as [_ Hcov];
    try done.
  split_and!; try done.
  - by rewrite Htc, Hcf.
  - by rewrite H5, Hmf.
  - intros x Hx Hcx. rewrite H9 in Hcx. apply Hcov in Hcx as (_ & ? & _). done.
  - rewrite H10. destruct ok2; [left|right; split; [by apply Hok2|done]].
    by destruct (insert_vmem_interval_spec (vmem_intervals (devs s b)) va npages)
      as (t' & -> & _ & ?); try lia.
Qed.

End Properties.

(** ** Witnesses: the range moves from device 0 to device 1 *)

Definition demo_pair : sys ListTree.tree :=
  mk_sys (fun d => if d =? 0 then demo_dev2 else demo_dev) [] [] [] mm_locked 0 0 no_migration [].

Lemma demo_pair_ok :
  range_ok 65536 2 /\ device_ok 1048576 0 demo_pair /\ device_ok 1048576 1 demo_pair /\
  window_ok 1 demo_pair.
Proof.
  split_and!; [unfold range_ok; split_and!; vm_compute; congruence|apply demo_device2
    |apply demo_device|vm_compute; split; congruence].
Qed.

Lemma dev_to_dev_safe_witness :
  wp (svm_model Some (fun _ => 4096) (fun _ => true) 1000000 (mk_faults true true))
    (svm_migrate_dev_to_dev 1000 1 Some (fun _ => true) 0 0 1 65536 2) demo_pair
    (fun res s' => Permutation (maps s') [] /\ host s' = []).
Proof.
  pose proof demo_pair_ok as (H1 & H2 & H3 & H4).
  eapply wp_mono; [apply (dev_to_dev_safe 1000 1 Some (fun _ => true) (fun _ => 4096)
    (fun _ => true) 1000000 (mk_faults true true) 1048576 1048576 0 1 65536 2 0 demo_pair demo_platform H1
    ltac:(lia) H2 H3 H4 eq_refl Nat.lt_0_1)|].
  - split; vm_compute; congruence.
  - intros res s' (H & H' & _). split; [exact H|exact H'].
Defined.

Lemma dev_to_dev_moves_witness :
  wp (svm_model Some (fun _ => 4096) (fun _ => true) 1000000 (mk_faults true true))
    (svm_migrate_dev_to_dev 1000 1 Some (fun _ => true) 0 0 1 65536 2) demo_pair
    (fun res s' => res = 0 -> ~ covered (it_nodes (vmem_intervals (devs s' 0))) 65536).
Proof.
  pose proof demo_pair_ok as (H1 & H2 & H3 & H4).
  eapply wp_mono; [apply (dev_to_dev_moves 1000 1 Some (fun _ => true) (fun _ => 4096)
    (fun _ => true) 1000000 (mk_faults true true) 1048576 1048576 0 1 65536 2 0 (mk_node 65536 73727) demo_pair
    demo_platform H1 ltac:(lia) H2 H3 H4 eq_refl Nat.lt_0_1)|].
  - split; vm_compute; congruence.
  - reflexivity.
  - apply demo_tree2_wf.
  - by apply list_elem_of_singleton.
  - vm_compute. congruence.
  - vm_compute. congruence.
  - apply wf_nodes_nil.
  - intros x _. apply demo_uncovered.
  - intros res s' H Hres.
    destruct (H Hres) as (pages & pfn & ms & tc & th & _ & _ & _ & _ & _ & _ & _ & _ & _ & _ & Hx & _).
    apply Hx. vm_compute. split; congruence.
Defined.

End DevToDev.
