(* ===== verification/Placement.v ===== *)
(** * Migration requests: which memory holds which page (pcie/pcie_svm.c)

    svm_migrate_to_device collects the intervals that the devices of a process
    hold of a range, and moves what is missing to one device, piece by piece, by
    svm_migrate_ram_to_dev and svm_migrate_dev_to_dev.  The user managed
    migrations call it, and svm_migrate_dev_to_ram, in blocks of 512 MB.

    The three movers are the interface [Migrator]; [MigratorLaws] says what they
    promise in terms of [placed], the device that holds an address.  The
    requests are proved against these laws; Movers.v shows that the code of
    RamToDev.v, DevToDev.v and DevToRam.v satisfies them. *)
From S2P Require Import Prelude Kernel.
From S2P Require Import DevMem DevPages Intervals SvmHw SvmSys SvmIo SvmCopy.

Module Placement.
Import Kernel DevMem DevPages Intervals SvmHw SvmSys SvmIo SvmCopy.
#[local] Open Scope prog_scope.

(** What the requests see of a device on the bus: struct tlkm_device, whether its
    svm_data is set, and the mm_struct the SVM was launched for. *)
Record bus_dev := mk_bus {
  vendor_id : Z;
  product_id : Z;
  pdev_id : Z;
  has_svm : bool;
  mm_id : Z
}.

Definition is_peer (my_mm : Z) (b : bus_dev) : bool :=
  (vendor_id b =? 0x10EE) && (product_id b =? 0x7038) && has_svm b && (mm_id b =? my_mm).

(** struct vmem_interval_list_entry: the object and the node copied to it. *)
Notation entry := (Z * node)%type.

(** The movers. *)
Class Migrator (T : Type) := {
  migrate_ram_to_dev (d va npages : Z) : prog (svmE T) Z;
  migrate_dev_to_dev (src dst va npages : Z) : prog (svmE T) Z;
  migrate_dev_to_ram (d va npages : Z) : prog (svmE T) Z
}.

Section Code.
Context {T : Type} {IT : IntervalTree T} {Mig : Migrator T}.
Notation P := (prog (svmE T)).

(** search_vmem_intervals with the list entries it allocates: those found
    before an allocation fails stay in the list. *)
Fixpoint search_entries_loop (fuel : nat) (t : T) (to : Z) (cur : option node)
    : P (Z * list entry) :=
  match fuel, cur with
  | S fuel', Some n =>
      let! p := call kmalloc_entry in
      match p with
      | None => Ret (- ENOMEM, [])
      | Some p =>
          let from := Z.min (u64 (last n + 1)) to in
          let! (res, l) :=
            search_entries_loop fuel' t to (interval_tree_iter_next t n from to) in
          Ret (res, (p, n) :: l)
      end
  | _, _ => Ret (0, [])
  end.

Definition search_entries (d vaddr npages : Z) : P (Z * list entry) :=
  let! c := call (get_dev d) in
  let t := vmem_intervals c in
  let to := u64 (vaddr + npages * PAGE_SIZE - 1) in
  search_entries_loop (length (it_nodes t)) t to (interval_tree_iter_first t vaddr to).

(** get virtual memory intervals of all devices in same process *)
Fixpoint collect_intervals (bus : list bus_dev) (my_mm vaddr npages : Z)
    : P (list (list entry)) :=
  match bus with
  | [] => Ret []
  | b :: bus' =>
      let! l :=
        (if is_peer my_mm b then
           let! (_, l) := search_entries (pdev_id b) vaddr npages in Ret l
         else Ret []) in
      let! ls := collect_intervals bus' my_mm vaddr npages in
      Ret (l :: ls)
  end.

(** search next interval on any device: its index on the bus and the entry;
    [next_start] is ULONG_MAX as long as there is none. *)
Definition next_start (best : option (nat * entry)) : Z :=
  match best with Some (_, (_, n)) => start n | None => u64 (- 1) end.

Fixpoint next_interval (j : nat) (lists : list (list entry)) (best : option (nat * entry))
    : option (nat * entry) :=
  match lists with
  | [] => best
  | l :: lists' =>
      let best :=
        match l with
        | [] => best
        | e :: _ => if start (snd e) <? next_start best then Some (j, e) else best
        end in
      next_interval (S j) lists' best
  end.

(** The pages between two addresses, as the int the code computes. *)
Definition npages_between (from to : Z) : Z := s32 (Z.shiftr (u64 (to - from)) PAGE_SHIFT).

(** interval is located in RAM: the result, and [i] and [curr_addr] afterwards *)
Definition migrate_ram_part (pdev vaddr to i curr_addr next : Z) : P (Z * Z * Z) :=
  if next >? curr_addr then
    let nmigrate := npages_between curr_addr (Z.min next to) in
    let! r := migrate_ram_to_dev pdev curr_addr nmigrate in
    let i := s32 (i + nmigrate) in
    Ret (r, i, u64 (vaddr + i * PAGE_SIZE))
  else Ret (0, i, curr_addr).

(** migrate next interval: the result, and [i] afterwards *)
Definition migrate_next (bus : list bus_dev) (pdev to i curr_addr : Z) (j : nat) (e : entry)
    : P (Z * Z) :=
  let (p, n) := e in
  let nmigrate := npages_between curr_addr (Z.min (u64 (last n + 1)) to) in
  let src_dev := match bus !! j with Some b => pdev_id b | None => 0 end in
  let! res :=
    (if negb (src_dev =? pdev)
     then migrate_dev_to_dev src_dev pdev curr_addr nmigrate
     else Ret 0) in
  call (kfree p);;;
  Ret (res, s32 (i + nmigrate)).

(** The loop of svm_migrate_to_device. *)
Fixpoint migrate_loop (fuel : nat) (bus : list bus_dev) (pdev vaddr npages i : Z)
    (lists : list (list entry)) : P Z :=
  match fuel with
  | O => call hang;;; Ret 0
  | S fuel' =>
      if i <? npages then
        let to := u64 (vaddr + npages * PAGE_SIZE) in
        let best := next_interval 0 lists None in
        let! (res, i, curr_addr) :=
          migrate_ram_part pdev vaddr to i (u64 (vaddr + i * PAGE_SIZE)) (next_start best) in
        if nonzero res then Ret res
        else
          match best with
          | None => migrate_loop fuel' bus pdev vaddr npages i lists
          | Some (j, e) =>
              let! (res, i) := migrate_next bus pdev to i curr_addr j e in
              if nonzero res then Ret res
              else migrate_loop fuel' bus pdev vaddr npages i (alter tail j lists)
          end
      else Ret 0
  end.

(** svm_migrate_to_device *)
Definition svm_migrate_to_device (bus : list bus_dev) (my_mm pdev vaddr npages : Z) : P Z :=
  let! array := call kalloc in
  match array with
  | None => Ret (- ENOMEM)
  | Some array =>
      let! lists := collect_intervals bus my_mm vaddr npages in
      let! res := migrate_loop (S (Z.to_nat npages)) bus pdev vaddr npages 0 lists in
      call (kfree array);;;
      Ret res
  end.

(** align start and end to page boundaries *)
Definition page_floor (x : Z) : Z := x - x mod PAGE_SIZE.
Definition page_ceil (x : Z) : Z :=
  if nonzero (x mod PAGE_SIZE) then u64 (page_floor x + PAGE_SIZE) else page_floor x.

(** do migration in 512 MB blocks *)
Fixpoint to_device_loop (fuel : nat) (bus : list bus_dev) (my_mm pdev va_start npages res : Z)
    : P Z :=
  match fuel with
  | O => call hang;;; Ret 0
  | S fuel' =>
      if npages >? 0 then
        let nmigrate := Z.min npages UMPM_MAX_PAGES in
        let! res := svm_migrate_to_device bus my_mm pdev va_start nmigrate in
        if nonzero res then Ret res
        else to_device_loop fuel' bus my_mm pdev (u64 (va_start + nmigrate * PAGE_SIZE))
               (npages - nmigrate) res
      else Ret res
  end.

(** pcie_svm_user_managed_migration_to_device; [res0] is the value of [res]
    before it is assigned. *)
Definition pcie_svm_user_managed_migration_to_device (res0 : Z) (bus : list bus_dev)
    (inst : bus_dev) (vaddr size : Z) : P Z :=
  let pdev := pdev_id inst in
  if negb (has_svm inst) then Ret (- EFAULT)
  else
    let! c := call (get_dev pdev) in
    if nonzero (error_state c) then Ret (- EFAULT)
    else
      let va_start := page_floor vaddr in
      let va_end := page_ceil (u64 (vaddr + size)) in
      let npages := npages_between va_start va_end in
      call (mmap_write_lock pdev);;;
      let! res := to_device_loop (S (Z.to_nat npages)) bus (mm_id inst) pdev va_start npages res0 in
      call (mmap_write_unlock pdev);;;
      Ret res.

(** The blocks of one interval; the result is the value of [res]. *)
Fixpoint to_ram_loop (fuel : nat) (d from nmigrate res : Z) : P Z :=
  match fuel with
  | O => call hang;;; Ret 0
  | S fuel' =>
      if nmigrate >? 0 then
        let n := Z.min nmigrate UMPM_MAX_PAGES in
        let! r := migrate_dev_to_ram d from n in
        if nonzero r then Ret r
        else to_ram_loop fuel' d (u64 (from + n * PAGE_SIZE)) (nmigrate - n) res
      else Ret res
  end.

(** The intervals found on one device. *)
Fixpoint to_ram_entries (d va_start va_end : Z) (l : list entry) (res : Z) : P Z :=
  match l with
  | [] => Ret res
  | (p, n) :: l' =>
      let from := Z.max va_start (start n) in
      let to := Z.min (u64 (last n + 1)) va_end in
      let nmigrate := npages_between from to in
      let! res := to_ram_loop (S (Z.to_nat nmigrate)) d from nmigrate res in
      call (kfree p);;;
      to_ram_entries d va_start va_end l' res
  end.

(** search and migrate intervals from all devices; entries of a search that
    failed stay in the list that the next device appends to *)
Fixpoint to_ram_devices (bus : list bus_dev) (my_mm va_start va_end npages : Z)
    (left : list entry) (res : Z) : P Z :=
  match bus with
  | [] => Ret res
  | b :: bus' =>
      if is_peer my_mm b then
        let! (r, l) := search_entries (pdev_id b) va_start npages in
        let l := left ++ l in
        if nonzero r then to_ram_devices bus' my_mm va_start va_end npages l res
        else
          let! res := to_ram_entries (pdev_id b) va_start va_end l res in
          to_ram_devices bus' my_mm va_start va_end npages [] res
      else to_ram_devices bus' my_mm va_start va_end npages left res
  end.

(** pcie_svm_user_managed_migration_to_ram *)
Definition pcie_svm_user_managed_migration_to_ram (bus : list bus_dev) (inst : bus_dev)
    (vaddr size : Z) : P Z :=
  let pdev := pdev_id inst in
  if negb (has_svm inst) then Ret (- EFAULT)
  else
    let! c := call (get_dev pdev) in
    if nonzero (error_state c) then Ret (- EFAULT)
    else
      let va_start := page_floor vaddr in
      let va_end := page_ceil (u64 (vaddr + size)) in
      let npages := npages_between va_start va_end in
      call (mmap_write_lock pdev);;;
      let! res := to_ram_devices bus (mm_id inst) va_start va_end npages [] 0 in
      call (mmap_write_unlock pdev);;;
      Ret res.

End Code.

(** ** The laws of the movers *)

Definition in_range (va npages x : Z) : Prop := va <= x < va + npages * PAGE_SIZE.

(** A range that is covered is covered by one interval: intervals that touch
    would have been merged. *)
Lemma covered_node (ns : list node) (lo hi : Z) :
  wf_nodes ns -> lo < hi -> (forall x, lo <= x < hi -> covered ns x) ->
  exists m, m ∈ ns /\ start m <= lo /\ hi <= last m + 1.
Proof.
  intros Hwf Hlt Hcov. destruct (Hcov lo) as (m & Hm & Hs); [lia|]. exists m. split_and!; [done|lia|].
  destruct (Z_le_gt_dec hi (last m + 1)) as [|Hgt]; [done|]. exfalso.
  destruct (Hcov (last m + 1)) as (k & Hk & Hks); [lia|].
  assert (k <> m) as Hne by (intros ->; lia). destruct Hwf as (_ & Hok & Hap).
  destruct (Hap k m Hk Hm Hne); lia.
Qed.

(** With nodes for the remainders, a removal removes exactly the range. *)
Lemma remove_exact {T : Type} {IT : IntervalTree T} {TL : IntervalTreeLaws T}
    (faults : kernel_faults) (t : T) (oks : list bool) (va n : Z) :
  node_fails faults = false ->
  wf_nodes (it_nodes t) -> va mod PAGE_SIZE = 0 -> 0 < n ->
  (forall x, in_range va n x -> covered (it_nodes t) x) ->
  Forall (node_answer faults) oks ->
  let t' := remove_vmem_interval oks t va n in
  wf_nodes (it_nodes t') /\
  forall x, covered (it_nodes t') x <-> covered (it_nodes t) x /\ ~ in_range va n x.
Proof.
  intros Hfl Hwf Hal Hn Hcov Ha.
  destruct (covered_node (it_nodes t) va (va + n * PAGE_SIZE)) as (m & Hm & Hs & Hl); try done.
  { unfold PAGE_SIZE. lia. }
  destruct (remove_vmem_interval_spec oks t m va n) as [W C]; try done. split; [done|].
  intros x. rewrite C. unfold in_range. split; [naive_solver|]. intros [? ?]. split_and!; try done.
  intros Hf. destruct Ha as [|ok oks Hok _]; [done|]. simpl in Hf. subst ok.
  specialize (Hok eq_refl). congruence.
Qed.

Section Laws.
Context {T : Type} {IT : IntervalTree T}.

(** Device [d] holds address [x]. *)
Definition placed (s : sys T) (d x : Z) : Prop :=
  covered (it_nodes (vmem_intervals (devs s d))) x.

(** No allocation of before has been freed. *)
Definition heap_grown (s s' : sys T) : Prop :=
  exists extra, Permutation (heap s') (extra ++ heap s).

(** And no more patience with the hardware is needed. *)
Definition grown (s s' : sys T) : Prop :=
  ((busy s' <= busy s)%nat /\ reported s' = reported s) /\ heap_grown s s'.

(** After a mover has succeeded the range is at [o] (None: in host memory) and
    nowhere else; everything else is where it was. *)
Definition relocated (ds : list Z) (o : option Z) (res va npages : Z) (s s' : sys T) : Prop :=
  forall x d, d ∈ ds ->
    (placed s' d x <->
     (res = 0 /\ in_range va npages x /\ o = Some d) \/
     (~ (res = 0 /\ in_range va npages x) /\ placed s d x)).

(** What the movers promise for a set of devices, under an invariant: a range
    that no device holds can be moved to one, a range that one device holds can
    be moved to another or to host memory. *)
Class MigratorLaws {Mig : Migrator T} (M : @model (svmE T) (sys T)) (ds : list Z)
    (Inv : sys T -> Prop) : Prop := {
  inv_locked (s : sys T) : Inv s -> mm s = mm_locked;
  inv_heap (s : sys T) (h : list Z) : Inv s -> Inv (set_heap h s);
  inv_reported (s : sys T) (l : list (Z * Z)) : Inv s -> Inv (set_reported l s);
  inv_io (s s' : sys T) (d : Z) : Inv s -> io_only d s s' -> Inv s';
  inv_wf (s : sys T) (d : Z) :
    Inv s -> d ∈ ds -> wf_nodes (it_nodes (vmem_intervals (devs s d)));
  inv_disjoint (s : sys T) (a b x : Z) :
    Inv s -> a ∈ ds -> b ∈ ds -> placed s a x -> placed s b x -> a = b;
  ram_to_dev_law (s : sys T) (d va npages : Z) :
    Inv s -> d ∈ ds -> range_ok va npages -> va mod PAGE_SIZE = 0 ->
    (forall x d', d' ∈ ds -> in_range va npages x -> ~ placed s d' x) ->
    wp M (migrate_ram_to_dev d va npages) s (fun res s' =>
      Inv s' /\ grown s s' /\ relocated ds (Some d) res va npages s s');
  dev_to_dev_law (s : sys T) (a b va npages : Z) :
    Inv s -> a ∈ ds -> b ∈ ds -> a <> b -> range_ok va npages -> va mod PAGE_SIZE = 0 ->
    (forall x, in_range va npages x -> placed s a x) ->
    wp M (migrate_dev_to_dev a b va npages) s (fun res s' =>
      Inv s' /\ grown s s' /\ relocated ds (Some b) res va npages s s');
  dev_to_ram_law (s : sys T) (d va npages : Z) :
    Inv s -> d ∈ ds -> range_ok va npages -> va mod PAGE_SIZE = 0 ->
    (forall x, in_range va npages x -> placed s d x) ->
    wp M (migrate_dev_to_ram d va npages) s (fun res s' =>
      Inv s' /\ grown s s' /\ relocated ds None res va npages s s')
}.

Lemma heap_grown_refl (s : sys T) : heap_grown s s.
Proof. by exists []. Qed.

Lemma heap_grown_trans (s1 s2 s3 : sys T) :
  heap_grown s1 s2 -> heap_grown s2 s3 -> heap_grown s1 s3.
Proof. intros [e1 H1] [e2 H2]. exists (e2 ++ e1). by rewrite H2, H1, app_assoc. Qed.

Lemma grown_refl (s : sys T) : grown s s.
Proof. split; [done|apply heap_grown_refl]. Qed.

Lemma grown_trans (s1 s2 s3 : sys T) : grown s1 s2 -> grown s2 s3 -> grown s1 s3.
Proof.
  intros [[B1 R1] H1] [[B2 R2] H2]. split; [split; [lia|congruence]|by eapply heap_grown_trans].
Qed.

End Laws.

(** ** The next interval *)

(** The chosen entry is the head of its list, and no head starts before it. *)
Definition chosen (lists : list (list entry)) (best : option (nat * entry)) : Prop :=
  match best with
  | None => forall l, l ∈ lists -> l = []
  | Some (j, e) =>
      (exists l, lists !! j = Some (e :: l)) /\
      forall e' l, e' :: l ∈ lists -> start (snd e) <= start (snd e')
  end.

Definition starts_ok (lists : list (list entry)) : Prop :=
  forall e l, e :: l ∈ lists -> start (snd e) < u64 (- 1).

Lemma next_interval_chosen (lists seen : list (list entry)) (best : option (nat * entry)) :
  starts_ok (seen ++ lists) -> chosen seen best ->
  chosen (seen ++ lists) (next_interval (length seen) lists best).
Proof.
  revert seen best. induction lists as [|l lists IH]; intros seen best Hok Hbest;
    [by rewrite app_nil_r|].
  change (next_interval (length seen) (l :: lists) best) with
    (next_interval (S (length seen)) lists
       match l with
       | [] => best
       | e :: _ => if start (snd e) <? next_start best then Some (length seen, e) else best
       end).
  replace (S (length seen)) with (length (seen ++ [l])) by (rewrite length_app; simpl; lia).
  rewrite (cons_middle l), app_assoc in Hok |- *. apply IH; [done|].
  assert (forall e l', l = e :: l' -> start (snd e) < u64 (- 1)) as Hl.
  { intros e l' ->. apply (Hok e l'). set_solver. }
  destruct l as [|e l'].
  - destruct best as [[j e]|]; simpl in *.
    + destruct Hbest as [[k Hk] Hmin]. split.
      * exists k. by apply lookup_app_l_Some.
      * intros e' l'' [H|H%list_elem_of_singleton]%elem_of_app; [by eapply Hmin|done].
    + intros k [H|H%list_elem_of_singleton]%elem_of_app; [by apply Hbest|done].
  - destruct (Z.ltb_spec (start (snd e)) (next_start best)) as [Hlt|Hge].
    + split.
      * exists l'. rewrite lookup_app_r by lia. by rewrite Nat.sub_diag.
      * intros e' l'' [H|H%list_elem_of_singleton]%elem_of_app; [|by simplify_eq].
        destruct best as [[j [p n]]|]; simpl in *; [|by specialize (Hbest _ H)].
        destruct Hbest as [_ Hmin]. specialize (Hmin _ _ H). lia.
    + destruct best as [[j [p n]]|]; simpl in *.
      2:{ specialize (Hl e l' eq_refl). lia. }
      destruct Hbest as [[k Hk] Hmin]. split.
      * exists k. by apply lookup_app_l_Some.
      * intros e' l'' [H|H%list_elem_of_singleton]%elem_of_app; [by eapply Hmin|].
        by simplify_eq.
Qed.

(** ** Searches *)
Section Search.
Context {T : Type} {IT : IntervalTree T} {Laws : IntervalTreeLaws T}.
Variable page_of : Z -> option Z.
Variable dma_of : Z -> Z.
Variable populated : Z -> bool.
Variable tick : Z.
Variable faults : kernel_faults.
Notation M := (svm_model page_of dma_of populated tick faults).
#[local] Set Default Proof Using "Type*".

(** The entries are those of search_vmem_intervals for some answers of the
    allocator, and are the only new allocations. *)
Lemma search_entries_loop_spec (fuel : nat) (t : T) (to : Z) (cur : option node) (s : sys T) :
  wp M (search_entries_loop fuel t to cur) s (fun '(res, l) s' =>
    (exists oks, Forall (node_answer faults) oks /\
       search_loop fuel oks t to cur = (res, map snd l)) /\
    exists h, s' = set_heap h s /\ Permutation h (map fst l ++ heap s)).
Proof.
  revert cur s. induction fuel as [|fuel IH]; intros cur s.
  { apply wp_ret. split; [exists []; split; [constructor|done]|]. exists (heap s). split; [by destruct s|done]. }
  destruct cur as [n|].
  2:{ apply wp_ret. split; [exists []; split; [constructor|done]|]. exists (heap s). split; [by destruct s|done]. }
  cbn [search_entries_loop]. wp_do; [done|]. intros [p|] s1; simpl.
  - intros [_ ->]. wp_seq IH. intros [res l] s2 [(oks & Ha & Hl) (h & -> & Hh)]. apply wp_ret.
    simpl in *. split.
    + exists (true :: oks). split; [by constructor|]. simpl. by rewrite Hl.
    + exists h. split; [done|]. rewrite Hh. symmetry. apply Permutation_middle.
  - intros [Hf ->]. apply wp_ret. split.
    + exists [false]. split; [|done]. constructor; [by intros _|constructor].
    + exists (heap s). split; [by destruct s|done].
Qed.

Lemma collect_all (oks : list bool) (found : list node) :
  node_fails faults = false -> Forall (node_answer faults) oks -> collect oks found = (0, found).
Proof.
  intros Hf. revert oks. induction found as [|n found IH]; intros oks Ha; simpl; [done|].
  assert (hd true oks = true) as ->.
  { destruct Ha as [|ok oks Hok _]; [done|]. destruct ok; [done|]. by rewrite Hok in Hf. }
  rewrite IH; [done|]. by destruct Ha.
Qed.

Lemma search_entries_spec (d va npages : Z) (s : sys T) :
  node_fails faults = false -> wf_nodes (it_nodes (vmem_intervals (devs s d))) ->
  0 <= va -> 0 < npages -> va + npages * PAGE_SIZE <= VA_MAX ->
  wp M (search_entries d va npages) s (fun '(res, l) s' =>
    res = 0 /\
    map snd l = List.filter (overlaps va (va + npages * PAGE_SIZE - 1))
                  (it_nodes (vmem_intervals (devs s d))) /\
    exists h, s' = set_heap h s /\ Permutation h (map fst l ++ heap s)).
Proof.
  intros Hf Hwf Hva Hn Hend. unfold search_entries. wp_do; [done|]. intros c s1 [-> ->].
  eapply wp_mono; [apply search_entries_loop_spec|].
  intros [res l] s2 [(oks & Ha & Hl) Hh].
  rewrite u64_va, iter_first_spec in Hl by (unfold PAGE_SIZE in *; lia).
  rewrite (search_loop_spec _ _ _ [] va) in Hl by (done || lia).
  rewrite collect_all in Hl by done. injection Hl as <- <-. done.
Qed.

End Search.

(** ** What a list of entries says about a device *)

Lemma sorted_filter {A} (R : A -> A -> Prop) (f : A -> bool) (l : list A) :
  StronglySorted R l -> StronglySorted R (List.filter f l).
Proof.
  induction 1 as [|a l _ IH Hall]; simpl; [constructor|]. destruct (f a); [|done].
  constructor; [done|]. rewrite Forall_forall in Hall |- *.
  intros b Hb. apply Hall. by apply list_elem_of_In, List.filter_In in Hb as [Hb%list_elem_of_In _].
Qed.

Section Found.
Context {T : Type} {IT : IntervalTree T} {Laws : IntervalTreeLaws T}.

Definition below (a b : node) : Prop := last a + 1 < start b.

(** The entries are the intervals of [d] that meet [lo, hi), in order. *)
Definition found (s : sys T) (d lo hi : Z) (ns : list node) : Prop :=
  (forall x, lo <= x < hi -> placed s d x <-> covered ns x) /\
  (forall n, n ∈ ns -> node_ok n /\ start n < hi /\ lo <= last n) /\
  StronglySorted below ns.

Lemma nodes_below (t : T) : wf_nodes (it_nodes t) -> StronglySorted below (it_nodes t).
Proof.
  intros Hwf. assert (forall before rest, it_nodes t = before ++ rest -> StronglySorted below rest)
    as H; [|by apply (H [])].
  intros before rest. revert before. induction rest as [|n rest IH]; intros before Hs; [constructor|].
  constructor; [apply (IH (before ++ [n])); by rewrite <- app_assoc|].
  apply Forall_forall. intros m Hm. by apply (nodes_after t n m before rest).
Qed.

Lemma found_filter (s : sys T) (d lo hi : Z) :
  wf_nodes (it_nodes (vmem_intervals (devs s d))) ->
  found s d lo hi
    (List.filter (overlaps lo (hi - 1)) (it_nodes (vmem_intervals (devs s d)))).
Proof.
  intros Hwf. set (ns := it_nodes _) in *.
  assert (forall n, n ∈ List.filter (overlaps lo (hi - 1)) ns <->
            n ∈ ns /\ start n <= hi - 1 /\ lo <= last n) as Hin.
  { intros n. by rewrite list_elem_of_In, List.filter_In, overlaps_spec, list_elem_of_In. }
  split_and!.
  - intros x Hx. unfold placed, covered. setoid_rewrite Hin.
    split; intros (n & Hn & Hs); exists n; [|by destruct Hn]. split; [|done]. split; [done|lia].
  - intros n Hn%Hin. destruct Hwf as (_ & Hok & _). destruct Hn. split; [by apply Hok|lia].
  - by apply sorted_filter, nodes_below.
Qed.

Lemma found_state (s s' : sys T) (d lo hi : Z) (ns : list node) :
  (forall x, lo <= x < hi -> placed s' d x <-> placed s d x) ->
  found s d lo hi ns -> found s' d lo hi ns.
Proof. intros Heq (H1 & H2). split; [|done]. intros x Hx. by rewrite Heq, H1. Qed.

(** Moving on to a higher address that no entry lies below. *)
Lemma found_up (s : sys T) (d lo lo' hi : Z) (ns : list node) :
  lo <= lo' -> (forall n, n ∈ ns -> lo' <= last n) -> found s d lo hi ns -> found s d lo' hi ns.
Proof.
  intros Hle Hl (H1 & H2 & H3). split_and!; [intros x Hx; apply H1; lia| |done].
  intros n Hn. destruct (H2 n Hn) as (? & ? & _). auto.
Qed.

(** Dropping the first entry when the address moves to its end. *)
Lemma found_tail (s : sys T) (d lo hi : Z) (n : node) (ns : list node) :
  found s d lo hi (n :: ns) -> found s d (Z.min (last n + 1) hi) hi ns.
Proof.
  intros (H1 & H2 & H3). apply StronglySorted_inv in H3 as [H3 Hb]. rewrite Forall_forall in Hb.
  destruct (H2 n) as (Hn & ? & ?); [by left|]. split_and!; [| |done].
  - intros x Hx. rewrite H1 by lia. rewrite covered_cons. split; [|by right].
    intros [?|?]; [lia|done].
  - intros m Hm. destruct (H2 m) as (Hm' & ? & ?); [by right|]. specialize (Hb m Hm).
    unfold below in Hb. split_and!; try done. destruct Hm' as (? & ? & _). lia.
Qed.

(** The part of the first entry in the range is held by the device. *)
Lemma found_head (s : sys T) (d lo hi : Z) (n : node) (ns : list node) :
  found s d lo hi (n :: ns) ->
  forall x, Z.max lo (start n) <= x < Z.min (last n + 1) hi -> placed s d x.
Proof. intros (H1 & _) x Hx. apply H1; [lia|]. rewrite covered_cons. left. lia. Qed.

(** Nothing is held before the first entry. *)
Lemma found_before (s : sys T) (d lo hi : Z) (ns : list node) (x : Z) :
  found s d lo hi ns -> lo <= x < hi -> (forall n ns', ns = n :: ns' -> x < start n) ->
  ~ placed s d x.
Proof.
  intros (H1 & H2 & H3) Hx Hns Hp. apply H1 in Hp as (n & Hn & Hs); [|done].
  destruct ns as [|m ns]; [by apply elem_of_nil in Hn|]. specialize (Hns m ns eq_refl).
  apply elem_of_cons in Hn as [->|Hn]; [lia|].
  apply StronglySorted_inv in H3 as [_ Hb]. rewrite Forall_forall in Hb.
  specialize (Hb n Hn). unfold below in Hb. destruct (H2 m) as ((_ & ? & _) & _); [by left|]. lia.
Qed.

End Found.

(** ** Pages between page addresses *)
Lemma npages_between_eq (lo k : Z) :
  0 <= lo -> lo + k * PAGE_SIZE <= VA_MAX -> 0 <= k < 2 ^ 31 ->
  npages_between lo (lo + k * PAGE_SIZE) = k.
Proof.
  intros. unfold npages_between. replace (lo + k * PAGE_SIZE - lo) with (k * PAGE_SIZE) by lia.
  rewrite u64_va by (unfold PAGE_SIZE in *; lia). rewrite Z.shiftr_div_pow2 by done.
  change (2 ^ PAGE_SHIFT) with PAGE_SIZE. rewrite Z.div_mul by done. apply s32_small. lia.
Qed.

(** The pages that meet a region. *)
Lemma align_spec (v size : Z) :
  0 <= v -> 0 < size < 2 ^ 42 -> v + size <= VA_MAX ->
  let a := page_floor v in
  let b := page_ceil (u64 (v + size)) in
  0 <= a <= v /\ a mod PAGE_SIZE = 0 /\ v + size <= b /\ b <= VA_MAX /\
  0 < npages_between a b < 2 ^ 31 /\ b = a + npages_between a b * PAGE_SIZE.
Proof.
  intros Hv Hs Hmax. rewrite u64_va by lia. unfold page_floor, page_ceil.
  set (a := v - v mod PAGE_SIZE). set (w := v + size) in *.
  assert ((0 <= a <= v /\ v < a + PAGE_SIZE) /\ a mod PAGE_SIZE = 0) as [[Ha Hav] Hal]
    by (unfold a, PAGE_SIZE; dlia).
  set (b := if nonzero (w mod PAGE_SIZE) then u64 (page_floor w + PAGE_SIZE) else page_floor w).
  assert (w <= b < w + PAGE_SIZE /\ b mod PAGE_SIZE = 0 /\ b <= VA_MAX) as (Hb & Hbl & Hbm).
  { assert (VA_MAX mod PAGE_SIZE = 0) as Hm by done.
    unfold b, nonzero, page_floor. destruct (Z.eqb_spec (w mod PAGE_SIZE) 0); cbn [negb].
    - unfold PAGE_SIZE in *. dlia.
    - assert (w - w mod PAGE_SIZE + PAGE_SIZE <= VA_MAX) as Hle.
      { unfold PAGE_SIZE, VA_MAX in *. change (2 ^ 63) with 9223372036854775808 in *. dlia. }
      rewrite u64_va by (unfold PAGE_SIZE in *; dlia). unfold PAGE_SIZE in *. dlia. }
  assert (exists k, 0 < k < 2 ^ 31 /\ b = a + k * PAGE_SIZE) as (k & Hk & Hbk).
  { exists ((b - a) / PAGE_SIZE). clearbody a b. unfold w, PAGE_SIZE in *. dlia. }
  rewrite Hbk, npages_between_eq by lia. split_and!; try done; lia.
Qed.

Lemma relock {T : Type} (s : sys T) : mm s = mm_locked -> set_mm mm_locked (set_mm mm_unlocked s) = s.
Proof. destruct s. simpl. by intros ->. Qed.

(** ** Requests *)
Section Requests.
Context {T : Type} {IT : IntervalTree T} {Laws : IntervalTreeLaws T} {Mig : Migrator T}.
Variable page_of : Z -> option Z.
Variable dma_of : Z -> Z.
Variable populated : Z -> bool.
Variable tick : Z.
Variable faults : kernel_faults.
Notation M := (svm_model page_of dma_of populated tick faults).
Variable ds : list Z.
Variable Inv : sys T -> Prop.
Context {ML : MigratorLaws M ds Inv}.
Variable bus : list bus_dev.
Variable my_mm : Z.
Hypothesis nodes_ok : node_fails faults = false.
Hypothesis bus_ds : map pdev_id (List.filter (is_peer my_mm) bus) = ds.
Hypothesis ds_nodup : NoDup ds.
#[local] Set Default Proof Using "All".

Definition ptrs (lists : list (list entry)) : list Z := concat (map (map fst) lists).

Definition lists_ok (s : sys T) (lo hi : Z) : list bus_dev -> list (list entry) -> Prop :=
  Forall2 (fun b l => if is_peer my_mm b then found s (pdev_id b) lo hi (map snd l) else l = []).

Lemma peer_in (b : bus_dev) : b ∈ bus -> is_peer my_mm b = true -> pdev_id b ∈ ds.
Proof.
  intros Hb Hp. rewrite <- bus_ds. apply list_elem_of_fmap. exists b. split; [done|].
  by apply list_elem_of_In, List.filter_In; rewrite <- list_elem_of_In.
Qed.

(** Peers at different places of the bus are different devices. *)
Lemma peer_unique (j k : nat) (b c : bus_dev) :
  bus !! j = Some b -> bus !! k = Some c -> is_peer my_mm b = true -> is_peer my_mm c = true ->
  pdev_id b = pdev_id c -> j = k.
Proof.
  clear Inv ML. revert j k ds bus_ds ds_nodup.
  induction bus as [|a l IH]; intros j k ds' Hds Hnd Hj Hk Hb Hc Hbc; [done|].
  simpl in Hds. destruct (is_peer my_mm a) eqn:Ea.
  - subst ds'. simpl in Hnd. apply NoDup_cons in Hnd as [Hnin Hnd].
    assert (forall e, e ∈ l -> is_peer my_mm e = true -> pdev_id a <> pdev_id e) as Hne.
    { intros e He Hp Heq. apply Hnin. rewrite Heq. apply list_elem_of_fmap. exists e. split; [done|].
      by apply list_elem_of_In, List.filter_In; rewrite <- list_elem_of_In. }
    destruct j as [|j], k as [|k]; simpl in *; simplify_eq.
    + done.
    + exfalso. apply (Hne c); [by eapply list_elem_of_lookup_2|done|done].
    + exfalso. apply (Hne b); [by eapply list_elem_of_lookup_2|done|done].
    + f_equal. by eapply IH.
  - destruct j as [|j], k as [|k]; simpl in *; simplify_eq; try congruence. f_equal. by eapply IH.
Qed.

Lemma collect_intervals_spec (va npages : Z) (l : list bus_dev) (s : sys T) :
  (forall b, b ∈ l -> is_peer my_mm b = true ->
     wf_nodes (it_nodes (vmem_intervals (devs s (pdev_id b))))) ->
  0 <= va -> 0 < npages -> va + npages * PAGE_SIZE <= VA_MAX ->
  wp M (collect_intervals l my_mm va npages) s (fun lists s' =>
    lists_ok s va (va + npages * PAGE_SIZE) l lists /\
    exists h, s' = set_heap h s /\ Permutation h (ptrs lists ++ heap s)).
Proof.
  intros Hwf Hva Hn Hend. revert s Hwf. induction l as [|b l IH]; intros s Hwf;
    cbn [collect_intervals].
  { apply wp_ret. split; [constructor|]. exists (heap s). split; [by destruct s|done]. }
  apply wp_bind. eapply (wp_mono _ _ _ (fun e s' =>
    (if is_peer my_mm b
     then found s (pdev_id b) va (va + npages * PAGE_SIZE) (map snd e) else e = []) /\
    exists h, s' = set_heap h s /\ Permutation h (map fst e ++ heap s))).
  - destruct (is_peer my_mm b) eqn:Hb.
    2:{ apply wp_ret. split; [done|]. exists (heap s). split; [by destruct s|done]. }
    assert (wf_nodes (it_nodes (vmem_intervals (devs s (pdev_id b))))) as Hwb.
    { apply Hwf; [by left|done]. }
    wp_seq (search_entries_spec page_of dma_of populated tick faults); [done..|].
    intros [res e] s1 (_ & He & Hh). apply wp_ret. split; [|done]. rewrite He.
    by apply found_filter.
  - intros e s1 (He & h & -> & Hh). wp_seq IH.
    { intros c Hc. apply Hwf. by right. }
    intros lists s2 (Hl & h2 & -> & Hh2). apply wp_ret. split; [by constructor|].
    exists h2. split; [done|]. rewrite Hh2. simpl. rewrite Hh. unfold ptrs. simpl.
    rewrite <- app_assoc. apply Permutation_app_swap_app.
Qed.

Lemma lists_ok_state (s s' : sys T) (lo hi : Z) (lists : list (list entry)) :
  (forall d x, d ∈ ds -> lo <= x < hi -> placed s' d x <-> placed s d x) ->
  lists_ok s lo hi bus lists -> lists_ok s' lo hi bus lists.
Proof.
  intros Heq. unfold lists_ok. assert (forall b, b ∈ bus -> b ∈ bus) as Hsub by done. revert Hsub.
  generalize bus at 1 3 4. intros bs Hsub Hl. induction Hl as [|b l bs lists Hbl _ IH]; constructor.
  - destruct (is_peer my_mm b) eqn:Hp; [|done]. eapply found_state; [|done]. intros x Hx.
    apply Heq; [|done]. apply peer_in; [by apply Hsub; left|done].
  - apply IH. intros c Hc. apply Hsub. by right.
Qed.

Lemma lists_ok_up (s : sys T) (lo lo' hi : Z) (bs : list bus_dev) (lists : list (list entry)) :
  lo <= lo' -> (forall l n, l ∈ lists -> n ∈ map snd l -> lo' <= last n) ->
  lists_ok s lo hi bs lists -> lists_ok s lo' hi bs lists.
Proof.
  intros Hle Hall Hl. unfold lists_ok in *.
  induction Hl as [|b l bs lists Hbl _ IH]; constructor.
  - destruct (is_peer my_mm b); [|done]. eapply found_up; [done| |done].
    intros n. apply Hall. by left.
  - apply IH. intros k n Hk. apply Hall. by right.
Qed.

(** The list of a device, from the place of the device on the bus and back. *)
Lemma lists_ok_lookup (s : sys T) (lo hi : Z) (lists : list (list entry)) (j : nat)
    (e : entry) (l : list entry) :
  lists_ok s lo hi bus lists -> lists !! j = Some (e :: l) ->
  exists b, bus !! j = Some b /\ is_peer my_mm b = true /\ pdev_id b ∈ ds /\
    found s (pdev_id b) lo hi (map snd (e :: l)).
Proof.
  intros Hl Hj. destruct (Forall2_lookup_r _ _ _ _ _ Hl Hj) as (b & Hb & Hbl).
  exists b. destruct (is_peer my_mm b) eqn:Hp; [|done]. split_and!; try done.
  apply peer_in; [by eapply list_elem_of_lookup_2|done].
Qed.

Lemma lists_ok_device (s : sys T) (lo hi d : Z) (lists : list (list entry)) :
  lists_ok s lo hi bus lists -> d ∈ ds ->
  exists l, l ∈ lists /\ found s d lo hi (map snd l).
Proof.
  unfold lists_ok. intros Hl Hd. rewrite <- bus_ds in Hd.
  apply list_elem_of_fmap in Hd as (b & -> & Hb).
  apply list_elem_of_In, List.filter_In in Hb as [Hb%list_elem_of_In Hp].
  apply list_elem_of_lookup in Hb as [j Hj].
  destruct (Forall2_lookup_l _ _ _ _ _ Hl Hj) as (l & Hlj & Hf). rewrite Hp in Hf.
  exists l. split; [by eapply list_elem_of_lookup_2|done].
Qed.

Lemma lists_ok_starts (s : sys T) (lo hi : Z) (lists : list (list entry)) :
  lists_ok s lo hi bus lists -> starts_ok lists.
Proof.
  intros Hl e l He. apply list_elem_of_lookup in He as [j Hj].
  destruct (lists_ok_lookup _ _ _ _ _ _ _ Hl Hj) as (b & _ & _ & _ & _ & Hn & _).
  destruct (Hn (snd e)) as ((? & ? & ? & _) & _); [by left|].
  unfold VA_MAX in *. replace (u64 (-1)) with (2 ^ 64 - 1) by done. lia.
Qed.

(** No entry starts before the chosen one. *)
Lemma chosen_first (s : sys T) (lo hi : Z) (lists : list (list entry))
    (best : option (nat * entry)) (l : list entry) (n : node) :
  lists_ok s lo hi bus lists -> chosen lists best -> l ∈ lists -> n ∈ map snd l ->
  next_start best <= start n /\ start n <= last n.
Proof.
  intros Hl Hc Hin Hn. destruct l as [|e l]; [by apply elem_of_nil in Hn|].
  apply list_elem_of_lookup in Hin as Hin'. destruct Hin' as [j Hj].
  destruct (lists_ok_lookup _ _ _ _ _ _ _ Hl Hj) as (b & _ & _ & _ & _ & Hall & Hs).
  destruct (Hall n Hn) as ((_ & ? & _) & _). split; [|done].
  destruct best as [[k [p m]]|]; simpl in *; [|by specialize (Hc _ Hin)].
  destruct Hc as [_ Hmin]. specialize (Hmin _ _ Hin). simpl in Hmin.
  apply elem_of_cons in Hn as [->|Hn]; [done|].
  apply StronglySorted_inv in Hs as [_ Hb]. rewrite Forall_forall in Hb. specialize (Hb n Hn).
  destruct (Hall (snd e)) as ((_ & ? & _) & _); [by left|]. unfold below in Hb. lia.
Qed.

Lemma ptrs_alter (lists : list (list entry)) (j : nat) (e : entry) (l : list entry) :
  lists !! j = Some (e :: l) -> Permutation (ptrs lists) (fst e :: ptrs (alter tail j lists)).
Proof.
  clear. unfold ptrs. revert j. induction lists as [|k lists IH]; intros [|j] Hj; simpl in *; try done.
  - by injection Hj as ->.
  - rewrite (IH j Hj). symmetry. apply Permutation_middle.
Qed.

Section Range.
Variables pdev va npages : Z.
Hypothesis pdev_in : pdev ∈ ds.
Hypothesis range : range_ok va npages.
Hypothesis aligned : va mod PAGE_SIZE = 0.
Let hi := va + npages * PAGE_SIZE.
Let at_page (i : Z) := va + i * PAGE_SIZE.

Lemma range_bounds : 0 < npages < 2 ^ 31 /\ 0 <= va /\ hi <= VA_MAX /\ hi mod PAGE_SIZE = 0.
Proof.
  destruct range as (? & Hp & ? & ?). rewrite PHYS_MEM_SIZE_eq in Hp.
  unfold hi, PAGE_SIZE in *. split_and!; try lia. dlia.
Qed.

(** Up to [lo] the range is at [pdev]; everything else is where it was. *)
Definition held (s0 s : sys T) (lo : Z) : Prop :=
  Inv s /\ (forall x, va <= x < lo -> placed s pdev x) /\
  (forall x d, d ∈ ds -> ~ (va <= x < lo) -> placed s d x <-> placed s0 d x).

Definition allocs (t0 : sys T) (h0 : list Z) (lists : list (list entry)) (s : sys T) : Prop :=
  ((busy s <= busy t0)%nat /\ reported s = reported t0) /\
  exists extra, Permutation (heap s) (ptrs lists ++ extra ++ h0).

Definition progress (s0 : sys T) (t0 : sys T) (h0 : list Z) (s : sys T) (lo : Z)
    (lists : list (list entry)) : Prop :=
  held s0 s lo /\ lists_ok s lo hi bus lists /\ allocs t0 h0 lists s.

Lemma held_moved (s0 s s' : sys T) (i k : Z) :
  0 <= i -> 0 <= k -> held s0 s (at_page i) -> Inv s' ->
  relocated ds (Some pdev) 0 (at_page i) k s s' -> held s0 s' (at_page (i + k)).
Proof.
  intros Hi Hk (Hinv & Hdone & Hrest) Hinv' Hrel. unfold held, at_page, in_range, PAGE_SIZE in *.
  split_and!; [done|..].
  - intros x Hx. apply (Hrel x pdev pdev_in). unfold in_range, PAGE_SIZE.
    destruct (decide (va + i * 4096 <= x)); [left; split_and!; lia || done|right].
    split; [lia|]. apply Hdone. lia.
  - intros x d Hd Hx. rewrite (Hrel x d Hd). unfold in_range, PAGE_SIZE.
    rewrite <- Hrest by (done || lia). split; [intros [?|[_ ?]]; [lia|done]|right].
    split; [lia|done].
Qed.

Lemma relocated_failed (o : option Z) (res lo k : Z) (s s' : sys T) (d x : Z) :
  res <> 0 -> relocated ds o res lo k s s' -> d ∈ ds -> placed s' d x <-> placed s d x.
Proof. intros Hr Hrel Hd. rewrite (Hrel x d Hd). split; [intros [?|[_ ?]]; [lia|done]|by right; split; [lia|]]. Qed.

Lemma relocated_outside (o : option Z) (res lo k : Z) (s s' : sys T) (d x : Z) :
  ~ in_range lo k x -> relocated ds o res lo k s s' -> d ∈ ds -> placed s' d x <-> placed s d x.
Proof.
  intros Hr Hrel Hd. rewrite (Hrel x d Hd). unfold in_range in *.
  split; [intros [?|[_ ?]]; [lia|done]|right]. split; [lia|done].
Qed.

Lemma held_failed (o : option Z) (s0 s s' : sys T) (lo res va' k : Z) :
  res <> 0 -> held s0 s lo -> Inv s' -> relocated ds o res va' k s s' -> held s0 s' lo.
Proof.
  intros Hr (_ & Hdone & Hrest) Hinv' Hrel. split_and!; [done|..].
  - intros x Hx. rewrite relocated_failed by done. by apply Hdone.
  - intros x d Hd Hx. rewrite relocated_failed by done. by apply Hrest.
Qed.

Lemma allocs_grown (t0 : sys T) (h0 : list Z) (lists : list (list entry)) (s s' : sys T) :
  allocs t0 h0 lists s -> grown s s' -> allocs t0 h0 lists s'.
Proof.
  intros [[B1 R1] [e1 H1]] [[B2 R2] [e2 H2]].
  split; [split; [lia|congruence]|]. exists (e2 ++ e1). rewrite H2, H1.
  solve_Permutation.
Qed.

(** Another page address, as a number of pages. *)
Lemma pages_to (i lo : Z) :
  0 <= i -> at_page i <= lo -> lo <= hi -> lo mod PAGE_SIZE = 0 ->
  exists k, 0 <= k /\ i + k <= npages /\ lo = at_page (i + k).
Proof.
  intros Hi Hle Hhi Hm. exists ((lo - at_page i) / PAGE_SIZE).
  unfold at_page, hi, PAGE_SIZE in *. dlia.
Qed.

Lemma sub_range (i k : Z) :
  0 <= i -> 0 < k -> i + k <= npages ->
  range_ok (at_page i) k /\ at_page i mod PAGE_SIZE = 0 /\
  npages_between (at_page i) (at_page (i + k)) = k /\ s32 (i + k) = i + k /\
  u64 (at_page i) = at_page i.
Proof.
  intros Hi Hk Hik. destruct range_bounds as (Hn & Hva & Hmax & _). destruct range as (_ & Hp & _).
  unfold hi in *. assert (at_page (i + k) = at_page i + k * PAGE_SIZE) as ->
    by (unfold at_page, PAGE_SIZE; lia).
  split_and!.
  - unfold range_ok, at_page, PAGE_SIZE in *. lia.
  - unfold at_page, PAGE_SIZE in *. dlia.
  - apply npages_between_eq; unfold at_page, PAGE_SIZE in *; lia.
  - apply s32_small. lia.
  - apply u64_va. unfold at_page, PAGE_SIZE in *. lia.
Qed.

Lemma ram_part_spec (s0 : sys T) (t0 : sys T) (h0 : list Z) (i : Z) (lists : list (list entry))
    (best : option (nat * entry)) (s : sys T) :
  0 <= i < npages -> progress s0 t0 h0 s (at_page i) lists -> chosen lists best ->
  wp M (migrate_ram_part pdev va hi i (at_page i) (next_start best)) s
    (fun '(res, i', curr) s' => (res <> 0 /\ held s0 s' (at_page i) /\ allocs t0 h0 lists s') \/
       (res = 0 /\ curr = at_page i' /\ i <= i' /\ progress s0 t0 h0 s' (at_page i') lists /\
        match best with
        | None => i' = npages
        | Some (_, (_, n)) => i' < npages /\ start n <= at_page i'
        end)).
Proof.
  intros Hi (Hheld & Hlists & Halloc) Hc. unfold migrate_ram_part.
  destruct range_bounds as (Hn & Hva & Hmax & Hhi).
  assert (at_page i < hi) as Hlt by (unfold at_page, hi, PAGE_SIZE; lia).
  rewrite Z.gtb_ltb. destruct (Z.ltb_spec (at_page i) (next_start best)) as [Hnext|Hnext].
  2:{ apply wp_ret. right. split_and!; try done; try lia.
      destruct best as [[j [p n]]|]; simpl in *; [lia|].
      exfalso. unfold VA_MAX in *. replace (u64 (-1)) with (2 ^ 64 - 1) in Hnext by done. lia. }
  (* where the next interval, or the range, begins *)
  assert (exists k, 0 < k /\ i + k <= npages /\ Z.min (next_start best) hi = at_page (i + k) /\
      match best with
      | None => i + k = npages
      | Some (_, (_, n)) => i + k < npages /\ start n = at_page (i + k)
      end) as (k & Hk & Hik & Hmin & Hbest).
  { destruct best as [[j [p n]]|]; simpl in *.
    - destruct Hc as [[l Hj] _].
      destruct (lists_ok_lookup _ _ _ _ _ _ _ Hlists Hj) as (b & _ & _ & _ & _ & Hn' & _).
      destruct (Hn' n) as ((? & ? & ? & Hal & _) & ? & ?); [by left|].
      destruct (pages_to i (start n)) as (k & Hk & Hik & E); try lia.
      exists k. rewrite E in *. unfold at_page, hi, PAGE_SIZE in *. lia.
    - exists (npages - i). replace (i + (npages - i)) with npages by lia.
      split_and!; try lia. unfold VA_MAX in *. replace (u64 (-1)) with (2 ^ 64 - 1) by done.
      change (at_page npages) with hi. lia. }
  destruct (sub_range i k) as (Hr & Hal & Hnp & Hs & _); try lia.
  rewrite Hmin, Hnp, Hs. pose proof Hheld as (Hinv & _).
  wp_seq (ram_to_dev_law (ds := ds) (Inv := Inv)); [done..| |].
  { intros x d Hd Hx. destruct (lists_ok_device _ _ _ _ _ Hlists Hd) as (l & Hl & Hf).
    unfold in_range in Hx. assert (at_page i + k * PAGE_SIZE = at_page (i + k)) as E
      by (unfold at_page, PAGE_SIZE; lia).
    apply (found_before _ _ _ _ _ _ Hf); [lia|]. intros n ns Hns.
    destruct (chosen_first _ _ _ _ _ l n Hlists Hc Hl) as [? _]; [rewrite Hns; by left|]. lia. }
  intros res s1 (Hinv1 & Hg & Hrel). apply wp_ret.
  destruct (decide (res = 0)) as [->|Hres].
  2:{ left. split_and!; [done|by eapply held_failed|by eapply allocs_grown]. }
  right. assert (u64 (va + (i + k) * PAGE_SIZE) = at_page (i + k)) as ->.
  { apply u64_va. unfold hi, at_page, PAGE_SIZE in *. nia. }
  do 2 (split; [done|]). split; [lia|]. split; [split; [|split]|].
  - apply (held_moved s0 s s1 i k); done || lia.
  - eapply (lists_ok_state s); [|].
    + intros d x Hd Hx. eapply relocated_outside; [|exact Hrel|done].
      unfold in_range, at_page, PAGE_SIZE in *. lia.
    + eapply lists_ok_up; [| |exact Hlists]; [unfold at_page, PAGE_SIZE; lia|].
      intros l n Hl Hnl. destruct (chosen_first _ _ _ _ _ l n Hlists Hc Hl Hnl). lia.
  - by eapply allocs_grown.
  - destruct best as [[j [p n]]|]; [lia|done].
Qed.

(** The other lists are not touched by the end of the chosen interval. *)
Lemma others_above (s : sys T) (lo : Z) (lists : list (list entry)) (j k : nat) (p : Z)
    (n m : node) (l l' : list entry) :
  Inv s -> lo < hi -> lists_ok s lo hi bus lists -> lists !! j = Some ((p, n) :: l) ->
  lists !! k = Some l' -> j <> k -> start n <= lo -> m ∈ map snd l' ->
  Z.min (last n + 1) hi <= last m.
Proof.
  intros Hinv Hlo Hl Hj Hk Hjk Hst Hm. destruct l' as [|e l']; [by apply elem_of_nil in Hm|].
  destruct (lists_ok_lookup _ _ _ _ _ _ _ Hl Hj) as (b & Hb & Hpb & Hdb & Hfb & Hnb & _).
  destruct (lists_ok_lookup _ _ _ _ _ _ _ Hl Hk) as (c & Hc & Hpc & Hdc & Hfc & Hnc & _).
  destruct (Hnc m Hm) as ((_ & ? & _) & ? & ?).
  destruct (Z_lt_le_dec (last n) (Z.max (start m) lo)) as [|Hle]; [lia|]. exfalso.
  apply Hjk, (peer_unique j k b c); try done.
  apply (inv_disjoint (ds := ds) s _ _ (Z.max (start m) lo)); try done.
  - apply Hfb; [lia|]. simpl. rewrite covered_cons. left. lia.
  - apply Hfc; [lia|]. exists m. split; [done|lia].
Qed.

Lemma lists_ok_next (s s' : sys T) (lo lo' k : Z) (res : Z) (lists : list (list entry)) (j : nat) (p : Z)
    (n : node) (l : list entry) :
  Inv s -> lists_ok s lo hi bus lists -> lists !! j = Some ((p, n) :: l) -> start n <= lo ->
  lo < hi -> lo <= lo' -> lo' = Z.min (last n + 1) hi -> lo' = lo + k * PAGE_SIZE ->
  relocated ds (Some pdev) res lo k s s' -> lists_ok s' lo' hi bus (alter tail j lists).
Proof.
  intros Hinv Hl Hj Hst Hlo Hle Hlo' Hk Hrel. eapply (lists_ok_state s).
  { intros d x Hd Hx. eapply relocated_outside; [|exact Hrel|done]. unfold in_range. lia. }
  apply Forall2_same_length_lookup. split; [rewrite length_alter; by eapply Forall2_length|].
  intros i b l' Hb Hl'. destruct (decide (i = j)) as [->|Hne].
  - rewrite list_lookup_alter_eq, Hj in Hl'. injection Hl' as <-.
    destruct (lists_ok_lookup _ _ _ _ _ _ _ Hl Hj) as (b' & Hb' & Hp & _ & Hf).
    simplify_eq. rewrite Hp. by apply found_tail in Hf.
  - rewrite list_lookup_alter_ne in Hl' by done.
    pose proof (Forall2_lookup_lr _ _ _ _ _ _ Hl Hb Hl') as Hbl. simpl in Hbl.
    destruct (is_peer my_mm b); [|done]. eapply found_up; [exact Hle| |done].
    intros m Hm. subst lo'. by eapply (others_above s lo lists j i p n m).
Qed.

Lemma next_spec (s0 : sys T) (t0 : sys T) (h0 : list Z) (i : Z) (lists : list (list entry)) (j : nat) (p : Z)
    (n : node) (s : sys T) :
  0 <= i < npages -> progress s0 t0 h0 s (at_page i) lists -> chosen lists (Some (j, (p, n))) ->
  start n <= at_page i ->
  wp M (migrate_next bus pdev hi i (at_page i) j (p, n)) s (fun '(res, i') s' =>
    (res <> 0 /\ held s0 s' (at_page i) /\ allocs t0 h0 (alter tail j lists) s') \/
    (res = 0 /\ i < i' <= npages /\ progress s0 t0 h0 s' (at_page i') (alter tail j lists))).
Proof.
  intros Hi (Hheld & Hlists & Halloc) [[l Hj] _] Hst. pose proof Hheld as (Hinv & _).
  destruct range_bounds as (Hnp & Hva & Hmax & Hhi).
  destruct (lists_ok_lookup _ _ _ _ _ _ _ Hlists Hj) as (b & Hb & Hp & Hd & Hf).
  simpl in Hf. pose proof Hf as (_ & Hn & _). destruct (Hn n) as ((? & ? & ? & Hal & Hal') & ? & ?); [by left|].
  destruct (pages_to i (Z.min (last n + 1) hi)) as (k & Hk & Hik & Hmin); try lia.
  { unfold at_page, hi, PAGE_SIZE in *. lia. }
  { destruct (Z.min_spec (last n + 1) hi) as [[_ ->]|[_ ->]]; done. }
  assert (0 < k) as Hk0 by (unfold at_page, hi, PAGE_SIZE in *; lia).
  destruct (sub_range i k) as (Hr & Hal2 & Hnb & Hs & _); try lia.
  unfold migrate_next. rewrite u64_va by lia. rewrite Hmin, Hnb, Hs, Hb.
  assert (at_page i + k * PAGE_SIZE = at_page (i + k)) as Hend by (unfold at_page, PAGE_SIZE; lia).
  assert (forall x, in_range (at_page i) k x -> placed s (pdev_id b) x) as Hsrc.
  { intros x Hx. apply (found_head _ _ _ _ _ _ Hf). unfold in_range in Hx. lia. }
  apply wp_bind. eapply (wp_mono _ _ _ (fun res s1 =>
    Inv s1 /\ grown s s1 /\ relocated ds (Some pdev) res (at_page i) k s s1)).
  { destruct (Z.eqb_spec (pdev_id b) pdev) as [E|Hne]; cbn [negb].
    - apply wp_ret. split_and!; [done|apply grown_refl|]. intros x d Hdd. rewrite E in Hsrc.
      split.
      + intros Hx. destruct (decide (at_page i <= x < at_page i + k * PAGE_SIZE)) as [Hin|Hin].
        * left. split_and!; try done. f_equal. by eapply (inv_disjoint (ds := ds) s); [..|by apply Hsrc|].
        * right. split; [|done]. unfold in_range. naive_solver.
      + intros [(_ & Hx & [= ->])|[_ Hx]]; [by apply Hsrc|done].
    - by apply (dev_to_dev_law (ds := ds) (Inv := Inv)). }
  intros res s1 (Hinv1 & Hg & Hrel).
  destruct (allocs_grown t0 h0 lists s s1 Halloc Hg) as [Hb0 [extra Hheap]].
  rewrite (ptrs_alter _ _ _ _ Hj) in Hheap. simpl in Hheap.
  wp_do; [simpl; rewrite Hheap; by left|]. intros [] s2 (h & Hh & ->). apply wp_ret.
  assert (allocs t0 h0 (alter tail j lists) (set_heap h s1)) as Halloc2.
  { split; [done|]. exists extra. simpl. apply (Permutation_cons_inv (a := p)). by rewrite <- Hh, Hheap. }
  assert (Inv (set_heap h s1)) as Hinv2 by (by apply (inv_heap (ds := ds))).
  destruct (decide (res = 0)) as [->|Hres].
  - right. split; [done|]. split; [lia|]. split; [|split; [|done]].
    + apply (held_moved s0 s _ i k); done || lia.
    + eapply (lists_ok_next s _ (at_page i) _ k 0); try done; unfold at_page, hi, PAGE_SIZE in *; lia.
  - left. split; [done|]. split; [|done]. by eapply (held_failed (Some pdev) s0 s).
Qed.

Lemma migrate_loop_spec (s0 : sys T) (t0 : sys T) (h0 : list Z) (fuel : nat) (i : Z)
    (lists : list (list entry)) (s : sys T) :
  0 <= i <= npages -> npages - i < Z.of_nat fuel -> progress s0 t0 h0 s (at_page i) lists ->
  wp M (migrate_loop fuel bus pdev va npages i lists) s (fun res s' =>
    (exists lists', allocs t0 h0 lists' s') /\
    exists lo, va <= lo <= hi /\ held s0 s' lo /\ (res = 0 -> lo = hi)).
Proof.
  revert i lists s. induction fuel as [|fuel IH]; intros i lists s Hi Hf Hpr; [lia|].
  destruct range_bounds as (Hnp & Hva & Hmax & Hhi).
  assert (va <= at_page i <= hi) as Hpage by (unfold at_page, hi, PAGE_SIZE; lia).
  cbn [migrate_loop]. destruct (Z.ltb_spec i npages) as [Hlt|Hge].
  2:{ apply wp_ret. destruct Hpr as (Hheld & _ & Ha). split; [by exists lists|].
      exists (at_page i). split_and!; try lia; try apply Hheld.
      intros _. unfold at_page, hi, PAGE_SIZE. lia. }
  rewrite (u64_va (va + npages * PAGE_SIZE)) by (unfold hi in *; lia).
  rewrite (u64_va (va + i * PAGE_SIZE)) by (unfold at_page in *; lia).
  fold hi. change (va + i * PAGE_SIZE) with (at_page i). cbv zeta.
  assert (chosen lists (next_interval 0 lists None)) as Hc.
  { apply (next_interval_chosen lists []); [|by intros ? ?%elem_of_nil].
    by destruct Hpr as (_ & ?%lists_ok_starts & _). }
  set (best := next_interval 0 lists None) in *.
  wp_seq (ram_part_spec s0 t0 h0 i lists best); [lia|done|done|].
  intros [[res i1] curr] s1 [(Hres & Hheld & Ha)|(-> & -> & Hi1 & Hpr1 & Hbest)].
  { unfold nonzero. destruct (Z.eqb_spec res 0); [done|]. apply wp_ret.
    split; [by exists lists|]. exists (at_page i). split; [lia|]. done. }
  cbn [nonzero Z.eqb negb]. destruct best as [[j [p n]]|].
  - destruct Hbest as [Hi1' Hst].
    wp_seq (next_spec s0 t0 h0 i1 lists j p n); [lia|done|done|done|].
    intros [res i2] s2 [(Hres & Hheld & Ha)|(-> & Hi2 & Hpr2)].
    + unfold nonzero. destruct (Z.eqb_spec res 0); [done|]. apply wp_ret.
      split; [by eexists|]. exists (at_page i1). split; [|done].
      unfold at_page, hi, PAGE_SIZE in *. lia.
    + cbn [nonzero Z.eqb negb]. apply IH; [lia|lia|done].
  - apply IH; [lia|lia|done].
Qed.

(** The result of moving part of the range to the device. *)
Definition moved_to (s s' : sys T) (res : Z) : Prop :=
  grown s s' /\ exists lo, va <= lo <= hi /\ held s s' lo /\ (res = 0 -> lo = hi).

Lemma held_refl (s : sys T) : Inv s -> held s s va.
Proof. intros Hinv. split_and!; [done| |done]. intros x Hx. lia. Qed.

Lemma svm_migrate_to_device_spec (s : sys T) :
  Inv s ->
  wp M (svm_migrate_to_device bus my_mm pdev va npages) s (fun res s' => moved_to s s' res).
Proof.
  intros Hinv. destruct range_bounds as (Hnp & Hva & Hmax & _).
  assert (forall h, Inv (set_heap h s)) as Hset by (intros h; by apply (inv_heap (ds := ds))).
  unfold svm_migrate_to_device. wp_do; [done|]. intros [array|] s1; simpl.
  2:{ intros ->. apply wp_ret. split; [apply grown_refl|]. exists va.
      split; [unfold hi, PAGE_SIZE; lia|]. split; [by apply held_refl|done]. }
  intros [_ ->]. wp_seq (collect_intervals_spec va npages bus).
  { intros b Hb Hp. apply (inv_wf (ds := ds) s); [done|by apply peer_in]. }
  1-3: unfold hi in *; lia.
  intros lists s2 (Hlists & h & -> & Hh). simpl in Hh.
  wp_seq (migrate_loop_spec s s (array :: heap s) (S (Z.to_nat npages)) 0 lists); [lia|lia| |].
  { unfold at_page. rewrite Z.mul_0_l, Z.add_0_r. split; [|split].
    - split_and!; [apply Hset| |done]. intros x Hx. lia.
    - exact Hlists.
    - split; [done|]. exists []. exact Hh. }
  intros res s3 ((lists' & Hb3 & extra & Hheap) & lo & Hlo & Hheld & Hres).
  wp_do; [simpl; rewrite Hheap; set_solver|]. intros [] s4 (h' & Hh' & ->). apply wp_ret. split.
  - split; [done|]. exists (ptrs lists' ++ extra). simpl. apply (Permutation_cons_inv (a := array)).
    rewrite <- Hh', Hheap. solve_Permutation.
  - exists lo. split; [done|]. split; [|done]. destruct Hheld as (Hi & Hheld).
    split; [by apply (inv_heap (ds := ds))|done].
Qed.

End Range.

(** Two adjacent ranges. *)
Lemma held_app (pdev va mid lo : Z) (s0 s1 s2 : sys T) :
  va <= mid <= lo -> pdev ∈ ds -> held pdev va s0 s1 mid -> held pdev mid s1 s2 lo ->
  held pdev va s0 s2 lo.
Proof.
  intros Hle Hd (_ & D1 & R1) (Hi & D2 & R2). split_and!; [done|..].
  - intros x Hx. destruct (decide (mid <= x)); [apply D2; lia|]. apply R2; [done|lia|]. apply D1. lia.
  - intros x d Hdd Hx. rewrite R2, R1 by (done || lia). done.
Qed.

Lemma to_device_loop_spec (pdev : Z) (fuel : nat) (va npages res0 : Z) (s : sys T) :
  pdev ∈ ds -> 0 <= va -> va mod PAGE_SIZE = 0 -> 0 <= npages < 2 ^ 31 ->
  va + npages * PAGE_SIZE <= VA_MAX -> npages < Z.of_nat fuel -> (npages = 0 -> res0 = 0) ->
  Inv s ->
  wp M (to_device_loop fuel bus my_mm pdev va npages res0) s (fun res s' =>
    moved_to pdev va npages s s' res).
Proof.
  intros Hd. revert va npages res0 s.
  induction fuel as [|fuel IH]; intros va npages res0 s Hva Hal Hn Hend Hf Hr0 Hinv; [lia|].
  cbn [to_device_loop]. rewrite Z.gtb_ltb. destruct (Z.ltb_spec 0 npages) as [Hpos|Hz].
  2:{ apply wp_ret. split; [apply grown_refl|]. exists va. assert (npages = 0) as -> by lia.
      split; [lia|]. split; [|lia]. split_and!; [done| |done]. intros x Hx. lia. }
  set (k := Z.min npages UMPM_MAX_PAGES).
  assert (0 < k <= 131072 /\ k <= npages) as Hk by (unfold k, UMPM_MAX_PAGES; lia).
  wp_seq (svm_migrate_to_device_spec pdev va k); [done| |done|done|].
  { unfold range_ok. rewrite PHYS_MEM_SIZE_eq. unfold PAGE_SIZE in *. lia. }
  intros res s1 (Hg & mid & Hmid & Hheld & Hres). unfold nonzero.
  destruct (Z.eqb_spec res 0) as [->|Hne]; cbn [negb].
  2:{ apply wp_ret. split; [done|]. exists mid. split; [unfold PAGE_SIZE in *; lia|done]. }
  rewrite u64_va by (unfold PAGE_SIZE in *; lia).
  eapply wp_mono; [apply IH; try done; try (unfold PAGE_SIZE in *; lia)|].
  - unfold PAGE_SIZE in *. dlia.
  - by destruct Hheld.
  - intros res s2 (Hg2 & lo & Hlo & Hheld2 & Hres2). split; [by eapply grown_trans|].
    specialize (Hres eq_refl) as ->.
    exists lo. split; [unfold PAGE_SIZE in *; lia|]. split.
    + eapply (held_app pdev va (va + k * PAGE_SIZE)); try done. unfold PAGE_SIZE in *. lia.
    + intros ->. rewrite Hres2 by done. unfold PAGE_SIZE. lia.
Qed.

(** ** To host memory *)

(** Devices hold no more than before, and the same outside of [lo, hi). *)
Definition shrunk (lo hi : Z) (s s' : sys T) : Prop :=
  forall x d, d ∈ ds ->
    (placed s' d x -> placed s d x) /\ (~ (lo <= x < hi) -> placed s d x -> placed s' d x).

Lemma shrunk_refl (lo hi : Z) (s : sys T) : shrunk lo hi s s.
Proof. intros x d Hd. by split. Qed.

Lemma shrunk_trans (lo hi lo1 hi1 lo2 hi2 : Z) (s1 s2 s3 : sys T) :
  lo <= lo1 -> hi1 <= hi -> lo <= lo2 -> hi2 <= hi ->
  shrunk lo1 hi1 s1 s2 -> shrunk lo2 hi2 s2 s3 -> shrunk lo hi s1 s3.
Proof.
  intros ? ? ? ? H1 H2 x d Hd. destruct (H1 x d Hd) as [A1 B1], (H2 x d Hd) as [A2 B2]. split; [auto|].
  intros Hx Hp. apply B2; [lia|]. apply B1; [lia|done].
Qed.

(** A device holds nothing of [lo, hi). *)
Definition cleared (d lo hi : Z) (s : sys T) : Prop := forall x, lo <= x < hi -> ~ placed s d x.

Lemma cleared_shrunk (d lo hi lo' hi' : Z) (s s' : sys T) :
  d ∈ ds -> cleared d lo hi s -> shrunk lo' hi' s s' -> cleared d lo hi s'.
Proof. intros Hd Hc Hs x Hx Hp. apply (Hc x Hx). by apply (Hs x d Hd). Qed.

Lemma relocated_shrunk (res va k : Z) (s s' : sys T) :
  relocated ds None res va k s s' -> shrunk va (va + k * PAGE_SIZE) s s'.
Proof.
  intros Hrel x d Hd. split.
  - intros Hp. apply (Hrel x d Hd) in Hp as [(_ & _ & ?)|[_ ?]]; done.
  - intros Hx Hp. apply (Hrel x d Hd). right. split; [|done]. unfold in_range. lia.
Qed.

Lemma to_ram_loop_spec (d : Z) (fuel : nat) (from k res : Z) (s : sys T) :
  d ∈ ds -> 0 <= from -> from mod PAGE_SIZE = 0 -> 0 <= k -> k < Z.of_nat fuel ->
  from + k * PAGE_SIZE <= VA_MAX -> Inv s ->
  (forall x, from <= x < from + k * PAGE_SIZE -> placed s d x) ->
  wp M (to_ram_loop fuel d from k res) s (fun r s' =>
    Inv s' /\ heap_grown s s' /\ shrunk from (from + k * PAGE_SIZE) s s' /\
    (r = 0 -> res = 0 /\ cleared d from (from + k * PAGE_SIZE) s')).
Proof.
  intros Hd. revert from k s. induction fuel as [|fuel IH]; intros from k s Hf Hal Hk Hfu Hend Hinv Hp;
    [lia|].
  cbn [to_ram_loop]. rewrite Z.gtb_ltb. destruct (Z.ltb_spec 0 k) as [Hpos|Hz].
  2:{ apply wp_ret. split_and!; [done|apply heap_grown_refl|apply shrunk_refl|].
      intros ->. split; [done|]. intros x Hx. unfold PAGE_SIZE in *. lia. }
  set (n := Z.min k UMPM_MAX_PAGES).
  assert (0 < n <= 131072 /\ n <= k) as Hn by (unfold n, UMPM_MAX_PAGES; lia).
  wp_seq (dev_to_ram_law (ds := ds) (Inv := Inv)); try done.
  { unfold range_ok. rewrite PHYS_MEM_SIZE_eq. unfold PAGE_SIZE in *. lia. }
  { intros x Hx. apply Hp. unfold in_range, PAGE_SIZE in *. lia. }
  intros r s1 (Hinv1 & [_ Hg1] & Hrel). pose proof (relocated_shrunk _ _ _ _ _ Hrel) as Hsh.
  unfold nonzero. destruct (Z.eqb_spec r 0) as [->|Hne]; cbn [negb].
  2:{ apply wp_ret. split_and!; try done.
      eapply (shrunk_trans _ _ _ _ from (from + k * PAGE_SIZE)); try exact Hsh; try apply shrunk_refl;
        unfold PAGE_SIZE; lia. }
  rewrite u64_va by (unfold PAGE_SIZE in *; lia).
  assert (cleared d from (from + n * PAGE_SIZE) s1) as Hcl.
  { intros x Hx Hp1. apply (Hrel x d Hd) in Hp1 as [(_ & _ & ?)|[Hno _]]; [done|]. by apply Hno. }
  eapply wp_mono; [apply (IH (from + n * PAGE_SIZE) (k - n)); try done|];
    try (unfold PAGE_SIZE in *; lia).
  - unfold PAGE_SIZE in *. dlia.
  - intros x Hx. apply (Hsh x d Hd); [unfold PAGE_SIZE in *; lia|]. apply Hp.
    unfold PAGE_SIZE in *. lia.
  - intros r s2 (Hinv2 & Hg2 & Hsh2 & Hr). split_and!; [done|by eapply heap_grown_trans|..].
    + eapply shrunk_trans; [| | | |exact Hsh|exact Hsh2]; unfold PAGE_SIZE; lia.
    + intros ->. destruct (Hr eq_refl) as [-> Hc2]. split; [done|]. intros x Hx.
      destruct (decide (x < from + n * PAGE_SIZE)).
      * eapply (cleared_shrunk d); [done|exact Hcl|exact Hsh2|lia].
      * apply Hc2. unfold PAGE_SIZE in *. lia.
Qed.

Lemma to_ram_entries_spec (d va_start hi lo : Z) (l : list entry) (res : Z) (h0 : list Z) (s : sys T) :
  d ∈ ds -> va_start <= lo -> lo = va_start \/ Forall (fun n => lo <= start n) (map snd l) ->
  0 <= va_start -> va_start mod PAGE_SIZE = 0 -> hi mod PAGE_SIZE = 0 -> hi <= VA_MAX ->
  va_start < hi -> hi - va_start < 2 ^ 31 * PAGE_SIZE -> Inv s -> found s d lo hi (map snd l) ->
  (exists extra, Permutation (heap s) (map fst l ++ extra ++ h0)) ->
  wp M (to_ram_entries d va_start hi l res) s (fun r s' =>
    Inv s' /\ (exists extra, Permutation (heap s') (extra ++ h0)) /\ shrunk va_start hi s s' /\
    (r = 0 -> res = 0 /\ cleared d lo hi s')).
Proof.
  intros Hd Hlo Hst Hva Hal Halh Hmax Hlt Hsz. revert lo res s Hlo Hst.
  induction l as [|[p n] l IH]; intros lo res s Hlo Hst Hinv Hf [extra Hheap];
    cbn [to_ram_entries].
  { apply wp_ret. split_and!; [done|by exists extra|apply shrunk_refl|]. intros ->. split; [done|].
    intros x Hx Hp. destruct Hf as (H1 & _). apply H1 in Hp; [|done]. by apply covered_nil in Hp. }
  simpl in Hf, Hheap, Hst. pose proof Hf as (_ & Hns & Hsort).
  destruct (Hns n) as ((? & ? & ? & Hn1 & Hn2) & ? & ?); [by left|].
  assert (Z.max va_start (start n) = Z.max lo (start n)) as ->.
  { destruct Hst as [->|Hst]; [done|]. apply Forall_cons in Hst as [? _]. lia. }
  rewrite u64_va by lia. set (from := Z.max lo (start n)). set (to := Z.min (last n + 1) hi).
  assert (va_start <= from < to /\ from mod PAGE_SIZE = 0 /\ to mod PAGE_SIZE = 0) as (Hft & Hfm & Htm).
  { unfold from, to. split; [destruct Hst as [->|[? _]%Forall_cons]; lia|].
    split; [|destruct (Z.min_spec (last n + 1) hi) as [[_ ->]|[_ ->]]; done].
    destruct Hst as [->|Hst]; [destruct (Z.max_spec va_start (start n)) as [[_ ->]|[_ ->]]; done|].
    apply Forall_cons in Hst as [? _]. by rewrite Z.max_r. }
  assert (exists k, 0 <= k < 2 ^ 31 /\ to = from + k * PAGE_SIZE) as (k & Hk & Hto).
  { exists ((to - from) / PAGE_SIZE). unfold PAGE_SIZE in *. dlia. }
  rewrite Hto at 1 2. rewrite npages_between_eq by lia.
  wp_seq (to_ram_loop_spec d (S (Z.to_nat k)) from k res); try done; try lia.
  { rewrite <- Hto. intros x Hx. apply (found_head _ _ _ _ _ _ Hf). unfold from, to in Hx. lia. }
  rewrite <- Hto. intros r s1 (Hinv1 & [e1 Hg1] & Hsh1 & Hr1).
  wp_do; [simpl; rewrite Hg1, Hheap; set_solver|]. intros [] s2 (h & Hh & ->).
  pose proof (found_tail _ _ _ _ _ _ Hf) as Hf'. apply StronglySorted_inv in Hsort as [_ Hb].
  rewrite Forall_forall in Hb. unfold below in Hb. fold to in Hf'.
  eapply wp_mono; [apply (IH to)|].
  - lia.
  - right. apply Forall_forall. intros m Hm. specialize (Hb m Hm). unfold to. lia.
  - by apply (inv_heap (ds := ds)).
  - eapply found_state; [|exact Hf']. intros x Hx. change (placed (set_heap h s1)) with (placed s1).
    split; apply (Hsh1 x d Hd). lia.
  - exists (e1 ++ extra). simpl. apply (Permutation_cons_inv (a := p)).
    rewrite <- Hh, Hg1, Hheap. solve_Permutation.
  - intros r2 s3 (Hinv3 & He & Hsh3 & Hr3). change (shrunk va_start hi (set_heap h s1) s3) with
      (shrunk va_start hi s1 s3) in Hsh3.
    assert (to <= hi) by (unfold to; lia). split_and!; try done.
    + eapply shrunk_trans; [| | | |exact Hsh1|exact Hsh3]; lia.
    + intros ->. destruct (Hr3 eq_refl) as [-> Hc3]. destruct (Hr1 eq_refl) as [-> Hc1].
      split; [done|]. intros x Hx. destruct (decide (to <= x)); [apply Hc3; lia|].
      destruct (decide (from <= x)).
      * apply (cleared_shrunk d from to va_start hi s1 s3 Hd Hc1 Hsh3). lia.
      * intros Hp. apply (Hsh3 x d Hd) in Hp. apply (Hsh1 x d Hd) in Hp.
        revert Hp. apply (found_before _ _ _ _ _ _ Hf); [lia|]. intros m ns [= <- <-].
        unfold from in *. lia.
Qed.

Lemma to_ram_devices_spec (va_start npages : Z) (bs : list bus_dev) (res : Z) (s : sys T) :
  (forall b, b ∈ bs -> b ∈ bus) -> 0 <= va_start -> va_start mod PAGE_SIZE = 0 ->
  0 < npages < 2 ^ 31 -> va_start + npages * PAGE_SIZE <= VA_MAX -> Inv s ->
  let hi := va_start + npages * PAGE_SIZE in
  wp M (to_ram_devices bs my_mm va_start hi npages [] res) s (fun r s' =>
    Inv s' /\ heap_grown s s' /\ shrunk va_start hi s s' /\
    (r = 0 -> res = 0 /\ forall b, b ∈ bs -> is_peer my_mm b = true ->
       cleared (pdev_id b) va_start hi s')).
Proof.
  intros Hsub Hva Hal Hn Hmax. cbv zeta. set (hi := va_start + npages * PAGE_SIZE) in *.
  revert res s. induction bs as [|b bs IH]; intros res s Hinv; cbn [to_ram_devices].
  { apply wp_ret. split_and!; [done|apply heap_grown_refl|apply shrunk_refl|]. intros ->.
    split; [done|]. by intros b Hb%elem_of_nil. }
  assert (forall c, c ∈ bs -> c ∈ bus) as Hsub' by (intros c Hc; apply Hsub; by right).
  destruct (is_peer my_mm b) eqn:Hp.
  2:{ eapply wp_mono; [by apply IH|]. intros r s1 (H1 & H2 & H3 & H4). split_and!; try done.
      intros Hr. destruct (H4 Hr) as [? Hc]. split; [done|].
      intros c [->|Hcc]%elem_of_cons Hpc; [congruence|auto]. }
  assert (pdev_id b ∈ ds) as Hd by (apply peer_in; [apply Hsub; by left|done]).
  wp_seq (search_entries_spec page_of dma_of populated tick faults); try done; try lia.
  { by apply (inv_wf (ds := ds)). }
  intros [r0 l] s1 (-> & Hl & h & -> & Hh). cbn [nonzero Z.eqb negb app].
  wp_seq (to_ram_entries_spec (pdev_id b) va_start hi va_start l res (heap s)); try done.
  { by left. }
  { unfold hi, PAGE_SIZE in *. dlia. }
  { unfold hi, PAGE_SIZE. lia. }
  { unfold hi, PAGE_SIZE. lia. }
  { by apply (inv_heap (ds := ds)). }
  { rewrite Hl. apply (found_filter (set_heap h s)). by apply (inv_wf (ds := ds) s). }
  { exists []. exact Hh. }
  intros r1 s2 (Hinv2 & Hg2 & Hsh2 & Hr2).
  eapply wp_mono; [by apply IH|]. intros r s3 (Hinv3 & Hg3 & Hsh3 & Hr3).
  split_and!; [done| | |].
  - destruct Hg2 as [e2 Hg2], Hg3 as [e3 Hg3]. exists (e3 ++ e2). by rewrite Hg3, Hg2, app_assoc.
  - eapply shrunk_trans; [| | | |exact Hsh2|exact Hsh3]; lia.
  - intros Hr. destruct (Hr3 Hr) as [-> Hc3]. destruct (Hr2 eq_refl) as [-> Hc2].
    split; [done|]. intros c [->|Hc]%elem_of_cons Hpc; [|by apply Hc3].
    by eapply (cleared_shrunk (pdev_id b)).
Qed.

(** ** The user managed migrations *)

Section User.
Variables (inst : bus_dev) (vaddr size : Z).
Hypothesis inst_in : pdev_id inst ∈ ds.
Hypothesis inst_mm : mm_id inst = my_mm.
Hypothesis vaddr_ok : 0 <= vaddr.
Hypothesis size_ok : 0 < size < 2 ^ 42.
Hypothesis end_ok : vaddr + size <= VA_MAX.

Lemma user_to_device_spec (res0 : Z) (s : sys T) :
  mm s = mm_unlocked -> Inv (set_mm mm_locked s) ->
  wp M (pcie_svm_user_managed_migration_to_device res0 bus inst vaddr size) s (fun res s' =>
    mm s' = mm_unlocked /\ Inv (set_mm mm_locked s') /\ grown s s' /\
    exists lo, page_floor vaddr <= lo <= page_ceil (u64 (vaddr + size)) /\
      held (pdev_id inst) (page_floor vaddr) s (set_mm mm_locked s') lo /\
      (res = 0 -> vaddr + size <= lo)).
Proof.
  intros Hun Hinv. unfold pcie_svm_user_managed_migration_to_device.
  destruct (align_spec vaddr size) as (Ha & Hal & Hb & Hbm & Hk & Heq); try done.
  set (a := page_floor vaddr) in *. set (b := page_ceil (u64 (vaddr + size))) in *.
  assert (forall r, r <> 0 -> wp M (Ret r) s (fun res s' =>
    mm s' = mm_unlocked /\ Inv (set_mm mm_locked s') /\ grown s s' /\
    exists lo, a <= lo <= b /\ held (pdev_id inst) a s (set_mm mm_locked s') lo /\
      (res = 0 -> vaddr + size <= lo))) as Hfail.
  { intros r Hr. apply wp_ret. split_and!; [done|done|apply grown_refl|]. exists a.
    split; [lia|]. split; [|done]. split_and!; [done| |done]. intros x Hx. lia. }
  destruct (has_svm inst); cbn [negb]; [|by apply Hfail].
  wp_do; [done|]. intros c s1 [-> ->]. destruct (nonzero _); [by apply Hfail|].
  wp_do; [done|]. intros [] s1 ->. set (k := npages_between a b) in *. rewrite inst_mm.
  wp_seq (to_device_loop_spec (pdev_id inst)); try done; try lia.
  intros res s2 (Hg & lo & Hlo & Hheld & Hres). pose proof Hheld as (Hinv2 & _).
  pose proof (inv_locked (ds := ds) _ Hinv2) as Hlk.
  wp_do; [done|]. intros [] s3 ->. apply wp_ret. rewrite (relock s2 Hlk).
  split_and!; [done|done|done|]. exists lo. split; [lia|]. split; [done|].
  intros Hr. rewrite Hres by done. lia.
Qed.

Lemma user_to_ram_spec (s : sys T) :
  mm s = mm_unlocked -> Inv (set_mm mm_locked s) ->
  wp M (pcie_svm_user_managed_migration_to_ram bus inst vaddr size) s (fun res s' =>
    mm s' = mm_unlocked /\ Inv (set_mm mm_locked s') /\ heap_grown s s' /\
    shrunk (page_floor vaddr) (page_ceil (u64 (vaddr + size))) s s' /\
    (res = 0 -> forall d, d ∈ ds -> cleared d vaddr (vaddr + size) s')).
Proof.
  intros Hun Hinv. unfold pcie_svm_user_managed_migration_to_ram.
  destruct (align_spec vaddr size) as (Ha & Hal & Hb & Hbm & Hk & Heq); try done.
  set (a := page_floor vaddr) in *. set (b := page_ceil (u64 (vaddr + size))) in *.
  destruct (has_svm inst); cbn [negb].
  2:{ apply wp_ret. split_and!; done || apply heap_grown_refl. }
  wp_do; [done|]. intros c s1 [-> ->]. destruct (nonzero _).
  { apply wp_ret. split_and!; done || apply heap_grown_refl. }
  wp_do; [done|]. intros [] s1 ->. set (k := npages_between a b) in *. rewrite inst_mm, Heq.
  wp_seq (to_ram_devices_spec a k bus); try done; try lia.
  intros res s2 (Hinv2 & Hg & Hsh & Hres). pose proof (inv_locked (ds := ds) _ Hinv2) as Hlk.
  wp_do; [done|]. intros [] s3 ->. apply wp_ret. rewrite (relock s2 Hlk).
  split_and!; try done. intros Hr d Hd. destruct (Hres Hr) as [_ Hc]. rewrite <- bus_ds in Hd.
  apply list_elem_of_fmap in Hd as (c & -> & Hcc).
  apply list_elem_of_In, List.filter_In in Hcc as [Hcc%list_elem_of_In Hp].
  intros x Hx. apply (Hc c Hcc Hp). lia.
Qed.

End User.
End Requests.

End Placement.
