(* ===== verification/Movers.v ===== *)
(** * The migration requests of the driver (pcie/pcie_svm.c)

    The functions of RamToDev.v, DevToDev.v and DevToRam.v satisfy the laws of
    Placement.v for every set of devices whose memory is consistent and that hold
    different addresses; the properties of svm_migrate_to_device and of the user
    managed migrations follow for the code as it is. *)
From S2P Require Import Prelude Kernel.
From S2P Require Import DevMem DevPages Intervals SvmHw SvmSys SvmIo SvmCopy.
From S2P Require Import RamToDev DevToRam DevToDev Placement.

Module Movers.
Import Kernel DevMem DevPages Intervals SvmHw SvmSys SvmIo SvmCopy Placement.
Import RamToDev DevToRam DevToDev.
#[local] Open Scope prog_scope.

Section Movers.
Context {T : Type} {IT : IntervalTree T} {TL : IntervalTreeLaws T}.
Variable poll_fuel busy_fuel : nat.
Variable page_of : Z -> option Z.
Variable migrating : Z -> bool.
Variables retry_cnt res0 : Z.
Variable dma_of : Z -> Z.
Variable populated : Z -> bool.
Variable tick : Z.
Notation M := (svm_model page_of dma_of populated tick (mk_faults false false)).

(** The movers of the driver; [retry_cnt] and [res0] are the values of the
    variables the code does not initialise. *)
#[export] Instance driver : Migrator T := {|
  migrate_ram_to_dev := svm_migrate_ram_to_dev poll_fuel page_of migrating retry_cnt;
  migrate_dev_to_dev := svm_migrate_dev_to_dev poll_fuel busy_fuel page_of migrating retry_cnt;
  migrate_dev_to_ram := svm_migrate_dev_to_ram poll_fuel busy_fuel page_of migrating retry_cnt res0
|}.

Variable ds : list Z.
Variable base : Z -> Z.

(** What holds of the devices of a process between migrations: their memory and
    their intervals are consistent, and no address is on two of them. *)
Record svm_inv (s : sys T) : Prop := {
  si_mm : mm s = mm_locked;
  si_busy : (busy s < busy_fuel)%nat;
  si_dev d : d ∈ ds -> device_ok (base d) d s;
  si_window d : d ∈ ds -> window_ok d s;
  si_wf d : d ∈ ds -> wf_nodes (it_nodes (vmem_intervals (devs s d)));
  si_disjoint a b x : a ∈ ds -> b ∈ ds -> placed s a x -> placed s b x -> a = b
}.

Hypothesis platform : platform_ok poll_fuel dma_of tick.
Hypothesis retry_ok : - 2 ^ 31 <= retry_cnt < 2 ^ 31 - 1.
Hypothesis res0_ok : res0 <> 0.
#[local] Set Default Proof Using "All".

Lemma svm_inv_heap (s : sys T) (h : list Z) : svm_inv s -> svm_inv (set_heap h s).
Proof. intros []. by split. Qed.

Lemma svm_inv_io (s s' : sys T) (d : Z) : svm_inv s -> io_only d s s' -> svm_inv s'.
Proof.
  intros Hinv Hio.
  assert (forall d', d' = d \/ devs s' d' = devs s d') as Hd.
  { intros d'. destruct (decide (d' = d)); [by left|right]. by apply (io_other _ _ _ Hio). }
  assert (forall d', vmem_intervals (devs s' d') = vmem_intervals (devs s d')) as Ht.
  { intros d'. destruct (Hd d') as [->|E]; [apply (io_tree _ _ _ Hio)|by rewrite E]. }
  split.
  - rewrite (io_mm _ _ _ Hio). apply (si_mm _ Hinv).
  - pose proof (io_busy _ _ _ Hio). pose proof (si_busy _ Hinv). lia.
  - intros d' Hd'. destruct (si_dev _ Hinv d' Hd') as (H1 & H2 & H3). split_and!; try done.
    unfold dev_inv in *. destruct (Hd d') as [->|E]; [|by rewrite E].
    by rewrite (io_mem _ _ _ Hio), (io_live _ _ _ Hio).
  - intros d' Hd'. unfold window_ok. destruct (Hd d') as [->|E].
    + rewrite (io_rdma _ _ _ Hio). by apply (si_window _ Hinv).
    + rewrite E. by apply (si_window _ Hinv).
  - intros d' Hd'. rewrite Ht. by apply (si_wf _ Hinv).
  - intros a b x. unfold placed. rewrite !Ht. apply (si_disjoint _ Hinv).
Qed.

Lemma svm_inv_relocated (o : option Z) (res va n : Z) (s s' : sys T) :
  svm_inv s -> mm s' = mm_locked -> same_cfg s s' ->
  (forall d, d ∈ ds -> device_ok (base d) d s') ->
  (forall d, d ∈ ds -> wf_nodes (it_nodes (vmem_intervals (devs s' d)))) ->
  relocated ds o res va n s s' -> svm_inv s'.
Proof.
  intros Hinv Hmm (Hb & _ & Hr) Hd Hwf Hrel. split; try done.
  - pose proof (si_busy _ Hinv). lia.
  - intros d Hdd. unfold window_ok. rewrite Hr. by apply (si_window _ Hinv).
  - intros a b x Ha Hbb Pa Pb. apply (Hrel x a Ha) in Pa. apply (Hrel x b Hbb) in Pb.
    destruct Pa as [(? & ? & ?)|[? ?]], Pb as [(? & ? & ?)|[? ?]]; try tauto; [congruence|].
    by apply (si_disjoint _ Hinv a b x).
Qed.

(** Nothing has been relocated when all intervals are as before. *)
Lemma relocated_none (o : option Z) (res va n : Z) (s s' : sys T) :
  res <> 0 -> (forall d, d ∈ ds -> vmem_intervals (devs s' d) = vmem_intervals (devs s d)) ->
  relocated ds o res va n s s'.
Proof.
  intros Hr Heq x d Hd. unfold placed. rewrite Heq by done. split; [|by intros [?|[_ ?]]; [lia|]].
  intros Hp. right. split; [lia|done].
Qed.

Lemma ram_to_dev_lawful (s : sys T) (d va n : Z) :
  svm_inv s -> d ∈ ds -> range_ok va n -> va mod PAGE_SIZE = 0 ->
  (forall x d', d' ∈ ds -> in_range va n x -> ~ placed s d' x) ->
  wp M (svm_migrate_ram_to_dev poll_fuel page_of migrating retry_cnt d va n) s (fun res s' =>
    svm_inv s' /\ grown s s' /\ relocated ds (Some d) res va n s s').
Proof.
  intros Hinv Hd (Hn & Hph & Hva) Hal Hfree. destruct platform as (Ht & Hp & Hdma).
  destruct (si_dev _ Hinv d Hd) as (Hb & Hb' & Hdi). pose proof (si_wf _ Hinv d Hd) as Hwf.
  eapply wp_mono; [apply (ram_to_dev_spec poll_fuel page_of migrating dma_of populated tick false
    Ht Hp Hdma d (base d) Hb Hb' va n Hn Hph Hva); [done|apply (si_mm _ Hinv)|done]|].
  intros res s' (s1 & (K & _ & Hmm & Hdi1 & old & ts & _ & Hcase) & h & Hh & ->).
  assert (exists t', it_nodes (vmem_intervals (devs s1 d)) = it_nodes t' /\ wf_nodes (it_nodes t') /\
    forall x, covered (it_nodes t') x <-> (res = 0 /\ in_range va n x) \/ placed s d x)
    as (t' & Et & Hwf' & Hcov).
  { destruct (Z.eqb_spec res 0) as [->|Hr].
    - destruct Hcase as (pfn & srcs & ms & ok & Hok & _ & _ & _ & _ & _ & _ & _ & _ & Hv).
      destruct ok; [|by specialize (Hok eq_refl)].
      destruct (insert_vmem_interval_spec (vmem_intervals (devs s d)) va n) as (t' & E & W & C);
        try done; try lia.
      { intros x Hx. by apply Hfree. }
      exists t'. rewrite Hv, E. split_and!; try done. intros x. rewrite C. unfold in_range, placed. tauto.
    - destruct Hcase as (_ & _ & _ & Hv). exists (vmem_intervals (devs s d)). rewrite Hv.
      split_and!; try done. intros x. split; [by right|]. intros [?|?]; [lia|done]. }
  assert (relocated ds (Some d) res va n s (set_heap h s1)) as Hrel.
  { intros x d' Hd'. unfold placed. simpl. destruct (decide (d' = d)) as [->|Hne].
    - rewrite Et, Hcov. split.
      + intros [[? ?]|Hpl]; [left; done|]. right. split; [|done].
        intros [_ Hx]. by apply (Hfree x d Hd Hx).
      + intros [(? & ? & _)|[_ ?]]; [by left|by right].
    - rewrite (kp_other _ _ _ K) by done. split.
      + intros Hpl. right. split; [|done]. intros [_ Hx]. by apply (Hfree x d' Hd' Hx).
      + intros [(_ & _ & [= ->])|[_ ?]]; done. }
  split_and!; [|split; [exact (conj (kp_busy _ _ _ K) (kp_reported _ _ _ K))|exists []; by simpl]|done].
  eapply (svm_inv_relocated (Some d) res va n s); try done.
  - by apply (kept_same_cfg d s s1).
  - intros d' Hd'. destruct (decide (d' = d)) as [->|Hne]; [done|].
    unfold device_ok, dev_inv. simpl. rewrite (kp_other _ _ _ K) by done. by apply (si_dev _ Hinv).
  - intros d' Hd'. simpl. destruct (decide (d' = d)) as [->|Hne]; [by rewrite Et|].
    rewrite (kp_other _ _ _ K) by done. by apply (si_wf _ Hinv).
Qed.

Lemma dev_to_dev_lawful (s : sys T) (a b va n : Z) :
  svm_inv s -> a ∈ ds -> b ∈ ds -> a <> b -> range_ok va n -> va mod PAGE_SIZE = 0 ->
  (forall x, in_range va n x -> placed s a x) ->
  wp M (svm_migrate_dev_to_dev poll_fuel busy_fuel page_of migrating retry_cnt a b va n) s
    (fun res s' => svm_inv s' /\ grown s s' /\ relocated ds (Some b) res va n s s').
Proof.
  intros Hinv Ha Hb Hab (Hn & Hph & Hva) Hal Hsrc. destruct platform as (Ht & Hp & Hdma).
  destruct (si_dev _ Hinv a Ha) as (Ha1 & Ha2 & Hda), (si_dev _ Hinv b Hb) as (Hb1 & Hb2 & Hdb).
  destruct (si_window _ Hinv b Hb) as [Hw1 Hw2].
  assert (0 < n < 2 ^ 31) as Hn'.
  { rewrite PHYS_MEM_SIZE_eq in Hph. unfold PAGE_SIZE in Hph. lia. }
  eapply wp_mono; [apply (dev_to_dev_spec poll_fuel busy_fuel page_of migrating dma_of populated tick
    (mk_faults false false) Ht Hp Hdma a b (base a) (base b) Hab (conj Ha1 Ha2) (conj Hb1 Hb2)
    va n Hn' Hph Hva); try done; [apply (si_mm _ Hinv)|apply (si_busy _ Hinv)]|].
  intros res s' [(-> & h & Hh & ->)|(array & s0 & s1 & s2 & h0 & h & -> & Hf & _ & Hend & -> & Hheap)].
  { split_and!; [by apply svm_inv_heap|split; [done|by exists []]|].
    apply relocated_none; [unfold ENOMEM; lia|done]. }
  assert (same_cfg s s1 /\ (forall d, d <> a -> devs s1 d = devs s d) /\
    vmem_intervals (devs s1 a) = vmem_intervals (devs s a)) as (Hcfg & Hoth & Htree).
  { destruct Hf as [->|(Hio & _)]; [done|]. split_and!.
    - by apply (kept_same_cfg a (set_heap h0 s)), io_kept.
    - exact (io_other _ _ _ Hio).
    - exact (io_tree _ _ _ Hio). }
  destruct Hend as (Hoth2 & _ & _ & Hmm & Hcfg2 & Hia & Hib & tc & th & _ & _ & Hcase).
  assert (grown s (set_heap h s2)) as Hg.
  { split.
    { destruct Hcfg as (? & R1 & _), Hcfg2 as (? & R2 & _). simpl. split; [lia|congruence]. }
    destruct Hheap as [Hh|[_ Hh]]; [by exists []|by exists [array]]. }
  assert (forall d, d ∈ ds -> device_ok (base d) d (set_heap h s2)) as Hdev.
  { intros d Hd. destruct (decide (d = a)) as [->|]; [done|]. destruct (decide (d = b)) as [->|]; [done|].
    unfold device_ok, dev_inv. simpl. rewrite Hoth2, Hoth by done. by apply (si_dev _ Hinv). }
  assert ((forall d, d ∈ ds -> wf_nodes (it_nodes (vmem_intervals (devs s2 d)))) /\
    relocated ds (Some b) res va n s (set_heap h s2)) as [Hwf Hrel].
  2:{ split_and!; try done. eapply (svm_inv_relocated (Some b) res va n s); try done.
      by transitivity s1. }
  pose proof (si_wf _ Hinv a Ha) as Wa. pose proof (si_wf _ Hinv b Hb) as Wb.
  destruct (Z.eqb_spec res 0) as [->|Hr].
  2:{ assert (forall d, vmem_intervals (devs s2 d) = vmem_intervals (devs s d)) as Heq.
      { intros d. destruct Hcase as (_ & _ & _ & _ & _ & _ & Htr). rewrite Htr.
        destruct (decide (d = a)) as [->|]; [done|]. by rewrite Hoth. }
      split; [intros d Hd; rewrite Heq; by apply (si_wf _ Hinv)|].
      apply relocated_none; [done|]. intros d _. apply Heq. }
  destruct Hcase as (pages & pfn & ms & ok1 & ok2 & Hok1 & _ & Hok2 & _ & _ & _ & _ & _ & _ & _ & _ & _ &
    Hta & Htb).
  destruct (remove_exact (mk_faults false false) (vmem_intervals (devs s a)) ok1 va n) as [Wa' Ca]; try done.
  destruct ok2; [|by specialize (Hok2 eq_refl)].
  assert (forall x, in_range va n x -> ~ placed s b x) as Hfree.
  { intros x Hx Hpb. by apply Hab, (si_disjoint _ Hinv a b x Ha Hb); [apply Hsrc|]. }
  destruct (insert_vmem_interval_spec (vmem_intervals (devs s b)) va n) as (t' & E & Wb' & Cb);
    try done; try lia.
  rewrite Htree in Hta. rewrite Hoth, E in Htb by done. simpl in Htb. split.
  - intros d Hd. destruct (decide (d = a)) as [->|Hna]; [by rewrite Hta|].
    destruct (decide (d = b)) as [->|Hnb]; [by rewrite Htb|].
    rewrite Hoth2, Hoth by done. by apply (si_wf _ Hinv).
  - intros x d Hd. unfold placed. simpl.
    assert (d <> a -> in_range va n x -> placed s d x -> False) as Hnot.
    { intros Hne Hx Hpl. by apply Hne, (si_disjoint _ Hinv d a x); [..|apply Hsrc]. }
    unfold placed in *. destruct (decide (d = a)) as [->|Hna].
    + rewrite Hta, Ca. split; [intros [? ?]; right; split; [tauto|done]|].
      intros [(_ & _ & [= ->])|[Hno ?]]; [done|]. split; [done|]. intros Hx. by apply Hno.
    + destruct (decide (d = b)) as [->|Hnb].
      * rewrite Htb, Cb. change (va <= x < va + n * PAGE_SIZE) with (in_range va n x).
        split; [intros [?|?]; [right; split; [naive_solver|done]|by left]|].
        intros [(_ & ? & _)|[_ ?]]; [by right|by left].
      * rewrite Hoth2, Hoth by done. split; [intros ?; right; split; [naive_solver|done]|].
        intros [(_ & _ & [= ->])|[_ ?]]; done.
Qed.

Lemma dev_to_ram_lawful (s : sys T) (d va n : Z) :
  svm_inv s -> d ∈ ds -> range_ok va n -> va mod PAGE_SIZE = 0 ->
  (forall x, in_range va n x -> placed s d x) ->
  wp M (svm_migrate_dev_to_ram poll_fuel busy_fuel page_of migrating retry_cnt res0 d va n) s
    (fun res s' => svm_inv s' /\ grown s s' /\ relocated ds None res va n s s').
Proof.
  intros Hinv Hd (Hn & Hph & Hva) Hal Hsrc. destruct platform as (Ht & Hp & Hdma).
  destruct (si_dev _ Hinv d Hd) as (Hb1 & Hb2 & Hdd).
  assert (0 < n < 2 ^ 31) as Hn'.
  { rewrite PHYS_MEM_SIZE_eq in Hph. unfold PAGE_SIZE in Hph. lia. }
  eapply wp_mono; [apply (dev_to_ram_spec poll_fuel busy_fuel page_of migrating dma_of populated tick
    (mk_faults false false) Ht Hp Hdma d (base d) Hb1 Hb2 va n Hn' Hva);
    try done; [apply (si_mm _ Hinv)|apply (si_busy _ Hinv)]|].
  intros res s' [(-> & h & Hh & ->)|(array & s0 & s1 & h0 & h & -> & Hfin & -> & Hheap)].
  { split_and!; [by apply svm_inv_heap|split; [done|by exists []]|]. by apply relocated_none. }
  destruct Hfin as (C & _ & _ & Hmm & Hi & ts & _ & Hcase).
  assert (forall d', d' <> d -> devs s1 d' = devs s d') as Hoth by exact (cfg_other _ _ _ C).
  assert (grown s (set_heap h s1)) as Hg.
  { split; [exact (conj (cfg_busy _ _ _ C) (cfg_reported _ _ _ C))|]. destruct Hheap as [Hh|[_ Hh]]; [by exists []|by exists [array]]. }
  assert (wf_nodes (it_nodes (vmem_intervals (devs s1 d))) /\
    forall x, placed s1 d x <-> placed s d x /\ ~ (res = 0 /\ in_range va n x)) as [Hwf Hpl].
  { pose proof (si_wf _ Hinv d Hd) as Hwf. destruct (Z.eqb_spec res 0) as [->|Hr].
    - destruct Hcase as ((pages & hosts & ok & okm & Hok & _ & _ & _ & _ & _ & _ & _ & _ & Hv) & _).
      destruct (remove_exact (mk_faults false false) (vmem_intervals (devs s d)) okm va n) as [W Cv]; try done.
      unfold placed. rewrite Hv. split; [done|]. intros x. rewrite Cv. tauto.
    - destruct Hcase as (_ & _ & _ & _ & Hv). unfold placed. rewrite Hv. split; [done|].
      intros x. simpl. tauto. }
  assert (relocated ds None res va n s (set_heap h s1)) as Hrel.
  { intros x d' Hd'. change (placed (set_heap h s1)) with (placed s1).
    assert (res = 0 /\ in_range va n x -> d' <> d -> ~ placed s d' x) as Hnot.
    { intros [_ Hx] Hne Hpd. by apply Hne, (si_disjoint _ Hinv d' d x); [..|apply Hsrc]. }
    destruct (decide (d' = d)) as [->|Hne].
    - rewrite Hpl. split; [intros [? ?]; by right|]. intros [(_ & _ & ?)|[? ?]]; done.
    - unfold placed in *. rewrite Hoth by done. split; [intros ?; right; split; [|done]|].
      + intros Hx. by apply (Hnot Hx Hne).
      + intros [(_ & _ & ?)|[_ ?]]; done. }
  split_and!; try done. eapply (svm_inv_relocated None res va n s); try done.
  - split_and!; [exact (cfg_busy _ _ _ C)|exact (cfg_reported _ _ _ C)|]. intros d'. simpl.
    destruct (decide (d' = d)) as [->|]; [exact (cfg_rdma _ _ _ C)|by rewrite Hoth].
  - intros d' Hd'. destruct (decide (d' = d)) as [->|Hne]; [done|].
    unfold device_ok, dev_inv. simpl. rewrite Hoth by done. by apply (si_dev _ Hinv).
  - intros d' Hd'. simpl. destruct (decide (d' = d)) as [->|Hne]; [done|].
    rewrite Hoth by done. by apply (si_wf _ Hinv).
Qed.

#[export] Instance driver_laws : MigratorLaws M ds svm_inv.
Proof.
  split.
  - intros s. apply si_mm.
  - apply svm_inv_heap.
  - intros s l []. by split.
  - apply svm_inv_io.
  - intros s d Hinv. by apply si_wf.
  - intros s a b x Hinv. by apply si_disjoint.
  - apply ram_to_dev_lawful.
  - apply dev_to_dev_lawful.
  - apply dev_to_ram_lawful.
Qed.

(** ** The properties *)

(** The devices of the process, as they are found on the bus. *)
Variable bus : list bus_dev.
Variable my_mm : Z.
Hypothesis bus_ds : map pdev_id (List.filter (is_peer my_mm) bus) = ds.
Hypothesis ds_nodup : NoDup ds.

(** C21: svm_migrate_to_device, for a range whose pages may be in host memory
    and on several devices of the process: it terminates and every migration it
    starts is legal (a range moved from host memory is on no device, a range moved
    from a device is on that device).  The devices are consistent afterwards.  The
    pages up to some address are at the requested device and on no other one, all
    other pages are where they were; on success that address is the end of the
    range.  Conditions: DMA mappings succeed and no list entry or interval node
    fails to be allocated (search_failure_ignored shows what the code does when an
    entry cannot be), the array and work item allocations may fail; the two
    variables the movers do not initialise are not the largest int (retry_cnt) and
    not 0 (res of svm_migrate_dev_to_ram); the devices found on the bus are distinct and consistent with disjoint
    intervals ([svm_inv]), the requested one is among them, the range is aligned
    and no larger than the device memory. *)
Theorem svm_migrate_to_device_correct (pdev va npages : Z) (s : sys T) :
  pdev ∈ ds -> range_ok va npages -> va mod PAGE_SIZE = 0 -> svm_inv s ->
  wp M (svm_migrate_to_device bus my_mm pdev va npages) s (fun res s' =>
    svm_inv s' /\ exists lo, va <= lo <= va + npages * PAGE_SIZE /\
      (forall x d, d ∈ ds ->
         if decide (va <= x < lo) then placed s' d x <-> d = pdev
         else placed s' d x <-> placed s d x) /\
      (res = 0 -> lo = va + npages * PAGE_SIZE)).
Proof.
  intros Hd Hr Hal Hinv.
  eapply wp_mono; [by apply (svm_migrate_to_device_spec page_of dma_of populated tick
    (mk_faults false false) ds svm_inv bus my_mm eq_refl bus_ds ds_nodup)|].
  intros res s' (_ & lo & Hlo & (Hinv' & Hdone & Hrest) & Hres). split; [done|].
  exists lo. split; [done|]. split; [|done]. intros x d Hdd. case_decide as Hx; [|by apply Hrest].
  split; [|by intros ->; apply Hdone]. intros Hp.
  by apply (si_disjoint _ Hinv' d pdev x); [..|apply Hdone].
Qed.

(** A user managed migration to a device: the address space is locked and
    unlocked again, and when it reports success every byte of the region is at
    the device and on no other one; only whole pages that meet the region have
    moved. *)
Theorem user_managed_to_device_correct (inst : bus_dev) (vaddr size r0 : Z) (s : sys T) :
  pdev_id inst ∈ ds -> mm_id inst = my_mm -> 0 <= vaddr -> 0 < size < 2 ^ 42 ->
  vaddr + size <= VA_MAX -> mm s = mm_unlocked -> svm_inv (set_mm mm_locked s) ->
  wp M (pcie_svm_user_managed_migration_to_device r0 bus inst vaddr size) s (fun res s' =>
    mm s' = mm_unlocked /\ svm_inv (set_mm mm_locked s') /\
    (res = 0 -> forall x d, d ∈ ds -> vaddr <= x < vaddr + size ->
       placed s' d x <-> d = pdev_id inst) /\
    (forall x d, d ∈ ds ->
       ~ (page_floor vaddr <= x < page_ceil (u64 (vaddr + size))) ->
       placed s' d x <-> placed s d x)).
Proof.
  intros Hd Hm Hv Hs Hend Hun Hinv.
  eapply wp_mono; [by apply (user_to_device_spec page_of dma_of populated tick
    (mk_faults false false) ds svm_inv bus my_mm eq_refl bus_ds ds_nodup)|].
  intros res s' (Hun' & Hinv' & _ & lo & Hlo & (_ & Hdone & Hrest) & Hres). split_and!; try done.
  - intros Hr x d Hdd Hx. specialize (Hres Hr).
    assert (page_floor vaddr <= x < lo) as Hx'
      by (destruct (align_spec vaddr size Hv Hs Hend) as ((? & ?) & _); lia).
    split; [|by intros ->; apply (Hdone x Hx')]. intros Hp.
    by apply (si_disjoint _ Hinv' d (pdev_id inst) x); [..|apply (Hdone x Hx')].
  - intros x d Hdd Hx. apply (Hrest x d Hdd). lia.
Qed.

(** A user managed migration to host memory: when it reports success no
    device of the process holds any byte of the region; no page outside of the
    region's pages has moved, and no device holds a page it did not hold before. *)
Theorem user_managed_to_ram_correct (inst : bus_dev) (vaddr size : Z) (s : sys T) :
  pdev_id inst ∈ ds -> mm_id inst = my_mm -> 0 <= vaddr -> 0 < size < 2 ^ 42 ->
  vaddr + size <= VA_MAX -> mm s = mm_unlocked -> svm_inv (set_mm mm_locked s) ->
  wp M (pcie_svm_user_managed_migration_to_ram bus inst vaddr size) s (fun res s' =>
    mm s' = mm_unlocked /\ svm_inv (set_mm mm_locked s') /\
    (res = 0 -> forall x d, d ∈ ds -> vaddr <= x < vaddr + size -> ~ placed s' d x) /\
    (forall x d, d ∈ ds -> placed s' d x -> placed s d x) /\
    (forall x d, d ∈ ds ->
       ~ (page_floor vaddr <= x < page_ceil (u64 (vaddr + size))) ->
       placed s' d x <-> placed s d x)).
Proof.
  intros Hd Hm Hv Hs Hend Hun Hinv.
  eapply wp_mono; [by apply (user_to_ram_spec page_of dma_of populated tick
    (mk_faults false false) ds svm_inv bus my_mm eq_refl bus_ds ds_nodup)|].
  intros res s' (Hun' & Hinv' & _ & Hsh & Hres). split_and!; try done.
  - intros Hr x d Hdd Hx. by apply (Hres Hr d Hdd).
  - intros x d Hdd. by apply (Hsh x d Hdd).
  - intros x d Hdd Hx. destruct (Hsh x d Hdd) as [H1 H2]. split; [done|by apply H2].
Qed.

End Movers.

(** ** Witnesses: two devices of process 7; device 0 holds two pages *)
Definition demo_bus : list bus_dev :=
  [mk_bus 0x10EE 0x7038 0 true 7; mk_bus 0x1234 0x7038 5 true 7; mk_bus 0x10EE 0x7038 1 true 7].

Notation demo_driver := (driver 1000 1 Some (fun _ => true) 0 7).

Lemma demo_inv : svm_inv 1 [0; 1] (fun _ => 1048576) demo_pair.
Proof.
  pose proof demo_pair_ok as (_ & H0 & H1 & W1).
  assert (forall d, d ∈ [0; 1] -> d = 0 \/ d = 1) as Hds by set_solver.
  assert (forall a x, a ∈ [0; 1] -> placed demo_pair a x -> a = 0) as Hp.
  { intros a x [->| ->]%Hds Hx; [done|]. by apply demo_uncovered in Hx. }
  split.
  - reflexivity.
  - apply Nat.lt_0_1.
  - intros d [->| ->]%Hds; done.
  - intros d [->| ->]%Hds; [|done]. vm_compute. split; congruence.
  - intros d [->| ->]%Hds; [apply demo_tree2_wf|apply wf_nodes_nil].
  - intros a b x Ha Hb Pa Pb. by rewrite (Hp a x Ha Pa), (Hp b x Hb Pb).
Qed.

Lemma demo_unlocked_inv :
  svm_inv 1 [0; 1] (fun _ => 1048576) (set_mm mm_locked (set_mm mm_unlocked demo_pair)).
Proof. exact demo_inv. Qed.

Lemma demo_ds_nodup : NoDup [0; 1].
Proof. apply NoDup_ListNoDup. repeat constructor; simpl; lia. Qed.

Lemma svm_migrate_to_device_correct_witness :
  wp (svm_model Some (fun _ => 4096) (fun _ => true) 1000000 (mk_faults false false))
    (svm_migrate_to_device (Mig := demo_driver) demo_bus 7 1 65536 3) demo_pair
    (fun res s' => res = 0 -> placed s' 1 77823 /\ ~ placed s' 0 65536).
Proof.
  eapply wp_mono; [apply (svm_migrate_to_device_correct 1000 1 Some (fun _ => true) 0 7
    (fun _ => 4096) (fun _ => true) 1000000 [0; 1] (fun _ => 1048576) demo_platform
    ltac:(lia) ltac:(lia) demo_bus 7 eq_refl demo_ds_nodup 1 65536 3 demo_pair
    ltac:(set_solver) demo_range eq_refl demo_inv)|].
  intros res s' (_ & lo & _ & Hp & Hres) Hr. rewrite (Hres Hr) in Hp. split.
  - specialize (Hp 77823 1 ltac:(set_solver)). rewrite decide_True in Hp by (unfold PAGE_SIZE; lia).
    by apply Hp.
  - specialize (Hp 65536 0 ltac:(set_solver)). rewrite decide_True in Hp by (unfold PAGE_SIZE; lia).
    intros Hx. by apply Hp in Hx.
Defined.

Lemma user_managed_to_device_correct_witness :
  wp (svm_model Some (fun _ => 4096) (fun _ => true) 1000000 (mk_faults false false))
    (pcie_svm_user_managed_migration_to_device (Mig := demo_driver) 3 demo_bus
       (mk_bus 0x10EE 0x7038 1 true 7) 65540 100) (set_mm mm_unlocked demo_pair)
    (fun res s' => mm s' = mm_unlocked /\ (res = 0 -> placed s' 1 65600)).
Proof.
  eapply wp_mono; [apply (user_managed_to_device_correct 1000 1 Some (fun _ => true) 0 7
    (fun _ => 4096) (fun _ => true) 1000000 [0; 1] (fun _ => 1048576) demo_platform
    ltac:(lia) ltac:(lia) demo_bus 7 eq_refl demo_ds_nodup (mk_bus 0x10EE 0x7038 1 true 7) 65540 100 3
    (set_mm mm_unlocked demo_pair) ltac:(set_solver) eq_refl ltac:(lia) ltac:(lia)
    ltac:(unfold VA_MAX; lia) eq_refl demo_unlocked_inv)|].
  intros res s' (H1 & _ & H2 & _). split; [exact H1|]. intros Hr.
  apply (H2 Hr 65600 1); [set_solver|lia|reflexivity].
Defined.

Lemma user_managed_to_ram_correct_witness :
  wp (svm_model Some (fun _ => 4096) (fun _ => true) 1000000 (mk_faults false false))
    (pcie_svm_user_managed_migration_to_ram (Mig := demo_driver) demo_bus
       (mk_bus 0x10EE 0x7038 1 true 7) 65540 100) (set_mm mm_unlocked demo_pair)
    (fun res s' => mm s' = mm_unlocked /\ (res = 0 -> ~ placed s' 0 65600)).
Proof.
  eapply wp_mono; [apply (user_managed_to_ram_correct 1000 1 Some (fun _ => true) 0 7
    (fun _ => 4096) (fun _ => true) 1000000 [0; 1] (fun _ => 1048576) demo_platform
    ltac:(lia) ltac:(lia) demo_bus 7 eq_refl demo_ds_nodup (mk_bus 0x10EE 0x7038 1 true 7) 65540 100
    (set_mm mm_unlocked demo_pair) ltac:(set_solver) eq_refl ltac:(lia) ltac:(lia)
    ltac:(unfold VA_MAX; lia) eq_refl demo_unlocked_inv)|].
  intros res s' (H1 & _ & H2 & _). split; [exact H1|]. intros Hr.
  apply (H2 Hr 65600 0); [set_solver|lia].
Defined.

(** A kernel that has no memory for list entries. *)
Definition no_entries (X : Type) (e : svmE ListTree.tree X) (s : sys ListTree.tree)
    : X * sys ListTree.tree :=
  match e in svmE _ X return X * sys ListTree.tree with
  | kmalloc_entry => (None, s)
  | e => obliging _ e s
  end.

(** The error of search_vmem_intervals is only printed: when its list entry
    cannot be allocated, pages that are on a device are taken for pages in host
    memory, and a migration from host memory is requested for them. *)
Theorem search_failure_ignored :
  let (_, s') := run no_entries
    (svm_migrate_to_device (Mig := demo_driver) demo_bus 7 1 65536 2) demo_pair in
  it_nodes (vmem_intervals (devs demo_pair 0)) = [mk_node 65536 73727] /\
  mig_start (migr s') = 65536 /\ mig_src (migr s') = [Some 1; Some 2].
Proof. vm_compute. split_and!; reflexivity. Qed.

(** The entries of the intervals that come after a migration that fails are
    not freed: with two intervals on device 0 and a kernel that refuses to set the
    first migration up, one entry stays allocated. *)
Theorem svm_migrate_to_device_leaks :
  let held := set_tree (ListTree.of_list [mk_node 65536 69631; mk_node 73728 77823]) demo_dev in
  let s := mk_sys (fun d => if d =? 0 then held else demo_dev) [] [] [] mm_locked 0 0 no_migration [] in
  let (res, s') := run obliging
    (svm_migrate_to_device (Mig := demo_driver) demo_bus 7 1 65536 3) s in
  res = -1 /\ heap s = [] /\ length (heap s') = 1%nat.
Proof. vm_compute. split_and!; reflexivity. Qed.

End Movers.
