(* ===== verification/FaultArray.v ===== *)
(** * The array of faulted addresses (pcie/pcie_svm.c)

    svm_cmp_addr, remove_duplicates and pack_array work in place on the array of
    faulted addresses.  The array is a list that keeps its length; only its first
    [size] elements count.  remove_duplicates drops adjacent addresses that are
    equal but for their flags, pack_array drops zeros; after the kernel's sort the
    addresses are strictly ascending. *)
From S2P Require Import Prelude.
From S2P Require Import SvmHw.

Module FaultArray.
Import SvmHw.

Definition masked (x : Z) : Z := Z.land x VADDR_MASK.

(** svm_cmp_addr *)
Definition svm_cmp_addr (p1 p2 : Z) : Z :=
  let addr_1 := masked p1 in
  let addr_2 := masked p2 in
  Z.b2z (addr_1 >? addr_2) - Z.b2z (addr_1 <? addr_2).

(** array[j] = array[j + gap] for [count] positions from [j] on *)
Fixpoint shift_loop (count j gap : nat) (array : list Z) : list Z :=
  match count with
  | O => array
  | S count' =>
      shift_loop count' (S j) gap (<[j := nth (j + gap) array 0]> array)
  end.

(** remove_duplicates: the array and its new size *)
Fixpoint remove_duplicates_loop (fuel i size : nat) (array : list Z) : list Z * nat :=
  match fuel with
  | O => (array, size)
  | S fuel' =>
      if (i <? size)%nat then
        if masked (nth i array 0) =? masked (nth (i - 1) array 0)
        then remove_duplicates_loop fuel' i (size - 1) (shift_loop (size - 1 - i) i 1 array)
        else remove_duplicates_loop fuel' (S i) size array
      else (array, size)
  end.

Definition remove_duplicates (array : list Z) (size : nat) : list Z * nat :=
  remove_duplicates_loop size 1 size array.

(** The zeros from [idx + gap] on, plus [gap]. *)
Fixpoint gap_loop (fuel idx gap size : nat) (array : list Z) : nat :=
  match fuel with
  | O => gap
  | S fuel' =>
      if (idx + gap <? size)%nat && (nth (idx + gap) array 0 =? 0)
      then gap_loop fuel' idx (S gap) size array
      else gap
  end.

(** pack_array: the array and its new size *)
Fixpoint pack_loop (fuel idx size : nat) (array : list Z) : list Z * nat :=
  match fuel with
  | O => (array, size)
  | S fuel' =>
      if (idx <? size)%nat then
        if nth idx array 0 =? 0 then
          let gap := gap_loop size idx 1 size array in
          pack_loop fuel' (S idx) (size - gap) (shift_loop (size - gap - idx) idx gap array)
        else pack_loop fuel' (S idx) size array
      else (array, size)
  end.

Definition pack_array (array : list Z) (size : nat) : list Z * nat :=
  pack_loop size 0 size array.

(** ** Reference definitions *)
Fixpoint drop_repeats (prev : Z) (l : list Z) : list Z :=
  match l with
  | [] => []
  | x :: l' => if masked x =? masked prev then drop_repeats prev l' else x :: drop_repeats x l'
  end.

Definition distinct_addrs (l : list Z) : list Z :=
  match l with
  | [] => []
  | x :: l' => x :: drop_repeats x l'
  end.

(** ** The shift *)
Lemma length_shift_loop (count j gap : nat) (array : list Z) :
  length (shift_loop count j gap array) = length array.
Proof.
  revert j array. induction count as [|count IH]; intros j array; simpl; [done|].
  by rewrite IH, length_insert.
Qed.

Lemma shift_loop_nth (count j gap k : nat) (array : list Z) :
  (0 < gap)%nat -> (j + count <= length array)%nat ->
  nth k (shift_loop count j gap array) 0 =
  if ((j <=? k) && (k <? j + count))%nat then nth (k + gap) array 0 else nth k array 0.
Proof.
  intros Hg. revert j array. induction count as [|count IH]; intros j array Hlen; simpl.
  - destruct (Nat.leb_spec j k), (Nat.ltb_spec k (j + 0)); simpl; try done. lia.
  - assert (forall i, nth i (<[j:=nth (j + gap) array 0]> array) 0 =
              if (i =? j)%nat then nth (j + gap) array 0 else nth i array 0) as Hins.
    { intros i. rewrite !nth_lookup. destruct (Nat.eqb_spec i j) as [->|Hne].
      - by rewrite list_lookup_insert_eq by lia.
      - by rewrite list_lookup_insert_ne. }
    rewrite IH by (rewrite length_insert; lia). rewrite !Hins.
    destruct (Nat.leb_spec (S j) k), (Nat.ltb_spec k (S j + count)), (Nat.leb_spec j k),
      (Nat.ltb_spec k (j + S count)), (Nat.eqb_spec (k + gap) j), (Nat.eqb_spec k j); simpl;
      try lia; try done; subst; done.
Qed.

(** Reading the first elements of an array. *)
Lemma nth_take_default (n k : nat) (l : list Z) :
  (k < n)%nat -> nth k (take n l) 0 = nth k l 0.
Proof. intros. rewrite !nth_lookup. by rewrite lookup_take_lt. Qed.

Lemma take_nth_ext (n m : nat) (l k : list Z) :
  (n <= length l)%nat -> (m <= length k)%nat -> n = m ->
  (forall i, (i < n)%nat -> nth i l 0 = nth i k 0) -> take n l = take m k.
Proof.
  intros Hl Hk <- Heq. apply (nth_ext _ _ 0 0); rewrite !length_take; [lia|].
  intros i Hi. rewrite !nth_take_default by lia. apply Heq. lia.
Qed.

Lemma shift_loop_take (size idx gap : nat) (array : list Z) :
  (0 < gap)%nat -> (idx + gap <= size)%nat -> (size <= length array)%nat ->
  take (size - gap) (shift_loop (size - gap - idx) idx gap array) =
  take idx array ++ drop (idx + gap) (take size array).
Proof.
  intros Hg Hi Hs. set (k := take idx array ++ drop (idx + gap) (take size array)).
  assert (length k = size - gap)%nat as Hk.
  { unfold k. rewrite length_app, length_drop, !length_take. lia. }
  rewrite <- (firstn_all k), Hk. apply take_nth_ext; try lia.
  { rewrite length_shift_loop. lia. }
  intros i Hin. rewrite shift_loop_nth by lia. unfold k.
  destruct (Nat.leb_spec idx i) as [Hle|Hlt]; simpl.
  - destruct (Nat.ltb_spec i (idx + (size - gap - idx))); [|lia].
    rewrite app_nth2; rewrite length_take; [|lia]. rewrite !nth_lookup, lookup_drop.
    replace (idx + gap + (i - idx `min` length array))%nat with (i + gap)%nat by lia.
    by rewrite lookup_take_lt by lia.
  - rewrite app_nth1 by (rewrite length_take; lia). by rewrite nth_take_default.
Qed.

(** ** remove_duplicates *)

(** The elements before [i] are kept, those from [i] on are filtered against
    the element before. *)
Lemma remove_duplicates_loop_spec (fuel i size : nat) (array : list Z) :
  (0 < i <= size)%nat -> (size <= length array)%nat -> (size - i <= fuel)%nat ->
  let (array', size') := remove_duplicates_loop fuel i size array in
  length array' = length array /\ (size' <= size)%nat /\
  take size' array' =
    take i array ++ drop_repeats (nth (i - 1) array 0) (drop i (take size array)).
Proof.
  revert i size array. induction fuel as [|fuel IH]; intros i size array Hi Hs Hf; simpl.
  { split_and!; [done|lia|]. assert (i = size) as -> by lia.
    rewrite drop_ge by (rewrite length_take; lia). by rewrite app_nil_r. }
  destruct (Nat.ltb_spec i size) as [Hlt|Hge].
  2:{ split_and!; [done|lia|]. assert (i = size) as -> by lia.
      rewrite drop_ge by (rewrite length_take; lia). by rewrite app_nil_r. }
  assert (drop i (take size array) = nth i array 0 :: drop (S i) (take size array)) as Hd.
  { rewrite nth_lookup. destruct (array !! i) as [x|] eqn:Hx.
    - apply drop_S. by rewrite lookup_take_lt.
    - apply lookup_ge_None in Hx. lia. }
  rewrite Hd. cbn [drop_repeats].
  destruct (Z.eqb_spec (masked (nth i array 0)) (masked (nth (i - 1) array 0))) as [E|E].
  - set (a := shift_loop (size - 1 - i) i 1 array).
    assert (take (size - 1) a = take i array ++ drop (S i) (take size array)) as Ha.
    { unfold a. replace (S i) with (i + 1)%nat by lia. apply shift_loop_take; lia. }
    specialize (IH i (size - 1)%nat a). destruct (remove_duplicates_loop fuel i (size - 1) a) as [a' n'].
    assert (length a = length array) as Hla by apply length_shift_loop.
    destruct IH as (H1 & H2 & H3); try lia. split_and!; try lia. rewrite H3.
    assert (take i a = take i array /\ nth (i - 1) a 0 = nth (i - 1) array 0) as [-> ->].
    { assert (forall k, (k < i)%nat -> nth k a 0 = nth k array 0) as Hk.
      { intros k Hk. unfold a. rewrite shift_loop_nth by lia.
        destruct (Nat.leb_spec i k); [lia|done]. }
      split; [apply take_nth_ext; try lia; auto|apply Hk; lia]. }
    do 2 f_equal. rewrite Ha. rewrite drop_app_ge by (rewrite length_take; lia).
    rewrite length_take. replace (i - i `min` length array)%nat with 0%nat by lia. done.
  - specialize (IH (S i) size array). destruct (remove_duplicates_loop fuel (S i) size array) as [a' n'].
    destruct IH as (H1 & H2 & H3); try lia. split_and!; try lia. rewrite H3.
    replace (S i - 1)%nat with i by lia.
    rewrite (take_S_r array i (nth i array 0)), <- app_assoc; [done|].
    destruct (lookup_lt_is_Some_2 array i) as [x Hx]; [lia|]. by rewrite nth_lookup, Hx.
Qed.

Lemma remove_duplicates_spec (array : list Z) (size : nat) :
  (size <= length array)%nat ->
  let (array', size') := remove_duplicates array size in
  length array' = length array /\ (size' <= size)%nat /\
  take size' array' = distinct_addrs (take size array).
Proof.
  intros Hs. unfold remove_duplicates. destruct size as [|size]; [simpl; by split_and!|].
  pose proof (remove_duplicates_loop_spec (S size) 1 (S size) array) as H.
  destruct (remove_duplicates_loop (S size) 1 (S size) array) as [a n].
  destruct H as (H1 & H2 & H3); try lia. split_and!; try done. rewrite H3.
  destruct array as [|x l]; [simpl in Hs; lia|]. simpl. by rewrite drop_0.
Qed.

(** ** pack_array *)
Lemma gap_loop_spec (fuel idx gap size : nat) (array : list Z) :
  (idx + gap <= size)%nat -> (size <= idx + gap + fuel)%nat -> (size <= length array)%nat ->
  let g := gap_loop fuel idx gap size array in
  (gap <= g)%nat /\ (idx + g <= size)%nat /\
  (forall k, (gap <= k < g)%nat -> nth (idx + k) array 0 = 0) /\
  ((idx + g < size)%nat -> nth (idx + g) array 0 <> 0).
Proof.
  cbv zeta. revert gap. induction fuel as [|fuel IH]; intros gap Hg Hf Hs; simpl.
  { split_and!; lia. }
  destruct (Nat.ltb_spec (idx + gap) size) as [Hlt|]; simpl; [|split_and!; lia].
  destruct (Z.eqb_spec (nth (idx + gap) array 0) 0) as [E|E]; [|split_and!; done || lia].
  destruct (IH (S gap)) as (H1 & H2 & H3 & H4); try lia. split_and!; try done; try lia.
  intros k Hk. destruct (decide (k = gap)) as [->|]; [done|]. apply H3. lia.
Qed.

Lemma filter_zeros (l : list Z) : (forall x, x ∈ l -> x = 0) -> List.filter nonzero l = [].
Proof.
  induction l as [|x l IH]; intros Hz; simpl; [done|].
  rewrite (Hz x) by (by left). simpl. apply IH. intros y Hy. apply Hz. by right.
Qed.

(** The elements before [idx] are kept, zeros are dropped from [idx] on. *)
Lemma pack_loop_spec (fuel idx size : nat) (array : list Z) :
  (size <= length array)%nat -> (size - idx <= fuel)%nat -> (idx <= size)%nat ->
  let (array', size') := pack_loop fuel idx size array in
  length array' = length array /\ (size' <= size)%nat /\
  take size' array' = take idx array ++ List.filter nonzero (drop idx (take size array)).
Proof.
  revert idx size array. induction fuel as [|fuel IH]; intros idx size array Hs Hf Hi; simpl.
  { assert (idx = size) as -> by lia. split_and!; [done|done|].
    rewrite drop_ge by (rewrite length_take; lia). by rewrite app_nil_r. }
  destruct (Nat.ltb_spec idx size) as [Hlt|Hge].
  2:{ assert (idx = size) as -> by lia. split_and!; [done|done|].
      rewrite drop_ge by (rewrite length_take; lia). by rewrite app_nil_r. }
  assert (forall a n, (idx < n)%nat -> (n <= length a)%nat ->
    take (S idx) a = take idx a ++ [nth idx a 0] /\
    drop idx (take n a) = nth idx a 0 :: drop (S idx) (take n a)) as Hstep.
  { intros a n Hn Hl. destruct (lookup_lt_is_Some_2 a idx) as [x Hx]; [lia|].
    rewrite nth_lookup, Hx. split; [by apply take_S_r|]. apply drop_S. by rewrite lookup_take_lt. }
  destruct (Hstep array size) as [Ht Hd]; try lia.
  destruct (Z.eqb_spec (nth idx array 0) 0) as [E|E].
  2:{ specialize (IH (S idx) size array). destruct (pack_loop fuel (S idx) size array) as [a' n'].
      destruct IH as (H1 & H2 & H3); try lia. split_and!; try done. rewrite H3, Ht, Hd.
      cbn [List.filter]. unfold nonzero at 2. destruct (Z.eqb_spec (nth idx array 0) 0); [done|].
      by rewrite <- app_assoc. }
  destruct (gap_loop_spec size idx 1 size array) as (G1 & G2 & G3 & G4); try lia.
  set (g := gap_loop size idx 1 size array) in *.
  set (a := shift_loop (size - g - idx) idx g array).
  assert (length a = length array) as Hla by apply length_shift_loop.
  assert (take (size - g) a = take idx array ++ drop (idx + g) (take size array)) as Ha
    by (apply shift_loop_take; lia).
  assert (List.filter nonzero (drop idx (take size array)) =
          List.filter nonzero (drop (idx + g) (take size array))) as ->.
  { rewrite <- (take_drop g (drop idx (take size array))), List.filter_app, drop_drop.
    rewrite filter_zeros; [done|]. intros x Hx. apply list_elem_of_lookup in Hx as [k Hk].
    apply lookup_take_Some in Hk as [Hk Hkg]. rewrite lookup_drop in Hk.
    apply lookup_take_Some in Hk as [Hk _].
    assert (nth (idx + k) array 0 = x) as <- by (by rewrite nth_lookup, Hk).
    destruct (decide (k = 0%nat)) as [->|]; [by rewrite Nat.add_0_r|]. apply G3. lia. }
  assert (take idx a = take idx array) as Htk.
  { apply take_nth_ext; try lia. intros k Hk. unfold a. rewrite shift_loop_nth by lia.
    destruct (Nat.leb_spec idx k); [lia|done]. }
  assert (drop idx (take (size - g) a) = drop (idx + g) (take size array)) as Hdr.
  { rewrite Ha, drop_app_ge, length_take by (rewrite length_take; lia).
    replace (idx - idx `min` length array)%nat with 0%nat by lia. done. }
  rewrite <- Hdr. destruct (decide (idx < size - g)%nat) as [Hin|Hout].
  - destruct (Hstep a (size - g)%nat) as [Ht' Hd']; try lia.
    assert (nth idx a 0 <> 0) as Hnz.
    { unfold a. rewrite shift_loop_nth by lia. destruct (Nat.leb_spec idx idx); [|lia].
      destruct (Nat.ltb_spec idx (idx + (size - g - idx))); [|lia]. apply G4. lia. }
    specialize (IH (S idx) (size - g)%nat a). destruct (pack_loop fuel (S idx) (size - g) a) as [a' n'].
    destruct IH as (H1 & H2 & H3); try lia. split_and!; try lia. rewrite H3, Ht', Hd', Htk.
    cbn [List.filter]. unfold nonzero at 2. destruct (Z.eqb_spec (nth idx a 0) 0); [done|].
    by rewrite <- app_assoc.
  - replace (pack_loop fuel (S idx) (size - g) a) with (a, (size - g)%nat).
    2:{ destruct fuel; [done|]. simpl. destruct (Nat.ltb_spec (S idx) (size - g)); [lia|done]. }
    split_and!; try lia. replace (size - g)%nat with idx by lia. rewrite Htk.
    rewrite drop_ge by (rewrite length_take; lia). by rewrite app_nil_r.
Qed.

Lemma pack_array_spec (array : list Z) (size : nat) :
  (size <= length array)%nat ->
  let (array', size') := pack_array array size in
  length array' = length array /\ (size' <= size)%nat /\
  take size' array' = List.filter nonzero (take size array).
Proof. intros Hs. apply (pack_loop_spec size 0 size array); lia. Qed.

(** ** After the sort *)

(** The order the kernel's sort establishes with svm_cmp_addr. *)
Definition cmp_le (a b : Z) : Prop := svm_cmp_addr a b <= 0.
Definition addr_lt (a b : Z) : Prop := masked a < masked b.

Lemma cmp_le_masked (a b : Z) : cmp_le a b <-> masked a <= masked b.
Proof.
  unfold cmp_le, svm_cmp_addr. rewrite Z.gtb_ltb.
  destruct (Z.ltb_spec (masked b) (masked a)), (Z.ltb_spec (masked a) (masked b)); simpl; lia.
Qed.

Lemma drop_repeats_spec (prev : Z) (l : list Z) :
  StronglySorted cmp_le (prev :: l) ->
  StronglySorted addr_lt (prev :: drop_repeats prev l) /\
  forall v, v ∈ map masked (prev :: l) <-> v ∈ map masked (prev :: drop_repeats prev l).
Proof.
  revert prev. induction l as [|x l IH]; intros prev Hs; simpl; [split; [repeat constructor|done]|].
  apply StronglySorted_inv in Hs as [Hs Hall]. apply Forall_cons in Hall as [Hpx Hall].
  pose proof (StronglySorted_inv Hs) as [Hs' Hx]. rewrite cmp_le_masked in Hpx.
  destruct (Z.eqb_spec (masked x) (masked prev)) as [E|E].
  - destruct (IH prev) as [H1 H2]; [by constructor|]. split; [done|]. intros v. rewrite <- H2.
    simpl. rewrite !elem_of_cons, E. tauto.
  - destruct (IH x Hs) as [H1 H2]. split.
    + constructor; [done|]. apply Forall_forall. intros y Hy. unfold addr_lt.
      assert (masked x <= masked y); [|lia].
      apply elem_of_cons in Hy as [->|Hy]; [done|].
      apply StronglySorted_inv in H1 as [_ H1]. rewrite Forall_forall in H1.
      specialize (H1 y Hy). unfold addr_lt in H1. lia.
    + intros v. specialize (H2 v). simpl in H2 |- *. rewrite (elem_of_cons (masked x :: map masked l)).
      rewrite H2. by rewrite <- elem_of_cons.
Qed.

Lemma distinct_addrs_spec (l : list Z) :
  StronglySorted cmp_le l ->
  StronglySorted addr_lt (distinct_addrs l) /\
  forall v, v ∈ map masked l <-> v ∈ map masked (distinct_addrs l).
Proof. destruct l as [|x l]; [split; [constructor|done]|]. apply drop_repeats_spec. Qed.

(** C25: the array routines, in place: on an array whose first [size] elements
    the kernel has sorted with svm_cmp_addr, remove_duplicates leaves exactly the
    different addresses, each once and ascending; pack_array leaves the non-zero
    elements in their order. *)
Theorem fault_array_correct (array : list Z) (size : nat) :
  (size <= length array)%nat -> StronglySorted cmp_le (take size array) ->
  (let (array', size') := remove_duplicates array size in
   length array' = length array /\ (size' <= size)%nat /\
   StronglySorted addr_lt (take size' array') /\
   forall v, v ∈ map masked (take size array) <-> v ∈ map masked (take size' array')) /\
  (let (array', size') := pack_array array size in
   length array' = length array /\ (size' <= size)%nat /\
   take size' array' = List.filter nonzero (take size array)).
Proof.
  intros Hs Hsort. split; [|by apply pack_array_spec].
  pose proof (remove_duplicates_spec array size Hs) as H.
  destruct (remove_duplicates array size) as [a n]. destruct H as (H1 & H2 & H3).
  rewrite H3. destruct (distinct_addrs_spec _ Hsort) as [H4 H5]. done.
Qed.

Lemma fault_array_correct_witness :
  let array := [4096; 8192; 8192 + 2 ^ 62; 12288; 0; 77] in
  remove_duplicates array 4 = ([4096; 8192; 12288; 12288; 0; 77], 3%nat) /\
  pack_array [0; 0; 5; 0; 7; 0; 9] 6 = ([5; 7; 0; 0; 7; 0; 9], 2%nat) /\
  StronglySorted addr_lt (take 3 [4096; 8192; 12288; 12288; 0; 77]).
Proof.
  intros array. split; [vm_compute; reflexivity|]. split; [vm_compute; reflexivity|].
  assert (StronglySorted cmp_le (take 4 array)) as Hs.
  { repeat constructor; vm_compute; discriminate. }
  pose proof (fault_array_correct array 4 ltac:(simpl; lia) Hs) as [H _].
  exact (proj1 (proj2 (proj2 H))).
Defined.

End FaultArray.
