(* ===== verification/CpuFault.v ===== *)
(** * Events of the host: CPU page faults and the MMU notifier
      (pcie/pcie_svm.c)

    svm_migrate_to_ram brings one page back when the CPU touches it;
    svm_tlb_invalidate_range_start keeps the on-FPGA IOMMU and the interval tree
    in step when the kernel changes the address space of the process. *)
From S2P Require Import Prelude Kernel.
From S2P Require Import DevMem DevPages Intervals SvmHw SvmSys SvmIo SvmCopy Placement.

Module CpuFault.
Import Kernel DevMem DevPages Intervals SvmHw SvmSys SvmIo SvmCopy Placement.
#[local] Open Scope prog_scope.

Definition VM_FAULT_SIGBUS : Z := 2.

Section Code.
Context {T : Type} {IT : IntervalTree T}.
Notation P := (prog (svmE T)).
Variable busy_fuel : nat.
Variable page_of : Z -> option Z.
Variable migrating : Z -> bool.

(** do rval = readq(&dma_regs->c2h_status_ctrl); while (rval & BUSY); *)
Fixpoint poll_c2h (fuel : nat) (d : Z) : P Z :=
  match fuel with
  | O => call hang;;; Ret 0
  | S fuel' =>
      let! rval := call (readq d c2h_status_ctrl) in
      if nonzero (Z.land rval PAGE_DMA_STAT_BUSY) then poll_c2h fuel' d else Ret rval
  end.

(** From the label fail_map on. *)
Definition fail_map (dst_page : Z) : P Z :=
  call (free_page dst_page);;;
  call migrate_vma_finalize;;;
  Ret VM_FAULT_SIGBUS.

(** migrate_vma_pages and migrate_vma_finalize for one page.  The finalization
    drops the reference to the page that is not used any more: the page of the
    device, for which the kernel then calls kernel_page_free, or the new page when
    migrate_vma_pages has cleared the flag MIGRATE_PFN_MIGRATE. *)
Definition finish_migration (d src_page dst_page : Z) : P unit :=
  let! src := call (migrate_vma_pages [dst_page]) in
  call migrate_vma_finalize;;;
  if forallb migrating src then call (put_page d src_page) else call (free_page dst_page).

(** svm_migrate_to_ram for a fault at [va] on a page of device [d] *)
Definition svm_migrate_to_ram (d va : Z) : P Z :=
  invalidate_tlb_entry d va;;;
  wait_mmu_idle busy_fuel d MMU_STATUS_MEM_ACCESS_ACTIVE;;;
  let! (res, cpages, src) := call (migrate_vma_setup d true va (u64 (va + PAGE_SIZE))) in
  if nonzero res then Ret VM_FAULT_SIGBUS
  else if cpages =? 0 then Ret 0
  else
    match src with
    | [e] =>
        match page_of e with
        | Some src_page =>
            if migrating e then
              let! dst_page := call (alloc_page_vma va) in
              match dst_page with
              | None => call migrate_vma_finalize;;; Ret VM_FAULT_SIGBUS
              | Some dst_page =>
                  let! dma_addr := call (dma_map_page d dst_page) in
                  match dma_addr with
                  | None => fail_map dst_page
                  | Some dma_addr =>
                      let! c := call (get_dev d) in
                      let src_addr := pfn_to_dev_addr (base_pfn (mem c)) src_page in
                      init_c2h_dma d dma_addr src_addr 1 false;;;
                      let! rval := poll_c2h busy_fuel d in
                      if nonzero (Z.land rval PAGE_DMA_STAT_ERROR_FLAGS) then
                        call (dma_unmap_page d dma_addr);;;
                        fail_map dst_page
                      else
                        call (dma_unmap_page d dma_addr);;;
                        finish_migration d src_page dst_page;;;
                        remove_interval d va 1;;;
                        Ret 0
                  end
              end
            else Ret 0
        | None => Ret 0
        end
    | _ => Ret 0
    end.

(** enum mmu_notifier_event, as far as it is looked at *)
Inductive notify_event := MMU_NOTIFY_MIGRATE | MMU_NOTIFY_OTHER.

(** struct mmu_notifier_range *)
Record notifier_range := mk_range {
  range_event : notify_event;
  range_owner : Z;
  range_start : Z;
  range_end : Z
}.

(** The loop over the intervals found. *)
Fixpoint invalidate_entries (d from to : Z) (l : list entry) : P unit :=
  match l with
  | [] => Ret tt
  | (p, n) :: l' =>
      let inv_start := Z.max (start n) from in
      let inv_end := Z.min (u64 (last n + 1)) to in
      let inv_npages := npages_between inv_start inv_end in
      invalidate_tlb_range d inv_start inv_npages;;;
      remove_interval d inv_start inv_npages;;;
      call (kfree p);;;
      invalidate_entries d from to l'
  end.

(** svm_tlb_invalidate_range_start of device [d]; invalidation during a
    migration of its own is left to the migration *)
Definition own_migration (d : Z) (r : notifier_range) : bool :=
  match range_event r with
  | MMU_NOTIFY_MIGRATE => range_owner r =? d
  | MMU_NOTIFY_OTHER => false
  end.

Definition svm_tlb_invalidate_range_start (d : Z) (r : notifier_range) : P Z :=
  if own_migration d r then Ret 0
  else
    let npages := npages_between (range_start r) (range_end r) in
    let! (_, l) := search_entries d (range_start r) npages in
    invalidate_entries d (range_start r) (range_end r) l;;;
    Ret 0.

End Code.

(** ** Specifications *)
Section Spec.
Context {T : Type} {IT : IntervalTree T} {TL : IntervalTreeLaws T}.
Variable busy_fuel : nat.
Variable page_of : Z -> option Z.
Variable migrating : Z -> bool.
Variable dma_of : Z -> Z.
Variable populated : Z -> bool.
Variable tick : Z.
Variable faults : kernel_faults.
Notation M := (svm_model page_of dma_of populated tick faults).
#[local] Set Default Proof Using "Type*".

Lemma invalidate_tlb_entry_spec (d va : Z) (s : sys T) :
  wp M (invalidate_tlb_entry d va) s (fun _ s' => issues d [] [] [Invalidate va 0] s s').
Proof.
  unfold invalidate_tlb_entry. apply wp_writeq, wp_writeq_last.
  apply (issues_wr d mmu_vaddr va); try done.
  pose proof (wr_mmu d MMU_INVALIDATE_ENTRY (wr d mmu_vaddr va s)) as H.
  rewrite wr_regs in H. exact H.
Qed.

Lemma poll_c2h_spec (fuel : nat) (d : Z) (s : sys T) :
  (busy s < fuel)%nat -> wp M (poll_c2h fuel d) s (fun _ s' => quiet d s s').
Proof.
  revert s. induction fuel as [|fuel IH]; intros s Hb; [lia|].
  cbn [poll_c2h]. wp_seq (readq_spec page_of dma_of populated tick faults d); [done|]. intros v s1 (H1 & _ & _ & Hlt).
  destruct (nonzero (Z.land v PAGE_DMA_STAT_BUSY)) eqn:E; [|by apply wp_ret].
  specialize (Hlt E). eapply wp_mono; [apply IH; lia|]. intros r s2 H2. by eapply quiet_trans.
Qed.

(** The page was transferred to a fresh host page [h], which the kernel was given
    for it, and its interval is removed. *)
Definition transferred (d va page h : Z) (s s' : sys T) : Prop :=
  mm s' = mm_locked /\ migr s' = mk_migration va [Some page] [h] /\
  c2h s' d = c2h s d ++
    [mk_transfer (pfn_to_dev_addr (base_pfn (mem (devs s d))) page) (dma_of h) 1 false false] /\
  exists oks, Forall (node_answer faults) oks /\
    vmem_intervals (devs s' d) = remove_vmem_interval oks (vmem_intervals (devs s d)) va 1.

(** And the kernel has put it in the place of the page of the device, which is
    freed (or lost, when no work item could be allocated). *)
Definition returned (d va : Z) (s s' : sys T) : Prop :=
  exists page h ok, transferred d va page h s s' /\ Permutation (host s') (h :: host s) /\
    Permutation (live (devs s d)) (page :: live (devs s' d)) /\
    mem (devs s' d) = free_device_page ok (mem (devs s d)) page.

(** The host and the memory of the device are as before. *)
Definition same_pages (d : Z) (s s' : sys T) : Prop :=
  Permutation (host s') (host s) /\
  mem (devs s' d) = mem (devs s d) /\ live (devs s' d) = live (devs s d).

(** The kernel did not accept the new page: the page is still the device's. *)
Definition refused (d va : Z) (s s' : sys T) : Prop :=
  exists page h, page ∈ live (devs s d) /\ transferred d va page h s s' /\ same_pages d s s'.

(** The page is where it was. *)
Definition not_returned (d : Z) (s s' : sys T) : Prop :=
  same_pages d s s' /\ vmem_intervals (devs s' d) = vmem_intervals (devs s d).

Lemma page_bounds (va : Z) :
  0 <= va -> va + PAGE_SIZE <= VA_MAX ->
  u64 (va + PAGE_SIZE) = va + PAGE_SIZE /\ (va + PAGE_SIZE - va) / PAGE_SIZE = 1.
Proof.
  intros H1 H2. split; [apply u64_va; unfold PAGE_SIZE in *; lia|].
  replace (va + PAGE_SIZE - va) with (1 * PAGE_SIZE) by lia. by apply Z.div_mul.
Qed.

(** What no path changes: mappings, allocations, other devices; the IOMMU has
    dropped the entry of the page. *)
Definition back_frame (d va : Z) (s s' : sys T) : Prop :=
  Permutation (maps s') (maps s) /\ heap s' = heap s /\
  (forall d', d' <> d -> devs s' d' = devs s d') /\
  mmu s' d = mmu s d ++ [Invalidate va 0].

Definition back_end (d va res : Z) (s s' : sys T) : Prop :=
  back_frame d va s s' /\
  ((res = 0 /\ returned d va s s') \/
   (res = 0 /\ refused d va s s') \/
   (res = 0 /\ not_returned d s s' /\ exists src, mm s' = mm_migrating src) \/
   (res = VM_FAULT_SIGBUS /\ not_returned d s s' /\ mm s' = mm_locked)).

(** The state after the page [h] has been allocated, and perhaps mapped and
    filled. *)
Definition holding (d h : Z) (s s1 : sys T) : Prop :=
  Permutation (host s1) (h :: host s) /\
  mem (devs s1 d) = mem (devs s d) /\ live (devs s1 d) = live (devs s d) /\
  vmem_intervals (devs s1 d) = vmem_intervals (devs s d) /\
  exists src, mm s1 = mm_migrating src.

(** The clean-up: [s1] has the host page [h] in addition. *)
Lemma fail_map_spec (d va h : Z) (s s1 : sys T) :
  back_frame d va s s1 -> holding d h s s1 ->
  wp M (fail_map h) s1 (fun res s' => back_end d va res s s').
Proof.
  intros Hf (Hh & Hm & Hl & Ht & Hmm). unfold fail_map. wp_do; [simpl; rewrite Hh; by left|].
  intros [] s2 (l & Hpl & ->). wp_do; [done|]. intros [] s3 ->. apply wp_ret. split; [done|].
  right. right. right. split; [done|]. split; [|done]. split; [|done]. split; [|done]. simpl.
  apply (Permutation_cons_inv (a := h)). by rewrite <- Hpl, Hh.
Qed.

(** The end of the migration: [s1] is the state after the transfer. *)
Lemma finish_spec (d va h page : Z) (s s1 : sys T) :
  back_frame d va s s1 -> holding d h s s1 -> page ∈ live (devs s d) ->
  migr s1 = mk_migration va [Some page] [] ->
  c2h s1 d = c2h s d ++
    [mk_transfer (pfn_to_dev_addr (base_pfn (mem (devs s d))) page) (dma_of h) 1 false false] ->
  wp M (finish_migration migrating d page h;;; remove_interval d va 1;;; Ret 0) s1
    (fun res s' => back_end d va res s s').
Proof.
  intros (F1 & F2 & F3 & F4) (Hh & Hm & Hl & Ht & Hmm) Hp Hg Hc. unfold finish_migration.
  apply wp_bind. wp_do; [done|]. intros src s2 (src0 & _ & _ & ->). rewrite Hg. cbn [mig_start mig_src].
  wp_do; [by eexists|]. intros [] s2 ->.
  destruct (forallb migrating src).
  - apply wp_call; [simpl; by rewrite Hl|]. intros [] s2 (ok & l & Hpl & ->). simpl in Hpl.
    wp_seq remove_interval_spec. intros [] s3 (oks & Hoks & _ & ->). apply wp_ret.
    unfold back_end, back_frame, returned, transferred, mmu, c2h in *. rewrite !devs_upd. simpl.
    rewrite Hm, Ht. split.
    + split_and!; try done. intros d' Hd. destruct (Z.eqb_spec d' d); [done|]. by apply F3.
    + left. split; [done|]. exists page, h, ok. rewrite <- Hl. split_and!; try done. by exists oks.
  - apply wp_call; [simpl; rewrite Hh; by left|]. intros [] s2 (l & Hpl & ->). simpl in Hpl.
    wp_seq remove_interval_spec. intros [] s3 (oks & Hoks & _ & ->). apply wp_ret.
    unfold back_end, back_frame, refused, transferred, same_pages, mmu, c2h in *.
    rewrite !devs_upd. simpl. rewrite Hm, Hl, Ht. split.
    + split_and!; try done. intros d' Hd. destruct (Z.eqb_spec d' d); [done|]. by apply F3.
    + right. left. split; [done|]. exists page, h. split_and!; try done; [by exists oks|].
      apply (Permutation_cons_inv (a := h)). by rewrite <- Hpl, Hh.
Qed.

(** The transfer of the page, and what follows it: [s1] holds the host page and
    its mapping. *)
Lemma return_page_spec (d va h page : Z) (s s1 : sys T) :
  back_frame d va s (set_maps (maps s) s1) -> Permutation (maps s1) (dma_of h :: maps s) ->
  holding d h s s1 -> page ∈ live (devs s d) -> c2h s1 d = c2h s d ->
  migr s1 = mk_migration va [Some page] [] -> (busy s1 < busy_fuel)%nat ->
  wp M (let! c := call (get_dev d) in
        let src_addr := pfn_to_dev_addr (base_pfn (mem c)) page in
        init_c2h_dma d (dma_of h) src_addr 1 false;;;
        let! rval := poll_c2h busy_fuel d in
        if nonzero (Z.land rval PAGE_DMA_STAT_ERROR_FLAGS) then
          call (dma_unmap_page d (dma_of h));;;
          fail_map h
        else
          call (dma_unmap_page d (dma_of h));;;
          finish_migration migrating d page h;;;
          remove_interval d va 1;;;
          Ret 0) s1 (fun res s' => back_end d va res s s').
Proof.
  intros (_ & F2 & F3 & F4) Hmaps (Hh & Hme & Hl & Ht & Hmm) Hpage Hc2h Hg Hb.
  wp_do; [done|]. intros c s2 [-> ->]. cbv zeta.
  wp_seq init_c2h_dma_spec; [unfold PAGE_DMA_MAX_NPAGES; lia|].
  intros [] s2 (a & Ha & I2). rewrite (Ha eq_refl) in I2. clear a Ha.
  wp_seq poll_c2h_spec; [pose proof (io_busy _ _ _ (proj1 I2)); lia|]. intros rval s3 Q3.
  pose proof (issues_trans _ _ _ _ _ _ _ _ _ _ I2 (quiet_issues _ _ _ Q3)) as (Hio & _ & _ & Hc & Hm).
  clear I2 Q3 s2. simpl in *. rewrite app_nil_r in Hm.
  assert (forall l, Permutation (maps s3) (dma_of h :: l) ->
    back_frame d va s (set_maps l s3) /\ holding d h s (set_maps l s3)) as Hframe.
  { intros l Hpl. unfold back_frame, holding, mmu in *. simpl in *.
    rewrite (io_heap _ _ _ Hio), (io_mem _ _ _ Hio), (io_live _ _ _ Hio), (io_tree _ _ _ Hio),
      (io_host _ _ _ Hio), (io_mm _ _ _ Hio), Hm. split_and!; try done.
    - apply (Permutation_cons_inv (a := dma_of h)). by rewrite <- Hpl, (io_maps _ _ _ Hio).
    - intros d' Hd. rewrite (io_other _ _ _ Hio) by done. by apply F3. }
  destruct (nonzero _); (wp_do; [simpl; rewrite (io_maps _ _ _ Hio), Hmaps; by left|]);
    intros [] s4 (l & Hpl & ->); destruct (Hframe l Hpl) as [G1 G2].
  - by apply fail_map_spec.
  - apply finish_spec; try done; simpl.
    + by rewrite (io_migr _ _ _ Hio).
    + change (c2h (set_maps l s3) d) with (c2h s3 d). by rewrite Hc, Hc2h, Hme.
Qed.

Lemma svm_migrate_to_ram_spec (d va : Z) (s : sys T) :
  0 <= va -> va + PAGE_SIZE <= VA_MAX -> mm s = mm_locked -> (busy s < busy_fuel)%nat ->
  wp M (svm_migrate_to_ram busy_fuel page_of migrating d va) s (fun res s' => back_end d va res s s').
Proof.
  intros Hva Hmax Hmm Hb. unfold svm_migrate_to_ram.
  destruct (page_bounds va Hva Hmax) as [-> Hone].
  wp_seq invalidate_tlb_entry_spec. intros [] s1 I1.
  wp_seq wait_mmu_idle_spec.
  { unfold MMU_STATUS_MEM_ACCESS_ACTIVE. lia. }
  { destruct I1 as [Hio _]. pose proof (io_busy _ _ _ Hio). lia. }
  intros [] s2 Q2. pose proof (issues_trans _ _ _ _ _ _ _ _ _ _ I1 (quiet_issues _ _ _ Q2)) as I2.
  simpl in I2. clear I1 Q2 s1. destruct I2 as (Hio & _ & _ & Hc & Hm). rewrite app_nil_r in Hc.
  assert (back_frame d va s s2 /\ not_returned d s s2) as [Hf Hnot].
  { unfold not_returned, same_pages. rewrite (io_host _ _ _ Hio), (io_tree _ _ _ Hio),
      (io_mem _ _ _ Hio), (io_live _ _ _ Hio). split; [|done]. unfold back_frame. rewrite (io_maps _ _ _ Hio). split_and!; try done; apply Hio. }
  pose proof (io_busy _ _ _ Hio) as Hbusy. pose proof (io_host _ _ _ Hio) as Hho.
  assert (mm s2 = mm_locked) as Hmm2 by (by rewrite (io_mm _ _ _ Hio)).
  pose proof (io_tree _ _ _ Hio) as Htr. pose proof (io_live _ _ _ Hio) as Hlv.
  pose proof (io_maps _ _ _ Hio) as Hmp. clear Hio.
  wp_do; [simpl; split; [done|unfold PAGE_SIZE; lia]|]. intros [[res cpages] src] s3. simpl.
  rewrite Hone. unfold nonzero. destruct (Z.ltb_spec res 0) as [Hneg|Hpos].
  { intros ->. destruct (Z.eqb_spec res 0); [lia|]. apply wp_ret. split; [done|]. right. right. right. done. }
  intros (-> & -> & Hlen & Hcp & Hfull). cbn [Z.eqb negb].
  assert (back_end d va 0 s (set_mm (mm_migrating src)
    (set_migr (mk_migration va (map page_of src) []) s2))) as Hskip.
  { split; [done|]. right. right. left. split_and!; try done. by eexists. }
  destruct (Z.eqb_spec cpages 0); [by apply wp_ret|].
  destruct (Hfull ltac:(lia)) as (ps & l & Hps & Hlive).
  destruct src as [|e [|]]; [by apply wp_ret| |by apply wp_ret].
  destruct ps as [|page [|]]; try done. injection Hps as Hps. rewrite Hps.
  destruct (migrating e); [|by apply wp_ret].
  assert (forall h, holding d h s (set_host (h :: host s2) (set_mm (mm_migrating [e])
    (set_migr (mk_migration va (map page_of [e]) []) s2)))) as Hhold.
  { intros h. destruct Hnot as ((? & ? & ?) & ?). unfold holding. simpl. rewrite Hho.
    split_and!; try done. by eexists. }
  wp_do; [done|]. intros [h|] s4; simpl.
  2:{ intros ->. wp_do; [by eexists|]. intros [] s4 ->. apply wp_ret. split; [done|].
      right. right. right. done. }
  intros ->. wp_do; [done|]. intros [a|] s5; simpl.
  - intros [-> ->]. apply return_page_spec; simpl; try done.
    + split_and!; try done; apply Hf.
    + by rewrite Hmp.
    + exact (Hhold h).
    + rewrite <- Hlv, Hlive. by left.
    + by rewrite Hps.
    + lia.
  - intros [_ ->]. apply fail_map_spec; [done|exact (Hhold h)].
Qed.

(** C26: svm_migrate_to_ram, the answer to a CPU fault at [va], whatever the
    kernel and the hardware answer.  It terminates; in every case the IOMMU has
    dropped the translation of the page, no DMA mapping or allocation is left, the
    device's memory is consistent and the other devices are untouched.  One of
    four things has happened.  (1) The page the kernel collected at [va] was
    transferred to a fresh host page, which the kernel has put in its place; the
    page is freed on the device and [va] no longer present there; 0 is returned.
    (2) After the transfer the kernel refused the migration and dropped the host
    page; the page still is the device's, but its interval has been removed and 0
    is returned.  (3) No page was collected, or it may not migrate: 0 is returned,
    pages and intervals are as before, and the migration that was set up is not
    finished.  (4) An error is answered with SIGBUS: the host page is freed, the
    migration finished, pages and intervals are as before.  Conditions: a page
    address that is present on the device, a consistent device, mmap lock held,
    enough fuel for the busy-waiting loops. *)
Theorem svm_migrate_to_ram_correct (bpfn d va : Z) (s : sys T) :
  0 <= va -> va + PAGE_SIZE <= VA_MAX -> va mod PAGE_SIZE = 0 -> mm s = mm_locked ->
  (busy s < busy_fuel)%nat -> device_ok bpfn d s ->
  wf_nodes (it_nodes (vmem_intervals (devs s d))) -> placed s d va ->
  wp M (svm_migrate_to_ram busy_fuel page_of migrating d va) s (fun res s' =>
    back_frame d va s s' /\ device_ok bpfn d s' /\
    wf_nodes (it_nodes (vmem_intervals (devs s' d))) /\
    ((res = 0 /\ returned d va s s' /\ forall x, va <= x < va + PAGE_SIZE -> ~ placed s' d x) \/
     (res = 0 /\ refused d va s s' /\ forall x, va <= x < va + PAGE_SIZE -> ~ placed s' d x) \/
     (res = 0 /\ not_returned d s s' /\ exists src, mm s' = mm_migrating src) \/
     (res = VM_FAULT_SIGBUS /\ not_returned d s s' /\ mm s' = mm_locked))).
Proof.
  intros Hva Hmax Hal Hmm Hb (B1 & B2 & Hinv) Hwf (n & Hn & Hs).
  eapply wp_mono; [by apply svm_migrate_to_ram_spec|]. intros res s' [Hf Hcase]. split; [done|].
  pose proof Hwf as (_ & Hok & _). destruct (node_ok_page n va (Hok n Hn) Hal) as [H1 H2].
  { unfold PAGE_SIZE. lia. } { lia. }
  assert (forall page h, transferred d va page h s s' ->
    wf_nodes (it_nodes (vmem_intervals (devs s' d))) /\
    forall x, va <= x < va + PAGE_SIZE -> ~ placed s' d x) as Htr.
  { intros page h (_ & _ & _ & oks & _ & Ht).
    destruct (remove_vmem_interval_spec oks (vmem_intervals (devs s d)) n va 1) as [W C];
      try done; try lia.
    unfold placed. rewrite Ht. split; [done|]. intros x Hx Hc. apply C in Hc as (_ & Hno & _).
    apply Hno. lia. }
  assert (same_pages d s s' -> dev_inv bpfn d s') as Hsame.
  { intros (_ & E1 & E2). unfold dev_inv. by rewrite E1, E2. }
  destruct Hcase as [[-> Hret]|[[-> Href]|Hrest]].
  - pose proof Hret as (page & h & ok & Ht & _ & Hl & Hm). destruct (Htr page h Ht) as [W Hno].
    split; [|split; [done|by left]]. split_and!; try done. unfold dev_inv. rewrite Hm.
    apply put_preserves; try done. by eapply mem_inv_perm.
  - pose proof Href as (page & h & _ & Ht & Hs'). destruct (Htr page h Ht) as [W Hno].
    split; [|split; [done|right; by left]]. split_and!; try done. by apply Hsame.
  - assert (not_returned d s s') as [Hs' Ht] by (destruct Hrest as [(_ & ? & _)|(_ & ? & _)]; done).
    split; [|split; [by rewrite Ht|right; by right]]. split_and!; try done. by apply Hsame.
Qed.

End Spec.

(** ** The notifier *)
Section Notify.
Context {T : Type} {IT : IntervalTree T} {TL : IntervalTreeLaws T}.
Variable page_of : Z -> option Z.
Variable dma_of : Z -> Z.
Variable populated : Z -> bool.
Variable tick : Z.
Variable faults : kernel_faults.
Notation M := (svm_model page_of dma_of populated tick faults).
#[local] Set Default Proof Using "Type*".

(** The part of an interval in [from, to), and the command that invalidates it. *)
Definition part_start (from : Z) (n : node) : Z := Z.max (start n) from.
Definition part_end (to : Z) (n : node) : Z := Z.min (last n + 1) to.
Definition invalidation (from to : Z) (n : node) : mmu_op :=
  Invalidate (part_start from n)
    ((part_end to n - part_start from n) / PAGE_SIZE mod 65536).

(** Everything but the registers, the intervals and the heap. *)
Definition notified (d : Z) (s s' : sys T) : Prop :=
  (forall d', d' <> d -> devs s' d' = devs s d') /\
  mem (devs s' d) = mem (devs s d) /\ live (devs s' d) = live (devs s d) /\
  maps s' = maps s /\ host s' = host s /\ mm s' = mm s /\
  h2c s' d = h2c s d /\ c2h s' d = c2h s d.

Lemma notified_refl (d : Z) (s : sys T) : notified d s s.
Proof. by unfold notified. Qed.

Lemma notified_trans (d : Z) (s1 s2 s3 : sys T) :
  notified d s1 s2 -> notified d s2 s3 -> notified d s1 s3.
Proof.
  intros (A1 & A2 & A3 & A4 & A5 & A6 & A7 & A8) (B1 & B2 & B3 & B4 & B5 & B6 & B7 & B8).
  unfold notified. split_and!; try congruence. intros d' Hd. by rewrite B1, A1.
Qed.

Section Notifier.
Variables d from to : Z.
Hypothesis nodes_ok : node_fails faults = false.
Hypothesis from_ok : 0 <= from < to.
Hypothesis to_ok : to <= VA_MAX.
Hypothesis from_aligned : from mod PAGE_SIZE = 0.
Hypothesis to_aligned : to mod PAGE_SIZE = 0.
Hypothesis size_ok : to - from < 2 ^ 31 * PAGE_SIZE.
#[local] Set Default Proof Using "All".

(** One interval. *)
Lemma invalidate_part_spec (n : node) (s : sys T) :
  node_ok n -> start n < to -> from <= last n ->
  wf_nodes (it_nodes (vmem_intervals (devs s d))) ->
  (forall x, part_start from n <= x < part_end to n -> placed s d x) ->
  wp M (let k := npages_between (part_start from n) (part_end to n) in
        invalidate_tlb_range d (part_start from n) k;;;
        remove_interval d (part_start from n) k) s (fun _ s' =>
    notified d s s' /\ heap s' = heap s /\ mmu s' d = mmu s d ++ [invalidation from to n] /\
    wf_nodes (it_nodes (vmem_intervals (devs s' d))) /\
    forall x, placed s' d x <-> placed s d x /\ ~ (part_start from n <= x < part_end to n)).
Proof.
  intros (N1 & N2 & N3 & N4 & N5) Hst Hla Hwf Hpl. unfold invalidation.
  set (a := part_start from n) in *. set (b := part_end to n) in *.
  assert (0 <= a < b /\ from <= a /\ b <= to) as (Hab & Hfa & Hbt) by (unfold a, b, part_start, part_end; lia).
  assert (a mod PAGE_SIZE = 0 /\ b mod PAGE_SIZE = 0) as [Ha Hb].
  { unfold a, b, part_start, part_end. split.
    - destruct (Z.max_spec (start n) from) as [[_ ->]|[_ ->]]; done.
    - destruct (Z.min_spec (last n + 1) to) as [[_ ->]|[_ ->]]; done. }
  assert (exists k, 0 < k < 2 ^ 31 /\ b = a + k * PAGE_SIZE) as (k & Hk & Hbk).
  { exists ((b - a) / PAGE_SIZE). clearbody a b. unfold PAGE_SIZE in *. dlia. }
  clearbody a b. cbv zeta.
  assert (npages_between a b = k) as -> by (rewrite Hbk; apply npages_between_eq; lia).
  replace ((b - a) / PAGE_SIZE) with k.
  2:{ rewrite Hbk. replace (a + k * PAGE_SIZE - a) with (k * PAGE_SIZE) by lia. by rewrite Z.div_mul. }
  wp_seq invalidate_tlb_range_spec; [lia|]. intros [] s1 (Hio & _ & Hh & Hc & Hm).
  rewrite app_nil_r in Hh, Hc.
  eapply wp_mono; [apply remove_interval_spec|]. intros [] s2 (oks & Hoks & _ & ->).
  rewrite (io_tree _ _ _ Hio).
  destruct (remove_exact faults (vmem_intervals (devs s d)) oks a k) as [W C]; try done; [lia| |].
  { intros x Hx. apply Hpl. unfold in_range in Hx. lia. }
  unfold notified, mmu, h2c, c2h, placed in *. rewrite !devs_upd. simpl. split_and!; try done.
  - intros d' Hd. destruct (Z.eqb_spec d' d); [done|]. by apply (io_other _ _ _ Hio).
  - apply (io_mem _ _ _ Hio).
  - apply (io_live _ _ _ Hio).
  - apply (io_maps _ _ _ Hio).
  - apply (io_host _ _ _ Hio).
  - apply (io_mm _ _ _ Hio).
  - apply (io_heap _ _ _ Hio).
  - intros x. rewrite C. unfold in_range. by rewrite Hbk.
Qed.

Lemma invalidate_entries_spec (lo : Z) (l : list entry) (h0 : list Z) (s : sys T) :
  from <= lo -> lo = from \/ Forall (fun n => lo <= start n) (map snd l) ->
  wf_nodes (it_nodes (vmem_intervals (devs s d))) -> found s d lo to (map snd l) ->
  Permutation (heap s) (map fst l ++ h0) ->
  wp M (invalidate_entries d from to l) s (fun _ s' =>
    notified d s s' /\ Permutation (heap s') h0 /\
    mmu s' d = mmu s d ++ map (invalidation from to) (map snd l) /\
    wf_nodes (it_nodes (vmem_intervals (devs s' d))) /\
    forall x, placed s' d x <-> placed s d x /\ ~ (lo <= x < to)).
Proof.
  revert lo s. induction l as [|[p n] l IH]; intros lo s Hlo Hst Hwf Hf Hh; cbn [invalidate_entries].
  { apply wp_ret. simpl. rewrite app_nil_r. split_and!; try done. intros x. split; [|by intros [? _]].
    intros Hp. split; [done|]. intros Hx. destruct Hf as (H1 & _). apply H1 in Hp; [|done].
    by apply covered_nil in Hp. }
  simpl in Hf, Hh, Hst. pose proof Hf as (_ & Hns & Hsort).
  destruct (Hns n) as (Hn & Hn1 & Hn2); [by left|]. pose proof Hn as (Q1 & Q2 & Q3 & _).
  assert (part_start from n = Z.max lo (start n)) as Hps.
  { unfold part_start. destruct Hst as [->|Hst]; [lia|]. apply Forall_cons in Hst as [? _]. lia. }
  rewrite u64_va by lia. fold (part_start from n). fold (part_end to n). cbv zeta.
  apply wp_bind_assoc. eapply wp_mono.
  { apply (invalidate_part_spec n s); try done; [lia|]. rewrite Hps.
    intros x Hx. apply (found_head _ _ _ _ _ _ Hf). unfold part_end in Hx. lia. }
  intros [] s1 (N1 & H1 & M1 & W1 & P1). wp_do; [simpl; rewrite H1, Hh; by left|].
  intros [] s2 (h & Hh2 & ->).
  pose proof (found_tail _ _ _ _ _ _ Hf) as Hf'. fold (part_end to n) in Hf'.
  apply StronglySorted_inv in Hsort as [_ Hb]. rewrite Forall_forall in Hb. unfold below in Hb.
  assert (lo < part_end to n <= to) as Hpe.
  { unfold part_end. destruct Hst as [->|[? _]%Forall_cons]; lia. }
  eapply wp_mono; [apply (IH (part_end to n) (set_heap h s1))|].
  - lia.
  - right. apply Forall_forall. intros m Hm. specialize (Hb m Hm). unfold part_end. lia.
  - exact W1.
  - eapply found_state; [|exact Hf']. intros x Hx. change (placed (set_heap h s1)) with (placed s1).
    rewrite P1. split; [by intros [? _]|]. intros ?. split; [done|]. lia.
  - simpl. apply (Permutation_cons_inv (a := p)). by rewrite <- Hh2, H1, Hh.
  - intros [] s3 (N3 & H3 & M3 & W3 & P3). split; [|split_and!; try done].
    + eapply notified_trans; [exact N1|exact N3].
    + simpl. rewrite M3. change (mmu (set_heap h s1) d) with (mmu s1 d). by rewrite M1, <- app_assoc.
    + intros x. rewrite P3. change (placed (set_heap h s1)) with (placed s1). rewrite P1. split.
      * intros [[Hp Hx1] Hx2]. split; [done|]. intros Hx. destruct (decide (part_start from n <= x)) as [|Hlt].
        -- destruct (decide (x < part_end to n)); lia.
        -- revert Hp. apply (found_before _ _ _ _ _ _ Hf); [lia|]. intros m ns [= <- <-]. lia.
      * intros [Hp Hx]. split; [split; [done|]|]; lia.
Qed.

(** All of it: nothing of the range is left, and each interval that met it has
    been invalidated. *)
Lemma notifier_spec (r : notifier_range) (s : sys T) :
  range_start r = from -> range_end r = to -> own_migration d r = false ->
  wf_nodes (it_nodes (vmem_intervals (devs s d))) ->
  wp M (svm_tlb_invalidate_range_start d r) s (fun res s' =>
    res = 0 /\ notified d s s' /\ Permutation (heap s') (heap s) /\
    mmu s' d = mmu s d ++ map (invalidation from to)
      (List.filter (overlaps from (to - 1)) (it_nodes (vmem_intervals (devs s d)))) /\
    wf_nodes (it_nodes (vmem_intervals (devs s' d))) /\
    forall x, placed s' d x <-> placed s d x /\ ~ (from <= x < to)).
Proof.
  intros Hrs Hre Hown Hwf. unfold svm_tlb_invalidate_range_start. rewrite Hown, Hrs, Hre. cbv zeta.
  assert (exists k, 0 < k < 2 ^ 31 /\ to = from + k * PAGE_SIZE) as (k & Hk & Hto).
  { exists ((to - from) / PAGE_SIZE). unfold PAGE_SIZE in *. dlia. }
  assert (npages_between from to = k) as -> by (rewrite Hto; apply npages_between_eq; lia).
  wp_seq search_entries_spec; try done; try lia. rewrite <- Hto.
  intros [res l] s1 (_ & Hl & h & -> & Hh).
  wp_seq (invalidate_entries_spec from l (heap s)); [lia|by left|done| |done|].
  { rewrite Hl. apply (found_filter (set_heap h s)). done. }
  intros [] s2 (H1 & H2 & H3 & H4 & H5). apply wp_ret. rewrite Hl in H3. split_and!; done.
Qed.

End Notifier.

(** C27: the MMU notifier, when the nodes and list entries can be allocated: it
    leaves a migration of its own device alone; otherwise it invalidates, for
    each interval of the device that meets the range, the part in the range (its
    length modulo 2^16), after which exactly the pages of the range are no longer
    present on the device; it frees all it has allocated and touches nothing
    else. *)
Theorem svm_tlb_invalidate_range_start_correct (d : Z) (r : notifier_range) (s : sys T) :
  let from := range_start r in
  let to := range_end r in
  node_fails faults = false -> 0 <= from < to -> to <= VA_MAX -> from mod PAGE_SIZE = 0 ->
  to mod PAGE_SIZE = 0 -> to - from < 2 ^ 31 * PAGE_SIZE ->
  wf_nodes (it_nodes (vmem_intervals (devs s d))) ->
  wp M (svm_tlb_invalidate_range_start d r) s (fun res s' =>
    res = 0 /\ notified d s s' /\ Permutation (heap s') (heap s) /\
    wf_nodes (it_nodes (vmem_intervals (devs s' d))) /\
    if own_migration d r then s' = s
    else mmu s' d = mmu s d ++ map (invalidation from to)
           (List.filter (overlaps from (to - 1)) (it_nodes (vmem_intervals (devs s d)))) /\
         forall x, placed s' d x <-> placed s d x /\ ~ (from <= x < to)).
Proof.
  cbv zeta. intros Hnf Hft Hto Hfa Hta Hsz Hwf. destruct (own_migration d r) eqn:Hown.
  - unfold svm_tlb_invalidate_range_start. rewrite Hown. apply wp_ret.
    split_and!; done || apply notified_refl.
  - eapply wp_mono; [by apply notifier_spec|].
    intros res s' (H1 & H2 & H3 & H4 & H5 & H6). split_and!; try done; apply H2.
Qed.

End Notify.

(** The length of an invalidation has 16 bits: when an interval of 65536
    pages is unmapped, the IOMMU is told to invalidate a length of 0, the command
    for a single entry, although all pages are removed from the intervals of the
    device. *)
Theorem notifier_truncates :
  let va := 0x10000000 in
  let c := set_tree (ListTree.of_list [mk_node va (va + 65536 * PAGE_SIZE - 1)]) demo_dev in
  let s := mk_sys (fun _ => c) [] [] [] mm_unlocked 0 0 no_migration [] in
  let (res, s') := run obliging (svm_tlb_invalidate_range_start 0
                     (mk_range MMU_NOTIFY_OTHER 0 va (va + 65536 * PAGE_SIZE))) s in
  res = 0 /\ mmu s' 0 = [Invalidate va 0] /\ it_nodes (vmem_intervals (devs s' 0)) = [].
Proof. vm_compute. split_and!; reflexivity. Qed.

(** ** Witnesses *)
Lemma svm_migrate_to_ram_correct_witness :
  wp (svm_model Some (fun _ => 4096) (fun _ => true) 1000000 (mk_faults true true))
    (svm_migrate_to_ram 1 Some (fun _ => true) 0 65536) demo_sys2
    (fun res s' => Permutation (maps s') [] /\ mmu s' 0 = [Invalidate 65536 0] /\
       (res = 0 \/ res = VM_FAULT_SIGBUS)).
Proof.
  eapply wp_mono; [apply (svm_migrate_to_ram_correct 1 Some (fun _ => true) (fun _ => 4096)
    (fun _ => true) 1000000 (mk_faults true true) 1048576 0 65536 demo_sys2)|].
  - lia.
  - unfold VA_MAX, PAGE_SIZE. lia.
  - reflexivity.
  - reflexivity.
  - apply Nat.lt_0_1.
  - apply demo_device2.
  - apply demo_tree2_wf.
  - exists (mk_node 65536 73727). split; [by apply list_elem_of_singleton|simpl; lia].
  - intros res s' ((Hf & _ & _ & Hm) & _ & _ & Hr). split; [exact Hf|]. split; [exact Hm|].
    destruct Hr as [[-> _]|[[-> _]|[[-> _]|[-> _]]]]; [left|left|left|right]; reflexivity.
Defined.

Lemma svm_tlb_invalidate_range_start_correct_witness :
  wp (svm_model Some (fun _ => 4096) (fun _ => true) 1000000 (mk_faults true false))
    (svm_tlb_invalidate_range_start 0 (mk_range MMU_NOTIFY_OTHER 0 69632 77824)) demo_sys2
    (fun res s' => mmu s' 0 = [Invalidate 69632 1] /\ placed s' 0 69631 /\ ~ placed s' 0 69632).
Proof.
  eapply wp_mono; [apply (svm_tlb_invalidate_range_start_correct Some (fun _ => 4096)
    (fun _ => true) 1000000 (mk_faults true false) 0 (mk_range MMU_NOTIFY_OTHER 0 69632 77824)
    demo_sys2)|]; cbn [range_start range_end].
  - reflexivity.
  - lia.
  - unfold VA_MAX. lia.
  - reflexivity.
  - reflexivity.
  - unfold PAGE_SIZE. lia.
  - apply demo_tree2_wf.
  - intros res s' (_ & _ & _ & _ & Hm & Hp). split; [exact Hm|]. split.
    + apply Hp. split; [|lia]. exists (mk_node 65536 73727).
      split; [by apply list_elem_of_singleton|simpl; lia].
    + intros Hx. apply Hp in Hx. lia.
Defined.

End CpuFault.
