(* ===== verification/PageFault.v ===== *)
(** * Page faults of the on-FPGA IOMMU (pcie/pcie_svm.c)

    iommu_page_fault_handler disables the interrupt and queues a work item;
    handle_iommu_page_fault reads the faulted addresses, adds translations for
    pages that are already present, migrates the others to the device, and has
    the IOMMU replay the faulted accesses.  It is written against the movers of
    Placement.v; the kernel's sort is a parameter that permutes its argument. *)
From S2P Require Import Prelude Kernel.
From S2P Require Import DevMem DevPages Intervals SvmHw SvmSys SvmIo SvmCopy Placement FaultArray.
From S2P Require Import DevToDev Movers.

Module PageFault.
Import Kernel DevMem DevPages Intervals SvmHw SvmSys SvmIo SvmCopy Placement FaultArray.
Import DevToDev Movers.
#[local] Open Scope prog_scope.

Section Code.
Context {T : Type} {IT : IntervalTree T} {Mig : Migrator T}.
Notation P := (prog (svmE T)).
Variable sort : list Z -> list Z.
Variable bus : list bus_dev.
Variable my_mm : Z.

(** while (nfaults < MAX_NUM_FAULTS): the array and [nfaults] afterwards; [room]
    is MAX_NUM_FAULTS - nfaults. *)
Fixpoint read_faults (room : nat) (d : Z) (vaddrs : list Z) (nfaults : nat)
    : P (list Z * nat) :=
  match room with
  | O => Ret (vaddrs, nfaults)
  | S room' =>
      let! rval := call (readq d faulted_vaddr) in
      if nonzero (Z.land rval VALID_ADDR_FLAG)
      then read_faults room' d (<[nfaults := Z.land rval VADDR_MASK]> vaddrs) (S nfaults)
      else Ret (vaddrs, nfaults)
  end.

(** The loop over the faults for pages that are present already. *)
Fixpoint resolve_present (n : nat) (d : Z) (i : nat) (vaddrs : list Z) : P (list Z) :=
  match n with
  | O => Ret vaddrs
  | S n' =>
      let va := nth i vaddrs 0 in
      let! c := call (get_dev d) in
      if is_page_present (vmem_intervals c) va then
        let! w := call (walk_page_tables d va) in
        match svm_perform_ptw w with
        | None => Ret tt
        | Some page =>
            add_tlb_entry d (Z.land va VADDR_MASK) (pfn_to_dev_addr (base_pfn (mem c)) page)
        end;;;
        resolve_present n' d (S i) (<[i := 0]> vaddrs)
      else resolve_present n' d (S i) vaddrs
  end.

(** The number of faults that continue the first one. *)
Fixpoint contiguous_loop (fuel : nat) (nfaults n : nat) (vaddrs : list Z) : nat :=
  match fuel with
  | O => n
  | S fuel' =>
      if (n <? nfaults)%nat && is_contiguous (nth n vaddrs 0) (nth (n - 1) vaddrs 0)
      then contiguous_loop fuel' nfaults (S n) vaddrs
      else n
  end.

(** for (i = 0; i < n; ++i) vaddrs[i] = 0; *)
Definition clear_first (n : nat) (vaddrs : list Z) : list Z :=
  replicate n 0 ++ drop n vaddrs.

(** The do-while loop that migrates the runs of faulted pages. *)
Fixpoint migrate_runs (fuel : nat) (d : Z) (vaddrs : list Z) (nfaults : nat)
    : P (Z * (list Z * nat)) :=
  match fuel with
  | O => call hang;;; Ret (0, (vaddrs, nfaults))
  | S fuel' =>
      let ncontiguous := contiguous_loop nfaults nfaults 1 vaddrs in
      let! res := svm_migrate_to_device bus my_mm d (Z.land (nth 0 vaddrs 0) VADDR_MASK)
                    (Z.of_nat ncontiguous) in
      if nonzero res then
        call (writeq d mmu_cmd MMU_DEACTIVATE);;;
        or_error_state d MMU_DEACTIVATED_ERROR;;;
        Ret (res, (vaddrs, nfaults))
      else
        let (vaddrs, nfaults) := pack_array (clear_first ncontiguous vaddrs) nfaults in
        if (0 <? nfaults)%nat then migrate_runs fuel' d vaddrs nfaults
        else Ret (0, (vaddrs, nfaults))
  end.

(** Between taking and releasing the lock: the faults are sorted, resolved and
    migrated; None when all pages were present. *)
Definition service_faults (d : Z) (vaddrs : list Z) (nfaults : nat)
    : P (option (Z * (list Z * nat))) :=
  let! vaddrs := resolve_present nfaults d 0 vaddrs in
  let (vaddrs, nfaults) := pack_array vaddrs nfaults in
  if (nfaults =? 0)%nat then start_fault_replay d;;; Ret None
  else
    let! r := migrate_runs nfaults d vaddrs nfaults in
    start_fault_replay d;;;
    Ret (Some r).

(** The outer loop: the final value of [res]. *)
Fixpoint fault_loop (fuel : nat) (d : Z) (vaddrs : list Z) (nfaults : nat) : P Z :=
  match fuel with
  | O => call hang;;; Ret 0
  | S fuel' =>
      call (writeq d intr_enable 0);;;
      let! (vaddrs, nfaults) := read_faults (Z.to_nat MAX_NUM_FAULTS - nfaults) d vaddrs nfaults in
      if (nfaults =? 0)%nat then Ret 0
      else
        let vaddrs := sort (take nfaults vaddrs) ++ drop nfaults vaddrs in
        let (vaddrs, nfaults) := remove_duplicates vaddrs nfaults in
        call (mmap_write_lock d);;;
        let! r := service_faults d vaddrs nfaults in
        call (mmap_write_unlock d);;;
        match r with
        | None => Ret 0
        | Some (res, (vaddrs, nfaults)) =>
            call (writeq d intr_enable MMU_ISSUE_FAULT_ENABLE);;;
            if nonzero res then Ret res else fault_loop fuel' d vaddrs nfaults
        end
  end.

(** handle_iommu_page_fault: [env] is the work item, [vaddrs] what the array
    holds when the function starts. *)
Definition handle_iommu_page_fault (fuel : nat) (d env : Z) (vaddrs : list Z) : P unit :=
  let! res := fault_loop fuel d vaddrs 0 in
  when (res =? 0)
    (call (writeq d intr_enable (Z.lor MMU_INTR_ENABLE MMU_ISSUE_FAULT_ENABLE)));;;
  call (kfree env).

End Code.

(** ** Specifications *)

(** A page address as the IOMMU reports it. *)
Definition fault_ok (v : Z) : Prop := 0 <= v < 2 ^ 48 /\ v mod PAGE_SIZE = 0.

Lemma fault_ok_masked (v : Z) : fault_ok v -> Z.land v VADDR_MASK = v.
Proof. intros [Hv _]. by apply mask_small. Qed.

(** The first elements of an array by their indices. *)
Lemma take_elem (n : nat) (l : list Z) (v : Z) :
  (n <= length l)%nat -> v ∈ take n l <-> exists k, (k < n)%nat /\ nth k l 0 = v.
Proof.
  intros Hn. rewrite list_elem_of_lookup. split.
  - intros [k Hk]. apply lookup_take_Some in Hk as [Hk Hlt]. exists k. split; [done|].
    by rewrite nth_lookup, Hk.
  - intros (k & Hlt & <-). exists k. rewrite lookup_take_lt by done.
    destruct (lookup_lt_is_Some_2 l k) as [x Hx]; [lia|]. by rewrite nth_lookup, Hx.
Qed.

(** Removing duplicates keeps the set of addresses. *)
Lemma drop_repeats_elem (prev : Z) (l : list Z) (v : Z) :
  (forall x, x ∈ prev :: l -> fault_ok x) -> v ∈ prev :: l <-> v ∈ prev :: drop_repeats prev l.
Proof.
  revert prev. induction l as [|x l IH]; intros prev Hok; simpl; [done|].
  assert (fault_ok prev /\ fault_ok x) as [Hp Hx] by (split; apply Hok; set_solver).
  unfold masked. rewrite !fault_ok_masked by done. destruct (Z.eqb_spec x prev) as [->|Hne].
  - rewrite <- IH by (intros y Hy; apply Hok; set_solver). set_solver.
  - rewrite (elem_of_cons (x :: l)), (elem_of_cons (x :: drop_repeats x l)).
    by rewrite (IH x) by (intros y Hy; apply Hok; set_solver).
Qed.

Lemma distinct_addrs_elem (l : list Z) (v : Z) :
  (forall x, x ∈ l -> fault_ok x) -> v ∈ l <-> v ∈ distinct_addrs l.
Proof. destruct l as [|x l]; intros Hok; [done|]. by apply drop_repeats_elem. Qed.

(** The run of faults at the start of the array. *)
Lemma contiguous_loop_spec (fuel nfaults n : nat) (vaddrs : list Z) :
  (0 < n <= nfaults)%nat -> (nfaults <= length vaddrs)%nat ->
  (forall k, (k < nfaults)%nat -> fault_ok (nth k vaddrs 0)) ->
  (forall k, (k < n)%nat -> nth k vaddrs 0 = nth 0 vaddrs 0 + Z.of_nat k * PAGE_SIZE) ->
  let n' := contiguous_loop fuel nfaults n vaddrs in
  (n <= n' <= nfaults)%nat /\
  forall k, (k < n')%nat -> nth k vaddrs 0 = nth 0 vaddrs 0 + Z.of_nat k * PAGE_SIZE.
Proof.
  cbv zeta. intros Hn Hl Hok. revert n Hn. induction fuel as [|fuel IH]; intros n Hn Hrun; simpl.
  { split; [lia|done]. }
  destruct (Nat.ltb_spec n nfaults) as [Hlt|]; simpl; [|split; [lia|done]].
  destruct (is_contiguous _ _) eqn:E; [|split; [lia|done]].
  apply is_contiguous_eq in E; [|apply Hok; lia|apply Hok; lia].
  rewrite (Hrun (n - 1)%nat) in E by lia.
  destruct (IH (S n)) as [H1 H2]; [lia| |split; [lia|done]].
  intros k Hk. destruct (decide (k = n)) as [->|]; [|apply Hrun; lia]. rewrite E. unfold PAGE_SIZE. lia.
Qed.

Lemma filter_all (l : list Z) : (forall v, v ∈ l -> v <> 0) -> List.filter nonzero l = l.
Proof.
  induction l as [|x l IH]; intros Hz; simpl; [done|]. unfold nonzero at 1.
  destruct (Z.eqb_spec x 0) as [E|]; [by destruct (Hz x); [left|]|]. simpl. f_equal.
  apply IH. intros v Hv. apply Hz. by right.
Qed.

(** Packing after the first [k] elements have been cleared drops them. *)
Lemma pack_cleared (k n : nat) (vaddrs : list Z) :
  (k <= n)%nat -> (n <= length vaddrs)%nat -> (forall v, v ∈ take n vaddrs -> v <> 0) ->
  let (vaddrs', n') := pack_array (clear_first k vaddrs) n in
  length vaddrs' = length vaddrs /\ n' = (n - k)%nat /\ take n' vaddrs' = drop k (take n vaddrs).
Proof.
  intros Hk Hn Hz.
  assert (length (clear_first k vaddrs) = length vaddrs) as Hlen.
  { unfold clear_first. rewrite length_app, length_replicate, length_drop. lia. }
  pose proof (pack_array_spec (clear_first k vaddrs) n) as H.
  destruct (pack_array (clear_first k vaddrs) n) as [a n']. destruct H as (H1 & H2 & H3); [lia|].
  assert (take n' a = drop k (take n vaddrs)) as E.
  { rewrite H3. unfold clear_first. rewrite take_app, take_ge by (rewrite length_replicate; lia).
    rewrite List.filter_app, filter_zeros by (by intros x [? _]%elem_of_replicate).
    rewrite length_replicate, take_drop_commute. replace (k + (n - k))%nat with n by lia.
    apply filter_all. intros v Hv. apply Hz. eapply subseteq_drop. exact Hv. }
  split_and!; [lia| |done]. apply (f_equal length) in E.
  rewrite length_take, length_drop, length_take in E. lia.
Qed.

Section Spec.
Context {T : Type} {IT : IntervalTree T} {TL : IntervalTreeLaws T} {Mig : Migrator T}.
Variable page_of : Z -> option Z.
Variable dma_of : Z -> Z.
Variable populated : Z -> bool.
Variable tick : Z.
Variable faults : kernel_faults.
Notation M := (svm_model page_of dma_of populated tick faults).
Variable ds : list Z.
Variable Inv : sys T -> Prop.
Context {ML : MigratorLaws M ds Inv}.
Variable sort : list Z -> list Z.
Variable bus : list bus_dev.
Variable my_mm : Z.
Hypothesis nodes_ok : node_fails faults = false.
Hypothesis bus_ds : map pdev_id (List.filter (is_peer my_mm) bus) = ds.
Hypothesis ds_nodup : NoDup ds.
Hypothesis sort_perm : forall l, Permutation (sort l) l.
Variable d : Z.
Hypothesis d_in : d ∈ ds.
#[local] Set Default Proof Using "All".

Lemma placed_io (s s' : sys T) (d' x : Z) :
  io_only d s s' -> placed s' d' x <-> placed s d' x.
Proof.
  intros Hio. unfold placed. destruct (decide (d' = d)) as [->|Hne].
  - by rewrite (io_tree _ _ _ Hio).
  - by rewrite (io_other _ _ _ Hio).
Qed.

Lemma error_io_only (e : Z) (s : sys T) : io_only d s (upd d (set_error e) s).
Proof. split; intros; rewrite ?devs_upd, ?devs_upd_ne by done; done. Qed.

Lemma io_grown (s s' : sys T) : io_only d s s' -> grown s s'.
Proof.
  intros Hio. split; [exact (conj (io_busy _ _ _ Hio) (io_reported _ _ _ Hio))|]. exists []. by rewrite (io_heap _ _ _ Hio).
Qed.

(** Reading the faults: each costs one answer of the IOMMU; the array gets
    exactly the addresses the IOMMU has reported. *)
Definition has_read (vs : list Z) (s : sys T) : sys T :=
  set_reported (reported s ++ map (pair d) vs) s.

Lemma has_read_nil (s : sys T) : has_read [] s = s.
Proof. unfold has_read. rewrite app_nil_r. by destruct s. Qed.

Lemma has_read_app (vs ws : list Z) (s : sys T) :
  has_read ws (has_read vs s) = has_read (vs ++ ws) s.
Proof. unfold has_read. simpl. by rewrite map_app, app_assoc. Qed.

Lemma read_faults_spec (room : nat) (vaddrs : list Z) (n : nat) (s : sys T) :
  (n + room <= length vaddrs)%nat -> Forall fault_ok (take n vaddrs) ->
  wp M (read_faults room d vaddrs n) s (fun '(vaddrs', n') s' =>
    (exists vs, take n' vaddrs' = take n vaddrs ++ vs /\ io_only d (has_read vs s) s') /\
    hw (devs s' d) = hw (devs s d) /\
    length vaddrs' = length vaddrs /\ (n <= n' <= n + room)%nat /\
    Forall fault_ok (take n' vaddrs') /\ ((n < n')%nat -> (busy s' < busy s)%nat)).
Proof.
  revert vaddrs n s. induction room as [|room IH]; intros vaddrs n s Hlen Hok; cbn [read_faults].
  { apply wp_ret. split_and!; try done; try lia. exists []. by rewrite app_nil_r, has_read_nil. }
  wp_do; [done|]. intros v s1 (_ & Hal & b & -> & Hb & Hlt). simpl report.
  assert (nonzero (Z.land v VALID_ADDR_FLAG) = busy_answer faulted_vaddr v) as E0 by done.
  rewrite E0 in *. destruct (busy_answer faulted_vaddr v).
  2:{ apply wp_ret. split_and!; try done; try lia. exists []. rewrite app_nil_r, has_read_nil. by split. }
  specialize (Hlt eq_refl). set (w := Z.land v VADDR_MASK) in *.
  assert (take (S n) (<[n := w]> vaddrs) = take n vaddrs ++ [w]) as Hw.
  { rewrite (take_S_r _ n w) by (apply list_lookup_insert_eq; lia). by rewrite take_insert_ge by lia. }
  eapply wp_mono; [apply IH|].
  - rewrite length_insert. lia.
  - rewrite Hw. apply Forall_app. split; [done|]. apply Forall_singleton.
    split; [|by apply Hal]. unfold w. change VADDR_MASK with (Z.ones 48). rewrite Z.land_ones by lia.
    apply Z.mod_pos_bound. lia.
  - intros [a' n'] s2 ((vs & Hvs & H1) & H1' & H2 & H3 & H4 & H5). rewrite length_insert in H2.
    pose proof (io_busy _ _ _ H1) as Hb2. simpl in Hb2. split_and!; try done; try lia.
    exists (w :: vs). split; [by rewrite Hvs, Hw, <- app_assoc|]. etransitivity; [|exact H1].
    split; try done. simpl. by rewrite <- app_assoc.
Qed.

(** Pages that are present get a translation, and their slot is cleared. *)
Definition cleared_slot (s : sys T) (lo hi : nat) (vaddrs : list Z) (k : nat) : bool :=
  (lo <=? k)%nat && (k <? hi)%nat &&
  is_page_present (vmem_intervals (devs s d)) (nth k vaddrs 0).

Lemma resolve_present_spec (n i : nat) (vaddrs : list Z) (s : sys T) :
  (i + n <= length vaddrs)%nat ->
  wp M (resolve_present n d i vaddrs) s (fun vaddrs' s' =>
    io_only d s s' /\ length vaddrs' = length vaddrs /\
    forall k, nth k vaddrs' 0 = if cleared_slot s i (i + n) vaddrs k then 0 else nth k vaddrs 0).
Proof.
  revert i vaddrs s. induction n as [|n IH]; intros i vaddrs s Hlen; cbn [resolve_present].
  { apply wp_ret. split_and!; try done. intros k. unfold cleared_slot.
    destruct (Nat.leb_spec i k), (Nat.ltb_spec k (i + 0)); simpl; lia || done. }
  wp_do; [done|]. intros c s0 [-> ->].
  assert (forall a' s1 s2, io_only d s s1 -> io_only d s1 s2 -> length a' = length vaddrs ->
    (forall k, nth k a' 0 = if cleared_slot s i (S i) vaddrs k then 0 else nth k vaddrs 0) ->
    forall b', length b' = length a' ->
    (forall k, nth k b' 0 = if cleared_slot s1 (S i) (S i + n) a' k then 0 else nth k a' 0) ->
    io_only d s s2 /\ length b' = length vaddrs /\
    forall k, nth k b' 0 = if cleared_slot s i (i + S n) vaddrs k then 0 else nth k vaddrs 0) as Hstep.
  { intros a' s1 s2 H1 H2 Hl Ha b' Hlb Hb. split_and!; [by transitivity s1|lia|].
    intros k. rewrite Hb. unfold cleared_slot in *. rewrite (io_tree _ _ _ H1), !Ha.
    destruct (Nat.leb_spec (S i) k), (Nat.ltb_spec k (S i + n)), (Nat.leb_spec i k),
      (Nat.ltb_spec k (S i)), (Nat.ltb_spec k (i + S n)); simpl; try lia; try done. }
  destruct (is_page_present (vmem_intervals (devs s d)) (nth i vaddrs 0)) eqn:E.
  - wp_do; [done|]. intros w s1 [-> _]. apply wp_bind.
    eapply (wp_mono _ _ _ (fun _ s1 => io_only d s s1)).
    { destruct (svm_perform_ptw w); [|by apply wp_ret].
      eapply wp_mono; [apply add_tlb_entry_spec|]. by intros [] s1 [Hio _]. }
    intros [] s1 H1. eapply wp_mono; [apply (IH (S i)); rewrite length_insert; lia|].
    intros b' s2 (H2 & Hl2 & Hb). eapply (Hstep (<[i := 0]> vaddrs) s1 s2); try done;
      [apply length_insert|]. intros k. unfold cleared_slot. rewrite nth_lookup.
    destruct (decide (k = i)) as [->|Hne].
    + rewrite list_lookup_insert_eq by lia. rewrite E.
      destruct (Nat.leb_spec i i), (Nat.ltb_spec i (S i)); simpl; lia || done.
    + rewrite list_lookup_insert_ne by done. rewrite <- nth_lookup.
      destruct (Nat.leb_spec i k), (Nat.ltb_spec k (S i)); simpl; lia || done.
  - eapply wp_mono; [apply (IH (S i)); lia|]. intros b' s2 (H2 & Hl2 & Hb).
    eapply (Hstep vaddrs s s2); try done. intros k. unfold cleared_slot.
    destruct (Nat.leb_spec i k), (Nat.ltb_spec k (S i)); simpl; try done.
    assert (k = i) as -> by lia. by rewrite E.
Qed.

(** What the device holds stays there. *)
Definition kept_placed (s s' : sys T) : Prop := forall x, placed s d x -> placed s' d x.

Lemma kept_placed_io (s s' : sys T) : io_only d s s' -> kept_placed s s'.
Proof. intros Hio x Hx. by apply (placed_io s s'). Qed.

Lemma mmu_error_bit (e : Z) : Z.testbit (Z.lor e MMU_DEACTIVATED_ERROR) 1 = true.
Proof. rewrite Z.lor_spec. change (Z.testbit MMU_DEACTIVATED_ERROR 1) with true. apply orb_true_r. Qed.

(** The error state records that the IOMMU has been switched off. *)
Definition mmu_failed (s : sys T) : Prop := Z.testbit (error_state (devs s d)) 1 = true.

Lemma mmu_failed_wr (r : reg) (v : Z) (s : sys T) : mmu_failed s -> mmu_failed (wr d r v s).
Proof. unfold mmu_failed, wr. by rewrite devs_upd. Qed.

Lemma migrate_runs_spec (fuel n : nat) (vaddrs : list Z) (s : sys T) :
  (0 < n <= fuel)%nat -> (n <= length vaddrs)%nat -> (n <= 48)%nat ->
  (forall v, v ∈ take n vaddrs -> fault_ok v /\ v <> 0) -> Inv s ->
  wp M (migrate_runs bus my_mm fuel d vaddrs n) s (fun '(res, (vaddrs', n')) s' =>
    Inv s' /\ grown s s' /\ kept_placed s s' /\ length vaddrs' = length vaddrs /\
    (res = 0 -> n' = 0%nat /\ forall v, v ∈ take n vaddrs -> placed s' d v) /\
    (res <> 0 -> mmu_failed s')).
Proof.
  revert n vaddrs s. induction fuel as [|fuel IH]; intros n vaddrs s Hn Hlen H48 Hok Hinv; [lia|].
  cbn [migrate_runs]. set (k := contiguous_loop n n 1 vaddrs).
  assert (forall i, (i < n)%nat -> fault_ok (nth i vaddrs 0)) as Hokn.
  { intros i Hi. apply Hok, take_elem; [done|]. by exists i. }
  destruct (contiguous_loop_spec n n 1 vaddrs) as [Hk Hrun]; try done; [lia| |].
  { intros i Hi. replace i with 0%nat by lia. lia. }
  fold k in Hk, Hrun. assert (fault_ok (nth 0 vaddrs 0)) as H0 by (apply Hokn; lia).
  rewrite fault_ok_masked by done. set (v0 := nth 0 vaddrs 0) in *. destruct H0 as [Hv0 Hal0].
  assert (range_ok v0 (Z.of_nat k)) as Hr.
  { unfold range_ok, VA_MAX. rewrite PHYS_MEM_SIZE_eq. unfold PAGE_SIZE. lia. }
  wp_seq (svm_migrate_to_device_spec page_of dma_of populated tick faults ds Inv bus my_mm
    nodes_ok bus_ds ds_nodup d v0 (Z.of_nat k) d_in Hr Hal0 s Hinv).
  intros res s1 (Hg & lo & Hlo & (Hinv1 & Hdone & Hrest) & Hres).
  assert (kept_placed s s1) as Hkept.
  { intros x Hx. destruct (decide (v0 <= x < lo)); [by apply Hdone|]. by apply (Hrest x d d_in). }
  unfold nonzero. destruct (Z.eqb_spec res 0) as [->|Hne]; cbn [negb].
  2:{ apply wp_writeq. wp_seq or_error_state_spec. intros [] s2 ->. apply wp_ret.
      assert (io_only d s1 (upd d (set_error (Z.lor (error_state (devs (wr d mmu_cmd MMU_DEACTIVATE s1) d))
        MMU_DEACTIVATED_ERROR)) (wr d mmu_cmd MMU_DEACTIVATE s1))) as Hio.
      { transitivity (wr d mmu_cmd MMU_DEACTIVATE s1); [apply wr_io_only|apply error_io_only]. }
      split; [by apply (inv_io (ds := ds) s1 _ d)|].
      split; [eapply grown_trans; [exact Hg|by apply io_grown]|].
      split; [intros x Hx; apply (placed_io s1); [done|by apply Hkept]|].
      split; [done|]. split; [done|]. intros _. unfold mmu_failed. rewrite devs_upd. apply mmu_error_bit. }
  rewrite Hres in Hdone by done.
  assert (forall v, v ∈ take k vaddrs -> placed s1 d v) as Hfirst.
  { intros v Hv. apply take_elem in Hv as (i & Hi & <-); [|lia]. apply Hdone. rewrite Hrun by done.
    unfold PAGE_SIZE. lia. }
  pose proof (pack_cleared k n vaddrs) as Hpack.
  destruct (pack_array (clear_first k vaddrs) n) as [a' n'].
  destruct Hpack as (Hla & Hn' & Hta); [lia|lia|by intros v Hv; apply Hok|].
  destruct (Nat.ltb_spec 0 n') as [Hpos|Hz].
  - eapply wp_mono; [apply (IH n' a' s1)|].
    + lia.
    + lia.
    + lia.
    + rewrite Hta. intros v Hv. apply Hok. eapply subseteq_drop. exact Hv.
    + done.
    + intros [res [a'' n'']] s2 (H1 & H2 & H3 & H4 & H5 & H6). split; [done|].
      split; [by eapply grown_trans|]. split; [intros x Hx; by apply H3, Hkept|].
      split; [lia|]. split; [|done]. intros Hr0. destruct (H5 Hr0) as [Hn'' Hall].
      split; [done|]. intros v Hv. rewrite <- (take_drop k (take n vaddrs)) in Hv.
      apply elem_of_app in Hv as [Hv|Hv].
      * apply H3, Hfirst. rewrite take_take in Hv. by replace (k `min` n)%nat with k in Hv by lia.
      * apply Hall. by rewrite Hta.
  - apply wp_ret. split; [done|]. split; [done|]. split; [done|]. split; [done|]. split; [|done].
    intros _. split; [lia|]. intros v Hv. apply Hfirst. by replace k with n by lia.
Qed.

(** The last command the IOMMU got is to replay the faulted accesses. *)
Definition replayed (s : sys T) : Prop := exists ms, mmu s d = ms ++ [FaultReplay].

Lemma replayed_wr (s : sys T) : replayed (wr d mmu_cmd MMU_FAULT_REPLAY s).
Proof.
  destruct (wr_mmu d MMU_FAULT_REPLAY s) as (_ & _ & _ & _ & Hm). by eexists.
Qed.

Lemma replayed_intr (v : Z) (s : sys T) : replayed s -> replayed (wr d intr_enable v s).
Proof. unfold replayed, mmu, wr. by rewrite devs_upd. Qed.

(** One batch: the addresses of the array are at the device afterwards. *)
Lemma service_faults_spec (n : nat) (vaddrs : list Z) (s : sys T) :
  (n <= length vaddrs)%nat -> (n <= 48)%nat ->
  (forall v, v ∈ take n vaddrs -> fault_ok v) -> Inv s ->
  wp M (service_faults bus my_mm d vaddrs n) s (fun r s' =>
    Inv s' /\ grown s s' /\ kept_placed s s' /\ replayed s' /\
    let served := forall v, v ∈ take n vaddrs -> v <> 0 -> placed s' d v in
    match r with
    | None => served
    | Some (res, (vaddrs', n')) =>
        length vaddrs' = length vaddrs /\ (res = 0 -> n' = 0%nat /\ served) /\
        (res <> 0 -> mmu_failed s')
    end).
Proof.
  intros Hlen H48 Hok Hinv. unfold service_faults.
  wp_seq resolve_present_spec; [lia|]. intros a1 s1 (Hio & Hl1 & Hn1). simpl in Hn1.
  pose proof (pack_array_spec a1 n) as Hpack. destruct (pack_array a1 n) as [a2 n2].
  destruct Hpack as (Hl2 & Hn2 & Ht2); [lia|].
  assert (Inv s1) as Hinv1 by (by apply (inv_io (ds := ds) s _ d)).
  pose proof (io_grown _ _ Hio) as Hg1. pose proof (kept_placed_io _ _ Hio) as Hk1.
  assert (forall v, v ∈ take n2 a2 <-> v ∈ take n a1 /\ v <> 0) as Hin2.
  { intros v. rewrite Ht2, list_elem_of_In, List.filter_In, <- list_elem_of_In. unfold nonzero.
    destruct (Z.eqb_spec v 0); simpl; naive_solver. }
  assert (forall v, v ∈ take n a1 -> v = 0 \/ v ∈ take n vaddrs) as Hin1.
  { intros v Hv. apply take_elem in Hv as (k & Hk & <-); [|lia]. rewrite Hn1.
    destruct (cleared_slot _ _ _ _ _); [by left|right]. apply take_elem; [done|]. by exists k. }
  assert (forall v, v ∈ take n vaddrs -> v <> 0 -> placed s1 d v \/ v ∈ take n2 a2) as Hcase.
  { intros v Hv Hnz. pose proof (Hok v Hv) as [Hvr Hva].
    apply take_elem in Hv as (k & Hk & <-); [|done].
    destruct (cleared_slot s 0 n vaddrs k) eqn:E.
    - left. apply Hk1. unfold cleared_slot in E. apply andb_prop in E as [_ E].
      apply is_page_present_covered in E; try done; [by apply (inv_wf (ds := ds))|unfold VA_MAX; lia].
    - right. apply Hin2. split; [|done]. apply take_elem; [lia|]. exists k. by rewrite Hn1, E. }
  destruct (Nat.eqb_spec n2 0) as [->|Hne].
  - unfold start_fault_replay. apply wp_writeq, wp_ret.
    pose proof (wr_io_only d mmu_cmd MMU_FAULT_REPLAY s1) as Hio2.
    split; [by apply (inv_io (ds := ds) s1 _ d)|].
    split; [eapply grown_trans; [exact Hg1|by apply io_grown]|].
    split; [intros x Hx; by apply (placed_io s1), Hk1|]. split; [apply replayed_wr|]. intros v Hv Hnz.
    apply (placed_io s1); [done|]. destruct (Hcase v Hv Hnz) as [?|Hv2]; [done|].
    by apply elem_of_nil in Hv2.
  - wp_seq migrate_runs_spec; [lia|lia|lia| |done|].
    { intros v Hv. apply Hin2 in Hv as [Hv Hnz]. split; [|done].
      destruct (Hin1 v Hv); [done|by apply Hok]. }
    intros [res [a3 n3]] s2 (H1 & H2 & H3 & H4 & H5 & H6).
    unfold start_fault_replay. apply wp_writeq, wp_ret.
    pose proof (wr_io_only d mmu_cmd MMU_FAULT_REPLAY s2) as Hio2.
    split; [by apply (inv_io (ds := ds) s2 _ d)|].
    split; [eapply grown_trans; [exact Hg1|]; eapply grown_trans; [exact H2|by apply io_grown]|].
    split; [intros x Hx; apply (placed_io s2); [done|by apply H3, Hk1]|].
    split; [apply replayed_wr|]. cbv zeta.
    split; [lia|]. split; [|intros Hr; by apply mmu_failed_wr, H6]. intros Hr.
    destruct (H5 Hr) as [-> Hall]. split; [done|]. intros v Hv Hnz. apply (placed_io s2); [done|].
    destruct (Hcase v Hv Hnz); [by apply H3|by apply Hall].
Qed.

(** ** The handler *)

Lemma io_only_mm (c : mm_state) (s s' : sys T) :
  io_only d s s' -> io_only d (set_mm c s) (set_mm c s').
Proof. intros []. by split. Qed.

(** What the loop has done with the faults it has read: they are those the IOMMU
    has reported; unless there were none it was told to replay them, and every
    page but the zero page is at the device, or the IOMMU is switched off. *)
Definition handled (res : Z) (s s' : sys T) : Prop :=
  exists vs, reported s' = reported s ++ map (pair d) vs /\ (vs <> [] -> replayed s') /\
    (res = 0 -> forall v, v ∈ vs -> v <> 0 -> placed s' d v) /\
    (res <> 0 -> mmu_failed s').

(** The faults of a batch, sorted and without duplicates. *)
Lemma batch_spec (n : nat) (a : list Z) :
  (n <= length a)%nat -> (forall v, v ∈ take n a -> fault_ok v) ->
  let (a2, n2) := remove_duplicates (sort (take n a) ++ drop n a) n in
  length a2 = length a /\ (n2 <= n)%nat /\ forall v, v ∈ take n2 a2 <-> v ∈ take n a.
Proof.
  intros Hn Hok. set (sorted := sort (take n a) ++ drop n a).
  assert (length (sort (take n a)) = n) as Hls.
  { rewrite (sort_perm (take n a)), length_take. lia. }
  assert (length sorted = length a) as Hlso.
  { unfold sorted. rewrite length_app, Hls, length_drop. lia. }
  assert (take n sorted = sort (take n a)) as Hts.
  { unfold sorted. rewrite take_app_le by lia. apply take_ge. lia. }
  pose proof (remove_duplicates_spec sorted n) as Hdup.
  destruct (remove_duplicates sorted n) as [a2 n2]. destruct Hdup as (Hl2 & Hn2 & Ht2); [lia|].
  split_and!; [lia|done|]. intros v. rewrite Ht2, Hts, <- distinct_addrs_elem.
  - by rewrite (sort_perm (take n a)).
  - intros x Hx. apply Hok. by rewrite (sort_perm (take n a)) in Hx.
Qed.

(** The outer loop, entered without faults in the array. *)
Lemma fault_loop_spec (fuel : nat) (vaddrs : list Z) (s : sys T) :
  (busy s < fuel)%nat -> length vaddrs = 48%nat -> mm s = mm_unlocked -> Inv (set_mm mm_locked s) ->
  wp M (fault_loop sort bus my_mm fuel d vaddrs 0) s (fun res s' =>
    mm s' = mm_unlocked /\ Inv (set_mm mm_locked s') /\ heap_grown s s' /\ kept_placed s s' /\
    (replayed s -> replayed s') /\ handled res s s').
Proof.
  revert vaddrs s. induction fuel as [|fuel IH]; intros vaddrs s Hb Hlen Hmm Hinv; [lia|].
  cbn [fault_loop]. apply wp_writeq. set (s1 := wr d intr_enable 0 s).
  assert (io_only d s s1) as Hio1 by apply wr_io_only.
  wp_seq read_faults_spec; [rewrite Hlen; simpl; lia|constructor|].
  intros [a n] s2 ((vs & Hvs & Hio2) & Hhw & Hla & Hn & Hok & Hbn). simpl in Hvs.
  assert (replayed s -> replayed s2) as Hrep2.
  { intros Hr. unfold replayed, mmu. rewrite Hhw. by apply replayed_intr. }
  assert (io_only d (has_read vs s) s2) as Hio.
  { transitivity (has_read vs s1); [|done]. destruct Hio1. by split. }
  assert (busy s1 = busy s) as Hbs by done. rewrite Hbs in Hbn. clear Hbs Hio1 Hio2 Hhw.
  clearbody s1. clear s1.
  assert (Inv (set_mm mm_locked s2)) as Hinv2.
  { apply (inv_io (ds := ds) (set_mm mm_locked (has_read vs s)) _ d); [|by apply io_only_mm].
    by apply (inv_reported (ds := ds) (set_mm mm_locked s)). }
  assert (mm s2 = mm_unlocked) as Hmm2 by (by rewrite (io_mm _ _ _ Hio)).
  assert (heap_grown s s2 /\ kept_placed s s2) as [Hg2 Hk2].
  { split; [apply (io_grown _ _ Hio)|exact (kept_placed_io _ _ Hio)]. }
  pose proof (io_reported _ _ _ Hio) as Hrd. simpl in Hrd.
  destruct (Nat.eqb_spec n 0) as [->|Hn0].
  { simpl in Hvs. subst vs. apply wp_ret. split_and!; try done. exists []. split_and!; try done.
    intros _ v Hv. by apply elem_of_nil in Hv. }
  specialize (Hbn ltac:(lia)). change (Z.to_nat MAX_NUM_FAULTS) with 48%nat in Hn. simpl in Hn.
  rewrite Forall_forall in Hok. pose proof (batch_spec n a) as Hbatch.
  destruct (remove_duplicates _ n) as [a2 n2]. destruct Hbatch as (Hl2 & Hn2 & Hin2); [lia|done|].
  wp_do; [done|]. intros [] s3 ->.
  wp_seq (service_faults_spec n2 a2 (set_mm mm_locked s2));
    [lia|lia|intros v Hv; by apply Hok, Hin2|done|].
  intros r s4 (Hinv4 & [[Hb4 Hrd4] Hg4] & Hk4 & Hrep4 & Hr).
  pose proof (inv_locked (ds := ds) _ Hinv4) as Hlk. simpl in Hb4, Hrd4. rewrite Hrd in Hrd4.
  assert (heap_grown s s4 /\ kept_placed s s4) as [Hgs Hks].
  { split; [eapply heap_grown_trans; [exact Hg2|exact Hg4]|]. intros x Hx. by apply Hk4, Hk2. }
  wp_do; [done|]. intros [] s5 ->.
  destruct r as [[res [a3 n3]]|].
  2:{ apply wp_ret. split; [done|]. split; [by rewrite relock|]. split_and!; try done.
      exists vs. split_and!; try done. intros _ v Hv. apply Hr, Hin2. by rewrite Hvs. }
  destruct Hr as (Hl3 & Hr0 & Hrf). apply wp_writeq.
  set (s6 := wr d intr_enable MMU_ISSUE_FAULT_ENABLE (set_mm mm_unlocked s4)).
  assert (io_only d (set_mm mm_unlocked s4) s6) as Hio6 by apply wr_io_only.
  assert (Inv (set_mm mm_locked s6)) as Hinv6.
  { apply (inv_io (ds := ds) (set_mm mm_locked (set_mm mm_unlocked s4)) _ d); [by rewrite relock|].
    by apply io_only_mm. }
  assert (replayed s6) as Hrep6 by (by apply replayed_intr).
  assert (forall x, placed s4 d x -> placed s6 d x) as Hp6.
  { intros x Hx. by apply (placed_io (set_mm mm_unlocked s4) s6). }
  unfold nonzero. destruct (Z.eqb_spec res 0) as [->|Hne]; cbn [negb].
  - destruct (Hr0 eq_refl) as [-> Hsv]. eapply wp_mono; [apply (IH a3 s6)|].
    + change (busy s6) with (busy s4). lia.
    + lia.
    + done.
    + done.
    + intros r s7 (H1 & H2 & H3 & H4 & H5 & vs' & V1 & V2 & V3 & V4). split; [done|]. split; [done|].
      split; [eapply heap_grown_trans; [exact Hgs|exact H3]|].
      split; [intros x Hx; by apply H4, Hp6, Hks|]. split; [intros _; by apply H5|].
      exists (vs ++ vs'). split.
      { rewrite V1, map_app, app_assoc. change (reported s6) with (reported s4). by rewrite Hrd4. }
      split; [intros _; by apply H5|]. split; [|done]. intros Hr v Hv Hnz.
      apply elem_of_app in Hv as [Hv|Hv]; [|by apply V3].
      apply H4, Hp6, Hsv; [|done]. apply Hin2. by rewrite Hvs.
  - apply wp_ret. split; [done|]. split; [done|]. split; [done|].
    split; [intros x Hx; by apply Hp6, Hks|]. split; [done|]. exists vs. split; [done|].
    split; [done|]. split; [done|]. intros _. apply mmu_failed_wr. by apply Hrf.
Qed.

(** ** The properties *)

(** One batch of faults: the addresses that were read are page addresses;
    when the batch is serviced without an error (or there was nothing left to
    migrate), every faulted page but the zero page is at the device afterwards,
    whether it was there, in host memory or on another device; after an error the
    error state says that the IOMMU is switched off. *)
Theorem service_faults_correct (n : nat) (vaddrs : list Z) (s : sys T) :
  (n <= length vaddrs)%nat -> (n <= 48)%nat ->
  (forall v, v ∈ take n vaddrs -> fault_ok v) -> Inv s ->
  wp M (service_faults bus my_mm d vaddrs n) s (fun r s' =>
    Inv s' /\ kept_placed s s' /\
    let served := forall v, v ∈ take n vaddrs -> v <> 0 -> placed s' d v in
    match r with
    | None => served
    | Some (res, (_, n')) =>
        (res = 0 -> n' = 0%nat /\ served) /\ (res <> 0 -> mmu_failed s')
    end).
Proof.
  intros H1 H2 H3 H4. eapply wp_mono; [by apply service_faults_spec|].
  intros [[res [a n']]|] s' (K1 & _ & K2 & _ & K3); (split; [done|]); (split; [done|]); [|done].
  by destruct K3 as (_ & ? & ?).
Qed.

(** The handler, for any movers that keep their laws. *)
Lemma handle_iommu_page_fault_spec (fuel : nat) (env : Z) (vaddrs h0 : list Z) (s : sys T) :
  (busy s < fuel)%nat -> length vaddrs = 48%nat -> mm s = mm_unlocked ->
  Inv (set_mm mm_locked s) -> Permutation (heap s) (env :: h0) ->
  wp M (handle_iommu_page_fault sort bus my_mm fuel d env vaddrs) s (fun _ s' =>
    mm s' = mm_unlocked /\ Inv (set_mm mm_locked s') /\ kept_placed s s' /\
    (exists extra, Permutation (heap s') (extra ++ h0)) /\
    exists vs, reported s' = reported s ++ map (pair d) vs /\ (vs <> [] -> replayed s') /\
      (((forall v, v ∈ vs -> v <> 0 -> placed s' d v) /\
        regs (hw (devs s' d)) intr_enable = Z.lor MMU_INTR_ENABLE MMU_ISSUE_FAULT_ENABLE) \/
       mmu_failed s')).
Proof.
  intros Hb Hl Hmm Hinv Hheap. unfold handle_iommu_page_fault.
  wp_seq fault_loop_spec; [done..|].
  intros res s1 (Hmm1 & Hinv1 & [extra Hg1] & Hk1 & _ & vs & Hvs & Hrep & Hsv & Hf1).
  apply wp_bind. eapply (wp_mono _ _ _ (fun _ s2 => io_only d s1 s2 /\ (vs <> [] -> replayed s2) /\
    (((forall v, v ∈ vs -> v <> 0 -> placed s2 d v) /\
      regs (hw (devs s2 d)) intr_enable = Z.lor MMU_INTR_ENABLE MMU_ISSUE_FAULT_ENABLE) \/
     mmu_failed s2))).
  { unfold when. destruct (Z.eqb_spec res 0) as [->|Hne].
    - apply wp_writeq_last. pose proof (wr_io_only d intr_enable
        (Z.lor MMU_INTR_ENABLE MMU_ISSUE_FAULT_ENABLE) s1) as Hio. split; [done|].
      split; [intros Hne; by apply replayed_intr, Hrep|]. left. split.
      + intros v Hv Hnz. apply (placed_io s1); [done|by apply Hsv].
      + rewrite wr_regs. unfold set_reg. by rewrite decide_True.
    - apply wp_ret. split; [done|]. split; [done|]. right. by apply Hf1. }
  intros [] s2 (Hio & Hrep2 & Hreg). apply wp_call.
  { simpl. rewrite (io_heap _ _ _ Hio), Hg1, Hheap. set_solver. }
  intros [] s3 (h & Hh & ->). split; [simpl; by rewrite (io_mm _ _ _ Hio)|].
  split; [|split; [|split]].
  - apply (inv_heap (ds := ds) (set_mm mm_locked s2)).
    apply (inv_io (ds := ds) (set_mm mm_locked s1) _ d); [done|by apply io_only_mm].
  - intros x Hx. change (placed (set_heap h s2)) with (placed s2).
    apply (placed_io s1 s2); [done|]. by apply Hk1.
  - exists extra. simpl. apply (Permutation_cons_inv (a := env)).
    rewrite <- Hh, (io_heap _ _ _ Hio), Hg1, Hheap. solve_Permutation.
  - exists vs. split; [simpl; by rewrite (io_reported _ _ _ Hio)|]. done.
Qed.

End Spec.

(** C30: the page fault handler of the driver.  It terminates for every finite
    number of faults the IOMMU reports, in batches of up to 48.  The addresses
    [vs] it has read are exactly the ones the IOMMU reported meanwhile; if there
    were any, the last command the IOMMU got is to replay them.  Afterwards every
    page it has read a fault for (but the zero page, which the code takes for an
    empty slot) is at the device, wherever it was before, and the fault interrupt
    is enabled; or a migration failed, and the error state records that the IOMMU
    was switched off.  The address space is unlocked, the work item freed, the
    devices are consistent and the handler's device has lost no page.  Conditions
    as for svm_migrate_to_device: DMA mappings and the allocations of list entries
    and interval nodes succeed (arrays and work items may fail), the variables the
    movers leave uninitialised are not the largest int (retry_cnt) and not 0
    (res), the devices of the process are distinct and consistent; the kernel's
    sort permutes its array, reported addresses are page addresses. *)
Theorem handle_iommu_page_fault_correct {T : Type} {IT : IntervalTree T} {TL : IntervalTreeLaws T}
    (poll_fuel busy_fuel : nat) (page_of : Z -> option Z) (migrating : Z -> bool)
    (retry_cnt res0 : Z) (dma_of : Z -> Z) (populated : Z -> bool) (tick : Z)
    (ds : list Z) (base : Z -> Z) (sort : list Z -> list Z) (bus : list bus_dev) (my_mm d : Z)
    (fuel : nat) (env : Z) (vaddrs h0 : list Z) (s : sys T) :
  platform_ok poll_fuel dma_of tick -> - 2 ^ 31 <= retry_cnt < 2 ^ 31 - 1 -> res0 <> 0 ->
  map pdev_id (List.filter (is_peer my_mm) bus) = ds -> NoDup ds -> d ∈ ds ->
  (forall l, Permutation (sort l) l) ->
  (busy s < fuel)%nat -> length vaddrs = 48%nat -> mm s = mm_unlocked ->
  svm_inv busy_fuel ds base (set_mm mm_locked s) -> Permutation (heap s) (env :: h0) ->
  wp (svm_model page_of dma_of populated tick (mk_faults false false))
    (handle_iommu_page_fault
       (Mig := driver poll_fuel busy_fuel page_of migrating retry_cnt res0)
       sort bus my_mm fuel d env vaddrs) s (fun _ s' =>
    mm s' = mm_unlocked /\ svm_inv busy_fuel ds base (set_mm mm_locked s') /\
    kept_placed d s s' /\ (exists extra, Permutation (heap s') (extra ++ h0)) /\
    exists vs, reported s' = reported s ++ map (pair d) vs /\ (vs <> [] -> replayed d s') /\
      (((forall v, v ∈ vs -> v <> 0 -> placed s' d v) /\
        regs (hw (devs s' d)) intr_enable = Z.lor MMU_INTR_ENABLE MMU_ISSUE_FAULT_ENABLE) \/
       mmu_failed d s')).
Proof.
  intros Hp Hr H0 Hbus Hnd Hd Hsort Hb Hl Hmm Hinv Hheap.
  by apply (handle_iommu_page_fault_spec (Mig := driver poll_fuel busy_fuel page_of migrating
    retry_cnt res0) page_of dma_of populated tick (mk_faults false false) ds
    (svm_inv busy_fuel ds base) (ML := driver_laws poll_fuel busy_fuel page_of migrating retry_cnt
      res0 dma_of populated tick ds base Hp Hr H0)).
Qed.

(** ** Commands are only ever added *)
Definition mmu_grows {T : Type} (s s' : sys T) : Prop :=
  forall d, exists ms, mmu s' d = mmu s d ++ ms.

#[export] Instance mmu_grows_preorder {T : Type} : PreOrder (@mmu_grows T).
Proof.
  split; [intros s d; exists []; by rewrite app_nil_r|].
  intros s1 s2 s3 H1 H2 d. destruct (H1 d) as [m1 E1], (H2 d) as [m2 E2].
  exists (m1 ++ m2). by rewrite E2, E1, app_assoc.
Qed.

Lemma hw_write_mmu (h : hw_dev) (r : reg) (v : Z) :
  exists ms, mmu_issued (hw_write h r v) = mmu_issued h ++ ms.
Proof.
  destruct r; unfold hw_write; try (destruct (Z.testbit v 63));
    first [exists []; symmetry; apply app_nil_r | by eexists].
Qed.

Lemma mmu_grows_same {T : Type} (s s' : sys T) :
  (forall d, hw (devs s' d) = hw (devs s d)) -> mmu_grows s s'.
Proof. intros H d. exists []. unfold mmu. by rewrite H, app_nil_r. Qed.

Lemma post_mmu_grows {T : Type} (page_of : Z -> option Z) (dma_of : Z -> Z) (populated : Z -> bool)
    (tick : Z) (faults : kernel_faults) (X : Type) (e : svmE T X) (s s' : sys T) (x : X) :
  svm_post page_of dma_of populated tick faults X e s x s' -> mmu_grows s s'.
Proof.
  assert (forall d f, (forall c : svm_dev T, hw (f c) = hw c) -> mmu_grows s (upd d f s)) as Hupd.
  { intros d f Hf. apply mmu_grows_same. intros d'. simpl. by destruct (d' =? d). }
  destruct e; simpl; intros H; try destruct x as [[res cpages] src];
    try (repeat match goal with
         | H : _ /\ _ |- _ => destruct H
         | H : exists _, _ |- _ => destruct H
         | H : match ?o with Some _ => _ | None => _ end |- _ => destruct o
         | H : let (_, _) := ?o in _ |- _ => destruct o
         | H : if ?b then _ else _ |- _ => destruct b
         end; subst; first [done | reflexivity | by apply mmu_grows_same | by apply Hupd]).
  - subst. intros d'. unfold mmu. simpl. destruct (Z.eqb_spec d' d) as [->|]; [apply hw_write_mmu|].
    exists []. by rewrite app_nil_r.
  - destruct H as (_ & _ & b & -> & _). apply mmu_grows_same. intros d'. unfold report.
    destruct r; try done. by destruct (nonzero _).
Qed.

(** ** Witnesses *)
Notation demo_sorted := (fun l : list Z => l).

Lemma service_faults_correct_witness :
  wp (svm_model Some (fun _ => 4096) (fun _ => true) 1000000 (mk_faults false false))
    (service_faults (Mig := driver 1000 1 Some (fun _ => true) 0 7) demo_bus 7 1
       [65536; 69632; 4096] 2) demo_pair
    (fun r s' => r = None -> placed s' 1 65536 /\ placed s' 1 69632).
Proof.
  eapply wp_mono; [apply (service_faults_correct (Mig := driver 1000 1 Some (fun _ => true) 0 7)
    Some (fun _ => 4096) (fun _ => true) 1000000 (mk_faults false false) [0; 1]
    (svm_inv 1 [0; 1] (fun _ => 1048576))
    (ML := driver_laws 1000 1 Some (fun _ => true) 0 7 (fun _ => 4096) (fun _ => true) 1000000
             [0; 1] (fun _ => 1048576) demo_platform ltac:(lia) ltac:(lia))
    demo_sorted demo_bus 7 eq_refl eq_refl demo_ds_nodup (fun l => Permutation_refl l) 1
    ltac:(set_solver) 2 [65536; 69632; 4096] demo_pair)|].
  - simpl. lia.
  - lia.
  - intros v Hv. assert (v = 65536 \/ v = 69632) as [->| ->] by (simpl in Hv; set_solver);
      (split; [lia|reflexivity]).
  - apply demo_inv.
  - intros r s' (_ & _ & Hr) ->. split; apply Hr; simpl; set_solver || lia.
Defined.

Lemma handle_iommu_page_fault_correct_witness :
  let s := set_time 0 3 (set_mm mm_unlocked (set_heap [9] demo_pair)) in
  wp (svm_model Some (fun _ => 4096) (fun _ => true) 1000000 (mk_faults false false))
    (handle_iommu_page_fault (Mig := driver 1000 4 Some (fun _ => true) 0 7) demo_sorted demo_bus 7
       4 1 9 (replicate 48 0)) s
    (fun _ s' => mm s' = mm_unlocked /\
       ((1, 65536) ∈ reported s' -> replayed 1 s' /\ (placed s' 1 65536 \/ mmu_failed 1 s'))).
Proof.
  intros s. eapply wp_mono; [apply (handle_iommu_page_fault_correct 1000 4 Some (fun _ => true) 0 7
    (fun _ => 4096) (fun _ => true) 1000000 [0; 1] (fun _ => 1048576) demo_sorted demo_bus 7 1
    4 9 (replicate 48 0) [] s demo_platform ltac:(lia) ltac:(lia) eq_refl demo_ds_nodup
    ltac:(set_solver) (fun l => Permutation_refl l))|].
  - simpl. lia.
  - reflexivity.
  - reflexivity.
  - destruct demo_inv. split; try done. simpl. lia.
  - reflexivity.
  - intros [] s' (H & _ & _ & _ & vs & -> & Hrep & Hsv). split; [exact H|]. intros Hin.
    change (reported s) with (@nil (Z * Z)) in Hin. apply list_elem_of_fmap in Hin as (v & [= <-] & Hv).
    split; [apply Hrep; by intros ->; apply elem_of_nil in Hv|].
    destruct Hsv as [[Hsv _]|]; [left; by apply Hsv|by right].
Defined.

End PageFault.
