(* ===== verification/Lifecycle.v ===== *)
(** * Acquiring and releasing kernel resources

    The set-up and tear-down code of the module obtains resources one after the
    other (memory, interrupts, work queues, register windows, device files) and
    gives them back on its error paths and exit functions.  This file is the
    signature and the model that code is verified in: [held] is the multiset of
    the resources the module holds, [acquire] and [request] may fail, and a
    release of something that is not held is not allowed.  The memory of the
    driver itself is [state], read and written as a whole. *)
From S2P Require Import Prelude Kernel.

Module Lifecycle.
Import Kernel.
#[local] Open Scope prog_scope.

(** ** The calls *)
Inductive lifeE (R F : Type) : Type -> Type :=
(* an allocation: false is NULL (or an error pointer) *)
| acquire (r : R) : lifeE R F bool
(* a registration: zero or a negative error code *)
| request (r : R) : lifeE R F Z
| release (r : R) : lifeE R F unit
(* the driver's own memory *)
| load : lifeE R F F
| store (f : F) : lifeE R F unit
(* a register of the device: any value *)
| read_reg : lifeE R F Z
(* a NULL dereference or BUG() *)
| bug : lifeE R F unit.
Arguments acquire {R F} r.
Arguments request {R F} r.
Arguments release {R F} r.
Arguments load {R F}.
Arguments store {R F} f.
Arguments read_reg {R F}.
Arguments bug {R F}.

Record life (R F : Type) := mk_life { held : list R; state : F }.
Arguments mk_life {R F} held state.
Arguments held {R F} l.
Arguments state {R F} l.

Definition update {R F} (f : F -> F) : prog (lifeE R F) unit :=
  let! v := call load in call (store (f v)).

(** ** The model *)
Section Model.
Context {R F : Type} {EqR : EqDecision R}.
(** Which resources the kernel may refuse. *)
Variable may_fail : R -> bool.

Definition life_pre (X : Type) (e : lifeE R F X) (s : life R F) : Prop :=
  match e with
  | release r => r ∈ held s
  | bug => False
  | _ => True
  end.

Definition life_post (X : Type) (e : lifeE R F X) (s : life R F) : X -> life R F -> Prop :=
  match e in lifeE _ _ X return X -> life R F -> Prop with
  | acquire r => fun ok s' =>
      if (ok : bool) then s' = mk_life (r :: held s) (state s)
      else may_fail r = true /\ s' = s
  | request r => fun res s' =>
      (res = 0 /\ s' = mk_life (r :: held s) (state s)) \/
      (res < 0 /\ may_fail r = true /\ s' = s)
  | release r => fun _ s' => s' = mk_life (remove_one r (held s)) (state s)
  | load => fun v s' => v = state s /\ s' = s
  | store f => fun _ s' => s' = mk_life (held s) f
  | read_reg => fun _ s' => s' = s
  | bug => fun _ _ => False
  end.

Definition life_model : @model (lifeE R F) (life R F) :=
  {| pre := life_pre; post := life_post |}.

(** ** Rules *)
Lemma wp_acquire (r : R) (s : life R F) (Q : bool -> life R F -> Prop) :
  Q true (mk_life (r :: held s) (state s)) -> (may_fail r = true -> Q false s) ->
  wp life_model (call (acquire r)) s Q.
Proof. intros H1 H2. apply wp_call; [done|]. intros [] s'; [by intros ->|intros [? ->]; auto]. Qed.

Lemma wp_request (r : R) (s : life R F) (Q : Z -> life R F -> Prop) :
  Q 0 (mk_life (r :: held s) (state s)) -> (forall res, res < 0 -> may_fail r = true -> Q res s) ->
  wp life_model (call (request r)) s Q.
Proof. intros H1 H2. apply wp_call; [done|]. intros res s' [[-> ->]|(? & ? & ->)]; auto. Qed.

Lemma wp_release (r : R) (s : life R F) (Q : unit -> life R F -> Prop) :
  r ∈ held s -> Q tt (mk_life (remove_one r (held s)) (state s)) ->
  wp life_model (call (release r)) s Q.
Proof. intros H1 H2. apply wp_call; [done|]. by intros [] s' ->. Qed.

Lemma wp_load (s : life R F) (Q : F -> life R F -> Prop) :
  Q (state s) s -> wp life_model (call load) s Q.
Proof. intros H. apply wp_call; [done|]. by intros x s' [-> ->]. Qed.

Lemma wp_store (f : F) (s : life R F) (Q : unit -> life R F -> Prop) :
  Q tt (mk_life (held s) f) -> wp life_model (call (store f)) s Q.
Proof. intros H. apply wp_call; [done|]. by intros [] s' ->. Qed.

Lemma wp_update (f : F -> F) (s : life R F) (Q : unit -> life R F -> Prop) :
  Q tt (mk_life (held s) (f (state s))) -> wp life_model (update f) s Q.
Proof. intros H. apply wp_bind, wp_load. by apply wp_store. Qed.

Lemma wp_read_reg (s : life R F) (Q : Z -> life R F -> Prop) :
  (forall v, Q v s) -> wp life_model (call read_reg) s Q.
Proof. intros H. apply wp_call; [done|]. by intros v s' ->. Qed.

(** The same rules when the order of what is held is not known. *)
Lemma wp_acquire_perm (r : R) (s : life R F) (L : list R) (Q : bool -> life R F -> Prop) :
  Permutation (held s) L ->
  (forall s', Permutation (held s') (r :: L) -> state s' = state s -> Q true s') ->
  (may_fail r = true -> Q false s) ->
  wp life_model (call (acquire r)) s Q.
Proof. intros H1 H2 H3. apply wp_acquire; [|done]. apply H2; simpl; [by rewrite H1|done]. Qed.

Lemma wp_request_perm (r : R) (s : life R F) (L : list R) (Q : Z -> life R F -> Prop) :
  Permutation (held s) L ->
  (forall s', Permutation (held s') (r :: L) -> state s' = state s -> Q 0 s') ->
  (forall res, res < 0 -> may_fail r = true -> Q res s) ->
  wp life_model (call (request r)) s Q.
Proof. intros H1 H2 H3. apply wp_request; [|done]. apply H2; simpl; [by rewrite H1|done]. Qed.

Lemma wp_release_perm (r : R) (s : life R F) (L : list R) (Q : unit -> life R F -> Prop) :
  Permutation (held s) (r :: L) ->
  (forall s', Permutation (held s') L -> state s' = state s -> Q tt s') ->
  wp life_model (call (release r)) s Q.
Proof.
  intros H1 H2. assert (r ∈ held s) as Hr by (rewrite H1; left).
  apply wp_release; [done|]. apply H2; simpl; [|done].
  apply (Permutation_cons_inv (a := r)). by rewrite <- remove_one_perm.
Qed.

Lemma wp_load_eq (s : life R F) (v : F) (Q : F -> life R F -> Prop) :
  state s = v -> Q v s -> wp life_model (call load) s Q.
Proof. intros <- H. by apply wp_load. Qed.

Lemma wp_update_perm (f : F -> F) (s : life R F) (L : list R) (Q : unit -> life R F -> Prop) :
  Permutation (held s) L ->
  (forall s', Permutation (held s') L -> state s' = f (state s) -> Q tt s') ->
  wp life_model (update f) s Q.
Proof. intros H1 H2. apply wp_update. by apply H2. Qed.

End Model.

(** ** Components inside a larger one

    A program about its own resources and state, run by a program that has more of
    both: [inj] embeds the resources, [get] and [put] the state. *)
Section Lift.
Context {R1 F1 R2 F2 : Type} {EqR1 : EqDecision R1} {EqR2 : EqDecision R2}.
Variable inj : R1 -> R2.
Variable get : F2 -> F1.
Variable put : F1 -> F2 -> F2.

Fixpoint lift {A : Type} (p : prog (lifeE R1 F1) A) : prog (lifeE R2 F2) A :=
  match p with
  | Ret a => Ret a
  | Vis e k =>
      match e in lifeE _ _ X return (X -> prog (lifeE R2 F2) A) -> prog (lifeE R2 F2) A with
      | acquire r => fun k' => Vis (acquire (inj r)) k'
      | request r => fun k' => Vis (request (inj r)) k'
      | release r => fun k' => Vis (release (inj r)) k'
      | load => fun k' => Vis load (fun v => k' (get v))
      | store f => fun k' => Vis load (fun v => Vis (store (put f v)) k')
      | read_reg => fun k' => Vis read_reg k'
      | bug => fun k' => Vis bug k'
      end (fun x => lift (k x))
  end.

Variables (may_fail1 : R1 -> bool) (may_fail2 : R2 -> bool).
Hypothesis fail_inj : forall r, may_fail2 (inj r) = may_fail1 r.
Hypothesis get_put : forall f v, get (put f v) = f.
Hypothesis put_put : forall f g v, put f (put g v) = put f v.

(** The larger state agrees with the smaller one; the rest of it is [h] and [b]. *)
Definition embeds (h : list R2) (b : F2) (s1 : life R1 F1) (s2 : life R2 F2) : Prop :=
  Permutation (held s2) (map inj (held s1) ++ h) /\ state s2 = put (state s1) b.

Lemma embeds_cons (h : list R2) (b : F2) (s1 : life R1 F1) (s2 : life R2 F2) (r : R1) :
  embeds h b s1 s2 ->
  embeds h b (mk_life (r :: held s1) (state s1)) (mk_life (inj r :: held s2) (state s2)).
Proof. intros [H1 H2]. split; simpl; [by rewrite H1|done]. Qed.

Lemma wp_lift {A} (p : prog (lifeE R1 F1) A) (s1 : life R1 F1) (s2 : life R2 F2)
    (h : list R2) (b : F2) (Q : A -> life R1 F1 -> Prop) :
  wp (life_model may_fail1) p s1 Q -> embeds h b s1 s2 ->
  wp (life_model may_fail2) (lift p) s2 (fun a s2' => exists s1', Q a s1' /\ embeds h b s1' s2').
Proof.
  revert s1 s2. induction p as [a|X e k IH]; intros s1 s2 Hwp Hemb; simpl; [by exists s1|].
  destruct Hwp as [Hpre Hk]. pose proof Hemb as [Hh Hst]. destruct e as [r|r|r| |f| |]; simpl in *.
  - split; [done|]. intros [] s2'; [intros ->|intros [Hf ->]].
    + apply (IH true (mk_life (r :: held s1) (state s1))); [by apply Hk|by apply embeds_cons].
    + rewrite fail_inj in Hf. by apply (IH false s1); [apply Hk|].
  - split; [done|]. intros res s2' [[-> ->]|(Hres & Hf & ->)].
    + apply (IH 0 (mk_life (r :: held s1) (state s1))); [apply Hk; by left|by apply embeds_cons].
    + rewrite fail_inj in Hf. apply (IH res s1); [apply Hk; by right|done].
  - assert (inj r ∈ held s2) as Hr2.
    { rewrite Hh, elem_of_app. left. by apply list_elem_of_fmap_2. }
    split; [done|]. intros [] s2' ->. apply (IH tt (mk_life (remove_one r (held s1)) (state s1)));
      [by apply Hk|].
    split; simpl; [|done]. apply (Permutation_cons_inv (a := inj r)).
    rewrite <- remove_one_perm by done. rewrite Hh.
    change (inj r :: map inj (remove_one r (held s1)) ++ h)
      with (map inj (r :: remove_one r (held s1)) ++ h).
    f_equiv. apply Permutation_map. by apply remove_one_perm.
  - split; [done|]. intros v s2' [-> ->]. apply (IH _ s1); [|done]. rewrite Hst, get_put. by apply Hk.
  - split; [done|]. intros v s2' [-> ->]. split; [done|]. intros [] s2'' ->.
    apply (IH tt (mk_life (held s1) f)); [by apply Hk|]. split; simpl; [done|].
    by rewrite Hst, put_put.
  - split; [done|]. intros v s2' ->. by apply (IH v s1); [apply Hk|].
  - done.
Qed.
End Lift.

(** ** A kernel that grants everything *)
Section Obliging.
Context {R F : Type} {EqR : EqDecision R}.

Definition granting (X : Type) (e : lifeE R F X) (s : life R F) : X * life R F :=
  match e in lifeE _ _ X return X * life R F with
  | acquire r => (true, mk_life (r :: held s) (state s))
  | request r => (0, mk_life (r :: held s) (state s))
  | release r => (tt, mk_life (remove_one r (held s)) (state s))
  | load => (state s, s)
  | store f => (tt, mk_life (held s) f)
  | read_reg => (0, s)
  | bug => (tt, s)
  end.

Lemma granting_post (may_fail : R -> bool) (X : Type) (e : lifeE R F X) (s : life R F) :
  life_pre X e s -> let (x, s') := granting X e s in life_post may_fail X e s x s'.
Proof. destruct e; simpl; intros; try done. by left. Qed.
End Obliging.

(** ** Automation: symbolic execution of a whole function

    Every step applies the rule of the next call and splits on its answer; the
    conditions on concrete values are decided on the way. *)
Ltac in_held := repeat first [apply list_elem_of_here | apply list_elem_of_further].

Ltac life_step :=
  cbn [held state];
  lazymatch goal with
  | |- wp _ (Ret _) _ _ => apply wp_ret
  | |- wp _ (bind (bind _ _) _) _ _ => apply wp_bind
  | |- wp _ (bind (Ret _) _) _ _ => apply wp_bind, wp_ret
  | |- wp _ (bind _ _) _ _ => apply wp_bind
  | |- wp _ (call (acquire _)) _ _ => apply wp_acquire; [|intros ?Hfail]
  | |- wp _ (call (request _)) _ _ => apply wp_request; [|intros ?res ?Hres ?Hfail]
  | |- wp _ (call (release _)) _ _ => apply wp_release; [by in_held|]
  | |- wp _ (call load) _ _ => apply wp_load
  | |- wp _ (call (store _)) _ _ => apply wp_store
  | |- wp _ (update _) _ _ => apply wp_update
  | |- wp _ (call read_reg) _ _ => apply wp_read_reg; intros ?v
  | |- wp _ (if nonzero ?r then _ else _) _ _ =>
      first [ change (nonzero r) with false; cbv iota
            | replace (nonzero r) with true by (unfold nonzero; symmetry; apply negb_true_iff;
                                                  apply Z.eqb_neq; lia); cbv iota ]
  | |- wp _ (if ?b then _ else _) _ _ => first [ progress cbv iota beta | progress simpl ]
  end.

End Lifecycle.
