(* ===== verification/SvmLife.v ===== *)
(** * Set-up, sessions and interrupts of shared virtual memory
      (pcie/pcie_svm.c, from svm_free_mmu_notifier to the end)

    pcie_init_svm builds the SVM state of a card from memory, work queues,
    interrupts and device-private pages; pcie_launch_svm and pcie_teardown_svm
    bracket the session of a process; the three interrupt handlers run in
    between.  The programs use the calls of Lifecycle.v: the error paths give
    back what was obtained, and the state they publish is the one the migrations
    start from. *)
From S2P Require Import Prelude Kernel Lifecycle.
From S2P Require Import DevMem DevPages Intervals SvmHw SvmSys SvmCopy DevToDev.
From S2P Require Import Placement Movers PageFault.

Module SvmLife.
Import Kernel Lifecycle DevMem DevPages Intervals SvmHw.
Import SvmSys(svm_dev, sys, devs, mk_svm, hw, mem, live, vmem_intervals, error_state, rdma_bar,
  set_hw, set_tree, set_error).
Import SvmCopy(device_ok). Import DevToDev(window_ok).
#[local] Open Scope prog_scope.

Definition C2H_IRQ_NO : Z := 0.
Definition H2C_IRQ_NO : Z := 1.
Definition PAGE_FAULT_IRQ_NO : Z := 2.

(** ** State *)

Inductive queue := page_fault_queue | dev_mem_free_queue | dev_pages_free_queue.

#[export] Instance queue_eq_dec : EqDecision queue.
Proof. solve_decision. Defined.

(** What the code obtains; those named devm are given back by the driver core
    when the PCIe device goes away. *)
Inductive svm_res :=
| devm_svm_data
| mem_block
| workqueue (q : queue)
| irq (no : Z)
| devm_pagemap
| devm_mem_region
| devm_device_pages
| notifier_mem
| notifier_registered
| fault_env.

#[export] Instance svm_res_eq_dec : EqDecision svm_res.
Proof. solve_decision. Defined.

Section State.
Context {T : Type}.

(** struct tlkm_pcie_svm_data: the part the migrations use, the process, whether
    notifier_env is set, the wait flags, and the work items on page_fault_queue. *)
Record svm_data_t := mk_data {
  dev : svm_dev T;
  task : Z;
  mm : Z;
  notifier_env : bool;
  wait_flag_c2h_intr : Z;
  wait_flag_h2c_intr : Z;
  fault_works : nat
}.

(** struct tlkm_pcie_device: its svm_data and the values written to
    ack_register[0]. *)
Record pcie_dev := mk_pcie { svm_data : option svm_data_t; acks : list Z }.

Definition set_data (v : svm_data_t) (p : pcie_dev) : pcie_dev := mk_pcie (Some v) (acks p).
Definition set_dev (c : svm_dev T) (v : svm_data_t) : svm_data_t :=
  mk_data c (task v) (mm v) (notifier_env v) (wait_flag_c2h_intr v) (wait_flag_h2c_intr v)
    (fault_works v).
Definition set_process (t m : Z) (v : svm_data_t) : svm_data_t :=
  mk_data (dev v) t m (notifier_env v) (wait_flag_c2h_intr v) (wait_flag_h2c_intr v)
    (fault_works v).
Definition set_notifier (b : bool) (v : svm_data_t) : svm_data_t :=
  mk_data (dev v) (task v) (mm v) b (wait_flag_c2h_intr v) (wait_flag_h2c_intr v)
    (fault_works v).
Definition set_flags (c h : Z) (v : svm_data_t) : svm_data_t :=
  mk_data (dev v) (task v) (mm v) (notifier_env v) c h (fault_works v).
Definition set_works (n : nat) (v : svm_data_t) : svm_data_t :=
  mk_data (dev v) (task v) (mm v) (notifier_env v) (wait_flag_c2h_intr v)
    (wait_flag_h2c_intr v) n.
End State.
Arguments svm_data_t T : clear implicits.
Arguments pcie_dev T : clear implicits.

(** ** The code *)
Section Code.
Context {T : Type} {IT : IntervalTree T}.
Notation L := (prog (lifeE svm_res (pcie_dev T))).

(** pdev->svm_data, which the function dereferences. *)
Definition with_data {A} (dflt : A) (k : svm_data_t T -> L A) : L A :=
  let! p := call load in
  match svm_data p with
  | Some v => k v
  | None => call bug;;; Ret dflt
  end.

(** A change of *svm_data. *)
Definition change (f : svm_data_t T -> svm_data_t T) : L unit :=
  with_data tt (fun v => update (set_data (f v))).

(** writeq to one of the register maps of the card. *)
Definition writeq (r : reg) (w : Z) : L unit :=
  change (fun v => set_dev (set_hw (hw_write (hw (dev v)) r w) (dev v)) v).

(** pdev->ack_register[0] = no *)
Definition ack_irq (no : Z) : L unit := update (fun p => mk_pcie (svm_data p) (acks p ++ [no])).

(** svm_free_mmu_notifier: the kernel calls it after mmu_notifier_put, when the
    notifier is no longer in use. *)
Definition svm_free_mmu_notifier : L unit :=
  call (release notifier_mem);;; change (set_notifier false).

Definition register_mmu_notifier : L Z :=
  let! ok := call (acquire notifier_mem) in
  if negb ok then Ret (- ENOMEM) else
  let! res := call (request notifier_registered) in
  if nonzero res then call (release notifier_mem);;; Ret res else
  change (set_notifier true);;;
  Ret 0.

(** pcie_launch_svm; [current] and [current_mm] are those of the calling process. *)
Definition pcie_launch_svm (current current_mm : Z) : L Z :=
  let! p := call load in
  match svm_data p with
  | None => Ret (- EFAULT)
  | Some v =>
      if nonzero (error_state (dev v)) then Ret (- EFAULT) else
      change (set_process current current_mm);;;
      writeq mmu_cmd MMU_INVALIDATE_ALL;;;
      let! res := register_mmu_notifier in
      if nonzero res then change (set_process 0 0);;; Ret res else
      writeq intr_enable (Z.lor MMU_INTR_ENABLE MMU_ISSUE_FAULT_ENABLE);;;
      writeq mmu_cmd MMU_ACTIVATE;;;
      Ret 0
  end.

(** The end of handle_iommu_page_fault, the item of page_fault_queue: [ok] tells
    whether the faults could be serviced; if not, the migration that failed has
    set the error state. *)
Definition page_fault_work_end (ok : bool) : L unit :=
  (if ok then writeq intr_enable (Z.lor MMU_INTR_ENABLE MMU_ISSUE_FAULT_ENABLE)
   else change (fun v =>
          set_dev (set_error (Z.lor (error_state (dev v)) MMU_DEACTIVATED_ERROR) (dev v)) v));;;
  call (release fault_env);;;
  change (fun v => set_works (pred (fault_works v)) v).

(** handle_iommu_page_fault as an item of page_fault_queue: servicing the faults
    takes the device to the state [c] ([fault_loop] of PageFault.v; [FaultService]
    below says which states these may be), with success or not ([ok]). *)
Definition page_fault_work (w : svm_dev T * bool) : L unit :=
  change (set_dev (fst w));;; page_fault_work_end (snd w).

(** flush_workqueue(page_fault_queue): the items queued so far run. *)
Fixpoint flush_page_faults (works : list (svm_dev T * bool)) : L unit :=
  match works with
  | [] => Ret tt
  | w :: works' => page_fault_work w;;; flush_page_faults works'
  end.

(** mmu_notifier_put(&svm_data->notifier_env->notifier) *)
Definition mmu_notifier_put : L unit :=
  with_data tt (fun v => if notifier_env v then call (release notifier_registered) else call bug).

(** [works] are the runs of the items that are queued when it is called. *)
Definition pcie_teardown_svm (works : list (svm_dev T * bool)) : L unit :=
  writeq intr_enable 0;;;
  writeq mmu_cmd MMU_DEACTIVATE;;;
  writeq mmu_cmd MMU_INVALIDATE_ALL;;;
  flush_page_faults works;;;
  mmu_notifier_put;;;
  change (fun v => set_dev (set_tree (clear_intervals (vmem_intervals (dev v))) (dev v)) v).

(** The interrupt handlers; a new work item is always accepted by queue_work. *)
Definition iommu_page_fault_handler : L unit :=
  writeq intr_enable MMU_ISSUE_FAULT_ENABLE;;;
  let! ok := call (acquire fault_env) in
  when ok (change (fun v => set_works (S (fault_works v)) v));;;
  ack_irq PAGE_FAULT_IRQ_NO.

Definition svm_c2h_intr_handler : L unit :=
  change (fun v => set_flags 1 (wait_flag_h2c_intr v) v);;; ack_irq C2H_IRQ_NO.

Definition svm_h2c_intr_handler : L unit :=
  change (fun v => set_flags (wait_flag_c2h_intr v) 1 v);;; ack_irq H2C_IRQ_NO.

(** request_device_pages: the new base_pfn, or the error; [region] is the start of
    the memory region the kernel finds. *)
Definition request_device_pages (region : Z) : L (Z * Z) :=
  let! ok := call (acquire devm_pagemap) in
  if negb ok then Ret (- ENOMEM, 0) else
  let! ok := call (acquire devm_mem_region) in
  if negb ok then call (release devm_pagemap);;; Ret (- ENOMEM, 0) else
  let! ok := call (acquire devm_device_pages) in
  if negb ok then
    call (release devm_mem_region);;; call (release devm_pagemap);;; Ret (- ENOMEM, 0)
  else Ret (0, Z.shiftr region PAGE_SHIFT).

(** The labels of pcie_init_svm, from the last to the first. *)
Definition fail_alloc_memblock : L unit := call (release devm_svm_data).
Definition fail_workqueue_pagefault : L unit :=
  call (release mem_block);;; fail_alloc_memblock.
Definition fail_workqueue_devmemfree : L unit :=
  call (release (workqueue page_fault_queue));;; fail_workqueue_pagefault.
Definition fail_workqueue_devpagesfree : L unit :=
  call (release (workqueue dev_mem_free_queue));;; fail_workqueue_devmemfree.
Definition fail_c2hintr : L unit :=
  call (release (workqueue dev_pages_free_queue));;; fail_workqueue_devpagesfree.
Definition fail_h2cintr : L unit := call (release (irq C2H_IRQ_NO));;; fail_c2hintr.
Definition fail_mmuirq : L unit := call (release (irq H2C_IRQ_NO));;; fail_h2cintr.
Definition fail_reqpages : L unit := call (release (irq PAGE_FAULT_IRQ_NO));;; fail_mmuirq.

(** The state published at the end; [card] are the registers of the card,
    [bar2_len] and [bar2_start] describe its third BAR. *)
Definition new_dev (card : hw_dev) (bpfn bar2_len bar2_start : Z) : svm_dev T :=
  let network := regs card dma_id =? NETWORK_PAGE_DMA_ID in
  mk_svm card (snd (mem_init bpfn)) [] RB_ROOT_CACHED 0 network
    (if network then regs card own_mac else 0)
    (if bar2_len >=? PHYS_MEM_SIZE then bar2_start else 0).

Definition pcie_init_svm (card : hw_dev) (region bar2_len bar2_start : Z) : L Z :=
  let! ok := call (acquire devm_svm_data) in
  if negb ok then Ret (- ENOMEM) else
  let! ok := call (acquire mem_block) in
  if negb ok then fail_alloc_memblock;;; Ret (- ENOMEM) else
  let! ok := call (acquire (workqueue page_fault_queue)) in
  if negb ok then fail_workqueue_pagefault;;; Ret (- EFAULT) else
  let! ok := call (acquire (workqueue dev_mem_free_queue)) in
  if negb ok then fail_workqueue_devmemfree;;; Ret (- EFAULT) else
  let! ok := call (acquire (workqueue dev_pages_free_queue)) in
  if negb ok then fail_workqueue_devpagesfree;;; Ret (- EFAULT) else
  let! res := call (request (irq C2H_IRQ_NO)) in
  if nonzero res then fail_c2hintr;;; Ret res else
  let! res := call (request (irq H2C_IRQ_NO)) in
  if nonzero res then fail_h2cintr;;; Ret res else
  let! res := call (request (irq PAGE_FAULT_IRQ_NO)) in
  if nonzero res then fail_mmuirq;;; Ret res else
  let! (res, bpfn) := request_device_pages region in
  if nonzero res then fail_reqpages;;; Ret res else
  update (set_data (mk_data (new_dev card bpfn bar2_len bar2_start) 0 0 false 0 0 0));;;
  Ret 0.

(** pcie_exit_svm; the flushed queues only touch the memory allocator. *)
Definition pcie_exit_svm : L unit :=
  with_data tt (fun _ => Ret tt);;;
  call (release (irq PAGE_FAULT_IRQ_NO));;;
  call (release (irq H2C_IRQ_NO));;;
  call (release (irq C2H_IRQ_NO));;;
  call (release (workqueue page_fault_queue));;;
  call (release (workqueue dev_mem_free_queue));;;
  call (release (workqueue dev_pages_free_queue));;;
  update (fun p => mk_pcie None (acks p)).

End Code.

(** ** Specifications *)

(** What the session assumes of servicing the faults of the device, from a state
    of the device to a state after it: the intervals stay well-formed, commands
    to the IOMMU are only added, and a failure is recorded in the error state. *)
Class FaultService (T : Type) {IT : IntervalTree T} := {
  serviced : svm_dev T -> bool -> svm_dev T -> Prop;
  serviced_wf c ok c' : serviced c ok c' ->
    wf_nodes (it_nodes (vmem_intervals c)) -> wf_nodes (it_nodes (vmem_intervals c'));
  serviced_mmu c ok c' : serviced c ok c' ->
    exists ms, mmu_issued (hw c') = mmu_issued (hw c) ++ ms;
  serviced_error c c' : serviced c false c' -> Z.testbit (error_state c') 1 = true
}.

(** What a card holds between pcie_init_svm and pcie_exit_svm. *)
Definition device_resources : list svm_res :=
  [devm_device_pages; devm_mem_region; devm_pagemap; irq PAGE_FAULT_IRQ_NO; irq H2C_IRQ_NO;
   irq C2H_IRQ_NO; workqueue dev_pages_free_queue; workqueue dev_mem_free_queue;
   workqueue page_fault_queue; mem_block; devm_svm_data].

Section Spec.
Context {T : Type} {IT : IntervalTree T} {TL : IntervalTreeLaws T}.
Variable may_fail : svm_res -> bool.
Notation M := (life_model (F := pcie_dev T) may_fail).

Lemma request_device_pages_spec (region : Z) (s : life svm_res (pcie_dev T)) :
  wp M (request_device_pages region) s (fun '(res, bpfn) s' =>
    (res = 0 /\ bpfn = Z.shiftr region PAGE_SHIFT /\
     s' = mk_life (devm_device_pages :: devm_mem_region :: devm_pagemap :: held s) (state s)) \/
    (res < 0 /\ bpfn = 0 /\ s' = s)).
Proof.
  destruct s as [h p]. unfold request_device_pages.
  repeat life_step; first [by left | by right].
Qed.

Lemma pcie_init_svm_spec (card : hw_dev) (region bar2_len bar2_start : Z)
    (s : life svm_res (pcie_dev T)) :
  wp M (pcie_init_svm card region bar2_len bar2_start) s (fun res s' =>
    (res = 0 /\ held s' = device_resources ++ held s /\
     state s' = set_data (mk_data (new_dev card (Z.shiftr region PAGE_SHIFT) bar2_len bar2_start)
                            0 0 false 0 0 0) (state s)) \/
    (res < 0 /\ s' = s)).
Proof.
  destruct s as [h p]. unfold pcie_init_svm.
  repeat first [life_step | progress unfold fail_alloc_memblock, fail_workqueue_pagefault,
    fail_workqueue_devmemfree, fail_workqueue_devpagesfree, fail_c2hintr, fail_h2cintr,
    fail_mmuirq, fail_reqpages].
  all: try (first [by left | by right]).
  eapply wp_mono; [apply request_device_pages_spec|].
  intros [res bpfn] s' [(-> & -> & ->)|(Hres & -> & ->)]; simpl.
  - repeat life_step. by left.
  - repeat life_step. by right.
Qed.

(** *** Steps on a published state *)
Notation run_state h v a := (mk_life h (mk_pcie (Some v) a)).

Lemma wp_change (f : svm_data_t T -> svm_data_t T) (h : list svm_res) (v : svm_data_t T)
    (a : list Z) (Q : unit -> life svm_res (pcie_dev T) -> Prop) :
  Q tt (run_state h (f v) a) -> wp M (change f) (run_state h v a) Q.
Proof. intros H. apply wp_bind, wp_load. simpl. by apply wp_update. Qed.

Lemma wp_ack (no : Z) (h : list svm_res) (p : option (svm_data_t T)) (a : list Z)
    (Q : unit -> life svm_res (pcie_dev T) -> Prop) :
  Q tt (mk_life h (mk_pcie p (a ++ [no]))) -> wp M (ack_irq no) (mk_life h (mk_pcie p a)) Q.
Proof. intros H. by apply wp_update. Qed.

Definition wr (r : reg) (w : Z) (v : svm_data_t T) : svm_data_t T :=
  set_dev (set_hw (hw_write (hw (dev v)) r w) (dev v)) v.

Lemma wp_wr (r : reg) (w : Z) (h : list svm_res) (v : svm_data_t T)
    (a : list Z) (Q : unit -> life svm_res (pcie_dev T) -> Prop) :
  Q tt (run_state h (wr r w v) a) -> wp M (writeq r w) (run_state h v a) Q.
Proof. apply wp_change. Qed.

Lemma register_mmu_notifier_spec (h : list svm_res) (v : svm_data_t T) (a : list Z) :
  wp M register_mmu_notifier (run_state h v a) (fun res s' =>
    (res = 0 /\ s' = run_state (notifier_registered :: notifier_mem :: h)
                       (set_notifier true v) a) \/
    (res < 0 /\ s' = run_state h v a)).
Proof.
  unfold register_mmu_notifier. repeat life_step; try (by right).
  apply wp_change. repeat life_step. by left.
Qed.

(** The state of a session that has just been launched. *)
Definition launched (current current_mm : Z) (v : svm_data_t T) : svm_data_t T :=
  wr mmu_cmd MMU_ACTIVATE (wr intr_enable (Z.lor MMU_INTR_ENABLE MMU_ISSUE_FAULT_ENABLE)
    (set_notifier true (wr mmu_cmd MMU_INVALIDATE_ALL (set_process current current_mm v)))).

Lemma pcie_launch_svm_spec (current current_mm : Z) (h : list svm_res) (v : svm_data_t T)
    (a : list Z) :
  wp M (pcie_launch_svm current current_mm) (run_state h v a) (fun res s' =>
    (error_state (dev v) <> 0 /\ res = - EFAULT /\ s' = run_state h v a) \/
    (error_state (dev v) = 0 /\ res = 0 /\
     s' = run_state (notifier_registered :: notifier_mem :: h) (launched current current_mm v) a) \/
    (error_state (dev v) = 0 /\ res < 0 /\
     s' = run_state h (set_process 0 0 (wr mmu_cmd MMU_INVALIDATE_ALL v)) a)).
Proof.
  apply wp_bind, wp_load. simpl. unfold nonzero at 1. destruct (Z.eqb_spec (error_state (dev v)) 0) as [He|He]; simpl negb;
    cbv iota; [|repeat life_step; by left].
  apply wp_bind, wp_change, wp_bind, wp_wr, wp_bind.
  eapply wp_mono; [apply register_mmu_notifier_spec|]. intros res s' [[-> ->]|[Hres ->]].
  - life_step. apply wp_bind, wp_wr, wp_bind, wp_wr, wp_ret. right. left. done.
  - life_step. apply wp_bind, wp_change, wp_ret. right. by right.
Qed.

(** *** Sessions *)

(** One event of a session: an interrupt, the end of a work item, or anything
    else the driver does with the card while the session lasts; the latter leaves
    the fault interrupt alone unless it is a page fault being handled, does not
    clear the error state, and keeps the intervals well-formed. *)
Inductive session_step : life svm_res (pcie_dev T) -> life svm_res (pcie_dev T) -> Prop :=
| step_fault (s s' : life svm_res (pcie_dev T)) :
    outcome M iommu_page_fault_handler s tt s' -> session_step s s'
| step_c2h (s s' : life svm_res (pcie_dev T)) :
    outcome M svm_c2h_intr_handler s tt s' -> session_step s s'
| step_h2c (s s' : life svm_res (pcie_dev T)) :
    outcome M svm_h2c_intr_handler s tt s' -> session_step s s'
| step_work (ok : bool) (s s' : life svm_res (pcie_dev T)) (v : svm_data_t T) :
    svm_data (state s) = Some v -> (0 < fault_works v)%nat ->
    outcome M (page_fault_work_end ok) s tt s' -> session_step s s'
| step_use (h : list svm_res) (v : svm_data_t T) (a : list Z) (c : svm_dev T) :
    ((0 < fault_works v)%nat \/ regs (hw c) intr_enable = regs (hw (dev v)) intr_enable) ->
    (Z.testbit (error_state (dev v)) 1 = true -> Z.testbit (error_state c) 1 = true) ->
    wf_nodes (it_nodes (vmem_intervals c)) ->
    session_step (run_state h v a) (run_state h (set_dev c v) a).

Inductive session_reach (current current_mm : Z) (s0 : life svm_res (pcie_dev T))
    : life svm_res (pcie_dev T) -> Prop :=
| session_launch (s : life svm_res (pcie_dev T)) :
    outcome M (pcie_launch_svm current current_mm) s0 0 s ->
    session_reach current current_mm s0 s
| session_more (s s' : life svm_res (pcie_dev T)) :
    session_reach current current_mm s0 s -> session_step s s' ->
    session_reach current current_mm s0 s'.

(** What is held in a session that was launched when [h] was held. *)
Definition session_inv (h : list svm_res) (s : life svm_res (pcie_dev T)) : Prop :=
  exists l v a, s = run_state l v a /\ notifier_env v = true /\
    wf_nodes (it_nodes (vmem_intervals (dev v))) /\
    Permutation l (replicate (fault_works v) fault_env ++ notifier_registered :: notifier_mem :: h).

(** A page fault will be seen: the interrupt is enabled, or a work item that will
    look for faults is queued, or the card has failed. *)
Definition armed (v : svm_data_t T) : Prop :=
  Z.testbit (regs (hw (dev v)) intr_enable) 0 = true \/ (0 < fault_works v)%nat \/
  Z.testbit (error_state (dev v)) 1 = true.

Lemma page_fault_work_end_spec (ok : bool) (h : list svm_res) (v : svm_data_t T) (a : list Z) :
  fault_env ∈ h ->
  wp M (page_fault_work_end ok) (run_state h v a) (fun _ s' =>
    exists v', s' = run_state (remove_one fault_env h) v' a /\
      fault_works v' = pred (fault_works v) /\ notifier_env v' = notifier_env v /\
      vmem_intervals (dev v') = vmem_intervals (dev v) /\
      mmu_issued (hw (dev v')) = mmu_issued (hw (dev v)) /\
      regs (hw (dev v')) intr_enable = (if ok then 3 else regs (hw (dev v)) intr_enable) /\
      (ok = false -> Z.testbit (error_state (dev v')) 1 = true)).
Proof.
  intros Hh. unfold page_fault_work_end. destruct ok.
  - apply wp_bind, wp_wr, wp_bind, wp_release; [done|]. simpl. apply wp_change.
    eexists. split; [done|]. by repeat split.
  - apply wp_bind, wp_change, wp_bind, wp_release; [done|]. simpl. apply wp_change.
    eexists. split; [done|]. repeat split. intros _.
    change (Z.testbit (Z.lor (error_state (dev v)) MMU_DEACTIVATED_ERROR) 1 = true).
    rewrite Z.lor_spec. apply orb_true_r.
Qed.

Lemma iommu_page_fault_handler_spec (h : list svm_res) (v : svm_data_t T) (a : list Z) :
  wp M iommu_page_fault_handler (run_state h v a) (fun _ s' =>
    let v1 := wr intr_enable MMU_ISSUE_FAULT_ENABLE v in
    s' = run_state (fault_env :: h) (set_works (S (fault_works v)) v1) (a ++ [PAGE_FAULT_IRQ_NO]) \/
    (may_fail fault_env = true /\ s' = run_state h v1 (a ++ [PAGE_FAULT_IRQ_NO]))).
Proof.
  unfold iommu_page_fault_handler. apply wp_bind, wp_wr, wp_bind, wp_acquire.
  - apply wp_bind, wp_change, wp_ack. by left.
  - intros Hf. apply wp_bind, wp_ret, wp_ack. by right.
Qed.

Lemma svm_c2h_intr_handler_spec (h : list svm_res) (v : svm_data_t T) (a : list Z) :
  wp M svm_c2h_intr_handler (run_state h v a) (fun _ s' =>
    s' = run_state h (set_flags 1 (wait_flag_h2c_intr v) v) (a ++ [C2H_IRQ_NO])).
Proof. by apply wp_bind, wp_change, wp_ack. Qed.

Lemma svm_h2c_intr_handler_spec (h : list svm_res) (v : svm_data_t T) (a : list Z) :
  wp M svm_h2c_intr_handler (run_state h v a) (fun _ s' =>
    s' = run_state h (set_flags (wait_flag_c2h_intr v) 1 v) (a ++ [H2C_IRQ_NO])).
Proof. by apply wp_bind, wp_change, wp_ack. Qed.

Lemma session_step_inv (h : list svm_res) (s s' : life svm_res (pcie_dev T)) :
  session_inv h s -> session_step s s' -> session_inv h s'.
Proof.
  intros (l & v & a & -> & Hn & Hwf & Hl) Hs.
  inversion Hs as [s1 s2 Ho|s1 s2 Ho|s1 s2 Ho|ok s1 s2 v1 Hv Hw Ho|h1 v1 a1 c _ _ Hc]; subst; clear Hs.
  - eapply wp_outcome in Ho; [|apply iommu_page_fault_handler_spec].
    destruct Ho as [->|[_ ->]]; (do 3 eexists); (split; [done|split; [done|split; [done|]]]).
    + simpl. by constructor.
    + done.
  - eapply wp_outcome in Ho; [|apply svm_c2h_intr_handler_spec]. simpl in Ho. subst. do 3 eexists. split; [done|]. split; [done|]. by split.
  - eapply wp_outcome in Ho; [|apply svm_h2c_intr_handler_spec]. simpl in Ho. subst. do 3 eexists. split; [done|]. split; [done|]. by split.
  - simplify_eq/=. destruct (fault_works v1) as [|n] eqn:En; [lia|]. simpl in Hl.
    assert (fault_env ∈ l) as Hin by (rewrite Hl; by left).
    eapply wp_outcome in Ho; [|by apply page_fault_work_end_spec].
    destruct Ho as (v' & -> & Hw' & Hn' & Ht' & _). do 3 eexists. split; [done|]. split; [congruence|].
    split; [by rewrite Ht'|].
    rewrite Hw', En. simpl. apply (Permutation_cons_inv (a := fault_env)).
    by rewrite <- (remove_one_perm fault_env l Hin).
  - simplify_eq. do 3 eexists. split; [done|]. split; [done|]. by split.
Qed.

Lemma session_reach_inv (current current_mm : Z) (h : list svm_res) (v0 : svm_data_t T)
    (a0 : list Z) (s : life svm_res (pcie_dev T)) :
  fault_works v0 = 0%nat -> wf_nodes (it_nodes (vmem_intervals (dev v0))) ->
  session_reach current current_mm (run_state h v0 a0) s -> session_inv h s.
Proof.
  intros Hw0 Hwf. induction 1 as [s Ho|s s' _ IH Hs]; [|by eapply session_step_inv].
  eapply wp_outcome in Ho; [|apply pcie_launch_svm_spec].
  destruct Ho as [(_ & ? & _)|[(_ & _ & ->)|(_ & ? & _)]]; [done| |lia].
  do 3 eexists. split; [done|]. split; [done|]. split; [done|]. simpl. by rewrite Hw0.
Qed.

Lemma session_step_armed (v : svm_data_t T) (s s' : life svm_res (pcie_dev T)) :
  may_fail fault_env = false ->
  svm_data (state s) = Some v -> (0 < fault_works v -> fault_env ∈ held s)%nat ->
  armed v -> session_step s s' ->
  exists v', svm_data (state s') = Some v' /\ armed v'.
Proof.
  intros Hf Hv Hh Ha Hs. destruct s as [l [d a]]. simpl in *. subst d.
  inversion Hs as [s1 s2 Ho|s1 s2 Ho|s1 s2 Ho|ok s1 s2 v1 Hv Hw Ho|h1 v1 a1 c Hr He _];
    subst; clear Hs; simplify_eq/=.
  - eapply wp_outcome in Ho; [|apply iommu_page_fault_handler_spec].
    destruct Ho as [->|[? _]]; [|congruence]. eexists. split; [done|]. right. left. simpl. lia.
  - eapply wp_outcome in Ho; [|apply svm_c2h_intr_handler_spec]. simpl in Ho. subst.
    eexists. split; [done|]. apply Ha.
  - eapply wp_outcome in Ho; [|apply svm_h2c_intr_handler_spec]. simpl in Ho. subst.
    eexists. split; [done|]. apply Ha.
  - eapply wp_outcome in Ho; [|apply page_fault_work_end_spec; auto].
    destruct Ho as (v' & -> & _ & _ & _ & _ & Hr & He). eexists. split; [done|].
    unfold armed. rewrite Hr. destruct ok; [by left|]. right. right. auto.
  - eexists. split; [done|]. unfold armed in *. simpl. destruct Hr as [Hr|Hr]; [auto|].
    rewrite Hr. tauto.
Qed.

Lemma session_reach_armed (current current_mm : Z) (h : list svm_res) (v0 : svm_data_t T)
    (a0 : list Z) (s : life svm_res (pcie_dev T)) :
  may_fail fault_env = false -> fault_works v0 = 0%nat ->
  wf_nodes (it_nodes (vmem_intervals (dev v0))) ->
  session_reach current current_mm (run_state h v0 a0) s ->
  exists v, svm_data (state s) = Some v /\ armed v.
Proof.
  intros Hf Hw0 Hwf. induction 1 as [s Ho|s s' Hr IH Hs].
  - eapply wp_outcome in Ho; [|apply pcie_launch_svm_spec].
    destruct Ho as [(_ & ? & _)|[(_ & _ & ->)|(_ & ? & _)]]; [done| |lia].
    eexists. split; [done|]. by left.
  - destruct IH as (v & Hv & Ha). eapply session_step_armed; try done.
    destruct (session_reach_inv _ _ _ _ _ _ Hw0 Hwf Hr) as (l & v' & a & -> & _ & _ & Hl).
    simplify_eq/=. intros Hw. rewrite Hl. destruct (fault_works v); [lia|]. by left.
Qed.

(** *** Ending a session *)

Context {FS : FaultService T}.

(** The device after a work item has serviced the faults and ended. *)
Definition work_done (w : svm_dev T * bool) : svm_dev T :=
  if snd w
  then set_hw (hw_write (hw (fst w)) intr_enable (Z.lor MMU_INTR_ENABLE MMU_ISSUE_FAULT_ENABLE)) (fst w)
  else set_error (Z.lor (error_state (fst w)) MMU_DEACTIVATED_ERROR) (fst w).

(** The runs of several work items, one after the other, from a device in state
    [c]. *)
Fixpoint work_runs (c : svm_dev T) (works : list (svm_dev T * bool)) : Prop :=
  match works with
  | [] => True
  | w :: works' => serviced c (snd w) (fst w) /\ work_runs (work_done w) works'
  end.

Definition after_works (c : svm_dev T) (works : list (svm_dev T * bool)) : svm_dev T :=
  foldl (fun _ w => work_done w) c works.

Lemma work_done_hw (w : svm_dev T * bool) :
  vmem_intervals (work_done w) = vmem_intervals (fst w) /\
  mmu_issued (hw (work_done w)) = mmu_issued (hw (fst w)).
Proof. unfold work_done. by destruct (snd w). Qed.

(** All the runs together. *)
Lemma work_runs_keep (works : list (svm_dev T * bool)) (c : svm_dev T) :
  work_runs c works -> wf_nodes (it_nodes (vmem_intervals c)) ->
  wf_nodes (it_nodes (vmem_intervals (after_works c works))) /\
  exists ms, mmu_issued (hw (after_works c works)) = mmu_issued (hw c) ++ ms.
Proof.
  revert c. induction works as [|w works IH]; simpl; intros c Hr Hwf.
  { split; [done|]. exists []. by rewrite app_nil_r. }
  destruct Hr as [Hw Hr]. destruct (work_done_hw w) as [E1 E2].
  destruct (IH (work_done w) Hr) as [W (ms & Hms)]; [rewrite E1; by eapply serviced_wf|].
  split; [done|]. destruct (serviced_mmu _ _ _ Hw) as [ms0 H0]. exists (ms0 ++ ms).
  etransitivity; [exact Hms|]. by rewrite E2, H0, app_assoc.
Qed.

Lemma page_fault_work_spec (w : svm_dev T * bool) (h : list svm_res) (v : svm_data_t T)
    (a : list Z) :
  fault_env ∈ h ->
  wp M (page_fault_work w) (run_state h v a) (fun _ s' =>
    s' = run_state (remove_one fault_env h)
           (set_works (pred (fault_works v)) (set_dev (work_done w) v)) a).
Proof.
  intros Hh. unfold page_fault_work, page_fault_work_end, work_done.
  apply wp_bind, wp_change. destruct w as [c [|]]; simpl.
  - apply wp_bind, wp_wr, wp_bind, wp_release; [done|]. simpl. by apply wp_change.
  - apply wp_bind, wp_change, wp_bind, wp_release; [done|]. simpl. by apply wp_change.
Qed.

Lemma flush_page_faults_spec (works : list (svm_dev T * bool)) (h l : list svm_res)
    (v : svm_data_t T) (a : list Z) :
  fault_works v = length works -> Permutation l (replicate (length works) fault_env ++ h) ->
  wp M (flush_page_faults works) (run_state l v a) (fun _ s' =>
    exists l', s' = run_state l' (set_works 0 (set_dev (after_works (dev v) works) v)) a /\
      Permutation l' h).
Proof.
  revert l v. induction works as [|w works IH]; intros l v Hn Hl; simpl in *.
  { apply wp_ret. exists l. split; [|done]. rewrite <- Hn. by destruct v. }
  assert (fault_env ∈ l) as Hin by (rewrite Hl; by left).
  wp_seq page_fault_work_spec; [done|]. intros _ s' ->.
  eapply wp_mono; [apply IH; [simpl; by rewrite Hn|]|].
  { apply (Permutation_cons_inv (a := fault_env)). by rewrite <- (remove_one_perm fault_env l Hin). }
  intros _ s' (l2 & -> & Hl2). by exists l2.
Qed.

(** The device when the IOMMU has been switched off, before the flush. *)
Definition switched_off (c : svm_dev T) : svm_dev T :=
  let wr r w c := set_hw (hw_write (hw c) r w) c in
  wr mmu_cmd MMU_INVALIDATE_ALL (wr mmu_cmd MMU_DEACTIVATE (wr intr_enable 0 c)).

Lemma pcie_teardown_svm_spec (works : list (svm_dev T * bool)) (h l : list svm_res)
    (v : svm_data_t T) (a : list Z) :
  notifier_env v = true -> wf_nodes (it_nodes (vmem_intervals (dev v))) ->
  fault_works v = length works -> work_runs (switched_off (dev v)) works ->
  Permutation l (replicate (fault_works v) fault_env ++ notifier_registered :: h) ->
  wp M (pcie_teardown_svm works) (run_state l v a) (fun _ s' =>
    exists l' v' ms, s' = run_state l' v' a /\ Permutation l' h /\
      fault_works v' = 0%nat /\ it_nodes (vmem_intervals (dev v')) = [] /\
      mmu_issued (hw (dev v')) = mmu_issued (hw (dev v)) ++ [Deactivate; InvalidateAll] ++ ms /\
      hw (dev v') = hw (after_works (switched_off (dev v)) works)).
Proof.
  intros Hn Hwf Hlen Hruns Hl. unfold pcie_teardown_svm.
  do 3 (apply wp_bind, wp_wr). apply wp_bind. rewrite Hlen in Hl.
  eapply wp_mono; [apply (flush_page_faults_spec works (notifier_registered :: h)); done|].
  intros _ s' (l1 & -> & Hl1).
  apply wp_bind. apply wp_bind, wp_load. simpl. rewrite Hn.
  assert (notifier_registered ∈ l1) as Hin by (rewrite Hl1; by left).
  destruct (work_runs_keep works _ Hruns Hwf) as [W (ms & Hms)].
  apply wp_release; [done|]. simpl. apply wp_change. exists (remove_one notifier_registered l1).
  eexists _, ms. split; [done|]. split; [|repeat split; simpl].
  - apply (Permutation_cons_inv (a := notifier_registered)).
    by rewrite <- (remove_one_perm notifier_registered l1 Hin).
  - apply clear_loop_spec; [|done]. exact W.
  - change (mmu_issued (hw (after_works (switched_off (dev v)) works)) =
      mmu_issued (hw (dev v)) ++ Deactivate :: InvalidateAll :: ms).
    rewrite Hms. simpl. by rewrite <- !app_assoc.
Qed.

(** *** The end of the device *)

(** What pcie_exit_svm leaves. *)
Definition after_exit : list svm_res :=
  [devm_device_pages; devm_mem_region; devm_pagemap; mem_block; devm_svm_data].

Lemma pcie_exit_svm_spec (h : list svm_res) (v : svm_data_t T) (a : list Z) :
  wp M pcie_exit_svm (run_state (device_resources ++ h) v a) (fun _ s' =>
    s' = mk_life (after_exit ++ h) (mk_pcie None a)).
Proof.
  unfold pcie_exit_svm, with_data, device_resources. simpl app.
  apply wp_bind, wp_bind, wp_load, wp_ret. by repeat life_step.
Qed.

Lemma new_dev_ok (card : hw_dev) (region bar2_len bar2_start : Z) (sy : sys T) (d : Z) :
  0 <= region -> region + PHYS_MEM_SIZE <= 2 ^ 64 ->
  0 <= bar2_start -> bar2_start + bar2_len <= 2 ^ 64 ->
  devs sy d = new_dev card (Z.shiftr region PAGE_SHIFT) bar2_len bar2_start ->
  device_ok (Z.shiftr region PAGE_SHIFT) d sy /\ window_ok d sy.
Proof.
  intros Hr Hr' Hb Hb' E. rewrite PHYS_MEM_SIZE_eq in *.
  unfold device_ok, window_ok, SvmCopy.dev_inv. rewrite E, PHYS_PAGES_eq. split.
  - unfold PAGE_SHIFT. rewrite Z.shiftr_div_pow2 by lia. change (2 ^ 12) with 4096.
    change (2 ^ 64) with 18446744073709551616 in *.
    change (2 ^ 64) with 18446744073709551616 in *.
    assert (0 <= region / 4096 /\ region / 4096 + 1048576 <= 18446744073709551616) as []
      by dlia.
    split; [done|]. split; [done|]. by apply mem_init_inv.
  - simpl. rewrite PHYS_MEM_SIZE_eq, Z.geb_leb. change (2 ^ 64) with 18446744073709551616 in *.
    destruct (Z.leb_spec 4294967296 bar2_len); lia.
Qed.

(** ** Properties *)

(** C31: pcie_init_svm is all or nothing, whichever of its eleven requests the
    kernel refuses: after an error every resource obtained so far has been given
    back, exactly once, and no state is published; after success the card holds
    the eleven resources and publishes a state that satisfies what the migrations
    assume of a device: all device memory free, no intervals, no error, a window
    inside the address space.  From there pcie_exit_svm frees the three interrupts and
    destroys the three work queues, each exactly once, and withdraws the state; what
    remains are the four objects the driver core manages, and the first block of the
    device memory allocator, which no function frees. *)
Theorem pcie_init_svm_correct (card : hw_dev) (region bar2_len bar2_start : Z)
    (s : life svm_res (pcie_dev T)) :
  0 <= region -> region + PHYS_MEM_SIZE <= 2 ^ 64 ->
  0 <= bar2_start -> bar2_start + bar2_len <= 2 ^ 64 ->
  wp (life_model may_fail) (pcie_init_svm card region bar2_len bar2_start) s (fun res s' =>
    (res < 0 /\ s' = s) \/
    (res = 0 /\ held s' = device_resources ++ held s /\ acks (state s') = acks (state s) /\
     exists v, svm_data (state s') = Some v /\ notifier_env v = false /\ fault_works v = 0%nat /\
       error_state (dev v) = 0 /\ hw (dev v) = card /\ live (dev v) = [] /\
       it_nodes (vmem_intervals (dev v)) = [] /\
       (forall (sy : sys T) (d : Z), devs sy d = dev v ->
         device_ok (Z.shiftr region PAGE_SHIFT) d sy /\ window_ok d sy) /\
       wp (life_model may_fail) pcie_exit_svm s' (fun _ s'' =>
         svm_data (state s'') = None /\
         held s'' = [devm_device_pages; devm_mem_region; devm_pagemap; mem_block; devm_svm_data]
                    ++ held s))).
Proof.
  intros Hr Hr' Hb Hb'. eapply wp_mono; [apply pcie_init_svm_spec|].
  intros res s' [(-> & Hh & Hs)|?]; [right|by left].
  split; [done|]. split; [done|]. rewrite Hs. split; [done|]. eexists. split; [done|].
  repeat (split; [first [done|apply nodes_empty]|]). split; [intros sy d E; by eapply new_dev_ok|].
  destruct s' as [l' p']. simpl in Hh, Hs. subst l' p'.
  eapply wp_mono; [apply pcie_exit_svm_spec|]. by intros [] s'' ->.
Qed.

(** Both in a row. *)
Theorem pcie_init_exit_svm (card : hw_dev) (region bar2_len bar2_start : Z)
    (s : life svm_res (pcie_dev T)) :
  wp (life_model may_fail)
    (let! res := pcie_init_svm card region bar2_len bar2_start in
     when (res =? 0) pcie_exit_svm;;; Ret res) s (fun res s' =>
    (res < 0 /\ s' = s) \/
    (res = 0 /\ svm_data (state s') = None /\
     held s' = [devm_device_pages; devm_mem_region; devm_pagemap; mem_block; devm_svm_data]
               ++ held s)).
Proof.
  wp_seq pcie_init_svm_spec. intros res s' [(-> & Hh & Hs)|[Hres ->]].
  - destruct s' as [l' p']. simpl in Hh, Hs. subst l' p'. simpl when.
    wp_seq pcie_exit_svm_spec. intros _ s' ->. apply wp_ret. by right.
  - unfold when. destruct (Z.eqb_spec res 0); [lia|]. apply wp_bind, wp_ret, wp_ret. by left.
Qed.

(** C33: no page fault interrupt is lost during a session, in any interleaving of
    interrupts, work items and migrations: in every state after a successful
    launch the interrupt is enabled, or a work item that will fetch the faults
    and enable it is queued, or the error state records that the card has failed
    (allocations of work items excepted, which would leave it disabled). *)
Theorem svm_session_armed (current current_mm : Z) (h : list svm_res) (v0 : svm_data_t T)
    (a0 : list Z) (s : life svm_res (pcie_dev T)) :
  may_fail fault_env = false -> fault_works v0 = 0%nat ->
  wf_nodes (it_nodes (vmem_intervals (dev v0))) ->
  session_reach current current_mm (mk_life h (mk_pcie (Some v0) a0)) s ->
  exists v, svm_data (state s) = Some v /\
    (Z.testbit (regs (hw (dev v)) intr_enable) 0 = true \/ (0 < fault_works v)%nat \/
     Z.testbit (error_state (dev v)) 1 = true).
Proof. intros. by eapply session_reach_armed. Qed.


End Spec.

(** ** The page fault handler services the faults as assumed *)
Section Handler.
Context {T : Type} {IT : IntervalTree T} {TL : IntervalTreeLaws T}.
Variables (poll_fuel busy_fuel fuel : nat).
Variable page_of : Z -> option Z.
Variable migrating : Z -> bool.
Variables retry_cnt res0 : Z.
Variable dma_of : Z -> Z.
Variable populated : Z -> bool.
Variable tick : Z.
Variable ds : list Z.
Variable base : Z -> Z.
Variable sort : list Z -> list Z.
Variable bus : list Placement.bus_dev.
Variables my_mm d : Z.
Hypothesis platform : SvmCopy.platform_ok poll_fuel dma_of tick.
Hypothesis retry_ok : - 2 ^ 31 <= retry_cnt < 2 ^ 31 - 1.
Hypothesis res0_ok : res0 <> 0.
Hypothesis bus_ds : map Placement.pdev_id (List.filter (Placement.is_peer my_mm) bus) = ds.
Hypothesis ds_nodup : NoDup ds.
Hypothesis d_in : d ∈ ds.
Hypothesis sort_perm : forall l, Permutation (sort l) l.

(** The outcomes of the loop of handle_iommu_page_fault, as far as its device is
    concerned. *)
Definition handler_runs (c : svm_dev T) (ok : bool) (c' : svm_dev T) : Prop :=
  exists (vaddrs : list Z) (s s' : sys T) (res : Z),
    devs s d = c /\ (SvmSys.busy s < fuel)%nat /\ length vaddrs = 48%nat /\
    SvmSys.mm s = SvmSys.mm_unlocked /\
    Movers.svm_inv busy_fuel ds base (SvmSys.set_mm SvmSys.mm_locked s) /\
    outcome (SvmSys.svm_model page_of dma_of populated tick (SvmSys.mk_faults false false))
      (PageFault.fault_loop
         (Mig := Movers.driver poll_fuel busy_fuel page_of migrating retry_cnt res0)
         sort bus my_mm fuel d vaddrs 0) s res s' /\
    devs s' d = c' /\ ok = (res =? 0).

#[export] Instance handler_service : FaultService T.
Proof using All.
  assert (forall c ok c', handler_runs c ok c' -> exists (s s' : sys T) res, devs s d = c /\
    devs s' d = c' /\ ok = (res =? 0) /\
    Movers.svm_inv busy_fuel ds base (SvmSys.set_mm SvmSys.mm_locked s') /\
    PageFault.handled d res s s') as Hspec.
  { intros c ok c' (vaddrs & s & s' & res & <- & Hb & Hl & Hmm & Hinv & Ho & <- & ->).
    eapply wp_outcome in Ho.
    2:{ by apply (PageFault.fault_loop_spec (Mig := Movers.driver poll_fuel busy_fuel page_of
          migrating retry_cnt res0) page_of dma_of populated tick (SvmSys.mk_faults false false) ds
          (Movers.svm_inv busy_fuel ds base) (ML := Movers.driver_laws poll_fuel busy_fuel page_of
            migrating retry_cnt res0 dma_of populated tick ds base platform retry_ok res0_ok)). }
    destruct Ho as (_ & Hi & _ & _ & _ & Hh). by exists s, s', res. }
  refine {| serviced := handler_runs |}.
  - intros c ok c' Hr _. destruct (Hspec _ _ _ Hr) as (s & s' & res & _ & <- & _ & Hi & _).
    by apply (Movers.si_wf _ _ _ _ Hi d d_in).
  - intros c ok c' (vaddrs & s & s' & res & <- & _ & _ & _ & _ & Ho & <- & _).
    eapply (outcome_rel _ PageFault.mmu_grows (PreOrder0 := PageFault.mmu_grows_preorder)) in Ho;
      [exact (Ho d)|].
    intros X e t x t'. apply PageFault.post_mmu_grows.
  - intros c c' Hr. destruct (Hspec _ _ _ Hr) as (s & s' & res & _ & <- & Hok & _ & vs & _ & _ & _ & Hf).
    apply Hf. intros ->. done.
Defined.

End Handler.

(** ** Witnesses *)
Definition demo_card : hw_dev := mk_hw (fun _ => 0) [] [] [].
Definition demo_start : life svm_res (pcie_dev ListTree.tree) := mk_life [] (mk_pcie None []).

Lemma pcie_init_svm_correct_witness :
  wp (life_model (fun _ => true)) (pcie_init_svm demo_card 4294967296 0 0) demo_start
    (fun res s' => res < 0 /\ s' = demo_start \/ res = 0 /\ length (held s') = 11%nat).
Proof.
  eapply wp_mono.
  - apply (pcie_init_svm_correct (fun _ => true) demo_card 4294967296 0 0 demo_start);
      vm_compute; intros H; discriminate H.
  - simpl. intros res s' [H|(-> & Hh & _)]; [by left|right]. split; [done|]. by rewrite Hh.
Defined.

Definition demo_data : svm_data_t ListTree.tree :=
  mk_data (new_dev demo_card 1048576 0 0) 0 0 false 0 0 0.

(** A session in which a page fault has been reported. *)
Lemma demo_session (may_fail : svm_res -> bool) :
  session_reach may_fail 1 2 (mk_life [] (mk_pcie (Some demo_data) []))
    (mk_life [fault_env; notifier_registered; notifier_mem]
       (mk_pcie (Some (set_works 1 (wr intr_enable MMU_ISSUE_FAULT_ENABLE
                                      (launched 1 2 demo_data)))) [PAGE_FAULT_IRQ_NO])).
Proof.
  apply (session_more may_fail 1 2 _
    (mk_life [notifier_registered; notifier_mem] (mk_pcie (Some (launched 1 2 demo_data)) [])));
    [apply session_launch|apply step_fault].
  - exact (run_outcome (life_model may_fail) granting (pcie_launch_svm 1 2) _ _
             (granting_post may_fail) (pcie_launch_svm_spec may_fail 1 2 [] demo_data [])).
  - exact (run_outcome (life_model may_fail) granting iommu_page_fault_handler _ _
             (granting_post may_fail) (iommu_page_fault_handler_spec may_fail _ _ [])).
Qed.

Lemma demo_wf : wf_nodes (it_nodes (vmem_intervals (dev demo_data))).
Proof. apply wf_nodes_nil. Qed.

Lemma svm_session_armed_witness :
  (0 < fault_works (set_works 1 (wr intr_enable MMU_ISSUE_FAULT_ENABLE
                                   (launched 1 2 demo_data))))%nat /\
  exists v, Some (set_works 1 (wr intr_enable MMU_ISSUE_FAULT_ENABLE
                                 (launched 1 2 demo_data))) = Some v /\
    (Z.testbit (regs (hw (dev v)) intr_enable) 0 = true \/ (0 < fault_works v)%nat \/
     Z.testbit (error_state (dev v)) 1 = true).
Proof.
  split; [apply Nat.lt_0_succ|].
  apply (svm_session_armed (fun _ => false) 1 2 [] demo_data [] _ eq_refl eq_refl demo_wf
           (demo_session (fun _ => false))).
Defined.

(** The session of above is torn down: the queued work item finds no faults. *)
Definition demo_session_data : svm_data_t ListTree.tree :=
  set_works 1 (wr intr_enable MMU_ISSUE_FAULT_ENABLE (launched 1 2 demo_data)).

Definition demo_works : list (svm_dev ListTree.tree * bool) :=
  let c := switched_off (dev demo_session_data) in
  [(set_hw (hw_write (hw c) intr_enable 0) c, true)].

Definition demo_bus0 : list Placement.bus_dev := [Placement.mk_bus 0x10EE 0x7038 0 true 2].

Definition demo_service : FaultService ListTree.tree :=
  handler_service 1000 1 1 Some (fun _ => true) 0 7 (fun _ => 4096) (fun _ => true) 1000000 [0]
    (fun _ => 1048576) (fun l => l) demo_bus0 2 0 SvmCopy.demo_platform ltac:(lia) ltac:(lia)
    eq_refl (NoDup_singleton 0) (list_elem_of_here 0 []) (fun l => Permutation_refl l).

Lemma demo_dev_ok :
  device_ok 1048576 0 (SvmSys.mk_sys (fun _ => switched_off (dev demo_session_data)) [] [] []
    SvmSys.mm_locked 0 0 SvmSys.no_migration []).
Proof.
  destruct (new_dev_ok demo_card 4294967296 0 0 (SvmSys.mk_sys (fun _ => dev demo_data) [] [] []
    SvmSys.mm_locked 0 0 SvmSys.no_migration []) 0) as [H _]; try (vm_compute; congruence).
  exact H.
Qed.

Lemma demo_works_run :
  work_runs (FS := demo_service) (switched_off (dev demo_session_data)) demo_works.
Proof.
  split; [|done]. set (c := switched_off (dev demo_session_data)).
  set (s := SvmSys.mk_sys (fun _ => c) [] [] [] SvmSys.mm_unlocked 0 0 SvmSys.no_migration []).
  set (s' := SvmSys.upd 0 (fun c => set_hw (hw_write (hw c) intr_enable 0) c) s).
  exists (replicate 48 0), s, s', 0.
  split_and!; [done|apply Nat.lt_0_1|done|done| |
    |done|done].
  - assert (forall x, x ∈ [0] -> x = 0) as H0 by (intros x; by rewrite list_elem_of_singleton).
    split.
    + done.
    + apply Nat.lt_0_1.
    + intros x ->%H0. exact demo_dev_ok.
    + intros x ->%H0. vm_compute. split; congruence.
    + intros x ->%H0. apply wf_nodes_nil.
    + intros a b x ->%H0 ->%H0. done.
  - exists tt, s'. split; [done|]. exists 0, s'.
    split; [|done]. split; [lia|]. split; [done|]. by exists 0%nat.
Qed.


End SvmLife.
