(* ===== verification/Access.v ===== *)
(** * Devices of the module and who may use them
      (tlkm/tlkm_bus.c, tlkm/tlkm_device.c, tlkm/tlkm_ioctl.c, tlkm/tlkm.c)

    User space opens the main device file and creates devices on it, in
    exclusive, shared or monitoring mode; the file remembers what it has
    created, and closing it gives everything back.  This file models the list
    of devices with its walk, the reference counts of a device, the commands of
    the main file and its open and release operations, and proves that the
    counts are those of the files and that exclusive use excludes any other but
    monitoring. *)
From S2P Require Import Prelude.

Module Access.

Definition TLKM_ACCESS_EXCLUSIVE : Z := 0.
Definition TLKM_ACCESS_MONITOR : Z := 1.
Definition TLKM_ACCESS_SHARED : Z := 2.
Definition TLKM_ACCESS_TYPES : Z := 3.
Definition TLKM_DEVNAME_SZ : nat := 30.
Definition TLKM_DEVS_SZ : Z := 10.

(** ** State *)

(** struct tlkm_device, as far as the main file uses it; a name is its bytes. *)
Record tlkm_device := mk_device {
  dev_id : Z;
  name : list Z;
  vendor_id : Z;
  product_id : Z;
  ref_cnt : list Z
}.

(** A pointer to a device; [HEAD] is the address container_of gives for the head
    of the list, which is not a device. *)
Definition NULL : Z := 0.
Definition HEAD : Z := 1.

(** struct tlkm_ioctl_dev_list_entry *)
Notation entry := (Z * Z)%type.

(** The bus with its devices, and the open files with their lists. *)
Record tlkm := mk_tlkm {
  bus : list Z;
  num_devs : Z;
  devices : gmap Z tlkm_device;
  files : gmap Z (list entry);
  opened_counter : Z
}.

Definition set_devices (m : gmap Z tlkm_device) (s : tlkm) : tlkm :=
  mk_tlkm (bus s) (num_devs s) m (files s) (opened_counter s).
Definition set_files (m : gmap Z (list entry)) (s : tlkm) : tlkm :=
  mk_tlkm (bus s) (num_devs s) (devices s) m (opened_counter s).

(** ** tlkm_bus.c *)

Definition tlkm_bus_add_device (p : Z) (d : tlkm_device) (s : tlkm) : tlkm :=
  mk_tlkm (bus s ++ [p]) (u64 (num_devs s + 1))
    (<[p := mk_device (u32 (num_devs s)) (name d) (vendor_id d) (product_id d) (ref_cnt d)]>
       (devices s)) (files s) (opened_counter s).

Definition tlkm_bus_del_device (p : Z) (s : tlkm) : tlkm :=
  mk_tlkm (filter (fun q => q <> p) (bus s)) (u64 (num_devs s - 1)) (devices s) (files s)
    (opened_counter s).

Definition tlkm_bus_num_devices (s : tlkm) : Z := num_devs s.

(** The nodes of the circular list, from devices.next on; the head is last. *)
Definition ring (s : tlkm) : list Z := bus s ++ [HEAD].

(** list_empty of any node of the ring: it is its own successor. *)
Definition list_empty (s : tlkm) : bool := match bus s with [] => true | _ => false end.

(** while (!list_empty(lh) && idx > 0) { lh = lh->next; --idx; } on positions *)
Fixpoint walk (s : tlkm) (lh : nat) (idx : nat) : nat :=
  match idx with
  | O => lh
  | S idx' => if list_empty s then lh else walk s (S lh mod length (ring s))%nat idx'
  end.

Definition tlkm_bus_get_device (s : tlkm) (idx : Z) : Z :=
  if list_empty s then NULL else nth (walk s 0 (Z.to_nat idx)) (ring s) NULL.

(** ** tlkm_device.c

    [None] is an access outside of an object: through a pointer that is not a
    device, or behind ref_cnt. *)

Definition cnt (d : tlkm_device) (access : Z) : Z := nth (Z.to_nat access) (ref_cnt d) 0.

(** ref_cnt[access] += by, the indices of the array being below 3 *)
Definition add_ref (d : tlkm_device) (access by_ : Z) : option tlkm_device :=
  if (0 <=? access) && (access <? TLKM_ACCESS_TYPES)
  then Some (mk_device (dev_id d) (name d) (vendor_id d) (product_id d)
               (alter (fun c => u64 (c + by_)) (Z.to_nat access) (ref_cnt d)))
  else None.

Definition tlkm_device_acquire (s : tlkm) (pdev access : Z) : option (Z * tlkm) :=
  if pdev =? NULL then Some (- ENXIO, s) else
  d ← devices s !! pdev;
  let ret :=
    if nonzero (cnt d TLKM_ACCESS_EXCLUSIVE) && negb (access =? TLKM_ACCESS_MONITOR)
    then - EBUSY else 0 in
  let ret :=
    if nonzero (cnt d TLKM_ACCESS_SHARED) && (access =? TLKM_ACCESS_EXCLUSIVE)
    then - EBUSY else ret in
  if ret =? 0
  then d' ← add_ref d access 1; Some (ret, set_devices (<[pdev := d']> (devices s)) s)
  else Some (ret, s).

Definition tlkm_device_release (s : tlkm) (pdev access : Z) : option tlkm :=
  if pdev =? NULL then Some s else
  d ← devices s !! pdev;
  let total_refs := foldl (fun t a => u64 (t + cnt d a)) 0 [0; 1; 2] in
  if total_refs >? 0
  then d' ← add_ref d access (-1); Some (set_devices (<[pdev := d']> (devices s)) s)
  else Some s.

(** ** tlkm.c: open and release of the main file *)

(** tlkm_miscdev_open: [fp] is the new file, [kmalloc_ok] whether its list can be
    allocated. *)
Definition tlkm_miscdev_open (s : tlkm) (fp : Z) (kmalloc_ok : bool) : Z * tlkm :=
  let s1 := mk_tlkm (bus s) (num_devs s) (devices s) (files s) (s32 (opened_counter s + 1)) in
  if kmalloc_ok then (0, set_files (<[fp := []]> (files s1)) s1) else (- ENODEV, s1).

Fixpoint release_entries (s : tlkm) (l : list entry) : option tlkm :=
  match l with
  | [] => Some s
  | (pdev, access) :: l' => s' ← tlkm_device_release s pdev access; release_entries s' l'
  end.

Definition tlkm_miscdev_release (s : tlkm) (fp : Z) : option (Z * tlkm) :=
  let s1 := mk_tlkm (bus s) (num_devs s) (devices s) (files s) (s32 (opened_counter s - 1)) in
  match files s1 !! fp with
  | None => Some (- ENODEV, s1)
  | Some l => s2 ← release_entries s1 l; Some (0, set_files (delete fp (files s2)) s2)
  end.

(** ** tlkm_ioctl.c *)

(** strncpy to an array of [n] bytes whose last byte is then cleared. *)
Definition strncpy (n : nat) (src : list Z) : list Z :=
  take (pred n) (src ++ repeat 0 n) ++ [0].

(** One struct tlkm_device_info. *)
Record device_info := mk_info {
  info_dev_id : Z; info_vendor_id : Z; info_product_id : Z; info_name : list Z
}.

(** The loop of tlkm_ioctl_enum_devices over [count] devices from [i] on: [None] is
    a write behind devs[10] or a pointer that is not a device. *)
Fixpoint enum_loop (s : tlkm) (i : Z) (count : nat) : option (Z * list device_info) :=
  match count with
  | O => Some (0, [])
  | S count' =>
      let pd := tlkm_bus_get_device s i in
      if pd =? NULL then Some (- EFAULT, []) else
      d ← devices s !! pd;
      if i >=? TLKM_DEVS_SZ then None else
      '(ret, l) ← enum_loop s (i + 1) count';
      Some (ret, mk_info (dev_id d) (vendor_id d) (product_id d)
                   (strncpy TLKM_DEVNAME_SZ (name d)) :: l)
  end.

(** The result and, when it is zero, the number and the infos user space gets. *)
Definition tlkm_ioctl_enum_devices (s : tlkm) (copy_ok : bool)
    : option (Z * (Z * list device_info)) :=
  '(ret, l) ← enum_loop s 0 (Z.to_nat (tlkm_bus_num_devices s));
  Some (if ret =? 0 then if copy_ok then 0 else - EAGAIN else ret,
        (tlkm_bus_num_devices s, l)).

Record device_cmd := mk_cmd { cmd_dev_id : Z; cmd_access : Z }.

Definition tlkm_ioctl_create_device (s : tlkm) (fp : Z) (copy_ok kmalloc_ok : bool)
    (kc : device_cmd) : option (Z * tlkm) :=
  if negb copy_ok then Some (- EACCES, s) else
  if negb kmalloc_ok then Some (- ENOMEM, s) else
  dev_list ← files s !! fp;
  let pdev := tlkm_bus_get_device s (cmd_dev_id kc) in
  '(ret, s') ← tlkm_device_acquire s pdev (cmd_access kc);
  if nonzero ret then Some (ret, s')
  else Some (ret, set_files (<[fp := (pdev, cmd_access kc) :: dev_list]> (files s')) s').

(** The first matching entry of the list, removed. *)
Fixpoint del_entry (e : entry) (l : list entry) : option (list entry) :=
  match l with
  | [] => None
  | x :: l' => if decide (x = e) then Some l' else l'' ← del_entry e l'; Some (x :: l'')
  end.

Definition tlkm_ioctl_destroy_device (s : tlkm) (fp : Z) (copy_ok : bool) (kc : device_cmd)
    : option (Z * tlkm) :=
  if negb copy_ok then Some (- EACCES, s) else
  dev_list ← files s !! fp;
  let dev := tlkm_bus_get_device s (cmd_dev_id kc) in
  match del_entry (dev, cmd_access kc) dev_list with
  | None => Some (- ENODEV, s)
  | Some dev_list' =>
      s' ← tlkm_device_release s dev (cmd_access kc);
      Some (0, set_files (<[fp := dev_list']> (files s')) s')
  end.

(** ** The invariant *)

(** All entries of all open files. *)
Definition entries (s : tlkm) : list entry := concat (map snd (map_to_list (files s))).

Definition count (e : entry) (l : list entry) : Z := Z.of_nat (length (filter (fun x => x = e) l)).

Record bus_ok (s : tlkm) : Prop := {
  bus_nodup : NoDup (bus s);
  bus_devices p : p ∈ bus s -> p <> NULL /\ p <> HEAD /\ is_Some (devices s !! p);
  bus_num : num_devs s = Z.of_nat (length (bus s));
  bus_small : Z.of_nat (length (bus s)) < 2 ^ 32;
  bus_head : devices s !! HEAD = None
}.

(** The counts of the devices are those of the entries [E]. *)
Record refs_inv (E : list entry) (s : tlkm) : Prop := {
  ri_bus : bus_ok s;
  ri_entries p a : (p, a) ∈ E -> p ∈ bus s /\ 0 <= a < TLKM_ACCESS_TYPES;
  ri_refs p d : devices s !! p = Some d -> length (ref_cnt d) = 3%nat /\
    forall a, 0 <= a < TLKM_ACCESS_TYPES -> cnt d a = count (p, a) E;
  ri_small : Z.of_nat (length E) < 2 ^ 64;
  ri_exclusive p : count (p, TLKM_ACCESS_EXCLUSIVE) E <= 1 /\
    (0 < count (p, TLKM_ACCESS_EXCLUSIVE) E -> count (p, TLKM_ACCESS_SHARED) E = 0)
}.

Definition access_inv (s : tlkm) : Prop := refs_inv (entries s) s.

(** A request tlkm_device_acquire refuses. *)
Definition busy (E : list entry) (p a : Z) : bool :=
  (0 <? count (p, TLKM_ACCESS_EXCLUSIVE) E) && negb (a =? TLKM_ACCESS_MONITOR)
  || (0 <? count (p, TLKM_ACCESS_SHARED) E) && (a =? TLKM_ACCESS_EXCLUSIVE).

(** ** Lemmas *)

(** *** Counting *)
Lemma count_cons (e x : entry) (l : list entry) :
  count e (x :: l) = (if decide (x = e) then 1 else 0) + count e l.
Proof. unfold count. rewrite filter_cons. destruct (decide (x = e)); simpl; lia. Qed.

Lemma count_app (e : entry) (l k : list entry) : count e (l ++ k) = count e l + count e k.
Proof. unfold count. rewrite filter_app, length_app. lia. Qed.

Lemma count_nonneg (e : entry) (l : list entry) : 0 <= count e l.
Proof. unfold count. lia. Qed.

Lemma count_le (e : entry) (l : list entry) : count e l <= Z.of_nat (length l).
Proof. unfold count. pose proof (length_filter (fun x => x = e) l). lia. Qed.

Lemma count_pos (e : entry) (l : list entry) : e ∈ l -> 0 < count e l.
Proof.
  induction l as [|x l IH]; intros Hin; [by apply elem_of_nil in Hin|]. rewrite count_cons.
  pose proof (count_nonneg e l). destruct (decide (x = e)); [lia|].
  apply elem_of_cons in Hin as [->|Hin]; [done|]. specialize (IH Hin). lia.
Qed.

#[export] Instance count_perm (e : entry) : Proper ((≡ₚ) ==> eq) (count e).
Proof. intros l k H. unfold count. by rewrite H. Qed.

Lemma del_entry_perm (e : entry) (l k : list entry) :
  del_entry e l = Some k -> l ≡ₚ e :: k.
Proof.
  revert k. induction l as [|x l IH]; intros k Hd; simpl in Hd; [done|].
  destruct (decide (x = e)) as [->|Hne]; [by simplify_eq|].
  destruct (del_entry e l) as [l'|]; [|done]. simplify_eq/=. rewrite (IH l') by done.
  apply Permutation_swap.
Qed.

Lemma del_entry_in (e : entry) (l : list entry) : e ∈ l -> is_Some (del_entry e l).
Proof.
  induction l as [|x l IH]; intros Hin; [by apply elem_of_nil in Hin|]. simpl.
  destruct (decide (x = e)); [by eexists|]. apply elem_of_cons in Hin as [->|Hin]; [done|].
  destruct (IH Hin) as [k ->]. by eexists.
Qed.

(** *** The entries of the files *)
Lemma entries_delete (m : gmap Z (list entry)) (fp : Z) (l : list entry) :
  m !! fp = Some l ->
  concat (map snd (map_to_list m)) ≡ₚ l ++ concat (map snd (map_to_list (delete fp m))).
Proof.
  intros H. rewrite <- (insert_delete_id m fp l) at 1 by done.
  by rewrite map_to_list_insert by (by rewrite lookup_delete_eq).
Qed.

Lemma entries_insert (m : gmap Z (list entry)) (fp : Z) (l : list entry) :
  concat (map snd (map_to_list (<[fp := l]> m))) ≡ₚ
  l ++ concat (map snd (map_to_list (delete fp m))).
Proof.
  rewrite <- insert_delete_eq. by rewrite map_to_list_insert by (by rewrite lookup_delete_eq).
Qed.

(** *** The walk over the bus *)
Lemma length_ring (s : tlkm) : length (ring s) = S (length (bus s)).
Proof. unfold ring. rewrite length_app. simpl. lia. Qed.

Lemma walk_mod (s : tlkm) (idx lh : nat) :
  bus s <> [] -> (lh <= length (bus s))%nat ->
  walk s lh idx = ((lh + idx) mod S (length (bus s)))%nat.
Proof.
  intros Hb. revert lh. induction idx as [|idx IH]; intros lh Hlh.
  - rewrite Nat.add_0_r, Nat.mod_small by lia. done.
  - simpl walk. unfold list_empty. destruct (bus s) as [|p l] eqn:Eb; [done|]. rewrite length_ring, Eb.
    assert (S lh mod S (length (p :: l)) < S (length (p :: l)))%nat as Hm
      by (apply Nat.mod_upper_bound; lia).
    rewrite IH by lia. rewrite Nat.Div0.add_mod_idemp_l. f_equal. lia.
Qed.

(** Where the walk ends for any index. *)
Lemma get_device_ring (s : tlkm) (idx : Z) :
  bus s <> [] -> 0 <= idx ->
  tlkm_bus_get_device s idx = nth (Z.to_nat idx mod S (length (bus s))) (ring s) NULL.
Proof.
  intros Hb Hi. unfold tlkm_bus_get_device, list_empty.
  destruct (bus s) eqn:E; [done|]. rewrite <- E.
  rewrite walk_mod by (rewrite E; simpl; done || lia). done.
Qed.

Lemma get_device_valid (s : tlkm) (idx : Z) :
  0 <= idx < Z.of_nat (length (bus s)) ->
  bus s !! Z.to_nat idx = Some (tlkm_bus_get_device s idx).
Proof.
  intros Hi. rewrite get_device_ring; [|intros E; rewrite E in Hi; simpl in Hi; lia|lia].
  rewrite Nat.mod_small by lia. unfold ring. rewrite app_nth1 by lia.
  destruct (lookup_lt_is_Some_2 (bus s) (Z.to_nat idx)) as [p Hp]; [lia|].
  rewrite Hp. f_equal. symmetry. by apply nth_lookup_Some.
Qed.

(** *** Reference counts *)
Lemma cnt_range (E : list entry) (s : tlkm) (p a : Z) (d : tlkm_device) :
  refs_inv E s -> devices s !! p = Some d -> 0 <= a < TLKM_ACCESS_TYPES ->
  0 <= cnt d a < 2 ^ 64.
Proof.
  intros H Hd Ha. destruct (ri_refs _ _ H p d Hd) as [_ Hc]. rewrite Hc by done.
  pose proof (count_nonneg (p, a) E). pose proof (count_le (p, a) E).
  pose proof (ri_small _ _ H). lia.
Qed.

Lemma cnt_add_ref (d d' : tlkm_device) (a b by_ : Z) :
  length (ref_cnt d) = 3%nat -> 0 <= a < TLKM_ACCESS_TYPES -> 0 <= b < TLKM_ACCESS_TYPES ->
  add_ref d a by_ = Some d' ->
  length (ref_cnt d') = 3%nat /\
  cnt d' b = if decide (a = b) then u64 (cnt d a + by_) else cnt d b.
Proof.
  unfold TLKM_ACCESS_TYPES. intros Hl Ha Hb Hd. unfold add_ref in Hd.
  destruct (_ && _); [|done]. simplify_eq/=. split; [by rewrite length_alter|].
  unfold cnt. simpl. destruct (ref_cnt d) as [|x [|y [|z []]]]; try done.
  assert (a = 0 \/ a = 1 \/ a = 2) as [->|[->| ->]] by lia;
  assert (b = 0 \/ b = 1 \/ b = 2) as [->|[->| ->]] by lia; done.
Qed.

Lemma add_ref_some (d : tlkm_device) (a by_ : Z) :
  0 <= a < TLKM_ACCESS_TYPES -> is_Some (add_ref d a by_).
Proof.
  unfold add_ref, TLKM_ACCESS_TYPES. intros.
  destruct (Z.leb_spec 0 a), (Z.ltb_spec a 3); try lia. by eexists.
Qed.

(** Replacing the entry of one device after a change of a count. *)
Lemma refs_inv_update (E E' : list entry) (s : tlkm) (p a by_ : Z) (d d' : tlkm_device) :
  refs_inv E s -> devices s !! p = Some d -> p ∈ bus s -> 0 <= a < TLKM_ACCESS_TYPES ->
  add_ref d a by_ = Some d' ->
  (forall e, count e E' = count e E + if decide (e = (p, a)) then by_ else 0) ->
  (forall e, e ∈ E' -> e ∈ E \/ e = (p, a)) ->
  Z.of_nat (length E') < 2 ^ 64 ->
  (forall q, count (q, TLKM_ACCESS_EXCLUSIVE) E' <= 1 /\
    (0 < count (q, TLKM_ACCESS_EXCLUSIVE) E' -> count (q, TLKM_ACCESS_SHARED) E' = 0)) ->
  refs_inv E' (set_devices (<[p := d']> (devices s)) s).
Proof.
  intros H Hd Hp Ha Hadd Hc Hin Hsm Hex. pose proof (ri_bus _ _ H) as Hbus. split; simpl.
  - destruct Hbus. split; simpl; try done.
    2:{ destruct (bus_devices0 p Hp) as (_ & Hh & _). by rewrite lookup_insert_ne. }
    intros q Hq. destruct (bus_devices0 q Hq) as (? & ? & ?). split; [done|]. split; [done|].
    destruct (decide (p = q)) as [->|]; [rewrite lookup_insert_eq; by eexists|].
    by rewrite lookup_insert_ne.
  - intros q b Hq. destruct (Hin _ Hq) as [?|[= -> ->]]; [by apply (ri_entries _ _ H)|done].
  - intros q d2 Hq. destruct (decide (p = q)) as [<-|Hne].
    + rewrite lookup_insert_eq in Hq. simplify_eq. destruct (ri_refs _ _ H p d Hd) as [Hl Hr].
      split; [by destruct (cnt_add_ref d d2 a 0 by_)|]. intros b Hb.
      destruct (cnt_add_ref d d2 a b by_) as [_ ->]; try done. rewrite Hc.
      destruct (decide (a = b)) as [->|].
      * rewrite decide_True by done. rewrite Hr by done. rewrite u64_small; [done|].
        pose proof (count_nonneg (p, b) E'). pose proof (count_le (p, b) E').
        rewrite Hc, decide_True in * by done. lia.
      * rewrite decide_False by congruence. rewrite Hr by done. lia.
    + rewrite lookup_insert_ne in Hq by done. destruct (ri_refs _ _ H q d2 Hq) as [Hl Hr].
      split; [done|]. intros b Hb. rewrite Hr, Hc by done. rewrite decide_False by congruence. lia.
  - done.
  - done.
Qed.

Lemma acquire_spec (E : list entry) (s : tlkm) (p a : Z) :
  refs_inv E s -> p ∈ bus s -> 0 <= a < TLKM_ACCESS_TYPES ->
  Z.of_nat (length E) < 2 ^ 64 - 1 ->
  if busy E p a then tlkm_device_acquire s p a = Some (- EBUSY, s)
  else exists d', tlkm_device_acquire s p a = Some (0, set_devices (<[p := d']> (devices s)) s) /\
         refs_inv ((p, a) :: E) (set_devices (<[p := d']> (devices s)) s).
Proof.
  intros H Hp Ha Hsm. destruct (bus_devices _ (ri_bus _ _ H) p Hp) as (Hn & _ & [d Hd]).
  unfold tlkm_device_acquire. rewrite (proj2 (Z.eqb_neq _ _) Hn), Hd. simpl.
  destruct (ri_refs _ _ H p d Hd) as [_ Hr].
  rewrite !Hr by (unfold TLKM_ACCESS_TYPES; done). unfold busy, nonzero.
  pose proof (count_nonneg (p, TLKM_ACCESS_EXCLUSIVE) E) as N0.
  pose proof (count_nonneg (p, TLKM_ACCESS_SHARED) E) as N2.
  destruct (add_ref_some d a 1 Ha) as [d' Hd'].
  assert (a = 0 \/ a = 1 \/ a = 2) as Hcase by (unfold TLKM_ACCESS_TYPES in Ha; lia).
  assert ((a = 0 -> count (p, TLKM_ACCESS_EXCLUSIVE) E = 0 /\ count (p, TLKM_ACCESS_SHARED) E = 0) ->
          (a = 2 -> count (p, TLKM_ACCESS_EXCLUSIVE) E = 0) ->
          refs_inv ((p, a) :: E) (set_devices (<[p := d']> (devices s)) s)) as Hgo.
  { intros H0 H2. apply (refs_inv_update E _ s p a 1 d d'); try done.
    - intros e. rewrite count_cons. repeat case_decide; congruence || lia.
    - intros e. rewrite elem_of_cons. tauto.
    - simpl length. lia.
    - intros q. destruct (ri_exclusive _ _ H q) as [He Hs]. rewrite !count_cons.
      unfold TLKM_ACCESS_EXCLUSIVE, TLKM_ACCESS_SHARED in *.
      repeat case_decide; simplify_eq/=; lia. }
  unfold TLKM_ACCESS_EXCLUSIVE, TLKM_ACCESS_SHARED, TLKM_ACCESS_MONITOR in *.
  set (c0 := count (p, 0) E) in *. set (c2 := count (p, 2) E) in *.
  destruct (Z.eqb_spec c0 0), (Z.ltb_spec 0 c0), (Z.eqb_spec c2 0), (Z.ltb_spec 0 c2); try lia;
  rewrite Hd'; clearbody c0 c2; destruct Hcase as [->|[->| ->]]; simpl; try done;
    (exists d'; split; [done|]; apply Hgo; lia).
Qed.

Lemma refs_inv_perm (E E' : list entry) (s : tlkm) : E ≡ₚ E' -> refs_inv E s -> refs_inv E' s.
Proof.
  intros HE H. destruct H as [Hb He Hr Hs Hx]. split; try done.
  - intros p a. rewrite <- HE. apply He.
  - intros p d Hd. destruct (Hr p d Hd) as [? Hc]. split; [done|]. intros a Ha. rewrite <- HE. auto.
  - by rewrite <- HE.
  - intros p. rewrite <- HE. apply Hx.
Qed.

Lemma refs_inv_files (E : list entry) (s : tlkm) (m : gmap Z (list entry)) :
  refs_inv E s -> refs_inv E (set_files m s).
Proof. intros [[] ? ? ? ?]. by split; [split|..]. Qed.

Lemma refs_inv_opened (E : list entry) (s : tlkm) (c : Z) :
  refs_inv E s -> refs_inv E (mk_tlkm (bus s) (num_devs s) (devices s) (files s) c).
Proof. intros [[] ? ? ? ?]. by split; [split|..]. Qed.

(** What the commands of the main file leave alone. *)
Definition same_bus (s s' : tlkm) : Prop :=
  bus s' = bus s /\ num_devs s' = num_devs s /\
  dom (devices s') = dom (devices s).

Lemma release_spec (E : list entry) (s : tlkm) (p a : Z) :
  refs_inv ((p, a) :: E) s ->
  exists s', tlkm_device_release s p a = Some s' /\ refs_inv E s' /\ files s' = files s /\
    same_bus s s'.
Proof.
  intros H. destruct (ri_entries _ _ H p a) as [Hp Ha]; [by left|].
  destruct (bus_devices _ (ri_bus _ _ H) p Hp) as (Hn & _ & [d Hd]).
  destruct (ri_refs _ _ H p d Hd) as [_ Hr].
  assert (0 < cnt d a) as Hpos by (rewrite Hr by done; apply count_pos; by left).
  pose proof (cnt_range _ s p 0 d H Hd ltac:(unfold TLKM_ACCESS_TYPES; lia)) as R0.
  pose proof (cnt_range _ s p 1 d H Hd ltac:(unfold TLKM_ACCESS_TYPES; lia)) as R1.
  pose proof (cnt_range _ s p 2 d H Hd ltac:(unfold TLKM_ACCESS_TYPES; lia)) as R2.
  assert (cnt d 0 + cnt d 1 + cnt d 2 < 2 ^ 64) as Hsum.
  { rewrite !Hr by (unfold TLKM_ACCESS_TYPES; lia).
    eapply Z.le_lt_trans; [|apply (ri_small _ _ H)].
    generalize ((p, a) :: E). intros L. induction L as [|x L IH]; [done|].
    rewrite !count_cons. simpl length. repeat case_decide; simplify_eq; lia. }
  unfold tlkm_device_release. rewrite (proj2 (Z.eqb_neq _ _) Hn), Hd. simpl.
  rewrite (u64_small (0 + cnt d 0)) by lia. rewrite (u64_small (0 + cnt d 0 + cnt d 1)) by lia.
  rewrite (u64_small (0 + cnt d 0 + cnt d 1 + cnt d 2)) by lia.
  assert (0 < 0 + cnt d 0 + cnt d 1 + cnt d 2) as Ht.
  { assert (a = 0 \/ a = 1 \/ a = 2) as [->|[->| ->]]; unfold TLKM_ACCESS_TYPES in *; lia. }
  rewrite Z.gtb_ltb, (proj2 (Z.ltb_lt _ _) Ht).
  destruct (add_ref_some d a (-1) Ha) as [d' Hd']. rewrite Hd'. simpl.
  eexists. split; [done|]. split; [|split; [done|]].
  - apply (refs_inv_update ((p, a) :: E) E s p a (-1) d d'); try done.
    + intros e. rewrite count_cons. repeat case_decide; congruence || lia.
    + intros e He. left. by right.
    + pose proof (ri_small _ _ H). simpl length in *. lia.
    + intros q. destruct (ri_exclusive _ _ H q) as [He Hs].
      rewrite (count_cons (q, TLKM_ACCESS_EXCLUSIVE)) in He, Hs.
      rewrite (count_cons (q, TLKM_ACCESS_SHARED)) in Hs.
      pose proof (count_nonneg (q, TLKM_ACCESS_SHARED) E).
      pose proof (count_nonneg (q, TLKM_ACCESS_EXCLUSIVE) E).
      unfold TLKM_ACCESS_EXCLUSIVE, TLKM_ACCESS_SHARED in *.
      repeat case_decide; simplify_eq; lia.
  - split; [done|]. split; [done|]. simpl. rewrite dom_insert_L.
    assert (p ∈ dom (devices s)) by (apply elem_of_dom; by eexists). set_solver.
Qed.

Lemma release_entries_spec (l E : list entry) (s : tlkm) :
  refs_inv (l ++ E) s ->
  exists s', release_entries s l = Some s' /\ refs_inv E s' /\ files s' = files s /\ same_bus s s'.
Proof.
  revert s. induction l as [|[p a] l IH]; intros s H; simpl.
  { exists s. by split_and!. }
  destruct (release_spec (l ++ E) s p a H) as (s1 & -> & Hi1 & Hf1 & (? & ? & ?)). simpl.
  destruct (IH s1 Hi1) as (s2 & -> & Hi2 & Hf2 & (? & ? & ?)).
  exists s2. split; [done|]. split; [done|]. split; [congruence|]. split_and!; congruence.
Qed.

(** *** The commands *)

(** The number of a command leads to a device, and its mode exists. *)
Definition request_ok (s : tlkm) (kc : device_cmd) : Prop :=
  tlkm_bus_get_device s (cmd_dev_id kc) ∈ bus s /\ 0 <= cmd_access kc < TLKM_ACCESS_TYPES.

(** Any number leads to a device, to the head of the list, or to NULL. *)
Lemma get_device_cases (s : tlkm) (idx : Z) :
  let p := tlkm_bus_get_device s idx in p ∈ bus s \/ p = HEAD \/ p = NULL.
Proof.
  unfold tlkm_bus_get_device. destruct (list_empty s); [by right; right|].
  destruct (nth_in_or_default (walk s 0 (Z.to_nat idx)) (ring s) NULL) as [Hin|E]; [|by right; right].
  apply list_elem_of_In in Hin. unfold ring in Hin. apply elem_of_app in Hin as [?|?]; [by left|].
  right. left. set_solver.
Qed.

Lemma get_device_bus (s : tlkm) (idx : Z) :
  bus_ok s -> 0 <= idx < num_devs s -> tlkm_bus_get_device s idx ∈ bus s.
Proof.
  intros H Hi. apply list_elem_of_lookup. eexists. apply get_device_valid.
  by rewrite <- (bus_num _ H).
Qed.

Lemma entries_lookup (s : tlkm) (fp : Z) (l : list entry) :
  files s !! fp = Some l ->
  entries s ≡ₚ l ++ concat (map snd (map_to_list (delete fp (files s)))).
Proof. apply entries_delete. Qed.

Lemma create_spec (s : tlkm) (fp : Z) (kc : device_cmd) (l : list entry) :
  access_inv s -> files s !! fp = Some l -> request_ok s kc ->
  Z.of_nat (length (entries s)) < 2 ^ 64 - 1 ->
  let p := tlkm_bus_get_device s (cmd_dev_id kc) in
  if busy (entries s) p (cmd_access kc)
  then tlkm_ioctl_create_device s fp true true kc = Some (- EBUSY, s)
  else exists s', tlkm_ioctl_create_device s fp true true kc = Some (0, s') /\ access_inv s' /\
         entries s' ≡ₚ (p, cmd_access kc) :: entries s /\ same_bus s s' /\
         files s' = <[fp := (p, cmd_access kc) :: l]> (files s).
Proof.
  intros H Hl [Hp Ha] Hsm p. fold p in Hp.
  pose proof (acquire_spec _ s p (cmd_access kc) H Hp Ha Hsm) as Hacq.
  unfold tlkm_ioctl_create_device. cbn [negb]. rewrite Hl. cbn. fold p.
  destruct (busy _ _ _); [by rewrite Hacq|]. destruct Hacq as (d' & -> & Hinv). simpl.
  eexists. split; [done|].
  assert (entries (set_files (<[fp := (p, cmd_access kc) :: l]> (files s))
                     (set_devices (<[p := d']> (devices s)) s)) ≡ₚ
          (p, cmd_access kc) :: entries s) as HE.
  { unfold entries at 1. simpl. rewrite entries_insert. simpl. constructor.
    by rewrite <- entries_lookup. }
  split; [|split; [done|split; [|done]]].
  - unfold access_inv. eapply refs_inv_perm; [by symmetry|]. by apply refs_inv_files.
  - split; [done|]. split; [done|]. simpl. rewrite dom_insert_L.
    assert (p ∈ dom (devices s)).
    { apply elem_of_dom. by destruct (bus_devices _ (ri_bus _ _ H) p Hp) as (_ & _ & ?). }
    set_solver.
Qed.

(** What a create command does when its request is not [request_ok]: the code checks
    neither the number nor the mode. *)
Lemma create_unchecked (s : tlkm) (fp : Z) (kc : device_cmd) (l : list entry) :
  access_inv s -> files s !! fp = Some l ->
  let p := tlkm_bus_get_device s (cmd_dev_id kc) in
  (p = NULL -> tlkm_ioctl_create_device s fp true true kc = Some (- ENXIO, s)) /\
  (p = HEAD -> tlkm_ioctl_create_device s fp true true kc = None) /\
  (p ∈ bus s -> ~ 0 <= cmd_access kc < TLKM_ACCESS_TYPES ->
   tlkm_ioctl_create_device s fp true true kc
   = if busy (entries s) p (cmd_access kc) then Some (- EBUSY, s) else None).
Proof.
  intros H Hl p. unfold tlkm_ioctl_create_device. cbn [negb]. rewrite Hl. cbn. fold p. split; [|split].
  - intros ->. done.
  - intros ->. unfold tlkm_device_acquire. by rewrite (bus_head _ (ri_bus _ _ H)).
  - intros Hp Ha. destruct (bus_devices _ (ri_bus _ _ H) p Hp) as (Hn & _ & [d Hd]).
    unfold tlkm_device_acquire. rewrite (proj2 (Z.eqb_neq _ _) Hn), Hd. simpl.
    destruct (ri_refs _ _ H p d Hd) as [_ Hr].
    rewrite !Hr by (unfold TLKM_ACCESS_TYPES; done). unfold busy, nonzero, add_ref.
    pose proof (count_nonneg (p, TLKM_ACCESS_EXCLUSIVE) (entries s)) as N0.
    assert ((cmd_access kc =? TLKM_ACCESS_MONITOR) = false /\ (cmd_access kc =? TLKM_ACCESS_EXCLUSIVE) = false /\
      (0 <=? cmd_access kc) && (cmd_access kc <? TLKM_ACCESS_TYPES) = false) as (-> & -> & ->).
    { unfold TLKM_ACCESS_MONITOR, TLKM_ACCESS_EXCLUSIVE, TLKM_ACCESS_TYPES in *.
      split; [lia|]. split; [lia|]. apply andb_false_iff. lia. }
    rewrite !andb_false_r, orb_false_r. simpl. rewrite !andb_true_r.
    destruct (Z.eqb_spec (count (p, TLKM_ACCESS_EXCLUSIVE) (entries s)) 0) as [->|?]; [done|].
    rewrite (proj2 (Z.ltb_lt _ _)) by lia. done.
Qed.

(** Such a command changes nothing, where it is defined. *)
Lemma create_outcome (s s' : tlkm) (fp r : Z) (kc : device_cmd) (l : list entry) :
  access_inv s -> files s !! fp = Some l -> tlkm_ioctl_create_device s fp true true kc = Some (r, s') ->
  request_ok s kc \/ s' = s.
Proof.
  intros H Hl Hc. pose proof (create_unchecked s fp kc l H Hl) as (Hnull & Hhead & Hmode).
  destruct (get_device_cases s (cmd_dev_id kc)) as [Hp|[E|E]].
  - destruct (decide (0 <= cmd_access kc < TLKM_ACCESS_TYPES)) as [Ha|Ha]; [by left|right].
    rewrite (Hmode Hp Ha) in Hc. destruct (busy _ _ _); by simplify_eq.
  - by rewrite (Hhead E) in Hc.
  - rewrite (Hnull E) in Hc. right. by simplify_eq.
Qed.

Lemma destroy_spec (s : tlkm) (fp : Z) (kc : device_cmd) (l : list entry) :
  access_inv s -> files s !! fp = Some l ->
  let e := (tlkm_bus_get_device s (cmd_dev_id kc), cmd_access kc) in
  (e ∉ l /\ tlkm_ioctl_destroy_device s fp true kc = Some (- ENODEV, s)) \/
  exists s', tlkm_ioctl_destroy_device s fp true kc = Some (0, s') /\ access_inv s' /\
    entries s ≡ₚ e :: entries s' /\ same_bus s s' /\ dom (files s') = dom (files s).
Proof.
  intros H Hl e. unfold tlkm_ioctl_destroy_device. cbn [negb]. rewrite Hl. cbn. fold e.
  destruct (del_entry e l) as [l'|] eqn:Ed.
  2: { left. split; [|done]. intros Hin. destruct (del_entry_in e l Hin). congruence. }
  right. apply del_entry_perm in Ed.
  set (rest := concat (map snd (map_to_list (delete fp (files s))))).
  assert (entries s ≡ₚ e :: (l' ++ rest)) as HE by (by rewrite (entries_lookup s fp l Hl), Ed).
  destruct (release_spec (l' ++ rest) s e.1 e.2) as (s' & Hs' & Hinv & Hf & Hb).
  { by eapply refs_inv_perm. }
  simpl in Hs'. rewrite Hs'. simpl. eexists. split; [done|].
  assert (entries (set_files (<[fp := l']> (files s')) s') ≡ₚ l' ++ rest) as HE'.
  { unfold entries. simpl. by rewrite entries_insert, Hf. }
  split; [|split; [by rewrite HE, HE'|split; [done|]]].
  - eapply refs_inv_perm; [by symmetry|]. by apply refs_inv_files.
  - simpl. rewrite dom_insert_L, Hf.
    assert (fp ∈ dom (files s)) by (apply elem_of_dom; by eexists). set_solver.
Qed.

Lemma close_spec (s : tlkm) (fp : Z) (l : list entry) :
  access_inv s -> files s !! fp = Some l ->
  exists s', tlkm_miscdev_release s fp = Some (0, s') /\ access_inv s' /\
    entries s ≡ₚ l ++ entries s' /\ same_bus s s' /\ files s' = delete fp (files s).
Proof.
  intros H Hl. unfold tlkm_miscdev_release. cbn [files]. rewrite Hl.
  set (rest := concat (map snd (map_to_list (delete fp (files s))))).
  pose proof (entries_lookup s fp l Hl) as HE.
  edestruct (release_entries_spec l rest) as (s' & -> & Hinv & Hf & Hb).
  { apply refs_inv_opened. by eapply refs_inv_perm. }
  simpl in Hf, Hb. simpl. eexists. split; [done|].
  assert (entries (set_files (delete fp (files s')) s') ≡ₚ rest) as HE'.
  { unfold entries. simpl. by rewrite Hf. }
  split; [|split; [by rewrite HE, HE'|split; [done|simpl; by rewrite Hf]]].
  eapply refs_inv_perm; [by symmetry|]. by apply refs_inv_files.
Qed.

Lemma open_spec (s : tlkm) (fp : Z) (ok : bool) :
  access_inv s -> files s !! fp = None ->
  let s' := snd (tlkm_miscdev_open s fp ok) in
  access_inv s' /\ entries s' ≡ₚ entries s /\ same_bus s s'.
Proof.
  intros H Hf. unfold tlkm_miscdev_open. destruct ok; simpl.
  - assert (entries (set_files (<[fp := []]> (files s))
      (mk_tlkm (bus s) (num_devs s) (devices s) (files s) (s32 (opened_counter s + 1))))
      ≡ₚ entries s) as HE.
    { unfold entries. simpl. rewrite map_to_list_insert by done. done. }
    split; [|done]. eapply refs_inv_perm; [by symmetry|].
    apply refs_inv_files. by apply refs_inv_opened.
  - split; [|done]. by apply refs_inv_opened.
Qed.

(** ** Interleavings of the files *)

(** What user space does, with any arguments, each command that is defined being one
    step; a new entry is an object in memory, so there are fewer than 2^64 of them. *)
Inductive access_step : tlkm -> tlkm -> Prop :=
| do_open (s : tlkm) (fp : Z) (ok : bool) :
    files s !! fp = None -> access_step s (snd (tlkm_miscdev_open s fp ok))
| do_close (s s' : tlkm) (fp r : Z) :
    is_Some (files s !! fp) -> tlkm_miscdev_release s fp = Some (r, s') -> access_step s s'
| do_create (s s' : tlkm) (fp r : Z) (copy_ok kmalloc_ok : bool) (kc : device_cmd) :
    is_Some (files s !! fp) -> Z.of_nat (length (entries s)) < 2 ^ 64 - 1 ->
    tlkm_ioctl_create_device s fp copy_ok kmalloc_ok kc = Some (r, s') -> access_step s s'
| do_destroy (s s' : tlkm) (fp r : Z) (copy_ok : bool) (kc : device_cmd) :
    is_Some (files s !! fp) ->
    tlkm_ioctl_destroy_device s fp copy_ok kc = Some (r, s') -> access_step s s'.

(** The module after its devices have been found: nobody uses them. *)
Definition unused (s : tlkm) : Prop :=
  bus_ok s /\ files s = ∅ /\ forall p d, devices s !! p = Some d -> ref_cnt d = [0; 0; 0].

Lemma unused_inv (s : tlkm) : unused s -> access_inv s.
Proof.
  intros (Hb & Hf & Hr). assert (entries s = []) as HE.
  { unfold entries. by rewrite Hf, map_to_list_empty. }
  unfold access_inv. rewrite HE. split; try done.
  - intros p a Hin. by apply elem_of_nil in Hin.
  - intros p d Hd. unfold cnt. rewrite (Hr p d Hd). split; [done|]. unfold TLKM_ACCESS_TYPES.
    intros a Ha. assert (a = 0 \/ a = 1 \/ a = 2) as [->|[->| ->]] by lia; done.
Qed.

Lemma access_step_inv (s s' : tlkm) : access_inv s -> access_step s s' -> access_inv s'.
Proof.
  intros H. destruct 1 as [s fp ok Hf|s s' fp r [l Hl] Hs|s s' fp r c k kc [l Hl] Hsm Hs
    |s s' fp r c kc [l Hl] Hs].
  - by apply open_spec.
  - destruct (close_spec s fp l H Hl) as (s1 & E & Hi & _). rewrite Hs in E. by simplify_eq.
  - destruct c; [|unfold tlkm_ioctl_create_device in Hs; by simplify_eq/=].
    destruct k; [|unfold tlkm_ioctl_create_device in Hs; by simplify_eq/=].
    destruct (create_outcome s s' fp r kc l H Hl Hs) as [Hok| ->]; [|done].
    pose proof (create_spec s fp kc l H Hl Hok Hsm) as Hc. simpl in Hc.
    destruct (busy _ _ _); [rewrite Hs in Hc; by simplify_eq|].
    destruct Hc as (s1 & E & Hi & _). rewrite Hs in E. by simplify_eq.
  - destruct c; [|unfold tlkm_ioctl_destroy_device in Hs; by simplify_eq/=].
    destruct (destroy_spec s fp kc l H Hl) as [[_ E]|(s1 & E & Hi & _)]; rewrite Hs in E;
      by simplify_eq.
Qed.

Lemma access_reach_inv (s0 s : tlkm) : unused s0 -> rtc access_step s0 s -> access_inv s.
Proof.
  intros H0 Hr. revert s Hr. apply rtc_ind_r; [by apply unused_inv|].
  intros x y _ Hxy Hx. by eapply access_step_inv.
Qed.

(** ** Properties *)

(** C35: Whatever the open files do, in any order, as long as no create command leaves
    the objects it works on, the reference counts of a device are the numbers of
    entries of all files for it, a device has at most one exclusive user, and while
    it has one nobody shares it.  Which commands do leave them is stated exactly: the
    code checks neither the number of the device nor the access mode, so a number
    that leads to the head of the list, or a mode that is not one of the three for a
    device without exclusive user, reads and writes outside of the device.  The other
    commands never touch anything but the device they name, and do what the access
    modes promise: creating a device fails with -EBUSY exactly when an exclusive user
    is in the way, or a shared one of an exclusive request, changing nothing, and
    otherwise adds one entry and one reference; destroying takes back one entry of
    this file, or reports -ENODEV; closing the file takes back all its entries.  In
    every case the counts stay those of the entries.  A number below the number of
    devices always leads to a device; commands are executed one at a time. *)
Theorem device_access_exclusive (s0 s : tlkm) :
  unused s0 -> rtc access_step s0 s ->
  (forall p d, devices s !! p = Some d ->
     (forall a, 0 <= a < TLKM_ACCESS_TYPES -> cnt d a = count (p, a) (entries s)) /\
     cnt d TLKM_ACCESS_EXCLUSIVE <= 1 /\
     (0 < cnt d TLKM_ACCESS_EXCLUSIVE -> cnt d TLKM_ACCESS_SHARED = 0)) /\
  (forall idx, 0 <= idx < num_devs s -> tlkm_bus_get_device s idx ∈ bus s) /\
  (forall fp l kc, files s !! fp = Some l ->
     let p := tlkm_bus_get_device s (cmd_dev_id kc) in
     (p ∈ bus s \/ p = HEAD \/ p = NULL) /\
     (p = NULL -> tlkm_ioctl_create_device s fp true true kc = Some (- ENXIO, s)) /\
     (p = HEAD -> tlkm_ioctl_create_device s fp true true kc = None) /\
     (p ∈ bus s -> ~ 0 <= cmd_access kc < TLKM_ACCESS_TYPES ->
      tlkm_ioctl_create_device s fp true true kc
      = if busy (entries s) p (cmd_access kc) then Some (- EBUSY, s) else None)) /\
  (forall fp l kc, files s !! fp = Some l -> request_ok s kc -> Z.of_nat (length (entries s)) < 2 ^ 64 - 1 ->
     let p := tlkm_bus_get_device s (cmd_dev_id kc) in
     let e := (p, cmd_access kc) in
     (if busy (entries s) p (cmd_access kc)
      then tlkm_ioctl_create_device s fp true true kc = Some (- EBUSY, s)
      else exists s', tlkm_ioctl_create_device s fp true true kc = Some (0, s') /\
             access_inv s' /\ entries s' ≡ₚ e :: entries s /\ same_bus s s') /\
     ((e ∉ l /\ tlkm_ioctl_destroy_device s fp true kc = Some (- ENODEV, s)) \/
      exists s', tlkm_ioctl_destroy_device s fp true kc = Some (0, s') /\
        access_inv s' /\ entries s ≡ₚ e :: entries s' /\ same_bus s s') /\
     exists s', tlkm_miscdev_release s fp = Some (0, s') /\
       access_inv s' /\ entries s ≡ₚ l ++ entries s' /\ same_bus s s' /\ files s' !! fp = None).
Proof.
  intros H0 Hr. pose proof (access_reach_inv s0 s H0 Hr) as H. split; [|split; [|split]].
  2:{ intros idx Hi. by apply get_device_bus; [apply H|]. }
  2:{ intros fp l kc Hl p. split; [apply get_device_cases|]. by apply (create_unchecked s fp kc l). }
  { intros p d Hd. destruct (ri_refs _ _ H p d Hd) as [_ Hc]. split; [done|].
    rewrite !Hc by done. apply (ri_exclusive _ _ H). }
  intros fp l kc Hl Hok Hsm p e. split; [|split].
  - pose proof (create_spec s fp kc l H Hl Hok Hsm) as Hc. simpl in Hc. fold p in Hc.
    destruct (busy _ _ _); [done|]. destruct Hc as (s' & ? & ? & ? & ? & _). by exists s'.
  - destruct (destroy_spec s fp kc l H Hl) as [?|(s' & ? & ? & ? & ? & _)]; [by left|right].
    by exists s'.
  - destruct (close_spec s fp l H Hl) as (s' & ? & ? & ? & ? & Hf). exists s'.
    rewrite Hf, lookup_delete_eq. done.
Qed.

(** tlkm_bus_get_device finds the device with an index below the number of
    devices; for an index that is too large it does not answer NULL, as its error
    message expects, but goes round the list: the first such index gives the
    address computed from the head of the list, the next ones the devices again. *)
Theorem tlkm_bus_get_device_wraps (s : tlkm) (idx : Z) :
  bus s <> [] -> 0 <= idx ->
  let n := Z.of_nat (length (bus s)) in
  (idx mod (n + 1) = n -> tlkm_bus_get_device s idx = HEAD) /\
  (idx mod (n + 1) < n -> bus s !! Z.to_nat (idx mod (n + 1)) = Some (tlkm_bus_get_device s idx)).
Proof.
  intros Hb Hi n. rewrite get_device_ring by done.
  assert (Z.to_nat idx mod S (length (bus s)) = Z.to_nat (idx mod (n + 1)))%nat as ->.
  { rewrite Z2Nat.inj_mod by (subst n; lia). f_equal. subst n. lia. }
  pose proof (Z.mod_pos_bound idx (n + 1) ltac:(lia)) as Hm. unfold ring.
  split; intros E.
  - rewrite E. subst n. rewrite Nat2Z.id.
    by rewrite app_nth2, Nat.sub_diag by lia.
  - rewrite app_nth1 by lia.
    destruct (lookup_lt_is_Some_2 (bus s) (Z.to_nat (idx mod (n + 1)))) as [p Hp]; [lia|].
    rewrite Hp. f_equal. symmetry. by apply nth_lookup_Some.
Qed.

(** ** Witnesses: two devices, one file, one exclusive user *)
Definition demo_device (i : Z) : tlkm_device := mk_device i [122; 121; 110; 113] 0 0 [0; 0; 0].
Definition demo : tlkm :=
  mk_tlkm [4096; 8192] 2 (<[4096 := demo_device 0]> (<[8192 := demo_device 1]> ∅)) ∅ 0.

Lemma demo_unused : unused demo.
Proof.
  split; [split|split; [done|]].
  - apply NoDup_cons; split; [set_solver|]. apply NoDup_singleton.
  - intros p Hp. apply elem_of_cons in Hp as [->|Hp]; [by split_and!; eauto|].
    apply list_elem_of_singleton in Hp as ->. by split_and!; eauto.
  - done.
  - done.
  - done.
  - intros p d Hd. simpl in Hd. destruct (decide (p = 4096)) as [->|];
      [by simplify_map_eq|]. rewrite lookup_insert_ne in Hd by done.
    destruct (decide (p = 8192)) as [->|]; by simplify_map_eq.
Qed.

Definition demo_open : tlkm := snd (tlkm_miscdev_open demo 7 true).
Definition demo_used : tlkm :=
  match tlkm_ioctl_create_device demo_open 7 true true (mk_cmd 1 TLKM_ACCESS_EXCLUSIVE) with
  | Some (_, s) => s
  | None => demo
  end.

Lemma demo_reach : rtc access_step demo demo_used.
Proof.
  eapply rtc_l; [by apply (do_open demo 7 true)|].
  apply rtc_once, (do_create demo_open demo_used 7 0 true true (mk_cmd 1 TLKM_ACCESS_EXCLUSIVE));
    try done.
Qed.

Lemma device_access_exclusive_witness :
  (exists d, devices demo_used !! 8192 = Some d /\ cnt d TLKM_ACCESS_EXCLUSIVE = 1 /\
    cnt d TLKM_ACCESS_SHARED = 0) /\
  tlkm_ioctl_create_device demo_used 7 true true (mk_cmd 1 TLKM_ACCESS_SHARED)
    = Some (- EBUSY, demo_used).
Proof.
  destruct (device_access_exclusive demo demo_used demo_unused demo_reach) as (Hex & Hnum & Hbad & Hcmd). split.
  - eexists. split; [reflexivity|]. split; [reflexivity|]. eapply (Hex 8192 _ eq_refl). reflexivity.
  - assert (request_ok demo_used (mk_cmd 1 TLKM_ACCESS_SHARED)) as Hok
      by (split; [by apply Hnum|done]).
    destruct (Hcmd 7 [(8192, 0)] (mk_cmd 1 TLKM_ACCESS_SHARED) eq_refl Hok eq_refl) as (H & _).
    exact H.
Defined.

Lemma tlkm_bus_get_device_wraps_witness : tlkm_bus_get_device demo 2 = HEAD.
Proof.
  destruct (tlkm_bus_get_device_wraps demo 2) as [H _].
  - discriminate.
  - discriminate.
  - apply H. reflexivity.
Defined.

End Access.
