(* ===== verification/Fsp.v ===== *)
(** * The lock-free fixed-size pool (zynq/gen_fixed_size_pool.h)

    An index is handed out by scanning from [curr] with atomic increments and
    test-and-set operations, and comes back by clearing its lock and lowering
    [curr] with compare-and-exchange.  The functions are split into their atomic
    instructions; any number of threads run them in any interleaving.  Proved: no
    index is owned twice, and no free index is lost. *)
From S2P Require Import Prelude.

Module Fsp.

(** INVALID_IDX is (fsp_idx_t)(-1). *)
Definition INVALID_IDX : Z := 2 ^ 32 - 1.

(** struct PRE##_fsp_t without the elements. *)
Record fsp := mk_fsp { locked : list bool; refcnt : list Z; curr : Z }.

(** Where a thread is inside PRE##_fsp_get or PRE##_fsp_put. *)
Inductive pc :=
| get_next                       (* __atomic_fetch_add(&fsp->curr, 1) *)
| get_test (ret : Z)             (* __atomic_test_and_set(&fsp->locked[ret]) *)
| put_ref (idx : Z)              (* __atomic_sub_fetch(&fsp->refcnt[idx], 1) *)
| put_clear (idx : Z)            (* __atomic_clear(&fsp->locked[idx]) *)
| put_read (idx : Z)             (* old = fsp->curr *)
| put_swap (idx old : Z).        (* __atomic_compare_exchange(&fsp->curr, &old, &idx) *)

Inductive outcome :=
| Next (c : pc)
| Got (idx : Z)
| Done.

Section Pool.
Variable SZ : Z.

Definition is_locked (f : fsp) (i : Z) : bool := nth (Z.to_nat i) (locked f) false.
Definition set_locked (b : bool) (i : Z) (f : fsp) : fsp :=
  mk_fsp (<[Z.to_nat i := b]> (locked f)) (refcnt f) (curr f).

(** PRE##_fsp_init *)
Definition fsp_init : fsp :=
  mk_fsp (replicate (Z.to_nat SZ) false) (replicate (Z.to_nat SZ) 0) 0.

(** One atomic instruction with the branch that follows it.  The assertion of
    PRE##_fsp_get is not compiled, so that refcnt only goes down. *)
Definition thread_step (c : pc) (f : fsp) : fsp * outcome :=
  match c with
  | get_next =>
      let ret := curr f in
      (mk_fsp (locked f) (refcnt f) (u32 (ret + 1)),
       if ret <? SZ then Next (get_test ret) else Got INVALID_IDX)
  | get_test ret =>
      if is_locked f ret then (f, Next get_next) else (set_locked true ret f, Got ret)
  | put_ref idx =>
      (mk_fsp (locked f) (alter (fun n => s32 (n - 1)) (Z.to_nat idx) (refcnt f)) (curr f),
       Next (put_clear idx))
  | put_clear idx => (set_locked false idx f, Next (put_read idx))
  | put_read idx =>
      let old := curr f in (f, if idx <? old then Next (put_swap idx old) else Done)
  | put_swap idx old =>
      if curr f =? old then (mk_fsp (locked f) (refcnt f) idx, Done)
      else (f, Next (put_read idx))
  end.

(** PRE##_fsp_put starts with the test of its argument. *)
Definition put_start (idx : Z) : option pc := if idx <? SZ then Some (put_ref idx) else None.

(** A call that runs alone. *)
Fixpoint run_alone (fuel : nat) (c : pc) (f : fsp) : option (fsp * outcome) :=
  match fuel with
  | O => None
  | S fuel' =>
      match thread_step c f with
      | (f', Next c') => run_alone fuel' c' f'
      | r => Some r
      end
  end.

(** ** Threads *)

(** [owned] are the indices returned by get and not yet given to put. *)
Record pool := mk_pool { mem : fsp; threads : gmap nat pc; owned : list Z }.

Inductive pool_step : pool -> pool -> Prop :=
| call_get (p : pool) (t : nat) :
    threads p !! t = None ->
    pool_step p (mk_pool (mem p) (<[t := get_next]> (threads p)) (owned p))
| call_put (p : pool) (t : nat) (idx : Z) (c : pc) :
    threads p !! t = None -> idx ∈ owned p -> put_start idx = Some c ->
    pool_step p (mk_pool (mem p) (<[t := c]> (threads p)) (remove_one idx (owned p)))
| run_next (p : pool) (t : nat) (c c' : pc) (f : fsp) :
    threads p !! t = Some c -> thread_step c (mem p) = (f, Next c') ->
    pool_step p (mk_pool f (<[t := c']> (threads p)) (owned p))
| run_got (p : pool) (t : nat) (c : pc) (f : fsp) (i : Z) :
    threads p !! t = Some c -> thread_step c (mem p) = (f, Got i) ->
    pool_step p (mk_pool f (delete t (threads p))
                   (if i =? INVALID_IDX then owned p else i :: owned p))
| run_done (p : pool) (t : nat) (c : pc) (f : fsp) :
    threads p !! t = Some c -> thread_step c (mem p) = (f, Done) ->
    pool_step p (mk_pool f (delete t (threads p)) (owned p)).

Definition pool_init : pool := mk_pool fsp_init ∅ [].

(** ** The invariant *)

(** The index a thread is giving back, until it has cleared its lock. *)
Definition ret_idx (c : pc) : option Z :=
  match c with put_ref i | put_clear i => Some i | _ => None end.

(** The index a thread will either take or lower [curr] to. *)
Definition cov_idx (c : pc) : option Z :=
  match c with get_test i | put_read i | put_swap i _ => Some i | _ => None end.

Definition pc_ok (c : pc) : Prop :=
  match c with
  | get_next => True
  | get_test i | put_ref i | put_clear i | put_read i => 0 <= i < SZ
  | put_swap i old => 0 <= i < SZ /\ i < old
  end.

(** Of the memory, the positions of the threads and the owned indices: a lock is
    set for exactly one owner, be it a caller or a thread on its way, and a free
    index is not below [curr] unless a thread takes care of it. *)
Record fsp_inv (f : fsp) (cs : list pc) (own : list Z) : Prop := {
  fi_len : length (locked f) = Z.to_nat SZ;
  fi_curr : 0 <= curr f < 2 ^ 32;
  fi_pc : Forall pc_ok cs;
  fi_range : Forall (fun i => 0 <= i < SZ) own;
  fi_nodup : NoDup (own ++ omap ret_idx cs);
  fi_locked i : 0 <= i < SZ -> is_locked f i = true <-> i ∈ own ++ omap ret_idx cs;
  fi_free i : 0 <= i < SZ -> is_locked f i = false -> curr f <= i \/ i ∈ omap cov_idx cs
}.

Definition positions (p : pool) : list pc := map snd (map_to_list (threads p)).
Definition pool_inv (p : pool) : Prop := fsp_inv (mem p) (positions p) (owned p).

(** ** Lemmas *)
Hypothesis SZ_ok : 0 < SZ < 2 ^ 32 - 1.
#[local] Set Default Proof Using "All".

Lemma is_locked_set (f : fsp) (b : bool) (i j : Z) :
  length (locked f) = Z.to_nat SZ -> 0 <= i < SZ -> 0 <= j < SZ ->
  is_locked (set_locked b i f) j = if decide (i = j) then b else is_locked f j.
Proof.
  intros Hl Hi Hj. unfold is_locked, set_locked. simpl. rewrite !nth_lookup.
  destruct (decide (i = j)) as [->|Hne].
  - rewrite list_lookup_insert_eq by lia. done.
  - rewrite list_lookup_insert_ne by lia. done.
Qed.

Lemma fsp_inv_perm (f : fsp) (cs cs' : list pc) (own own' : list Z) :
  cs ≡ₚ cs' -> own ≡ₚ own' -> fsp_inv f cs own -> fsp_inv f cs' own'.
Proof.
  intros Hc Ho H. destruct H. split; try done.
  - by rewrite <- Hc.
  - by rewrite <- Ho.
  - by rewrite <- Hc, <- Ho.
  - intros i Hi. rewrite <- Hc, <- Ho. auto.
  - intros i Hi Hf. rewrite <- Hc. auto.
Qed.

Lemma curr_succ (f : fsp) (i : Z) :
  0 <= curr f < 2 ^ 32 -> curr f <= i -> i < SZ -> i <> curr f -> u32 (curr f + 1) <= i.
Proof. intros. rewrite u32_small by lia. lia. Qed.

(** One instruction of one thread, the others being anywhere. *)
Lemma thread_step_inv (f f' : fsp) (c : pc) (cs : list pc) (own : list Z) (o : outcome) :
  fsp_inv f (c :: cs) own -> thread_step c f = (f', o) ->
  match o with
  | Next c' => fsp_inv f' (c' :: cs) own
  | Got i => if i =? INVALID_IDX then fsp_inv f' cs own else fsp_inv f' cs (i :: own)
  | Done => fsp_inv f' cs own
  end.
Proof.
  intros [Hlen Hcur Hpc Hrg Hnd Hlk Hfr] Hs. inversion Hpc as [|? ? Hok Hpcs]; subst.
  destruct c as [|ret|idx|idx|idx|idx old]; simpl in *.
  - (* fetch_add *)
    destruct (Z.ltb_spec (curr f) SZ) as [Hlt|Hge]; simplify_eq; simpl.
    + split; simpl; try done.
      * apply u32_range.
      * constructor; [simpl; lia|done].
      * intros i Hi Hf. destruct (Hfr i Hi Hf) as [Hle|Hin]; [|right; by right].
        destruct (decide (i = curr f)) as [->|]; [right; by left|left; apply curr_succ; done || lia].
    + split; simpl; try done; [apply u32_range|].
      intros i Hi Hf. destruct (Hfr i Hi Hf) as [Hle|Hin]; [lia|by right].
  - (* test_and_set *)
    destruct (is_locked f ret) eqn:El; simplify_eq; simpl.
    + split; simpl; try done; [by constructor|].
      intros i Hi Hf. destruct (Hfr i Hi Hf) as [Hle|Hin]; [by left|].
      apply elem_of_cons in Hin as [->|Hin]; [congruence|by right].
    + destruct (Z.eqb_spec ret INVALID_IDX) as [E|_]; [unfold INVALID_IDX in E; lia|].
      split; simpl; try done.
      * by rewrite length_insert.
      * by constructor.
      * constructor; [|done]. rewrite <- Hlk, El by done. done.
      * intros i Hi. rewrite is_locked_set, elem_of_cons by done.
        destruct (decide (ret = i)) as [->|]; [tauto|]. rewrite Hlk by done. naive_solver.
      * intros i Hi. rewrite is_locked_set by done. case_decide; [done|]. intros Hf.
        destruct (Hfr i Hi Hf) as [?|Hin]; [by left|].
        apply elem_of_cons in Hin as [->|?]; [done|by right].
  - (* sub_fetch *) simplify_eq. split; simpl; try done. by constructor.
  - (* clear *)
    simplify_eq.
    assert (own ++ idx :: omap ret_idx cs ≡ₚ idx :: own ++ omap ret_idx cs) as HP
      by solve_Permutation.
    rewrite HP in Hnd. apply NoDup_cons in Hnd as [Hni Hnd].
    split; simpl; try done.
    + by rewrite length_insert.
    + by constructor.
    + intros i Hi. rewrite is_locked_set by done. case_decide as E; [subst; by split|].
      rewrite Hlk, HP, elem_of_cons by done. naive_solver.
    + intros i Hi. rewrite is_locked_set by done. case_decide as E; [subst; right; by left|].
      intros Hf. destruct (Hfr i Hi Hf); [by left|right; by right].
  - (* read *)
    destruct (Z.ltb_spec idx (curr f)); simplify_eq.
    + split; simpl; try done. by constructor.
    + split; try done. intros i Hi Hf. destruct (Hfr i Hi Hf) as [?|Hin]; [by left|].
      apply elem_of_cons in Hin as [->|?]; [by left|by right].
  - (* compare_exchange *)
    destruct Hok as [Hi Ho]. destruct (Z.eqb_spec (curr f) old); simplify_eq.
    + split; simpl; try done; [lia|]. intros i Hi' Hf.
      destruct (Hfr i Hi' Hf) as [?|Hin]; [left; lia|].
      apply elem_of_cons in Hin as [->|?]; [by left|by right].
    + split; simpl; try done. by constructor.
Qed.

Lemma positions_insert (p : pool) (t : nat) (c : pc) :
  map snd (map_to_list (<[t := c]> (threads p))) ≡ₚ
  c :: map snd (map_to_list (delete t (threads p))).
Proof.
  rewrite <- insert_delete_eq. by rewrite map_to_list_insert by (by rewrite lookup_delete_eq).
Qed.

Lemma positions_lookup (p : pool) (t : nat) (c : pc) :
  threads p !! t = Some c -> positions p ≡ₚ c :: map snd (map_to_list (delete t (threads p))).
Proof.
  intros H. unfold positions. rewrite <- (insert_delete_id (threads p) t c H) at 1.
  by rewrite map_to_list_insert by (by rewrite lookup_delete_eq).
Qed.

Lemma call_get_inv (f : fsp) (cs : list pc) (own : list Z) :
  fsp_inv f cs own -> fsp_inv f (get_next :: cs) own.
Proof. intros []. split; simpl; try done. by constructor. Qed.

Lemma call_put_inv (f : fsp) (cs : list pc) (own : list Z) (idx : Z) (c : pc) :
  idx ∈ own -> put_start idx = Some c -> fsp_inv f cs own ->
  fsp_inv f (c :: cs) (remove_one idx own).
Proof.
  intros Hin Hc H. unfold put_start in Hc. destruct (idx <? SZ); simplify_eq.
  pose proof (remove_one_perm idx own Hin) as HP. destruct H.
  assert (own ++ omap ret_idx cs ≡ₚ remove_one idx own ++ omap ret_idx (put_ref idx :: cs)) as HR.
  { rewrite HP at 1. simpl. solve_Permutation. }
  rewrite HP in fi_range0. inversion fi_range0; subst. split; simpl; try done.
  - by constructor.
  - by rewrite <- HR.
  - intros i Hi. rewrite <- HR. auto.
Qed.

(** A call that runs alone, to its end. *)
Lemma run_alone_inv (fuel : nat) (c : pc) (cs : list pc) (own : list Z) (f f' : fsp)
    (o : outcome) :
  fsp_inv f (c :: cs) own -> run_alone fuel c f = Some (f', o) ->
  match o with
  | Next c' => False
  | Got i => if i =? INVALID_IDX then fsp_inv f' cs own else fsp_inv f' cs (i :: own)
  | Done => fsp_inv f' cs own
  end.
Proof.
  revert c f. induction fuel as [|fuel IH]; intros c f H Hr; [done|]. simpl in Hr.
  destruct (thread_step c f) as [f1 o1] eqn:Es.
  pose proof (thread_step_inv _ _ _ _ _ _ H Es) as Hi.
  destruct o1 as [c1|i|]; simplify_eq; [by eapply IH|done|done].
Qed.

Lemma pool_step_inv (p p' : pool) : pool_inv p -> pool_step p p' -> pool_inv p'.
Proof.
  intros H. destruct 1 as [p t Ht|p t idx c Ht Hin Hc|p t c c' f Ht Hs|p t c f i Ht Hs|p t c f Ht Hs];
    unfold pool_inv, positions in *; simpl.
  - eapply fsp_inv_perm; [symmetry; apply positions_insert|done|].
    rewrite delete_id by done. by apply call_get_inv.
  - eapply fsp_inv_perm; [symmetry; apply positions_insert|done|]. rewrite delete_id by done.
    by apply call_put_inv.
  - eapply fsp_inv_perm; [symmetry; apply positions_insert|done|].
    eapply fsp_inv_perm in H; [|by apply (positions_lookup p t c)|done].
    by apply (thread_step_inv _ _ _ _ _ _ H Hs).
  - eapply fsp_inv_perm in H; [|by apply (positions_lookup p t c)|done].
    pose proof (thread_step_inv _ _ _ _ _ _ H Hs) as Hi. simpl in Hi. revert Hi. by destruct (i =? INVALID_IDX).
  - eapply fsp_inv_perm in H; [|by apply (positions_lookup p t c)|done].
    by apply (thread_step_inv _ _ _ _ _ _ H Hs).
Qed.

Lemma pool_init_inv : pool_inv pool_init.
Proof.
  unfold pool_inv, positions, pool_init. simpl. rewrite map_to_list_empty.
  split; simpl; try done; try by constructor.
  - by rewrite length_replicate.
  - intros i Hi. unfold is_locked, fsp_init. simpl. rewrite nth_lookup, lookup_replicate_2 by lia.
    simpl. rewrite elem_of_nil. done.
  - intros i Hi _. left. lia.
Qed.

Lemma pool_reach_inv (p : pool) : rtc pool_step pool_init p -> pool_inv p.
Proof.
  intros Hr. revert p Hr. apply rtc_ind_r; [apply pool_init_inv|].
  intros x y _ Hxy Hx. by eapply pool_step_inv.
Qed.

(** *** Calls that run alone *)
Lemma run_get (n : nat) (f : fsp) (fuel : nat) :
  length (locked f) = Z.to_nat SZ -> 0 <= curr f < 2 ^ 32 ->
  (forall i, 0 <= i < SZ -> is_locked f i = false -> curr f <= i) ->
  n = Z.to_nat (SZ - curr f) -> (2 * n < fuel)%nat ->
  exists f' i, run_alone fuel get_next f = Some (f', Got i) /\
    ((i = INVALID_IDX /\ locked f' = locked f /\ forall j, 0 <= j < SZ -> is_locked f j = true) \/
     (0 <= i < SZ /\ is_locked f i = false /\ locked f' = <[Z.to_nat i := true]> (locked f))).
Proof.
  revert f fuel. induction n as [|n IH]; intros f fuel Hl Hc Hfree Hn Hf;
    destruct fuel as [|fuel]; try lia; simpl.
  - destruct (Z.ltb_spec (curr f) SZ); [lia|]. do 2 eexists. split; [done|]. left.
    split; [done|]. split; [done|]. intros j Hj. destruct (is_locked f j) eqn:E; [done|].
    specialize (Hfree j Hj E). lia.
  - destruct (Z.ltb_spec (curr f) SZ) as [Hlt|]; [|lia].
    destruct fuel as [|fuel]; [lia|]. simpl.
    change (is_locked (mk_fsp (locked f) (refcnt f) (u32 (curr f + 1))) (curr f))
      with (is_locked f (curr f)).
    destruct (is_locked f (curr f)) eqn:El.
    + refine (IH (mk_fsp (locked f) (refcnt f) (u32 (curr f + 1))) fuel _ _ _ _ _);
        simpl; try done; try lia.
      * apply u32_range.
      * intros i Hi Hf'. apply curr_succ; try lia; [by apply Hfree|].
        intros ->. change (is_locked f (curr f) = false) in Hf'. congruence.
      * rewrite u32_small by lia. lia.
    + do 2 eexists. split; [done|]. right. split; [lia|]. by split.
Qed.

Lemma run_put (idx : Z) (f : fsp) :
  exists f', run_alone 4 (put_ref idx) f = Some (f', Done) /\
    locked f' = <[Z.to_nat idx := false]> (locked f).
Proof.
  simpl. destruct (idx <? curr f); simpl; rewrite ?Z.eqb_refl; by eexists.
Qed.

(** ** Properties *)

(** C38: in every interleaving of any number of calls of get and put, an index is
    owned by at most one caller at a time, is in range, and its lock is set. *)
Theorem fsp_exclusive (p : pool) :
  rtc pool_step pool_init p ->
  NoDup (owned p) /\ forall i, i ∈ owned p -> 0 <= i < SZ /\ is_locked (mem p) i = true.
Proof.
  intros Hr. destruct (pool_reach_inv p Hr). apply NoDup_app in fi_nodup0 as (Hnd & _ & _).
  split; [done|]. intros i Hi. rewrite Forall_forall in fi_range0. specialize (fi_range0 i Hi).
  split; [done|]. apply fi_locked0; [done|]. set_solver.
Qed.

(** C39: no index is lost: whatever has happened before, once no call is under way
    a call of get that runs alone ends after at most 2 * SZ + 1 instructions and
    finds an index that nobody owns, if there is one; only a pool with no free
    index answers INVALID_IDX.  A call of put ends after at most 4. *)
Theorem fsp_no_index_lost (p : pool) :
  rtc pool_step pool_init p -> threads p = ∅ ->
  (exists f i, run_alone (S (2 * Z.to_nat SZ)) get_next (mem p) = Some (f, Got i) /\
     ((i = INVALID_IDX /\ forall j, 0 <= j < SZ -> j ∈ owned p) \/
      (0 <= i < SZ /\ i ∉ owned p))) /\
  forall idx, exists f, run_alone 4 (put_ref idx) (mem p) = Some (f, Done).
Proof.
  intros Hr Ht. destruct (pool_reach_inv p Hr) as [Hl Hc _ _ _ Hlk Hfr]. unfold positions in *.
  rewrite Ht, map_to_list_empty in Hlk, Hfr. simpl in Hlk, Hfr. rewrite app_nil_r in Hlk.
  split.
  - destruct (run_get (Z.to_nat (SZ - curr (mem p))) (mem p) (S (2 * Z.to_nat SZ)))
      as (f' & i & Hrun & Hi); try done; try lia.
    { intros i Hi Hf. destruct (Hfr i Hi Hf) as [?|Hin]; [done|]. by apply elem_of_nil in Hin. }
    exists f', i. split; [done|].
    destruct Hi as [(-> & _ & Hall)|(Hrg & Hf & _)]; [left|right]; (split; [done|]).
    + intros j Hj. apply Hlk; auto.
    + rewrite <- Hlk by done. by rewrite Hf.
  - intros idx. destruct (run_put idx (mem p)) as (f' & ? & _). by exists f'.
Qed.

End Pool.

(** ** Witnesses: two threads racing for a pool of two *)
Definition race : pool :=
  mk_pool (mk_fsp [true; false] [0; 0] 2) (<[2%nat := get_test 1]> ∅) [0].

Lemma race_reach : rtc (pool_step 2) (pool_init 2) race.
Proof.
  eapply rtc_l; [by apply (call_get 2 _ 1)|]. eapply rtc_l; [by apply (call_get 2 _ 2)|].
  eapply rtc_l; [by apply (run_next 2 _ 1 get_next)|].
  eapply rtc_l; [by apply (run_next 2 _ 2 get_next)|].
  eapply rtc_l; [by apply (run_got 2 _ 1 (get_test 0))|]. simpl. apply rtc_refl.
Qed.

Definition calm : pool := mk_pool (mk_fsp [true; false] [0; 0] 1) ∅ [0].

Lemma calm_reach : rtc (pool_step 2) (pool_init 2) calm.
Proof.
  eapply rtc_l; [by apply (call_get 2 _ 1)|].
  eapply rtc_l; [by apply (run_next 2 _ 1 get_next)|].
  eapply rtc_l; [by apply (run_got 2 _ 1 (get_test 0))|]. simpl. apply rtc_refl.
Qed.

Lemma fsp_exclusive_witness : NoDup (owned race) /\ is_locked (mem race) 0 = true.
Proof.
  assert (0 < 2 < 2 ^ 32 - 1) as Hsz by (split; reflexivity).
  destruct (fsp_exclusive 2 Hsz race race_reach) as [H1 H2]. split; [exact H1|].
  apply (H2 0). left.
Defined.

Lemma fsp_no_index_lost_witness :
  exists f i, run_alone 2 5 get_next (mem calm) = Some (f, Got i) /\
    ((i = INVALID_IDX /\ forall j, 0 <= j < 2 -> j ∈ owned calm) \/
     (0 <= i < 2 /\ i ∉ owned calm)).
Proof.
  assert (0 < 2 < 2 ^ 32 - 1) as Hsz by (split; reflexivity).
  exact (proj1 (fsp_no_index_lost 2 Hsz calm calm_reach eq_refl)).
Defined.

End Fsp.
