(* ===== verification/ZynqDma.v ===== *)
(** * DMA buffers of the Zynq platforms (zynq/zynq_dmamgmt.c, zynq/zynq_ioctl.c)

    A pool of 1024 buffers of coherent memory, handed out by the fixed-size pool
    of Fsp.v and addressed by user space with their bus addresses; the ioctl
    commands allocate, fill, read and free them.  The memory of a buffer is the
    list of its bytes; an access behind its end is [None]. *)
From S2P Require Import Prelude Fsp.

Module ZynqDma.
Import Fsp.

Definition ZYNQ_DMAMGMT_POOLSZ : Z := 1024.
Notation POOLSZ := ZYNQ_DMAMGMT_POOLSZ.

(** ** zynq_dmamgmt.c *)

(** struct dma_buf_t *)
Record dma_buf_t := mk_buf { len : Z; handle : Z; dma_addr : Z; kvirt_addr : Z }.

Definition init_dma_buf_t : dma_buf_t := mk_buf 0 0 0 0.

(** _dmabuf, and the coherent memory the kernel has handed out: address to
    bytes. *)
Record zynq := mk_zynq { pool : fsp; elems : list dma_buf_t; coherent : gmap Z (list Z) }.

Definition elem (s : zynq) (id : Z) : dma_buf_t := nth (Z.to_nat id) (elems s) init_dma_buf_t.

Definition set_elem (id : Z) (b : dma_buf_t) (s : zynq) : zynq :=
  mk_zynq (pool s) (<[Z.to_nat id := b]> (elems s)) (coherent s).
Definition set_pool (f : fsp) (s : zynq) : zynq := mk_zynq f (elems s) (coherent s).
Definition set_coherent (m : gmap Z (list Z)) (s : zynq) : zynq :=
  mk_zynq (pool s) (elems s) m.

Definition zynq_dmamgmt_init : zynq :=
  mk_zynq (fsp_init POOLSZ) (replicate (Z.to_nat POOLSZ) init_dma_buf_t) ∅.

Fixpoint find_loop (l : list dma_buf_t) (addr id : Z) : Z :=
  match l with
  | [] => -1
  | b :: l' => if dma_addr b =? addr then id else find_loop l' addr (id + 1)
  end.

Definition find_dma_addr (s : zynq) (addr : Z) : Z := find_loop (elems s) addr 0.

(** dmabuf_fsp_get and dmabuf_fsp_put when no other call is under way *)
Definition dmabuf_fsp_get (s : zynq) : option (Z * zynq) :=
  match run_alone POOLSZ (S (2 * Z.to_nat POOLSZ)) get_next (pool s) with
  | Some (f, Got i) => Some (i, set_pool f s)
  | _ => None
  end.

Definition dmabuf_fsp_put (s : zynq) (id : Z) : option zynq :=
  match put_start POOLSZ id with
  | None => Some s
  | Some c =>
      match run_alone POOLSZ 4 c (pool s) with
      | Some (f, Done) => Some (set_pool f s)
      | _ => None
      end
  end.

(** zynq_dmamgmt_alloc: the bus address (0: failed) and the id; [mem] is what
    dma_alloc_coherent answers, the kernel and the bus address or NULL. *)
Definition zynq_dmamgmt_alloc (s : zynq) (l : Z) (mem : option (Z * Z))
    : option (Z * Z * zynq) :=
  '(id, s) ← dmabuf_fsp_get s;
  if id =? INVALID_IDX then Some (0, id, s) else
  match mem with
  | None => s ← dmabuf_fsp_put s id; Some (0, id, s)
  | Some (kvirt, dma) =>
      let s := set_coherent (<[kvirt := replicate (Z.to_nat l) 0]> (coherent s)) s in
      let s := set_elem id (mk_buf l (handle (elem s id)) dma kvirt) s in
      Some (dma, id, s)
  end.

(** zynq_dmamgmt_dealloc; the id is a u64. *)
Definition zynq_dmamgmt_dealloc (s : zynq) (id : Z) : option (Z * zynq) :=
  if (id <? POOLSZ) && nonzero (kvirt_addr (elem s id)) then
    let s := set_coherent (delete (kvirt_addr (elem s id)) (coherent s)) s in
    let s := set_elem id init_dma_buf_t s in
    s ← dmabuf_fsp_put s id;
    Some (0, s)
  else Some (1, s).

Definition zynq_dmamgmt_dealloc_dma (s : zynq) (addr : Z) : option (Z * zynq) :=
  zynq_dmamgmt_dealloc s (u64 (find_dma_addr s addr)).

(** zynq_dmamgmt_get: NULL or the index of the element. *)
Definition zynq_dmamgmt_get (s : zynq) (id : Z) : option Z :=
  if (id >=? POOLSZ) || negb (is_locked (pool s) id) then None else Some id.

Definition zynq_dmamgmt_get_id (s : zynq) (addr : Z) : Z := find_dma_addr s addr.

(** The loop of zynq_dmamgmt_exit over the remaining ids. *)
Fixpoint exit_loop (s : zynq) (ids : list Z) : option zynq :=
  match ids with
  | [] => Some s
  | i :: ids' =>
      if nonzero (kvirt_addr (elem s i))
      then '(_, s') ← zynq_dmamgmt_dealloc s i; exit_loop s' ids'
      else exit_loop s ids'
  end.

Definition zynq_dmamgmt_exit (s : zynq) : option zynq := exit_loop s (seqZ 0 POOLSZ).

(** ** zynq_ioctl.c *)

(** struct tlkm_mm_cmd and struct tlkm_copy_cmd; dev_addr is unsigned. *)
Record mm_cmd := mk_mm { mm_sz : Z; mm_dev_addr : Z }.
Record copy_cmd := mk_copy { c_length : Z; c_dev_addr : Z }.

Definition zynq_ioctl_alloc (s : zynq) (cmd : mm_cmd) (mem : option (Z * Z))
    : option (Z * mm_cmd * zynq) :=
  if (mm_sz cmd =? 0) || (mm_sz cmd >? 2 ^ 27) then Some (- EINVAL, cmd, s) else
  match zynq_dmamgmt_get s (mm_dev_addr cmd) with
  | Some _ => Some (- EINVAL, cmd, s)
  | None =>
      '(a, _, s) ← zynq_dmamgmt_alloc s (mm_sz cmd) mem;
      if a =? 0 then Some (- ENOMEM, cmd, s) else Some (0, mk_mm (mm_sz cmd) a, s)
  end.

Definition zynq_ioctl_free (s : zynq) (cmd : mm_cmd) : option (Z * mm_cmd * zynq) :=
  '(_, s) ← zynq_dmamgmt_dealloc_dma s (mm_dev_addr cmd);
  Some (0, mk_mm (mm_sz cmd) (u64 (-1)), s).

(** copy_from_user of [n] bytes to a buffer; [user] are the bytes user space has
    at the address, what is missing is zeroed and reported. *)
Definition copy_from_user (n : Z) (user buf : list Z) : option (list Z * bool) :=
  let k := Z.to_nat n in
  if n <=? Z.of_nat (length buf)
  then Some (take k (user ++ replicate k 0) ++ drop k buf, bool_decide (n <= Z.of_nat (length user)))
  else None.

(** copy_to_user of [n] bytes of a buffer *)
Definition copy_to_user (n : Z) (buf : list Z) : option (list Z) :=
  if n <=? Z.of_nat (length buf) then Some (take (Z.to_nat n) buf) else None.

(** The part of zynq_ioctl_copyto after the allocation. *)
Definition copyto_buffer (s : zynq) (cmd : copy_cmd) (user : list Z)
    : option (Z * copy_cmd * zynq) :=
  match zynq_dmamgmt_get s (u64 (zynq_dmamgmt_get_id s (c_dev_addr cmd))) with
  | None => Some (- ENOMEM, cmd, s)
  | Some id =>
      let kvirt := kvirt_addr (elem s id) in
      if kvirt =? 0 then Some (- ENOMEM, cmd, s) else
      buf ← coherent s !! kvirt;
      '(buf, ok) ← copy_from_user (c_length cmd) user buf;
      let s := set_coherent (<[kvirt := buf]> (coherent s)) s in
      Some (if (ok : bool) then 0 else - EACCES, cmd, s)
  end.

Definition zynq_ioctl_copyto (s : zynq) (cmd : copy_cmd) (mem : option (Z * Z)) (user : list Z)
    : option (Z * copy_cmd * zynq) :=
  match zynq_dmamgmt_get s (u64 (zynq_dmamgmt_get_id s (c_dev_addr cmd))) with
  | Some _ => copyto_buffer s cmd user
  | None =>
      '(ret, mm, s) ← zynq_ioctl_alloc s (mk_mm (c_length cmd) (u64 (-1))) mem;
      let cmd := mk_copy (c_length cmd) (mm_dev_addr mm) in
      if nonzero ret then Some (ret, cmd, s) else copyto_buffer s cmd user
  end.

(** The bytes user space receives; [writable] is whether it can take them. *)
Definition zynq_ioctl_copyfrom (s : zynq) (cmd : copy_cmd) (writable : bool)
    : option (Z * list Z) :=
  match zynq_dmamgmt_get s (u64 (zynq_dmamgmt_get_id s (c_dev_addr cmd))) with
  | None => Some (- EINVAL, [])
  | Some id =>
      let kvirt := kvirt_addr (elem s id) in
      if kvirt =? 0 then Some (- EINVAL, []) else
      buf ← coherent s !! kvirt;
      data ← copy_to_user (c_length cmd) buf;
      if writable then Some (0, data) else Some (- EACCES, [])
  end.

(** struct tlkm_bulk_cmd *)
Definition zynq_ioctl_alloc_copyto (s : zynq) (mm : mm_cmd) (copy : copy_cmd)
    (mem mem2 : option (Z * Z)) (user : list Z) : option (Z * (mm_cmd * copy_cmd) * zynq) :=
  '(ret, mm, s) ← zynq_ioctl_alloc s mm mem;
  if nonzero ret then Some (ret, (mm, copy), s) else
  let copy := mk_copy (c_length copy) (mm_dev_addr mm) in
  '(ret, copy, s) ← zynq_ioctl_copyto s copy mem2 user;
  Some (ret, (mm, copy), s).

Definition zynq_ioctl_copyfrom_free (s : zynq) (mm : mm_cmd) (copy : copy_cmd) (writable : bool)
    : option (Z * list Z * (mm_cmd * copy_cmd) * zynq) :=
  '(ret, data) ← zynq_ioctl_copyfrom s copy writable;
  if nonzero ret then Some (ret, data, (mm, copy), s) else
  '(ret, mm, s) ← zynq_ioctl_free s (mk_mm (mm_sz mm) (c_dev_addr copy));
  Some (ret, data, (mm, copy), s).

(** ** Invariant *)

(** [ids] are the allocated buffers. *)
Record zynq_inv (ids : list Z) (s : zynq) : Prop := {
  zi_pool : fsp_inv POOLSZ (pool s) [] ids;
  zi_len : length (elems s) = Z.to_nat POOLSZ;
  zi_free i : 0 <= i < POOLSZ -> i ∉ ids -> elem s i = init_dma_buf_t;
  zi_used i : i ∈ ids -> kvirt_addr (elem s i) <> 0 /\ 0 < dma_addr (elem s i) < 2 ^ 64 /\
    exists buf, coherent s !! kvirt_addr (elem s i) = Some buf /\
      len (elem s i) = Z.of_nat (length buf);
  zi_dma i j : i ∈ ids -> j ∈ ids -> dma_addr (elem s i) = dma_addr (elem s j) -> i = j;
  zi_kvirt i j : i ∈ ids -> j ∈ ids -> kvirt_addr (elem s i) = kvirt_addr (elem s j) -> i = j
}.

(** dma_alloc_coherent gives memory that is not in use. *)
Definition fresh_memory (ids : list Z) (s : zynq) (kvirt dma : Z) : Prop :=
  kvirt <> 0 /\ 0 < dma < 2 ^ 64 /\ coherent s !! kvirt = None /\
  forall i, i ∈ ids -> dma_addr (elem s i) <> dma.

(** ** Lemmas *)
Lemma POOLSZ_ok : 0 < POOLSZ < 2 ^ 32 - 1.
Proof. done. Qed.

Lemma elem_set (id j : Z) (b : dma_buf_t) (s : zynq) :
  length (elems s) = Z.to_nat POOLSZ -> 0 <= id < POOLSZ -> 0 <= j ->
  elem (set_elem id b s) j = if decide (id = j) then b else elem s j.
Proof.
  intros Hl Hid Hj. unfold elem, set_elem. simpl. rewrite !nth_lookup.
  destruct (decide (id = j)) as [->|Hne].
  - by rewrite list_lookup_insert_eq by lia.
  - by rewrite list_lookup_insert_ne by lia.
Qed.

Lemma ids_range (ids : list Z) (s : zynq) (i : Z) :
  zynq_inv ids s -> i ∈ ids -> 0 <= i < POOLSZ.
Proof.
  intros H. pose proof (fi_range _ _ _ _ (zi_pool _ _ H)) as Hf. rewrite Forall_forall in Hf. auto.
Qed.

Lemma ids_locked (ids : list Z) (s : zynq) (i : Z) :
  zynq_inv ids s -> 0 <= i < POOLSZ -> is_locked (pool s) i = true <-> i ∈ ids.
Proof.
  intros H Hi. rewrite (fi_locked _ _ _ _ (zi_pool _ _ H)) by done. by rewrite app_nil_r.
Qed.

(** *** The pool *)
Lemma fsp_get_spec (ids : list Z) (s : zynq) :
  zynq_inv ids s ->
  exists i f, dmabuf_fsp_get s = Some (i, set_pool f s) /\
    ((i = INVALID_IDX /\ (forall j, 0 <= j < POOLSZ -> j ∈ ids) /\ fsp_inv POOLSZ f [] ids) \/
     (0 <= i < POOLSZ /\ i <> INVALID_IDX /\ i ∉ ids /\ fsp_inv POOLSZ f [] (i :: ids))).
Proof.
  intros H. pose proof (zi_pool _ _ H) as Hp. unfold dmabuf_fsp_get.
  destruct (run_get POOLSZ POOLSZ_ok (Z.to_nat (POOLSZ - curr (pool s))) (pool s)
              (S (2 * Z.to_nat POOLSZ))) as (f & i & Hrun & Hi).
  - apply (fi_len _ _ _ _ Hp).
  - apply (fi_curr _ _ _ _ Hp).
  - intros i Hi Hf. destruct (fi_free _ _ _ _ Hp i Hi Hf) as [?|Hin]; [done|].
    by apply elem_of_nil in Hin.
  - done.
  - pose proof (fi_curr _ _ _ _ Hp). lia.
  - rewrite Hrun. exists i, f. split; [done|].
    pose proof (run_alone_inv POOLSZ POOLSZ_ok _ _ _ _ _ _ _
                  (call_get_inv POOLSZ POOLSZ_ok _ _ _ Hp) Hrun) as Hinv. simpl in Hinv.
    destruct Hi as [(-> & _ & Hall)|(Hrg & Hf & _)]; [left|right].
    + split; [done|]. split; [|done]. intros j Hj. apply (ids_locked _ _ _ H); auto.
    + destruct (Z.eqb_spec i INVALID_IDX) as [->|Hne]; [unfold INVALID_IDX, POOLSZ in Hrg; lia|].
      split; [done|]. split; [done|]. split; [|done].
      rewrite <- (ids_locked _ _ _ H) by done. by rewrite Hf.
Qed.

Lemma fsp_put_spec (ids : list Z) (s : zynq) (i : Z) :
  fsp_inv POOLSZ (pool s) [] (i :: ids) ->
  exists f, dmabuf_fsp_put s i = Some (set_pool f s) /\ fsp_inv POOLSZ f [] ids.
Proof.
  intros H. pose proof (fi_range _ _ _ _ H) as Hr. apply Forall_cons in Hr as [Hi _].
  unfold dmabuf_fsp_put.
  assert (put_start POOLSZ i = Some (put_ref i)) as Hst.
  { unfold put_start. destruct (Z.ltb_spec i POOLSZ); [done|lia]. }
  rewrite Hst. destruct (run_put POOLSZ POOLSZ_ok i (pool s)) as (f & Hf & _). rewrite Hf.
  exists f. split; [done|].
  assert (fsp_inv POOLSZ (pool s) [put_ref i] ids) as Hc.
  { pose proof (call_put_inv POOLSZ POOLSZ_ok (pool s) [] (i :: ids) i (put_ref i)) as Hc.
    simpl in Hc. rewrite decide_True in Hc by done. apply Hc; [by left|done|done]. }
  apply (run_alone_inv POOLSZ POOLSZ_ok _ _ _ _ _ _ _ Hc Hf).
Qed.

(** *** Finding a buffer by its address *)
Lemma find_loop_found (l : list dma_buf_t) (addr base : Z) (i : nat) (b : dma_buf_t) :
  l !! i = Some b -> dma_addr b = addr ->
  (forall j c, l !! j = Some c -> dma_addr c = addr -> j = i) ->
  find_loop l addr base = base + Z.of_nat i.
Proof.
  revert base i. induction l as [|c l IH]; intros base i Hi Hb Hu; [done|]. simpl.
  destruct (Z.eqb_spec (dma_addr c) addr) as [E|E].
  - specialize (Hu 0%nat c eq_refl E). subst. lia.
  - destruct i as [|i]; [by simplify_eq/=|]. rewrite (IH (base + 1) i); try done; [lia|].
    intros j d Hj Hd. specialize (Hu (S j) d Hj Hd). lia.
Qed.

Lemma find_used (ids : list Z) (s : zynq) (i : Z) :
  zynq_inv ids s -> i ∈ ids -> find_dma_addr s (dma_addr (elem s i)) = i.
Proof.
  intros H Hi. pose proof (ids_range _ _ _ H Hi) as Hr. pose proof (zi_len _ _ H) as Hl.
  destruct (lookup_lt_is_Some_2 (elems s) (Z.to_nat i)) as [b Hb]; [lia|].
  unfold find_dma_addr. rewrite (find_loop_found _ _ 0 (Z.to_nat i) b); [lia|done| |].
  - unfold elem. by rewrite nth_lookup, Hb.
  - intros j c Hj Hc. assert (elem s (Z.of_nat j) = c) as Ec.
    { unfold elem. by rewrite Nat2Z.id, nth_lookup, Hj. }
    apply lookup_lt_Some in Hj. destruct (zi_used _ _ H i Hi) as (_ & Hd & _).
    destruct (decide (Z.of_nat j ∈ ids)) as [Hin|Hni].
    + enough (Z.of_nat j = i) by lia. apply (zi_dma _ _ H); [done|done|]. congruence.
    + rewrite (zi_free _ _ H (Z.of_nat j)) in Ec by (done || lia). subst c. simpl in Hc. lia.
Qed.

Lemma find_loop_none (l : list dma_buf_t) (addr base : Z) :
  (forall b, b ∈ l -> dma_addr b <> addr) -> find_loop l addr base = -1.
Proof.
  revert base. induction l as [|c l IH]; intros base Hl; [done|]. simpl.
  destruct (Z.eqb_spec (dma_addr c) addr) as [E|E]; [by destruct (Hl c ltac:(left))|].
  apply IH. intros b Hb. apply Hl. by right.
Qed.

(** The element behind an address in use. *)
Lemma get_used (ids : list Z) (s : zynq) (i : Z) :
  zynq_inv ids s -> i ∈ ids ->
  zynq_dmamgmt_get s (u64 (zynq_dmamgmt_get_id s (dma_addr (elem s i)))) = Some i.
Proof.
  intros H Hi. pose proof (ids_range _ _ _ H Hi) as Hr. unfold zynq_dmamgmt_get_id.
  rewrite (find_used ids) by done. unfold POOLSZ in Hr. rewrite u64_small by lia.
  unfold zynq_dmamgmt_get, POOLSZ. rewrite Z.geb_leb. destruct (Z.leb_spec 1024 i); [lia|].
  by rewrite (proj2 (ids_locked _ _ _ H Hr) Hi).
Qed.

(** *** Allocation *)
Lemma zynq_inv_pool (ids : list Z) (s : zynq) (f : fsp) :
  zynq_inv ids s -> fsp_inv POOLSZ f [] ids -> zynq_inv ids (set_pool f s).
Proof. intros [] Hf. by split. Qed.

Lemma zynq_inv_add (ids : list Z) (s : zynq) (f : fsp) (i l kvirt dma h : Z) :
  zynq_inv ids s -> fsp_inv POOLSZ f [] (i :: ids) -> 0 <= i < POOLSZ -> i ∉ ids -> 0 <= l ->
  fresh_memory ids s kvirt dma ->
  zynq_inv (i :: ids)
    (set_elem i (mk_buf l h dma kvirt)
       (set_coherent (<[kvirt := replicate (Z.to_nat l) 0]> (coherent s)) (set_pool f s))).
Proof.
  intros H Hf Hi Hni Hl (Hk & Hd & Hco & Hfd). pose proof (zi_len _ _ H) as Hlen.
  assert (forall j, j ∈ ids -> dma_addr (elem s j) <> dma /\ kvirt_addr (elem s j) <> kvirt) as Hfr.
  { intros j Hj. split; [by apply Hfd|]. destruct (zi_used _ _ H j Hj) as (_ & _ & ? & Hb & _).
    congruence. }
  set (s0 := set_coherent _ _).
  assert (forall j, 0 <= j -> elem (set_elem i (mk_buf l h dma kvirt) s0) j =
            if decide (i = j) then mk_buf l h dma kvirt else elem s j) as Hel.
  { intros j Hj. rewrite elem_set by done. done. }
  assert (forall j, j ∈ ids -> i <> j /\ 0 <= j) as Hne.
  { intros j Hj. pose proof (ids_range _ _ _ H Hj). split; [|lia]. by intros ->. }
  split.
  - done.
  - simpl. by rewrite length_insert.
  - intros j Hj Hnj. apply not_elem_of_cons in Hnj as [? ?]. rewrite Hel by lia.
    rewrite decide_False by done. by apply (zi_free _ _ H).
  - intros j Hj. apply elem_of_cons in Hj as [->|Hj].
    + rewrite Hel, decide_True by (done || lia). simpl. split; [done|]. split; [done|].
      eexists. rewrite lookup_insert_eq. split; [done|]. rewrite length_replicate. lia.
    + destruct (Hne j Hj). rewrite Hel, decide_False by done. simpl.
      destruct (zi_used _ _ H j Hj) as (? & ? & buf & Hb & ?). split; [done|]. split; [done|].
      exists buf. rewrite lookup_insert_ne; [done|]. destruct (Hfr j Hj). congruence.
  - intros j k Hj Hk'. apply elem_of_cons in Hj as [->|Hj], Hk' as [->|Hk'].
    + done.
    + destruct (Hne k Hk'), (Hfr k Hk'). rewrite !Hel, decide_True, decide_False by (done || lia).
      simpl. congruence.
    + destruct (Hne j Hj), (Hfr j Hj). rewrite !Hel, decide_False, decide_True by (done || lia).
      simpl. congruence.
    + destruct (Hne j Hj), (Hne k Hk'). rewrite !Hel, !decide_False by done.
      by apply (zi_dma _ _ H).
  - intros j k Hj Hk'. apply elem_of_cons in Hj as [->|Hj], Hk' as [->|Hk'].
    + done.
    + destruct (Hne k Hk'), (Hfr k Hk'). rewrite !Hel, decide_True, decide_False by (done || lia).
      simpl. congruence.
    + destruct (Hne j Hj), (Hfr j Hj). rewrite !Hel, decide_False, decide_True by (done || lia).
      simpl. congruence.
    + destruct (Hne j Hj), (Hne k Hk'). rewrite !Hel, !decide_False by done.
      by apply (zi_kvirt _ _ H).
Qed.

Lemma dmamgmt_alloc_spec (ids : list Z) (s : zynq) (l : Z) (mem : option (Z * Z)) :
  zynq_inv ids s -> 0 <= l ->
  (forall kvirt dma, mem = Some (kvirt, dma) -> fresh_memory ids s kvirt dma) ->
  exists a i s', zynq_dmamgmt_alloc s l mem = Some (a, i, s') /\
    ((a = 0 /\ zynq_inv ids s' /\ elems s' = elems s /\ coherent s' = coherent s /\
      (mem = None \/ forall j, 0 <= j < POOLSZ -> j ∈ ids)) \/
     (exists kvirt, mem = Some (kvirt, a) /\ i ∉ ids /\ zynq_inv (i :: ids) s' /\
        elem s' i = mk_buf l 0 a kvirt /\
        coherent s' = <[kvirt := replicate (Z.to_nat l) 0]> (coherent s) /\
        forall j, j ∈ ids -> elem s' j = elem s j)).
Proof.
  intros H Hl Hmem. unfold zynq_dmamgmt_alloc.
  destruct (fsp_get_spec ids s H) as (i & f & -> & [(-> & Hall & Hf)|(Hi & Hne & Hni & Hf)]).
  - cbn. do 3 eexists. split; [done|]. left. split; [done|]. split; [by apply zynq_inv_pool|].
    by repeat split; try right.
  - cbn. rewrite (proj2 (Z.eqb_neq _ _) Hne). destruct mem as [[kvirt dma]|].
    + do 3 eexists. split; [done|]. right. exists kvirt. split; [done|]. split; [done|].
      split; [by apply zynq_inv_add; auto|]. pose proof (zi_len _ _ H) as Hlen.
      split; [|split; [done|]].
      * rewrite elem_set, decide_True by (done || lia).
        change (mk_buf l (handle (elem s i)) dma kvirt = mk_buf l 0 dma kvirt).
        by rewrite (zi_free _ _ H).
      * intros j Hj. pose proof (ids_range _ _ _ H Hj). rewrite elem_set by (done || lia).
        rewrite decide_False by (by intros ->). done.
    + destruct (fsp_put_spec ids (set_pool f s) i Hf) as (f2 & -> & Hf2). cbn.
      do 3 eexists. split; [done|]. left. split; [done|].
      split; [by apply (zynq_inv_pool ids s f2)|]. by repeat split; left.
Qed.

(** *** Release *)
Lemma dmamgmt_dealloc_spec (ids : list Z) (s : zynq) (i : Z) :
  zynq_inv (i :: ids) s ->
  exists s', zynq_dmamgmt_dealloc s i = Some (0, s') /\ zynq_inv ids s' /\
    coherent s' = delete (kvirt_addr (elem s i)) (coherent s) /\
    forall j, j ∈ ids -> elem s' j = elem s j.
Proof.
  intros H. pose proof (ids_range _ _ i H ltac:(left)) as Hi. pose proof (zi_len _ _ H) as Hlen.
  destruct (zi_used _ _ H i) as (Hk & _); [by left|].
  pose proof (fi_nodup _ _ _ _ (zi_pool _ _ H)) as Hnd. rewrite app_nil_r in Hnd.
  apply NoDup_cons in Hnd as [Hni _].
  unfold zynq_dmamgmt_dealloc, nonzero. rewrite (proj2 (Z.eqb_neq _ _) Hk).
  destruct (Z.ltb_spec i POOLSZ); [|lia]. simpl andb. cbv iota.
  destruct (fsp_put_spec ids (set_elem i init_dma_buf_t
      (set_coherent (delete (kvirt_addr (elem s i)) (coherent s)) s)) i) as (f & -> & Hf);
    [apply (zi_pool _ _ H)|].
  cbn. eexists. split; [done|].
  set (s0 := set_coherent _ s).
  assert (forall j, 0 <= j -> elem (set_pool f (set_elem i init_dma_buf_t s0)) j =
            if decide (i = j) then init_dma_buf_t else elem s j) as Hel.
  { intros j Hj. change (elem (set_pool f ?x) j) with (elem x j). by rewrite elem_set. }
  assert (forall j, j ∈ ids -> elem (set_pool f (set_elem i init_dma_buf_t s0)) j = elem s j
            /\ i <> j) as Hsame.
  { intros j Hj. pose proof (ids_range _ _ j H ltac:(by right)). rewrite Hel by lia.
    split; [rewrite decide_False by (by intros ->); done|by intros ->]. }
  split; [split|split; [done|intros j Hj; by apply Hsame]].
  - done.
  - simpl. by rewrite length_insert.
  - intros j Hj Hnj. rewrite Hel by lia. destruct (decide (i = j)) as [|Hij]; [done|].
    apply (zi_free _ _ H); [done|]. apply not_elem_of_cons. split; [congruence|done].
  - intros j Hj. destruct (Hsame j Hj) as [-> Hij].
    destruct (zi_used _ _ H j) as (? & ? & buf & Hb & ?); [by right|].
    split; [done|]. split; [done|]. exists buf. split; [|done]. simpl.
    rewrite lookup_delete_ne; [done|]. intros E. apply Hij, (zi_kvirt _ _ H); [by left|by right|done].
  - intros j k Hj Hk'. destruct (Hsame j Hj) as [-> _], (Hsame k Hk') as [-> _].
    apply (zi_dma _ _ H); by right.
  - intros j k Hj Hk'. destruct (Hsame j Hj) as [-> _], (Hsame k Hk') as [-> _].
    apply (zi_kvirt _ _ H); by right.
Qed.

(** *** Copies *)
Lemma copyto_used (ids : list Z) (s : zynq) (i n : Z) (mem : option (Z * Z)) (user : list Z) :
  zynq_inv ids s -> i ∈ ids -> n = Z.of_nat (length user) -> n <= len (elem s i) ->
  exists s' buf, coherent s !! kvirt_addr (elem s i) = Some buf /\
    zynq_ioctl_copyto s (mk_copy n (dma_addr (elem s i))) mem user
      = Some (0, mk_copy n (dma_addr (elem s i)), s') /\
    pool s' = pool s /\ elems s' = elems s /\
    coherent s' = <[kvirt_addr (elem s i) := user ++ drop (length user) buf]> (coherent s).
Proof.
  intros H Hi -> Hlen. destruct (zi_used _ _ H i Hi) as (Hk & _ & buf & Hb & Hl).
  unfold zynq_ioctl_copyto, copyto_buffer. simpl c_dev_addr. rewrite (get_used ids) by done.
  cbv iota. rewrite (proj2 (Z.eqb_neq _ _) Hk), Hb. cbn.
  unfold copy_from_user. destruct (Z.leb_spec (Z.of_nat (length user)) (Z.of_nat (length buf)));
    [|lia]. cbn. rewrite bool_decide_true by lia. do 2 eexists. split; [done|].
  split; [done|]. split; [done|]. split; [done|]. simpl.
  by rewrite Nat2Z.id, take_app_length.
Qed.

Lemma copyfrom_used (ids : list Z) (s : zynq) (i n : Z) (buf : list Z) :
  zynq_inv ids s -> i ∈ ids -> coherent s !! kvirt_addr (elem s i) = Some buf ->
  0 <= n <= len (elem s i) ->
  zynq_ioctl_copyfrom s (mk_copy n (dma_addr (elem s i))) true = Some (0, take (Z.to_nat n) buf).
Proof.
  intros H Hi Hb Hn. destruct (zi_used _ _ H i Hi) as (Hk & _ & buf' & Hb' & Hl). simplify_eq.
  unfold zynq_ioctl_copyfrom. simpl c_dev_addr. rewrite (get_used ids) by done.
  cbv iota. rewrite (proj2 (Z.eqb_neq _ _) Hk), Hb. cbn. unfold copy_to_user.
  destruct (Z.leb_spec n (Z.of_nat (length buf))); [done|lia].
Qed.

(** Writing to a buffer of the same size. *)
Lemma zynq_inv_write (ids : list Z) (s s' : zynq) (i : Z) (buf new : list Z) :
  zynq_inv ids s -> i ∈ ids -> pool s' = pool s -> elems s' = elems s ->
  coherent s !! kvirt_addr (elem s i) = Some buf -> length new = length buf ->
  coherent s' = <[kvirt_addr (elem s i) := new]> (coherent s) -> zynq_inv ids s'.
Proof.
  intros H Hi Hp He Hb Hn Hc.
  assert (forall j, elem s' j = elem s j) as Hel by (intros j; unfold elem; by rewrite He).
  destruct H. split; rewrite ?Hp, ?He; try done.
  - intros j. rewrite Hel. auto.
  - intros j Hj. rewrite Hel, Hc. destruct (zi_used0 j Hj) as (? & ? & b & Hb' & Hl).
    split; [done|]. split; [done|]. destruct (decide (i = j)) as [->|Hne].
    + exists new. rewrite lookup_insert_eq. split; [done|]. simplify_eq. lia.
    + exists b. rewrite lookup_insert_ne; [done|]. intros E. by apply Hne, zi_kvirt0.
  - intros j k. rewrite !Hel. auto.
  - intros j k. rewrite !Hel. auto.
Qed.

(** ** Properties *)

(** C40: a buffer keeps what is written to it: copying up to its length to a buffer
    in use and back gives the same bytes, leaves every other buffer and the
    allocation as they are, and does not allocate; a copy of more bytes than the
    buffer has, which neither command checks, leaves the buffer's memory. *)
Theorem zynq_copy_roundtrip (ids : list Z) (s : zynq) (i : Z) (mem : option (Z * Z))
    (user : list Z) :
  zynq_inv ids s -> i ∈ ids ->
  let n := Z.of_nat (length user) in
  let cmd := mk_copy n (dma_addr (elem s i)) in
  if decide (n <= len (elem s i))
  then exists s', zynq_ioctl_copyto s cmd mem user = Some (0, cmd, s') /\ zynq_inv ids s' /\
    zynq_ioctl_copyfrom s' cmd true = Some (0, user) /\
    forall j m, j ∈ ids -> j <> i -> 0 <= m <= len (elem s j) ->
      zynq_ioctl_copyfrom s' (mk_copy m (dma_addr (elem s j))) true
      = zynq_ioctl_copyfrom s (mk_copy m (dma_addr (elem s j))) true
  else zynq_ioctl_copyto s cmd mem user = None /\ zynq_ioctl_copyfrom s cmd true = None.
Proof.
  intros H Hi n cmd. destruct (decide (n <= len (elem s i))) as [Hn|Hn].
  - destruct (copyto_used ids s i n mem user H Hi eq_refl Hn)
      as (s' & buf & Hb & Hrun & Hp & He & Hc).
    assert (forall j, elem s' j = elem s j) as Hel by (intros j; unfold elem; by rewrite He).
    destruct (zi_used _ _ H i Hi) as (_ & _ & buf' & Hb' & Hl). simplify_eq.
    assert (zynq_inv ids s') as H'.
    { apply (zynq_inv_write ids s s' i buf (user ++ drop (length user) buf)); try done.
      rewrite length_app, length_drop. lia. }
    exists s'. split; [done|]. split; [done|]. split.
    + unfold cmd. rewrite <- (Hel i). rewrite (copyfrom_used ids s' i n (user ++ drop (length user) buf));
        try done.
      * unfold n. by rewrite Nat2Z.id, take_app_length.
      * by rewrite Hel, Hc, lookup_insert_eq.
      * rewrite Hel. lia.
    + intros j m Hj Hji Hm. destruct (zi_used _ _ H j Hj) as (_ & _ & b & Hbj & _).
      rewrite (copyfrom_used ids s j m b) by done.
      rewrite <- (Hel j). apply (copyfrom_used ids s' j m b); try done; rewrite Hel; [|done].
      rewrite Hc, lookup_insert_ne; [done|]. intros E. by apply Hji, (zi_kvirt _ _ H).
  - destruct (zi_used _ _ H i Hi) as (Hk & _ & buf & Hb & Hl).
    unfold zynq_ioctl_copyto, copyto_buffer, zynq_ioctl_copyfrom, cmd. simpl c_dev_addr.
    rewrite (get_used ids) by done. cbv iota. rewrite (proj2 (Z.eqb_neq _ _) Hk), Hb. cbn.
    unfold copy_from_user, copy_to_user. destruct (Z.leb_spec n (Z.of_nat (length buf))); [lia|].
    done.
Qed.

(** Freeing the newest buffer by its address. *)
Lemma ioctl_free_spec (ids : list Z) (s : zynq) (i sz : Z) :
  zynq_inv (i :: ids) s ->
  exists s', zynq_ioctl_free s (mk_mm sz (dma_addr (elem s i)))
               = Some (0, mk_mm sz (2 ^ 64 - 1), s') /\
    zynq_inv ids s' /\ coherent s' = delete (kvirt_addr (elem s i)) (coherent s).
Proof.
  intros H. unfold zynq_ioctl_free, zynq_dmamgmt_dealloc_dma. simpl mm_dev_addr.
  rewrite (find_used (i :: ids)) by (done || by left).
  pose proof (ids_range _ _ i H ltac:(left)) as Hr. unfold POOLSZ in Hr.
  rewrite (u64_small i) by lia.
  destruct (dmamgmt_dealloc_spec ids s i H) as (s' & -> & Hi & Hco & _). by exists s'.
Qed.

(** The allocation command refuses a size of zero or of more than 128 MiB and
    the id of a buffer in use, reports -ENOMEM exactly when the pool is depleted or
    the kernel has no memory, and otherwise gives a buffer of the requested size
    with an address of its own; in every case the pool, its table and the kernel
    memory agree, and freeing the new buffer by its address restores them. *)
Theorem zynq_alloc_free (ids : list Z) (s : zynq) (cmd : mm_cmd) (mem : option (Z * Z)) :
  zynq_inv ids s -> 0 <= mm_sz cmd -> 0 <= mm_dev_addr cmd ->
  (forall kvirt dma, mem = Some (kvirt, dma) -> fresh_memory ids s kvirt dma) ->
  exists ret cmd' s', zynq_ioctl_alloc s cmd mem = Some (ret, cmd', s') /\
    ((ret = - EINVAL /\ cmd' = cmd /\ s' = s /\
      (mm_sz cmd = 0 \/ 2 ^ 27 < mm_sz cmd \/ mm_dev_addr cmd ∈ ids)) \/
     (ret = - ENOMEM /\ cmd' = cmd /\ zynq_inv ids s' /\ coherent s' = coherent s /\
      (mem = None \/ forall j, 0 <= j < POOLSZ -> j ∈ ids)) \/
     (ret = 0 /\ exists i, i ∉ ids /\ zynq_inv (i :: ids) s' /\
        mm_dev_addr cmd' = dma_addr (elem s' i) /\ len (elem s' i) = mm_sz cmd /\
        exists s'', zynq_ioctl_free s' cmd' = Some (0, mk_mm (mm_sz cmd) (2 ^ 64 - 1), s'') /\
          zynq_inv ids s'' /\ coherent s'' = coherent s)).
Proof.
  intros H Hsz Hda Hmem. unfold zynq_ioctl_alloc. rewrite Z.gtb_ltb.
  destruct (Z.eqb_spec (mm_sz cmd) 0); [do 3 eexists; split; [done|]; left; repeat split; auto|].
  destruct (Z.ltb_spec (2 ^ 27) (mm_sz cmd)); [do 3 eexists; split; [done|]; left; repeat split; auto|].
  simpl orb. cbv iota. destruct (zynq_dmamgmt_get s (mm_dev_addr cmd)) as [x|] eqn:Eg.
  - do 3 eexists. split; [done|]. left. split; [done|]. split; [done|]. split; [done|].
    right. right. unfold zynq_dmamgmt_get in Eg. rewrite Z.geb_leb in Eg.
    destruct (Z.leb_spec POOLSZ (mm_dev_addr cmd)); [done|].
    destruct (is_locked (pool s) (mm_dev_addr cmd)) eqn:El; [|done].
    apply (ids_locked _ _ _ H); [lia|done].
  - destruct (dmamgmt_alloc_spec ids s (mm_sz cmd) mem H Hsz Hmem) as (a & i & s' & -> & Hc). cbn.
    destruct Hc as [(-> & Hi & _ & Hco & Hw)|(kvirt & -> & Hni & Hi & Hel & Hco & Hot)].
    { do 3 eexists. split; [done|]. right. left. by auto. }
    destruct (Hmem _ _ eq_refl) as (_ & [Ha _] & Hfr & _). rewrite (proj2 (Z.eqb_neq a 0)) by lia.
    do 3 eexists. split; [done|]. right. right. split; [done|]. exists i. split; [done|].
    split; [done|]. split; [by rewrite Hel|]. split; [by rewrite Hel|].
    destruct (ioctl_free_spec ids s' i (mm_sz cmd) Hi) as (s'' & Hf & Hi'' & Hco'').
    rewrite Hel in Hf, Hco''. exists s''. split; [done|]. split; [done|].
    rewrite Hco'', Hco. simpl. by rewrite delete_insert_id.
Qed.

(** ** Witnesses: one buffer of four bytes *)
Definition demo_first : option (Z * mm_cmd * zynq) :=
  zynq_ioctl_alloc zynq_dmamgmt_init (mk_mm 4 (2 ^ 64 - 1)) (Some (77, 4096)).

Lemma zynq_init_inv : zynq_inv [] zynq_dmamgmt_init.
Proof.
  split; try done.
  - apply (pool_init_inv POOLSZ POOLSZ_ok).
  - intros i Hi _. unfold elem, zynq_dmamgmt_init. cbn [elems]. rewrite nth_lookup, lookup_replicate_2 by lia. done.
  - intros i Hi. by apply elem_of_nil in Hi.
  - intros i j Hi. by apply elem_of_nil in Hi.
  - intros i j Hi. by apply elem_of_nil in Hi.
Qed.

Lemma demo_fresh (kvirt dma : Z) :
  Some (77, 4096) = Some (kvirt, dma) -> fresh_memory [] zynq_dmamgmt_init kvirt dma.
Proof. intros [= <- <-]. split_and!; try done. intros i Hi. by apply elem_of_nil in Hi. Qed.

Lemma zynq_alloc_free_witness :
  exists ret cmd' s',
    zynq_ioctl_alloc zynq_dmamgmt_init (mk_mm 4 (2 ^ 64 - 1)) (Some (77, 4096))
      = Some (ret, cmd', s').
Proof.
  destruct (zynq_alloc_free [] zynq_dmamgmt_init (mk_mm 4 (2 ^ 64 - 1)) (Some (77, 4096))
              zynq_init_inv) as (ret & cmd' & s' & H & _).
  - discriminate.
  - discriminate.
  - exact demo_fresh.
  - exists ret, cmd', s'. exact H.
Defined.

Definition demo_state : zynq :=
  match demo_first with Some (_, _, s) => s | None => zynq_dmamgmt_init end.

Lemma demo_state_inv : zynq_inv [0] demo_state.
Proof.
  destruct (dmamgmt_alloc_spec [] zynq_dmamgmt_init 4 (Some (77, 4096)) zynq_init_inv)
    as (a & i & s' & E & Hc); [done|exact demo_fresh|].
  assert (demo_state = s' /\ i = 0 /\ a = 4096) as (-> & -> & ->).
  { unfold demo_state, demo_first.
    assert (zynq_ioctl_alloc zynq_dmamgmt_init (mk_mm 4 (2 ^ 64 - 1)) (Some (77, 4096))
      = (zynq_dmamgmt_alloc zynq_dmamgmt_init 4 (Some (77, 4096)) ≫= fun '(a, _, s) =>
           if a =? 0 then Some (- ENOMEM, mk_mm 4 (2 ^ 64 - 1), s)
           else Some (0, mk_mm 4 a, s))) as -> by reflexivity.
    assert (exists s0, zynq_dmamgmt_alloc zynq_dmamgmt_init 4 (Some (77, 4096))
              = Some (4096, 0, s0)) as [s0 E0] by (by eexists).
    rewrite E in E0. simplify_eq. rewrite E. done. }
  destruct Hc as [(? & _)|(? & _ & _ & Hinv & _)]; [done|exact Hinv].
Qed.

Lemma zynq_copy_roundtrip_witness :
  exists s', zynq_ioctl_copyto demo_state (mk_copy 2 4096) None [5; 6] = Some (0, mk_copy 2 4096, s') /\
    zynq_ioctl_copyfrom s' (mk_copy 2 4096) true = Some (0, [5; 6]).
Proof.
  assert (0 ∈ [0]) as Hin by left.
  pose proof (zynq_copy_roundtrip [0] demo_state 0 None [5; 6] demo_state_inv Hin) as H.
  change (dma_addr (elem demo_state 0)) with 4096 in H.
  change (len (elem demo_state 0)) with 4 in H. simpl in H.
  destruct (decide (2 <= 4)) as [_|Hn]; [|exfalso; apply Hn; discriminate].
  destruct H as (s' & H1 & _ & H2 & _). exists s'. split; [exact H1|exact H2].
Defined.

End ZynqDma.
