(* ===== verification/DmaWrite.v ===== *)
(** * Writing to device memory through the BlueDMA engine
      (dma/tlkm_dma.c: tlkm_dma_copy_to; dma/blue_dma.c)

    tlkm_dma_copy_to cuts a transfer into chunks; each chunk draws a ticket, waits
    until the bounce buffer of its slot is free, fills it from user space, waits
    for its turn and issues a command; the engine works the commands off later, in
    order, and raises an interrupt for each, which counts it, unless the interrupt
    is lost.  Any number of callers and the engine run concurrently, and user memory
    may turn out to be unreadable at any chunk.  Proved: the engine writes what user
    space supplied, chunk by chunk in ticket order, although sixteen buffers are
    reused all the time; and a call that returns 0 has all its chunks in device
    memory. *)
From S2P Require Import Prelude.

Module DmaWrite.

Definition TLKM_DMA_CHUNK_SZ : Z := 262144.
Definition TLKM_DMA_CHUNKS : Z := 16.

(** ** State *)

(** A command the engine has accepted: REG_FPGA_ADDR, the slot of the buffer in
    REG_HOST_ADDR, REG_BTT. *)
Record cmd := mk_cmd { fpga_addr : Z; host_slot : Z; btt : Z }.

(** struct dma_engine (write direction), the commands in flight, the interrupts
    under way and those lost, and device memory; for the statement also what became
    of each ticket that has had its turn (the chunk that was issued, address and
    bytes, or None when the caller gave up), and how many commands are completed. *)
Record engine := mk_engine {
  wq_requested : Z;
  wq_enqueued : Z;
  wq_processed : Z;
  dma_buf_write : list (list Z);
  in_flight : list cmd;
  unreported : Z;
  lost : Z;
  devmem : Z -> Z;
  issued : list (option (Z * list Z));
  completed : nat
}.

(** Where a call is; [usr] are the user bytes that are left, [dev_addr] where they
    go, [last_chunk] the ticket.  Each wait is a place. *)
Inductive pc :=
| copy_loop (usr : list Z) (dev_addr last_chunk : Z)    (* while (len > 0) *)
| wait_free (usr : list Z) (dev_addr last_chunk : Z)    (* for the buffer of the slot *)
| fill (usr : list Z) (dev_addr last_chunk : Z)         (* copy_from_user *)
| wait_turn (usr : list Z) (dev_addr last_chunk : Z)    (* wq_enque, then copy_to *)
| wait_last (last_chunk : Z)                            (* for the last transfer *)
| err_enqueue (last_chunk err : Z)                      (* copy_err: *)
| err_process (last_chunk err : Z).

Inductive outcome := Next (c : pc) | Return (ret : Z).

(** ** Code *)

Definition slot (t : Z) : nat := Z.to_nat (t mod TLKM_DMA_CHUNKS).
Definition cpy_sz (usr : list Z) : Z := Z.min (Z.of_nat (length usr)) TLKM_DMA_CHUNK_SZ.

Definition set_buf (i : nat) (b : list Z) (e : engine) : engine :=
  mk_engine (wq_requested e) (wq_enqueued e) (wq_processed e) (<[i := b]> (dma_buf_write e))
    (in_flight e) (unreported e) (lost e) (devmem e) (issued e) (completed e).

(** atomic64_inc of the three counters; a ticket that has had its turn is noted. *)
Definition inc_requested (e : engine) : engine :=
  mk_engine (wq_requested e + 1) (wq_enqueued e) (wq_processed e) (dma_buf_write e)
    (in_flight e) (unreported e) (lost e) (devmem e) (issued e) (completed e).
Definition inc_enqueued (w : option (Z * list Z)) (e : engine) : engine :=
  mk_engine (wq_requested e) (wq_enqueued e + 1) (wq_processed e) (dma_buf_write e)
    (in_flight e) (unreported e) (lost e) (devmem e) (issued e ++ [w]) (completed e).
Definition inc_processed (e : engine) : engine :=
  mk_engine (wq_requested e) (wq_enqueued e) (wq_processed e + 1) (dma_buf_write e)
    (in_flight e) (unreported e) (lost e) (devmem e) (issued e) (completed e).

(** The four register writes of a command. *)
Definition start_cmd (c : cmd) (e : engine) : engine :=
  mk_engine (wq_requested e) (wq_enqueued e) (wq_processed e) (dma_buf_write e)
    (in_flight e ++ [c]) (unreported e) (lost e) (devmem e) (issued e) (completed e).

(** blue_dma_copy_to: the four register writes under the mutex, and the count; a
    caller killed at the mutex ([interrupted]) has issued nothing. *)
Definition blue_dma_copy_to (interrupted : bool) (e : engine) (dev_addr : Z) (sl : nat)
    (data : list Z) : engine :=
  if interrupted then e else
  inc_enqueued (Some (dev_addr, data))
    (start_cmd (mk_cmd dev_addr (Z.of_nat sl) (Z.of_nat (length data))) e).

(** One step of a call of tlkm_dma_copy_to, up to the next wait; [None]: it has to
    wait.  [killed] tells whether a signal is pending, [contended] whether another
    caller holds regs_mutex (only then does a signal stop the lock), [fault]
    after how many bytes user memory cannot be read, if so. *)
Definition thread_step (killed contended : bool) (fault : option nat) (c : pc) (e : engine)
    : option (engine * outcome) :=
  match c with
  | copy_loop usr dev_addr last_chunk =>
      if decide (usr = []) then Some (e, Next (wait_last last_chunk)) else
      Some (inc_requested e, Next (wait_free usr dev_addr (wq_requested e)))
  | wait_free usr dev_addr t =>
      if wq_processed e + TLKM_DMA_CHUNKS >? t then Some (e, Next (fill usr dev_addr t))
      else if killed then Some (e, Next (err_enqueue t (- EACCES))) else None
  | fill usr dev_addr t =>
      let old := nth (slot t) (dma_buf_write e) [] in
      let copied k := set_buf (slot t) (take k usr ++ drop k old) e in
      match fault with
      | Some k => Some (copied k, Next (err_enqueue t (- EAGAIN)))
      | None => Some (copied (Z.to_nat (cpy_sz usr)), Next (wait_turn usr dev_addr t))
      end
  | wait_turn usr dev_addr t =>
      if wq_enqueued e =? t then
        let n := Z.to_nat (cpy_sz usr) in
        Some (blue_dma_copy_to (killed && contended) e dev_addr (slot t) (take n usr),
              Next (copy_loop (drop n usr) (dev_addr + cpy_sz usr) t))
      else if killed then Some (e, Next (err_enqueue t (- EACCES))) else None
  | wait_last t =>
      if wq_processed e >? t then Some (e, Return 0)
      else if killed then Some (e, Return (- EACCES)) else None
  | err_enqueue t err =>
      if (wq_enqueued e =? t) || killed
      then Some (inc_enqueued None e, Next (err_process t err)) else None
  | err_process t err =>
      if (wq_processed e =? t) || killed then Some (inc_processed e, Return err) else None
  end.

(** The call: a misaligned device address is refused. *)
Definition tlkm_dma_copy_to (alignment dev_addr : Z) (usr : list Z) : outcome :=
  if nonzero (dev_addr mod alignment) then Return (- EAGAIN) else Next (copy_loop usr dev_addr 0).

(** Bytes written to device memory. *)
Definition write_mem (m : Z -> Z) (a : Z) (bytes : list Z) : Z -> Z :=
  fun x => if decide (a <= x < a + Z.of_nat (length bytes))
           then nth (Z.to_nat (x - a)) bytes 0 else m x.

(** The engine completes its first command: it reads the buffer now, and raises an
    interrupt. *)
Definition engine_step (e : engine) : option engine :=
  match in_flight e with
  | [] => None
  | c :: rest =>
      let data := take (Z.to_nat (btt c)) (nth (Z.to_nat (host_slot c)) (dma_buf_write e) []) in
      Some (mk_engine (wq_requested e) (wq_enqueued e) (wq_processed e) (dma_buf_write e)
              rest (unreported e + 1) (lost e) (write_mem (devmem e) (fpga_addr c) data)
              (issued e) (S (completed e)))
  end.

(** An interrupt is no longer under way. *)
Definition dec_unreported (missing : Z) (e : engine) : engine :=
  mk_engine (wq_requested e) (wq_enqueued e) (wq_processed e) (dma_buf_write e)
    (in_flight e) (unreported e - 1) (lost e + missing) (devmem e) (issued e) (completed e).

(** blue_dma_intr_handler_write: an interrupt arrives and is counted. *)
Definition intr_step (e : engine) : option engine :=
  if 0 <? unreported e then Some (inc_processed (dec_unreported 0 e)) else None.

(** An interrupt goes missing. *)
Definition lose_step (e : engine) : option engine :=
  if 0 <? unreported e then Some (dec_unreported 1 e) else None.

(** ** Callers and engine together *)

(** A call with its arguments. *)
Record thread := mk_thread { arg_usr : list Z; arg_dev : Z; at_ : pc }.
Record system := mk_system { eng : engine; threads : gmap nat thread }.

Inductive sys_step : system -> system -> Prop :=
| step_call (s : system) (t : nat) (alignment dev_addr : Z) (usr : list Z) (c : pc) :
    threads s !! t = None -> tlkm_dma_copy_to alignment dev_addr usr = Next c ->
    sys_step s (mk_system (eng s) (<[t := mk_thread usr dev_addr c]> (threads s)))
| step_run (s : system) (t : nat) (th : thread) (e : engine) (c : pc) (contended : bool)
    (fault : option nat) :
    threads s !! t = Some th -> thread_step false contended fault (at_ th) (eng s) = Some (e, Next c) ->
    sys_step s (mk_system e (<[t := mk_thread (arg_usr th) (arg_dev th) c]> (threads s)))
| step_return (s : system) (t : nat) (th : thread) (e : engine) (ret : Z) (contended : bool)
    (fault : option nat) :
    threads s !! t = Some th -> thread_step false contended fault (at_ th) (eng s) = Some (e, Return ret) ->
    sys_step s (mk_system e (delete t (threads s)))
| step_engine (s : system) (e : engine) :
    engine_step (eng s) = Some e -> sys_step s (mk_system e (threads s))
| step_intr (s : system) (e : engine) :
    intr_step (eng s) = Some e \/ lose_step (eng s) = Some e -> sys_step s (mk_system e (threads s)).

(** After tlkm_dma_init: sixteen buffers of one chunk, nothing requested. *)
Definition sys_init (m : Z -> Z) (bufs : list (list Z)) : system :=
  mk_system (mk_engine 0 0 0 bufs [] 0 0 m [] 0) ∅.

(** ** Specification *)

(** The chunks of a transfer. *)
Fixpoint chunks_of (fuel : nat) (usr : list Z) (dev_addr : Z) : list (Z * list Z) :=
  match fuel with
  | O => []
  | S fuel' =>
      if decide (usr = []) then []
      else let n := cpy_sz usr in
           (dev_addr, take (Z.to_nat n) usr) ::
           chunks_of fuel' (drop (Z.to_nat n) usr) (dev_addr + n)
  end.

Definition chunks (usr : list Z) (dev_addr : Z) : list (Z * list Z) :=
  chunks_of (length usr) usr dev_addr.

Definition apply_writes (m : Z -> Z) (ws : list (Z * list Z)) : Z -> Z :=
  foldl (fun m w => write_mem m w.1 w.2) m ws.

(** A call's ticket, if it has drawn one that is not yet in the queue, and whether
    it may touch its buffer. *)
Definition ticket (c : pc) : option Z :=
  match c with
  | wait_free _ _ t | fill _ _ t | wait_turn _ _ t | err_enqueue t _ => Some t
  | _ => None
  end.
Definition owns_buffer (c : pc) : option Z :=
  match c with fill _ _ t | wait_turn _ _ t => Some t | _ => None end.

(** The chunks that were really issued, with their tickets. *)
Fixpoint commands (k : Z) (l : list (option (Z * list Z))) : list (Z * (Z * list Z)) :=
  match l with
  | [] => []
  | Some w :: l' => (k, w) :: commands (k + 1) l'
  | None :: l' => commands (k + 1) l'
  end.

Definition issued_chunks (l : list (option (Z * list Z))) : list (Z * list Z) :=
  map snd (commands 0 l).

(** The chunks the engine has written. *)
Definition written (e : engine) : list (Z * list Z) :=
  take (completed e) (issued_chunks (issued e)).

(** *** Invariant *)

(** The command of the chunk with ticket [k]. *)
Definition cmd_of (kw : Z * (Z * list Z)) : cmd :=
  mk_cmd kw.2.1 (Z.of_nat (slot kw.1)) (Z.of_nat (length kw.2.2)).

(** The chunks of a call that are in [l], the others being those of the rest. *)
Definition progress (th : thread) (usr : list Z) (dev_addr : Z)
    (l : list (option (Z * list Z))) : Prop :=
  exists cs, chunks (arg_usr th) (arg_dev th) = cs ++ chunks usr dev_addr /\
    cs `sublist_of` issued_chunks l.

Definition thread_ok (e : engine) (th : thread) : Prop :=
  match at_ th with
  | copy_loop usr dev_addr t =>
      progress th usr dev_addr (take (Z.to_nat (t + 1)) (issued e)) /\ 0 <= t
  | wait_free usr dev_addr t =>
      usr <> [] /\ wq_enqueued e <= t < wq_requested e /\ progress th usr dev_addr (issued e)
  | fill usr dev_addr t =>
      usr <> [] /\ wq_enqueued e <= t < wq_requested e /\ t < wq_processed e + TLKM_DMA_CHUNKS /\
      progress th usr dev_addr (issued e)
  | wait_turn usr dev_addr t =>
      usr <> [] /\ wq_enqueued e <= t < wq_requested e /\ t < wq_processed e + TLKM_DMA_CHUNKS /\
      progress th usr dev_addr (issued e) /\
      take (Z.to_nat (cpy_sz usr)) (nth (slot t) (dma_buf_write e) [])
        = take (Z.to_nat (cpy_sz usr)) usr
  | wait_last t =>
      chunks (arg_usr th) (arg_dev th) `sublist_of`
        issued_chunks (take (Z.to_nat (t + 1)) (issued e)) /\ 0 <= t
  | err_enqueue t err =>
      err = - EAGAIN /\ wq_enqueued e <= t < wq_requested e /\ t < wq_processed e + TLKM_DMA_CHUNKS /\
      exists usr dev_addr, usr <> [] /\ progress th usr dev_addr (issued e)
  | err_process t err =>
      err = - EAGAIN /\ 0 <= t /\ issued e !! Z.to_nat t = Some None /\
      exists usr dev_addr, usr <> [] /\ progress th usr dev_addr (take (Z.to_nat t) (issued e))
  end.

Record eng_inv (m0 : Z -> Z) (e : engine) : Prop := {
  v_order : 0 <= wq_processed e <= wq_enqueued e /\ wq_enqueued e <= wq_requested e /\
    wq_enqueued e <= wq_processed e + TLKM_DMA_CHUNKS;
  v_intr : 0 <= unreported e /\ 0 <= lost e;
  v_issued : Z.of_nat (length (issued e)) = wq_enqueued e;
  v_bufs : length (dma_buf_write e) = 16%nat;
  v_completed : (completed e <= length (commands 0 (issued e)))%nat;
  v_flight : in_flight e = map cmd_of (drop (completed e) (commands 0 (issued e)));
  (* what wq_processed counts is completed, or was given up *)
  v_count : Z.of_nat (length (commands 0 (take (Z.to_nat (wq_processed e)) (issued e)))) +
    unreported e + lost e <= Z.of_nat (completed e);
  v_data k w : (k, w) ∈ drop (completed e) (commands 0 (issued e)) ->
    take (length w.2) (nth (slot k) (dma_buf_write e) []) = w.2;
  v_mem : devmem e = apply_writes m0 (written e)
}.

Record sys_inv (m0 : Z -> Z) (s : system) : Prop := {
  v_eng : eng_inv m0 (eng s);
  v_thread i th : threads s !! i = Some th -> thread_ok (eng s) th;
  v_unique i j a b x : threads s !! i = Some a -> threads s !! j = Some b ->
    ticket (at_ a) = Some x -> ticket (at_ b) = Some x -> i = j
}.

(** ** Lemmas *)
Lemma slot_inj (p k t : Z) :
  p <= k < p + TLKM_DMA_CHUNKS -> p <= t < p + TLKM_DMA_CHUNKS -> slot k = slot t -> k = t.
Proof. unfold slot, TLKM_DMA_CHUNKS. intros. dlia. Qed.

Lemma slot_lt (t : Z) : (slot t < 16)%nat.
Proof. unfold slot, TLKM_DMA_CHUNKS. dlia. Qed.

Lemma cpy_sz_le (usr : list Z) :
  usr <> [] -> 0 < cpy_sz usr <= Z.of_nat (length usr) /\ cpy_sz usr <= TLKM_DMA_CHUNK_SZ.
Proof.
  unfold cpy_sz, TLKM_DMA_CHUNK_SZ. destruct usr; [done|]. intros _. simpl length. lia.
Qed.

Lemma length_chunk (usr : list Z) :
  usr <> [] -> length (take (Z.to_nat (cpy_sz usr)) usr) = Z.to_nat (cpy_sz usr).
Proof. intros H. destruct (cpy_sz_le usr H). rewrite length_take. lia. Qed.

(** More fuel than bytes does not matter. *)
Lemma chunks_of_fuel (n m : nat) (usr : list Z) (dev_addr : Z) :
  (length usr <= n)%nat -> (length usr <= m)%nat ->
  chunks_of n usr dev_addr = chunks_of m usr dev_addr.
Proof.
  revert m usr dev_addr. induction n as [|n IH]; intros m usr dev_addr Hn Hm.
  - destruct usr; [|simpl in Hn; lia]. by destruct m.
  - simpl. destruct (decide (usr = [])) as [->|Hne].
    + by destruct m; simpl; rewrite ?decide_True.
    + destruct m as [|m]; [destruct usr; simpl in *; [done|lia]|]. simpl.
      rewrite decide_False by done. f_equal. destruct (cpy_sz_le usr Hne) as [? _].
      apply IH; rewrite length_drop; lia.
Qed.

Lemma chunks_cons (usr : list Z) (dev_addr : Z) :
  usr <> [] ->
  chunks usr dev_addr = (dev_addr, take (Z.to_nat (cpy_sz usr)) usr) ::
    chunks (drop (Z.to_nat (cpy_sz usr)) usr) (dev_addr + cpy_sz usr).
Proof.
  intros H. unfold chunks at 1. destruct usr as [|x usr]; [done|]. simpl length. simpl chunks_of.
  f_equal. destruct (cpy_sz_le (x :: usr) H) as [? _]. apply chunks_of_fuel; rewrite length_drop;
    simpl length in *; lia.
Qed.

(** Cutting a transfer into chunks does not change what is written. *)
Lemma write_mem_app (m : Z -> Z) (a : Z) (l k : list Z) (x : Z) :
  write_mem (write_mem m a l) (a + Z.of_nat (length l)) k x = write_mem m a (l ++ k) x.
Proof.
  unfold write_mem. rewrite length_app.
  repeat case_decide; try lia; try done.
  - rewrite app_nth2 by lia. f_equal. lia.
  - rewrite app_nth1 by lia. done.
Qed.

Lemma write_mem_ext (m m' : Z -> Z) (a : Z) (l : list Z) (x : Z) :
  (forall y, m y = m' y) -> write_mem m a l x = write_mem m' a l x.
Proof. intros H. unfold write_mem. by case_decide. Qed.

Lemma apply_writes_ext (ws : list (Z * list Z)) (m m' : Z -> Z) (x : Z) :
  (forall y, m y = m' y) -> apply_writes m ws x = apply_writes m' ws x.
Proof.
  revert m m'. induction ws as [|w ws IH]; intros m m' H; simpl; [done|].
  apply IH. intros y. by apply write_mem_ext.
Qed.

Lemma apply_chunks (n : nat) (m : Z -> Z) (usr : list Z) (dev_addr x : Z) :
  (length usr <= n)%nat -> apply_writes m (chunks usr dev_addr) x = write_mem m dev_addr usr x.
Proof.
  revert m usr dev_addr. induction n as [|n IH]; intros m usr dev_addr Hn.
  - destruct usr; [|simpl in Hn; lia]. simpl. unfold write_mem. case_decide; [simpl in *; lia|done].
  - destruct (decide (usr = [])) as [->|Hne].
    { simpl. unfold write_mem. case_decide; [simpl in *; lia|done]. }
    rewrite chunks_cons by done. simpl. destruct (cpy_sz_le usr Hne) as [? _].
    unfold apply_writes in IH. rewrite IH by (rewrite length_drop; lia).
    replace (dev_addr + cpy_sz usr) with
      (dev_addr + Z.of_nat (length (take (Z.to_nat (cpy_sz usr)) usr)))
      by (rewrite length_chunk by done; lia).
    by rewrite write_mem_app, take_drop.
Qed.

(** *** Tickets and commands *)
Lemma prefix_is_sublist {A} (l k : list A) : l `prefix_of` k -> l `sublist_of` k.
Proof. intros [r ->]. by apply sublist_inserts_r. Qed.

Lemma commands_app (l l' : list (option (Z * list Z))) (k : Z) :
  commands k (l ++ l') = commands k l ++ commands (k + Z.of_nat (length l)) l'.
Proof.
  revert k. induction l as [|[w|] l IH]; intros k; simpl.
  - f_equal. lia.
  - rewrite IH. do 2 f_equal. f_equal. lia.
  - rewrite IH. f_equal. f_equal. lia.
Qed.

Lemma commands_bounds (l : list (option (Z * list Z))) (k j : Z) (w : Z * list Z) :
  (j, w) ∈ commands k l -> k <= j < k + Z.of_nat (length l).
Proof.
  revert k. induction l as [|[v|] l IH]; intros k; simpl; intros Hin.
  - by apply elem_of_nil in Hin.
  - apply elem_of_cons in Hin as [[= -> ->]|Hin]; [lia|]. apply IH in Hin. lia.
  - apply IH in Hin. lia.
Qed.

Lemma issued_chunks_app (l l' : list (option (Z * list Z))) :
  issued_chunks l `prefix_of` issued_chunks (l ++ l').
Proof. unfold issued_chunks. rewrite commands_app, map_app. by eexists. Qed.

Lemma issued_chunks_take (n m : nat) (l : list (option (Z * list Z))) :
  (n <= m)%nat -> issued_chunks (take n l) `prefix_of` issued_chunks (take m l).
Proof.
  intros H. replace (take m l) with (take n l ++ drop n (take m l)); [apply issued_chunks_app|].
  rewrite <- (take_drop n (take m l)) at 2. by rewrite take_take, Nat.min_l.
Qed.

(** Everything before [wq_processed] that was issued is written, so what is in
    flight has later tickets. *)
Lemma commands_split (e : engine) (n : nat) :
  commands 0 (issued e) = commands 0 (take n (issued e)) ++
    commands (Z.of_nat (length (take n (issued e)))) (drop n (issued e)).
Proof. rewrite <- (take_drop n (issued e)) at 1. by rewrite commands_app. Qed.

Lemma counted_written (m0 : Z -> Z) (e : engine) (n : nat) :
  eng_inv m0 e -> (n <= Z.to_nat (wq_processed e))%nat ->
  issued_chunks (take n (issued e)) `sublist_of` written e.
Proof.
  intros H Hn. destruct (v_intr _ _ H) as [Hu Hl]. pose proof (v_count _ _ H) as Hc.
  etrans; [apply prefix_is_sublist, (issued_chunks_take _ _ _ Hn)|].
  unfold written, issued_chunks. rewrite (commands_split e (Z.to_nat (wq_processed e))).
  rewrite map_app, take_app. apply sublist_inserts_r.
  rewrite (take_ge (map snd _)); [done|]. rewrite length_map. lia.
Qed.

Lemma pending_ticket (m0 : Z -> Z) (e : engine) (k : Z) (w : Z * list Z) :
  eng_inv m0 e -> (k, w) ∈ drop (completed e) (commands 0 (issued e)) ->
  wq_processed e <= k < wq_enqueued e.
Proof.
  intros H Hin. destruct (v_intr _ _ H) as [Hu Hl]. pose proof (v_count _ _ H) as Hc.
  pose proof (v_order _ _ H) as Ho. pose proof (v_issued _ _ H) as Hi. split.
  - rewrite (commands_split e (Z.to_nat (wq_processed e))) in Hin.
    rewrite drop_app_ge in Hin by lia. apply subseteq_drop, commands_bounds in Hin.
    rewrite length_take in Hin. lia.
  - apply subseteq_drop, commands_bounds in Hin. lia.
Qed.

(** *** What one caller does leaves the others alone *)
Lemma progress_mono (th : thread) (usr : list Z) (d : Z) (l k : list (option (Z * list Z))) :
  issued_chunks l `sublist_of` issued_chunks k -> progress th usr d l -> progress th usr d k.
Proof. intros Hlk (cs & ? & ?). exists cs. split; [done|]. by etrans. Qed.

Lemma issued_take_prefix (n : nat) (l k : list (option (Z * list Z))) :
  l `prefix_of` k -> issued_chunks (take n l) `sublist_of` issued_chunks (take n k).
Proof. intros [r ->]. rewrite take_app. apply prefix_is_sublist, issued_chunks_app. Qed.

Lemma thread_ok_frame (e e' : engine) (th : thread) :
  thread_ok e th -> issued e `prefix_of` issued e' ->
  wq_requested e <= wq_requested e' -> wq_processed e <= wq_processed e' ->
  (forall x, ticket (at_ th) = Some x -> wq_enqueued e' <= x) ->
  (forall x, owns_buffer (at_ th) = Some x ->
     nth (slot x) (dma_buf_write e') [] = nth (slot x) (dma_buf_write e) []) ->
  thread_ok e' th.
Proof.
  intros H Hp Hr Hc Ht Hb. assert (issued_chunks (issued e) `sublist_of` issued_chunks (issued e')) as Hs.
  { destruct Hp as [r ->]. apply prefix_is_sublist, issued_chunks_app. }
  unfold thread_ok in *.
  destruct (at_ th) as [u d t|u d t|u d t|u d t|t|t err|t err]; simpl in *.
  - destruct H as [H ?]. split; [|done]. eapply progress_mono; [|done].
    by apply issued_take_prefix.
  - destruct H as (? & ? & ?). specialize (Ht t eq_refl). split; [done|]. split; [lia|].
    by eapply progress_mono.
  - destruct H as (? & ? & ? & ?). specialize (Ht t eq_refl). split; [done|]. split; [lia|].
    split; [lia|]. by eapply progress_mono.
  - destruct H as (? & ? & ? & ? & ?). specialize (Ht t eq_refl). split; [done|]. split; [lia|].
    split; [lia|]. split; [by eapply progress_mono|]. by rewrite Hb.
  - destruct H as [H ?]. split; [|done]. etrans; [done|]. by apply issued_take_prefix.
  - destruct H as (? & ? & ? & u & d & ? & ?). specialize (Ht t eq_refl). split; [done|]. split; [lia|].
    split; [lia|]. exists u, d. split; [done|]. by eapply progress_mono.
  - destruct H as (? & ? & Hn & u & d & ? & ?). split; [done|]. split; [done|].
    split; [by eapply prefix_lookup_Some|]. exists u, d. split; [done|].
    eapply progress_mono; [|done]. by apply issued_take_prefix.
Qed.

Lemma thread_ticket (e : engine) (th : thread) (x : Z) :
  thread_ok e th -> ticket (at_ th) = Some x -> wq_enqueued e <= x < wq_requested e.
Proof. unfold thread_ok. destruct (at_ th); simpl; intros; simplify_eq; naive_solver. Qed.

Lemma thread_owns (e : engine) (th : thread) (x : Z) :
  thread_ok e th -> owns_buffer (at_ th) = Some x ->
  ticket (at_ th) = Some x /\ wq_enqueued e <= x /\ x < wq_processed e + TLKM_DMA_CHUNKS.
Proof. unfold thread_ok. destruct (at_ th); simpl; intros; simplify_eq; naive_solver lia. Qed.

(** A caller has moved from [th] to [c]. *)
Lemma sys_inv_update (m0 : Z -> Z) (s : system) (t : nat) (th : thread) (e : engine) (c : pc) :
  sys_inv m0 s -> threads s !! t = Some th -> eng_inv m0 e ->
  thread_ok e (mk_thread (arg_usr th) (arg_dev th) c) ->
  (forall i th', i <> t -> threads s !! i = Some th' -> thread_ok e th') ->
  (forall x, ticket c = Some x -> ticket (at_ th) = Some x \/ x = wq_requested (eng s)) ->
  sys_inv m0 (mk_system e (<[t := mk_thread (arg_usr th) (arg_dev th) c]> (threads s))).
Proof.
  intros H Ht He Hc Ho Hx. split; simpl; [done| |].
  - intros i th'. rewrite lookup_insert_Some. intros [[_ <-]|[Hne Hi]]; [done|]. by apply (Ho i).
  - assert (forall j b x, t <> j -> threads s !! j = Some b -> ticket (at_ b) = Some x ->
              ticket c <> Some x) as Hdiff.
    { intros j b x Hj Hb Hbx Hcx. destruct (Hx x Hcx) as [Hth| ->].
      - by destruct Hj, (v_unique _ _ H t j th b x).
      - pose proof (thread_ticket _ _ _ (v_thread _ _ H j b Hb) Hbx). lia. }
    intros i j a b x. rewrite !lookup_insert_Some.
    intros [[<- <-]|[Hi Ha]] [[<- <-]|[Hj Hb]] Hax Hbx; try done.
    + by destruct (Hdiff j b x Hj Hb Hbx).
    + by destruct (Hdiff i a x Hi Ha Hax).
    + by apply (v_unique _ _ H i j a b x).
Qed.

(** *** The steps *)
Lemma fill_inv (m0 : Z -> Z) (e : engine) (t : Z) (b : list Z) :
  eng_inv m0 e -> wq_enqueued e <= t < wq_processed e + TLKM_DMA_CHUNKS ->
  eng_inv m0 (set_buf (slot t) b e).
Proof.
  intros H Ht. pose proof (v_order _ _ H) as Ho.
  assert (forall k w, (k, w) ∈ drop (completed e) (commands 0 (issued e)) -> slot k <> slot t) as Hne.
  { intros k w Hin E. pose proof (pending_ticket _ _ _ _ H Hin).
    apply (slot_inj (wq_processed e)) in E; lia. }
  destruct H as [_ Hu Hi Hb Hc Hf Hn Hd Hm]. split; simpl; try done.
  - by rewrite length_insert.
  - intros k w Hk. rewrite nth_lookup, list_lookup_insert_ne, <- nth_lookup; [by apply Hd|].
    intros E. by apply (Hne k w).
Qed.

Lemma fill_other (e : engine) (t x : Z) (b : list Z) :
  slot t <> slot x ->
  nth (slot x) (dma_buf_write (set_buf (slot t) b e)) [] = nth (slot x) (dma_buf_write e) [].
Proof. intros H. simpl. by rewrite nth_lookup, list_lookup_insert_ne, <- nth_lookup. Qed.

(** A ticket has its turn: its command is issued, or it is given up. *)
Lemma enqueue_inv (m0 : Z -> Z) (e : engine) (d : Z) (data : list Z) :
  eng_inv m0 e -> wq_enqueued e < wq_requested e ->
  wq_enqueued e < wq_processed e + TLKM_DMA_CHUNKS ->
  take (length data) (nth (slot (wq_enqueued e)) (dma_buf_write e) []) = data ->
  eng_inv m0 (blue_dma_copy_to false e d (slot (wq_enqueued e)) data).
Proof.
  intros H Hr Hw Hdata. pose proof (v_order _ _ H) as Ho. destruct H as [_ Hu Hi Hb Hc Hf Hn Hd Hm].
  assert (commands 0 (issued e ++ [Some (d, data)]) =
    commands 0 (issued e) ++ [(wq_enqueued e, (d, data))]) as Hcmd.
  { rewrite commands_app. simpl. by rewrite Hi. }
  split; simpl; rewrite ?Hcmd; try done; try lia.
  - rewrite length_app. simpl. lia.
  - rewrite length_app. simpl. lia.
  - rewrite drop_app_le by lia. by rewrite map_app, Hf.
  - by rewrite take_app_le by lia.
  - intros k w. rewrite drop_app_le by lia. rewrite elem_of_app, list_elem_of_singleton.
    intros [Hin|[= -> ->]]; [by apply Hd|done].
  - rewrite Hm. unfold written, issued_chunks. simpl. rewrite Hcmd, map_app, take_app_le; [done|].
    rewrite length_map. lia.
Qed.

Lemma give_up_inv (m0 : Z -> Z) (e : engine) :
  eng_inv m0 e -> wq_enqueued e < wq_requested e ->
  wq_enqueued e < wq_processed e + TLKM_DMA_CHUNKS -> eng_inv m0 (inc_enqueued None e).
Proof.
  intros H Hr Hw. pose proof (v_order _ _ H) as Ho. destruct H as [_ Hu Hi Hb Hc Hf Hn Hd Hm].
  assert (commands 0 (issued e ++ [None]) = commands 0 (issued e)) as Hcmd.
  { rewrite commands_app. simpl. by rewrite app_nil_r. }
  split; simpl; rewrite ?Hcmd; try done; try lia.
  - rewrite length_app. simpl. lia.
  - by rewrite take_app_le by lia.
  - rewrite Hm. unfold written, issued_chunks. simpl. by rewrite Hcmd.
Qed.

Lemma request_inv (m0 : Z -> Z) (e : engine) : eng_inv m0 e -> eng_inv m0 (inc_requested e).
Proof. intros []. split; simpl; try done. lia. Qed.

(** One more is counted: an interrupt of a completed command, or a ticket that was
    given up. *)
Lemma take_S_issued (e : engine) (n : nat) (o : option (Z * list Z)) :
  issued e !! n = Some o ->
  length (commands 0 (take (S n) (issued e))) =
    (length (commands 0 (take n (issued e))) + match o with Some _ => 1 | None => 0 end)%nat.
Proof.
  intros Ho. rewrite (take_S_r _ _ o) by done. rewrite commands_app, length_app. by destruct o.
Qed.

Lemma count_inv (m0 : Z -> Z) (e : engine) :
  eng_inv m0 e -> issued e !! Z.to_nat (wq_processed e) = Some None -> eng_inv m0 (inc_processed e).
Proof.
  intros H Hn. pose proof (v_order _ _ H) as Ho. pose proof (v_issued _ _ H) as Hi.
  pose proof (lookup_lt_Some _ _ _ Hn) as Hlt. pose proof (take_S_issued e _ _ Hn) as HS. cbv iota in HS.
  destruct H as [_ Hu _ Hb Hc Hf Hct Hd Hm]. split; simpl; try done; try lia.
  replace (Z.to_nat (wq_processed e + 1)) with (S (Z.to_nat (wq_processed e))) by lia. lia.
Qed.

Lemma intr_inv (m0 : Z -> Z) (e e' : engine) :
  eng_inv m0 e -> intr_step e = Some e' \/ lose_step e = Some e' ->
  eng_inv m0 e' /\ issued e' = issued e /\ wq_requested e' = wq_requested e /\
  wq_enqueued e' = wq_enqueued e /\ wq_processed e <= wq_processed e' /\
  dma_buf_write e' = dma_buf_write e.
Proof.
  intros H Hs. unfold intr_step, lose_step in Hs.
  destruct (Z.ltb_spec 0 (unreported e)) as [Hu0|]; [|by destruct Hs].
  pose proof (v_order _ _ H) as Ho. pose proof (v_issued _ _ H) as Hi. destruct (v_intr _ _ H) as [Hu Hl].
  pose proof (v_count _ _ H) as Hct. pose proof (v_completed _ _ H) as Hc.
  assert (exists o, issued e !! Z.to_nat (wq_processed e) = Some o) as [o Hn].
  { apply lookup_lt_is_Some. destruct (decide (Z.to_nat (wq_processed e) < length (issued e)))%nat; [done|].
    exfalso. rewrite take_ge in Hct by lia. lia. }
  pose proof (take_S_issued e _ _ Hn) as HS. apply lookup_lt_Some in Hn.
  destruct H as [_ _ _ Hb _ Hf _ Hd Hm].
  destruct Hs as [[= <-]|[= <-]]; (split; [|simpl; split_and!; try done; lia]);
    split; simpl; try done; try lia.
  replace (Z.to_nat (wq_processed e + 1)) with (S (Z.to_nat (wq_processed e))) by lia.
  destruct o; cbv iota in HS; lia.
Qed.

(** A caller has no other's slot. *)
Lemma slots_differ (m0 : Z -> Z) (s : system) (t i : nat) (th th' : thread) (k x : Z) :
  sys_inv m0 s -> threads s !! t = Some th -> ticket (at_ th) = Some k ->
  k < wq_processed (eng s) + TLKM_DMA_CHUNKS ->
  i <> t -> threads s !! i = Some th' -> owns_buffer (at_ th') = Some x -> slot k <> slot x.
Proof.
  intros H Ht Hk Hw Hi Hth Hx E. pose proof (v_order _ _ (v_eng _ _ H)).
  pose proof (thread_ticket _ _ _ (v_thread _ _ H t th Ht) Hk).
  destruct (thread_owns _ _ _ (v_thread _ _ H i th' Hth) Hx) as (Hx1 & ? & ?).
  apply (slot_inj (wq_processed (eng s))) in E; [|lia|lia]. subst x.
  by apply Hi, (v_unique _ _ H i t th' th k).
Qed.

(** The bounce buffer of a caller is filled, wholly or in part. *)
Lemma fill_step_inv (m0 : Z -> Z) (s : system) (t : nat) (th : thread) (u : list Z) (d k : Z)
    (b : list Z) (c : pc) :
  sys_inv m0 s -> threads s !! t = Some th -> at_ th = fill u d k -> ticket c = Some k ->
  thread_ok (set_buf (slot k) b (eng s)) (mk_thread (arg_usr th) (arg_dev th) c) ->
  sys_inv m0 (mk_system (set_buf (slot k) b (eng s))
    (<[t := mk_thread (arg_usr th) (arg_dev th) c]> (threads s))).
Proof.
  intros H Ht Ea Hc Hok'. pose proof (v_thread _ _ H t th Ht) as Hok. unfold thread_ok in Hok.
  rewrite Ea in Hok. destruct Hok as (Hne & Hk & Hw & Hpr).
  apply sys_inv_update; try done.
  - apply fill_inv; [apply H|lia].
  - intros i th' Hi Hth. eapply thread_ok_frame; [by apply (v_thread _ _ H i)|done|done|done| |].
    + intros x Hx. apply (thread_ticket _ _ _ (v_thread _ _ H i th' Hth) Hx).
    + intros x Hx. apply fill_other. eapply (slots_differ m0 s t i th th'); try done. by rewrite Ea.
  - rewrite Ea, Hc. auto.
Qed.

(** The ticket of a caller has had its turn. *)
Lemma turn_step_inv (m0 : Z -> Z) (s : system) (t : nat) (th : thread) (e : engine) (c : pc)
    (o : option (Z * list Z)) :
  sys_inv m0 s -> threads s !! t = Some th -> ticket (at_ th) = Some (wq_enqueued (eng s)) ->
  eng_inv m0 e -> issued e = issued (eng s) ++ [o] -> wq_requested e = wq_requested (eng s) ->
  wq_processed e = wq_processed (eng s) -> wq_enqueued e = wq_enqueued (eng s) + 1 ->
  dma_buf_write e = dma_buf_write (eng s) -> ticket c = None ->
  thread_ok e (mk_thread (arg_usr th) (arg_dev th) c) ->
  sys_inv m0 (mk_system e (<[t := mk_thread (arg_usr th) (arg_dev th) c]> (threads s))).
Proof.
  intros H Ht Hx He Ei Er Ep Ee Eb Hc Hok. apply sys_inv_update; try done; [|by rewrite Hc].
  intros i th' Hne Hth. eapply thread_ok_frame; [by apply (v_thread _ _ H i)|by eexists|lia|lia| |].
  - intros x Hx'. pose proof (thread_ticket _ _ _ (v_thread _ _ H i th' Hth) Hx'). rewrite Ee.
    destruct (decide (x = wq_enqueued (eng s))) as [->|]; [|lia].
    destruct Hne. by apply (v_unique _ _ H i t th' th (wq_enqueued (eng s))).
  - intros x _. by rewrite Eb.
Qed.

Lemma dma_thread_step_inv (m0 : Z -> Z) (s : system) (t : nat) (th : thread) (e : engine) (c : pc)
    (contended : bool) (fault : option nat) :
  sys_inv m0 s -> threads s !! t = Some th ->
  thread_step false contended fault (at_ th) (eng s) = Some (e, Next c) ->
  sys_inv m0 (mk_system e (<[t := mk_thread (arg_usr th) (arg_dev th) c]> (threads s))).
Proof.
  intros H Ht Hs. pose proof (v_eng _ _ H) as He. pose proof (v_thread _ _ H t th Ht) as Hok.
  assert (forall i th', i <> t -> threads s !! i = Some th' -> thread_ok (eng s) th') as Hoth
    by (intros i th' _; apply (v_thread _ _ H)).
  pose proof (v_order _ _ He) as Ho. pose proof (v_issued _ _ He) as Hi.
  unfold thread_ok in Hok.
  destruct (at_ th) as [u d k|u d k|u d k|u d k|k|k err|k err] eqn:Ea; simpl in Hs; try done.
  - destruct Hok as [Hpr Hk]. destruct (decide (u = [])) as [->|Hne]; simplify_eq.
    + apply sys_inv_update; try done. unfold thread_ok. simpl. split; [|done].
      destruct Hpr as (cs & -> & Hcs). by rewrite app_nil_r.
    + apply sys_inv_update; try done.
      * by apply request_inv.
      * unfold thread_ok. simpl. split; [done|]. split; [lia|]. eapply progress_mono; [|done].
        rewrite <- (take_drop (Z.to_nat (k + 1)) (issued (eng s))) at 2.
        apply prefix_is_sublist, issued_chunks_app.
      * intros i th' Hni Hth. eapply thread_ok_frame; [by apply (Hoth i)|done|simpl; lia|done| |done].
        intros x Hx. apply (thread_ticket _ _ _ (Hoth i th' Hni Hth) Hx).
      * intros x [= <-]. by right.
  - destruct (Z.gtb_spec (wq_processed (eng s) + TLKM_DMA_CHUNKS) k); simplify_eq.
    apply sys_inv_update; try done.
    + unfold thread_ok. simpl. naive_solver lia.
    + rewrite Ea. simpl. auto.
  - destruct Hok as (Hne & Hk & Hw & Hpr). destruct fault as [n|]; simplify_eq.
    + eapply fill_step_inv; try done. unfold thread_ok. simpl. split_and!; try done; try lia.
      by exists u, d.
    + eapply fill_step_inv; try done. unfold thread_ok. simpl.
      split; [done|]. split; [done|]. split; [done|]. split; [done|].
      rewrite nth_lookup, list_lookup_insert_eq by (rewrite (v_bufs _ _ He); apply slot_lt).
      simpl. rewrite take_app_le by (rewrite length_chunk by done; lia).
      rewrite take_take. f_equal. lia.
  - destruct (Z.eqb_spec (wq_enqueued (eng s)) k) as [<-|]; simplify_eq.
    destruct Hok as (Hne & Hk & Hw & Hpr & Hbuf).
    eapply turn_step_inv; try done; [by rewrite Ea| |].
    + apply enqueue_inv; [done|lia|done|]. by rewrite length_chunk.
    + unfold thread_ok. simpl. split; [|lia]. destruct Hpr as (cs & Hcs & Hsub).
      exists (cs ++ [(d, take (Z.to_nat (cpy_sz u)) u)]). cbn [arg_usr arg_dev]. split.
      * rewrite Hcs, chunks_cons by done. by rewrite <- app_assoc.
      * rewrite (take_ge (issued (eng s) ++ _)) by (rewrite length_app; simpl; lia).
        unfold issued_chunks. rewrite commands_app, map_app. by apply sublist_app.
  - by destruct (wq_processed (eng s) >? k).
  - destruct (Z.eqb_spec (wq_enqueued (eng s)) k) as [<-|]; simplify_eq/=.
    destruct Hok as (-> & Hk & Hw & u & d & Hne & Hpr).
    eapply turn_step_inv; try done; [by rewrite Ea|by apply give_up_inv; [|lia|]|].
    unfold thread_ok. simpl. split; [done|]. split; [lia|]. rewrite <- Hi, Nat2Z.id.
    split; [by rewrite lookup_app_r, Nat.sub_diag by lia|]. exists u, d. split; [done|].
    by rewrite take_app_length.
  - destruct (Z.eqb_spec (wq_processed (eng s)) k); by simplify_eq/=.
Qed.

Lemma engine_step_inv (m0 : Z -> Z) (e e' : engine) :
  eng_inv m0 e -> engine_step e = Some e' ->
  eng_inv m0 e' /\ issued e' = issued e /\ wq_requested e' = wq_requested e /\
  wq_enqueued e' = wq_enqueued e /\ wq_processed e <= wq_processed e' /\
  dma_buf_write e' = dma_buf_write e.
Proof.
  intros He Hs. unfold engine_step in Hs. pose proof (v_flight _ _ He) as Hf.
  pose proof (v_order _ _ He) as Ho.
  destruct (drop (completed e) (commands 0 (issued e))) as [|[k w] rest] eqn:Ed; simpl in Hf;
    rewrite Hf in Hs; [done|]. injection Hs as <-. split; [|simpl; split_and!; try done; lia].
  assert (commands 0 (issued e) !! completed e = Some (k, w)) as Hw.
  { rewrite <- (Nat.add_0_r (completed e)), <- lookup_drop, Ed. done. }
  assert (drop (S (completed e)) (commands 0 (issued e)) = rest) as Ed'.
  { rewrite <- Nat.add_1_r, <- drop_drop, Ed. done. }
  pose proof (v_data _ _ He k w ltac:(rewrite Ed; by left)) as Hdata.
  destruct He as [_ Hu Hi Hb Hc _ Hct Hd Hm]. split; simpl; rewrite ?Ed'; try done; try lia.
  - apply lookup_lt_Some in Hw. lia.
  - intros k' w' Hin. apply Hd. rewrite Ed. by right.
  - unfold written. simpl. rewrite (take_S_r _ _ w).
    + unfold apply_writes. rewrite foldl_app. simpl. rewrite Hm, !Nat2Z.id, Hdata. done.
    + unfold issued_chunks. by rewrite list_lookup_fmap, Hw.
Qed.

(** The engine, or an interrupt, has moved on. *)
Lemma sys_inv_engine (m0 : Z -> Z) (s : system) (e : engine) :
  sys_inv m0 s -> eng_inv m0 e /\ issued e = issued (eng s) /\ wq_requested e = wq_requested (eng s) /\
    wq_enqueued e = wq_enqueued (eng s) /\ wq_processed (eng s) <= wq_processed e /\
    dma_buf_write e = dma_buf_write (eng s) -> sys_inv m0 (mk_system e (threads s)).
Proof.
  intros H (He & Ei & Er & Ee & Ep & Eb). split; simpl; [done| |apply (v_unique _ _ H)].
  intros i th Hth. eapply thread_ok_frame;
    [by apply (v_thread _ _ H i)|by rewrite Ei|lia|done| |by rewrite Eb].
  intros x Hx. rewrite Ee. apply (thread_ticket _ _ _ (v_thread _ _ H i th Hth) Hx).
Qed.

Lemma sys_inv_delete (m0 : Z -> Z) (s : system) (t : nat) :
  sys_inv m0 s -> sys_inv m0 (mk_system (eng s) (delete t (threads s))).
Proof.
  intros H. split; simpl; [apply H| |].
  - intros i a. rewrite lookup_delete_Some. intros [_ ?]. by apply (v_thread _ _ H i).
  - intros i j a b x. rewrite !lookup_delete_Some. intros [_ ?] [_ ?]. by apply (v_unique _ _ H).
Qed.

(** A call returns: its result, and what it leaves. *)
Lemma return_spec (m0 : Z -> Z) (s : system) (t : nat) (th : thread) (e : engine) (ret : Z)
    (contended : bool) (fault : option nat) :
  sys_inv m0 s -> threads s !! t = Some th ->
  thread_step false contended fault (at_ th) (eng s) = Some (e, Return ret) ->
  sys_inv m0 (mk_system e (delete t (threads s))) /\
  ((ret = 0 /\ chunks (arg_usr th) (arg_dev th) `sublist_of` written (eng s)) \/
   (ret = - EAGAIN /\ exists cs rest, chunks (arg_usr th) (arg_dev th) = cs ++ rest /\ rest <> [] /\
      cs `sublist_of` written (eng s))).
Proof.
  intros H Ht Hs. pose proof (v_thread _ _ H t th Ht) as Hok. pose proof (v_eng _ _ H) as He.
  pose proof (v_order _ _ He) as Ho. unfold thread_ok in Hok.
  destruct (at_ th) as [u d k|u d k|u d k|u d k|k|k err|k err]; simpl in Hs; try done;
    try (repeat case_match; by simplify_eq).
  - destruct (Z.gtb_spec (wq_processed (eng s)) k); simplify_eq. destruct Hok as [Hsub Hk].
    split; [by apply sys_inv_delete|]. left. split; [done|]. etrans; [done|].
    eapply counted_written; [done|lia].
  - destruct (Z.eqb_spec (wq_processed (eng s)) k) as [<-|]; simplify_eq/=.
    destruct Hok as (-> & Hk & Hn & u & d & Hne & cs & Hcs & Hsub).
    pose proof (count_inv _ _ He Hn) as He'. split.
    + change (mk_system (inc_processed (eng s)) (delete t (threads s))) with
        (mk_system (inc_processed (eng s)) (threads (mk_system (eng s) (delete t (threads s))))).
      apply sys_inv_engine; [by apply sys_inv_delete|]. simpl. split_and!; try done. lia.
    + right. split; [done|]. exists cs, (chunks u d). split; [done|].
      split; [by rewrite chunks_cons|]. etrans; [done|]. by eapply counted_written.
Qed.

Lemma sys_step_inv (m0 : Z -> Z) (s s' : system) : sys_inv m0 s -> sys_step s s' -> sys_inv m0 s'.
Proof.
  intros H. destruct 1 as [s t al d u c Ht Hc|s t th e c cd f Ht Hs|s t th e r cd f Ht Hs|s e Hs|s e Hs].
  - unfold tlkm_dma_copy_to in Hc. destruct (nonzero _); simplify_eq. split; simpl; [apply H| |].
    + intros i th. rewrite lookup_insert_Some. intros [[_ <-]|[_ Hi]]; [|by apply (v_thread _ _ H i)].
      split; [|done]. exists []. split; [done|]. apply sublist_nil_l.
    + intros i j a b x. rewrite !lookup_insert_Some.
      intros [[<- <-]|[Hi Ha]] [[<- <-]|[Hj Hb]] Hax Hbx; try done.
      by apply (v_unique _ _ H i j a b x).
  - by eapply dma_thread_step_inv.
  - by eapply return_spec.
  - apply sys_inv_engine; [done|]. eapply engine_step_inv; [apply H|done].
  - apply sys_inv_engine; [done|]. eapply intr_inv; [apply H|done].
Qed.

Lemma sys_reach_inv (m0 : Z -> Z) (bufs : list (list Z)) (s : system) :
  length bufs = 16%nat -> rtc sys_step (sys_init m0 bufs) s -> sys_inv m0 s.
Proof.
  intros Hb Hr. revert s Hr. apply rtc_ind_r.
  - split; simpl; [|by intros i th Hi; rewrite lookup_empty in Hi
                    |by intros i j a b x Hi; rewrite lookup_empty in Hi].
    split; simpl; try done. intros k w Hin. by apply elem_of_nil in Hin.
  - intros x y _ Hxy Hx. by eapply sys_step_inv.
Qed.

(** ** Properties *)

(** C28: whatever any number of callers and the engine do concurrently, at whichever
    chunk user memory turns out to be unreadable, and even if interrupts of the
    engine go missing (but without signals), device memory holds exactly what user
    space supplied: the chunks issued so far, in ticket order, up to the last one the
    engine has completed; no bounce buffer is overwritten while its command is in
    flight.  A call with an aligned address (any other is refused at once with
    -EAGAIN) that returns has returned 0, and all chunks of its transfer, which
    together are the transfer, have been written; or its user memory was unreadable,
    it has returned -EAGAIN, and a proper prefix of its chunks has been written.
    That a call returns is not claimed: a lost interrupt, an empty transfer before
    the first interrupt, or another caller with unreadable memory
    (unreadable_memory_blocks) may make it wait for ever. *)
Theorem dma_write_integrity (m0 : Z -> Z) (bufs : list (list Z)) (s : system) :
  length bufs = 16%nat -> rtc sys_step (sys_init m0 bufs) s ->
  devmem (eng s) = apply_writes m0 (written (eng s)) /\
  in_flight (eng s) = map cmd_of (drop (completed (eng s)) (commands 0 (issued (eng s)))) /\
  forall t th e ret contended fault, threads s !! t = Some th ->
    thread_step false contended fault (at_ th) (eng s) = Some (e, Return ret) ->
    (forall m x, apply_writes m (chunks (arg_usr th) (arg_dev th)) x
                 = write_mem m (arg_dev th) (arg_usr th) x) /\
    ((ret = 0 /\ chunks (arg_usr th) (arg_dev th) `sublist_of` written (eng s)) \/
     (ret = - EAGAIN /\ exists cs rest, chunks (arg_usr th) (arg_dev th) = cs ++ rest /\ rest <> [] /\
        cs `sublist_of` written (eng s))).
Proof.
  intros Hb Hr. pose proof (sys_reach_inv m0 bufs s Hb Hr) as H.
  split; [apply (v_mem _ _ (v_eng _ _ H))|]. split; [apply (v_flight _ _ (v_eng _ _ H))|].
  intros t th e ret contended fault Ht Hs. split; [|by eapply return_spec].
  intros m x. by eapply apply_chunks.
Qed.

(** A signal breaks the order: two callers hold tickets 0 and 1; the second is
    killed while it waits for its turn, and its clean-up, whose waits end at once
    because the signal is still pending, counts a chunk that was not issued.  The
    first caller then waits for wq_enqueued == 0, which never holds again. *)
Lemma killed_caller_blocks_others (usr : list Z) (d : Z) :
  let e := mk_engine 2 0 0 (replicate 16 []) [] 0 0 (fun _ => 0) [] 0 in
  exists e1 e2 e3 c,
    thread_step true false None (wait_turn usr d 1) e = Some (e1, Next (err_enqueue 1 (- EACCES))) /\
    thread_step true false None (err_enqueue 1 (- EACCES)) e1 = Some (e2, Next c) /\
    thread_step true false None c e2 = Some (e3, Return (- EACCES)) /\
    wq_enqueued e3 = 1 /\ thread_step false false None (wait_turn usr d 0) e3 = None.
Proof. simpl. do 4 eexists. by repeat split. Qed.

(** Unreadable user memory may block callers: tickets 0 and 2 were issued, ticket 1
    was given up and waits until wq_processed is 1 to count itself.  Both commands
    complete and their interrupts are counted before it looks: wq_processed is 2, so
    it waits for ever, and so does the caller with ticket 2, whose data have been
    written. *)
Lemma unreadable_memory_blocks :
  let e := mk_engine 3 3 0 (replicate 16 []) [mk_cmd 0 0 0; mk_cmd 64 2 0] 0 0 (fun _ => 0)
             [Some (0, []); None; Some (64, [])] 0 in
  exists e1 e2 e3 e4, engine_step e = Some e1 /\ engine_step e1 = Some e2 /\
    intr_step e2 = Some e3 /\ intr_step e3 = Some e4 /\ in_flight e4 = [] /\ unreported e4 = 0 /\
    thread_step false false None (err_process 1 (- EAGAIN)) e4 = None /\
    thread_step false false None (wait_last 2) e4 = None.
Proof. simpl. do 4 eexists. by repeat split. Qed.

(** ** Witness: one caller, two bytes *)
Definition demo_bufs : list (list Z) := replicate 16 [].
Definition demo_engine : engine :=
  mk_engine 1 1 1 (<[0%nat := [5; 6]]> demo_bufs) [] 0 0 (write_mem (fun _ => 0) 64 [5; 6])
    [Some (64, [5; 6])] 1.
Definition demo : system := mk_system demo_engine (<[3%nat := mk_thread [5; 6] 64 (wait_last 0)]> ∅).

Lemma dma_demo_reach : rtc sys_step (sys_init (fun _ => 0) demo_bufs) demo.
Proof.
  eapply rtc_l; [by apply (step_call _ 3 64 64 [5; 6])|].
  do 5 (eapply rtc_l; [by eapply (step_run _ 3 _ _ _ false None)|]; simpl).
  eapply rtc_l; [by eapply step_engine|].
  eapply rtc_l; [by eapply step_intr; left|]. apply rtc_refl.
Qed.

Lemma dma_write_integrity_witness :
  devmem (eng demo) 65 = 6 /\ chunks [5; 6] 64 `sublist_of` [(64, [5; 6])].
Proof.
  destruct (dma_write_integrity (fun _ => 0) demo_bufs demo eq_refl dma_demo_reach) as (H1 & _ & H2).
  split; [rewrite H1; reflexivity|].
  destruct (H2 3%nat (mk_thread [5; 6] 64 (wait_last 0)) demo_engine 0 false None eq_refl eq_refl)
    as [_ [[_ H]|[H _]]]; [exact H|discriminate H].
Defined.

End DmaWrite.
