(* ===== verification/DmaRead.v ===== *)
(** * Reading device memory through the BlueDMA engine
      (dma/tlkm_dma.c: tlkm_dma_copy_from; dma/blue_dma.c)

    tlkm_dma_copy_from, one caller at a time, keeps up to sixteen chunks under way:
    it waits for the last transfer of a bounce buffer, copies what it brought to user
    space, and issues the next transfer into it; in the end it drains all sixteen
    buffers.  The engine works the commands off in order, at any time, and raises an
    interrupt for each, which arrives at any time later or, as the comment at the
    chunk size in tlkm_dma.h says it may, not at all.  Proved: a call that returns has
    copied exactly the requested bytes, and every call returns unless an interrupt is
    lost. *)
From S2P Require Import Prelude DmaWrite.

Module DmaRead.
Import DmaWrite(TLKM_DMA_CHUNK_SZ, TLKM_DMA_CHUNKS, cmd, mk_cmd, fpga_addr, host_slot, btt, write_mem).

(** ** State *)

(** chunk_data_t *)
Record chunk := mk_chunk { usr_addr : Z; csz : Z; t_id : Z }.

(** struct dma_engine (read direction), the commands in flight, how many interrupts
    of completed commands are under way and how many were lost, device memory and the
    memory of the calling process. *)
Record engine := mk_engine {
  rq_enqueued : Z;
  rq_processed : Z;
  dma_buf_read : list (list Z);
  in_flight : list cmd;
  unreported : Z;
  lost : Z;
  devmem : Z -> Z;
  usermem : Z -> Z
}.

(** The variables of a call. *)
Record locals := mk_locals { usr : Z; dev : Z; len : Z; current_buffer : Z; chunks : list chunk }.

Inductive pc :=
| loop_wait                 (* while (len > 0): wait for the buffer *)
| loop_copy                 (* copy_to_user of what the buffer holds *)
| loop_issue                (* the next transfer *)
| drain_wait (i : Z)        (* the last loop *)
| drain_copy (i : Z).

Inductive outcome := Next (c : pc) (l : locals) | Return (ret : Z).

(** ** Code *)
Definition no_chunk : chunk := mk_chunk 0 0 0.
Definition chunk_at (l : locals) (i : Z) : chunk := nth (Z.to_nat i) (chunks l) no_chunk.
Definition set_chunk (i : Z) (c : chunk) (l : locals) : locals :=
  mk_locals (usr l) (dev l) (len l) (current_buffer l) (<[Z.to_nat i := c]> (chunks l)).

(** copy_to_user from a bounce buffer; [fault] is the number of bytes after which
    user memory cannot be written, if any. *)
Definition copy_to_user (fault : option nat) (c : chunk) (i : Z) (e : engine) : engine :=
  let bytes := take (Z.to_nat (csz c)) (nth (Z.to_nat i) (dma_buf_read e) []) in
  let bytes := match fault with Some n => take n bytes | None => bytes end in
  mk_engine (rq_enqueued e) (rq_processed e) (dma_buf_read e) (in_flight e) (unreported e) (lost e)
    (devmem e) (write_mem (usermem e) (usr_addr c) bytes).

(** blue_dma_copy_from: the register writes under the mutex, and the count; a caller
    killed at the mutex ([interrupted]) has issued nothing and gets the length. *)
Definition blue_dma_copy_from (interrupted : bool) (e : engine) (buf dev_addr n : Z) : engine * Z :=
  if interrupted then (e, n) else
  (mk_engine (rq_enqueued e + 1) (rq_processed e) (dma_buf_read e)
     (in_flight e ++ [mk_cmd dev_addr buf n]) (unreported e) (lost e) (devmem e) (usermem e), rq_enqueued e + 1).

(** The part of an iteration that both loops share: the data of buffer [i] go to
    user space, if there are any. *)
Definition copy_out (fault : option nat) (i : Z) (l : locals) (e : engine) (next : pc) : engine * outcome :=
  let c := chunk_at l i in
  if nonzero (usr_addr c) then
    (copy_to_user fault c i e,
     match fault with
     | Some _ => Return (- EAGAIN)
     | None => Next next (set_chunk i (mk_chunk 0 (csz c) (t_id c)) l)
     end)
  else (e, Next next l).

(** One step of a call, up to the next wait or access to a buffer; [None]: it has to
    wait.  [killed]: a signal is pending; [contended]: another caller has regs_mutex. *)
Definition thread_step (killed contended : bool) (fault : option nat) (c : pc) (l : locals) (e : engine)
    : option (engine * outcome) :=
  match c with
  | loop_wait =>
      if len l >? 0 then
        if rq_processed e >=? t_id (chunk_at l (current_buffer l)) then Some (e, Next loop_copy l)
        else if killed then Some (e, Return (- EACCES)) else None
      else Some (e, Next (drain_wait 0) l)
  | loop_copy => Some (copy_out fault (current_buffer l) l e loop_issue)
  | loop_issue =>
      let cpy_sz := if len l <? TLKM_DMA_CHUNK_SZ then len l else TLKM_DMA_CHUNK_SZ in
      let (e', t) := blue_dma_copy_from (killed && contended) e (current_buffer l) (dev l) cpy_sz in
      let l' := set_chunk (current_buffer l) (mk_chunk (usr l) cpy_sz t) l in
      Some (e', Next loop_wait
        (mk_locals (usr l + cpy_sz) (dev l + cpy_sz) (len l - cpy_sz)
           ((current_buffer l + 1) mod TLKM_DMA_CHUNKS) (chunks l')))
  | drain_wait i =>
      if i <? TLKM_DMA_CHUNKS then
        if rq_processed e >=? t_id (chunk_at l i) then Some (e, Next (drain_copy i) l)
        else if killed then Some (e, Return (- EACCES)) else None
      else Some (e, Return (len l))
  | drain_copy i => Some (copy_out fault i l e (drain_wait (i + 1)))
  end.

(** The beginning of a call, up to the loop, with the mutex: a misaligned device
    address is refused, and the counters are reset. *)
Definition tlkm_dma_copy_from (alignment usr_addr dev_addr n : Z) (e : engine) : engine * outcome :=
  if nonzero (dev_addr mod alignment) then (e, Return (- EAGAIN)) else
  (mk_engine 0 0 (dma_buf_read e) (in_flight e) (unreported e) (lost e) (devmem e) (usermem e),
   Next loop_wait (mk_locals usr_addr dev_addr n 0 (replicate 16 no_chunk))).

Definition read_mem (m : Z -> Z) (a n : Z) : list Z :=
  map (fun i => m (a + Z.of_nat i)) (seq 0 (Z.to_nat n)).

(** The engine completes its first command: it writes the buffer now, and raises an
    interrupt. *)
Definition engine_step (e : engine) : option engine :=
  match in_flight e with
  | [] => None
  | c :: rest =>
      let i := Z.to_nat (host_slot c) in
      let old := nth i (dma_buf_read e) [] in
      Some (mk_engine (rq_enqueued e) (rq_processed e)
              (<[i := read_mem (devmem e) (fpga_addr c) (btt c) ++ drop (Z.to_nat (btt c)) old]>
                 (dma_buf_read e))
              rest (unreported e + 1) (lost e) (devmem e) (usermem e))
  end.

(** blue_dma_intr_handler_read: an interrupt arrives and is counted. *)
Definition intr_step (e : engine) : option engine :=
  if 0 <? unreported e then
    Some (mk_engine (rq_enqueued e) (rq_processed e + 1) (dma_buf_read e) (in_flight e)
            (unreported e - 1) (lost e) (devmem e) (usermem e))
  else None.

(** An interrupt goes missing. *)
Definition lose_step (e : engine) : option engine :=
  if 0 <? unreported e then
    Some (mk_engine (rq_enqueued e) (rq_processed e) (dma_buf_read e) (in_flight e)
            (unreported e - 1) (lost e + 1) (devmem e) (usermem e))
  else None.

(** ** A caller and the engine together *)

(** A call: its arguments, the memory of its process at the beginning, and where
    it is. *)
Record call := mk_call { a_usr : Z; a_dev : Z; a_len : Z; a_mem : Z -> Z; at_ : pc; vars : locals }.

(** [reader] is the call that holds rq_mutex. *)
Record system := mk_system { eng : engine; reader : option call }.

Inductive sys_step : system -> system -> Prop :=
| step_call (s : system) (alignment u d n : Z) (m : Z -> Z) (e : engine) (c : pc) (l : locals) :
    reader s = None -> 0 < u -> 0 <= n ->
    tlkm_dma_copy_from alignment u d n
      (mk_engine (rq_enqueued (eng s)) (rq_processed (eng s)) (dma_buf_read (eng s))
         (in_flight (eng s)) (unreported (eng s)) (lost (eng s)) (devmem (eng s)) m) = (e, Next c l) ->
    sys_step s (mk_system e (Some (mk_call u d n m c l)))
| step_run (s : system) (r : call) (e : engine) (c : pc) (l : locals) (contended : bool) :
    reader s = Some r ->
    thread_step false contended None (at_ r) (vars r) (eng s) = Some (e, Next c l) ->
    sys_step s (mk_system e (Some (mk_call (a_usr r) (a_dev r) (a_len r) (a_mem r) c l)))
| step_return (s : system) (r : call) (e : engine) (ret : Z) (contended : bool) :
    reader s = Some r ->
    thread_step false contended None (at_ r) (vars r) (eng s) = Some (e, Return ret) ->
    sys_step s (mk_system e None)
| step_engine (s : system) (e : engine) :
    engine_step (eng s) = Some e -> sys_step s (mk_system e (reader s))
| step_intr (s : system) (e : engine) :
    intr_step (eng s) = Some e -> sys_step s (mk_system e (reader s))
| step_lose (s : system) (e : engine) :
    lose_step (eng s) = Some e -> sys_step s (mk_system e (reader s))
| step_device (s : system) (m : Z -> Z) :
    reader s = None ->
    sys_step s (mk_system (mk_engine (rq_enqueued (eng s)) (rq_processed (eng s)) (dma_buf_read (eng s))
      (in_flight (eng s)) (unreported (eng s)) (lost (eng s)) m (usermem (eng s))) None).

Definition sys_init (m um : Z -> Z) (bufs : list (list Z)) : system :=
  mk_system (mk_engine 0 0 bufs [] 0 0 m um) None.

(** ** Invariant

    Chunk [j] of a transfer is the [j]-th of the pieces of 256 KiB; it uses buffer
    [j mod 16] and has the transfer id [j + 1]. *)
Notation CH := TLKM_DMA_CHUNK_SZ.

(** The last of the first [n] chunks that uses buffer [i] (negative: none). *)
Definition last_of (n i : Z) : Z := n - 1 - (n - 1 - i) mod 16.

Lemma CH_val : CH = 262144. Proof. done. Qed.

Lemma last_of_bounds (n i : Z) : 0 <= i < 16 -> n - 16 <= last_of n i < n /\ last_of n i mod 16 = i.
Proof. unfold last_of. intros. dlia. Qed.

Lemma last_of_unique (n i j : Z) : n - 16 <= j < n -> j mod 16 = i -> last_of n i = j.
Proof. unfold last_of. intros. dlia. Qed.

Lemma read_mem_length (m : Z -> Z) (a n : Z) : length (read_mem m a n) = Z.to_nat n.
Proof. unfold read_mem. by rewrite length_map, length_seq. Qed.

Lemma read_mem_nth (m : Z -> Z) (a n i : Z) : 0 <= i < n -> nth (Z.to_nat i) (read_mem m a n) 0 = m (a + i).
Proof.
  intros Hi. unfold read_mem. rewrite (nth_indep _ 0 (m (a + Z.of_nat 0))) by (rewrite length_map, length_seq; lia).
  rewrite (map_nth (fun i => m (a + Z.of_nat i))), seq_nth by lia. f_equal. lia.
Qed.

Lemma write_read (um dm : Z -> Z) (a b n x : Z) :
  0 <= n -> write_mem um a (read_mem dm b n) x = if decide (a <= x < a + n) then dm (b + (x - a)) else um x.
Proof.
  intros Hn. unfold write_mem. rewrite read_mem_length, Z2Nat.id by done.
  destruct (decide (a <= x < a + n)); [|done]. apply read_mem_nth. lia.
Qed.

Lemma set_chunk_at (i k : Z) (c : chunk) (l : locals) :
  0 <= i < 16 -> 0 <= k < 16 -> length (chunks l) = 16%nat ->
  chunk_at (set_chunk i c l) k = if decide (k = i) then c else chunk_at l k.
Proof.
  intros Hi Hk Hl. unfold chunk_at, set_chunk. simpl. destruct (decide (k = i)) as [->|Hne].
  - rewrite nth_lookup, list_lookup_insert_eq by lia. done.
  - rewrite !nth_lookup, list_lookup_insert_ne by lia. done.
Qed.

Section Call.
Variables u0 d0 n0 : Z.
Variable m0 : Z -> Z.

Definition size_of (j : Z) : Z := Z.min CH (n0 - j * CH).
Definition pos (n : Z) : Z := Z.min (n * CH) n0.
Definition cmd_of (j : Z) : cmd := mk_cmd (d0 + j * CH) (j mod 16) (size_of j).

(** The entry of buffer [i] after [n] chunks, [f] telling which are copied out. *)
Definition entry (f : Z -> bool) (n i : Z) : chunk :=
  let j := last_of n i in
  if 0 <=? j then mk_chunk (if f j then 0 else u0 + j * CH) (size_of j) (j + 1) else no_chunk.

(** The number of commands the engine has completed. *)
Definition completed (e : engine) : Z := rq_processed e + unreported e + lost e.

(** In the middle of a call that has copied out the chunks of [f]. *)
Record mid (f : Z -> bool) (l : locals) (e : engine) : Prop := {
  d_order : 0 <= rq_processed e /\ completed e <= rq_enqueued e <= rq_processed e + 16;
  d_intr : 0 <= unreported e /\ 0 <= lost e;
  d_issued j : 0 <= j < rq_enqueued e -> j * CH < n0;
  d_usr : usr l = u0 + pos (rq_enqueued e);
  d_dev : dev l = d0 + pos (rq_enqueued e);
  d_len : len l = n0 - pos (rq_enqueued e);
  d_cur : current_buffer l = rq_enqueued e mod 16;
  d_chunks : length (chunks l) = 16%nat;
  d_bufs : length (dma_buf_read e) = 16%nat;
  d_entry i : 0 <= i < 16 -> chunk_at l i = entry f (rq_enqueued e) i;
  d_flight : in_flight e = map cmd_of (seqZ (completed e) (rq_enqueued e - completed e));
  d_data j : 0 <= j -> rq_enqueued e - 16 <= j < completed e ->
    take (Z.to_nat (size_of j)) (nth (Z.to_nat (j mod 16)) (dma_buf_read e) [])
      = read_mem (devmem e) (d0 + j * CH) (size_of j);
  d_user x : usermem e x =
    if (0 <=? x - u0) && (x - u0 <? n0) && f ((x - u0) / CH) then devmem e (d0 + (x - u0)) else m0 x
}.

(** Which chunks are copied out, and what else holds, at each place. *)
Definition copied (c : pc) (n j : Z) : bool :=
  match c with
  | loop_wait | loop_copy => j <? n - 16
  | loop_issue => j <? n - 15
  | drain_wait i | drain_copy i => (j <? n - 16) || ((j <? n) && (j mod 16 <? i))
  end.

Definition place (c : pc) (n p : Z) : Prop :=
  match c with
  | loop_wait => True
  | loop_copy | loop_issue => n * CH < n0 /\ n - 15 <= p
  | drain_wait i => n0 <= n * CH /\ 0 <= i <= 16 /\ forall s, 0 <= s < i -> last_of n s < p
  | drain_copy i => n0 <= n * CH /\ 0 <= i < 16 /\ forall s, 0 <= s <= i -> last_of n s < p
  end.

Definition during (c : pc) (l : locals) (e : engine) : Prop :=
  mid (copied c (rq_enqueued e)) l e /\ place c (rq_enqueued e) (rq_processed e).

Lemma size_of_bounds (j : Z) : j * CH < n0 -> 0 < size_of j <= CH /\ j * CH + size_of j <= n0.
Proof. unfold size_of. rewrite CH_val. lia. Qed.

(** The addresses of chunk [j]. *)
Lemma chunk_of_addr (j x : Z) :
  0 <= j -> j * CH < n0 -> (0 <= x - u0 < n0 /\ (x - u0) / CH = j) <->
    u0 + j * CH <= x < u0 + j * CH + size_of j.
Proof. unfold size_of. rewrite CH_val. intros. split; intros; dlia. Qed.

Lemma mid_ext (f g : Z -> bool) (l : locals) (e : engine) :
  (forall j, 0 <= j -> j * CH < n0 -> f j = g j) -> mid f l e -> mid g l e.
Proof.
  intros Hfg []. split; try done.
  - intros i Hi. rewrite d_entry0 by done. unfold entry. cbv zeta.
    destruct (Z.leb_spec 0 (last_of (rq_enqueued e) i)); [|done].
    rewrite Hfg; [done|done|apply d_issued0]. destruct (last_of_bounds (rq_enqueued e) i Hi). lia.
  - intros x. rewrite d_user0. destruct (Z.leb_spec 0 (x - u0)); simpl; [|done].
    destruct (Z.ltb_spec (x - u0) n0); simpl; [|done]. rewrite Hfg; [done|..]; rewrite CH_val; dlia.
Qed.

Hypothesis u0_pos : 0 < u0.
Hypothesis n0_nonneg : 0 <= n0.

(** Copying a buffer out marks its chunk. *)
Lemma copy_out_mid (f : Z -> bool) (i : Z) (l : locals) (e : engine) (next : pc) :
  mid f l e -> 0 <= i < 16 -> last_of (rq_enqueued e) i < rq_processed e ->
  f (last_of (rq_enqueued e) i) = false ->
  exists e' l', copy_out None i l e next = (e', Next next l') /\
    mid (fun j => f j || (j =? last_of (rq_enqueued e) i)) l' e' /\
    rq_enqueued e' = rq_enqueued e /\ rq_processed e' = rq_processed e /\
    in_flight e' = in_flight e /\ unreported e' = unreported e /\ lost e' = lost e.
Proof.
  intros H Hi Hp Hf. unfold copy_out. rewrite (d_entry _ _ _ H i Hi). unfold entry.
  set (j := last_of (rq_enqueued e) i) in *. destruct (last_of_bounds (rq_enqueued e) i Hi) as [Hj Hji].
  fold j in Hj, Hji. cbv zeta. destruct (Z.leb_spec 0 j) as [Hj0|Hj0].
  2:{ simpl. eexists _, _. split; [done|]. split; [|done].
      eapply mid_ext; [|done]. intros k Hk _. simpl. rewrite (proj2 (Z.eqb_neq k j)) by lia. by rewrite orb_false_r. }
  rewrite Hf. cbn [usr_addr csz t_id]. pose proof (d_issued _ _ _ H j ltac:(lia)) as Hjn.
  destruct (size_of_bounds j Hjn) as [Hs _].
  assert (rq_processed e <= completed e) as Hpc by (destruct (d_intr _ _ _ H); unfold completed; lia).
  unfold nonzero. rewrite (proj2 (Z.eqb_neq _ _)) by (rewrite CH_val; lia). cbn [negb].
  eexists _, _. split; [done|]. split; [|done].
  destruct H. split; try done.
  - simpl. by rewrite length_insert.
  - intros k Hk. rewrite set_chunk_at by done. simpl rq_enqueued. unfold entry. cbv zeta.
    destruct (decide (k = i)) as [->|Hne].
    + fold j. by rewrite (proj2 (Z.leb_le 0 j)), Z.eqb_refl, orb_true_r by lia.
    + rewrite d_entry0 by done. unfold entry. cbv zeta.
      destruct (last_of_bounds (rq_enqueued e) k Hk) as [_ Hk'].
      rewrite (proj2 (Z.eqb_neq (last_of (rq_enqueued e) k) j)) by congruence. by rewrite orb_false_r.
  - intros x. simpl. rewrite <- Hji at 1. cbn [csz usr_addr]. rewrite d_data0 by lia.
    rewrite write_read by lia. destruct (chunk_of_addr j x Hj0 Hjn) as [H1 H2].
    destruct (decide (u0 + j * CH <= x < u0 + j * CH + size_of j)) as [Hx|Hx].
    + destruct (H2 Hx) as [Hr Hd]. rewrite (proj2 (Z.leb_le _ _)), (proj2 (Z.ltb_lt _ _)) by lia.
      rewrite Hd, Z.eqb_refl, orb_true_r. simpl. f_equal. lia.
    + rewrite d_user0. destruct (Z.leb_spec 0 (x - u0)); [|done]. simpl.
      destruct (Z.ltb_spec (x - u0) n0); [|done]. simpl.
      rewrite (proj2 (Z.eqb_neq ((x - u0) / CH) j)); [by rewrite orb_false_r|].
      intros Hd. apply Hx, H1. lia.
Qed.

(** Issuing the next chunk. *)
Lemma issue_during (l : locals) (e e' : engine) (o : outcome) (contended : bool) :
  during loop_issue l e -> thread_step false contended None loop_issue l e = Some (e', o) ->
  exists l', o = Next loop_wait l' /\ during loop_wait l' e' /\
    rq_enqueued e' = rq_enqueued e + 1 /\ completed e' = completed e /\ unreported e' = unreported e.
Proof.
  intros [H [Hn Hp]]. simpl. intros [= <- <-]. eexists. split; [done|]. split; [|done].
  set (n := rq_enqueued e) in *. destruct H. fold n in d_order0, d_issued0, d_usr0, d_dev0, d_len0, d_cur0, d_flight0, d_data0.
  assert (rq_processed e <= completed e) as Hpc by (unfold completed; lia).
  assert (pos n = n * CH) as Hpos by (unfold pos; rewrite CH_val in *; lia).
  assert ((if len l <? CH then len l else CH) = size_of n) as ->.
  { rewrite d_len0, Hpos. unfold size_of. destruct (Z.ltb_spec (n0 - n * CH) CH); lia. }
  assert (pos n + size_of n = pos (n + 1)) as Hpos1
    by (unfold pos, size_of in *; rewrite CH_val in *; lia).
  assert (forall fl, completed (mk_engine (n + 1) (rq_processed e) (dma_buf_read e) fl (unreported e)
    (lost e) (devmem e) (usermem e)) = completed e) as Hc by done.
  split; [|done]. split; simpl; fold n; rewrite ?Hc; try done; try lia.
  - intros j Hj. destruct (decide (j = n)) as [->|]; [done|]. apply d_issued0. lia.
  - rewrite d_cur0. unfold TLKM_DMA_CHUNKS. dlia.
  - by rewrite length_insert.
  - intros i Hi. transitivity (chunk_at (set_chunk (current_buffer l) (mk_chunk (usr l) (size_of n) (n + 1)) l) i); [done|].
    rewrite set_chunk_at by (try done; rewrite d_cur0; dlia). rewrite d_cur0. unfold entry. cbv zeta. cbn [copied].
    destruct (decide (i = n mod 16)) as [->|Hne].
    + rewrite (last_of_unique (n + 1) (n mod 16) n) by lia.
      rewrite (proj2 (Z.leb_le 0 n)), (proj2 (Z.ltb_ge n (n + 1 - 16))) by lia. by rewrite d_usr0, Hpos.
    + rewrite d_entry0 by done. unfold entry. cbv zeta. cbn [copied]. fold n.
      destruct (last_of_bounds n i Hi) as [Hb Hm].
      rewrite (last_of_unique (n + 1) i (last_of n i)); [|dlia|done].
      replace (n + 1 - 16) with (n - 15) by lia. done.
  - rewrite d_flight0, d_cur0, d_dev0, Hpos.
    replace (n + 1 - completed e) with (n - completed e + 1) by lia.
    rewrite seqZ_app by lia. rewrite map_app. f_equal. simpl.
    replace (completed e + (n - completed e)) with n by lia. done.
  - intros j Hj Hj'. apply d_data0; lia.
  - intros x. rewrite d_user0. replace (n + 1 - 16) with (n - 15) by lia. done.
Qed.

Lemma engine_mid (f : Z -> bool) (l : locals) (e e' : engine) :
  mid f l e -> engine_step e = Some e' ->
  mid f l e' /\ rq_enqueued e' = rq_enqueued e /\ rq_processed e' = rq_processed e /\
  unreported e' = unreported e + 1 /\ S (length (in_flight e')) = length (in_flight e).
Proof.
  intros H Hs. unfold engine_step in Hs. pose proof (d_flight _ _ _ H) as Hfl.
  set (n := rq_enqueued e) in *. set (p := completed e) in *.
  destruct (d_order _ _ _ H) as (Ho0 & Ho1 & Ho2). fold n p in Ho1, Ho2.
  destruct (d_intr _ _ _ H) as [Hi1 Hi2].
  destruct (decide (n = p)) as [Hnp|Hnp].
  { rewrite Hnp, Z.sub_diag in Hfl. simpl in Hfl. by rewrite Hfl in Hs. }
  rewrite seqZ_cons in Hfl by lia. simpl in Hfl. rewrite Hfl in Hs. injection Hs as <-. simpl. fold n p.
  split; [|rewrite Hfl; simpl; auto].
  assert (0 <= p) as Hp0 by (unfold p, completed; lia).
  pose proof (d_issued _ _ _ H p ltac:(lia)) as Hpn. destruct (size_of_bounds p Hpn) as [Hsz _].
  assert (forall b fl, completed (mk_engine n (rq_processed e) b fl (unreported e + 1) (lost e)
    (devmem e) (usermem e)) = p + 1) as Hc by (intros; unfold p, completed; simpl; lia).
  destruct H. fold n p in d_issued0, d_data0. split; simpl; fold n p; rewrite ?Hc; try done; try lia.
  - by rewrite length_insert.
  - f_equal. f_equal; lia.
  - intros j Hj Hj'. destruct (decide (j = p)) as [->|Hne].
    + rewrite nth_lookup, list_lookup_insert_eq by (rewrite d_bufs0; dlia). simpl.
      rewrite take_app_length'; [done|by rewrite read_mem_length].
    + rewrite nth_lookup, list_lookup_insert_ne by dlia. rewrite <- nth_lookup. apply d_data0; lia.
Qed.

(** An interrupt arrives, or is lost. *)
Lemma intr_mid (f : Z -> bool) (l : locals) (e e' : engine) :
  mid f l e -> intr_step e = Some e' \/ lose_step e = Some e' ->
  mid f l e' /\ rq_enqueued e' = rq_enqueued e /\ in_flight e' = in_flight e /\
  unreported e' = unreported e - 1 /\
  (rq_processed e' = rq_processed e + 1 \/ rq_processed e' = rq_processed e).
Proof.
  unfold intr_step, lose_step. intros H Hs.
  assert (0 < unreported e /\ completed e' = completed e /\ rq_enqueued e' = rq_enqueued e /\
    in_flight e' = in_flight e /\ unreported e' = unreported e - 1 /\ dma_buf_read e' = dma_buf_read e /\
    devmem e' = devmem e /\ usermem e' = usermem e /\
    (rq_processed e' = rq_processed e + 1 /\ lost e' = lost e \/
     rq_processed e' = rq_processed e /\ lost e' = lost e + 1)) as (Hu & C & En & Ef & Eu & Eb & Ed & Eum & Hp).
  { unfold completed. destruct (Z.ltb_spec 0 (unreported e)); destruct Hs; simplify_eq; simpl;
      split_and!; try done; lia. }
  split; [|split_and!; try done; lia].
  destruct H. split; rewrite ?C, ?En, ?Ef, ?Eb, ?Ed, ?Eum; try done; try lia.
Qed.

Lemma place_mono (c : pc) (n p : Z) : place c n p -> place c n (p + 1).
Proof.
  destruct c; simpl; intuition (try lia).
  all: match goal with H : forall s, _ -> last_of _ _ < _, s : Z |- _ => specialize (H s); lia end.
Qed.

Lemma engine_during (c : pc) (l : locals) (e e' : engine) :
  during c l e -> engine_step e = Some e' ->
  during c l e' /\ rq_enqueued e' = rq_enqueued e /\
  unreported e' = unreported e + 1 /\ S (length (in_flight e')) = length (in_flight e).
Proof.
  intros [H Hp] Hs. destruct (engine_mid _ _ _ _ H Hs) as (H' & En & Ep & Eu & El).
  split; [|done]. split; rewrite En; [done|]. by rewrite Ep.
Qed.

Lemma intr_during (c : pc) (l : locals) (e e' : engine) :
  during c l e -> intr_step e = Some e' \/ lose_step e = Some e' ->
  during c l e' /\ rq_enqueued e' = rq_enqueued e /\ in_flight e' = in_flight e /\
  unreported e' = unreported e - 1.
Proof.
  intros [H Hp] Hs. destruct (intr_mid _ _ _ _ H Hs) as (H' & En & Ef & Eu & Ep).
  split; [|done]. split; rewrite En; [done|]. destruct Ep as [-> | ->]; [by apply place_mono|done].
Qed.

(** The length of the rest of a call: its own steps and those of the engine. *)
Definition steps_left (c : pc) (e : engine) : Z :=
  5 * ((n0 + CH - 1) / CH - rq_enqueued e) + 2 * Z.of_nat (length (in_flight e)) + unreported e +
  match c with
  | loop_wait => 40
  | loop_copy => 39
  | loop_issue => 38
  | drain_wait i => 2 * (16 - i) + 2
  | drain_copy i => 2 * (16 - i) + 1
  end.

(** What a call has done when it returns. *)
Definition finished (e : engine) : Prop :=
  in_flight e = [] /\ unreported e = 0 /\ lost e = 0 /\
  forall x, usermem e x = write_mem m0 u0 (read_mem (devmem e) d0 n0) x.

Definition advanced (c : pc) (e e' : engine) (o : outcome) : Prop :=
  match o with
  | Next c' l' => during c' l' e' /\ steps_left c' e' < steps_left c e
  | Return ret => ret = 0 /\ e' = e /\ finished e
  end.

Lemma t_id_entry (f : Z -> bool) (l : locals) (e : engine) (i : Z) :
  mid f l e -> 0 <= i < 16 -> t_id (chunk_at l i) = Z.max 0 (last_of (rq_enqueued e) i + 1).
Proof.
  intros H Hi. rewrite (d_entry _ _ _ H i Hi). unfold entry. cbv zeta.
  destruct (Z.leb_spec 0 (last_of (rq_enqueued e) i)); simpl; lia.
Qed.

Lemma cur_last (f : Z -> bool) (l : locals) (e : engine) :
  mid f l e -> 0 <= current_buffer l < 16 /\ last_of (rq_enqueued e) (current_buffer l) = rq_enqueued e - 16.
Proof.
  intros H. rewrite (d_cur _ _ _ H). split; [dlia|]. apply last_of_unique; [lia|dlia].
Qed.

Lemma drain_done (l : locals) (e : engine) :
  during (drain_wait 16) l e -> finished e.
Proof.
  intros [H (Hn & _ & Hs)]. set (n := rq_enqueued e) in *.
  destruct (d_order _ _ _ H) as (Ho1 & Ho2 & Ho3). destruct (d_intr _ _ _ H) as [Hi1 Hi2].
  unfold completed in Ho2. fold n in Ho2, Ho3.
  assert (rq_processed e = n) as Hp.
  { destruct (decide (n = 0)); [lia|].
    pose proof (Hs ((n - 1) mod 16) ltac:(dlia)) as Hl. rewrite (last_of_unique n _ (n - 1)) in Hl; lia. }
  split; [|split; [lia|split; [lia|]]].
  - rewrite (d_flight _ _ _ H). fold n. replace (n - completed e) with 0 by (unfold completed; lia). done.
  - intros x. rewrite write_read by done. rewrite (d_user _ _ _ H). fold n. cbn [copied].
    destruct (decide (u0 <= x < u0 + n0)) as [Hx|Hx].
    + rewrite (proj2 (Z.leb_le _ _)), (proj2 (Z.ltb_lt _ _)) by lia. simpl.
      rewrite (proj2 (Z.ltb_lt ((x - u0) / CH) n)) by (rewrite CH_val in *; dlia).
      rewrite (proj2 (Z.ltb_lt (((x - u0) / CH) mod 16) 16)) by dlia. by rewrite orb_true_r.
    + destruct (Z.leb_spec 0 (x - u0)); [|done]. simpl. destruct (Z.ltb_spec (x - u0) n0); [lia|done].
Qed.

Lemma during_place (c c' : pc) (l : locals) (e : engine) :
  copied c = copied c' -> place c' (rq_enqueued e) (rq_processed e) -> during c l e -> during c' l e.
Proof. intros Hc Hp [H _]. split; [by rewrite <- Hc|done]. Qed.

(** Both copying places. *)
Lemma copy_advances (c next : pc) (i : Z) (l : locals) (e e' : engine) (o : outcome) :
  during c l e -> 0 <= i < 16 -> last_of (rq_enqueued e) i < rq_processed e ->
  copied c (rq_enqueued e) (last_of (rq_enqueued e) i) = false ->
  (forall j, 0 <= j -> j * CH < n0 -> copied c (rq_enqueued e) j || (j =? last_of (rq_enqueued e) i)
                         = copied next (rq_enqueued e) j) ->
  place next (rq_enqueued e) (rq_processed e) ->
  steps_left next e < steps_left c e ->
  copy_out None i l e next = (e', o) -> advanced c e e' o.
Proof.
  intros [H _] Hi Hlast Hc Hcop Hpl Hst Ho.
  destruct (copy_out_mid _ i l e next H Hi Hlast Hc) as (e1 & l1 & E & H1 & En & Ep & Ef & Eu & _).
  rewrite E in Ho. injection Ho as <- <-. split; [split|].
  - rewrite En. eapply mid_ext; [|exact H1]. done.
  - by rewrite En, Ep.
  - unfold steps_left in *. by rewrite En, Ef, Eu.
Qed.

Lemma run_advances (c : pc) (l : locals) (e e' : engine) (o : outcome) (contended : bool) :
  during c l e -> thread_step false contended None c l e = Some (e', o) -> advanced c e e' o.
Proof.
  intros H Hs. pose proof H as [Hm Hpl]. destruct (cur_last _ _ _ Hm) as [Hcur Hlast].
  destruct c as [| | |i|i].
  - simpl in Hs. pose proof (d_len _ _ _ Hm) as Hlen. rewrite (t_id_entry _ _ _ _ Hm Hcur), Hlast in Hs.
    unfold pos in Hlen. destruct (Z.gtb_spec (len l) 0); simplify_eq.
    + destruct (Z.geb_spec (rq_processed e) (Z.max 0 (rq_enqueued e - 16 + 1))); simplify_eq.
      split; [|unfold steps_left; lia]. apply (during_place loop_wait); [done| |done]. simpl. lia.
    + split; [split|unfold steps_left; lia].
      * eapply mid_ext; [|exact Hm]. intros j Hj Hjn. simpl.
        rewrite (proj2 (Z.ltb_ge (j mod 16) 0)) by dlia. by rewrite andb_false_r, orb_false_r.
      * simpl. split; [lia|]. split; [lia|]. intros; lia.
  - injection Hs as Hs. destruct Hpl as [Hn Hp]. eapply copy_advances; [exact H|exact Hcur|lia|..| |exact Hs].
    + simpl. rewrite Hlast. lia.
    + intros j Hj _. simpl. rewrite Hlast. lia.
    + done.
    + unfold steps_left. lia.
  - destruct (issue_during _ _ _ _ _ H Hs) as (l' & -> & H' & En & Ec & Eu). split; [done|].
    destruct H' as [H' _]. unfold steps_left.
    rewrite (d_flight _ _ _ H'), (d_flight _ _ _ Hm), !length_map, !length_seqZ, En, Ec, Eu.
    destruct (d_order _ _ _ Hm) as (_ & ? & _). lia.
  - simpl in Hs. destruct Hpl as (Hn & Hi & Hsl). unfold TLKM_DMA_CHUNKS in Hs.
    destruct (Z.ltb_spec i 16); simplify_eq.
    + rewrite (t_id_entry _ l e i Hm ltac:(lia)) in Hs.
      destruct (Z.geb_spec (rq_processed e) (Z.max 0 (last_of (rq_enqueued e) i + 1))); simplify_eq.
      split; [|unfold steps_left; lia]. apply (during_place (drain_wait i)); [done| |done].
      simpl. split; [done|]. split; [lia|]. intros s Hs. destruct (decide (s = i)) as [->|]; [lia|]. apply Hsl. lia.
    + assert (i = 16) as -> by lia. split; [|split; [done|by eapply drain_done]].
      rewrite (d_len _ _ _ Hm). unfold pos. lia.
  - injection Hs as Hs. destruct Hpl as (Hn & Hi & Hsl).
    destruct (last_of_bounds (rq_enqueued e) i Hi) as [Hb Hbm].
    eapply copy_advances; [exact H|exact Hi|by apply Hsl; lia|..| |exact Hs].
    + simpl. rewrite Hbm. lia.
    + intros j Hj Hjn. simpl. destruct (Z.eqb_spec j (last_of (rq_enqueued e) i)) as [->|Hne].
      * rewrite Hbm. lia.
      * rewrite orb_false_r.
        assert (rq_enqueued e - 16 <= j < rq_enqueued e -> j mod 16 <> i) as Hji.
        { intros Hj' E. apply Hne. symmetry. by apply last_of_unique. }
        lia.
    + simpl. split; [done|]. split; [lia|]. intros s Hs'. apply Hsl. lia.
    + unfold steps_left. lia.
Qed.

(** A call that waits has a transfer or an interrupt under way, or has lost one. *)
Lemma never_stuck (c : pc) (l : locals) (e : engine) :
  during c l e -> lost e = 0 -> thread_step false false None c l e = None ->
  is_Some (engine_step e) \/ is_Some (intr_step e).
Proof.
  intros [Hm Hpl] Hlost Hs. destruct (cur_last _ _ _ Hm) as [Hcur Hlast].
  destruct (d_order _ _ _ Hm) as (Ho1 & Ho2 & _). destruct (d_intr _ _ _ Hm) as [Hi _].
  assert (rq_processed e < rq_enqueued e -> is_Some (engine_step e) \/ is_Some (intr_step e)) as Hen.
  { intros Hlt. destruct (Z.ltb_spec 0 (unreported e)) as [Hu|Hu].
    - right. unfold intr_step. rewrite (proj2 (Z.ltb_lt _ _)) by done. by eexists.
    - left. unfold engine_step, completed in *.
      rewrite (d_flight _ _ _ Hm), seqZ_cons by (unfold completed; lia). simpl. eauto. }
  destruct c as [| | |i|i]; try done; simpl in Hs.
  - rewrite (t_id_entry _ _ _ _ Hm Hcur), Hlast in Hs. apply Hen. unfold completed in Ho2.
    destruct (Z.gtb_spec (len l) 0); [|done].
    destruct (Z.geb_spec (rq_processed e) (Z.max 0 (rq_enqueued e - 16 + 1))); [done|lia].
  - unfold TLKM_DMA_CHUNKS in Hs. destruct (Z.ltb_spec i 16); [|done]. destruct Hpl as (_ & Hi' & _).
    rewrite (t_id_entry _ l e i Hm ltac:(lia)) in Hs. apply Hen. unfold completed in Ho2.
    destruct (last_of_bounds (rq_enqueued e) i ltac:(lia)).
    destruct (Z.geb_spec (rq_processed e) (Z.max 0 (last_of (rq_enqueued e) i + 1))); [done|lia].
Qed.
(** The bound on the number of steps is one. *)
Lemma steps_left_nonneg (c : pc) (l : locals) (e : engine) :
  during c l e -> 0 <= steps_left c e.
Proof.
  intros [Hm Hpl]. unfold steps_left. destruct (d_intr _ _ _ Hm), (d_order _ _ _ Hm) as (Ho1 & Ho2 & _).
  assert (rq_enqueued e <= (n0 + CH - 1) / CH).
  { destruct (decide (rq_enqueued e <= 0)); [rewrite CH_val; unfold completed in *; dlia|].
    pose proof (d_issued _ _ _ Hm (rq_enqueued e - 1) ltac:(lia)). rewrite CH_val in *. dlia. }
  destruct c; simpl in Hpl; lia.
Qed.
End Call.

(** The call itself loses no interrupt. *)
Lemma thread_step_lost (killed contended : bool) (fault : option nat) (c : pc) (l : locals)
    (e e' : engine) (o : outcome) :
  thread_step killed contended fault c l e = Some (e', o) -> lost e' = lost e.
Proof.
  assert (forall i next e' o, copy_out fault i l e next = (e', o) -> lost e' = lost e) as Hco.
  { intros i next e1 o1. unfold copy_out. destruct (nonzero _); intros [= <- _]; done. }
  destruct c; simpl; intros Hs.
  - destruct (len l >? 0); [|by simplify_eq]. destruct (_ >=? _); [by simplify_eq|].
    destruct killed; by simplify_eq.
  - injection Hs as Hs. by eapply Hco.
  - unfold blue_dma_copy_from in Hs. destruct (killed && contended); by simplify_eq.
  - destruct (i <? _); [|by simplify_eq]. destruct (_ >=? _); [by simplify_eq|].
    destruct killed; by simplify_eq.
  - injection Hs as Hs. by eapply Hco.
Qed.

(** *** The invariant of the system *)
Definition call_ok (r : call) (e : engine) : Prop :=
  0 < a_usr r /\ 0 <= a_len r /\
  during (a_usr r) (a_dev r) (a_len r) (a_mem r) (at_ r) (vars r) e.

Definition sys_inv (s : system) : Prop :=
  match reader s with
  | Some r => call_ok r (eng s)
  | None => (in_flight (eng s) = [] /\ unreported (eng s) = 0 /\ lost (eng s) = 0) /\
      length (dma_buf_read (eng s)) = 16%nat
  end.

(** One step of a call under way: it gets nearer to its end, or has ended. *)
Definition nearer (s s' : system) : Prop :=
  match reader s, reader s' with
  | Some r, Some r' =>
      (a_usr r', a_dev r', a_len r', a_mem r') = (a_usr r, a_dev r, a_len r, a_mem r) /\
      steps_left (a_len r) (at_ r') (eng s') < steps_left (a_len r) (at_ r) (eng s)
  | Some r, None => finished (a_usr r) (a_dev r) (a_len r) (a_mem r) (eng s')
  | None, _ => True
  end.

Lemma fresh_entry (u d n i : Z) : 0 <= i < 16 -> entry u n (fun j => j <? 0 - 16) 0 i = no_chunk.
Proof.
  intros Hi. unfold entry. destruct (last_of_bounds 0 i Hi). cbv zeta.
  by rewrite (proj2 (Z.leb_gt 0 (last_of 0 i))) by lia.
Qed.

Lemma call_start (al u d n : Z) (m : Z -> Z) (e e' : engine) (c : pc) (l : locals) :
  in_flight e = [] -> unreported e = 0 -> lost e = 0 ->
  length (dma_buf_read e) = 16%nat -> usermem e = m -> 0 < u -> 0 <= n ->
  tlkm_dma_copy_from al u d n e = (e', Next c l) -> during u d n m c l e'.
Proof.
  intros Hf Hz1 Hz2 Hb Hu Hu0 Hn. unfold tlkm_dma_copy_from. destruct (nonzero _); intros ?; simplify_eq.
  split; [|done]. split; simpl; unfold pos, completed; simpl; rewrite ?Hz1, ?Hz2; try done; try lia.
  - intros i Hi. rewrite fresh_entry by done. exact (nth_repeat no_chunk 16 (Z.to_nat i)).
  - intros x. destruct (Z.leb_spec 0 (x - u)); [|done]. simpl. destruct (Z.ltb_spec (x - u) n); [|done]. simpl.
    rewrite (proj2 (Z.ltb_ge _ _)); [done|]. rewrite CH_val. dlia.
Qed.

(** An interrupt arrives or is lost; between calls there is none. *)
Lemma intr_ok (s : system) (e : engine) :
  sys_inv s -> intr_step (eng s) = Some e \/ lose_step (eng s) = Some e ->
  sys_inv (mk_system e (reader s)) /\ nearer s (mk_system e (reader s)).
Proof.
  unfold sys_inv, nearer. simpl. intros H Hs. destruct (reader s) as [r|].
  - destruct H as (Hu & Hn & Hd). destruct (intr_during _ _ _ _ _ _ _ _ Hd Hs) as (H1 & En & Ef & Eu).
    split; [by split|]. split; [done|]. unfold steps_left. rewrite En, Ef, Eu. lia.
  - destruct H as [(_ & H0 & _) _]. unfold intr_step, lose_step in Hs. rewrite H0 in Hs.
    by destruct Hs.
Qed.

Lemma sys_step_ok (s s' : system) : sys_inv s -> sys_step s s' -> sys_inv s' /\ nearer s s'.
Proof.
  unfold sys_inv, nearer. intros H Hs.
  destruct Hs as [s al u d n m e c l Hr Hu Hn Hc|s r e c l cd Hr Ht|s r e ret cd Hr Ht|s e He|s e He|s e He|s m Hr]; simpl.
  - rewrite Hr in *. split; [|done]. split; [done|]. split; [done|].
    destruct H as [(? & ? & ?) ?]. by eapply call_start; [..|exact Hc].
  - rewrite Hr in *. destruct H as (Hu & Hn & Hd). pose proof (run_advances _ _ _ _ Hu Hn _ _ _ _ _ _ Hd Ht) as [H1 H2].
    by split.
  - rewrite Hr in *. destruct H as (Hu & Hn & Hd). pose proof (run_advances _ _ _ _ Hu Hn _ _ _ _ _ _ Hd Ht) as (H1 & -> & H2).
    split; [|done]. split; [by destruct H2 as (? & ? & ? & _)|]. destruct Hd as [Hm _]. apply (d_bufs _ _ _ _ _ _ _ Hm).
  - destruct (reader s) as [r|].
    + destruct H as (Hu & Hn & Hd). destruct (engine_during _ _ _ _ _ _ _ _ Hd He) as (H1 & En & Eu & El).
      split; [by split|]. split; [done|]. unfold steps_left. rewrite En, Eu. lia.
    + destruct H as [[Hf _] _]. unfold engine_step in He. by rewrite Hf in He.
  - by eapply intr_ok; [|left].
  - by eapply intr_ok; [|right].
  - rewrite Hr in *. done.
Qed.

Lemma read_reach_inv (m um : Z -> Z) (bufs : list (list Z)) (s : system) :
  length bufs = 16%nat -> rtc sys_step (sys_init m um bufs) s -> sys_inv s.
Proof.
  intros Hb Hr. revert s Hr. apply rtc_ind_r; [by split|].
  intros x y _ Hxy Hx. by apply (sys_step_ok x y).
Qed.

(** ** Properties *)

(** C4: reading device memory, whatever the engine does meanwhile, however many
    calls came before, and even if interrupts of the engine go missing (but without
    signals or bad user memory).  When a call ends, it returns 0, the requested bytes
    are in user memory at the requested address and nothing else there has changed,
    although the sixteen buffers are reused all the time, and no transfer or
    interrupt is left under way.  Every step of a call, of the engine or of an
    interrupt brings the call nearer to its end, which is at most 5 steps per chunk
    of 256 KiB and 40 more away; as long as no interrupt of the call has been lost
    some step is possible, so it ends.  If one has been lost, as the comment in
    tlkm_dma.h warns for this chunk size, the call waits for ever: it cannot return. *)
Theorem dma_read_integrity (m um : Z -> Z) (bufs : list (list Z)) (s : system) (r : call) :
  length bufs = 16%nat -> rtc sys_step (sys_init m um bufs) s -> reader s = Some r ->
  (lost (eng s) = 0 -> exists s', sys_step s s' /\ lost (eng s') = 0) /\
  (forall s', sys_step s s' ->
    match reader s' with
    | Some r' => 0 <= steps_left (a_len r) (at_ r') (eng s') < steps_left (a_len r) (at_ r) (eng s)
    | None => in_flight (eng s') = [] /\ unreported (eng s') = 0 /\
        forall x, usermem (eng s') x
                  = write_mem (a_mem r) (a_usr r) (read_mem (devmem (eng s')) (a_dev r) (a_len r)) x
    end) /\
  (forall e ret contended,
    thread_step false contended None (at_ r) (vars r) (eng s) = Some (e, Return ret) ->
    ret = 0 /\ lost (eng s) = 0).
Proof.
  intros Hb Hr Hs. pose proof (read_reach_inv m um bufs s Hb Hr) as H.
  pose proof H as Hc. unfold sys_inv in Hc. rewrite Hs in Hc. destruct Hc as (Hu & Hn & Hd).
  split; [|split].
  - intros Hl. destruct (thread_step false false None (at_ r) (vars r) (eng s)) as [[e [c l|ret]]|] eqn:E.
    + eexists. split; [by eapply step_run|]. simpl. by rewrite (thread_step_lost _ _ _ _ _ _ _ _ E).
    + eexists. split; [by eapply step_return|]. simpl. by rewrite (thread_step_lost _ _ _ _ _ _ _ _ E).
    + destruct (never_stuck _ _ _ _ _ _ _ Hd Hl E) as [[e He]|[e He]]; eexists.
      * split; [by apply step_engine|]. unfold engine_step in He. destruct (in_flight (eng s)); by simplify_eq.
      * split; [by apply step_intr|]. unfold intr_step in He. destruct (0 <? unreported (eng s)); by simplify_eq.
  - intros s' Hst. pose proof (sys_step_ok s s' H Hst) as [Hinv' Hnear]. unfold nearer in Hnear.
    rewrite Hs in Hnear. unfold sys_inv in Hinv'. destruct (reader s') as [r'|].
    + destruct Hnear as [E Hlt]. split; [|done]. destruct Hinv' as (_ & _ & Hd'). injection E as E1 E2 E3 E4.
      rewrite E1, E2, E3, E4 in Hd'. by eapply steps_left_nonneg.
    + by destruct Hnear as (? & ? & _ & ?).
  - intros e ret cd Ht. destruct (run_advances _ _ _ _ Hu Hn _ _ _ _ _ _ Hd Ht) as (-> & _ & _ & _ & ? & _).
    done.
Qed.

(** Without the assumption on signals this fails: a call that is killed while its last
    transfer is under way leaves it behind; the next call resets the counters, takes
    the interrupt of the old transfer for its own, and hands out what the old transfer
    has brought.  Here both read one byte, from the addresses 16 and 32 of a memory
    that holds its addresses, and the second gets 16. *)
Definition run_call (killed : bool) (n : nat) (eo : engine * outcome) : engine * outcome :=
  Nat.iter n (fun eo => match eo.2 with
    | Next c l => default eo (thread_step killed false None c l eo.1)
    | Return _ => eo
    end) eo.

Definition killed_then_read : option (outcome * outcome * Z) :=
  let e := mk_engine 0 0 (replicate 16 [99]) [] 0 0 (fun x => x) (fun _ => 0) in
  let (e1, o1) := run_call true 5 (tlkm_dma_copy_from 1 1000 16 1 e) in
  let (e2, o2) := run_call false 3 (tlkm_dma_copy_from 1 1000 32 1 e1) in
  e3 ← engine_step e2;
  e3 ← intr_step e3;
  let (e4, o4) := run_call false 40 (e3, o2) in
  Some (o1, o4, usermem e4 1000).

Lemma killed_read_corrupts_next : killed_then_read = Some (Return (- EACCES), Return 0, 16).
Proof. vm_compute. reflexivity. Qed.

(** ** Witness: one byte *)
Definition demo_bufs : list (list Z) := replicate 16 [99].
Definition demo_start : system := sys_init (fun x => x) (fun _ => 0) demo_bufs.
Definition demo_call : call :=
  mk_call 1000 16 1 (fun _ => 0) loop_wait (mk_locals 1000 16 1 0 (replicate 16 no_chunk)).
Definition demo : system :=
  mk_system (mk_engine 0 0 demo_bufs [] 0 0 (fun x => x) (fun _ => 0)) (Some demo_call).

Lemma read_demo_reach : rtc sys_step demo_start demo.
Proof. eapply rtc_l; [|apply rtc_refl]. by apply (step_call demo_start 16 1000 16 1). Qed.

Lemma dma_read_integrity_witness :
  exists s', sys_step demo s' /\ lost (eng s') = 0 /\ is_Some (reader s').
Proof.
  destruct (dma_read_integrity (fun x => x) (fun _ => 0) demo_bufs demo demo_call eq_refl
    read_demo_reach eq_refl) as (Hex & Hn & _). destruct (Hex eq_refl) as (s' & Hs & Hl).
  exists s'. split; [done|]. split; [done|].
  inversion Hs as [|? r e c l cd Hr Ht|? r e ret cd Hr Ht|? e He|? e He|? e He|];
    subst; simpl in *; simplify_eq; by eexists.
Defined.

End DmaRead.
