(* ===== verification/DmaLife.v ===== *)
(** * Setting up the BlueDMA engine (dma/tlkm_dma.c: tlkm_dma_init, tlkm_dma_exit;
      dma/blue_dma.c: blue_dma_init)

    The registers are mapped, the engine is recognised by its id register, and
    sixteen bounce buffers are allocated for each direction.  DmaWrite.v and DmaRead.v
    start from what this leaves. *)
From S2P Require Import Prelude Kernel Lifecycle DmaWrite.

Module DmaLife.
Import Kernel Lifecycle.
Import DmaWrite(TLKM_DMA_CHUNKS).
#[local] Open Scope prog_scope.

Inductive dma_res := regs_window | read_buf (i : Z) | write_buf (i : Z).

#[export] Instance dma_res_eq_dec : EqDecision dma_res.
Proof. solve_decision. Defined.

(** The fields of struct dma_engine that are set up here. *)
Record dma_engine := mk_engine {
  regs : bool;
  alignment : Z;
  ack_register : Z;
  rq_enqueued : Z;
  wq_requested : Z;
  wq_enqueued : Z;
  wq_processed : Z
}.
Definition engine_zero : dma_engine := mk_engine false 0 0 0 0 0 0.
Notation L := (prog (lifeE dma_res dma_engine)).

Definition set_regs (b : bool) (e : dma_engine) : dma_engine :=
  mk_engine b (alignment e) (ack_register e) (rq_enqueued e) (wq_requested e) (wq_enqueued e) (wq_processed e).
Definition set_ack (a : Z) (e : dma_engine) : dma_engine :=
  mk_engine (regs e) (alignment e) a (rq_enqueued e) (wq_requested e) (wq_enqueued e) (wq_processed e).
Definition set_alignment (a : Z) (e : dma_engine) : dma_engine :=
  mk_engine (regs e) a (ack_register e) (rq_enqueued e) (wq_requested e) (wq_enqueued e) (wq_processed e).
Definition reset_counters (e : dma_engine) : dma_engine :=
  mk_engine (regs e) (alignment e) (ack_register e) (rq_enqueued e) 0 0 0.

Definition BLUE_DMA_ID : Z := 240779299.

Section Code.
(** The address of the interrupt controller in the platform window. *)
Variable plat_intc0 : Z.

(** blue_dma_init: 1 if the engine is a BlueDMA *)
Definition blue_dma_init : L Z :=
  let! id := call read_reg in
  if Z.land id 4294967295 =? BLUE_DMA_ID then
    update (set_alignment (u8 (Z.shiftr id 48)));;;
    update (set_ack (u64 (plat_intc0 + 33056)));;;
    Ret 1
  else Ret 0.

(** allocate_buffer for the buffers [l], one after the other; the number of those
    allocated, and the result of the last call. *)
Fixpoint allocate_buffers (buf : Z -> dma_res) (l : list Z) (i : Z) : L (Z * Z) :=
  match l with
  | [] => Ret (i, 0)
  | j :: r =>
      let! ret := call (request (buf j)) in
      if nonzero ret then Ret (i, ret) else allocate_buffers buf r (i + 1)
  end.

(** for (i -= 1; i >= 0; --i) free_buffer *)
Fixpoint free_buffers (buf : Z -> dma_res) (n : nat) : L unit :=
  match n with
  | O => Ret tt
  | S k => call (release (buf (Z.of_nat k)));;; free_buffers buf k
  end.

Definition err_unknown_dma : L Z :=
  call (release regs_window);;; update (set_regs false);;; Ret (- ENODEV).
Definition err_dma_bufs_read (i : Z) : L Z := free_buffers read_buf (Z.to_nat i);;; err_unknown_dma.
Definition err_dma_bufs_write (i : Z) : L Z :=
  free_buffers write_buf (Z.to_nat i);;; err_dma_bufs_read TLKM_DMA_CHUNKS.

Definition indices : list Z := map Z.of_nat (seq 0 16).

Definition tlkm_dma_init : L Z :=
  update (set_ack 0);;;
  update reset_counters;;;
  let! ok := call (acquire regs_window) in
  if negb ok then update (set_regs false);;; Ret (- ENODEV) else
  update (set_regs true);;;
  (* tlkm_dma_ops has one entry *)
  let! r := blue_dma_init in
  if r =? 0 then err_unknown_dma else
  let! (i, ret) := allocate_buffers read_buf indices 0 in
  if nonzero ret then err_dma_bufs_read i else
  let! (i, ret) := allocate_buffers write_buf indices 0 in
  if nonzero ret then err_dma_bufs_write i else
  Ret 0.

Fixpoint exit_loop (l : list Z) : L unit :=
  match l with
  | [] => Ret tt
  | i :: r => call (release (write_buf i));;; call (release (read_buf i));;; exit_loop r
  end.

Definition tlkm_dma_exit : L unit :=
  let! e := call load in
  if regs e then
    exit_loop indices;;;
    call (release regs_window);;;
    update (fun _ => engine_zero)
  else Ret tt.
End Code.

(** ** Specifications *)
Section Spec.
Variable may_fail : dma_res -> bool.
Variable plat_intc0 : Z.
Notation st := (life dma_res dma_engine).
Notation M := (life_model (F := dma_engine) may_fail).

(** The first [n] buffers of a direction. *)
Definition bufs (buf : Z -> dma_res) (n : nat) : list dma_res := map (fun k => buf (Z.of_nat k)) (seq 0 n).

Lemma bufs_S (buf : Z -> dma_res) (n : nat) : Permutation (bufs buf (S n)) (buf (Z.of_nat n) :: bufs buf n).
Proof. unfold bufs. rewrite seq_S, map_app. simpl. by rewrite Permutation_app_comm. Qed.

Lemma allocate_buffers_spec (buf : Z -> dma_res) (k n : nat) (h : list dma_res) (s : st) :
  Permutation (held s) (bufs buf n ++ h) ->
  wp M (allocate_buffers buf (map Z.of_nat (seq n k)) (Z.of_nat n)) s (fun '(i, ret) s' =>
    state s' = state s /\
    ((ret = 0 /\ Permutation (held s') (bufs buf (n + k) ++ h)) \/
     (ret < 0 /\ 0 <= i /\ Permutation (held s') (bufs buf (Z.to_nat i) ++ h)))).
Proof.
  revert n s. induction k as [|k IH]; intros n s Hh; simpl.
  { apply wp_ret. rewrite Nat.add_0_r. by auto. }
  apply wp_bind, (wp_request_perm _ _ _ _ _ Hh).
  - intros s1 H1 E1. change (nonzero 0) with false. cbv iota.
    replace (Z.of_nat n + 1) with (Z.of_nat (S n)) by lia.
    eapply wp_mono; [apply (IH (S n))|].
    + by rewrite H1, bufs_S.
    + intros [i ret] s2 [E2 H2]. split; [congruence|].
      by replace (n + S k)%nat with (S n + k)%nat by lia.
  - intros res Hres _. unfold nonzero. rewrite (proj2 (Z.eqb_neq _ _)) by lia. cbn [negb]. cbv iota.
    apply wp_ret. split; [done|]. right. rewrite Nat2Z.id. split; [done|]. split; [lia|done].
Qed.

Lemma free_buffers_spec (buf : Z -> dma_res) (n : nat) (h : list dma_res) (s : st) :
  Permutation (held s) (bufs buf n ++ h) ->
  wp M (free_buffers buf n) s (fun _ s' => Permutation (held s') h /\ state s' = state s).
Proof.
  revert s. induction n as [|n IH]; intros s Hh; simpl; [by apply wp_ret|]. rewrite bufs_S in Hh.
  apply wp_bind, (wp_release_perm _ _ _ _ _ Hh). intros s1 H1 E1. rewrite <- E1. by apply IH.
Qed.

Lemma err_unknown_spec (h : list dma_res) (s : st) :
  Permutation (held s) (regs_window :: h) ->
  wp M err_unknown_dma s (fun ret s' => ret = - ENODEV /\ Permutation (held s') h /\ regs (state s') = false).
Proof.
  intros Hh. apply wp_bind, (wp_release_perm _ _ _ _ _ Hh). intros s1 H1 E1.
  apply wp_bind, (wp_update_perm _ _ _ _ _ H1). intros s2 H2 E2. apply wp_ret. by rewrite E2.
Qed.

Lemma err_bufs_read_spec (i : Z) (h : list dma_res) (s : st) :
  Permutation (held s) (bufs read_buf (Z.to_nat i) ++ regs_window :: h) ->
  wp M (err_dma_bufs_read i) s (fun ret s' =>
    ret = - ENODEV /\ Permutation (held s') h /\ regs (state s') = false).
Proof. intros Hh. wp_seq (free_buffers_spec read_buf _ _ s Hh). intros [] s1 [H1 _]. by apply err_unknown_spec. Qed.

(** What an engine that is set up holds. *)
Definition engine_res : list dma_res := bufs write_buf 16 ++ bufs read_buf 16 ++ [regs_window].

(** tlkm_dma_init is all or nothing; it starts the counters of the write direction. *)
Lemma dma_init_spec (h : list dma_res) (s : st) :
  Permutation (held s) h ->
  wp M (tlkm_dma_init plat_intc0) s (fun ret s' =>
    (ret = 0 /\ Permutation (held s') (engine_res ++ h) /\ regs (state s') = true /\
     wq_requested (state s') = 0 /\ wq_enqueued (state s') = 0 /\ wq_processed (state s') = 0 /\
     0 <= alignment (state s') < 256) \/
    (ret = - ENODEV /\ Permutation (held s') h /\ regs (state s') = false)).
Proof.
  intros Hh. apply wp_bind, (wp_update_perm _ _ _ _ _ Hh). intros s1 H1 E1.
  apply wp_bind, (wp_update_perm _ _ _ _ _ H1). intros s2 H2 E2. apply wp_bind, (wp_acquire_perm _ _ _ _ _ H2).
  2:{ intros _. cbn [negb]. cbv iota. apply wp_bind, (wp_update_perm _ _ _ _ _ H2). intros s3 H3 E3.
      apply wp_ret. right. by rewrite E3. }
  intros s3 H3 E3. cbn [negb]. cbv iota. apply wp_bind, (wp_update_perm _ _ _ _ _ H3). intros s4 H4 E4.
  apply wp_bind. apply wp_bind, wp_read_reg. intros id. destruct (Z.land id 4294967295 =? BLUE_DMA_ID).
  2:{ apply wp_ret. cbv iota. change (0 =? 0) with true. cbv iota.
      eapply wp_mono; [by apply (err_unknown_spec h)|]. auto. }
  apply wp_bind, (wp_update_perm _ _ _ _ _ H4). intros s5 H5 E5.
  apply wp_bind, (wp_update_perm _ _ _ _ _ H5). intros s6 H6 E6. apply wp_ret.
  change (1 =? 0) with false. cbv iota. apply wp_bind.
  eapply wp_mono; [apply (allocate_buffers_spec read_buf 16 0 (regs_window :: h) s6); by rewrite H6|].
  intros [i ret] s7 [E7 [[-> H7]|(Hr & Hi & H7)]].
  2:{ unfold nonzero. rewrite (proj2 (Z.eqb_neq _ _)) by lia. cbn [negb]. cbv iota.
      eapply wp_mono; [by apply (err_bufs_read_spec i h)|]. auto. }
  change (nonzero 0) with false. cbv iota. apply wp_bind.
  eapply wp_mono; [apply (allocate_buffers_spec write_buf 16 0 (bufs read_buf 16 ++ regs_window :: h) s7);
    by rewrite H7|].
  intros [i2 ret] s8 [E8 [[-> H8]|(Hr & Hi2 & H8)]].
  2:{ unfold nonzero. rewrite (proj2 (Z.eqb_neq _ _)) by lia. cbn [negb]. cbv iota.
      wp_seq (free_buffers_spec write_buf _ _ s8 H8). intros [] s9 [H9 _].
      eapply wp_mono; [apply (err_bufs_read_spec TLKM_DMA_CHUNKS h s9); by rewrite H9|]. auto. }
  change (nonzero 0) with false. cbv iota. apply wp_ret. left. split; [done|].
  split; [rewrite H8; unfold engine_res; by rewrite <- !app_assoc|].
  rewrite E8, E7, E6, E5, E4, E3, E2, E1. simpl. repeat (split; [done|]).
  apply (Z.mod_pos_bound _ 256). lia.
Qed.

Lemma dma_exit_loop_spec (k n : nat) (h : list dma_res) (s : st) :
  Permutation (held s) (map (fun k => write_buf (Z.of_nat k)) (seq n k) ++
                        map (fun k => read_buf (Z.of_nat k)) (seq n k) ++ h) ->
  wp M (exit_loop (map Z.of_nat (seq n k))) s (fun _ s' => Permutation (held s') h /\ state s' = state s).
Proof.
  revert n s. induction k as [|k IH]; intros n s Hh; simpl; [by apply wp_ret|]. simpl in Hh.
  apply wp_bind, (wp_release_perm _ _ _ _ _ Hh). intros s1 H1 E1.
  rewrite <- Permutation_middle in H1. apply wp_bind, (wp_release_perm _ _ _ _ _ H1).
  intros s2 H2 E2. rewrite <- E1, <- E2. by apply IH.
Qed.

(** tlkm_dma_exit gives back what tlkm_dma_init has obtained. *)
Lemma dma_exit_spec (h : list dma_res) (s : st) :
  Permutation (held s) (engine_res ++ h) -> regs (state s) = true ->
  wp M tlkm_dma_exit s (fun _ s' => Permutation (held s') h /\ state s' = engine_zero).
Proof.
  intros Hh Hr. apply wp_bind, wp_load. rewrite Hr. unfold engine_res in Hh. rewrite <- !app_assoc in Hh.
  wp_seq (dma_exit_loop_spec 16 0 ([regs_window] ++ h) s Hh). intros [] s1 [H1 E1].
  apply wp_bind, (wp_release_perm _ _ _ _ _ H1). intros s2 H2 E2.
  apply (wp_update_perm _ _ _ _ _ H2). intros s3 H3 E3. by rewrite E3.
Qed.
End Spec.

End DmaLife.
