(* ===== verification/Irq.v ===== *)
(** * Interrupts of the processing elements
      (device/tlkm_device_ioctl.c: tlkm_device_reg_int; device/tlkm_control.c:
       tlkm_control_release; zynq/zynq_irq.c; pcie/pcie_irq.c; pcie/pcie_irq_aws.c)

    User space registers an eventfd per interrupt number; the registrations are a
    list in the control structure of the device, kept sorted because the handlers
    of the Zynq and AWS controllers walk it once for all pending bits.  What the
    device class does for a registration is an interface: the code of the control
    file is verified against it, and the Zynq, PCIe and AWS classes are shown to
    implement it.  Then the interrupt handlers: which eventfds they signal. *)
From S2P Require Import Prelude.

Module Irq.

(** ** Data *)

(** struct tlkm_irq_mapping: its address, number and eventfd (0: none). *)
Record irq_mapping := mk_mapping { addr : Z; irq_no : Z; eventfd : Z }.

#[export] Instance irq_mapping_eq_dec : EqDecision irq_mapping.
Proof. solve_decision. Defined.

(** ** What the control file expects of a device class *)

(** tlkm_class: pirq and rirq.  The first argument of pirq is what request_irq
    returns, if it is called; [None] is an access out of bounds or through NULL. *)
Class irq_ops (P : Type) := {
  pirq : Z -> P -> list irq_mapping -> irq_mapping -> option (Z * P);
  rirq : P -> list irq_mapping -> irq_mapping -> option P
}.

Section Control.
Context {P : Type} {Ops : irq_ops P}.
(** tlkm_class: miscdev_close, which may be NULL. *)
Variable miscdev_close : option (P -> P).

(** struct tlkm_control with the private data of the class and the eventfd
    references the driver holds. *)
Record control := mk_control {
  interrupts : list irq_mapping;
  cls_data : P;
  eventfds : list Z
}.

(** list_add_tail in front of the first larger number, at the end if there is none. *)
Fixpoint insert_mapping (m : irq_mapping) (l : list irq_mapping) : list irq_mapping :=
  match l with
  | [] => [m]
  | e :: r => if irq_no e >? irq_no m then m :: e :: r else e :: insert_mapping m r
  end.

(** IS_ERR, of a pointer read as a signed number; eventfd_ctx_fdget gives such a
    pointer when the file descriptor is not an eventfd. *)
Definition is_err (p : Z) : bool := (-4095 <=? p) && (p <? 0).

(** tlkm_device_reg_int; [copy_ok]: the argument could be read, [kzalloc]: the
    address of the new entry ([None]: NULL, which is written to), [irq_res]: the result
    of request_irq, [fdget]: what eventfd_ctx_fdget yields.  The code stores an error
    pointer like any other, but holds no reference then. *)
Definition tlkm_device_reg_int (copy_ok : bool) (kzalloc : option Z) (irq_res fdget pe_id : Z)
    (c : control) : option (Z * control) :=
  if negb copy_ok then Some (- EFAULT, c) else
  if existsb (fun e => irq_no e =? pe_id) (interrupts c) then Some (- EFAULT, c) else
  match kzalloc with
  | None => None
  | Some a =>
      match pirq irq_res (cls_data c) (interrupts c) (mk_mapping a pe_id 0) with
      | None => None
      | Some (result, p) =>
          if nonzero result then Some (result, mk_control (interrupts c) p (eventfds c)) else
          Some (0, mk_control (insert_mapping (mk_mapping a pe_id fdget) (interrupts c)) p
                     (if is_err fdget then eventfds c else fdget :: eventfds c))
      end
  end.

(** list_for_each_safe of tlkm_control_release *)
Fixpoint release_loop (l : list irq_mapping) (p : P) (fds : list Z) : option (P * list Z) :=
  match l with
  | [] => Some (p, fds)
  | e :: r =>
      if decide (eventfd e ∈ fds) then
        let e0 := mk_mapping (addr e) (irq_no e) 0 in
        match rirq p (e0 :: r) e0 with
        | None => None
        | Some p' => release_loop r p' (remove_one (eventfd e) fds)
        end
      else None
  end.

Definition tlkm_control_release (c : control) : option (Z * control) :=
  match release_loop (interrupts c) (cls_data c) (eventfds c) with
  | None => None
  | Some (p, fds) =>
      Some (0, mk_control [] (match miscdev_close with Some f => f p | None => p end) fds)
  end.
End Control.
Arguments control P : clear implicits.

(** The order of the list. *)
Definition before (a b : irq_mapping) : Prop := irq_no a < irq_no b.

(** The promise: [irq_ok p l] relates the data of the class to the list; [valid]
    are the numbers it takes, [may_refuse] whether a refused request_irq is
    reported. *)
Class IrqClass (P : Type) {Ops : irq_ops P} := {
  irq_ok : P -> list irq_mapping -> Prop;
  valid : Z -> Prop;
  may_refuse : bool;
  pirq_ok (irq_res : Z) (p : P) (l : list irq_mapping) (a no fd : Z) :
    irq_ok p l -> StronglySorted before l -> valid no -> (irq_res = 0 \/ may_refuse = true) ->
    (forall e, e ∈ l -> irq_no e <> no) ->
    exists result p', pirq irq_res p l (mk_mapping a no 0) = Some (result, p') /\
      irq_ok p' (if nonzero result then l else insert_mapping (mk_mapping a no fd) l);
  rirq_ok (p : P) (l : list irq_mapping) (m : irq_mapping) :
    irq_ok p (m :: l) -> StronglySorted before (m :: l) -> valid (irq_no m) ->
    exists p', rirq p (mk_mapping (addr m) (irq_no m) 0 :: l) (mk_mapping (addr m) (irq_no m) 0)
               = Some p' /\ irq_ok p' l
}.
#[global] Hint Mode IrqClass ! - : typeclass_instances.

(** ** Zynq: controllers of 32 lines *)

Definition IRQS_PER_CONTROLLER : Z := 32.
Definition ZYNQ_MAX_NUM_INTCS : nat := 4.

(** intc_bases[i].mapping: NULL, or the address of an entry with its number,
    which never changes. *)
Notation intc_bases := (list (option (Z * Z))).

Definition pointer (m : irq_mapping) : Z * Z := (addr m, irq_no m).

(** The list from the entry at an address on. *)
Fixpoint from (p : Z) (l : list irq_mapping) : list irq_mapping :=
  match l with
  | [] => []
  | m :: r => if addr m =? p then l else from p r
  end.

(** intc_bases[controller], when the index is one of the array. *)
Definition controller_at (z : intc_bases) (controller : Z) : option (nat * option (Z * Z)) :=
  if controller <? 0 then None else
  match z !! Z.to_nat controller with
  | None => None
  | Some m => Some (Z.to_nat controller, m)
  end.

(** The first [direct] numbers do not belong to a controller. *)
Definition controller_of (direct no : Z) : Z := Z.quot (no - direct) IRQS_PER_CONTROLLER.

Definition controller_request (direct : Z) (z : intc_bases) (m : irq_mapping) : option intc_bases :=
  match controller_at z (controller_of direct (irq_no m)) with
  | None => None
  | Some (i, None) => Some (<[i := Some (pointer m)]> z)
  | Some (i, Some (_, no)) =>
      if no >? irq_no m then Some (<[i := Some (pointer m)]> z) else Some z
  end.

Definition controller_release (direct : Z) (z : intc_bases) (interrupts : list irq_mapping)
    (m : irq_mapping) : option intc_bases :=
  match controller_at z (controller_of direct (irq_no m)) with
  | None => None
  | Some (i, None) => Some z
  | Some (i, Some (_, no)) =>
      if no =? irq_no m then
        match from (addr m) interrupts with
        | _ :: next :: _ =>
            if controller_of direct (irq_no next) =? controller_of direct (irq_no m)
            then Some (<[i := Some (pointer next)]> z)
            else Some (<[i := None]> z)
        | _ => Some (<[i := None]> z)
        end
      else Some z
  end.

Definition zynq_irq_request_platform_irq (z : intc_bases) (m : irq_mapping)
    : option (Z * intc_bases) :=
  option_map (pair 0) (controller_request 0 z m).

Definition zynq_irq_release_platform_irq (z : intc_bases) (interrupts : list irq_mapping)
    (m : irq_mapping) : option intc_bases :=
  controller_release 0 z interrupts m.

#[export] Instance zynq_irq_ops : irq_ops intc_bases := {|
  pirq := fun _ z _ m => zynq_irq_request_platform_irq z m;
  rirq := zynq_irq_release_platform_irq
|}.

(** ** PCIe: an MSI-X vector per number *)

Inductive handler :=
| intr_handler_platform_
| qdma_intr_handler_write
| qdma_intr_handler_read
| qdma_intr_handler_c2h_stream
| qdma_intr_handler_h2c_stream.

#[export] Instance handler_eq_dec : EqDecision handler.
Proof. solve_decision. Defined.

Definition QDMA_IRQ_VEC_C2H : Z := 0.
Definition QDMA_IRQ_VEC_H2C : Z := 1.
Definition QDMA_IRQ_VEC_C2H_ST : Z := 2.
Definition QDMA_IRQ_VEC_H2C_ST : Z := 3.

(** The interrupts the device has requested: vector, handler and the mapping that
    is passed to it; pcie_is_qdma_in_use. *)
Record pcie_irqs := mk_irqs { qdma_in_use : bool; requested : list (Z * handler * Z) }.

Definition handler_for (qdma : bool) (no : Z) : handler :=
  if (no =? QDMA_IRQ_VEC_H2C) && qdma then qdma_intr_handler_write
  else if (no =? QDMA_IRQ_VEC_C2H) && qdma then qdma_intr_handler_read
  else if (no =? QDMA_IRQ_VEC_C2H_ST) && qdma then qdma_intr_handler_c2h_stream
  else if (no =? QDMA_IRQ_VEC_H2C_ST) && qdma then qdma_intr_handler_h2c_stream
  else intr_handler_platform_.

Definition vector (qdma : bool) (m : irq_mapping) : Z * handler * Z :=
  (irq_no m, handler_for qdma (irq_no m), addr m).

Definition pcie_irqs_request_platform_irq (irq_res : Z) (p : pcie_irqs) (m : irq_mapping)
    : Z * pcie_irqs :=
  if nonzero irq_res then (irq_res, p)
  else (irq_res, mk_irqs (qdma_in_use p) (vector (qdma_in_use p) m :: requested p)).

(** free_irq of a vector and mapping that were not requested is an error. *)
Definition pcie_irqs_release_platform_irq (p : pcie_irqs) (m : irq_mapping) : option pcie_irqs :=
  if decide (vector (qdma_in_use p) m ∈ requested p)
  then Some (mk_irqs (qdma_in_use p) (remove_one (vector (qdma_in_use p) m) (requested p)))
  else None.

#[export] Instance pcie_irq_ops : irq_ops pcie_irqs := {|
  pirq := fun irq_res p _ m => Some (pcie_irqs_request_platform_irq irq_res p m);
  rirq := fun p _ m => pcie_irqs_release_platform_irq p m
|}.

(** ** AWS: four vectors, then controllers of 32 lines *)

Definition NUM_DIRECT_IRQS : Z := 4.

Record aws_irqs := mk_aws { direct : pcie_irqs; bases : intc_bases }.

(** The result of the request for a direct interrupt is not looked at. *)
Definition pcie_aws_irqs_request_platform_irq (irq_res : Z) (p : aws_irqs) (m : irq_mapping)
    : option (Z * aws_irqs) :=
  if irq_no m <? NUM_DIRECT_IRQS then
    Some (0, mk_aws (snd (pcie_irqs_request_platform_irq irq_res (direct p) m)) (bases p))
  else
    match controller_request NUM_DIRECT_IRQS (bases p) m with
    | None => None
    | Some z => Some (0, mk_aws (direct p) z)
    end.

Definition pcie_aws_irqs_release_platform_irq (p : aws_irqs) (interrupts : list irq_mapping)
    (m : irq_mapping) : option aws_irqs :=
  if irq_no m <? NUM_DIRECT_IRQS then
    option_map (fun d => mk_aws d (bases p)) (pcie_irqs_release_platform_irq (direct p) m)
  else option_map (mk_aws (direct p)) (controller_release NUM_DIRECT_IRQS (bases p) interrupts m).

#[export] Instance aws_irq_ops : irq_ops aws_irqs := {|
  pirq := fun irq_res p _ m => pcie_aws_irqs_request_platform_irq irq_res p m;
  rirq := pcie_aws_irqs_release_platform_irq
|}.

(** ** Handlers *)

(** What a handler does, in order. *)
Inductive event := acknowledge (w : Z) | signal (fd : Z).

(** __builtin_ffs *)
Fixpoint ffs_from (i : Z) (width : nat) (w : Z) : Z :=
  match width with
  | O => 0
  | S n => if Z.testbit w i then i + 1 else ffs_from (i + 1) n w
  end.
Definition ffs (w : Z) : Z := ffs_from 0 32 w.

(** while (m_start->irq_no < slot): [cur] is the list from m_start on. *)
Fixpoint skip (slot : Z) (cur : list irq_mapping) : list irq_mapping :=
  match cur with
  | m :: ((_ :: _) as r) => if u32 (irq_no m) <? slot then skip slot r else cur
  | _ => cur
  end.

(** The loop over the bits of one status word; [bit] is the mask the code clears
    for a line.  [fuel]: a word has 32 bits. *)
Fixpoint serve (bit : Z -> Z) (s_off : Z) (fuel : nat) (status : Z) (cur : list irq_mapping)
    : option (list event * list irq_mapping) :=
  match fuel with
  | O => None
  | S n =>
      let line := ffs status - 1 in
      let slot := u32 (line + s_off) in
      let cur' := skip slot cur in
      let out := match cur' with
                 | m :: _ => if u32 (irq_no m) =? slot then [signal (eventfd m)] else []
                 | [] => []
                 end in
      let status' := Z.lxor status (bit line) in
      if nonzero status' then
        match serve bit s_off n status' cur' with
        | Some (out', c) => Some (out ++ out', c)
        | None => None
        end
      else Some (out, cur')
  end.

(** while ((status = intc[0])): [reads] are the values the register gives. *)
Fixpoint rounds (bit : Z -> Z) (ack : bool) (s_off : Z) (reads : list Z) (cur : list irq_mapping)
    : option (list event) :=
  match reads with
  | [] => None
  | status :: reads' =>
      if status =? 0 then Some [] else
      match serve bit s_off 32 status cur with
      | None => None
      | Some (out, cur') =>
          option_map (fun rest => (if ack then [acknowledge status] else []) ++ out ++ rest)
            (rounds bit ack s_off reads' cur')
      end
  end.

(** [shl n] is what the machine computes for 1U << n, which C defines for n < 32
    only. *)
Definition zynq_irq_handler (shl : Z -> Z) (s_off : Z) (mapping : option (Z * Z))
    (interrupts : list irq_mapping) (reads : list Z) : option (list event) :=
  match mapping with
  | None => Some []
  | Some (a, _) => rounds (fun line => shl (u32 (line + s_off))) true s_off reads (from a interrupts)
  end.

Definition aws_irq_handler (s_off : Z) (mapping : option (Z * Z))
    (interrupts : list irq_mapping) (reads : list Z) : option (list event) :=
  match mapping with
  | None => Some []
  | Some (a, _) => rounds (fun line => 2 ^ line) false s_off reads (from a interrupts)
  end.

Definition intr_handler_platform (m : irq_mapping) : list event :=
  (if nonzero (eventfd m) then [signal (eventfd m)] else []) ++ [acknowledge (irq_no m)].

(** ** The list of registrations *)

Lemma insert_mapping_perm (m : irq_mapping) (l : list irq_mapping) :
  Permutation (insert_mapping m l) (m :: l).
Proof.
  induction l as [|e r IH]; simpl; [done|]. destruct (irq_no e >? irq_no m); [done|].
  rewrite IH. apply Permutation_swap.
Qed.

Lemma elem_of_insert_mapping (m e : irq_mapping) (l : list irq_mapping) :
  e ∈ insert_mapping m l <-> e = m \/ e ∈ l.
Proof. by rewrite insert_mapping_perm, elem_of_cons. Qed.

Lemma insert_mapping_sorted (m : irq_mapping) (l : list irq_mapping) :
  (forall e, e ∈ l -> irq_no e <> irq_no m) ->
  StronglySorted before l -> StronglySorted before (insert_mapping m l).
Proof.
  induction l as [|e r IH]; intros Hne Hs; simpl; [by repeat constructor|].
  apply StronglySorted_inv in Hs as [Hr He]. rewrite Forall_forall in He.
  assert (irq_no e <> irq_no m) as Hem by (apply Hne; left).
  rewrite Z.gtb_ltb. destruct (Z.ltb_spec (irq_no m) (irq_no e)) as [Hlt|Hge].
  - constructor; [by constructor; [|rewrite Forall_forall]|]. constructor; [done|].
    rewrite Forall_forall. intros x Hx. specialize (He x Hx). unfold before in *. lia.
  - constructor; [apply IH; [|done]; intros x Hx; apply Hne; by right|].
    rewrite Forall_forall. intros x [->|Hx]%elem_of_insert_mapping; [unfold before; lia|by apply He].
Qed.

(** ** The control file against the interface *)
Section Interface.
Context {P : Type} {Ops : irq_ops P} {Cls : IrqClass P}.
Variable miscdev_close : option (P -> P).
(** Closing the device file does not touch the interrupts. *)
Hypothesis close_ok : forall f p l, miscdev_close = Some f -> irq_ok p l -> irq_ok (f p) l.

Record irq_inv (c : control P) : Prop := {
  v_sorted : StronglySorted before (interrupts c);
  v_valid : forall e, e ∈ interrupts c -> valid (irq_no e);
  v_addr : NoDup (map addr (interrupts c));
  v_fds : Permutation (eventfds c) (map eventfd (interrupts c));
  v_cls : irq_ok (cls_data c) (interrupts c)
}.

Lemma reg_int_spec (kzalloc irq_res fdget pe_id : Z) (c : control P) :
  irq_inv c -> valid pe_id -> kzalloc ∉ map addr (interrupts c) -> is_err fdget = false ->
  irq_res = 0 \/ may_refuse = true ->
  exists ret c', tlkm_device_reg_int true (Some kzalloc) irq_res fdget pe_id c = Some (ret, c') /\
    irq_inv c' /\
    (ret = 0 -> interrupts c' = insert_mapping (mk_mapping kzalloc pe_id fdget) (interrupts c) /\
                forall e, e ∈ interrupts c -> irq_no e <> pe_id) /\
    (ret <> 0 -> interrupts c' = interrupts c /\ eventfds c' = eventfds c).
Proof.
  intros [Hs Hv Ha Hf Hc] Hno Hnew Hfd Hres. unfold tlkm_device_reg_int. simpl. rewrite Hfd.
  destruct (existsb _ _) eqn:Ex.
  { do 2 eexists. split; [done|]. split; [done|]. by split; [|]. }
  assert (forall e, e ∈ interrupts c -> irq_no e <> pe_id) as Hfree.
  { intros e He Heq. assert (existsb (fun e => irq_no e =? pe_id) (interrupts c) = true); [|congruence].
    apply existsb_exists. exists e. split; [by apply list_elem_of_In|lia]. }
  destruct (pirq_ok irq_res (cls_data c) (interrupts c) kzalloc pe_id fdget Hc Hs Hno Hres Hfree)
    as (res & p & -> & Hok).
  unfold nonzero in *. destruct (Z.eqb_spec res 0) as [->|Hne]; simpl in *.
  - do 2 eexists. split; [done|]. split; [|by split].
    split; simpl; [by apply insert_mapping_sorted| | | |done].
    + intros e [->|He]%elem_of_insert_mapping; [done|by apply Hv].
    + rewrite insert_mapping_perm. by constructor.
    + rewrite insert_mapping_perm. simpl. by rewrite Hf.
  - do 2 eexists. split; [done|]. split; [by split|by split].
Qed.

Lemma release_loop_spec (l : list irq_mapping) (p : P) (fds : list Z) :
  StronglySorted before l -> (forall e, e ∈ l -> valid (irq_no e)) -> irq_ok p l ->
  Permutation fds (map eventfd l) ->
  exists p', release_loop l p fds = Some (p', []) /\ irq_ok p' [].
Proof.
  revert p fds. induction l as [|e r IH]; intros p fds Hs Hv Hok Hp; simpl in *.
  { symmetry in Hp. apply Permutation_nil in Hp as ->. eauto. }
  rewrite decide_True by (rewrite Hp; left).
  destruct (rirq_ok p r e Hok Hs) as (p' & -> & Hok'); [by apply Hv; left|].
  apply StronglySorted_inv in Hs as [Hr _]. apply IH; [done| |done|].
  - intros x Hx. apply Hv. by right.
  - apply (Permutation_cons_inv (a := eventfd e)). rewrite <- Hp. symmetry.
    apply remove_one_perm. rewrite Hp. left.
Qed.

Lemma control_release_spec (c : control P) :
  irq_inv c ->
  exists p, tlkm_control_release miscdev_close c = Some (0, mk_control [] p []) /\ irq_ok p [] /\
    irq_inv (mk_control [] p []).
Proof.
  intros [Hs Hv Ha Hf Hc]. unfold tlkm_control_release.
  destruct (release_loop_spec _ _ _ Hs Hv Hc Hf) as (p & -> & Hok).
  assert (irq_ok (match miscdev_close with Some f => f p | None => p end) []) as Hok'.
  { destruct miscdev_close as [f|] eqn:E; [by eapply close_ok|done]. }
  eexists. split; [done|]. split; [done|]. split; simpl; [constructor| |constructor|done|done].
  by intros e He%elem_of_nil.
Qed.
End Interface.

(** ** The table of controllers *)

Definition in_controller (d : Z) (i : Z) (m : irq_mapping) : bool :=
  (d <=? irq_no m) && (controller_of d (irq_no m) =? i).

(** The entry a controller starts at: its first in the list. *)
Definition first_of (d : Z) (l : list irq_mapping) (i : Z) : option (Z * Z) :=
  pointer <$> head (base.filter (fun m => in_controller d i m = true) l).

Definition table_ok (d : Z) (z : intc_bases) (l : list irq_mapping) : Prop :=
  z = map (first_of d l) [0; 1; 2; 3].

Lemma controller_of_pos (d no : Z) : d <= no -> controller_of d no = (no - d) / 32.
Proof. intros. unfold controller_of, IRQS_PER_CONTROLLER. apply Z.quot_div_nonneg; lia. Qed.

(** The controllers of a valid number. *)
Lemma table_lookup (d no : Z) (z : intc_bases) (l : list irq_mapping) :
  table_ok d z l -> d <= no < d + 128 ->
  controller_at z (controller_of d no)
  = Some (Z.to_nat (controller_of d no), first_of d l (controller_of d no)).
Proof.
  intros -> Hno. rewrite controller_of_pos by lia. unfold controller_at.
  assert (0 <= (no - d) / 32 < 4) as Hi by dlia.
  assert ((no - d) / 32 = 0 \/ (no - d) / 32 = 1 \/ (no - d) / 32 = 2 \/ (no - d) / 32 = 3)
    as [->|[->|[->| ->]]] by lia; done.
Qed.

Lemma table_update (d no : Z) (z : intc_bases) (l l' : list irq_mapping) (o : option (Z * Z)) :
  table_ok d z l -> d <= no < d + 128 -> first_of d l' (controller_of d no) = o ->
  (forall i, i <> controller_of d no -> first_of d l' i = first_of d l i) ->
  table_ok d (<[Z.to_nat (controller_of d no) := o]> z) l'.
Proof.
  intros -> Hno <- Hoth. rewrite controller_of_pos in * by lia.
  assert (0 <= (no - d) / 32 < 4) as Hi by dlia. unfold table_ok.
  assert ((no - d) / 32 = 0 \/ (no - d) / 32 = 1 \/ (no - d) / 32 = 2 \/ (no - d) / 32 = 3)
    as [E|[E|[E|E]]] by lia; rewrite E in *; simpl;
    by rewrite ?(Hoth 0), ?(Hoth 1), ?(Hoth 2), ?(Hoth 3) by lia.
Qed.

Lemma table_frame (d : Z) (z : intc_bases) (l l' : list irq_mapping) :
  table_ok d z l -> (forall i, first_of d l' i = first_of d l i) -> table_ok d z l'.
Proof. intros -> H. unfold table_ok. simpl. by rewrite !H. Qed.

(** A new entry is the first of its controller when its number is the smallest. *)
Lemma first_of_insert (d : Z) (m : irq_mapping) (l : list irq_mapping) (i : Z) :
  StronglySorted before l ->
  first_of d (insert_mapping m l) i
  = if in_controller d i m then
      match first_of d l i with
      | Some (a, no) => if no >? irq_no m then Some (pointer m) else Some (a, no)
      | None => Some (pointer m)
      end
    else first_of d l i.
Proof.
  unfold first_of. induction l as [|e r IH]; intros Hs; simpl.
  { rewrite filter_cons, filter_nil. by destruct (in_controller d i m). }
  apply StronglySorted_inv in Hs as [Hr He]. specialize (IH Hr). rewrite Forall_forall in He.
  rewrite (Z.gtb_ltb (irq_no e)).
  destruct (Z.ltb_spec (irq_no m) (irq_no e)) as [Hlt|Hge].
  - rewrite (filter_cons _ m). destruct (in_controller d i m) eqn:Em; simpl; [|done].
    destruct (base.filter _ (e :: r)) as [|x f] eqn:Ef; simpl; [done|].
    assert (x ∈ e :: r) as Hx.
    { assert (x ∈ base.filter (fun m => in_controller d i m = true) (e :: r)) as Hf
        by (rewrite Ef; left). by apply list_elem_of_filter in Hf as [_ Hf]. }
    rewrite Z.gtb_ltb. apply elem_of_cons in Hx as [->|Hx].
    + by rewrite (proj2 (Z.ltb_lt _ _) Hlt).
    + specialize (He x Hx). unfold before in He. by rewrite (proj2 (Z.ltb_lt _ _)) by lia.
  - rewrite !(filter_cons _ e). destruct (in_controller d i e) eqn:Ee; simpl; [|done].
    rewrite Z.gtb_ltb, (proj2 (Z.ltb_ge _ _)) by lia. by destruct (in_controller d i m).
Qed.

Lemma in_own_controller (d : Z) (m : irq_mapping) (i : Z) :
  d <= irq_no m -> in_controller d i m = bool_decide (i = controller_of d (irq_no m)).
Proof.
  intros Hd. unfold in_controller. rewrite (proj2 (Z.leb_le _ _) Hd). simpl.
  case_bool_decide; [by apply Z.eqb_eq|by apply Z.eqb_neq].
Qed.

Lemma controller_request_ok (d : Z) (z : intc_bases) (l : list irq_mapping) (a no fd : Z) :
  table_ok d z l -> StronglySorted before l -> d <= no < d + 128 ->
  exists z', controller_request d z (mk_mapping a no 0) = Some z' /\
    table_ok d z' (insert_mapping (mk_mapping a no fd) l).
Proof.
  intros Hz Hs Hno. unfold controller_request. simpl. rewrite (table_lookup d no z l Hz Hno).
  assert (forall i, in_controller d i (mk_mapping a no fd) = bool_decide (i = controller_of d no))
    as Hin by (intros; by apply in_own_controller; simpl; lia).
  assert (forall i, i <> controller_of d no ->
    first_of d (insert_mapping (mk_mapping a no fd) l) i = first_of d l i) as Hoth.
  { intros i Hi. rewrite first_of_insert by done. by rewrite Hin, bool_decide_eq_false_2. }
  destruct (first_of d l (controller_of d no)) as [[a' no']|] eqn:Ef; simpl.
  - destruct (no' >? no) eqn:Egt; eexists; split; try done.
    + apply (table_update d no z l); [done|done| |done]. rewrite first_of_insert by done.
      rewrite Hin, bool_decide_eq_true_2, Ef by done. simpl. by rewrite Egt.
    + apply (table_frame d z l); [done|]. intros i. rewrite first_of_insert by done. rewrite Hin.
      case_bool_decide; [|done]. subst i. rewrite Ef. simpl. by rewrite Egt.
  - eexists. split; [done|]. apply (table_update d no z l); [done|done| |done].
    rewrite first_of_insert by done. by rewrite Hin, bool_decide_eq_true_2, Ef by done.
Qed.

Lemma first_of_cons (d : Z) (m : irq_mapping) (l : list irq_mapping) (i : Z) :
  first_of d (m :: l) i = if in_controller d i m then Some (pointer m) else first_of d l i.
Proof. unfold first_of. rewrite filter_cons. by destruct (in_controller d i m). Qed.

(** In a sorted list the controllers come one after the other. *)
Lemma first_of_later (d : Z) (m : irq_mapping) (l : list irq_mapping) (i : Z) :
  StronglySorted before (m :: l) -> d <= irq_no m -> i < controller_of d (irq_no m) ->
  first_of d (m :: l) i = None.
Proof.
  intros Hs Hd Hi. rewrite controller_of_pos in Hi by done.
  apply StronglySorted_inv in Hs as [_ He]. rewrite Forall_forall in He.
  unfold first_of. destruct (base.filter _ (m :: l)) as [|x f] eqn:Ef; [done|exfalso].
  assert (x ∈ base.filter (fun m => in_controller d i m = true) (m :: l)) as Hx
    by (rewrite Ef; left).
  apply list_elem_of_filter in Hx as [Hin Hx].
  assert (irq_no m <= irq_no x) as Hle.
  { apply elem_of_cons in Hx as [->|Hx]; [done|]. specialize (He x Hx). unfold before in He. lia. }
  rewrite in_own_controller, controller_of_pos in Hin by lia. apply bool_decide_eq_true in Hin. dlia.
Qed.

Lemma controller_release_ok (d : Z) (z : intc_bases) (l : list irq_mapping) (m : irq_mapping) :
  table_ok d z (m :: l) -> StronglySorted before (m :: l) -> d <= irq_no m < d + 128 ->
  let m0 := mk_mapping (addr m) (irq_no m) 0 in
  exists z', controller_release d z (m0 :: l) m0 = Some z' /\ table_ok d z' l.
Proof.
  intros Hz Hs Hno m0. unfold controller_release. simpl.
  rewrite (table_lookup d (irq_no m) z (m :: l) Hz Hno), first_of_cons, in_own_controller by lia.
  rewrite bool_decide_eq_true_2 by done. simpl. rewrite !Z.eqb_refl.
  assert (forall i, i <> controller_of d (irq_no m) -> first_of d l i = first_of d (m :: l) i) as Hoth.
  { intros i Hi. rewrite first_of_cons, in_own_controller by lia. by rewrite bool_decide_eq_false_2. }
  assert (forall o, first_of d l (controller_of d (irq_no m)) = o ->
    table_ok d (<[Z.to_nat (controller_of d (irq_no m)) := o]> z) l) as Hup
    by (intros o Ho; by apply (table_update d _ z (m :: l))).
  destruct l as [|n r]; [eexists; by split; [|apply Hup]|].
  apply StronglySorted_inv in Hs as [Hs He]. rewrite Forall_cons in He. destruct He as [Hn _].
  unfold before in Hn.
  destruct (Z.eqb_spec (controller_of d (irq_no n)) (controller_of d (irq_no m))) as [E|E];
    (eexists; split; [done|]); apply Hup.
  - rewrite first_of_cons, in_own_controller by lia. by rewrite bool_decide_eq_true_2.
  - apply first_of_later; [done|lia|]. rewrite !controller_of_pos in * by lia. dlia.
Qed.

(** ** The three classes keep the promise *)
#[export] Instance zynq_irq_class : IrqClass intc_bases.
Proof.
  refine {| irq_ok := table_ok 0; valid := fun no => 0 <= no < 128; may_refuse := true |}.
  - intros irq_res z l a no fd Hz Hs Hno _ _. simpl. unfold zynq_irq_request_platform_irq.
    destruct (controller_request_ok 0 z l a no fd Hz Hs Hno) as (z' & -> & Hz'). by exists 0, z'.
  - intros z l m Hz Hs Hno. by apply (controller_release_ok 0 z l m).
Defined.

Definition vectors_ok (p : pcie_irqs) (l : list irq_mapping) : Prop :=
  Permutation (requested p) (map (vector (qdma_in_use p)) l).

Lemma pcie_request_ok (irq_res : Z) (p : pcie_irqs) (l : list irq_mapping) (a no fd : Z) :
  vectors_ok p l ->
  let (result, p') := pcie_irqs_request_platform_irq irq_res p (mk_mapping a no 0) in
  result = irq_res /\
  vectors_ok p' (if nonzero result then l else mk_mapping a no fd :: l).
Proof.
  intros Hp. unfold pcie_irqs_request_platform_irq. destruct (nonzero irq_res) eqn:E.
  - by rewrite E.
  - rewrite E. split; [done|]. unfold vectors_ok in *. simpl. by rewrite Hp.
Qed.

Lemma pcie_release_ok (p : pcie_irqs) (l : list irq_mapping) (m : irq_mapping) :
  vectors_ok p (m :: l) ->
  exists p', pcie_irqs_release_platform_irq p (mk_mapping (addr m) (irq_no m) 0) = Some p' /\
    vectors_ok p' l.
Proof.
  intros Hp. unfold pcie_irqs_release_platform_irq.
  change (vector (qdma_in_use p) (mk_mapping (addr m) (irq_no m) 0)) with (vector (qdma_in_use p) m).
  assert (vector (qdma_in_use p) m ∈ requested p) as Hin by (rewrite Hp; left).
  rewrite decide_True by done. eexists. split; [done|]. unfold vectors_ok in *. simpl.
  apply (Permutation_cons_inv (a := vector (qdma_in_use p) m)).
  rewrite <- remove_one_perm by done. done.
Qed.

#[export] Instance pcie_irq_class : IrqClass pcie_irqs.
Proof.
  refine {| irq_ok := vectors_ok; valid := fun _ => True; may_refuse := true |}.
  - intros irq_res p l a no fd Hp _ _ _ _. simpl.
    pose proof (pcie_request_ok irq_res p l a no fd Hp) as H.
    destruct (pcie_irqs_request_platform_irq _ _ _) as [result p']. destruct H as [-> H].
    exists irq_res, p'. split; [done|]. unfold vectors_ok in *. rewrite H.
    destruct (nonzero irq_res); [done|]. by rewrite insert_mapping_perm.
  - intros p l m Hp _ _. by apply pcie_release_ok.
Defined.

Definition is_direct (m : irq_mapping) : Prop := irq_no m < NUM_DIRECT_IRQS.
#[export] Instance is_direct_dec (m : irq_mapping) : Decision (is_direct m).
Proof. unfold is_direct. apply _. Defined.

Lemma direct_no_controller (m : irq_mapping) (i : Z) :
  is_direct m -> in_controller NUM_DIRECT_IRQS i m = false.
Proof.
  unfold is_direct, in_controller. intros H. by rewrite (proj2 (Z.leb_gt _ _)).
Qed.

Definition aws_ok (p : aws_irqs) (l : list irq_mapping) : Prop :=
  vectors_ok (direct p) (base.filter is_direct l) /\ table_ok NUM_DIRECT_IRQS (bases p) l.

Lemma aws_request_ok (p : aws_irqs) (l : list irq_mapping) (a no fd : Z) :
  aws_ok p l -> StronglySorted before l -> 0 <= no < 132 ->
  exists p', pcie_aws_irqs_request_platform_irq 0 p (mk_mapping a no 0) = Some (0, p') /\
    aws_ok p' (insert_mapping (mk_mapping a no fd) l).
Proof.
  intros [Hd Hz] Hs Hno. unfold pcie_aws_irqs_request_platform_irq, aws_ok. cbn [irq_no].
  assert (forall p, vectors_ok p (base.filter is_direct (mk_mapping a no fd :: l)) ->
    vectors_ok p (base.filter is_direct (insert_mapping (mk_mapping a no fd) l))) as Hf.
  { intros q Hq. unfold vectors_ok in *. by rewrite insert_mapping_perm. }
  destruct (Z.ltb_spec no NUM_DIRECT_IRQS) as [Hlt|Hge].
  - pose proof (pcie_request_ok 0 (direct p) _ a no fd Hd) as H.
    destruct (pcie_irqs_request_platform_irq _ _ _) as [result d] eqn:E. destruct H as [-> H].
    eexists. split; [done|]. simpl. split.
    + apply Hf. rewrite filter_cons, decide_True by done. exact H.
    + apply (table_frame _ _ l); [done|]. intros i. rewrite first_of_insert by done.
      by rewrite direct_no_controller.
  - destruct (controller_request_ok NUM_DIRECT_IRQS (bases p) l a no fd Hz Hs) as (z & -> & Hz');
      [unfold NUM_DIRECT_IRQS in *; lia|].
    eexists. split; [done|]. simpl. split; [|done]. apply Hf.
    rewrite filter_cons, decide_False; [done|]. unfold is_direct. simpl. lia.
Qed.

Lemma aws_release_ok (p : aws_irqs) (l : list irq_mapping) (m : irq_mapping) :
  aws_ok p (m :: l) -> StronglySorted before (m :: l) -> 0 <= irq_no m < 132 ->
  let m0 := mk_mapping (addr m) (irq_no m) 0 in
  exists p', pcie_aws_irqs_release_platform_irq p (m0 :: l) m0 = Some p' /\ aws_ok p' l.
Proof.
  intros [Hd Hz] Hs Hno m0. unfold m0, pcie_aws_irqs_release_platform_irq, aws_ok. cbn [irq_no].
  rewrite filter_cons in Hd. destruct (Z.ltb_spec (irq_no m) NUM_DIRECT_IRQS) as [Hlt|Hge].
  - rewrite decide_True in Hd by done.
    destruct (pcie_release_ok (direct p) _ m Hd) as (d & -> & Hd').
    eexists. split; [done|]. split; [done|]. apply (table_frame _ _ (m :: l)); [done|].
    intros i. by rewrite first_of_cons, direct_no_controller.
  - rewrite decide_False in Hd by (unfold is_direct; lia).
    destruct (controller_release_ok NUM_DIRECT_IRQS (bases p) l m Hz Hs) as (z & E & Hz');
      [unfold NUM_DIRECT_IRQS in *; lia|].
    rewrite E. eexists. by split.
Qed.

#[export] Instance aws_irq_class : IrqClass aws_irqs.
Proof.
  refine {| irq_ok := aws_ok; valid := fun no => 0 <= no < 132; may_refuse := false |}.
  - intros irq_res p l a no fd Hp Hs Hno [-> | ?] _; [|done]. simpl.
    destruct (aws_request_ok p l a no fd Hp Hs Hno) as (p' & -> & Hp'). by exists 0, p'.
  - intros p l m Hp Hs Hno. by apply aws_release_ok.
Defined.

(** ** Handlers: one pass over the list serves all pending lines *)

Lemma ffs_from_spec (n : nat) (i w j : Z) :
  i <= j < i + Z.of_nat n -> Z.testbit w j = true ->
  exists b, ffs_from i n w = b + 1 /\ i <= b < i + Z.of_nat n /\ Z.testbit w b = true /\
    forall k, i <= k < b -> Z.testbit w k = false.
Proof.
  revert i. induction n as [|n IH]; intros i Hj Hw; [lia|]. simpl.
  destruct (Z.testbit w i) eqn:E; [exists i; split_and!; try done; lia|].
  assert (i <> j) by congruence.
  destruct (IH (i + 1)) as (b & -> & Hb & Hbit & Hlow); [lia|done|].
  exists b. split_and!; [done|lia|lia|done|]. intros k Hk.
  destruct (decide (k = i)) as [->|]; [done|]. apply Hlow. lia.
Qed.

Lemma ffs_spec (w : Z) :
  0 < w < 2 ^ 32 ->
  exists b, ffs w = b + 1 /\ 0 <= b < 32 /\ Z.testbit w b = true /\
    forall k, 0 <= k < b -> Z.testbit w k = false.
Proof.
  intros Hw. apply (ffs_from_spec 32 0 w (Z.log2 w)).
  - split; [apply Z.log2_nonneg|]. simpl. apply Z.log2_lt_pow2; lia.
  - apply Z.bit_log2. lia.
Qed.

(** A line that is pending and registered. *)
Definition pending (s_off status : Z) (m : irq_mapping) : bool :=
  (s_off <=? irq_no m) && Z.testbit status (irq_no m - s_off).

Definition hits (s_off status : Z) (l : list irq_mapping) : list event :=
  map (fun m => signal (eventfd m)) (base.filter (fun m => pending s_off status m = true) l).

Lemma hits_cons (s_off status : Z) (m : irq_mapping) (l : list irq_mapping) :
  hits s_off status (m :: l)
  = (if pending s_off status m then [signal (eventfd m)] else []) ++ hits s_off status l.
Proof. unfold hits. rewrite filter_cons. by destruct (pending s_off status m). Qed.

Lemma hits_app (s_off status : Z) (l k : list irq_mapping) :
  hits s_off status (l ++ k) = hits s_off status l ++ hits s_off status k.
Proof. unfold hits. by rewrite filter_app, map_app. Qed.

Lemma hits_none (s_off status : Z) (l : list irq_mapping) :
  (forall m, m ∈ l -> pending s_off status m = false) -> hits s_off status l = [].
Proof.
  induction l as [|m r IH]; intros H; [done|]. rewrite hits_cons, (H m) by left.
  apply IH. intros x Hx. apply H. by right.
Qed.

Lemma hits_clear (s_off status b : Z) (l : list irq_mapping) :
  0 <= b -> (forall m, m ∈ l -> irq_no m <> s_off + b) ->
  hits s_off (Z.lxor status (2 ^ b)) l = hits s_off status l.
Proof.
  intros Hb. induction l as [|m r IH]; intros H; [done|].
  rewrite !hits_cons, IH by (intros x Hx; apply H; by right). f_equal.
  assert (irq_no m <> s_off + b) by (apply H; left). unfold pending.
  rewrite Z.lxor_spec, Z.pow2_bits_false by lia. by rewrite xorb_false_r.
Qed.

(** m_start moves over entries with smaller numbers, and not past the last. *)
Lemma skip_spec (slot : Z) (cur : list irq_mapping) :
  cur <> [] -> (forall m, m ∈ cur -> 0 <= irq_no m < 2 ^ 32) ->
  exists pre m r, skip slot cur = m :: r /\ cur = pre ++ m :: r /\
    (forall x, x ∈ pre -> irq_no x < slot) /\ (slot <= irq_no m \/ r = []).
Proof.
  induction cur as [|m r IH]; intros Hne Hr; [done|]. destruct r as [|m' r].
  - exists [], m, []. split_and!; try done; [|by right]. by intros x Hx%elem_of_nil.
  - change (skip slot (m :: m' :: r))
      with (if u32 (irq_no m) <? slot then skip slot (m' :: r) else m :: m' :: r).
    rewrite u32_small by (apply Hr; left).
    destruct (Z.ltb_spec (irq_no m) slot) as [Hlt|Hge].
    + destruct IH as (pre & k & t & -> & -> & Hpre & Hk); [done|intros x Hx; apply Hr; by right|].
      exists (m :: pre), k, t. split_and!; try done.
      intros x [->|Hx]%elem_of_cons; [done|by apply Hpre].
    + exists [], m, (m' :: r). split_and!; try done; [|by left]. by intros x Hx%elem_of_nil.
Qed.

(** One bit of the status word. *)
Lemma serve_one (s_off status b : Z) (cur : list irq_mapping) :
  cur <> [] -> StronglySorted before cur -> (forall m, m ∈ cur -> 0 <= irq_no m < 2 ^ 31) ->
  0 <= s_off < 2 ^ 31 -> 0 <= b < 32 -> Z.testbit status b = true ->
  (forall k, 0 <= k < b -> Z.testbit status k = false) ->
  exists m r, skip (u32 (b + s_off)) cur = m :: r /\ StronglySorted before (m :: r) /\
    (forall x, x ∈ m :: r -> x ∈ cur) /\
    hits s_off status cur
    = (if u32 (irq_no m) =? u32 (b + s_off) then [signal (eventfd m)] else [])
      ++ hits s_off (Z.lxor status (2 ^ b)) (m :: r).
Proof.
  intros Hne Hs Hr Hoff Hb Hbit Hlow. rewrite (u32_small (b + s_off)) by lia.
  destruct (skip_spec (b + s_off) cur Hne) as (pre & m & r & Hskip & Hcur & Hpre & Hm);
    [intros x Hx; specialize (Hr x Hx); lia|].
  exists m, r. rewrite Hskip. subst cur. split; [done|].
  assert (StronglySorted before (m :: r)) as Hs2 by by eapply StronglySorted_app_1_r.
  split; [done|]. split; [intros x Hx; rewrite elem_of_app; by right|].
  rewrite hits_app, hits_none; simpl.
  2:{ intros x Hx. specialize (Hpre x Hx). unfold pending.
      destruct (Z.leb_spec s_off (irq_no x)); [|done]. simpl. apply Hlow. lia. }
  assert (0 <= irq_no m < 2 ^ 31) as Hrm by (apply Hr; rewrite elem_of_app; right; left).
  apply StronglySorted_inv in Hs2 as [_ Hall]. rewrite Forall_forall in Hall. unfold before in Hall.
  rewrite u32_small by lia. destruct (Z.eqb_spec (irq_no m) (b + s_off)) as [Heq|Hneq].
  - rewrite !hits_cons. rewrite (hits_clear s_off status b r); [|lia|].
    2:{ intros x Hx. specialize (Hall x Hx). lia. }
    unfold pending. rewrite Heq. replace (b + s_off - s_off) with b by lia.
    rewrite Z.lxor_spec, Z.pow2_bits_true, Hbit by lia. rewrite (proj2 (Z.leb_le _ _)) by lia. done.
  - symmetry. apply hits_clear; [lia|]. intros x [->|Hx]%elem_of_cons; [lia|].
    specialize (Hall x Hx). destruct Hm as [?| ->]; [lia|]. by apply elem_of_nil in Hx.
Qed.

Lemma lxor_bit_range (status b : Z) :
  0 < status < 2 ^ 32 -> 0 <= b < 32 -> 0 <= Z.lxor status (2 ^ b) < 2 ^ 32.
Proof.
  intros Hs Hb. assert (0 <= Z.lxor status (2 ^ b)) as H0 by (apply Z.lxor_nonneg; lia).
  split; [done|]. destruct (decide (Z.lxor status (2 ^ b) = 0)) as [->|Hne]; [lia|].
  apply Z.log2_lt_pow2; [lia|]. eapply Z.le_lt_trans; [apply Z.log2_lxor; lia|].
  apply Z.max_lub_lt; [apply Z.log2_lt_pow2; lia|]. rewrite Z.log2_pow2; lia.
Qed.

(** The 32 rounds the model allows are enough, whatever the status word. *)
Lemma serve_spec (bit : Z -> Z) (s_off : Z) (n : nat) (status : Z) (cur : list irq_mapping) :
  (forall b, 0 <= b < 32 -> bit b = 2 ^ b) ->
  cur <> [] -> StronglySorted before cur -> (forall m, m ∈ cur -> 0 <= irq_no m < 2 ^ 31) ->
  0 <= s_off < 2 ^ 31 -> 0 < status < 2 ^ 32 ->
  (forall k, 0 <= k < 32 - Z.of_nat n -> Z.testbit status k = false) ->
  exists cur', serve bit s_off n status cur = Some (hits s_off status cur, cur').
Proof.
  intros Hbit. revert status cur.
  induction n as [|n IH]; intros status cur Hne Hs Hr Hoff Hst Hlow.
  { destruct (ffs_spec status Hst) as (b & _ & Hb & Hb1 & _).
    rewrite Hlow in Hb1 by lia. done. }
  destruct (ffs_spec status Hst) as (b & Hffs & Hb & Hb1 & Hb2).
  destruct (serve_one s_off status b cur Hne Hs Hr Hoff Hb Hb1 Hb2) as (m & r & Hsk & Hs' & Hin & Hh).
  cbn [serve]. rewrite Hffs. replace (b + 1 - 1) with b by lia. rewrite Hsk, Hh, Hbit by done.
  pose proof (lxor_bit_range status b Hst Hb) as Hx. unfold nonzero.
  destruct (Z.eqb_spec (Z.lxor status (2 ^ b)) 0) as [Hz|Hnz]; simpl.
  { rewrite Hz. rewrite (hits_none s_off 0), app_nil_r; [by eexists|].
    intros x _. unfold pending. rewrite Z.bits_0. apply andb_false_r. }
  destruct (IH (Z.lxor status (2 ^ b)) (m :: r)) as (c & ->); try done.
  - intros x Hx'. by apply Hr, Hin.
  - lia.
  - intros k Hk. rewrite Z.lxor_spec. destruct (decide (k = b)) as [->|Hkb].
    + by rewrite Hb1, Z.pow2_bits_true by lia.
    + rewrite Z.pow2_bits_false, xorb_false_r by lia.
      destruct (decide (k < b)); [apply Hb2; lia|]. destruct (decide (k < 32 - Z.of_nat (S n))).
      * apply Hlow. lia.
      * exfalso. assert (32 - Z.of_nat (S n) <= b); [|lia].
        destruct (decide (b < 32 - Z.of_nat (S n))); [|lia]. rewrite Hlow in Hb1 by lia. done.
  - by eexists.
Qed.

(** The list from the first entry of a controller on: what lies before it belongs
    to other controllers. *)
Lemma from_first (d i : Z) (l : list irq_mapping) (a no : Z) :
  StronglySorted before l -> NoDup (map addr l) -> (forall m, m ∈ l -> 0 <= irq_no m < d + 128) ->
  0 <= d -> 0 <= i -> first_of d l i = Some (a, no) ->
  exists pre, l = pre ++ from a l /\ from a l <> [] /\
    forall x, x ∈ pre -> irq_no x < d + 32 * i.
Proof.
  intros Hs Hnd Hr Hd Hi. induction l as [|m r IH]; [done|].
  rewrite first_of_cons. apply StronglySorted_inv in Hs as [Hs Hall].
  apply NoDup_cons in Hnd as [Hm Hnd]. destruct (in_controller d i m) eqn:Em.
  { intros [= <- <-]. simpl. rewrite Z.eqb_refl. exists []. split_and!; try done.
    by intros x Hx%elem_of_nil. }
  intros Hf. destruct (IH Hs Hnd) as (pre & Hl & Hne & Hpre); [|done|].
  { intros x Hx. apply Hr. by right. }
  assert (exists f, f ∈ r /\ addr f = a /\ in_controller d i f = true) as (f & Hfr & Hfa & Hfi).
  { unfold first_of in Hf. destruct (base.filter _ r) as [|f fs] eqn:Ef; [done|].
    unfold pointer in Hf. simplify_eq/=. exists f. assert (f ∈ base.filter (fun m => in_controller d i m = true) r) as H
      by (rewrite Ef; left). apply list_elem_of_filter in H as [? ?]. done. }
  simpl. destruct (Z.eqb_spec (addr m) a) as [Heq|Hneq].
  { exfalso. apply Hm. rewrite Heq, <- Hfa. apply list_elem_of_fmap_2, Hfr. }
  exists (m :: pre). split_and!; [by rewrite Hl at 1|done|].
  intros x [->|Hx]%elem_of_cons; [|by apply Hpre].
  rewrite Forall_forall in Hall. specialize (Hall f Hfr). unfold before in Hall.
  unfold in_controller in *. apply andb_true_iff in Hfi as [Hfd Hfc].
  apply Z.leb_le in Hfd. apply Z.eqb_eq in Hfc. rewrite controller_of_pos in Hfc by done.
  destruct (Z.leb_spec d (irq_no m)); simpl in Em; [|dlia].
  apply Z.eqb_neq in Em. rewrite controller_of_pos in Em by done. dlia.
Qed.

(** No entry of a controller without a start is pending. *)
Lemma first_none (d i status : Z) (l : list irq_mapping) :
  first_of d l i = None -> 0 <= i -> 0 <= status < 2 ^ 32 -> hits (d + 32 * i) status l = [].
Proof.
  intros Hf Hi Hst. apply hits_none. intros m Hm. destruct (pending _ _ _) eqn:E; [|done]. exfalso.
  assert (in_controller d i m = true) as Hin.
  { unfold pending in E. apply andb_true_iff in E as [E1 E2]. apply Z.leb_le in E1.
    assert (irq_no m - (d + 32 * i) < 32).
    { destruct (decide (irq_no m - (d + 32 * i) < 32)); [done|].
      destruct (decide (status = 0)) as [->|]; [by rewrite Z.bits_0 in E2|].
      rewrite Z.bits_above_log2 in E2; [done|lia|]. assert (Z.log2 status < 32); [|lia].
      apply Z.log2_lt_pow2; lia. }
    unfold in_controller. rewrite (proj2 (Z.leb_le _ _)) by lia.
    rewrite controller_of_pos by lia. apply Z.eqb_eq. dlia. }
  unfold first_of in Hf. destruct (base.filter _ l) as [|x f] eqn:Ef; [|done].
  by apply (filter_nil_not_elem_of _ _ m Ef Hin).
Qed.

Definition signals (out : list event) : list Z :=
  omap (fun e => match e with signal fd => Some fd | acknowledge _ => None end) out.

(** The eventfds of the registered lines of a controller that are pending. *)
Definition eventfds_of (s_off status : Z) (l : list irq_mapping) : list Z :=
  map eventfd (base.filter (fun m => pending s_off status m = true) l).

Lemma signals_hits (s_off status : Z) (l : list irq_mapping) :
  signals (hits s_off status l)
  = eventfds_of s_off status l.
Proof. unfold hits, eventfds_of. induction (base.filter _ l) as [|m r IH]; simpl; [done|]. by rewrite IH. Qed.

(** One status word, served by a handler that starts at the first entry of its
    controller. *)
Lemma rounds_spec (bit : Z -> Z) (ack : bool) (d i status : Z) (l : list irq_mapping) (a no : Z) :
  (forall b, 0 <= b < 32 -> bit b = 2 ^ b) ->
  StronglySorted before l -> NoDup (map addr l) -> (forall m, m ∈ l -> 0 <= irq_no m < d + 128) ->
  0 <= d <= 4 -> 0 <= i < 4 -> 0 < status < 2 ^ 32 -> first_of d l i = Some (a, no) ->
  exists out, rounds bit ack (d + 32 * i) [status; 0] (from a l) = Some out /\
    signals out = eventfds_of (d + 32 * i) status l.
Proof.
  intros Hbit Hs Hnd Hr Hd Hi Hst Hf.
  destruct (from_first d i l a no) as (pre & Hl & Hne & Hpre); try done; [lia|lia|].
  assert (forall x, x ∈ from a l -> x ∈ l) as Hsub by (intros x Hx; rewrite Hl, elem_of_app; by right).
  destruct (serve_spec bit (d + 32 * i) 32 status (from a l)) as (c & Hserve); try done.
  { rewrite Hl in Hs. by eapply StronglySorted_app_1_r. }
  { intros x Hx%Hsub. specialize (Hr x Hx). lia. }
  { lia. }
  { intros k Hk. lia. }
  cbn [rounds]. rewrite (proj2 (Z.eqb_neq _ _)) by lia. rewrite Hserve. simpl. eexists. split; [done|].
  rewrite <- signals_hits.
  assert (hits (d + 32 * i) status l = hits (d + 32 * i) status (from a l)) as ->.
  { rewrite Hl at 1. rewrite hits_app, hits_none; [done|]. intros x Hx. unfold pending.
    rewrite (proj2 (Z.leb_gt _ _)); [done|]. by apply Hpre. }
  by destruct ack; simpl; rewrite app_nil_r.
Qed.

(** The hypotheses on 1U << n: C defines it below 32; the second controller on, the
    code relies on shifts that take the count modulo 32. *)
Definition shift_ok (shl : Z -> Z) (i : Z) : Prop :=
  (forall n, 0 <= n < 32 -> shl n = 2 ^ n) /\ (i = 0 \/ forall n, shl n = 2 ^ (n mod 32)).

Lemma shift_bit (shl : Z -> Z) (i b : Z) :
  shift_ok shl i -> 0 <= i < 4 -> 0 <= b < 32 -> shl (u32 (b + 32 * i)) = 2 ^ b.
Proof.
  intros [Hc Hi] Hr Hb. rewrite u32_small by lia. destruct Hi as [-> | Hm].
  - rewrite <- Hc by lia. f_equal. lia.
  - rewrite Hm. f_equal. dlia.
Qed.

Lemma table_at (d : Z) (z : intc_bases) (l : list irq_mapping) (i : Z) :
  table_ok d z l -> 0 <= i < 4 -> z !! Z.to_nat i = Some (first_of d l i).
Proof.
  intros -> Hi. assert (i = 0 \/ i = 1 \/ i = 2 \/ i = 3) as [->|[->|[->| ->]]] by lia; done.
Qed.

Lemma zynq_handler_spec (shl : Z -> Z) (z : intc_bases) (l : list irq_mapping) (i status : Z) :
  table_ok 0 z l -> StronglySorted before l -> NoDup (map addr l) ->
  (forall m, m ∈ l -> 0 <= irq_no m < 128) -> 0 <= i < 4 -> 0 < status < 2 ^ 32 -> shift_ok shl i ->
  exists m out, z !! Z.to_nat i = Some m /\
    zynq_irq_handler shl (32 * i) m l [status; 0] = Some out /\
    signals out = eventfds_of (32 * i) status l.
Proof.
  intros Hz Hs Hnd Hr Hi Hst Hshl. exists (first_of 0 l i). rewrite (table_at 0 z l i) by done.
  unfold zynq_irq_handler. destruct (first_of 0 l i) as [[a no]|] eqn:Ef.
  - destruct (rounds_spec (fun line => shl (u32 (line + 32 * i))) true 0 i status l a no)
      as (out & Hout & Hsig); try done; [by intros b Hb; apply shift_bit|]. by exists out.
  - exists []. split; [done|]. split; [done|]. rewrite <- signals_hits.
    by rewrite (first_none 0 i) by (done || lia).
Qed.

Lemma aws_handler_spec (z : intc_bases) (l : list irq_mapping) (i status : Z) :
  table_ok 4 z l -> StronglySorted before l -> NoDup (map addr l) ->
  (forall m, m ∈ l -> 0 <= irq_no m < 132) -> 0 <= i < 4 -> 0 < status < 2 ^ 32 ->
  exists m out, z !! Z.to_nat i = Some m /\
    aws_irq_handler (4 + 32 * i) m l [status; 0] = Some out /\
    signals out = eventfds_of (4 + 32 * i) status l.
Proof.
  intros Hz Hs Hnd Hr Hi Hst. exists (first_of 4 l i). rewrite (table_at 4 z l i) by done.
  unfold aws_irq_handler. destruct (first_of 4 l i) as [[a no]|] eqn:Ef.
  - destruct (rounds_spec (fun line => 2 ^ line) false 4 i status l a no)
      as (out & Hout & Hsig); try done. by exists out.
  - exists []. split; [done|]. split; [done|]. rewrite <- signals_hits.
    by rewrite (first_none 4 i) by (done || lia).
Qed.

(** ** Theorems *)

(** C12: Registering and closing, one call at a time, keep the interrupts of a device
    consistent, for every class that keeps the promise of the interface (Zynq, PCIe
    and AWS do): the list stays sorted by number with one entry per number, the driver
    holds exactly the eventfds of the list, and the data of the class agrees with it.
    This is under conditions that the code does not check: the number is one the class
    has (below 128 for Zynq, below 132 for AWS), kzalloc succeeds, the file descriptor
    is an eventfd, and on AWS request_irq is not refused for one of the four direct
    interrupts (see [registration_unchecked] for what happens without them).  A registration
    then ends; it returns 0 exactly with the entry inserted where the order puts it,
    which needs the number to be free, and with any other result (the argument cannot be
    read, the number is taken, PCIe refuses the vector) nothing has changed in the
    list or the references.  Closing the file drops every eventfd once and leaves the
    list and the class empty. *)
Theorem interrupt_registration {P : Type} {Ops : irq_ops P} {Cls : IrqClass P}
    (miscdev_close : option (P -> P)) (c : control P) :
  (forall f p l, miscdev_close = Some f -> irq_ok p l -> irq_ok (f p) l) ->
  irq_inv c ->
  (forall kzalloc irq_res fdget pe_id,
     valid pe_id -> kzalloc ∉ map addr (interrupts c) -> is_err fdget = false ->
     irq_res = 0 \/ may_refuse = true ->
     tlkm_device_reg_int false (Some kzalloc) irq_res fdget pe_id c = Some (- EFAULT, c) /\
     exists ret c', tlkm_device_reg_int true (Some kzalloc) irq_res fdget pe_id c = Some (ret, c') /\
       irq_inv c' /\
       (ret = 0 -> interrupts c' = insert_mapping (mk_mapping kzalloc pe_id fdget) (interrupts c) /\
                   forall e, e ∈ interrupts c -> irq_no e <> pe_id) /\
       (ret <> 0 -> interrupts c' = interrupts c /\ eventfds c' = eventfds c)) /\
  (exists p, tlkm_control_release miscdev_close c = Some (0, mk_control [] p []) /\ irq_ok p [] /\
     irq_inv (mk_control [] p [])).
Proof.
  intros Hclose Hc. split; [intros; split; [done|by apply reg_int_spec]|by apply control_release_spec].
Qed.

(** C15: The handlers deliver what is pending: with the registrations of a consistent
    device, the handler of each Zynq and AWS controller, given one status word,
    terminates and signals exactly the eventfds registered for the lines whose bits
    are set, each once and in the order of the lines, although it walks the sorted
    list only once.  For the Zynq controllers other than the first this needs shifts
    that take their count modulo 32, because the code shifts by the number of the
    interrupt instead of the number of the line. *)
Theorem interrupt_delivery (shl : Z -> Z) (i status : Z)
    (cz : control intc_bases) (ca : control aws_irqs) :
  0 <= i < 4 -> 0 < status < 2 ^ 32 -> irq_inv cz -> irq_inv ca -> shift_ok shl i ->
  (exists m out, cls_data cz !! Z.to_nat i = Some m /\
     zynq_irq_handler shl (32 * i) m (interrupts cz) [status; 0] = Some out /\
     signals out = eventfds_of (32 * i) status (interrupts cz)) /\
  (exists m out, bases (cls_data ca) !! Z.to_nat i = Some m /\
     aws_irq_handler (4 + 32 * i) m (interrupts ca) [status; 0] = Some out /\
     signals out = eventfds_of (4 + 32 * i) status (interrupts ca)).
Proof.
  intros Hi Hst [Hs1 Hv1 Ha1 _ Hc1] [Hs2 Hv2 Ha2 _ [_ Hc2]] Hshl. split.
  - by apply zynq_handler_spec.
  - by apply aws_handler_spec.
Qed.

(** ** What the handlers miss *)

(** m_start is not reset between two reads of the status register: line 0 becomes
    pending while line 5 is served, is acknowledged, and nobody is told. *)
Lemma second_read_loses_interrupt :
  let l := [mk_mapping 100 0 7; mk_mapping 200 5 8] in
  aws_irq_handler 0 (Some (100, 0)) l [32; 1; 0] = Some [signal 8] /\
  zynq_irq_handler (fun n => 2 ^ n) 0 (Some (100, 0)) l [32; 1; 0]
  = Some [acknowledge 32; signal 8; acknowledge 1].
Proof. by vm_compute. Qed.

(** Where 1U << n is 0 for n >= 32 (32-bit ARM), the bit of the second controller is
    never cleared and the handler does not end, however long it runs. *)
Lemma zynq_second_controller_hangs (shl : Z -> Z) (fuel : nat) (cur : list irq_mapping) :
  (forall n, 32 <= n -> shl n = 0) ->
  serve (fun line => shl (u32 (line + 32))) 32 fuel 1 cur = None.
Proof.
  intros Hshl. revert cur. induction fuel as [|n IH]; intros cur; cbn [serve]; [done|].
  change (ffs 1 - 1) with 0. rewrite Hshl by done. change (nonzero (Z.lxor 1 0)) with true.
  cbv iota. change (Z.lxor 1 0) with 1. by rewrite IH.
Qed.

(** ** Witnesses: a Zynq with interrupts 3 and 40, an AWS card with 2 and 36 *)
Definition demo_zynq : control intc_bases :=
  mk_control [mk_mapping 100 3 7; mk_mapping 200 40 8] [Some (100, 3); Some (200, 40); None; None] [8; 7].
Definition demo_aws : control aws_irqs :=
  mk_control [mk_mapping 100 2 7; mk_mapping 200 36 8]
    (mk_aws (mk_irqs false [(2, intr_handler_platform_, 100)]) [None; Some (200, 36); None; None]) [8; 7].

Lemma demo_zynq_inv : irq_inv demo_zynq.
Proof.
  split; simpl; [repeat constructor| | |apply Permutation_swap|done].
  - by intros e [->|[->|?%elem_of_nil]%elem_of_cons]%elem_of_cons.
  - by apply (bool_decide_unpack (NoDup [100; 200])).
Qed.

Lemma demo_aws_inv : irq_inv demo_aws.
Proof.
  split; simpl; [repeat constructor| | |apply Permutation_swap|by split; vm_compute].
  - by intros e [->|[->|?%elem_of_nil]%elem_of_cons]%elem_of_cons.
  - by apply (bool_decide_unpack (NoDup [100; 200])).
Qed.

(** Without the conditions: a failed kzalloc is written through; a file descriptor that
    is not an eventfd is registered, and closing the file drops a reference that is
    not held; an AWS vector that was refused is registered, and closing frees an
    interrupt that was not requested. *)
Example registration_unchecked :
  tlkm_device_reg_int true None 0 9 35 demo_zynq = None /\
  (exists c, tlkm_device_reg_int true (Some 300) 0 (-9) 35 demo_zynq = Some (0, c) /\
     eventfds c = eventfds demo_zynq /\ tlkm_control_release None c = None) /\
  (exists c, tlkm_device_reg_int true (Some 300) (-16) 9 3 demo_aws = Some (0, c) /\
     direct (cls_data c) = direct (cls_data demo_aws) /\ tlkm_control_release None c = None).
Proof.
  split; [by vm_compute|].
  by split; eexists; (split; [vm_compute; reflexivity|]); split; vm_compute.
Qed.

Lemma interrupt_registration_witness :
  exists ret c', tlkm_device_reg_int true (Some 300) 0 9 35 demo_zynq = Some (ret, c') /\
    irq_inv c' /\ interrupts c' = [mk_mapping 100 3 7; mk_mapping 300 35 9; mk_mapping 200 40 8].
Proof.
  destruct (interrupt_registration None demo_zynq) as [H _];
    [by intros f p l|apply demo_zynq_inv|].
  destruct (H 300 0 9 35) as (_ & ret & c' & E & Hi & _); [done| |done|by left|].
  - by apply (bool_decide_unpack (300 ∉ [100; 200])).
  - exists ret, c'. split; [done|]. split; [done|]. vm_compute in E. by simplify_eq.
Defined.

Lemma interrupt_delivery_witness :
  exists out, zynq_irq_handler (fun n => 2 ^ (n mod 32)) 32 (Some (200, 40)) (interrupts demo_zynq)
    [256; 0] = Some out /\ signals out = [8].
Proof.
  destruct (interrupt_delivery (fun n => 2 ^ (n mod 32)) 1 256 demo_zynq demo_aws)
    as [(m & out & Hm & Hh & Hs) _]; [done|done|apply demo_zynq_inv|apply demo_aws_inv| |].
  - split; [|by right]. intros n Hn. by rewrite Z.mod_small.
  - simpl in Hm. simplify_eq. exists out. by split.
Defined.

End Irq.
