(* ===== verification/PcieBuf.v ===== *)
(** * DMA and kernel buffers of a PCIe device
      (pcie/pcie_ioctl.c, pcie/pcie_device.c: buffer management)

    User space allocates up to 32 DMA buffers and any number of kernel buffers
    through ioctls; closing the device file frees what is left.  Proved, for sequences
    of calls in which the user keeps to the protocol ([polite]): the memory and the
    DMA mappings the driver holds are exactly those of the buffers in its tables,
    nothing is freed twice, and closing the file gives everything back. *)
From S2P Require Import Prelude.

Module PcieBuf.

(** ** State *)

Inductive dma_direction_t := TO_DEV | FROM_DEV.

#[export] Instance dma_direction_eq_dec : EqDecision dma_direction_t.
Proof. solve_decision. Defined.

Definition TLKM_PCIE_NUM_DMA_BUFFERS : nat := 32.

(** struct dma_buf *)
Record dma_buf := mk_buf { ptr : Z; ptr_dev : Z; size : Z; direction : dma_direction_t }.
(** After memset. *)
Definition zero_buf : dma_buf := mk_buf 0 0 0 TO_DEV.

(** struct gp_buf, with its own address *)
Record gp_buf := mk_gp { gp_addr : Z; buf : Z; dev_addr : Z; gp_size : Z; buffer_id : Z }.

(** What the kernel has given out: memory of kmalloc, of devm_kzalloc, and streaming
    DMA mappings (address, size, direction); [wrong_dir] counts the mappings that
    were undone with another direction than they were made with. *)
Record kern := mk_kern {
  kmem : list Z;
  devm : list Z;
  dmamaps : list (Z * Z * dma_direction_t);
  wrong_dir : nat
}.

(** The part of struct tlkm_pcie_device that is used here. *)
Record pdev := mk_pdev { dma_buffer : list dma_buf; gp_buffer : list gp_buf; kernel : kern }.

Definition set_slot (i : nat) (b : dma_buf) (s : pdev) : pdev :=
  mk_pdev (<[i := b]> (dma_buffer s)) (gp_buffer s) (kernel s).
Definition set_gp (l : list gp_buf) (s : pdev) : pdev := mk_pdev (dma_buffer s) l (kernel s).
Definition set_kern (k : kern) (s : pdev) : pdev := mk_pdev (dma_buffer s) (gp_buffer s) k.

(** ** The kernel functions: [None] is a double free or an unmapped address *)

Definition kfree (p : Z) (k : kern) : option kern :=
  if p =? 0 then Some k else
  if decide (p ∈ kmem k) then Some (mk_kern (remove_one p (kmem k)) (devm k) (dmamaps k) (wrong_dir k))
  else None.

Definition devm_kfree (p : Z) (k : kern) : option kern :=
  if decide (p ∈ devm k) then Some (mk_kern (kmem k) (remove_one p (devm k)) (dmamaps k) (wrong_dir k))
  else None.

Definition flip (d : dma_direction_t) : dma_direction_t :=
  match d with TO_DEV => FROM_DEV | FROM_DEV => TO_DEV end.

Definition dma_unmap_single (a sz : Z) (d : dma_direction_t) (k : kern) : option kern :=
  if decide ((a, sz, d) ∈ dmamaps k) then
    Some (mk_kern (kmem k) (devm k) (remove_one (a, sz, d) (dmamaps k)) (wrong_dir k))
  else if decide ((a, sz, flip d) ∈ dmamaps k) then
    Some (mk_kern (kmem k) (devm k) (remove_one (a, sz, flip d) (dmamaps k)) (S (wrong_dir k)))
  else None.

(** ** pcie_device.c *)

(** The answers of the kernel to an allocation: kmalloc's pointer (NULL: [None]),
    the address of dma_map_single and whether dma_mapping_error holds of it. *)
Record answers := mk_answers { kmalloc : option Z; dma_addr : Z; map_error : bool }.

(** Returns err and what is in *buffer and *dev_handle afterwards. *)
Definition pcie_device_dma_allocate_buffer (an : answers) (dev_handle : Z)
    (d : dma_direction_t) (sz : Z) (k : kern) : Z * Z * Z * kern :=
  match kmalloc an with
  | None => (- EFAULT, 0, dev_handle, k)
  | Some b =>
      let k1 := mk_kern (b :: kmem k) (devm k) (dmamaps k) (wrong_dir k) in
      if map_error an then (- EFAULT, b, dma_addr an, k1)
      else (0, b, dma_addr an,
            mk_kern (kmem k1) (devm k1) ((dma_addr an, sz, d) :: dmamaps k1) (wrong_dir k1))
  end.

(** Returns the buffer with both pointers reset. *)
Definition pcie_device_dma_free_buffer (b : dma_buf) (k : kern) : option (dma_buf * kern) :=
  k1 ← (if nonzero (ptr_dev b) then dma_unmap_single (ptr_dev b) (size b) (direction b) k else Some k);
  k2 ← kfree (ptr b) k1;
  Some (mk_buf 0 0 (size b) (direction b), k2).

(** The arguments of dma_sync_single_for_cpu and dma_sync_single_for_device. *)
Definition pcie_device_dma_sync_buffer (b : dma_buf) : Z * Z * dma_direction_t :=
  (ptr_dev b, size b, direction b).

(** for (i = 0; i < TLKM_PCIE_NUM_DMA_BUFFERS; ++i) of pcie_device_miscdev_close *)
Fixpoint close_buffers (l : list dma_buf) (k : kern) : option (list dma_buf * kern) :=
  match l with
  | [] => Some ([], k)
  | b :: r =>
      '(b', k1) ← (if nonzero (ptr b) then
                     '(b1, k1) ← pcie_device_dma_free_buffer b k;
                     Some (mk_buf (ptr b1) (ptr_dev b1) 0 (direction b1), k1)
                   else Some (b, k));
      '(r', k2) ← close_buffers r k1;
      Some (b' :: r', k2)
  end.

Fixpoint close_gp (l : list gp_buf) (k : kern) : option kern :=
  match l with
  | [] => Some k
  | g :: r =>
      k1 ← (if nonzero (dev_addr g) then dma_unmap_single (dev_addr g) (gp_size g) FROM_DEV k
            else Some k);
      k2 ← kfree (buf g) k1;
      k3 ← devm_kfree (gp_addr g) k2;
      close_gp r k3
  end.

(** pcie_device_miscdev_close of a design without MMU *)
Definition pcie_device_miscdev_close (s : pdev) : option pdev :=
  '(l, k1) ← close_buffers (dma_buffer s) (kernel s);
  k2 ← close_gp (gp_buffer s) k1;
  Some (mk_pdev l [] k2).

(** pcie_device_addr2map_off: the physical address of a buffer, by the offset of the
    mapping; the index is not checked. *)
Definition pcie_device_addr2map_off (virt_to_phys : Z -> Z) (s : pdev) (addr : Z) : option Z :=
  let buffer_requested := u64 (addr / 4096 - 4) in
  b ← dma_buffer s !! Z.to_nat buffer_requested;
  Some (if nonzero (ptr b) then virt_to_phys (ptr b) else 0).

(** ** pcie_ioctl.c *)

(** The first slot with ptr == 0. *)
Fixpoint free_slot (i : nat) (l : list dma_buf) : option nat :=
  match l with
  | [] => None
  | b :: r => if ptr b =? 0 then Some i else free_slot (S i) r
  end.

(** Returns the result, and buffer_id and addr for the caller. *)
Definition pcie_ioctl_dma_buffer_allocate (an : answers) (sz : Z) (from_device : bool) (s : pdev)
    : Z * option (Z * Z) * pdev :=
  match free_slot 0 (dma_buffer s) with
  | None => (- EMFILE, None, s)
  | Some i =>
      let d := if from_device then FROM_DEV else TO_DEV in
      let old := nth i (dma_buffer s) zero_buf in
      let '(err, p, h, k) := pcie_device_dma_allocate_buffer an (ptr_dev old) d sz (kernel s) in
      if nonzero err then (err, None, set_kern k (set_slot i zero_buf s))
      else (0, Some (Z.of_nat i, h), set_kern k (set_slot i (mk_buf p h sz d) s))
  end.

(** [None]: the id is not an index of the table. *)
Definition pcie_ioctl_dma_buffer_free (id : Z) (s : pdev) : option (Z * pdev) :=
  b ← dma_buffer s !! Z.to_nat id;
  '(_, k) ← pcie_device_dma_free_buffer b (kernel s);
  Some (0, set_kern k (set_slot (Z.to_nat id) zero_buf s)).

(** pcie_ioctl_dma_buffer_to_dev and pcie_ioctl_dma_buffer_from_dev: the result and
    what is synchronised. *)
Definition pcie_ioctl_dma_buffer_sync (id : Z) (s : pdev) : option (Z * (Z * Z * dma_direction_t)) :=
  b ← dma_buffer s !! Z.to_nat id;
  Some (0, pcie_device_dma_sync_buffer b).

(** [entry]: devm_kzalloc; [mem]: kmalloc. *)
Definition pcie_ioctl_kernel_buffer_allocate (entry mem : option Z) (sz : Z) (s : pdev)
    : option (Z * option Z * pdev) :=
  if sz >? Z.shiftl 4 20 then Some (- ENOMEM, None, s) else
  match entry with
  | None => Some (- ENOMEM, None, s)
  | Some a =>
      let k := kernel s in
      let k1 := mk_kern (kmem k) (a :: devm k) (dmamaps k) (wrong_dir k) in
      match mem with
      | None => k2 ← devm_kfree a k1; Some (- ENOMEM, None, set_kern k2 s)
      | Some b =>
          let id := match last (gp_buffer s) with
                    | None => 1
                    | Some tail => u64 (buffer_id tail + 1)
                    end in
          Some (0, Some id,
                mk_pdev (dma_buffer s) (gp_buffer s ++ [mk_gp a b 0 sz id])
                  (mk_kern (b :: kmem k1) (devm k1) (dmamaps k1) (wrong_dir k1)))
      end
  end.

(** The loop returns after its first entry, whatever the id of that entry is. *)
Definition pcie_ioctl_kernel_buffer_free (id : Z) (s : pdev) : option (Z * pdev) :=
  match gp_buffer s with
  | [] => Some (- ENOENT, s)
  | g :: r =>
      if buffer_id g =? id then
        k1 ← (if nonzero (dev_addr g) then dma_unmap_single (dev_addr g) (gp_size g) FROM_DEV (kernel s)
              else Some (kernel s));
        k2 ← kfree (buf g) k1;
        k3 ← devm_kfree (gp_addr g) k2;
        Some (0, mk_pdev (dma_buffer s) r k3)
      else Some (0, s)
  end.

(** The entry with an id, and the list with that entry replaced. *)
Fixpoint find_gp (id : Z) (l : list gp_buf) : option nat :=
  match l with
  | [] => None
  | g :: r => if buffer_id g =? id then Some O else S <$> find_gp id r
  end.

Definition set_dev_addr (a : Z) (g : gp_buf) : gp_buf :=
  mk_gp (gp_addr g) (buf g) a (gp_size g) (buffer_id g).

Definition pcie_ioctl_kernel_buffer_map (a : Z) (map_err : bool) (id : Z) (s : pdev)
    : Z * option Z * pdev :=
  match find_gp id (gp_buffer s) with
  | None => (- ENOENT, None, s)
  | Some i =>
      let g := nth i (gp_buffer s) (mk_gp 0 0 0 0 0) in
      let s1 := set_gp (<[i := set_dev_addr a g]> (gp_buffer s)) s in
      if map_err then (- ENOMEM, None, s1) else
      let k := kernel s in
      (0, Some a,
       set_kern (mk_kern (kmem k) (devm k) ((a, gp_size g, TO_DEV) :: dmamaps k) (wrong_dir k)) s1)
  end.

Definition pcie_ioctl_kernel_buffer_unmap (id : Z) (s : pdev) : option (Z * pdev) :=
  match find_gp id (gp_buffer s) with
  | None => Some (- ENOENT, s)
  | Some i =>
      let g := nth i (gp_buffer s) (mk_gp 0 0 0 0 0) in
      k ← dma_unmap_single (dev_addr g) (gp_size g) FROM_DEV (kernel s);
      Some (0, set_kern k (set_gp (<[i := set_dev_addr 0 g]> (gp_buffer s)) s))
  end.

(** [start] and [len]: pci_resource_start and pci_resource_len of the card. *)
Definition pcie_ioctl_bar_addr (phy_addr_bar0 : Z) (start len : Z -> Z) (bar_idx : Z)
    : Z * option Z :=
  if bar_idx =? 0 then (0, Some phy_addr_bar0)
  else if (bar_idx =? 2) && (len 2 >? 0) then (0, Some (start 2))
  else if (bar_idx =? 4) && (len 4 >? 0) then (0, Some (start 4))
  else (- ENOENT, None).

(** ** Sessions *)

(** A call with the answers the kernel gives to it. *)
Inductive op :=
| dma_buffer_allocate (an : answers) (sz : Z) (from_device : bool)
| dma_buffer_free (id : Z)
| kernel_buffer_allocate (entry mem : option Z) (sz : Z)
| kernel_buffer_free (id : Z)
| kernel_buffer_map (a : Z) (map_err : bool) (id : Z)
| kernel_buffer_unmap (id : Z)
| miscdev_close.

Definition exec (o : op) (s : pdev) : option (Z * pdev) :=
  match o with
  | dma_buffer_allocate an sz fd =>
      let '(r, _, s') := pcie_ioctl_dma_buffer_allocate an sz fd s in Some (r, s')
  | dma_buffer_free id => pcie_ioctl_dma_buffer_free id s
  | kernel_buffer_allocate e m sz =>
      '(r, _, s') ← pcie_ioctl_kernel_buffer_allocate e m sz s; Some (r, s')
  | kernel_buffer_free id => pcie_ioctl_kernel_buffer_free id s
  | kernel_buffer_map a err id =>
      let '(r, _, s') := pcie_ioctl_kernel_buffer_map a err id s in Some (r, s')
  | kernel_buffer_unmap id => pcie_ioctl_kernel_buffer_unmap id s
  | miscdev_close => s' ← pcie_device_miscdev_close s; Some (0, s')
  end.

(** What is asked of the kernel (fresh non-zero addresses, no failed mapping) and of
    the user (indices of the table; a kernel buffer is mapped when it is not mapped
    and unmapped when it is, which the code does not check, see [unmap_unmapped]). *)
Definition fresh_mem (s : pdev) (p : Z) : Prop := p <> 0 /\ p ∉ kmem (kernel s).
Definition fresh_dma (s : pdev) (a : Z) : Prop := a <> 0 /\ a ∉ map (fst ∘ fst) (dmamaps (kernel s)).

Definition mapped_as (s : pdev) (id : Z) (mapped : bool) : Prop :=
  forall g, g ∈ gp_buffer s -> buffer_id g = id -> nonzero (dev_addr g) = mapped.

Definition polite (o : op) (s : pdev) : Prop :=
  match o with
  | dma_buffer_allocate an _ _ =>
      map_error an = false /\ (forall b, kmalloc an = Some b -> fresh_mem s b) /\
      fresh_dma s (dma_addr an)
  | dma_buffer_free id => 0 <= id < 32
  | kernel_buffer_allocate e m _ =>
      (forall b, m = Some b -> fresh_mem s b) /\ (forall a, e = Some a -> a ∉ devm (kernel s)) /\
      (forall g, last (gp_buffer s) = Some g -> buffer_id g + 1 < 2 ^ 64)
  | kernel_buffer_free _ => True
  | kernel_buffer_map a err id => err = false /\ fresh_dma s a /\ mapped_as s id false
  | kernel_buffer_unmap id => mapped_as s id true
  | miscdev_close => True
  end.

Inductive session : pdev -> Prop :=
| session_start : session (mk_pdev (replicate 32 zero_buf) [] (mk_kern [] [] [] 0))
| session_step (s s' : pdev) (o : op) (r : Z) :
    session s -> polite o s -> exec o s = Some (r, s') -> session s'.

(** ** Accounting *)

Definition slot_mem (b : dma_buf) : list Z := if ptr b =? 0 then [] else [ptr b].
Definition slot_map (b : dma_buf) : list (Z * Z * dma_direction_t) :=
  if ptr b =? 0 then [] else [(ptr_dev b, size b, direction b)].
Definition gp_map (g : gp_buf) : list (Z * Z * dma_direction_t) :=
  if nonzero (dev_addr g) then [(dev_addr g, gp_size g, TO_DEV)] else [].

(** The kernel has given out exactly this. *)
Record acct (k : kern) (mem dev : list Z) (maps : list (Z * Z * dma_direction_t)) : Prop := {
  a_mem : Permutation (kmem k) mem;
  a_devm : Permutation (devm k) dev;
  a_maps : Permutation (dmamaps k) maps;
  a_nodup : NoDup (map (fst ∘ fst) maps)
}.

#[export] Instance acct_proper (k : kern) :
  Proper (Permutation ==> Permutation ==> Permutation ==> iff) (acct k).
Proof.
  assert (forall m m' d d' p p', Permutation m m' -> Permutation d d' -> Permutation p p' ->
    acct k m d p -> acct k m' d' p') as H.
  { intros m m' d d' p p' E1 E2 E3 [H1 H2 H3 H4]. split; [by rewrite <- E1|by rewrite <- E2| |].
    - by rewrite <- E3.
    - by rewrite <- E3. }
  intros m m' E1 d d' E2 p p' E3. split; by apply H.
Qed.

Lemma kfree_acct (k : kern) (p : Z) (mem dev : list Z) maps :
  p <> 0 -> acct k (p :: mem) dev maps ->
  exists k', kfree p k = Some k' /\ acct k' mem dev maps.
Proof.
  intros Hp [H1 H2 H3 H4]. unfold kfree. rewrite (proj2 (Z.eqb_neq _ _) Hp).
  assert (p ∈ kmem k) as Hin by (rewrite H1; left). rewrite decide_True by done.
  eexists. split; [done|]. split; simpl; [|done|done|done].
  apply (Permutation_cons_inv (a := p)). by rewrite <- remove_one_perm.
Qed.

Lemma devm_kfree_acct (k : kern) (p : Z) (mem dev : list Z) maps :
  acct k mem (p :: dev) maps -> exists k', devm_kfree p k = Some k' /\ acct k' mem dev maps.
Proof.
  intros [H1 H2 H3 H4]. unfold devm_kfree.
  assert (p ∈ devm k) as Hin by (rewrite H2; left). rewrite decide_True by done.
  eexists. split; [done|]. split; simpl; [done| |done|done].
  apply (Permutation_cons_inv (a := p)). by rewrite <- remove_one_perm.
Qed.

Lemma unmap_acct (k : kern) (a sz : Z) (d d' : dma_direction_t) (mem dev : list Z) maps :
  acct k mem dev ((a, sz, d') :: maps) ->
  exists k', dma_unmap_single a sz d k = Some k' /\ acct k' mem dev maps.
Proof.
  intros [H1 H2 H3 H4]. simpl in H4. apply NoDup_cons in H4 as [Ha H4].
  assert ((a, sz, d') ∈ dmamaps k) as Hin by (rewrite H3; left).
  assert (Permutation (remove_one (a, sz, d') (dmamaps k)) maps) as Hrm.
  { apply (Permutation_cons_inv (a := (a, sz, d'))). by rewrite <- remove_one_perm. }
  assert (forall e, (a, sz, e) ∈ dmamaps k -> e = d') as Hone.
  { intros e He. rewrite H3 in He. apply elem_of_cons in He as [|He]; [congruence|].
    destruct Ha. by apply (list_elem_of_fmap_2 (fst ∘ fst)) in He. }
  unfold dma_unmap_single. destruct (decide ((a, sz, d) ∈ dmamaps k)) as [Hd|Hd].
  - apply Hone in Hd as ->. eexists. by split; [|split].
  - assert (flip d = d') as -> by (destruct d, d'; done). rewrite decide_True by done.
    eexists. by split; [|split].
Qed.

(** Accounting of a table that is updated at one index. *)
Lemma flat_map_insert {A B} (f : A -> list B) (l : list A) (i : nat) (x y : A) :
  l !! i = Some x -> Permutation (f x ++ flat_map f (<[i := y]> l)) (f y ++ flat_map f l).
Proof.
  revert i. induction l as [|z l IH]; intros [|i] Hi; simpl in *; simplify_eq/=; try done.
  - by rewrite !(assoc_L (++)), (Permutation_app_comm (f x)).
  - rewrite !(assoc_L (++)), (Permutation_app_comm (f x)), (Permutation_app_comm (f y)).
    rewrite <- !(assoc_L (++)). f_equiv. by apply IH.
Qed.

Definition slot_ok (b : dma_buf) : Prop := ptr b = 0 <-> ptr_dev b = 0.

Record buf_inv (s : pdev) : Prop := {
  i_len : length (dma_buffer s) = 32%nat;
  i_slot : Forall slot_ok (dma_buffer s);
  i_gp : Forall (fun g => buf g <> 0 /\ 0 < buffer_id g) (gp_buffer s);
  i_ids : StronglySorted Z.lt (map buffer_id (gp_buffer s));
  i_acct : acct (kernel s) (flat_map slot_mem (dma_buffer s) ++ map buf (gp_buffer s))
             (map gp_addr (gp_buffer s))
             (flat_map slot_map (dma_buffer s) ++ flat_map gp_map (gp_buffer s))
}.

(** *** DMA buffers *)

Lemma free_slot_spec (l : list dma_buf) (j : nat) :
  match free_slot j l with
  | Some i => exists b, (j <= i)%nat /\ l !! (i - j)%nat = Some b /\ ptr b = 0
  | None => forall b, b ∈ l -> ptr b <> 0
  end.
Proof.
  revert j. induction l as [|b r IH]; intros j; simpl; [by intros b ?%elem_of_nil|].
  destruct (Z.eqb_spec (ptr b) 0) as [E|E].
  - exists b. by rewrite Nat.sub_diag.
  - specialize (IH (S j)). destruct (free_slot (S j) r) as [i|].
    + destruct IH as (c & Hi & Hc & Hp). exists c. split; [lia|]. split; [|done].
      replace (i - j)%nat with (S (i - S j)) by lia. done.
    + intros c [->|Hc]%elem_of_cons; [done|by apply IH].
Qed.

Lemma free_buffer_acct (b : dma_buf) (k : kern) (mem dev : list Z) maps :
  slot_ok b -> acct k (slot_mem b ++ mem) dev (slot_map b ++ maps) ->
  exists k', pcie_device_dma_free_buffer b k = Some (mk_buf 0 0 (size b) (direction b), k') /\
    acct k' mem dev maps.
Proof.
  unfold slot_ok, slot_mem, slot_map, pcie_device_dma_free_buffer, nonzero. intros Hb Hk.
  destruct (Z.eqb_spec (ptr b) 0) as [E|E]; simpl in Hk.
  - rewrite (proj1 Hb E), E. by eexists.
  - rewrite (proj2 (Z.eqb_neq (ptr_dev b) 0)) by naive_solver. simpl.
    apply (unmap_acct _ _ _ (direction b)) in Hk as (k1 & -> & Hk). simpl.
    apply kfree_acct in Hk as (k2 & -> & Hk); [|done]. by eexists.
Qed.

(** An empty slot may hold anything in the other fields. *)
Lemma slot_empty (b : dma_buf) : ptr b = 0 -> slot_mem b = [] /\ slot_map b = [].
Proof. unfold slot_mem, slot_map. by intros ->. Qed.

(** Everything but what one slot accounts for. *)
Definition rest_mem (i : nat) (s : pdev) : list Z :=
  flat_map slot_mem (<[i := zero_buf]> (dma_buffer s)) ++ map buf (gp_buffer s).
Definition rest_maps (i : nat) (s : pdev) : list (Z * Z * dma_direction_t) :=
  flat_map slot_map (<[i := zero_buf]> (dma_buffer s)) ++ flat_map gp_map (gp_buffer s).

Lemma slot_acct (s : pdev) (i : nat) (b : dma_buf) :
  buf_inv s -> dma_buffer s !! i = Some b ->
  acct (kernel s) (slot_mem b ++ rest_mem i s) (map gp_addr (gp_buffer s)) (slot_map b ++ rest_maps i s).
Proof.
  intros Hs Hi. unfold rest_mem, rest_maps. rewrite !(assoc_L (++)).
  rewrite (flat_map_insert slot_mem _ i b zero_buf Hi), (flat_map_insert slot_map _ i b zero_buf Hi).
  apply Hs.
Qed.

Lemma set_slot_inv (s : pdev) (i : nat) (b : dma_buf) (k : kern) :
  buf_inv s -> (i < 32)%nat -> slot_ok b ->
  acct k (slot_mem b ++ rest_mem i s) (map gp_addr (gp_buffer s)) (slot_map b ++ rest_maps i s) ->
  buf_inv (set_kern k (set_slot i b s)).
Proof.
  intros [H1 H2 H3 H4 _] Hi Hb Hk. unfold rest_mem, rest_maps in Hk.
  assert (<[i := zero_buf]> (dma_buffer s) !! i = Some zero_buf) as Hz
    by (apply list_lookup_insert_eq; lia).
  pose proof (flat_map_insert slot_mem _ i zero_buf b Hz) as Em.
  pose proof (flat_map_insert slot_map _ i zero_buf b Hz) as Ep.
  simpl in Em, Ep. rewrite list_insert_insert_eq in Em, Ep.
  split; simpl; [by rewrite length_insert|by apply Forall_insert|done|done|].
  rewrite Em, Ep, <- !(assoc_L (++)). apply Hk.
Qed.

Lemma dma_allocate_inv (an : answers) (sz : Z) (fd : bool) (s : pdev) :
  buf_inv s -> polite (dma_buffer_allocate an sz fd) s ->
  let '(r, out, s') := pcie_ioctl_dma_buffer_allocate an sz fd s in
  buf_inv s' /\
  match out with
  | Some (id, a) =>
      r = 0 /\ 0 <= id < 32 /\ a = dma_addr an /\
      (exists b, dma_buffer s !! Z.to_nat id = Some b /\ ptr b = 0) /\
      exists p, kmalloc an = Some p /\
        dma_buffer s' = <[Z.to_nat id := mk_buf p a sz (if fd then FROM_DEV else TO_DEV)]> (dma_buffer s)
  | None => r < 0 /\ (r = - EMFILE -> forall b, b ∈ dma_buffer s -> ptr b <> 0)
  end.
Proof.
  intros Hs (Herr & Hfresh & Ha & Hdma). unfold pcie_ioctl_dma_buffer_allocate.
  pose proof (free_slot_spec (dma_buffer s) 0) as Hfree.
  destruct (free_slot 0 (dma_buffer s)) as [i|]; [|by split].
  destruct Hfree as (b & _ & Hb & Hp). rewrite Nat.sub_0_r in Hb.
  assert (i < 32)%nat as Hi by (rewrite <- (i_len _ Hs); by eapply lookup_lt_Some).
  pose proof (slot_acct s i b Hs Hb) as Hk. destruct (slot_empty b Hp) as [Em Ep]. rewrite Em, Ep in Hk.
  unfold pcie_device_dma_allocate_buffer. rewrite Herr. destruct (kmalloc an) as [p|] eqn:Ek; simpl.
  - destruct (Hfresh p eq_refl) as [Hp0 Hpn]. split.
    + apply set_slot_inv; [done|done|unfold slot_ok; simpl; lia|].
      unfold slot_mem, slot_map. simpl. rewrite (proj2 (Z.eqb_neq _ _) Hp0).
      destruct Hk as [K1 K2 K3 K4]. split; simpl in *; [by rewrite K1|done|by rewrite K3|].
      constructor; [|done]. by rewrite <- K3.
    + split; [done|]. split; [lia|]. rewrite Nat2Z.id.
      split; [done|]. split; [by exists b|by exists p].
  - split; [|done]. by apply set_slot_inv.
Qed.

Lemma dma_free_inv (id : Z) (s : pdev) :
  buf_inv s -> 0 <= id < 32 ->
  exists s', pcie_ioctl_dma_buffer_free id s = Some (0, s') /\ buf_inv s' /\
    dma_buffer s' = <[Z.to_nat id := zero_buf]> (dma_buffer s) /\ gp_buffer s' = gp_buffer s.
Proof.
  intros Hs Hid. unfold pcie_ioctl_dma_buffer_free.
  destruct (lookup_lt_is_Some_2 (dma_buffer s) (Z.to_nat id)) as [b Hb]; [rewrite (i_len _ Hs); lia|].
  rewrite Hb. simpl.
  destruct (free_buffer_acct b (kernel s) _ _ _ (Forall_lookup_1 _ _ _ _ (i_slot _ Hs) Hb)
              (slot_acct s _ b Hs Hb)) as (k & -> & Hk). simpl.
  eexists. split; [done|]. split; [|done]. apply set_slot_inv; [done|lia|done|done].
Qed.

(** *** Kernel buffers *)

(** One kernel buffer given back, as in pcie_ioctl_kernel_buffer_free and on close. *)
Lemma free_gp_acct (g : gp_buf) (k : kern) (mem dev : list Z) maps :
  buf g <> 0 -> acct k (buf g :: mem) (gp_addr g :: dev) (gp_map g ++ maps) ->
  exists k1 k2 k3,
    (if nonzero (dev_addr g) then dma_unmap_single (dev_addr g) (gp_size g) FROM_DEV k else Some k)
      = Some k1 /\
    kfree (buf g) k1 = Some k2 /\ devm_kfree (gp_addr g) k2 = Some k3 /\ acct k3 mem dev maps.
Proof.
  unfold gp_map. intros Hb Hk.
  assert (exists k1, (if nonzero (dev_addr g) then dma_unmap_single (dev_addr g) (gp_size g) FROM_DEV k
    else Some k) = Some k1 /\ acct k1 (buf g :: mem) (gp_addr g :: dev) maps) as (k1 & E1 & Hk1).
  { destruct (nonzero (dev_addr g)); [by eapply unmap_acct|by eexists]. }
  destruct (kfree_acct _ _ _ _ _ Hb Hk1) as (k2 & E2 & Hk2).
  destruct (devm_kfree_acct _ _ _ _ _ Hk2) as (k3 & E3 & Hk3). by exists k1, k2, k3.
Qed.

Lemma gp_free_inv (id : Z) (s : pdev) :
  buf_inv s ->
  exists r s', pcie_ioctl_kernel_buffer_free id s = Some (r, s') /\ buf_inv s' /\
    match gp_buffer s with
    | [] => r = - ENOENT /\ s' = s
    | g :: l => r = 0 /\ gp_buffer s' = (if buffer_id g =? id then l else g :: l) /\
                dma_buffer s' = dma_buffer s
    end.
Proof.
  intros Hs. unfold pcie_ioctl_kernel_buffer_free.
  destruct (gp_buffer s) as [|g l] eqn:Eg; [by exists (- ENOENT), s|].
  destruct (buffer_id g =? id) eqn:Eid; [|by exists 0, s].
  destruct Hs as [H1 H2 H3 H4 H5]. rewrite Eg in *. apply Forall_cons in H3 as [[Hb _] H3].
  simpl in H4, H5. apply StronglySorted_inv in H4 as [H4 _].
  rewrite <- Permutation_middle in H5.
  rewrite (assoc_L (++)), (Permutation_app_comm (flat_map slot_map _)), <- (assoc_L (++)) in H5.
  destruct (free_gp_acct g (kernel s) _ _ _ Hb H5) as (k1 & k2 & k3 & -> & E2 & E3 & Hk). simpl.
  rewrite E2. simpl. rewrite E3. simpl. exists 0. eexists. split; [done|]. split; [by split|done].
Qed.

Lemma last_id_lt (l : list gp_buf) (g : gp_buf) :
  StronglySorted Z.lt (map buffer_id l) -> last l = Some g ->
  forall x, x ∈ l -> buffer_id x <= buffer_id g.
Proof.
  induction l as [|h r IH]; intros Hs Hl x Hx; [done|]. simpl in Hs.
  apply StronglySorted_inv in Hs as [Hs Hall]. rewrite Forall_forall in Hall.
  destruct r as [|h' r].
  { simpl in Hl. simplify_eq. apply elem_of_cons in Hx as [->|?%elem_of_nil]; done. }
  rewrite last_cons_cons in Hl. apply elem_of_cons in Hx as [->|Hx]; [|by apply IH].
  apply Z.lt_le_incl, Hall. apply (list_elem_of_fmap_2 buffer_id), last_Some_elem_of, Hl.
Qed.

Lemma sorted_snoc (l : list Z) (x : Z) :
  StronglySorted Z.lt l -> (forall y, y ∈ l -> y < x) -> StronglySorted Z.lt (l ++ [x]).
Proof.
  induction l as [|y l IH]; intros Hs Hx; simpl; [by repeat constructor|].
  apply StronglySorted_inv in Hs as [Hs Hy]. constructor.
  - apply IH; [done|]. intros z Hz. apply Hx. by right.
  - apply Forall_app. split; [done|]. repeat constructor. apply Hx. left.
Qed.

Lemma gp_allocate_inv (e m : option Z) (sz : Z) (s : pdev) :
  buf_inv s -> polite (kernel_buffer_allocate e m sz) s ->
  exists r out s', pcie_ioctl_kernel_buffer_allocate e m sz s = Some (r, out, s') /\ buf_inv s' /\
    dma_buffer s' = dma_buffer s /\
    match out with
    | Some id => r = 0 /\ (forall g, g ∈ gp_buffer s -> buffer_id g < id) /\
                 exists a b, gp_buffer s' = gp_buffer s ++ [mk_gp a b 0 sz id]
    | None => r = - ENOMEM /\ gp_buffer s' = gp_buffer s
    end.
Proof.
  intros Hs (Hmem & Hent & Hid). unfold pcie_ioctl_kernel_buffer_allocate.
  destruct (sz >? Z.shiftl 4 20); [by exists (- ENOMEM), None, s|].
  destruct e as [a|]; [|by exists (- ENOMEM), None, s].
  pose proof Hs as [H1 H2 H3 H4 [K1 K2 K3 K4]]. destruct m as [b|].
  - set (id := match last (gp_buffer s) with Some tail => u64 (buffer_id tail + 1) | None => 1 end).
    assert ((forall g, g ∈ gp_buffer s -> buffer_id g < id) /\ 0 < id) as [Hlt Hpos].
    { unfold id. destruct (last (gp_buffer s)) as [g|] eqn:El.
      - rewrite Forall_forall in H3. pose proof (last_Some_elem_of _ _ El) as Hg.
        destruct (H3 g Hg) as [_ ?]. specialize (Hid g eq_refl). rewrite u64_small by lia.
        split; [|lia]. intros x Hx. pose proof (last_id_lt _ _ H4 El x Hx). lia.
      - apply last_None in El as ->. split; [|done]. by intros g ?%elem_of_nil. }
    exists 0, (Some id). eexists. split; [done|]. destruct (Hmem b eq_refl) as [Hb0 _].
    split; [|split; [done|split; [done|split; [done|by eexists _, _]]]].
    split; simpl; [done|done| | |].
    + apply Forall_app. split; [done|]. by repeat constructor.
    + rewrite map_app. apply sorted_snoc; [done|].
      intros y (g & -> & Hg)%list_elem_of_fmap. by apply Hlt.
    + rewrite !map_app, flat_map_app. simpl. rewrite !app_nil_r, (assoc_L (++)).
      split; simpl; [|by rewrite K2, (Permutation_app_comm (map gp_addr _))|done|done].
      by rewrite K1, (Permutation_app_comm (_ ++ _) [b]).
  - destruct (devm_kfree_acct (mk_kern (kmem (kernel s)) (a :: devm (kernel s)) (dmamaps (kernel s))
      (wrong_dir (kernel s))) a _ (map gp_addr (gp_buffer s)) _
      (Build_acct (mk_kern _ _ _ _) _ _ _ K1 (perm_skip a K2) K3 K4)) as (k & -> & Hk).
    exists (- ENOMEM), None. eexists. split; [done|]. split; [by split|done].
Qed.

Lemma find_gp_spec (id : Z) (l : list gp_buf) :
  match find_gp id l with
  | Some i => exists g, l !! i = Some g /\ buffer_id g = id
  | None => forall g, g ∈ l -> buffer_id g <> id
  end.
Proof.
  induction l as [|g r IH]; simpl; [by intros g ?%elem_of_nil|].
  destruct (Z.eqb_spec (buffer_id g) id) as [E|E]; [by exists g|].
  destruct (find_gp id r) as [i|]; simpl; [done|].
  intros h [->|Hh]%elem_of_cons; [done|by apply IH].
Qed.

(** The mappings but that of one kernel buffer. *)
Definition gp_rest (i : nat) (s : pdev) : list (Z * Z * dma_direction_t) :=
  flat_map slot_map (dma_buffer s) ++ flat_map gp_map (<[i := mk_gp 0 0 0 0 0]> (gp_buffer s)).

Lemma gp_acct (s : pdev) (i : nat) (g : gp_buf) :
  buf_inv s -> gp_buffer s !! i = Some g ->
  acct (kernel s) (flat_map slot_mem (dma_buffer s) ++ map buf (gp_buffer s))
    (map gp_addr (gp_buffer s)) (gp_map g ++ gp_rest i s).
Proof.
  intros Hs Hi. pose proof (flat_map_insert gp_map _ i g (mk_gp 0 0 0 0 0) Hi) as E. simpl in E.
  unfold gp_rest.
  rewrite (assoc_L (++)), (Permutation_app_comm (gp_map g)), <- (assoc_L (++)), E. apply Hs.
Qed.

(** A new device address for one kernel buffer. *)
Lemma set_gp_inv (s : pdev) (i : nat) (g : gp_buf) (a : Z) (k : kern) :
  buf_inv s -> gp_buffer s !! i = Some g ->
  acct k (flat_map slot_mem (dma_buffer s) ++ map buf (gp_buffer s))
    (map gp_addr (gp_buffer s)) (gp_map (set_dev_addr a g) ++ gp_rest i s) ->
  buf_inv (set_kern k (set_gp (<[i := set_dev_addr a g]> (gp_buffer s)) s)).
Proof.
  intros [H1 H2 H3 H4 _] Hi Hk. pose proof (lookup_lt_Some _ _ _ Hi) as Hlt.
  assert (forall (B : Type) (f : gp_buf -> B), f (set_dev_addr a g) = f g ->
    map f (<[i := set_dev_addr a g]> (gp_buffer s)) = map f (gp_buffer s)) as Hmap.
  { intros B f Hf. change (map f) with (fmap (M := list) f).
    rewrite list_fmap_insert, Hf. apply list_insert_id. by rewrite list_lookup_fmap, Hi. }
  split; simpl; [done|done| | |].
  - apply Forall_insert; [done|]. by apply (Forall_lookup_1 _ _ _ _ H3 Hi).
  - by rewrite Hmap.
  - rewrite !Hmap by done. unfold gp_rest in Hk.
    assert (<[i := mk_gp 0 0 0 0 0]> (gp_buffer s) !! i = Some (mk_gp 0 0 0 0 0)) as Hz
      by (by apply list_lookup_insert_eq).
    pose proof (flat_map_insert gp_map _ i _ (set_dev_addr a g) Hz) as E. simpl in E.
    rewrite list_insert_insert_eq in E.
    by rewrite E, (assoc_L (++)), (Permutation_app_comm (flat_map slot_map _)), <- (assoc_L (++)).
Qed.

Lemma nth_gp (s : pdev) (i : nat) (g : gp_buf) :
  gp_buffer s !! i = Some g -> nth i (gp_buffer s) (mk_gp 0 0 0 0 0) = g.
Proof. intros Hi. by apply nth_lookup_Some. Qed.

Lemma gp_map_inv (a id : Z) (s : pdev) :
  buf_inv s -> polite (kernel_buffer_map a false id) s ->
  let '(r, out, s') := pcie_ioctl_kernel_buffer_map a false id s in
  buf_inv s' /\ (r = 0 /\ out = Some a \/ r = - ENOENT /\ out = None /\ s' = s).
Proof.
  intros Hs (_ & [Ha Hf] & Hm). unfold pcie_ioctl_kernel_buffer_map.
  pose proof (find_gp_spec id (gp_buffer s)) as Hfind.
  destruct (find_gp id (gp_buffer s)) as [i|]; [|by split; [|right]].
  destruct Hfind as (g & Hi & Hid). rewrite (nth_gp s i g Hi). split; [|by left].
  assert (nonzero (dev_addr g) = false) as Hz by (by apply Hm; [eapply list_elem_of_lookup_2|]).
  assert (gp_map g = []) as Eg by (unfold gp_map; by rewrite Hz).
  assert (gp_map (set_dev_addr a g) = [(a, gp_size g, TO_DEV)]) as Ea.
  { unfold gp_map, nonzero. simpl. by rewrite (proj2 (Z.eqb_neq _ _) Ha). }
  apply (set_gp_inv s i g a); [done|done|]. rewrite Ea.
  pose proof (gp_acct s i g Hs Hi) as Hk. rewrite Eg in Hk. destruct Hk as [K1 K2 K3 K4].
  split; simpl in *; [done|done|by rewrite K3|]. constructor; [|done]. by rewrite <- K3.
Qed.

Lemma gp_unmap_inv (id : Z) (s : pdev) :
  buf_inv s -> polite (kernel_buffer_unmap id) s ->
  exists r s', pcie_ioctl_kernel_buffer_unmap id s = Some (r, s') /\ buf_inv s' /\
    (r = 0 \/ r = - ENOENT /\ s' = s).
Proof.
  intros Hs Hm. unfold pcie_ioctl_kernel_buffer_unmap.
  pose proof (find_gp_spec id (gp_buffer s)) as Hfind.
  destruct (find_gp id (gp_buffer s)) as [i|]; [|by exists (- ENOENT), s; split; [|split; [|right]]].
  destruct Hfind as (g & Hi & Hid). rewrite (nth_gp s i g Hi).
  assert (nonzero (dev_addr g) = true) as Hz by (by apply Hm; [eapply list_elem_of_lookup_2|]).
  assert (gp_map g = [(dev_addr g, gp_size g, TO_DEV)]) as Eg by (unfold gp_map; by rewrite Hz).
  pose proof (gp_acct s i g Hs Hi) as Hk. rewrite Eg in Hk.
  apply (unmap_acct _ _ _ FROM_DEV) in Hk as (k & -> & Hk). simpl.
  exists 0. eexists. split; [done|]. split; [|by left]. by apply set_gp_inv.
Qed.

(** No mapping the driver holds is at address 0. *)
Lemma maps_nonzero (s : pdev) (a sz : Z) (d : dma_direction_t) :
  buf_inv s -> (a, sz, d) ∈ dmamaps (kernel s) -> a <> 0.
Proof.
  intros [_ H2 _ _ [_ _ H3 _]]. rewrite H3. intros [Hin|Hin]%elem_of_app.
  - apply list_elem_of_In, in_flat_map in Hin as (b & Hb%list_elem_of_In & Hin%list_elem_of_In).
    rewrite Forall_forall in H2. specialize (H2 b Hb). unfold slot_map in Hin.
    destruct (Z.eqb_spec (ptr b) 0); [by apply elem_of_nil in Hin|]. apply list_elem_of_singleton in Hin.
    simplify_eq. intros E. by apply H2 in E.
  - apply list_elem_of_In, in_flat_map in Hin as (g & _ & Hin%list_elem_of_In). unfold gp_map, nonzero in Hin.
    destruct (Z.eqb_spec (dev_addr g) 0); simpl in Hin; [by apply elem_of_nil in Hin|].
    apply list_elem_of_singleton in Hin. by simplify_eq.
Qed.

(** The code does not look whether a kernel buffer is mapped before it unmaps it. *)
Lemma unmap_unmapped (id : Z) (s : pdev) :
  buf_inv s -> id ∈ map buffer_id (gp_buffer s) -> mapped_as s id false ->
  pcie_ioctl_kernel_buffer_unmap id s = None.
Proof.
  intros Hs Hid Hm. unfold pcie_ioctl_kernel_buffer_unmap. pose proof (find_gp_spec id (gp_buffer s)) as Hfind.
  destruct (find_gp id (gp_buffer s)) as [i|].
  2:{ apply list_elem_of_fmap in Hid as (g & -> & Hg). by destruct (Hfind g Hg). }
  destruct Hfind as (g & Hi & Hid'). rewrite (nth_gp s i g Hi).
  assert (dev_addr g = 0) as ->.
  { specialize (Hm g (list_elem_of_lookup_2 _ _ _ Hi) Hid'). unfold nonzero in Hm. lia. }
  unfold dma_unmap_single. rewrite !decide_False; [done|by intros H%(maps_nonzero s)..].
Qed.

(** *** Closing the file *)

Lemma close_buffers_acct (l : list dma_buf) (k : kern) (mem dev : list Z) maps :
  Forall slot_ok l -> acct k (flat_map slot_mem l ++ mem) dev (flat_map slot_map l ++ maps) ->
  exists l' k', close_buffers l k = Some (l', k') /\ acct k' mem dev maps /\
    length l' = length l /\ Forall (fun b => ptr b = 0 /\ ptr_dev b = 0) l'.
Proof.
  revert k. induction l as [|b r IH]; intros k Hok Hk; simpl in *; [by exists [], k|].
  apply Forall_cons in Hok as [Hb Hok]. rewrite <- !(assoc_L (++)) in Hk.
  assert (exists b' k1, (if nonzero (ptr b) then
       '(b1, k1) ← pcie_device_dma_free_buffer b k;
       Some (mk_buf (ptr b1) (ptr_dev b1) 0 (direction b1), k1) else Some (b, k)) = Some (b', k1) /\
     acct k1 (flat_map slot_mem r ++ mem) dev (flat_map slot_map r ++ maps) /\
     ptr b' = 0 /\ ptr_dev b' = 0) as (b' & k1 & -> & Hk1 & Hb').
  { unfold nonzero. destruct (Z.eqb_spec (ptr b) 0) as [E|E]; simpl.
    - destruct (slot_empty b E) as [Em Ep]. rewrite Em, Ep in Hk. exists b, k.
      by rewrite E, (proj1 Hb E).
    - destruct (free_buffer_acct b k _ _ _ Hb Hk) as (k1 & -> & Hk1). by eexists _, k1. }
  simpl. destruct (IH k1 Hok Hk1) as (r' & k2 & -> & Hk2 & Hlen & Hr'). simpl.
  eexists _, k2. split; [done|]. split; [done|]. simpl. split; [by rewrite Hlen|by constructor].
Qed.

Lemma close_gp_acct (l : list gp_buf) (k : kern) :
  Forall (fun g => buf g <> 0 /\ 0 < buffer_id g) l ->
  acct k (map buf l) (map gp_addr l) (flat_map gp_map l) ->
  exists k', close_gp l k = Some k' /\ acct k' [] [] [].
Proof.
  revert k. induction l as [|g r IH]; intros k Hok Hk; simpl in *; [by exists k|].
  apply Forall_cons in Hok as [[Hb _] Hok].
  destruct (free_gp_acct g k _ _ _ Hb Hk) as (k1 & k2 & k3 & -> & E2 & E3 & Hk3). simpl.
  rewrite E2. simpl. rewrite E3. simpl. by apply IH.
Qed.

Lemma acct_nil (k : kern) : acct k [] [] [] -> kmem k = [] /\ devm k = [] /\ dmamaps k = [].
Proof. intros [H1 H2 H3 _]. symmetry in H1, H2, H3. by split_and!; apply Permutation_nil. Qed.

Lemma close_inv (s : pdev) :
  buf_inv s ->
  exists s', pcie_device_miscdev_close s = Some s' /\ buf_inv s' /\
    gp_buffer s' = [] /\ Forall (fun b => ptr b = 0) (dma_buffer s') /\
    kmem (kernel s') = [] /\ devm (kernel s') = [] /\ dmamaps (kernel s') = [].
Proof.
  intros [H1 H2 H3 H4 H5]. unfold pcie_device_miscdev_close.
  destruct (close_buffers_acct _ _ _ _ _ H2 H5) as (l & k1 & -> & Hk1 & Hlen & Hl). simpl.
  destruct (close_gp_acct _ _ H3 Hk1) as (k2 & -> & Hk2). simpl.
  pose proof (acct_nil _ Hk2) as (E1 & E2 & E3).
  assert (forall b, b ∈ l -> slot_mem b = [] /\ slot_map b = []) as Hempty.
  { rewrite Forall_forall in Hl. intros b Hb. by apply slot_empty, Hl. }
  assert (flat_map slot_mem l = [] /\ flat_map slot_map l = []) as [Em Ep].
  { clear -Hempty. induction l as [|b r IH]; [done|]. simpl.
    destruct (Hempty b) as [-> ->]; [left|]. apply IH. intros c Hc. apply Hempty. by right. }
  eexists. split; [done|]. split; [|split_and!; try done].
  - split; simpl; [by rewrite Hlen| |done|constructor|by rewrite Em, Ep].
    eapply Forall_impl; [apply Hl|]. unfold slot_ok. simpl. intros b [? ?]. lia.
  - eapply Forall_impl; [apply Hl|]. by intros b [? ?].
Qed.

(** ** Theorems *)

Lemma exec_inv (o : op) (s : pdev) :
  buf_inv s -> polite o s -> exists r s', exec o s = Some (r, s') /\ buf_inv s'.
Proof.
  intros Hs Hp. destruct o; simpl exec.
  - pose proof (dma_allocate_inv _ _ _ s Hs Hp) as H.
    destruct (pcie_ioctl_dma_buffer_allocate _ _ _ _) as [[r out] s']. exists r, s'. by destruct H.
  - destruct (dma_free_inv _ s Hs Hp) as (s' & -> & Hs' & _). eauto.
  - destruct (gp_allocate_inv _ _ _ s Hs Hp) as (r & out & s' & -> & Hs' & _). simpl. eauto.
  - destruct (gp_free_inv id s Hs) as (r & s' & -> & Hs' & _). eauto.
  - pose proof Hp as [-> _]. pose proof (gp_map_inv _ _ s Hs Hp) as H.
    destruct (pcie_ioctl_kernel_buffer_map _ _ _ _) as [[r out] s']. exists r, s'. by destruct H.
  - destruct (gp_unmap_inv _ s Hs Hp) as (r & s' & -> & Hs' & _). eauto.
  - destruct (close_inv s Hs) as (s' & -> & Hs' & _). simpl. eauto.
Qed.

Lemma session_inv (s : pdev) : session s -> buf_inv s.
Proof.
  induction 1 as [|s s' o r _ IH Hp He].
  - split; simpl; [done| |done|constructor|].
    + repeat constructor; done.
    + split; [done|done|done|constructor].
  - destruct (exec_inv o s IH Hp) as (r' & s2 & E & Hs2). congruence.
Qed.

(** C18: The buffers of a PCIe device are accounted for exactly.  After any sequence of
    allocations, frees, mappings, unmappings and closes, one call at a time, in which
    the kernel gives fresh non-zero addresses and does not fail a DMA mapping, and the
    user passes indices of the table, maps a kernel buffer only when it is not mapped
    and unmaps it only when it is mapped (the ioctls check none of this): the memory
    and the DMA mappings the driver holds are exactly those of the used slots and the
    listed kernel buffers; every further such call is defined, so that the driver
    frees nothing twice and unmaps nothing that it has not mapped.  The condition on
    unmapping is needed: for a listed kernel buffer that is not mapped, the unmap
    ioctl undoes a mapping that does not exist.  A DMA buffer is put into a slot that
    was free, and EMFILE means that all 32 are used; and closing the file gives back
    all memory and all mappings. *)
Theorem pcie_buffers_accounted (s : pdev) :
  session s ->
  acct (kernel s) (flat_map slot_mem (dma_buffer s) ++ map buf (gp_buffer s))
    (map gp_addr (gp_buffer s))
    (flat_map slot_map (dma_buffer s) ++ flat_map gp_map (gp_buffer s)) /\
  (forall o, polite o s -> exists r s', exec o s = Some (r, s')) /\
  (forall an sz fd, polite (dma_buffer_allocate an sz fd) s ->
     let '(r, out, s') := pcie_ioctl_dma_buffer_allocate an sz fd s in
     match out with
     | Some (id, a) =>
         r = 0 /\ 0 <= id < 32 /\ a = dma_addr an /\
         (exists b, dma_buffer s !! Z.to_nat id = Some b /\ ptr b = 0) /\
         exists p, kmalloc an = Some p /\
           dma_buffer s'
           = <[Z.to_nat id := mk_buf p a sz (if fd then FROM_DEV else TO_DEV)]> (dma_buffer s)
     | None => r < 0 /\ (r = - EMFILE -> forall b, b ∈ dma_buffer s -> ptr b <> 0)
     end) /\
  (forall id, id ∈ map buffer_id (gp_buffer s) -> mapped_as s id false ->
     pcie_ioctl_kernel_buffer_unmap id s = None) /\
  exists s', pcie_device_miscdev_close s = Some s' /\ gp_buffer s' = [] /\
    Forall (fun b => ptr b = 0) (dma_buffer s') /\
    kmem (kernel s') = [] /\ devm (kernel s') = [] /\ dmamaps (kernel s') = [].
Proof.
  intros Hs%session_inv. split; [apply Hs|]. split; [|split; [|split]].
  - intros o Ho. destruct (exec_inv o s Hs Ho) as (r & s' & E & _). eauto.
  - intros an sz fd Hp. pose proof (dma_allocate_inv an sz fd s Hs Hp) as H.
    destruct (pcie_ioctl_dma_buffer_allocate an sz fd s) as [[r out] s']. apply H.
  - intros id. by apply unmap_unmapped.
  - destruct (close_inv s Hs) as (s' & E & _ & H). by exists s'.
Qed.

(** ** What goes wrong outside of that *)

(** A failed mapping: the memory of the buffer is lost. *)
Lemma failed_mapping_leaks :
  exists s', pcie_ioctl_dma_buffer_allocate (mk_answers (Some 64) 0 true) 8 true
    (mk_pdev (replicate 32 zero_buf) [] (mk_kern [] [] [] 0)) = (- EFAULT, None, s') /\
  kmem (kernel s') = [64] /\ Forall (fun b => ptr b = 0) (dma_buffer s').
Proof. eexists. split; [by vm_compute|]. split; [done|]. repeat constructor. Qed.

(** pcie_ioctl_kernel_buffer_free reports success for every id but frees only the
    oldest buffer. *)
Lemma kernel_buffer_free_ignores (g : gp_buf) (l : list gp_buf) (bs : list dma_buf) (k : kern) (id : Z) :
  buffer_id g <> id ->
  pcie_ioctl_kernel_buffer_free id (mk_pdev bs (g :: l) k) = Some (0, mk_pdev bs (g :: l) k).
Proof. intros H. unfold pcie_ioctl_kernel_buffer_free. simpl. by rewrite (proj2 (Z.eqb_neq _ _) H). Qed.

(** A kernel buffer is mapped DMA_TO_DEVICE and unmapped DMA_FROM_DEVICE. *)
Lemma kernel_buffer_unmap_direction (g : gp_buf) (mem dev : list Z) :
  nonzero (dev_addr g) = true ->
  exists s, pcie_ioctl_kernel_buffer_unmap (buffer_id g)
    (mk_pdev [] [g] (mk_kern mem dev [(dev_addr g, gp_size g, TO_DEV)] 0)) = Some (0, s) /\
  wrong_dir (kernel s) = 1%nat.
Proof.
  intros H. unfold pcie_ioctl_kernel_buffer_unmap. simpl. rewrite Z.eqb_refl. simpl.
  unfold dma_unmap_single. simpl. rewrite decide_False.
  2:{ intros [E|?%elem_of_nil]%elem_of_cons; [|done]. congruence. }
  rewrite decide_True by left. simpl. by eexists.
Qed.

(** ** Witness: one DMA buffer *)
Definition demo : pdev :=
  mk_pdev (<[0%nat := mk_buf 64 128 8 FROM_DEV]> (replicate 32 zero_buf)) []
    (mk_kern [64] [] [(128, 8, FROM_DEV)] 0).

Lemma buf_demo_session : session demo.
Proof.
  eapply (session_step _ _ (dma_buffer_allocate (mk_answers (Some 64) 128 false) 8 true));
    [apply session_start| |reflexivity].
  split; [done|]. split.
  - intros b [= <-]. split; [done|]. by intros ?%elem_of_nil.
  - split; [done|]. by intros ?%elem_of_nil.
Qed.

Lemma pcie_buffers_accounted_witness :
  exists s', pcie_device_miscdev_close demo = Some s' /\ kmem (kernel s') = [].
Proof.
  destruct (pcie_buffers_accounted demo buf_demo_session) as (_ & _ & _ & _ & s' & E & _ & _ & H & _).
  by exists s'.
Defined.

End PcieBuf.
