(* ===== verification/Qdma.v ===== *)
(** * The QDMA core of Versal cards (pcie/pcie_qdma.c)

    pcie_qdma_init maps the register windows of the core, clears and programs the
    contexts of its two queues, sets up interrupt vectors and the completion ring and
    enables the engines; pcie_qdma_exit undoes this.  The four interrupt handlers
    signal an eventfd and arm the next interrupt.  Resources are those of
    Lifecycle.v; register writes are logged, and [hw_of] says what the core makes of
    them.  Proved: the error paths give everything back; a successful set-up leaves
    the core in the intended configuration, the bit fields included; what the removal
    leaves behind; and how often the handlers signal. *)
From S2P Require Import Prelude Kernel Lifecycle.

Module Qdma.
Import Kernel Lifecycle.
#[local] Open Scope prog_scope.

(** ** Registers and constants *)
Inductive qreg :=
| ctxt_mask (i : Z)
| ctxt_data (i : Z)
| ctxt_cmd
| vec_qid
| vec_map
| fmap_sel
| c2h_buf_size
| cmpt_ring_size
| c2h_mm_ctrl
| h2c_mm_ctrl
| dma_reset
| dmap_sel_h2c_dsc_pidx_0
| dmap_sel_c2h_dsc_pidx_0
| dmap_sel_h2c_dsc_pidx_1
| dmap_sel_wrb_cidx_1.

#[export] Instance qreg_eq_dec : EqDecision qreg.
Proof. solve_decision. Defined.

(** The windows that are mapped, and the completion ring. *)
Inductive qdma_res :=
| w_ctxt | w_qid2vec | w_c2h_ctrl | w_h2c_ctrl | w_fmap | w_buf_size | w_ring_size | w_ack
| ring_mem.

#[export] Instance qdma_res_eq_dec : EqDecision qdma_res.
Proof. solve_decision. Defined.

Definition QDMA_CTXT_CMD_CLR : Z := 0.
Definition QDMA_CTXT_CMD_WR : Z := 1.
Definition QDMA_CTXT_CMD_INV : Z := 3.
Definition QDMA_CTXT_SELC_DEC_SW_C2H : Z := 0.
Definition QDMA_CTXT_SELC_DEC_SW_H2C : Z := 1.
Definition QDMA_CTXT_SELC_DEC_HW_C2H : Z := 2.
Definition QDMA_CTXT_SELC_DEC_HW_H2C : Z := 3.
Definition QDMA_CTXT_SELC_DEC_CR_C2H : Z := 4.
Definition QDMA_CTXT_SELC_DEC_CR_H2C : Z := 5.
Definition QDMA_CTXT_SELC_WRB : Z := 6.
Definition QDMA_CTXT_SELC_PFTCH : Z := 7.
Definition QDMA_CTXT_BUSY : Z := 1.
Definition QDMA_SW_DESC_CTXT_QEN : Z := 1.
Definition QDMA_SW_DESC_CTXT_BYPASS : Z := Z.shiftl 1 18.
Definition QDMA_SW_DESC_CTXT_IRQ_EN : Z := Z.shiftl 1 21.
Definition QDMA_SW_DESC_CTXT_IS_MM : Z := Z.shiftl 1 31.
Definition QDMA_PFCH_CTXT_BYP : Z := 1.
Definition QDMA_PFCH_CTXT_VALID : Z := Z.shiftl 1 13.
Definition QDMA_CMPT_RING_SZ : Z := 64.
Definition QDMA_CMPT_BUF_SZ : Z := 32768.
Definition QDMA_IRQ_ARM : Z := Z.shiftl 1 16.
Definition QDMA_DMAP_SEL_CMPT_TRIG_USER : Z := Z.shiftl 3 24.
Definition QDMA_DMAP_SEL_CMPT_WRB_EN : Z := Z.shiftl 1 27.
Definition QDMA_DMAP_SEL_CMPT_IRQ_EN : Z := Z.shiftl 1 28.
Definition QDMA_MM_QID : Z := 0.
Definition QDMA_ST_QID : Z := 1.
Definition QDMA_IRQ_VEC_C2H : Z := 0.
Definition QDMA_IRQ_VEC_H2C : Z := 1.
Definition QDMA_IRQ_VEC_C2H_ST : Z := 2.
Definition QDMA_IRQ_VEC_H2C_ST : Z := 3.
Definition DESC_GEN_ID : Z := 3730575360.
Definition ALL_ONES : Z := 4294967295.

(** ** Bit fields *)

(** A C structure of bit fields, from the least significant one: width and value. *)
Fixpoint bit_fields (l : list (Z * Z)) : Z :=
  match l with
  | [] => 0
  | (w, v) :: r => v mod 2 ^ w + 2 ^ w * bit_fields r
  end.

(** The same memory as four 32-bit words. *)
Definition words (x : Z) : list Z := map (fun i => (x / 2 ^ (32 * i)) mod 2 ^ 32) [0; 1; 2; 3].
Definition unwords (l : list Z) : Z := foldr (fun w acc => w + 2 ^ 32 * acc) 0 l.

(** struct qdma_sw_desc_ctxt, the fields that are ever set being arguments. *)
Definition qdma_sw_desc_ctxt (irq_arm qen fcrd_en bypass irq_en : Z) : Z :=
  bit_fields [(16, 0); (1, irq_arm); (15, 0);
              (1, qen); (1, fcrd_en); (1, 0); (1, 0); (8, 0); (4, 0); (2, 0); (1, bypass); (1, 0);
              (1, 0); (1, irq_en); (3, 0); (1, 0); (2, 0); (1, 0); (1, 0); (1, 0); (1, 0); (64, 0)].

(** struct qdma_cmpl_ctxt as pcie_qdma_init fills it. *)
Definition qdma_cmpl_ctxt (cmpt_ring_addr : Z) : Z :=
  let baddr_high_l := Z.land (Z.shiftr cmpt_ring_addr 6) 68719476735 in
  let baddr_high_h := Z.land (Z.shiftr (Z.shiftr cmpt_ring_addr 6) 36) 4194303 in
  bit_fields [(1, 1); (1, 1); (3, 3); (8, 0); (4, 0); (4, 0); (2, 0); (1, 0); (4, 0);
              (36, baddr_high_l); (22, baddr_high_h); (2, 0); (16, 0); (16, 0); (1, 1); (2, 0);
              (1, 0); (1, 0); (1, 1); (2, 0)].

(** ** State: what the driver keeps, and the register writes so far *)
Record qdma := mk_qdma { cmpt_ring_addr : Z; written : list (qreg * Z) }.
Notation L := (prog (lifeE qdma_res qdma)).

Definition iowrite (r : qreg) (v : Z) : L unit :=
  update (fun q => mk_qdma (cmpt_ring_addr q) (written q ++ [(r, v)])).
Definition set_ring (a : Z) : L unit := update (fun q => mk_qdma a (written q)).

(** ** Indirect contexts *)
Definition ctxt_command (op ctxt_sel qid : Z) : Z :=
  Z.lor (Z.lor (Z.shiftl (Z.land ctxt_sel 15) 1) (Z.shiftl op 5)) (Z.shiftl (Z.land qid 2047) 7).

(** for (i = 1; i < 100; ++i): up to 99 readings of the busy bit. *)
Fixpoint poll_busy (n : nat) : L Z :=
  match n with
  | O => Ret 1
  | S n' =>
      let! v := call read_reg in
      if nonzero (Z.land v QDMA_CTXT_BUSY) then poll_busy n' else Ret 0
  end.

Fixpoint write_words (mk : Z -> qreg) (i : Z) (l : list Z) : L unit :=
  match l with
  | [] => Ret tt
  | w :: r => iowrite (mk i) w;;; write_words mk (i + 1) r
  end.

Definition qdma_program_ind_context (mask data : list Z) (ctxt_sel qid : Z) : L Z :=
  write_words ctxt_mask 0 mask;;;
  write_words ctxt_data 0 data;;;
  iowrite ctxt_cmd (ctxt_command QDMA_CTXT_CMD_WR ctxt_sel qid);;;
  poll_busy 99.

Definition qdma_clear_ind_context (ctxt_sel qid : Z) : L Z :=
  iowrite ctxt_cmd (ctxt_command QDMA_CTXT_CMD_CLR ctxt_sel qid);;;
  poll_busy 99.

(** The command word is computed, but not written. *)
Definition qdma_inv_ind_context (ctxt_sel qid : Z) : L Z :=
  let w_val := ctxt_command QDMA_CTXT_CMD_INV ctxt_sel qid in
  poll_busy 99.

(** res |= qdma_clear_ind_context(...), one after the other *)
Fixpoint clear_contexts (res : Z) (l : list (Z * Z)) : L Z :=
  match l with
  | [] => Ret res
  | (sel, qid) :: r =>
      let! x := qdma_clear_ind_context sel qid in clear_contexts (Z.lor res x) r
  end.

Definition to_clear : list (Z * Z) :=
  map (fun sel => (sel, QDMA_MM_QID))
    [QDMA_CTXT_SELC_DEC_SW_C2H; QDMA_CTXT_SELC_DEC_HW_C2H; QDMA_CTXT_SELC_DEC_CR_C2H;
     QDMA_CTXT_SELC_DEC_SW_H2C; QDMA_CTXT_SELC_DEC_HW_H2C; QDMA_CTXT_SELC_DEC_CR_H2C] ++
  map (fun sel => (sel, QDMA_ST_QID))
    [QDMA_CTXT_SELC_DEC_SW_C2H; QDMA_CTXT_SELC_DEC_HW_C2H; QDMA_CTXT_SELC_DEC_CR_C2H;
     QDMA_CTXT_SELC_DEC_SW_H2C; QDMA_CTXT_SELC_DEC_HW_H2C; QDMA_CTXT_SELC_DEC_CR_H2C;
     QDMA_CTXT_SELC_PFTCH; QDMA_CTXT_SELC_WRB].

(** ** The labels at the end of pcie_qdma_init *)
Definition unmap (w : qdma_res) : L unit := call (release w).
Definition fail_qid2vecregs (res : Z) : L Z := unmap w_ctxt;;; Ret res.
Definition fail_c2hmmctrl (res : Z) : L Z := unmap w_qid2vec;;; fail_qid2vecregs res.
Definition fail_h2cmmctrl (res : Z) : L Z := unmap w_c2h_ctrl;;; fail_c2hmmctrl res.
Definition fail_fmap_remap (res : Z) : L Z := unmap w_h2c_ctrl;;; fail_h2cmmctrl res.
Definition fail_bufsize_remap (res : Z) : L Z := unmap w_fmap;;; fail_fmap_remap res.
Definition fail_rngsize_remap (res : Z) : L Z := unmap w_buf_size;;; fail_bufsize_remap res.
Definition fail_ackregs (res : Z) : L Z := unmap w_ring_size;;; fail_rngsize_remap res.
Definition fail_cmptring_alloc (res : Z) : L Z := unmap w_ack;;; fail_ackregs res.
Definition fail_ctxtclear (res : Z) : L Z := call (release ring_mem);;; fail_cmptring_alloc res.
Definition fail_swh2c_mm (res : Z) : L Z :=
  qdma_inv_ind_context QDMA_CTXT_SELC_DEC_SW_C2H QDMA_MM_QID;;; fail_ctxtclear res.
Definition fail_swc2h_st (res : Z) : L Z :=
  qdma_inv_ind_context QDMA_CTXT_SELC_DEC_SW_H2C QDMA_MM_QID;;; fail_swh2c_mm res.
Definition fail_swh2c_st (res : Z) : L Z :=
  qdma_inv_ind_context QDMA_CTXT_SELC_DEC_SW_C2H QDMA_ST_QID;;; fail_swc2h_st res.
Definition fail_prftch_st (res : Z) : L Z :=
  qdma_inv_ind_context QDMA_CTXT_SELC_DEC_SW_H2C QDMA_ST_QID;;; fail_swh2c_st res.
Definition fail_cmpt_st (res : Z) : L Z :=
  qdma_inv_ind_context QDMA_CTXT_SELC_PFTCH QDMA_ST_QID;;; fail_prftch_st res.

(** ** The parts of pcie_qdma_init *)
Section Init.
(** pci_resource_len of BAR 2, and the bus address dma_alloc_coherent gives. *)
Variable qdma_bar_len ring_addr : Z.

Definition mm_ctxt : list Z :=
  [QDMA_IRQ_ARM;
   Z.lor (Z.lor (Z.lor QDMA_SW_DESC_CTXT_QEN QDMA_SW_DESC_CTXT_BYPASS) QDMA_SW_DESC_CTXT_IRQ_EN)
     QDMA_SW_DESC_CTXT_IS_MM; 0; 0].
Definition full_mask : list Z := [ALL_ONES; ALL_ONES; ALL_ONES; ALL_ONES].

(** From the vector table to the return. *)
Definition enable_qdma : L Z :=
  iowrite vec_qid QDMA_MM_QID;;;
  iowrite vec_map (Z.lor QDMA_IRQ_VEC_C2H (Z.shiftl QDMA_IRQ_VEC_H2C 9));;;
  iowrite vec_qid QDMA_ST_QID;;;
  iowrite vec_map (Z.lor QDMA_IRQ_VEC_C2H_ST (Z.shiftl QDMA_IRQ_VEC_H2C_ST 9));;;
  iowrite fmap_sel (Z.shiftl 2 11);;;
  iowrite c2h_mm_ctrl 1;;;
  iowrite h2c_mm_ctrl 1;;;
  iowrite dmap_sel_wrb_cidx_1
    (Z.lor (Z.lor QDMA_DMAP_SEL_CMPT_TRIG_USER QDMA_DMAP_SEL_CMPT_IRQ_EN) QDMA_DMAP_SEL_CMPT_WRB_EN);;;
  unmap w_ring_size;;; unmap w_buf_size;;; unmap w_fmap;;; unmap w_h2c_ctrl;;; unmap w_c2h_ctrl;;;
  unmap w_qid2vec;;; unmap w_ctxt;;;
  Ret 0.

(** From the clearing of the contexts on. *)
Definition program_contexts : L Z :=
  let! res := clear_contexts 0 to_clear in
  if nonzero res then fail_ctxtclear (- EACCES) else
  let! x := qdma_program_ind_context full_mask mm_ctxt QDMA_CTXT_SELC_DEC_SW_C2H QDMA_MM_QID in
  if nonzero x then fail_ctxtclear (- EACCES) else
  let! x := qdma_program_ind_context full_mask mm_ctxt QDMA_CTXT_SELC_DEC_SW_H2C QDMA_MM_QID in
  if nonzero x then fail_swh2c_mm (- EACCES) else
  iowrite c2h_buf_size QDMA_CMPT_BUF_SZ;;;
  iowrite cmpt_ring_size QDMA_CMPT_RING_SZ;;;
  let! x := qdma_program_ind_context full_mask (words (qdma_sw_desc_ctxt 0 1 1 1 0))
              QDMA_CTXT_SELC_DEC_SW_C2H QDMA_ST_QID in
  if nonzero x then fail_swc2h_st (- EACCES) else
  let! x := qdma_program_ind_context full_mask (words (qdma_sw_desc_ctxt 1 1 0 1 1))
              QDMA_CTXT_SELC_DEC_SW_H2C QDMA_ST_QID in
  if nonzero x then fail_swh2c_st (- EACCES) else
  let! x := qdma_program_ind_context [ALL_ONES; ALL_ONES; 0; 0]
              [QDMA_PFCH_CTXT_BYP; QDMA_PFCH_CTXT_VALID; 0; 0] QDMA_CTXT_SELC_PFTCH QDMA_ST_QID in
  if nonzero x then fail_prftch_st (- EACCES) else
  let! x := qdma_program_ind_context full_mask (words (qdma_cmpl_ctxt ring_addr))
              QDMA_CTXT_SELC_WRB QDMA_ST_QID in
  if nonzero x then fail_cmpt_st (- EACCES) else
  enable_qdma.

Definition pcie_qdma_init : L Z :=
  let! id := call read_reg in
  if negb (Z.land id ALL_ONES =? DESC_GEN_ID) then Ret (- ENODEV) else
  iowrite dma_reset 1;;;
  if qdma_bar_len <? 98320 then Ret (- ENODEV) else
  let! ok := call (acquire w_ctxt) in
  if negb ok then Ret (- EFAULT) else
  let! ok := call (acquire w_qid2vec) in
  if negb ok then fail_qid2vecregs (- EFAULT) else
  let! ok := call (acquire w_c2h_ctrl) in
  if negb ok then fail_c2hmmctrl (- EFAULT) else
  let! ok := call (acquire w_h2c_ctrl) in
  if negb ok then fail_h2cmmctrl (- EFAULT) else
  let! ok := call (acquire w_fmap) in
  if negb ok then fail_fmap_remap (- EFAULT) else
  let! ok := call (acquire w_buf_size) in
  if negb ok then fail_bufsize_remap (- EFAULT) else
  let! ok := call (acquire w_ring_size) in
  if negb ok then fail_rngsize_remap (- EFAULT) else
  let! ok := call (acquire w_ack) in
  if negb ok then fail_ackregs (- EFAULT) else
  let! ok := call (acquire ring_mem) in
  if negb ok then fail_cmptring_alloc (- ENOMEM) else
  set_ring ring_addr;;;
  program_contexts.
End Init.

(** ** pcie_qdma_exit *)

(** A control register is set to zero through a window of its own. *)
Definition disable (w : qdma_res) (r : qreg) (res : Z) : L Z :=
  let! ok := call (acquire w) in
  if negb ok then Ret (- EFAULT) else
  iowrite r 0;;; unmap w;;; Ret res.

#[local] Arguments disable : simpl never.

Definition pcie_qdma_exit : L Z :=
  let! q := call load in
  (if nonzero (cmpt_ring_addr q) then call (release ring_mem);;; set_ring 0 else Ret tt);;;
  let! id := call read_reg in
  if negb (Z.land id ALL_ONES =? DESC_GEN_ID) then Ret (- ENODEV) else
  unmap w_ack;;;
  let! res := disable w_h2c_ctrl h2c_mm_ctrl 0 in
  let! res := disable w_c2h_ctrl c2h_mm_ctrl res in
  let! ok := call (acquire w_ctxt) in
  if negb ok then Ret (- EFAULT) else
  let! r := qdma_inv_ind_context QDMA_CTXT_SELC_DEC_SW_C2H QDMA_MM_QID in
  let! r' := qdma_inv_ind_context QDMA_CTXT_SELC_DEC_SW_H2C QDMA_MM_QID in
  let res := if nonzero (Z.lor r r') then - EACCES else res in
  unmap w_ctxt;;;
  Ret res.

(** ** Interrupt handlers *)

(** [eventfd]: whether one is registered.  The number of signals, and the write to
    the queue registers. *)
Definition signals (eventfd : bool) (n : Z) : Z := if eventfd then n else 0.
Definition qdma_intr_handler_read (eventfd : bool) : Z * (qreg * Z) :=
  (signals eventfd 1, (dmap_sel_c2h_dsc_pidx_0, QDMA_IRQ_ARM)).
Definition qdma_intr_handler_write (eventfd : bool) : Z * (qreg * Z) :=
  (signals eventfd 1, (dmap_sel_h2c_dsc_pidx_0, QDMA_IRQ_ARM)).
Definition qdma_intr_handler_h2c_stream (eventfd : bool) : Z * (qreg * Z) :=
  (signals eventfd 1, (dmap_sel_h2c_dsc_pidx_1, QDMA_IRQ_ARM)).

(** The status entry is the last one of the ring: the indices of producer and
    consumer, 16 bits each. *)
Definition qdma_intr_handler_c2h_stream (eventfd : bool) (cmpl_stat : Z) : Z * (qreg * Z) :=
  let pidx := cmpl_stat mod 2 ^ 16 in
  let cidx := (cmpl_stat / 2 ^ 16) mod 2 ^ 16 in
  let idx_diff := if pidx <? cidx then u32 (u32 (pidx + QDMA_CMPT_RING_SZ - 1) - cidx)
                  else u32 (pidx - cidx) in
  (signals eventfd idx_diff,
   (dmap_sel_wrb_cidx_1,
    Z.lor (Z.lor (Z.lor QDMA_DMAP_SEL_CMPT_TRIG_USER QDMA_DMAP_SEL_CMPT_IRQ_EN)
             QDMA_DMAP_SEL_CMPT_WRB_EN) pidx)).

(** ** What the core makes of the writes *)
Record qdma_hw := mk_hw {
  h_mask : list Z;
  h_data : list Z;
  contexts : gmap (Z * Z) (list Z);
  h_qid : Z;
  vectors : gmap Z Z;
  c2h_on : bool;
  h2c_on : bool;
  ring_size : Z
}.

(** A write command replaces the masked bits of a context. *)
Definition merge (old mask data : Z) : Z := Z.lor (Z.land old (Z.lnot mask)) (Z.land data mask).

Definition ctxt_exec (v : Z) (h : qdma_hw) : gmap (Z * Z) (list Z) :=
  let op := Z.land (Z.shiftr v 5) 3 in
  let k := (Z.land (Z.shiftr v 1) 15, Z.land (Z.shiftr v 7) 2047) in
  if op =? QDMA_CTXT_CMD_CLR then <[k := [0; 0; 0; 0]]> (contexts h)
  else if op =? QDMA_CTXT_CMD_WR then
    let old := default [0; 0; 0; 0] (contexts h !! k) in
    <[k := zip_with (fun f d => f d) (zip_with merge old (h_mask h)) (h_data h)]> (contexts h)
  else if op =? QDMA_CTXT_CMD_INV then delete k (contexts h)
  else contexts h.

Definition hw_write (h : qdma_hw) (w : qreg * Z) : qdma_hw :=
  let (r, v) := w in
  match r with
  | ctxt_mask i => mk_hw (<[Z.to_nat i := v]> (h_mask h)) (h_data h) (contexts h) (h_qid h) (vectors h)
                     (c2h_on h) (h2c_on h) (ring_size h)
  | ctxt_data i => mk_hw (h_mask h) (<[Z.to_nat i := v]> (h_data h)) (contexts h) (h_qid h) (vectors h)
                     (c2h_on h) (h2c_on h) (ring_size h)
  | ctxt_cmd => mk_hw (h_mask h) (h_data h) (ctxt_exec v h) (h_qid h) (vectors h)
                  (c2h_on h) (h2c_on h) (ring_size h)
  | vec_qid => mk_hw (h_mask h) (h_data h) (contexts h) v (vectors h) (c2h_on h) (h2c_on h) (ring_size h)
  | vec_map => mk_hw (h_mask h) (h_data h) (contexts h) (h_qid h) (<[h_qid h := v]> (vectors h))
                 (c2h_on h) (h2c_on h) (ring_size h)
  | cmpt_ring_size => mk_hw (h_mask h) (h_data h) (contexts h) (h_qid h) (vectors h)
                        (c2h_on h) (h2c_on h) v
  | c2h_mm_ctrl => mk_hw (h_mask h) (h_data h) (contexts h) (h_qid h) (vectors h)
                     (Z.testbit v 0) (h2c_on h) (ring_size h)
  | h2c_mm_ctrl => mk_hw (h_mask h) (h_data h) (contexts h) (h_qid h) (vectors h)
                     (c2h_on h) (Z.testbit v 0) (ring_size h)
  | _ => h
  end.

Definition hw_of (h : qdma_hw) (l : list (qreg * Z)) : qdma_hw := foldl hw_write h l.

(** ** Specifications *)
Section Spec.
Variable may_fail : qdma_res -> bool.
Notation st := (life qdma_res qdma).
Notation M := (life_model (F := qdma) may_fail).

(** The state after the writes [l]. *)
Definition logged (s : st) (l : list (qreg * Z)) : st :=
  mk_life (held s) (mk_qdma (cmpt_ring_addr (state s)) (written (state s) ++ l)).

Lemma logged_logged (s : st) (l l' : list (qreg * Z)) : logged (logged s l) l' = logged s (l ++ l').
Proof. unfold logged. simpl. by rewrite <- app_assoc. Qed.

Lemma logged_nil (s : st) : logged s [] = s.
Proof. destruct s as [h []]. unfold logged. simpl. by rewrite app_nil_r. Qed.

Lemma iowrite_spec (r : qreg) (v : Z) (s : st) : wp M (iowrite r v) s (fun _ s' => s' = logged s [(r, v)]).
Proof. by apply wp_update. Qed.

Lemma poll_busy_spec (n : nat) (s : st) : wp M (poll_busy n) s (fun r s' => (r = 0 \/ r = 1) /\ s' = s).
Proof.
  induction n as [|n IH]; simpl; [apply wp_ret; auto|]. apply wp_bind, wp_read_reg. intros v.
  destruct (nonzero _); [done|]. apply wp_ret. auto.
Qed.

Fixpoint word_writes (mk : Z -> qreg) (i : Z) (l : list Z) : list (qreg * Z) :=
  match l with [] => [] | w :: r => (mk i, w) :: word_writes mk (i + 1) r end.

Lemma write_words_spec (mk : Z -> qreg) (l : list Z) (i : Z) (s : st) :
  wp M (write_words mk i l) s (fun _ s' => s' = logged s (word_writes mk i l)).
Proof.
  revert i s. induction l as [|w l IH]; intros i s; simpl; [apply wp_ret; by rewrite logged_nil|].
  wp_seq iowrite_spec. intros [] s1 ->. eapply wp_mono; [apply IH|]. intros [] s2 ->.
  by rewrite logged_logged.
Qed.

Definition program_writes (mask data : list Z) (sel qid : Z) : list (qreg * Z) :=
  word_writes ctxt_mask 0 mask ++ word_writes ctxt_data 0 data ++
  [(ctxt_cmd, ctxt_command QDMA_CTXT_CMD_WR sel qid)].

Lemma program_spec (mask data : list Z) (sel qid : Z) (s : st) :
  wp M (qdma_program_ind_context mask data sel qid) s (fun r s' =>
    (r = 0 \/ r = 1) /\ s' = logged s (program_writes mask data sel qid)).
Proof.
  wp_seq write_words_spec. intros [] s1 ->. wp_seq write_words_spec. intros [] s2 ->.
  wp_seq iowrite_spec. intros [] s3 ->. rewrite !logged_logged. apply poll_busy_spec.
Qed.

Lemma inv_spec (sel qid : Z) (s : st) :
  wp M (qdma_inv_ind_context sel qid) s (fun r s' => (r = 0 \/ r = 1) /\ s' = s).
Proof. apply poll_busy_spec. Qed.

Definition clear_writes (l : list (Z * Z)) : list (qreg * Z) :=
  map (fun '(sel, qid) => (ctxt_cmd, ctxt_command QDMA_CTXT_CMD_CLR sel qid)) l.

Lemma clear_contexts_spec (l : list (Z * Z)) (res : Z) (s : st) :
  res = 0 \/ res = 1 ->
  wp M (clear_contexts res l) s (fun r s' => (r = 0 \/ r = 1) /\ s' = logged s (clear_writes l)).
Proof.
  revert res s. induction l as [|[sel qid] l IH]; intros res s Hr; simpl; [apply wp_ret; by rewrite logged_nil|].
  apply wp_bind. wp_seq iowrite_spec. intros [] s1 ->. eapply wp_mono; [apply poll_busy_spec|].
  intros r s2 [Hr2 ->]. eapply wp_mono; [apply IH|].
  - destruct Hr as [->| ->], Hr2 as [->| ->]; simpl; auto.
  - intros r' s3 [Hr3 ->]. by rewrite logged_logged.
Qed.

(** The error paths, from the windows and the ring. *)
Definition windows : list qdma_res :=
  [w_ack; w_ring_size; w_buf_size; w_fmap; w_h2c_ctrl; w_c2h_ctrl; w_qid2vec; w_ctxt].

Lemma fail_ctxtclear_spec (res : Z) (h : list qdma_res) (q : qdma) :
  wp M (fail_ctxtclear res) (mk_life (ring_mem :: windows ++ h) q) (fun r s' => r = res /\ held s' = h).
Proof.
  unfold fail_ctxtclear, windows. repeat first [life_step | progress unfold unmap, fail_cmptring_alloc,
    fail_ackregs, fail_rngsize_remap, fail_bufsize_remap, fail_fmap_remap, fail_h2cmmctrl,
    fail_c2hmmctrl, fail_qid2vecregs]. done.
Qed.

Lemma fail_inv_spec (sel qid : Z) (s : st) (p : L Z) (Q : Z -> st -> Prop) :
  wp M p s Q -> wp M (qdma_inv_ind_context sel qid;;; p) s Q.
Proof. intros H. wp_seq inv_spec. by intros r s1 [_ ->]. Qed.

(** What a successful set-up writes after the reset. *)
Definition context_writes (ring_addr : Z) : list (qreg * Z) :=
  clear_writes to_clear ++
  program_writes full_mask mm_ctxt QDMA_CTXT_SELC_DEC_SW_C2H QDMA_MM_QID ++
  program_writes full_mask mm_ctxt QDMA_CTXT_SELC_DEC_SW_H2C QDMA_MM_QID ++
  [(c2h_buf_size, QDMA_CMPT_BUF_SZ)] ++ [(cmpt_ring_size, QDMA_CMPT_RING_SZ)] ++
  program_writes full_mask (words (qdma_sw_desc_ctxt 0 1 1 1 0)) QDMA_CTXT_SELC_DEC_SW_C2H QDMA_ST_QID ++
  program_writes full_mask (words (qdma_sw_desc_ctxt 1 1 0 1 1)) QDMA_CTXT_SELC_DEC_SW_H2C QDMA_ST_QID ++
  program_writes [ALL_ONES; ALL_ONES; 0; 0] [QDMA_PFCH_CTXT_BYP; QDMA_PFCH_CTXT_VALID; 0; 0]
    QDMA_CTXT_SELC_PFTCH QDMA_ST_QID ++
  program_writes full_mask (words (qdma_cmpl_ctxt ring_addr)) QDMA_CTXT_SELC_WRB QDMA_ST_QID.

Definition enable_writes : list (qreg * Z) :=
  [(vec_qid, 0); (vec_map, 512); (vec_qid, 1); (vec_map, 1538); (fmap_sel, 4096);
   (c2h_mm_ctrl, 1); (h2c_mm_ctrl, 1); (dmap_sel_wrb_cidx_1, 452984832)].

Lemma enable_spec (h : list qdma_res) (q : qdma) :
  wp M enable_qdma (mk_life (ring_mem :: windows ++ h) q) (fun r s' =>
    r = 0 /\ s' = logged (mk_life (ring_mem :: w_ack :: h) q) enable_writes).
Proof.
  unfold enable_qdma, windows.
  do 8 (wp_seq iowrite_spec; intros [] ? ->; rewrite ?logged_logged).
  unfold logged. repeat first [life_step | progress unfold unmap]. done.
Qed.

Ltac q_undo :=
  repeat apply fail_inv_spec;
  eapply wp_mono; [apply fail_ctxtclear_spec|]; intros ? ? [-> ?]; by right.
Ltac q_program :=
  wp_seq program_spec; intros ? ? [[->| ->] ->];
  [ change (nonzero 0) with false; cbv iota; rewrite ?logged_logged
  | change (nonzero 1) with true; cbv iota; q_undo ].

Lemma program_contexts_spec (ring_addr : Z) (h : list qdma_res) (q : qdma) :
  wp M (program_contexts ring_addr) (mk_life (ring_mem :: windows ++ h) q) (fun r s' =>
    (r = 0 /\ s' = logged (mk_life (ring_mem :: w_ack :: h) q) (context_writes ring_addr ++ enable_writes)) \/
    (r < 0 /\ held s' = h)).
Proof.
  unfold program_contexts. wp_seq clear_contexts_spec; [by left|]. intros ? ? [[->| ->] ->];
  [ change (nonzero 0) with false; cbv iota | change (nonzero 1) with true; cbv iota; q_undo ].
  q_program. q_program.
  do 2 (wp_seq iowrite_spec; intros [] ? ->; rewrite ?logged_logged).
  q_program. q_program. q_program. q_program.
  unfold logged at 1. eapply wp_mono; [apply enable_spec|]. intros r s' [-> ->]. left. split; [done|].
  unfold logged, context_writes. simpl. by rewrite <- !app_assoc.
Qed.

Lemma qdma_init_spec (qdma_bar_len ring_addr : Z) (s : st) :
  wp M (pcie_qdma_init qdma_bar_len ring_addr) s (fun r s' =>
    (r = 0 /\ held s' = ring_mem :: w_ack :: held s /\ cmpt_ring_addr (state s') = ring_addr /\
     written (state s') = written (state s) ++ (dma_reset, 1) :: context_writes ring_addr ++ enable_writes) \/
    (r < 0 /\ held s' = held s)).
Proof.
  destruct s as [h [a w]]. unfold pcie_qdma_init. apply wp_bind, wp_read_reg. intros id.
  destruct (negb _); [apply wp_ret; by right|]. wp_seq iowrite_spec. intros [] ? ->.
  destruct (qdma_bar_len <? 98320); [apply wp_ret; by right|]. unfold logged. simpl.
  repeat first [life_step | progress unfold unmap, fail_cmptring_alloc, fail_ackregs, fail_rngsize_remap,
    fail_bufsize_remap, fail_fmap_remap, fail_h2cmmctrl, fail_c2hmmctrl, fail_qid2vecregs, set_ring].
  all: try (by right).
  eapply wp_mono; [apply program_contexts_spec|]. intros r s' [[-> ->]|[Hr Hh]]; [left|by right].
  split; [done|]. split; [done|]. split; [done|]. simpl. by rewrite <- app_assoc.
Qed.

Lemma disable_spec (w : qdma_res) (r : qreg) (res : Z) (s : st) :
  wp M (disable w r res) s (fun x s' =>
    (x = res /\ s' = logged s [(r, 0)]) \/ (x = - EFAULT /\ may_fail w = true /\ s' = s)).
Proof.
  destruct s as [h q]. apply wp_bind, wp_acquire; [|intros Hf; by right].
  cbn [negb]. cbv iota. wp_seq iowrite_spec. intros [] ? ->. apply wp_bind, wp_release; [by in_held|].
  apply wp_ret. left. split; [done|]. simpl. by rewrite decide_True by done.
Qed.

(** The removal: the ring goes first; then, unless the descriptor generator does not
    answer, the registers. *)
Definition removed (h : list qdma_res) (s : st) (ret : Z) (s' : st) : Prop :=
  (ret = - ENODEV /\ held s' = w_ack :: h /\ written (state s') = written (state s)) \/
  (held s' = h /\ exists l,
     written (state s') = written (state s) ++ l /\
     ((forall w, may_fail w = false) -> l = [(h2c_mm_ctrl, 0); (c2h_mm_ctrl, 0)]) /\
     Forall (fun x => x.1 <> ctxt_cmd) l).

Lemma qdma_exit_spec (s : st) (h : list qdma_res) :
  cmpt_ring_addr (state s) <> 0 -> held s = ring_mem :: w_ack :: h ->
  wp M pcie_qdma_exit s (fun ret s' => cmpt_ring_addr (state s') = 0 /\ removed h s ret s').
Proof.
  destruct s as [h0 [a w]]. simpl. intros Ha ->. unfold pcie_qdma_exit. apply wp_bind, wp_load. simpl.
  unfold nonzero at 1. rewrite (proj2 (Z.eqb_neq a 0)) by done. cbn [negb]. cbv iota.
  unfold set_ring. repeat life_step. simpl.
  destruct (negb _); [apply wp_ret; split; [done|]; by left|]. unfold unmap at 1. repeat life_step. simpl.
  eapply wp_mono; [apply disable_spec|]. intros r1 s1 H1. wp_seq disable_spec. intros r2 s2 H2.
  assert (exists l, s2 = logged (mk_life h (mk_qdma 0 w)) l /\
    ((forall w, may_fail w = false) -> l = [(h2c_mm_ctrl, 0); (c2h_mm_ctrl, 0)]) /\
    Forall (fun x => x.1 <> ctxt_cmd) l) as (l & -> & Hl & Hn).
  { destruct H1 as [[_ ->]|(_ & Hf & ->)], H2 as [[_ ->]|(_ & Hf2 & ->)].
    - exists [(h2c_mm_ctrl, 0); (c2h_mm_ctrl, 0)]. rewrite logged_logged. repeat constructor; done.
    - exists [(h2c_mm_ctrl, 0)]. split; [done|]. split; [by intros E; rewrite E in Hf2|by repeat constructor].
    - exists [(c2h_mm_ctrl, 0)]. split; [done|]. split; [by intros E; rewrite E in Hf|by repeat constructor].
    - exists []. rewrite logged_nil. split; [done|]. split; [by intros E; rewrite E in Hf|done]. }
  unfold logged. simpl. apply wp_bind, wp_acquire.
  2:{ intros _. apply wp_ret. split; [done|]. right. split; [done|]. by exists l. }
  cbn [negb]. cbv iota. wp_seq inv_spec. intros x ? [_ ->]. wp_seq inv_spec. intros y ? [_ ->].
  unfold unmap. repeat life_step. split; [done|]. right. split; [done|]. by exists l.
Qed.
End Spec.

(** ** The configuration of the core *)

(** A context as a number of 128 bits. *)
Definition ctxt (h : qdma_hw) (sel qid : Z) : Z := unwords (default [] (contexts h !! (sel, qid))).

(** Fields of a software descriptor context. *)
Definition armed (c : Z) : bool := Z.testbit c 16.
Definition enabled (c : Z) : bool := Z.testbit c 32.
Definition credits (c : Z) : bool := Z.testbit c 33.
Definition bypassed (c : Z) : bool := Z.testbit c 50.
Definition interrupts (c : Z) : bool := Z.testbit c 53.
Definition memory_mapped (c : Z) : bool := Z.testbit c 63.

(** The memory mapped queue in both directions, the stream queue in both directions,
    prefetching and completions of the stream, interrupt vectors, engines. *)
Record configured (ring_addr : Z) (h : qdma_hw) : Prop := {
  q_mm sel : sel = QDMA_CTXT_SELC_DEC_SW_C2H \/ sel = QDMA_CTXT_SELC_DEC_SW_H2C ->
    let c := ctxt h sel QDMA_MM_QID in
    (armed c, enabled c, bypassed c, interrupts c, memory_mapped c) = (true, true, true, true, true);
  q_st_c2h : let c := ctxt h QDMA_CTXT_SELC_DEC_SW_C2H QDMA_ST_QID in
    (enabled c, credits c, bypassed c, interrupts c, memory_mapped c) = (true, true, true, false, false);
  q_st_h2c : let c := ctxt h QDMA_CTXT_SELC_DEC_SW_H2C QDMA_ST_QID in
    (armed c, enabled c, bypassed c, interrupts c, memory_mapped c) = (true, true, true, true, false);
  q_prefetch : let c := ctxt h QDMA_CTXT_SELC_PFTCH QDMA_ST_QID in Z.testbit c 0 && Z.testbit c 45 = true;
  q_completion : let c := ctxt h QDMA_CTXT_SELC_WRB QDMA_ST_QID in
    Z.testbit c 0 && Z.testbit c 1 && Z.testbit c 120 && Z.testbit c 125 = true /\
    (c / 2 ^ 28) mod 2 ^ 58 * 2 ^ 6 = ring_addr;
  q_vectors : vectors h !! QDMA_MM_QID = Some (QDMA_IRQ_VEC_C2H + 512 * QDMA_IRQ_VEC_H2C) /\
    vectors h !! QDMA_ST_QID = Some (QDMA_IRQ_VEC_C2H_ST + 512 * QDMA_IRQ_VEC_H2C_ST);
  q_engines : c2h_on h = true /\ h2c_on h = true /\ ring_size h = QDMA_CMPT_RING_SZ
}.

(** The command register decodes to what was encoded. *)
Definition decodes (v op sel qid : Z) : Prop :=
  Z.land (Z.shiftr v 5) 3 = op /\ Z.land (Z.shiftr v 1) 15 = sel /\ Z.land (Z.shiftr v 7) 2047 = qid.

Definition zeroed : list Z := [0; 0; 0; 0].

Lemma hw_program (h : qdma_hw) (m0 m1 m2 m3 d0 d1 d2 d3 sel qid : Z) :
  length (h_mask h) = 4%nat -> length (h_data h) = 4%nat -> contexts h !! (sel, qid) = Some zeroed ->
  decodes (ctxt_command QDMA_CTXT_CMD_WR sel qid) QDMA_CTXT_CMD_WR sel qid ->
  hw_of h (program_writes [m0; m1; m2; m3] [d0; d1; d2; d3] sel qid)
  = mk_hw [m0; m1; m2; m3] [d0; d1; d2; d3]
      (<[(sel, qid) := [merge 0 m0 d0; merge 0 m1 d1; merge 0 m2 d2; merge 0 m3 d3]]> (contexts h))
      (h_qid h) (vectors h) (c2h_on h) (h2c_on h) (ring_size h).
Proof.
  intros Hm Hd Hc (E1 & E2 & E3). destruct h as [mk dt cs hq ve co ho rs]. simpl in *.
  destruct mk as [|? [|? [|? [|? []]]]]; try done. destruct dt as [|? [|? [|? [|? []]]]]; try done.
  unfold program_writes, hw_of. cbn [word_writes app foldl hw_write h_mask h_data contexts h_qid vectors
    c2h_on h2c_on ring_size]. f_equal. unfold ctxt_exec. rewrite E1, E2, E3. simpl. by rewrite Hc.
Qed.

Lemma lookup_foldl_insert `{Countable K} {A} (v : A) (l : list K) (m : gmap K A) (k : K) :
  k ∈ l -> foldl (fun m k => <[k := v]> m) m l !! k = Some v.
Proof.
  revert m. assert (forall l (m : gmap K A), m !! k = Some v ->
    foldl (fun m k => <[k := v]> m) m l !! k = Some v) as Hkeep.
  { clear l. intros l. induction l as [|x l IH]; intros m Hm; simpl; [done|]. apply IH.
    destruct (decide (x = k)) as [->|]; [by rewrite lookup_insert_eq|by rewrite lookup_insert_ne]. }
  induction l as [|x l IH]; intros m Hk; [by apply elem_of_nil in Hk|].
  apply elem_of_cons in Hk as [->|Hk]; simpl; [|by apply IH]. apply Hkeep. by rewrite lookup_insert_eq.
Qed.

Lemma hw_clear (h : qdma_hw) :
  hw_of h (clear_writes to_clear) = mk_hw (h_mask h) (h_data h)
    (foldl (fun m k => <[k := zeroed]> m) (contexts h) to_clear)
    (h_qid h) (vectors h) (c2h_on h) (h2c_on h) (ring_size h).
Proof. by destruct h. Qed.

Lemma merge_full (d : Z) : 0 <= d < 2 ^ 32 -> merge 0 ALL_ONES d = d.
Proof.
  intros Hd. unfold merge. rewrite Z.land_0_l, Z.lor_0_l. change ALL_ONES with (Z.ones 32).
  rewrite Z.land_ones by lia. by apply Z.mod_small.
Qed.

(** Words and back. *)
Lemma unwords_words (x : Z) : 0 <= x < 2 ^ 128 -> unwords (words x) = x.
Proof. intros Hx. unfold unwords, words. simpl. dlia. Qed.

Lemma words_bounds (x i : Z) : 0 <= (x / 2 ^ (32 * i)) mod 2 ^ 32 < 2 ^ 32.
Proof. apply Z.mod_pos_bound. lia. Qed.

(** The completion context in closed form: the address keeps its place and value. *)
Lemma cmpl_value (a : Z) :
  0 <= a < 2 ^ 64 ->
  qdma_cmpl_ctxt a = 15 + 2 ^ 28 * (a / 2 ^ 6) + 2 ^ 120 + 2 ^ 125.
Proof.
  intros Ha. unfold qdma_cmpl_ctxt. change 68719476735 with (Z.ones 36). change 4194303 with (Z.ones 22).
  rewrite !Z.land_ones, !Z.shiftr_div_pow2 by lia. unfold bit_fields.
  set (b := a / 2 ^ 6). assert (0 <= b < 2 ^ 58) as Hb by (unfold b; dlia). clearbody b. clear Ha.
  rewrite Z.mod_mod by lia. rewrite (Z.mod_small (b / 2 ^ 36)) by dlia. rewrite (Z.mod_small (b / 2 ^ 36)) by dlia.
  rewrite !(Z.mod_small 0), !(Z.mod_small 1), !(Z.mod_small 3) by lia.
  assert (b = b mod 2 ^ 36 + 2 ^ 36 * (b / 2 ^ 36)) as Eb by dlia.
  revert Eb. generalize (b mod 2 ^ 36) (b / 2 ^ 36). intros l g ->. lia.
Qed.

Lemma cmpl_fields (a : Z) :
  0 <= a < 2 ^ 64 -> a mod 64 = 0 ->
  let c := qdma_cmpl_ctxt a in
  0 <= c < 2 ^ 128 /\
  Z.testbit c 0 && Z.testbit c 1 && Z.testbit c 120 && Z.testbit c 125 = true /\
  (c / 2 ^ 28) mod 2 ^ 58 * 2 ^ 6 = a.
Proof.
  intros Ha Hal c. unfold c. rewrite cmpl_value by done. clear c.
  assert (a = 64 * (a / 2 ^ 6)) as Ea by dlia. revert Ea. generalize (a / 2 ^ 6). intros b ->.
  assert (0 <= b < 2 ^ 58) as Hb by lia. clear Ha Hal.
  split; [lia|]. split; [|dlia].
  rewrite !Z.testbit_eqb by lia. rewrite !andb_true_iff, !Z.eqb_eq. repeat split; dlia.
Qed.

Lemma hw_app (h : qdma_hw) (l l' : list (qreg * Z)) : hw_of h (l ++ l') = hw_of (hw_of h l) l'.
Proof. apply foldl_app. Qed.

Lemma ctxt_full (x : Z) :
  0 <= x < 2 ^ 128 ->
  unwords (map (merge 0 ALL_ONES) (words x)) = x.
Proof.
  intros Hx. rewrite <- (unwords_words x) at 2 by done. unfold words. simpl map.
  rewrite !merge_full by (apply words_bounds || (apply Z.mod_pos_bound; lia)). done.
Qed.

(** A core ready to be programmed, with the contexts [cs]. *)
Definition ready (h : qdma_hw) (cs : gmap (Z * Z) (list Z)) (rs : Z) : Prop :=
  length (h_mask h) = 4%nat /\ length (h_data h) = 4%nat /\ contexts h = cs /\ ring_size h = rs.

Lemma ready_program (h : qdma_hw) cs (rs m0 m1 m2 m3 d0 d1 d2 d3 sel qid : Z) :
  ready h cs rs -> cs !! (sel, qid) = Some zeroed ->
  decodes (ctxt_command QDMA_CTXT_CMD_WR sel qid) QDMA_CTXT_CMD_WR sel qid ->
  ready (hw_of h (program_writes [m0; m1; m2; m3] [d0; d1; d2; d3] sel qid))
    (<[(sel, qid) := [merge 0 m0 d0; merge 0 m1 d1; merge 0 m2 d2; merge 0 m3 d3]]> cs) rs.
Proof. intros (Hm & Hd & <- & <-) Hc Hdec. by rewrite hw_program. Qed.

(** The contexts after the writes. *)
Lemma context_writes_hw (h : qdma_hw) (ring_addr : Z) :
  length (h_mask h) = 4%nat -> length (h_data h) = 4%nat ->
  exists cs, ready (hw_of h (context_writes ring_addr))
     (<[(6, 1) := map (merge 0 ALL_ONES) (words (qdma_cmpl_ctxt ring_addr))]>
     (<[(7, 1) := [QDMA_PFCH_CTXT_BYP; QDMA_PFCH_CTXT_VALID; 0; 0]]>
     (<[(1, 1) := words (qdma_sw_desc_ctxt 1 1 0 1 1)]>
     (<[(0, 1) := words (qdma_sw_desc_ctxt 0 1 1 1 0)]>
     (<[(1, 0) := mm_ctxt]> (<[(0, 0) := mm_ctxt]> cs)))))) QDMA_CMPT_RING_SZ.
Proof.
  intros Hm Hd. exists (foldl (fun m k => <[k := zeroed]> m) (contexts h) to_clear).
  unfold context_writes. rewrite !hw_app, hw_clear.
  assert (forall k, bool_decide (k ∈ to_clear) = true ->
    foldl (fun m k => <[k := zeroed]> m) (contexts h) to_clear !! k = Some zeroed) as Hclr.
  { intros k Hk. apply lookup_foldl_insert. by apply bool_decide_eq_true in Hk. }
  generalize dependent (foldl (fun m k => <[k := zeroed]> m) (contexts h) to_clear). intros cs Hclr.
  assert (ready (mk_hw (h_mask h) (h_data h) cs (h_qid h) (vectors h) (c2h_on h) (h2c_on h) (ring_size h))
    cs (ring_size h)) as H0 by done.
  do 4 (apply ready_program; [|by rewrite ?lookup_insert_ne by done; apply Hclr|done]).
  assert (forall h cs rs, ready h cs rs ->
    ready (hw_of (hw_of h [(c2h_buf_size, QDMA_CMPT_BUF_SZ)]) [(cmpt_ring_size, QDMA_CMPT_RING_SZ)])
      cs QDMA_CMPT_RING_SZ) as Hsz by (by intros ? ? ? (? & ? & ? & ?)).
  eapply Hsz. do 2 (apply ready_program; [|by rewrite ?lookup_insert_ne by done; apply Hclr|done]). done.
Qed.

Lemma hw_reset (h : qdma_hw) (v : Z) (l : list (qreg * Z)) : hw_of h ((dma_reset, v) :: l) = hw_of h l.
Proof. done. Qed.

Lemma enable_hw (h : qdma_hw) :
  contexts (hw_of h enable_writes) = contexts h /\ ring_size (hw_of h enable_writes) = ring_size h /\
  vectors (hw_of h enable_writes) = <[1 := 1538]> (<[0 := 512]> (vectors h)) /\
  c2h_on (hw_of h enable_writes) = true /\ h2c_on (hw_of h enable_writes) = true.
Proof. done. Qed.

Lemma configured_by_init (h : qdma_hw) (ring_addr : Z) :
  length (h_mask h) = 4%nat -> length (h_data h) = 4%nat -> 0 <= ring_addr < 2 ^ 64 -> ring_addr mod 64 = 0 ->
  configured ring_addr (hw_of h ((dma_reset, 1) :: context_writes ring_addr ++ enable_writes)).
Proof.
  intros Hm Hd Hr Hal. destruct (cmpl_fields ring_addr Hr Hal) as (Hb & Hf & Ha).
  destruct (context_writes_hw h ring_addr Hm Hd) as (cs & _ & _ & Hcs & Hrs).
  rewrite hw_reset, hw_app.
  generalize dependent (hw_of h (context_writes ring_addr)). intros h1 Hcs Hrs.
  destruct (enable_hw h1) as (Ec & Er & Ev & E1 & E2). generalize dependent (hw_of h1 enable_writes).
  intros h2 Ec Er Ev E1 E2. rewrite Hcs in Ec.
  split; unfold ctxt, QDMA_CTXT_SELC_DEC_SW_C2H, QDMA_CTXT_SELC_DEC_SW_H2C, QDMA_CTXT_SELC_PFTCH,
    QDMA_CTXT_SELC_WRB, QDMA_MM_QID, QDMA_ST_QID; cbv zeta; rewrite ?Ec.
  - intros sel [->| ->]; by simplify_map_eq.
  - by simplify_map_eq.
  - by simplify_map_eq.
  - by simplify_map_eq.
  - rewrite lookup_insert_eq. cbn [from_option id]. rewrite ctxt_full by done. by split.
  - rewrite Ev. by simplify_map_eq.
  - by rewrite Er, Hrs.
Qed.

Lemma contexts_kept (h : qdma_hw) (l : list (qreg * Z)) :
  Forall (fun x => x.1 <> ctxt_cmd) l -> contexts (hw_of h l) = contexts h.
Proof.
  revert h. induction l as [|[r v] l IH]; intros h Hl; [done|]. apply Forall_cons in Hl as [Hr Hl].
  change (hw_of h ((r, v) :: l)) with (hw_of (hw_write h (r, v)) l). rewrite IH by done. by destruct r.
Qed.

(** ** Properties *)

(** C10: pcie_qdma_init is all or nothing, whichever window cannot be mapped and whichever
    context cannot be cleared or programmed: after an error nothing is held.  After
    success only the completion ring and the queue registers are, and the core is
    configured: both directions of both queues with the intended bits, the interrupt
    vectors, the completion ring at its bus address, both engines on.  Then
    pcie_qdma_exit gives back the ring and, if the descriptor generator answers, the
    registers, and turns the engines off if it can map their registers; the contexts
    it means to invalidate stay as they are. *)
Theorem qdma_init_exit (may_fail : qdma_res -> bool) (bar_len ring_addr : Z) (h0 : qdma_hw)
    (s : life qdma_res qdma) :
  0 < ring_addr < 2 ^ 64 -> ring_addr mod 64 = 0 ->
  let hw := fun s => hw_of h0 (written (state s)) in
  length (h_mask (hw s)) = 4%nat -> length (h_data (hw s)) = 4%nat ->
  wp (life_model may_fail) (pcie_qdma_init bar_len ring_addr) s (fun ret s1 =>
    (ret < 0 /\ held s1 = held s) \/
    (ret = 0 /\ held s1 = ring_mem :: w_ack :: held s /\ configured ring_addr (hw s1) /\
     wp (life_model may_fail) pcie_qdma_exit s1 (fun ret s2 =>
       contexts (hw s2) = contexts (hw s1) /\
       ((ret = - ENODEV /\ held s2 = w_ack :: held s) \/
        (held s2 = held s /\
         ((forall w, may_fail w = false) -> c2h_on (hw s2) = false /\ h2c_on (hw s2) = false)))))).
Proof.
  intros Hr Hal hw Hm Hd. eapply wp_mono; [apply qdma_init_spec|].
  intros ret s1 [(-> & Hh & Ha & Hw)|?]; [right|by left]. split; [done|]. split; [done|]. split.
  - unfold hw. rewrite Hw, hw_app. apply configured_by_init; try done; lia.
  - eapply wp_mono; [apply (qdma_exit_spec may_fail s1 (held s)); [lia|done]|].
    unfold hw. intros r s2 [_ [(-> & Hh2 & Hw2)|(Hh2 & l & Hw2 & Hl & Hn)]]; rewrite Hw2.
    + split; [done|]. by left.
    + rewrite hw_app, contexts_kept by done. split; [done|]. right. split; [done|].
      intros Hall. by rewrite (Hl Hall).
Qed.

(** The stream interrupt signals once per completion since the last one, for indices
    of the 63 entries before the status entry, and acknowledges all of them. *)
Lemma stream_completions (eventfd : bool) (pidx cidx rest : Z) :
  0 <= pidx < 63 -> 0 <= cidx < 63 ->
  exists v, qdma_intr_handler_c2h_stream eventfd (pidx + 2 ^ 16 * cidx + 2 ^ 32 * rest)
    = (if eventfd then (pidx - cidx) mod 63 else 0, (dmap_sel_wrb_cidx_1, v)) /\ Z.land v (2 ^ 16 - 1) = pidx.
Proof.
  intros Hp Hc. eexists. unfold qdma_intr_handler_c2h_stream.
  replace ((pidx + 2 ^ 16 * cidx + 2 ^ 32 * rest) mod 2 ^ 16) with pidx by dlia.
  replace (((pidx + 2 ^ 16 * cidx + 2 ^ 32 * rest) / 2 ^ 16) mod 2 ^ 16) with cidx by dlia.
  split; [f_equal|].
  - unfold signals, QDMA_CMPT_RING_SZ. destruct eventfd; [|done].
    rewrite (u32_small (pidx + 64 - 1)) by lia.
    destruct (Z.ltb_spec pidx cidx); rewrite u32_small by lia; dlia.
  - cbv zeta. rewrite Z.land_lor_distr_l. change (2 ^ 16 - 1) with (Z.ones 16).
    rewrite (Z.land_ones pidx), Z.mod_small by lia. done.
Qed.

(** ** Witness *)
Definition demo_hw : qdma_hw := mk_hw [0; 0; 0; 0] [0; 0; 0; 0] ∅ 0 ∅ false false 0.

Lemma qdma_init_exit_witness :
  wp (life_model (fun _ => false)) (pcie_qdma_init 131072 4096) (mk_life [] (mk_qdma 0 [])) (fun ret s1 =>
    ret < 0 \/ configured 4096 (hw_of demo_hw (written (state s1)))).
Proof.
  eapply wp_mono.
  - apply (qdma_init_exit (fun _ => false) 131072 4096 demo_hw (mk_life [] (mk_qdma 0 []))); [lia|done|done|done].
  - simpl. intros ret s1 [[H _]|(_ & _ & H & _)]; [by left|by right].
Defined.

End Qdma.
