(* ===== verification/PbMem.v ===== *)
(** * Byte memory and the computations of nanopb (nanopb/)

    nanopb works on C structs through pointers computed from descriptors.  Memory is
    a partial map from addresses to bytes; an access to an address that is not
    mapped is undefined behaviour.  A function of nanopb that takes a stream and
    returns a bool is a computation [D]: it returns with a value (C's [true], with
    what it stores through its result pointers), returns [false], or is undefined,
    which includes running out of fuel.  [dwp] is its weakest precondition: undefined
    behaviour is never allowed, so a triple says the code is safe and terminates. *)
From stdpp Require Export strings list_numbers.
From S2P Require Export Prelude.

Module PbMem.

Arguments Z.pow : simpl never.
Arguments wrap : simpl never.
Arguments Z.of_nat : simpl never.

Notation mem := (gmap Z Z).

Lemma u8_small (x : Z) : 0 <= x < 2 ^ 8 -> u8 x = x.
Proof. apply wrap_small. Qed.
Lemma u16_small (x : Z) : 0 <= x < 2 ^ 16 -> u16 x = x.
Proof. apply wrap_small. Qed.

(** n bytes from address a on *)
Fixpoint load_bytes (m : mem) (a : Z) (n : nat) : option (list Z) :=
  match n with
  | O => Some []
  | S n => b ← m !! a; bs ← load_bytes m (a + 1) n; Some (b :: bs)
  end.

Fixpoint store_bytes (m : mem) (a : Z) (bs : list Z) : option mem :=
  match bs with
  | [] => Some m
  | b :: bs => if decide (is_Some (m !! a)) then store_bytes (<[a := b]> m) (a + 1) bs else None
  end.

(** [m] with the bytes [bs] at [a], mapped or not: a new object. *)
Fixpoint alloc_bytes (m : mem) (a : Z) (bs : list Z) : mem :=
  match bs with
  | [] => m
  | b :: bs => <[a := b]> (alloc_bytes m (a + 1) bs)
  end.

(** The little-endian bytes of an integer of n bytes, and back. *)
Definition bytes_of (n v : Z) : list Z := Z_to_little_endian n 8 v.
Definition value_of (bs : list Z) : Z := little_endian_to_Z 8 bs.

(** ** Computations *)

Inductive outcome (S A : Type) :=
| Ret (a : A) (s : S) (m : mem)
| Err (s : S) (m : mem)
| Undef.
Arguments Ret {S A}.
Arguments Err {S A}.
Arguments Undef {S A}.

Definition D (S A : Type) : Type := S -> mem -> outcome S A.

#[export] Instance D_ret (S : Type) : MRet (D S) := fun A a s m => Ret a s m.
#[export] Instance D_bind (S : Type) : MBind (D S) := fun A B f c s m =>
  match c s m with
  | Ret a s' m' => f a s' m'
  | Err s' m' => Err s' m'
  | Undef => Undef
  end.

Definition get {S} : D S S := fun s m => Ret s s m.
Definition put {S} (s' : S) : D S unit := fun _ m => Ret tt s' m.
(** return false *)
Definition fails {S A} : D S A := fun s m => Err s m.
Definition undef {S A} : D S A := fun _ _ => Undef.

Definition load {S} (a : Z) (n : nat) : D S (list Z) := fun s m =>
  match load_bytes m a n with Some bs => Ret bs s m | None => Undef end.
Definition store {S} (a : Z) (bs : list Z) : D S unit := fun s m =>
  match store_bytes m a bs with Some m' => Ret tt s m' | None => Undef end.
Definition load_int {S} (a n : Z) : D S Z :=
  bs ← load a (Z.to_nat n); mret (value_of bs).
Definition store_int {S} (a n v : Z) : D S unit := store a (bytes_of n v).

(** memset (a, 0, n) *)
Definition memset0 {S} (a n : Z) : D S unit := store a (replicate (Z.to_nat n) 0).

(** A call on another stream, a local variable of the caller; its result is C's bool. *)
Definition on_stream {S T A} (sub : T) (c : D T A) : D S (option A * T) := fun s m =>
  match c sub m with
  | Ret a sub' m' => Ret (Some a, sub') s m'
  | Err sub' m' => Ret (None, sub') s m'
  | Undef => Undef
  end.

(** ** Weakest preconditions *)

Definition dwp {S A} (c : D S A) (s : S) (m : mem)
    (Q : A -> S -> mem -> Prop) (E : S -> mem -> Prop) : Prop :=
  match c s m with
  | Ret a s' m' => Q a s' m'
  | Err s' m' => E s' m'
  | Undef => False
  end.

Section Rules.
Context {S : Type}.

Lemma dwp_mono {A} (c : D S A) (s : S) (m : mem) (Q Q' : A -> S -> mem -> Prop) (E E' : S -> mem -> Prop) :
  dwp c s m Q E -> (forall a s' m', Q a s' m' -> Q' a s' m') -> (forall s' m', E s' m' -> E' s' m') ->
  dwp c s m Q' E'.
Proof. unfold dwp. destruct (c s m); eauto. Qed.

Lemma dwp_bind {A B} (c : D S A) (f : A -> D S B) (s : S) (m : mem)
    (Q : B -> S -> mem -> Prop) (E : S -> mem -> Prop) :
  dwp c s m (fun a s' m' => dwp (f a) s' m' Q E) E -> dwp (c ≫= f) s m Q E.
Proof. unfold dwp, mbind, D_bind. by destruct (c s m). Qed.

Lemma dwp_ret {A} (a : A) (s : S) (m : mem) (Q : A -> S -> mem -> Prop) (E : S -> mem -> Prop) :
  Q a s m -> dwp (mret a) s m Q E.
Proof. done. Qed.

Lemma dwp_on_stream {T A} (sub : T) (c : D T A) (s : S) (m : mem)
    (Q : option A * T -> S -> mem -> Prop) (E : S -> mem -> Prop) :
  dwp c sub m (fun a sub' m' => Q (Some a, sub') s m') (fun sub' m' => Q (None, sub') s m') ->
  dwp (on_stream sub c) s m Q E.
Proof. unfold dwp, on_stream. by destruct (c sub m). Qed.
End Rules.

(** Step over a call with a known triple. *)
Ltac dwp_step H :=
  lazymatch goal with
  | |- dwp (mbind _ _) _ _ _ _ => apply dwp_bind
  | |- _ => idtac
  end; eapply dwp_mono; [eapply H|..]; try done.

(** ** Memory *)

Definition mapped (m : mem) (a n : Z) : Prop := forall x, a <= x < a + n -> is_Some (m !! x).

(** [m'] has the same objects as [m] and differs from it only where [P] holds. *)
Definition differs_only (P : Z -> Prop) (m m' : mem) : Prop :=
  (forall x, is_Some (m !! x) <-> is_Some (m' !! x)) /\
  (forall x, ~ P x -> m' !! x = m !! x).

Definition within (a n x : Z) : Prop := a <= x < a + n.

Lemma differs_only_refl (P : Z -> Prop) (m : mem) : differs_only P m m.
Proof. done. Qed.

Lemma differs_only_trans (P : Z -> Prop) (m1 m2 m3 : mem) :
  differs_only P m1 m2 -> differs_only P m2 m3 -> differs_only P m1 m3.
Proof.
  intros [D1 E1] [D2 E2]. split; [by intros x; rewrite D1, D2|].
  intros x Hx. by rewrite E2, E1.
Qed.

Lemma differs_only_weaken (P P' : Z -> Prop) (m m' : mem) :
  (forall x, P x -> P' x) -> differs_only P m m' -> differs_only P' m m'.
Proof. intros Hw [D1 E1]. split; [done|]. intros x Hx. apply E1. auto. Qed.

Lemma mapped_differs (P : Z -> Prop) (m m' : mem) (a n : Z) :
  differs_only P m m' -> mapped m a n -> mapped m' a n.
Proof. intros [D1 _] Hm x Hx. apply D1. auto. Qed.

Lemma mapped_sub (m : mem) (a n a' n' : Z) :
  mapped m a n -> a <= a' -> a' + n' <= a + n -> mapped m a' n'.
Proof. intros Hm ? ? x Hx. apply Hm. lia. Qed.

Lemma load_bytes_total (m : mem) (a : Z) (n : nat) :
  mapped m a (Z.of_nat n) -> exists bs, load_bytes m a n = Some bs /\ length bs = n.
Proof.
  revert a. induction n as [|n IH]; intros a Hm; simpl; [by exists []|].
  destruct (Hm a) as [b Hb]; [lia|]. rewrite Hb. simpl.
  destruct (IH (a + 1)) as (bs & -> & Hl); [intros x Hx; apply Hm; lia|].
  exists (b :: bs). simpl. by rewrite Hl.
Qed.

Lemma load_bytes_length (m : mem) (a : Z) (n : nat) (bs : list Z) :
  load_bytes m a n = Some bs -> length bs = n.
Proof.
  revert a bs. induction n as [|n IH]; intros a bs; simpl; [by intros [= <-]|].
  destruct (m !! a); simpl; [|done]. destruct (load_bytes m (a + 1) n) as [r|] eqn:E; simpl; [|done].
  intros [= <-]. simpl. f_equal. by eapply IH.
Qed.

Lemma store_bytes_total (m : mem) (a : Z) (bs : list Z) :
  mapped m a (Z.of_nat (length bs)) ->
  exists m', store_bytes m a bs = Some m' /\ differs_only (within a (Z.of_nat (length bs))) m m'.
Proof.
  revert m a. induction bs as [|b bs IH]; intros m a Hm; simpl; [by exists m|].
  simpl in Hm. rewrite decide_True by (apply Hm; lia).
  destruct (IH (<[a:=b]> m) (a + 1)) as (m' & -> & D1 & E1).
  { intros x Hx. destruct (decide (x = a)) as [->|]; [by rewrite lookup_insert_eq|].
    rewrite lookup_insert_ne by done. apply Hm. lia. }
  exists m'. split; [done|]. split.
  - intros x. rewrite <- D1. destruct (decide (x = a)) as [->|].
    + rewrite lookup_insert_eq. split; [by eexists|]. intros _. apply Hm. lia.
    + by rewrite lookup_insert_ne.
  - intros x Hx. rewrite E1 by (unfold within in *; lia).
    apply lookup_insert_ne. unfold within in Hx. lia.
Qed.

Lemma load_bytes_agree (m m' : mem) (a : Z) (n : nat) :
  (forall x, within a (Z.of_nat n) x -> m' !! x = m !! x) -> load_bytes m' a n = load_bytes m a n.
Proof.
  revert a. induction n as [|n IH]; intros a H; simpl; [done|].
  rewrite H by (unfold within; lia). by rewrite IH by (intros x Hx; apply H; unfold within in *; lia).
Qed.

(** Reading elsewhere is unaffected. *)
Lemma load_differs (P : Z -> Prop) (m m' : mem) (a : Z) (n : nat) :
  differs_only P m m' -> (forall x, within a (Z.of_nat n) x -> ~ P x) ->
  load_bytes m' a n = load_bytes m a n.
Proof. intros [_ E1] H. apply load_bytes_agree. auto. Qed.

(** What is stored is read back. *)
Lemma store_load (m m' : mem) (a : Z) (bs : list Z) :
  store_bytes m a bs = Some m' -> load_bytes m' a (length bs) = Some bs.
Proof.
  revert m a. induction bs as [|b bs IH]; intros m a; simpl; [done|].
  case_decide as Hm; [|done]. intros E.
  assert (m' !! a = Some b) as ->.
  { assert (mapped (<[a:=b]> m) (a + 1) (Z.of_nat (length bs))) as Hmap.
    { clear IH Hm. revert E. generalize (<[a:=b]> m) (a + 1). clear m a b.
      induction bs as [|b bs IH]; intros m a; simpl; [intros _ x Hx; lia|].
      case_decide as Ha; [|done]. intros E x Hx. destruct (decide (x = a)) as [->|]; [done|].
      rewrite <- (lookup_insert_ne m a x b) by done. eapply IH; [done|lia]. }
    destruct (store_bytes_total _ _ _ Hmap) as (m2 & E2 & _ & Ho). rewrite E in E2.
    injection E2 as <-. rewrite Ho by (unfold within; lia). apply lookup_insert_eq. }
  simpl. by erewrite IH.
Qed.

Lemma alloc_load (m : mem) (a : Z) (bs : list Z) :
  load_bytes (alloc_bytes m a bs) a (length bs) = Some bs.
Proof.
  revert a. induction bs as [|b bs IH]; intros a; simpl; [done|].
  rewrite lookup_insert_eq. simpl.
  rewrite (load_bytes_agree (alloc_bytes m (a + 1) bs)).
  - by rewrite IH.
  - intros x Hx. apply lookup_insert_ne. unfold within in Hx. lia.
Qed.

Lemma alloc_lookup_ne (m : mem) (a : Z) (bs : list Z) (x : Z) :
  ~ within a (Z.of_nat (length bs)) x -> alloc_bytes m a bs !! x = m !! x.
Proof.
  revert a. induction bs as [|b bs IH]; intros a Hx; simpl in *; [done|].
  unfold within in *. rewrite lookup_insert_ne by lia. apply IH. lia.
Qed.

Lemma mapped_alloc (m : mem) (a : Z) (bs : list Z) : mapped (alloc_bytes m a bs) a (Z.of_nat (length bs)).
Proof.
  revert a. induction bs as [|b bs IH]; intros a x Hx; simpl in *; [lia|].
  destruct (decide (x = a)) as [->|]; [by rewrite lookup_insert_eq|].
  rewrite lookup_insert_ne by done. apply (IH (a + 1)). lia.
Qed.

(** ** Integers in memory *)

Lemma length_bytes_of (n v : Z) : 0 <= n -> length (bytes_of n v) = Z.to_nat n.
Proof. intros. pose proof (length_Z_to_little_endian n 8 v). unfold bytes_of. lia. Qed.

Lemma value_of_bytes (n v : Z) : 0 <= n -> 0 <= v < 2 ^ (8 * n) -> value_of (bytes_of n v) = v.
Proof.
  intros. unfold value_of, bytes_of. rewrite little_endian_to_Z_to_little_endian by lia.
  apply Z.mod_small. by rewrite Z.mul_comm.
Qed.

Definition is_byte (b : Z) : Prop := 0 <= b < 256.

Lemma value_of_bound (bs : list Z) :
  Forall is_byte bs -> 0 <= value_of bs < 2 ^ (8 * Z.of_nat (length bs)).
Proof.
  intros. rewrite Z.mul_comm. by apply little_endian_to_Z_bound.
Qed.

(** ** Triples of the accesses *)
Section Access.
Context {S : Type}.
Implicit Types (s : S) (m : mem).

Lemma dwp_load (a : Z) (n : nat) s m (Q : list Z -> S -> mem -> Prop) E :
  mapped m a (Z.of_nat n) ->
  (forall bs, load_bytes m a n = Some bs -> Q bs s m) -> dwp (load a n) s m Q E.
Proof.
  intros Hm HQ. unfold dwp, load. destruct (load_bytes_total m a n Hm) as (bs & Eb & _).
  rewrite Eb. auto.
Qed.

Lemma dwp_store (a : Z) (bs : list Z) s m (Q : unit -> S -> mem -> Prop) E :
  mapped m a (Z.of_nat (length bs)) ->
  (forall m', store_bytes m a bs = Some m' -> differs_only (within a (Z.of_nat (length bs))) m m' ->
     Q tt s m') ->
  dwp (store a bs) s m Q E.
Proof.
  intros Hm HQ. unfold dwp, store. destruct (store_bytes_total m a bs Hm) as (m' & Eb & Hd).
  rewrite Eb. auto.
Qed.

Lemma dwp_load_int (a n : Z) s m (Q : Z -> S -> mem -> Prop) E :
  0 <= n -> mapped m a n ->
  (forall bs, load_bytes m a (Z.to_nat n) = Some bs -> Q (value_of bs) s m) ->
  dwp (load_int a n) s m Q E.
Proof.
  intros ? Hm HQ. apply dwp_bind, dwp_load; [by rewrite Z2Nat.id|]. intros bs Hb. apply dwp_ret. auto.
Qed.

Lemma dwp_store_int (a n v : Z) s m (Q : unit -> S -> mem -> Prop) E :
  0 <= n -> mapped m a n ->
  (forall m', store_bytes m a (bytes_of n v) = Some m' -> differs_only (within a n) m m' -> Q tt s m') ->
  dwp (store_int a n v) s m Q E.
Proof.
  intros ? Hm HQ.
  apply dwp_store; rewrite length_bytes_of, Z2Nat.id by lia; [done|]. auto.
Qed.

Lemma dwp_memset0 (a n : Z) s m (Q : unit -> S -> mem -> Prop) E :
  0 <= n -> mapped m a n ->
  (forall m', store_bytes m a (replicate (Z.to_nat n) 0) = Some m' -> differs_only (within a n) m m' -> Q tt s m') ->
  dwp (memset0 a n) s m Q E.
Proof.
  intros ? Hm HQ. apply dwp_store; rewrite length_replicate, Z2Nat.id by lia; [done|]. auto.
Qed.
End Access.

End PbMem.
