(* ===== verification/PbStream.v ===== *)
(** * Input streams of nanopb and the scalar decoders (nanopb/pb_decode.c)

    A stream reads from a constant buffer: [state], the pointer to the next byte, is
    the list of bytes from there to the end of the buffer, and reading behind it is
    undefined.  The module makes no stream with a callback of its own, so the loop of
    pb_read that skips bytes of such streams is left out.  What pb_read copies to a
    local variable is its result.

    Proved: the decoders of integers invert the encoding of protobuf, never read more
    than is left, and take at most ten bytes. *)
From S2P Require Import Prelude.
From S2P Require Export PbMem.

Module PbStream.
Export PbMem.

Record pb_istream := mk_istream {
  state : list Z; bytes_left : Z; errmsg : option string }.

Notation DI := (D pb_istream).

(** PB_RETURN_ERROR: the first message is kept. *)
Definition set_error (msg : string) (s : pb_istream) : pb_istream :=
  mk_istream (state s) (bytes_left s) (match errmsg s with Some e => Some e | None => Some msg end).
Definition PB_RETURN_ERROR {A} (msg : string) : DI A := fun s m => Err (set_error msg s) m.

Definition buf_read (count : Z) : DI (list Z) := fun s m =>
  if decide (count <= Z.of_nat (length (state s))) then
    Ret (take (Z.to_nat count) (state s))
        (mk_istream (drop (Z.to_nat count) (state s)) (bytes_left s) (errmsg s)) m
  else Undef.

Definition consume (count : Z) : DI unit :=
  s ← get; put (mk_istream (state s) (u64 (bytes_left s - count)) (errmsg s)).

Definition pb_read (count : Z) : DI (list Z) :=
  s ← get;
  if bytes_left s <? count then PB_RETURN_ERROR "end-of-stream"
  else bs ← buf_read count; _ ← consume count; mret bs.

(** pb_read (stream, buf, count) with buf in memory *)
Definition pb_read_to (buf count : Z) : DI unit := bs ← pb_read count; store buf bs.

Definition pb_readbyte : DI Z :=
  s ← get;
  if bytes_left s =? 0 then PB_RETURN_ERROR "end-of-stream"
  else bs ← buf_read 1; _ ← consume 1; mret (nth 0 bs 0).

Definition pb_istream_from_buffer (buf : list Z) (bufsize : Z) : pb_istream :=
  mk_istream buf bufsize None.
Definition PB_ISTREAM_EMPTY : pb_istream := mk_istream [] 0 None.

(** ** Integers *)

Definition low7 (byte : Z) : Z := Z.land byte 0x7F.
Definition more (byte : Z) : bool := nonzero (Z.land byte 0x80).

(** do ... while (byte & 0x80): bitpos is an uint_fast8_t, which the module defines
    as u8. *)
Fixpoint varint32_loop (fuel : nat) (result bitpos : Z) : DI (Z * Z * Z) :=
  match fuel with
  | O => undef
  | S fuel =>
      byte ← pb_readbyte;
      result ← (if 32 <=? bitpos then
                  let sign_extension := if bitpos <? 63 then 0xFF else 0x01 in
                  if nonzero (low7 byte) &&
                     ((Z.shiftr result 31 =? 0) || negb (byte =? sign_extension))
                  then PB_RETURN_ERROR "varint overflow"
                  else mret result
                else mret (Z.lor result (u32 (Z.shiftl (low7 byte) bitpos))));
      let bitpos := u8 (bitpos + 7) in
      if more byte then varint32_loop fuel result bitpos else mret (result, bitpos, byte)
  end.

(** A first byte with a continuation bit. *)
Definition varint32_multibyte (fuel : nat) (byte : Z) : DI Z :=
  '(result, bitpos, byte) ← varint32_loop fuel (low7 byte) 7;
  if (bitpos =? 35) && nonzero (Z.land byte 0x70) then PB_RETURN_ERROR "varint overflow"
  else mret result.

(** [None]: it returned false and has set *eof. *)
Definition pb_decode_varint32_eof : DI (option Z) :=
  s ← get;
  '(st, s') ← on_stream s pb_readbyte;
  _ ← put s';
  match st with
  | None => if bytes_left s' =? 0 then mret None else fails
  | Some byte =>
      if negb (more byte) then mret (Some byte)
      else
        result ← varint32_multibyte (length (state s)) byte;
        mret (Some result)
  end.

Definition pb_decode_varint32 : DI Z :=
  r ← pb_decode_varint32_eof;
  match r with Some v => mret v | None => fails end.

Fixpoint varint_loop (fuel : nat) (result bitpos : Z) : DI Z :=
  match fuel with
  | O => undef
  | S fuel =>
      if 64 <=? bitpos then PB_RETURN_ERROR "varint overflow"
      else
        byte ← pb_readbyte;
        let result := Z.lor result (u64 (Z.shiftl (low7 byte) bitpos)) in
        let bitpos := u8 (bitpos + 7) in
        if more byte then varint_loop fuel result bitpos else mret result
  end.

(** Ten bytes reach bitpos 70. *)
Definition pb_decode_varint : DI Z := varint_loop 11 0 0.

Fixpoint skip_loop (fuel : nat) : DI unit :=
  match fuel with
  | O => undef
  | S fuel => bs ← pb_read 1; if more (nth 0 bs 0) then skip_loop fuel else mret tt
  end.

Definition pb_skip_varint : DI unit := s ← get; skip_loop (S (length (state s))).

Definition pb_skip_string : DI unit :=
  length ← pb_decode_varint32; _ ← pb_read length; mret tt.

(** The wire type is the number in the stream; the enum names four of the eight. *)
Definition PB_WT_VARINT : Z := 0.
Definition PB_WT_64BIT : Z := 1.
Definition PB_WT_STRING : Z := 2.
Definition PB_WT_32BIT : Z := 5.

(** wire type and tag; [None]: false with *eof *)
Definition pb_decode_tag : DI (option (Z * Z)) :=
  r ← pb_decode_varint32_eof;
  match r with
  | None => mret None
  | Some temp => mret (Some (Z.land temp 7, Z.shiftr temp 3))
  end.

Definition pb_skip_field (wire_type : Z) : DI unit :=
  if wire_type =? PB_WT_VARINT then pb_skip_varint
  else if wire_type =? PB_WT_64BIT then _ ← pb_read 8; mret tt
  else if wire_type =? PB_WT_STRING then pb_skip_string
  else if wire_type =? PB_WT_32BIT then _ ← pb_read 4; mret tt
  else PB_RETURN_ERROR "invalid wire_type".

Fixpoint raw_varint_loop (fuel : nat) (max_size : Z) (buf : list Z) : DI (list Z) :=
  match fuel with
  | O => undef
  | S fuel =>
      if max_size <? Z.of_nat (length buf) + 1 then PB_RETURN_ERROR "varint overflow"
      else
        bs ← pb_read 1;
        let buf := buf ++ bs in
        if more (nth 0 bs 0) then raw_varint_loop fuel max_size buf else mret buf
  end.

(** The bytes of the value, at most max_size of a varint. *)
Definition read_raw_value (wire_type max_size : Z) : DI (list Z) :=
  if wire_type =? PB_WT_VARINT then raw_varint_loop (S (Z.to_nat max_size)) max_size []
  else if wire_type =? PB_WT_64BIT then pb_read 8
  else if wire_type =? PB_WT_32BIT then pb_read 4
  else PB_RETURN_ERROR "invalid wire_type".

(** The substream reads from the same buffer; the parent's bytes_left leaves it out,
    its state moves when the substream is closed. *)
Definition pb_make_string_substream : DI pb_istream :=
  size ← pb_decode_varint32;
  s ← get;
  if bytes_left s <? size then PB_RETURN_ERROR "parent stream too short"
  else
    _ ← put (mk_istream (state s) (u64 (bytes_left s - size)) (errmsg s));
    mret (mk_istream (state s) size (errmsg s)).

Definition pb_close_string_substream (substream : pb_istream) : DI unit :=
  '(st, substream) ← (if nonzero (bytes_left substream)
                      then on_stream substream (pb_read (bytes_left substream))
                      else mret (Some [], substream));
  match st with
  | None => fails
  | Some _ =>
      s ← get;
      put (mk_istream (state substream) (bytes_left s) (errmsg substream))
  end.

(** ~x of an uint64_t *)
Definition not64 (x : Z) : Z := u64 (Z.lnot x).

Definition pb_decode_svarint : DI Z :=
  value ← pb_decode_varint;
  mret (if nonzero (Z.land value 1) then s64 (not64 (Z.shiftr value 1)) else s64 (Z.shiftr value 1)).

Definition pb_decode_fixed32 (dest : Z) : DI unit :=
  bytes ← pb_read 4;
  store_int dest 4 (Z.lor (Z.lor (Z.lor (Z.shiftl (nth 0 bytes 0) 0) (Z.shiftl (nth 1 bytes 0) 8))
    (Z.shiftl (nth 2 bytes 0) 16)) (Z.shiftl (nth 3 bytes 0) 24)).

Definition pb_decode_fixed64 (dest : Z) : DI unit :=
  bytes ← pb_read 8;
  store_int dest 8 (Z.lor (Z.lor (Z.lor (Z.lor (Z.lor (Z.lor (Z.lor
    (Z.shiftl (nth 0 bytes 0) 0) (Z.shiftl (nth 1 bytes 0) 8)) (Z.shiftl (nth 2 bytes 0) 16))
    (Z.shiftl (nth 3 bytes 0) 24)) (Z.shiftl (nth 4 bytes 0) 32)) (Z.shiftl (nth 5 bytes 0) 40))
    (Z.shiftl (nth 6 bytes 0) 48)) (Z.shiftl (nth 7 bytes 0) 56)).

(** ** Safety of reading *)

Definition stream_ok (s : pb_istream) : Prop :=
  0 <= bytes_left s <= Z.of_nat (length (state s)) /\ bytes_left s < 2 ^ 64 /\
  Forall is_byte (state s).

(** [k] bytes were read. *)
Definition adv_by (k : nat) (s s' : pb_istream) : Prop :=
  state s' = drop k (state s) /\ bytes_left s' = bytes_left s - Z.of_nat k /\
  Z.of_nat k <= bytes_left s.

(** After an error: the pointer is not ahead of what bytes_left accounts for. *)
Definition fell (s s' : pb_istream) : Prop :=
  exists k j : nat, (k <= j)%nat /\ state s' = drop k (state s) /\
    bytes_left s' = bytes_left s - Z.of_nat j /\ Z.of_nat j <= bytes_left s.

Lemma adv_ok (k : nat) (s s' : pb_istream) : stream_ok s -> adv_by k s s' -> stream_ok s'.
Proof. 
  intros (? & ? & Hb) (E1 & E2 & ?). unfold stream_ok. rewrite E1, E2, length_drop.
  repeat split; try lia. by apply Forall_drop.
Qed.

Lemma adv_trans (j k : nat) (s1 s2 s3 : pb_istream) :
  adv_by j s1 s2 -> adv_by k s2 s3 -> adv_by (j + k) s1 s3.
Proof.
  intros (E1 & B1 & L1) (E2 & B2 & L2). unfold adv_by. rewrite E2, E1, drop_drop, B2, B1.
  repeat split; lia.
Qed.

Lemma adv_refl (s : pb_istream) : stream_ok s -> adv_by 0 s s.
Proof. intros [? ?]. unfold adv_by. rewrite drop_0. repeat split; lia. Qed.

Lemma fell_refl (s : pb_istream) : stream_ok s -> fell s s.
Proof. intros [? ?]. exists O, O. rewrite drop_0. repeat split; lia. Qed.

Lemma fell_ok (s s' : pb_istream) : stream_ok s -> fell s s' -> stream_ok s'.
Proof. 
  intros (? & ? & Hb) (k & j & ? & E1 & E2 & ?). unfold stream_ok. rewrite E1, E2, length_drop.
  repeat split; try lia. by apply Forall_drop.
Qed.

Lemma adv_fell (k : nat) (s1 s2 s3 : pb_istream) : adv_by k s1 s2 -> fell s2 s3 -> fell s1 s3.
Proof.
  intros (E1 & B1 & L1) (i & j & ? & E2 & B2 & L2). exists (k + i)%nat, (k + j)%nat.
  rewrite E2, E1, drop_drop, B2, B1. repeat split; lia.
Qed.

Lemma adv_is_fell (k : nat) (s s' : pb_istream) : adv_by k s s' -> fell s s'.
Proof. intros (E1 & B1 & L1). exists k, k. repeat split; try done; lia. Qed.

Lemma fell_error (msg : string) (s s' : pb_istream) : fell s s' -> fell s (set_error msg s').
Proof. done. Qed.

Lemma fell_bytes (s s' : pb_istream) : fell s s' -> bytes_left s' <= bytes_left s.
Proof. intros (k & j & ? & E1 & E2 & ?). lia. Qed.

#[local] Hint Resolve adv_ok adv_refl fell_refl fell_ok adv_fell adv_is_fell fell_error : tlkm.

(** A computation that only reads: run with less than [N] bytes left, memory stays,
    and when it succeeds its result and the number of bytes it took, never more than
    was left, satisfy [post]. *)
Definition reader {A} (N : Z) (c : DI A) (post : A -> nat -> Prop) : Prop :=
  forall s m, stream_ok s -> bytes_left s < N ->
  dwp c s m (fun a s' m' => m' = m /\ exists k, post a k /\ adv_by k s s')
            (fun s' m' => m' = m /\ fell s s').

Lemma reader_bind {A B} (N : Z) (c : DI A) (f : A -> DI B) (post : A -> nat -> Prop)
    (post' : B -> nat -> Prop) :
  reader N c post ->
  (forall a k, post a k -> reader (N - Z.of_nat k) (f a) (fun b j => post' b (k + j)%nat)) ->
  reader N (c ≫= f) post'.
Proof.
  intros Hc Hf s m Hs HN. apply dwp_bind. eapply dwp_mono; [by apply Hc| |by intros ? ? [-> ?]].
  intros a s1 m1 (-> & k & Ha & Hk). pose proof Hk as (_ & Hb & _).
  eapply dwp_mono; [eapply Hf; [done|eauto with tlkm|lia]| |].
  - intros b s2 m2 (-> & k2 & Hb2 & Hk2). split; [done|].
    exists (k + k2)%nat. split; [done|]. by eapply adv_trans.
  - intros s2 m2 [-> ?]. eauto with tlkm.
Qed.

Lemma reader_ret {A} (N : Z) (a : A) (post : A -> nat -> Prop) : post a O -> reader N (mret a) post.
Proof. intros Ha s m Hs _. apply dwp_ret. split; [done|]. exists O. eauto with tlkm. Qed.

Lemma reader_error {A} (N : Z) (msg : string) (post : A -> nat -> Prop) :
  reader N (PB_RETURN_ERROR msg) post.
Proof. intros s m Hs _. split; [done|]. by apply fell_error, fell_refl. Qed.

Lemma reader_fails {A} (N : Z) (post : A -> nat -> Prop) : reader N (fails (A := A)) post.
Proof. intros s m Hs _. split; [done|]. by apply fell_refl. Qed.

Lemma reader_weaken {A} (N N' : Z) (c : DI A) (post post' : A -> nat -> Prop) :
  reader N c post -> N' <= N -> (forall a k, post a k -> post' a k) -> reader N' c post'.
Proof.
  intros Hc HN Hp s m Hs Hb. eapply dwp_mono; [apply Hc; [done|lia]| |done].
  intros a s' m' (-> & k & Ha & Hk). split; [done|]. eauto.
Qed.

(** Reading, as an equation. *)
Lemma pb_read_eq (bs rest : list Z) (n : Z) (e : option string) (m : mem) :
  Z.of_nat (length bs) <= n < 2 ^ 64 ->
  pb_read (Z.of_nat (length bs)) (mk_istream (bs ++ rest) n e) m
  = Ret bs (mk_istream rest (n - Z.of_nat (length bs)) e) m.
Proof.
  intros Hn. unfold pb_read, get, mbind, D_bind. simpl.
  rewrite (proj2 (Z.ltb_ge _ _)) by lia. unfold buf_read, consume, get, put, mbind, D_bind. simpl.
  rewrite decide_True by (rewrite length_app; lia).
  rewrite Nat2Z.id, take_app_length, drop_app_length. simpl. by rewrite u64_small by lia.
Qed.

Lemma pb_readbyte_eq (b : Z) (rest : list Z) (n : Z) (e : option string) (m : mem) :
  0 < n < 2 ^ 64 ->
  pb_readbyte (mk_istream (b :: rest) n e) m = Ret b (mk_istream rest (n - 1) e) m.
Proof.
  intros Hn. unfold pb_readbyte, get, mbind, D_bind. simpl.
  rewrite (proj2 (Z.eqb_neq _ _)) by lia. unfold buf_read, consume, get, put, mbind, D_bind. simpl.
  rewrite decide_True by lia. simpl. by rewrite u64_small by lia.
Qed.

(** Reading byte by byte is reading one byte. *)
Lemma pb_readbyte_read (s : pb_istream) (m : mem) :
  stream_ok s ->
  pb_readbyte s m = match pb_read 1 s m with
                    | Ret bs s' m' => Ret (nth 0 bs 0) s' m' | Err s' m' => Err s' m' | Undef => Undef end.
Proof.
  intros (Hs & ? & _). unfold pb_readbyte, pb_read, get, mbind, D_bind. simpl.
  destruct (Z.eqb_spec (bytes_left s) 0) as [E|E].
  - by rewrite E.
  - rewrite (proj2 (Z.ltb_ge _ _)) by lia. unfold buf_read, consume, get, put, mbind, D_bind. simpl.
    by destruct (decide _).
Qed.

Lemma pb_read_reader (N count : Z) :
  0 <= count ->
  reader N (pb_read count) (fun bs k => Z.of_nat (length bs) = count /\ Z.of_nat k = count /\ Forall is_byte bs).
Proof.
  intros Hc [st n e] m (Hs & Hn & Hb) _. simpl in *. unfold dwp, pb_read, get, mbind, D_bind. simpl.
  destruct (Z.ltb_spec n count) as [Hl|Hl].
  { simpl. split; [done|]. by apply fell_error, fell_refl. }
  unfold buf_read, consume, get, put, mbind, D_bind. simpl. rewrite decide_True by lia. simpl.
  rewrite u64_small by lia. split; [done|]. exists (Z.to_nat count). rewrite length_take.
  split; [|unfold adv_by; simpl; repeat split; lia].
  repeat split; try lia. by apply Forall_take.
Qed.

Lemma pb_readbyte_reader (N : Z) : reader N pb_readbyte (fun b k => is_byte b /\ k = 1%nat).
Proof.
  intros s m Hs HN. unfold dwp. rewrite pb_readbyte_read by done.
  pose proof (pb_read_reader N 1 ltac:(lia) s m Hs HN) as H. unfold dwp in H.
  destruct (pb_read 1 s m) as [bs s' m'| |]; [|done|done].
  destruct H as (-> & k & (Hl & Hk & Hb) & Ha). split; [done|]. exists k. split; [|done]. split; [|lia].
  destruct bs as [|b bs]; simpl in *; [lia|]. by apply Forall_cons in Hb as [? _].
Qed.

(** Step over a call that only reads: name its result, its length, what is known. *)
Tactic Notation "rd_step" uconstr(H) "as" simple_intropattern(a) simple_intropattern(k)
    simple_intropattern(pat) :=
  eapply reader_bind; [apply H|]; cbv beta; intros a k pat.

Lemma low7_range (b : Z) : 0 <= low7 b < 128.
Proof. unfold low7. change 0x7F with (Z.ones 7). rewrite Z.land_ones by lia. apply Z.mod_pos_bound. lia. Qed.

Lemma lor_range (w a b : Z) : 0 <= w -> 0 <= a < 2 ^ w -> 0 <= b < 2 ^ w -> 0 <= Z.lor a b < 2 ^ w.
Proof.
  intros Hw Ha Hb. apply Z.bounded_iff_bits_nonneg'; [lia|apply Z.lor_nonneg; lia|].
  intros i Hi. rewrite Z.lor_spec.
  rewrite (proj1 (Z.bounded_iff_bits_nonneg' w a ltac:(lia) ltac:(lia)) ltac:(lia) i Hi).
  by rewrite (proj1 (Z.bounded_iff_bits_nonneg' w b ltac:(lia) ltac:(lia)) ltac:(lia) i Hi).
Qed.

Lemma varint32_loop_reader (fuel : nat) (result bitpos : Z) :
  0 <= result < 2 ^ 32 ->
  reader (Z.of_nat fuel) (varint32_loop fuel result bitpos)
    (fun r k => (1 <= k)%nat /\ 0 <= r.1.1 < 2 ^ 32).
Proof.
  revert result bitpos. induction fuel as [|fuel IH]; intros result bitpos Hr; cbn [varint32_loop].
  { intros s m (? & _) ?. lia. }
  rd_step pb_readbyte_reader as byte k [Hb ->].
  eapply (reader_bind _ _ _ (fun r k => k = O /\ 0 <= r < 2 ^ 32)).
  { case_match; [case_match|]; [apply reader_error|by apply reader_ret|].
    apply reader_ret. split; [done|]. apply lor_range; [lia|done|apply u32_range]. }
  intros r j [-> Hr']. case_match.
  - eapply reader_weaken; [by apply IH|lia|]. simpl. intros ? ? [? ?]. split; [lia|done].
  - apply reader_ret. simpl. split; [lia|done].
Qed.

Lemma low7_small (b : Z) : 0 <= low7 b < 2 ^ 32.
Proof. pose proof (low7_range b). lia. Qed.

(** Reading a byte fails at the end of the stream only. *)
Lemma pb_readbyte_dwp (s : pb_istream) (m : mem) (Q : Z -> pb_istream -> mem -> Prop) E :
  stream_ok s ->
  (forall b s', is_byte b -> adv_by 1 s s' -> Q b s' m) ->
  (bytes_left s = 0 -> E (set_error "end-of-stream" s) m) ->
  dwp pb_readbyte s m Q E.
Proof.
  intros Hs HQ HE. destruct (decide (bytes_left s = 0)) as [E0|Hne].
  - unfold dwp, pb_readbyte, get, mbind, D_bind. rewrite E0. simpl. auto.
  - pose proof (pb_readbyte_reader (2 ^ 64) s m Hs ltac:(apply Hs)) as H. revert H.
    unfold dwp, pb_readbyte, get, mbind, D_bind. rewrite (proj2 (Z.eqb_neq _ _)) by done.
    unfold buf_read, consume, get, put, mbind, D_bind. simpl. case_decide; [|done].
    simpl. intros (_ & k & [Hb ->] & Hk). auto.
Qed.

Lemma more_false (b : Z) : is_byte b -> more b = false -> 0 <= b < 128.
Proof.
  unfold more, nonzero, is_byte. intros Hb Hm. apply negb_false_iff, Z.eqb_eq in Hm.
  destruct (Z.ltb_spec b 128); [lia|]. exfalso.
  assert (Z.testbit b 7 = true) as Ht.
  { rewrite Z.testbit_true by lia. change (2 ^ 7) with 128. dlia. }
  assert (Z.testbit (Z.land b 0x80) 7 = true) as Ht2 by (rewrite Z.land_spec, Ht; done).
  by rewrite Hm in Ht2.
Qed.

Lemma varint32_multibyte_reader (fuel : nat) (byte : Z) :
  reader (Z.of_nat fuel) (varint32_multibyte fuel byte) (fun v k => (1 <= k)%nat /\ 0 <= v < 2 ^ 32).
Proof.
  eapply reader_bind; [apply varint32_loop_reader, low7_small|].
  intros [[r bp] b] j [? ?]. simpl in *. case_match; [apply reader_error|].
  apply reader_ret. split; [lia|done].
Qed.

(** [None] means that nothing was left. *)
Lemma varint32_eof_reader (N : Z) :
  reader N pb_decode_varint32_eof
    (fun r k => match r with Some v => (1 <= k)%nat /\ 0 <= v < 2 ^ 32 | None => k = O end).
Proof.
  intros s m Hs HN. unfold pb_decode_varint32_eof. apply dwp_bind. unfold get, dwp at 1.
  apply dwp_bind, dwp_on_stream. apply pb_readbyte_dwp; [done| |].
  - intros byte s1 Hb Hk. apply dwp_bind. unfold put, dwp at 1.
    destruct (more byte) eqn:Hm; simpl.
    + pose proof Hs as (? & _ & _). pose proof Hk as (_ & ? & _).
      apply dwp_bind. eapply dwp_mono; [apply varint32_multibyte_reader; [by eapply adv_ok|lia]| |].
      * intros v s2 m2 (-> & j & Hr & Hj). apply dwp_ret. split; [done|]. exists (1 + j)%nat.
        split; [|by eapply adv_trans]. split; [lia|by apply Hr].
      * intros s2 m2 [-> ?]. eauto with tlkm.
    + apply dwp_ret. split; [done|]. exists 1%nat. split; [|done]. split; [lia|].
      apply more_false in Hm; [lia|done].
  - intros H0. apply dwp_bind. unfold put, dwp at 1. simpl. rewrite H0. simpl.
    apply dwp_ret. split; [done|]. exists O. split; [done|]. by apply (adv_refl s).
Qed.

Lemma varint32_reader (N : Z) :
  reader N pb_decode_varint32 (fun v k => (1 <= k)%nat /\ 0 <= v < 2 ^ 32).
Proof.
  rd_step varint32_eof_reader as r k Hr. destruct r as [v|]; [|apply reader_fails].
  apply reader_ret. by rewrite Nat.add_0_r.
Qed.

Lemma varint_loop_reader (N : Z) (fuel : nat) (result bitpos : Z) :
  0 <= result < 2 ^ 64 -> 0 <= bitpos -> 70 <= bitpos + 7 * Z.of_nat fuel - 7 -> bitpos <= 70 ->
  reader N (varint_loop fuel result bitpos)
    (fun v k => (1 <= k)%nat /\ bitpos + 7 * Z.of_nat k <= 70 /\ 0 <= v < 2 ^ 64).
Proof.
  revert N result bitpos. induction fuel as [|fuel IH]; intros N result bitpos Hr Hb Hf Ht; [lia|].
  cbn [varint_loop]. destruct (Z.leb_spec 64 bitpos) as [Hl|Hl]; [apply reader_error|].
  rd_step pb_readbyte_reader as byte k [_ ->].
  assert (0 <= Z.lor result (u64 (Z.shiftl (low7 byte) bitpos)) < 2 ^ 64) as Hr'.
  { apply lor_range; [lia|done|apply u64_range]. }
  rewrite u8_small by lia. case_match.
  - eapply reader_weaken; [apply IH; [done|lia|lia|lia]|apply Z.le_refl|].
    simpl. intros v k (? & ? & ?). repeat split; lia.
  - apply reader_ret. repeat split; lia.
Qed.

Lemma varint_reader (N : Z) :
  reader N pb_decode_varint (fun v k => (1 <= k <= 10)%nat /\ 0 <= v < 2 ^ 64).
Proof.
  eapply reader_weaken; [apply varint_loop_reader; lia|apply Z.le_refl|].
  simpl. intros v k (? & ? & ?). split; [lia|done].
Qed.

Lemma skip_loop_reader (fuel : nat) : reader (Z.of_nat fuel) (skip_loop fuel) (fun _ k => (1 <= k)%nat).
Proof.
  induction fuel as [|fuel IH]; cbn [skip_loop]; [intros s m (? & _) ?; lia|].
  eapply reader_bind; [by apply (pb_read_reader _ 1)|]. intros bs k (_ & Hk & _). case_match.
  - eapply reader_weaken; [apply IH|lia|]. simpl. lia.
  - apply reader_ret. lia.
Qed.

Lemma skip_varint_reader (N : Z) : reader N pb_skip_varint (fun _ k => (1 <= k)%nat).
Proof.
  intros s m Hs HN. apply dwp_bind. unfold get, dwp at 1.
  apply skip_loop_reader; [done|]. destruct Hs as [? _]. lia.
Qed.

Lemma skip_bytes_reader (N count : Z) :
  0 <= count -> reader N (_ ← pb_read count; mret tt) (fun _ k => Z.of_nat k = count).
Proof.
  intros. eapply reader_bind; [by apply pb_read_reader|]. intros bs k (_ & Hk & _).
  apply reader_ret. lia.
Qed.

Lemma skip_string_reader (N : Z) : reader N pb_skip_string (fun _ k => (1 <= k)%nat).
Proof.
  rd_step varint32_reader as len k [Hk Hl].
  eapply reader_weaken; [apply skip_bytes_reader; lia|apply Z.le_refl|]. simpl. lia.
Qed.

Lemma skip_field_reader (N wire_type : Z) : reader N (pb_skip_field wire_type) (fun _ k => (1 <= k)%nat).
Proof.
  unfold pb_skip_field. repeat case_match; first
    [apply skip_varint_reader | apply skip_string_reader | apply reader_error
    | eapply reader_weaken; [by apply skip_bytes_reader|apply Z.le_refl|simpl; lia]].
Qed.

Lemma decode_tag_reader (N : Z) :
  reader N pb_decode_tag
    (fun r k => match r with Some (wt, tag) => (1 <= k)%nat /\ 0 <= wt < 8 /\ 0 <= tag < 2 ^ 29
                | None => k = O end).
Proof.
  rd_step varint32_eof_reader as r k Hr. destruct r as [v|]; apply reader_ret; rewrite Nat.add_0_r; [|done].
  destruct Hr as [? Hv]. split; [done|]. change 7 with (Z.ones 3). rewrite Z.land_ones by lia.
  rewrite Z.shiftr_div_pow2 by lia. change (2 ^ 3) with 8. dlia.
Qed.

Lemma raw_varint_reader (N max_size : Z) (fuel : nat) (buf : list Z) :
  Z.of_nat (length buf) <= max_size < Z.of_nat (length buf) + Z.of_nat fuel -> Forall is_byte buf ->
  reader N (raw_varint_loop fuel max_size buf)
    (fun bs k => (1 <= k)%nat /\ length bs = (length buf + k)%nat /\ Forall is_byte bs /\
                 Z.of_nat (length bs) <= max_size).
Proof.
  revert N buf. induction fuel as [|fuel IH]; intros N buf Hf Hb; cbn [raw_varint_loop]; [lia|].
  case_match eqn:Hm; [apply reader_error|]. apply Z.ltb_ge in Hm.
  eapply reader_bind; [by apply (pb_read_reader _ 1)|]. intros bs k (Hl & Hk & Hbs).
  assert (Forall is_byte (buf ++ bs)) by by apply Forall_app. case_match.
  - eapply reader_weaken; [apply IH; [rewrite length_app; lia|done]|apply Z.le_refl|].
    simpl. rewrite length_app. intros b j (? & ? & ? & ?). repeat split; try done; lia.
  - apply reader_ret. rewrite length_app. repeat split; try done; lia.
Qed.

Lemma raw_value_reader (N wire_type max_size : Z) :
  8 <= max_size ->
  reader N (read_raw_value wire_type max_size)
    (fun bs k => (1 <= k)%nat /\ length bs = k /\ Forall is_byte bs /\ Z.of_nat (length bs) <= max_size).
Proof.
  intros Hm. unfold read_raw_value. case_match.
  { eapply reader_weaken; [apply raw_varint_reader; [simpl; lia|done]|apply Z.le_refl|done]. }
  repeat case_match; try apply reader_error;
    (eapply reader_weaken; [by apply pb_read_reader|apply Z.le_refl|]);
    simpl; intros bs k (? & ? & ?); repeat split; try done; lia.
Qed.

Lemma svarint_reader (N : Z) : reader N pb_decode_svarint (fun _ k => (1 <= k <= 10)%nat).
Proof.
  rd_step varint_reader as v k [Hk _]. apply reader_ret. lia.
Qed.

(** ** Substreams *)

(** [sub] was split off [s], after [k] bytes, and left [s']. *)
Definition split_off (k : nat) (s sub s' : pb_istream) : Prop :=
  state sub = drop k (state s) /\ state s' = drop k (state s) /\ 0 <= bytes_left sub /\
  Z.of_nat k + bytes_left sub <= bytes_left s /\
  bytes_left s' = bytes_left s - Z.of_nat k - bytes_left sub.

Lemma split_off_ok (k : nat) (s sub s' : pb_istream) :
  stream_ok s -> split_off k s sub s' -> stream_ok sub.
Proof.
  intros (? & ? & Hb) (E1 & E2 & ? & ? & ?). unfold stream_ok. rewrite E1, length_drop.
  repeat split; try lia. by apply Forall_drop.
Qed.

Lemma split_off_fell (k : nat) (s sub s' : pb_istream) : split_off k s sub s' -> fell s s'.
Proof.
  intros (E1 & E2 & ? & ? & E3). exists k, (k + Z.to_nat (bytes_left sub))%nat.
  repeat split; [lia|done|lia|lia].
Qed.

Lemma make_substream_dwp (s : pb_istream) (m : mem) (Q : pb_istream -> pb_istream -> mem -> Prop) E :
  stream_ok s ->
  (forall k sub s', (1 <= k)%nat -> split_off k s sub s' -> Q sub s' m) ->
  (forall s', fell s s' -> E s' m) ->
  dwp pb_make_string_substream s m Q E.
Proof.
  intros Hs HQ HE. apply dwp_bind.
  eapply dwp_mono; [by apply (varint32_reader (2 ^ 64)), Hs| |by intros s' m' [-> ?]; auto].
  intros size s1 m1 (-> & k & [Hk Hsz] & Ha). apply dwp_bind. unfold get, dwp at 1.
  pose proof (adv_ok _ _ _ Hs Ha) as (? & ? & _). pose proof Ha as (E1 & E2 & ?).
  case_match eqn:Hlt.
  { apply HE. apply fell_error. by eapply adv_is_fell. }
  apply Z.ltb_ge in Hlt. unfold dwp, mbind, D_bind, put, mret, D_ret. rewrite u64_small by lia.
  apply (HQ k); [done|]. unfold split_off. simpl. rewrite E1. repeat split; lia.
Qed.

(** Closing a substream takes what it has left. *)
Lemma close_substream_eq (sub s : pb_istream) (m : mem) :
  stream_ok sub ->
  pb_close_string_substream sub s m
  = Ret tt (mk_istream (drop (Z.to_nat (bytes_left sub)) (state sub)) (bytes_left s) (errmsg sub)) m.
Proof.
  destruct sub as [st n e]. intros (Hn & Hw & _). simpl in *.
  unfold pb_close_string_substream, nonzero, mbind, D_bind. simpl.
  destruct (Z.eqb_spec n 0) as [->|]; simpl; [done|].
  unfold on_stream, pb_read, get, mbind, D_bind. simpl. rewrite Z.ltb_irrefl.
  unfold buf_read, consume, get, put, mbind, D_bind. simpl. by rewrite decide_True by lia.
Qed.

(** The parent has then read the whole of it, if the substream was read properly, and
    in any case has not read more. *)
Lemma close_substream_fell (k : nat) (s sub s1 sub' : pb_istream) (m : mem)
    (Q : unit -> pb_istream -> mem -> Prop) E :
  stream_ok s -> split_off k s sub s1 -> fell sub sub' ->
  (forall s2, fell s s2 -> Q tt s2 m) -> dwp (pb_close_string_substream sub') s1 m Q E.
Proof.
  intros Hs Hsp Hf HQ. pose proof (split_off_ok _ _ _ _ Hs Hsp) as Hok.
  pose proof (fell_ok _ _ Hok Hf) as Hok'. unfold dwp. rewrite close_substream_eq by done. apply HQ.
  destruct Hsp as (E1 & E2 & ? & ? & E3). destruct Hf as (i & j & ? & E4 & E5 & ?).
  destruct Hok' as (? & _ & _).
  exists (k + i + Z.to_nat (bytes_left sub'))%nat, (k + Z.to_nat (bytes_left sub))%nat. simpl.
  rewrite E4, E1, !drop_drop. repeat split; try lia. f_equal. lia.
Qed.

Lemma close_substream_adv (k j : nat) (s sub s1 sub' : pb_istream) (m : mem)
    (Q : unit -> pb_istream -> mem -> Prop) E :
  stream_ok s -> split_off k s sub s1 -> adv_by j sub sub' ->
  (forall s2, adv_by (k + Z.to_nat (bytes_left sub)) s s2 -> Q tt s2 m) ->
  dwp (pb_close_string_substream sub') s1 m Q E.
Proof.
  intros Hs Hsp Hf HQ. pose proof (split_off_ok _ _ _ _ Hs Hsp) as Hok.
  pose proof (adv_ok _ _ _ Hok Hf) as Hok'. unfold dwp. rewrite close_substream_eq by done. apply HQ.
  destruct Hsp as (E1 & E2 & ? & ? & E3). destruct Hf as (E4 & E5 & ?).
  destruct Hok' as (? & _ & _). unfold adv_by. simpl.
  rewrite E4, E1, !drop_drop. repeat split; try lia. f_equal. lia.
Qed.
End PbStream.
