(* ===== verification/PbFields.v ===== *)
(** * Message descriptors and the field iterator (nanopb/pb.h, nanopb/pb_common.c)

    A descriptor packs each field of a message into 1, 2 or 4 words; the iterator
    unpacks them and points into the message struct.  A descriptor pointer is a
    number, NULL is 0.  [pSize] points to the count or has_ member of the struct, to
    the array_size of the iterator itself for an array of fixed count, or, while such
    an array is decoded, to a local variable of pb_decode_inner, whose value it then
    carries.

    Proved: unpacking gives back what was packed, and pb_field_iter_find finds exactly
    the field with the tag asked for, from any position. *)
From S2P Require Import Prelude.
From S2P Require Export PbStream.

Module PbFields.
Export PbStream.

(** ** Types (pb.h) *)

Definition PB_LTYPE_VARINT : Z := 0x00.
Definition PB_LTYPE_UVARINT : Z := 0x01.
Definition PB_LTYPE_SVARINT : Z := 0x02.
Definition PB_LTYPE_FIXED32 : Z := 0x03.
Definition PB_LTYPE_FIXED64 : Z := 0x04.
Definition PB_LTYPE_LAST_PACKABLE : Z := 0x04.
Definition PB_LTYPE_BYTES : Z := 0x05.
Definition PB_LTYPE_STRING : Z := 0x06.
Definition PB_LTYPE_SUBMESSAGE : Z := 0x07.
Definition PB_LTYPE_EXTENSION : Z := 0x08.
Definition PB_LTYPE_FIXED_LENGTH_BYTES : Z := 0x09.

Definition PB_HTYPE_REQUIRED : Z := 0x00.
Definition PB_HTYPE_OPTIONAL : Z := 0x10.
Definition PB_HTYPE_REPEATED : Z := 0x20.
Definition PB_HTYPE_ONEOF : Z := 0x30.

Definition PB_ATYPE_STATIC : Z := 0x00.
Definition PB_ATYPE_POINTER : Z := 0x80.
Definition PB_ATYPE_CALLBACK : Z := 0x40.

Definition PB_ATYPE (x : Z) : Z := Z.land x 0xC0.
Definition PB_HTYPE (x : Z) : Z := Z.land x 0x30.
Definition PB_LTYPE (x : Z) : Z := Z.land x 0x0F.

Definition PB_SIZE_MAX : Z := u16 (-1).

(** PB_FIELDINFO_1, _2, _4: the words of a field *)
Definition PB_FIELDINFO_1 (tag type data_offset data_size size_offset array_size : Z) : list Z :=
  [Z.lor (Z.lor (Z.lor (Z.lor (Z.land (Z.shiftl tag 2) 0xFF) (Z.shiftl type 8))
     (Z.shiftl (Z.land (u32 data_offset) 0xFF) 16))
     (Z.shiftl (Z.land (u32 size_offset) 0x0F) 24))
     (Z.shiftl (Z.land (u32 data_size) 0x0F) 28)].

Definition PB_FIELDINFO_2 (tag type data_offset data_size size_offset array_size : Z) : list Z :=
  [Z.lor (Z.lor (Z.lor (Z.lor 1 (Z.land (Z.shiftl tag 2) 0xFF)) (Z.shiftl type 8))
     (Z.shiftl (Z.land (u32 array_size) 0xFFF) 16))
     (Z.shiftl (Z.land (u32 size_offset) 0x0F) 28);
   Z.lor (Z.lor (Z.land (u32 data_offset) 0xFFFF) (Z.shiftl (Z.land (u32 data_size) 0xFFF) 16))
     (u32 (Z.shiftl (Z.land (u32 tag) 0x2c0) 22))].

Definition PB_FIELDINFO_4 (tag type data_offset data_size size_offset array_size : Z) : list Z :=
  [Z.lor (Z.lor (Z.lor 2 (Z.land (Z.shiftl tag 2) 0xFF)) (Z.shiftl type 8))
     (Z.shiftl (Z.land (u32 array_size) 0xFFFF) 16);
   Z.lor (u32 (swrap 8 size_offset)) (Z.land (u32 (Z.shiftl (u32 tag) 2)) 0xFFFFFF00);
   data_offset; data_size].

Record pb_msgdesc := mk_msgdesc {
  field_count : Z;
  field_info : list Z;
  submsg_info : list Z;
  default_value : option (list Z);
  field_callback : bool  (* pb_default_field_callback or NULL *) }.

Inductive psize :=
| PS_NULL
| PS_ADDR (a : Z)
| PS_ARRAY_SIZE
| PS_FIXED_COUNT (n : Z).

Record pb_field_iter := mk_iter {
  descriptor : pb_msgdesc; message : Z;
  index : Z; field_info_index : Z; required_field_index : Z; submessage_index : Z;
  tag : Z; data_size : Z; array_size : Z; ftype : Z;
  pField : Z; pData : Z; pSize : psize; submsg_desc : Z }.

Definition set_pData (p : Z) (i : pb_field_iter) : pb_field_iter :=
  mk_iter (descriptor i) (message i) (index i) (field_info_index i) (required_field_index i)
    (submessage_index i) (tag i) (data_size i) (array_size i) (ftype i) (pField i) p (pSize i) (submsg_desc i).
Definition set_pSize (p : psize) (i : pb_field_iter) : pb_field_iter :=
  mk_iter (descriptor i) (message i) (index i) (field_info_index i) (required_field_index i)
    (submessage_index i) (tag i) (data_size i) (array_size i) (ftype i) (pField i) (pData i) p (submsg_desc i).
Definition set_array_size (n : Z) (i : pb_field_iter) : pb_field_iter :=
  mk_iter (descriptor i) (message i) (index i) (field_info_index i) (required_field_index i)
    (submessage_index i) (tag i) (data_size i) n (ftype i) (pField i) (pData i) (pSize i) (submsg_desc i).

(** ** The iterator (pb_common.c) *)
Section Iterator.
Context {S : Type}.

(** descriptor->field_info[i] *)
Definition info_word (d : pb_msgdesc) (i : Z) : D S Z :=
  match field_info d !! Z.to_nat i with Some w => mret w | None => undef end.

(** array_size, tag, size_offset, data_offset, data_size of the four formats *)
Definition unpack (d : pb_msgdesc) (i word0 : Z) : D S (Z * Z * Z * Z * Z) :=
  let format := Z.land word0 3 in
  let tag0 := u16 (Z.land (Z.shiftr word0 2) 0x3F) in
  if format =? 0 then
    mret (1, tag0, swrap 8 (Z.land (Z.shiftr word0 24) 0x0F), Z.land (Z.shiftr word0 16) 0xFF,
          u16 (Z.land (Z.shiftr word0 28) 0x0F))
  else if format =? 1 then
    word1 ← info_word d (i + 1);
    mret (u16 (Z.land (Z.shiftr word0 16) 0x0FFF), u16 (Z.lor tag0 (Z.shiftl (Z.shiftr word1 28) 6)),
          swrap 8 (Z.land (Z.shiftr word0 28) 0x0F), Z.land word1 0xFFFF,
          u16 (Z.land (Z.shiftr word1 16) 0x0FFF))
  else if format =? 2 then
    word1 ← info_word d (i + 1);
    word2 ← info_word d (i + 2);
    word3 ← info_word d (i + 3);
    mret (u16 (Z.shiftr word0 16), u16 (Z.lor tag0 (u32 (Z.shiftl (Z.shiftr word1 8) 6))),
          swrap 8 (Z.land word1 0xFF), word2, u16 word3)
  else
    word1 ← info_word d (i + 1);
    word2 ← info_word d (i + 2);
    word3 ← info_word d (i + 3);
    word4 ← info_word d (i + 4);
    mret (u16 word4, u16 (Z.lor tag0 (u32 (Z.shiftl (Z.shiftr word1 8) 6))),
          swrap 8 (Z.land word1 0xFF), word2, u16 word3).

Definition load_descriptor_values (iter : pb_field_iter) : D S (bool * pb_field_iter) :=
  let d := descriptor iter in
  if field_count d <=? index iter then mret (false, iter)
  else
    word0 ← info_word d (field_info_index iter);
    let type := u8 (Z.land (Z.shiftr word0 8) 0xFF) in
    '(array_size, tag, size_offset, data_offset, data_size) ← unpack d (field_info_index iter) word0;
    let pField := message iter + data_offset in
    let pSize :=
      if nonzero size_offset then PS_ADDR (pField - size_offset)
      else if (PB_HTYPE type =? PB_HTYPE_REPEATED) &&
              ((PB_ATYPE type =? PB_ATYPE_STATIC) || (PB_ATYPE type =? PB_ATYPE_POINTER))
      then PS_ARRAY_SIZE else PS_NULL in
    pData ← (if (PB_ATYPE type =? PB_ATYPE_POINTER) && nonzero pField then load_int pField 8
             else mret pField);
    submsg ← (if PB_LTYPE type =? PB_LTYPE_SUBMESSAGE then
                match submsg_info d !! Z.to_nat (submessage_index iter) with
                | Some p => mret p | None => undef end
              else mret 0);
    mret (true, mk_iter d (message iter) (index iter) (field_info_index iter) (required_field_index iter)
                  (submessage_index iter) tag data_size array_size type pField pData pSize submsg).

Definition set_position (i fi ri si : Z) (iter : pb_field_iter) : pb_field_iter :=
  mk_iter (descriptor iter) (message iter) i fi ri si (tag iter) (data_size iter) (array_size iter)
    (ftype iter) (pField iter) (pData iter) (pSize iter) (submsg_desc iter).

Definition advance_iterator (iter : pb_field_iter) : D S pb_field_iter :=
  let index := u16 (index iter + 1) in
  if field_count (descriptor iter) <=? index then mret (set_position 0 0 0 0 iter)
  else
    prev_descriptor ← info_word (descriptor iter) (field_info_index iter);
    let prev_type := u8 (Z.land (Z.shiftr prev_descriptor 8) 0xFF) in
    let descriptor_len := u16 (Z.shiftl 1 (Z.land prev_descriptor 3)) in
    mret (set_position index (u16 (field_info_index iter + descriptor_len))
            (if PB_HTYPE prev_type =? PB_HTYPE_REQUIRED then u16 (required_field_index iter + 1)
             else required_field_index iter)
            (if PB_LTYPE prev_type =? PB_LTYPE_SUBMESSAGE then u16 (submessage_index iter + 1)
             else submessage_index iter) iter).

Definition zero_iter (d : pb_msgdesc) (message : Z) : pb_field_iter :=
  mk_iter d message 0 0 0 0 0 0 0 0 0 0 PS_NULL 0.

Definition pb_field_iter_begin (d : pb_msgdesc) (message : Z) : D S (bool * pb_field_iter) :=
  load_descriptor_values (zero_iter d message).

Definition pb_field_iter_next (iter : pb_field_iter) : D S (bool * pb_field_iter) :=
  iter ← advance_iterator iter;
  '(_, iter) ← load_descriptor_values iter;
  mret (negb (index iter =? 0), iter).

(** A field whose tag has the same low bits: it is loaded and checked. *)
Definition check_candidate (want : Z) (iter : pb_field_iter) : D S (bool * pb_field_iter) :=
  fieldinfo ← info_word (descriptor iter) (field_info_index iter);
  if Z.land (Z.shiftr fieldinfo 2) 0x3F =? Z.land want 0x3F then
    '(_, iter) ← load_descriptor_values iter;
    mret ((tag iter =? want) && negb (PB_LTYPE (ftype iter) =? PB_LTYPE_EXTENSION), iter)
  else mret (false, iter).

Fixpoint find_loop (fuel : nat) (start want : Z) (iter : pb_field_iter) : D S (bool * pb_field_iter) :=
  match fuel with
  | O => undef
  | Datatypes.S fuel =>
      iter ← advance_iterator iter;
      '(found, iter) ← check_candidate want iter;
      if (found : bool) then mret (true, iter)
      else if index iter =? start then
        '(_, iter) ← load_descriptor_values iter; mret (false, iter)
      else find_loop fuel start want iter
  end.

(** The loop ends when the index is back at its start: at most field_count rounds. *)
Definition pb_field_iter_find (iter : pb_field_iter) (want : Z) : D S (bool * pb_field_iter) :=
  if tag iter =? want then mret (true, iter)
  else find_loop (Datatypes.S (Z.to_nat (field_count (descriptor iter)))) (index iter) want iter.

End Iterator.


(** ** Fields, unpacked *)

Inductive width := W1 | W2 | W4.

Record field := mk_field {
  f_width : width; f_tag : Z; f_type : Z; f_offset : Z; f_dsize : Z; f_soff : Z; f_asize : Z }.

Definition words (f : field) : list Z :=
  match f_width f with
  | W1 => PB_FIELDINFO_1 (f_tag f) (f_type f) (f_offset f) (f_dsize f) (f_soff f) (f_asize f)
  | W2 => PB_FIELDINFO_2 (f_tag f) (f_type f) (f_offset f) (f_dsize f) (f_soff f) (f_asize f)
  | W4 => PB_FIELDINFO_4 (f_tag f) (f_type f) (f_offset f) (f_dsize f) (f_soff f) (f_asize f)
  end.

(** PB_FIELDINFO_ASSERT_1, _2, _4.  Where they are too weak the condition is
    stronger: the 1-word format does not store array_size, and PB_FIELDINFO_2 loses
    bit 8 of the tag. *)
Definition fits (f : field) : Prop :=
  0 <= f_type f < 2 ^ 8 /\
  match f_width f with
  | W1 => 0 <= f_tag f < 2 ^ 6 /\ 0 <= f_offset f < 2 ^ 8 /\ 0 <= f_soff f < 2 ^ 4 /\
          0 <= f_dsize f < 2 ^ 4 /\ f_asize f = 1
  | W2 => 0 <= f_tag f < 2 ^ 10 /\ Z.testbit (f_tag f) 8 = false /\ 0 <= f_offset f < 2 ^ 16 /\
          0 <= f_soff f < 2 ^ 4 /\ 0 <= f_dsize f < 2 ^ 12 /\ 0 <= f_asize f < 2 ^ 12
  | W4 => 0 <= f_tag f < 2 ^ 16 /\ 0 <= f_offset f < 2 ^ 16 /\ 0 <= f_soff f < 2 ^ 7 /\
          0 <= f_dsize f < 2 ^ 16 /\ 0 <= f_asize f < 2 ^ 16
  end.

(** Disjoint bits add up. *)
Lemma lor_shiftl_add (a b n : Z) : 0 <= n -> 0 <= a < 2 ^ n -> Z.lor a (Z.shiftl b n) = a + b * 2 ^ n.
Proof.
  intros Hn Ha. rewrite <- Z.add_lor_land, Z.shiftl_mul_pow2 by lia.
  assert (Z.land a (b * 2 ^ n) = 0) as ->; [|lia].
  rewrite <- Z.shiftl_mul_pow2 by lia. apply Z.bits_inj_iff'. intros i Hi.
  rewrite Z.land_spec, Z.bits_0. destruct (Z.ltb_spec i n).
  - by rewrite Z.shiftl_spec_low, andb_false_r.
  - by rewrite (proj1 (Z.bounded_iff_bits_nonneg' n a ltac:(lia) ltac:(lia)) ltac:(lia) i ltac:(lia)).
Qed.

Lemma land_mod (x n : Z) : 0 <= n -> Z.land x (Z.ones n) = x mod 2 ^ n.
Proof. intros. by apply Z.land_ones. Qed.

Ltac masks :=
  change 0xFFFF with (Z.ones 16); change 0xFFF with (Z.ones 12); change 0xFF with (Z.ones 8);
  change 0x3F with (Z.ones 6); change 0x0F with (Z.ones 4); change 3 with (Z.ones 2);
  rewrite ?land_mod, ?Z.shiftr_div_pow2 by lia.
Ltac pows :=
  change (2 ^ 2) with 4; change (2 ^ 4) with 16; change (2 ^ 6) with 64; change (2 ^ 8) with 256;
  change (2 ^ 12) with 4096; change (2 ^ 16) with 65536; change (2 ^ 24) with 16777216;
  change (2 ^ 28) with 268435456.

(** Inside out: the left operand is below the shift. *)
Ltac lors := repeat (rewrite lor_shiftl_add by (pows; dlia)).

Section Pack.
Context (tag type off dsize soff asize : Z).
Hypothesis Htype : 0 <= type < 2 ^ 8.

Lemma pack1 :
  0 <= tag < 2 ^ 6 -> 0 <= off < 2 ^ 8 -> 0 <= soff < 2 ^ 4 -> 0 <= dsize < 2 ^ 4 ->
  exists w, PB_FIELDINFO_1 tag type off dsize soff asize = [w] /\
    Z.land w 3 = 0 /\ Z.land (Z.shiftr w 2) 0x3F = tag /\ Z.land (Z.shiftr w 8) 0xFF = type /\
    Z.land (Z.shiftr w 24) 0x0F = soff /\ Z.land (Z.shiftr w 16) 0xFF = off /\
    Z.land (Z.shiftr w 28) 0x0F = dsize.
Proof.
  intros Ht Ho Hs Hd. exists (tag * 4 + type * 256 + off * 65536 + soff * 16777216 + dsize * 268435456).
  split.
  - unfold PB_FIELDINFO_1. rewrite !u32_small by lia. masks. rewrite (Z.shiftl_mul_pow2 tag) by lia.
    rewrite !Z.mod_small by (pows; lia).
    rewrite (lor_shiftl_add _ type), (lor_shiftl_add _ off), (lor_shiftl_add _ soff),
      (lor_shiftl_add _ dsize) by (pows; lia).
    done.
  - masks. pows. repeat split; dlia.
Qed.

Lemma high_tag_bits : 0 <= tag < 2 ^ 10 -> Z.testbit tag 8 = false -> Z.land tag 0x2c0 = Z.shiftl (tag / 64) 6.
Proof.
  intros Ht H8. change 64 with (2 ^ 6). rewrite <- Z.shiftr_div_pow2 by lia.
  apply Z.bits_inj_iff'. intros i Hi. rewrite Z.land_spec.
  destruct (Z.ltb_spec i 6).
  { rewrite (Z.shiftl_spec_low _ 6 i) by lia.
    assert (i = 0 \/ i = 1 \/ i = 2 \/ i = 3 \/ i = 4 \/ i = 5) as Hc by lia.
    by destruct Hc as [->|[->|[->|[->|[->| ->]]]]]; rewrite andb_false_r. }
  rewrite Z.shiftl_spec, Z.shiftr_spec by lia. replace (i - 6 + 6) with i by lia.
  destruct (Z.ltb_spec i 10).
  - assert (i = 6 \/ i = 7 \/ i = 8 \/ i = 9) as Hc by lia.
    destruct Hc as [->|[->|[->| ->]]]; rewrite ?H8, ?andb_true_r; done.
  - by rewrite (proj1 (Z.bounded_iff_bits_nonneg' 10 tag ltac:(lia) ltac:(lia)) ltac:(lia) i ltac:(lia)).
Qed.

Lemma pack2 :
  0 <= tag < 2 ^ 10 -> Z.testbit tag 8 = false -> 0 <= off < 2 ^ 16 -> 0 <= soff < 2 ^ 4 ->
  0 <= dsize < 2 ^ 12 -> 0 <= asize < 2 ^ 12 ->
  exists w v, PB_FIELDINFO_2 tag type off dsize soff asize = [w; v] /\
    Z.land w 3 = 1 /\ Z.land (Z.shiftr w 2) 0x3F = tag mod 64 /\ Z.land (Z.shiftr w 8) 0xFF = type /\
    Z.land (Z.shiftr w 16) 0xFFF = asize /\ Z.land (Z.shiftr w 28) 0x0F = soff /\
    Z.shiftr v 28 = tag / 64 /\ Z.land v 0xFFFF = off /\ Z.land (Z.shiftr v 16) 0xFFF = dsize.
Proof.
  intros Ht Ht8 Ho Hs Hd Ha.
  exists (1 + tag mod 64 * 4 + type * 256 + asize * 65536 + soff * 268435456),
         (off + dsize * 65536 + tag / 64 * 268435456).
  split.
  - unfold PB_FIELDINFO_2. rewrite (u32_small off), (u32_small dsize), (u32_small soff),
      (u32_small asize), (u32_small tag) by lia.
    rewrite high_tag_bits, Z.shiftl_shiftl by (done || lia). masks.
    assert (Z.shiftl tag 2 mod 2 ^ 8 = Z.shiftl (tag mod 64) 2) as ->.
    { rewrite !Z.shiftl_mul_pow2 by lia. pows. dlia. }
    rewrite !(Z.mod_small off), !(Z.mod_small dsize), !(Z.mod_small soff), !(Z.mod_small asize) by (pows; lia).
    rewrite (u32_small (Z.shiftl (tag / 64) (6 + 22))).
    2: { rewrite Z.shiftl_mul_pow2 by lia. pows. change (2 ^ (6 + 22)) with 268435456. dlia. }
    rewrite (lor_shiftl_add 1), (lor_shiftl_add _ type), (lor_shiftl_add _ asize),
      (lor_shiftl_add _ soff), (lor_shiftl_add _ dsize), (lor_shiftl_add _ (tag / 64))
      by (pows; try change (2 ^ (6 + 22)) with 268435456; dlia).
    done.
  - masks. pows. repeat split; dlia.
Qed.

Lemma upper_tag_bits : 0 <= tag < 2 ^ 16 -> Z.land (Z.shiftl tag 2) 0xFFFFFF00 = Z.shiftl (tag / 64) 8.
Proof.
  intros Ht. change 64 with (2 ^ 6). rewrite <- Z.shiftr_div_pow2 by lia.
  change 0xFFFFFF00 with (Z.shiftl (Z.ones 24) 8).
  apply Z.bits_inj_iff'. intros i Hi. rewrite Z.land_spec.
  destruct (Z.ltb_spec i 8); [by rewrite !(Z.shiftl_spec_low _ 8 i), andb_false_r by lia|].
  rewrite !Z.shiftl_spec, Z.shiftr_spec by lia. replace (i - 8 + 6) with (i - 2) by lia.
  rewrite Z.ones_spec by lia. case_bool_decide; [by rewrite andb_true_r|].
  by rewrite (proj1 (Z.bounded_iff_bits_nonneg' 16 tag ltac:(lia) ltac:(lia)) ltac:(lia) (i - 2) ltac:(lia)).
Qed.

Lemma pack4 :
  0 <= tag < 2 ^ 16 -> 0 <= soff < 2 ^ 7 -> 0 <= asize < 2 ^ 16 ->
  exists w v, PB_FIELDINFO_4 tag type off dsize soff asize = [w; v; off; dsize] /\
    Z.land w 3 = 2 /\ Z.land (Z.shiftr w 2) 0x3F = tag mod 64 /\ Z.land (Z.shiftr w 8) 0xFF = type /\
    Z.shiftr w 16 = asize /\ Z.shiftr v 8 = tag / 64 /\ Z.land v 0xFF = soff.
Proof.
  intros Ht Hs Ha.
  exists (2 + tag mod 64 * 4 + type * 256 + asize * 65536), (soff + tag / 64 * 256).
  split.
  - unfold PB_FIELDINFO_4. rewrite (u32_small asize), (u32_small tag) by lia.
    rewrite (swrap_small 8 soff), (u32_small soff), (u32_small (Z.shiftl tag 2))
      by (rewrite ?Z.shiftl_mul_pow2 by lia; pows; lia).
    assert (Z.land (Z.shiftl tag 2) 0xFFFFFF00 = Z.shiftl (tag / 64) 8) as ->.
    { by apply upper_tag_bits. }
    masks.
    assert (Z.shiftl tag 2 mod 2 ^ 8 = Z.shiftl (tag mod 64) 2) as ->.
    { rewrite !Z.shiftl_mul_pow2 by lia. pows. dlia. }
    rewrite (Z.mod_small asize) by (pows; lia).
    rewrite (lor_shiftl_add 2), (lor_shiftl_add _ type), (lor_shiftl_add _ asize), (lor_shiftl_add soff)
      by (pows; dlia).
    done.
  - masks. pows. repeat split; dlia.
Qed.
End Pack.


(** ** The iterator on a list of fields *)

(** PB_BIND: the descriptor of a message. *)
Definition PB_BIND (fs : list field) (submsgs : list Z) (default : option (list Z)) (callback : bool)
    : pb_msgdesc :=
  mk_msgdesc (Z.of_nat (length fs)) (concat (map words fs) ++ [0]) (submsgs ++ [0]) default callback.

Definition is_required (f : field) : bool := PB_HTYPE (f_type f) =? PB_HTYPE_REQUIRED.
Definition is_submsg (f : field) : bool := PB_LTYPE (f_type f) =? PB_LTYPE_SUBMESSAGE.

(** What PB_BIND checks or relies on, for the messages of this build: no pointers
    (there is no malloc support) and no extensions. *)
Record wf_fields (fs : list field) (submsgs : list Z) : Prop := {
  wf_fits : Forall fits fs;
  wf_nopointer : Forall (fun f => PB_ATYPE (f_type f) <> PB_ATYPE_POINTER) fs;
  wf_noextension : Forall (fun f => PB_LTYPE (f_type f) <> PB_LTYPE_EXTENSION) fs;
  wf_words : Z.of_nat (length (concat (map words fs))) < 2 ^ 16;
  wf_submsgs : (length (List.filter is_submsg fs) <= length submsgs)%nat }.

Definition psize_at (f : field) (message : Z) : psize :=
  if nonzero (f_soff f) then PS_ADDR (message + f_offset f - f_soff f)
  else if (PB_HTYPE (f_type f) =? PB_HTYPE_REPEATED) &&
          ((PB_ATYPE (f_type f) =? PB_ATYPE_STATIC) || (PB_ATYPE (f_type f) =? PB_ATYPE_POINTER))
  then PS_ARRAY_SIZE else PS_NULL.

Section OnFields.
Context (fs : list field) (submsgs : list Z) (default : option (list Z)) (callback : bool).
Context (Hwf : wf_fields fs submsgs).
Notation d := (PB_BIND fs submsgs default callback).

Definition info_pos (i : nat) : Z := Z.of_nat (length (concat (map words (take i fs)))).
Definition req_pos (i : nat) : Z := Z.of_nat (length (List.filter is_required (take i fs))).
Definition sub_pos (i : nat) : Z := Z.of_nat (length (List.filter is_submsg (take i fs))).

(** The iterator at field i, loaded. *)
Definition iter_at (message : Z) (i : nat) (f : field) : pb_field_iter :=
  mk_iter d message (Z.of_nat i) (info_pos i) (req_pos i) (sub_pos i)
    (f_tag f) (f_dsize f) (f_asize f) (f_type f) (message + f_offset f) (message + f_offset f)
    (psize_at f message)
    (if is_submsg f then nth (Z.to_nat (sub_pos i)) (submsgs ++ [0]) 0 else 0).

(** The iterator is at field i; the values of a field may still be those of another. *)
Definition at_pos (message : Z) (i : nat) (iter : pb_field_iter) : Prop :=
  descriptor iter = d /\ PbFields.message iter = message /\ index iter = Z.of_nat i /\
  field_info_index iter = info_pos i /\ required_field_index iter = req_pos i /\
  submessage_index iter = sub_pos i.

Lemma iter_at_pos (message : Z) (i : nat) (f : field) : at_pos message i (iter_at message i f).
Proof. done. Qed.

Lemma concat_split (i : nat) (f : field) :
  fs !! i = Some f ->
  concat (map words fs)
  = concat (map words (take i fs)) ++ words f ++ concat (map words (drop (Datatypes.S i) fs)).
Proof.
  intros Hf. rewrite <- (take_drop_middle fs i f Hf) at 1. by rewrite map_app, concat_app.
Qed.

Lemma info_lookup (i k : nat) (f : field) (w : Z) :
  fs !! i = Some f -> words f !! k = Some w ->
  field_info d !! Z.to_nat (info_pos i + Z.of_nat k) = Some w.
Proof.
  intros Hf Hw. unfold info_pos. rewrite <- Nat2Z.inj_add, Nat2Z.id. simpl.
  rewrite concat_split with (1 := Hf), <- !(assoc_L (++)).
  rewrite lookup_app_r by lia. replace (_ + k - _)%nat with k by lia.
  by rewrite lookup_app_l by (by eapply lookup_lt_Some).
Qed.

Lemma info_word_at {S} (i k : nat) (f : field) (w : Z) (s : S) (m : mem) :
  fs !! i = Some f -> words f !! k = Some w ->
  info_word d (info_pos i + Z.of_nat k) s m = Ret w s m.
Proof. intros Hf Hw. unfold info_word. by rewrite (info_lookup i k f w). Qed.

(** Unpacking gives back what was packed. *)
Lemma unpack_words {S} (i : nat) (f : field) (s : S) (m : mem) :
  fs !! i = Some f -> fits f ->
  exists w, words f !! O = Some w /\ Z.land (Z.shiftr w 8) 0xFF = f_type f /\
    Z.land (Z.shiftr w 2) 0x3F = f_tag f mod 64 /\
    Z.shiftl 1 (Z.land w 3) = Z.of_nat (length (words f)) /\
    unpack d (info_pos i) w s m = Ret (f_asize f, f_tag f, f_soff f, f_offset f, f_dsize f) s m.
Proof.
  intros Hf [Hty Hfit].
  pose proof (fun k w => info_word_at (S := S) i k f w s m Hf) as Hw.
  unfold words in *. destruct (f_width f).
  - destruct Hfit as (Ht & Ho & Hs & Hd & ->).
    destruct (pack1 (f_tag f) (f_type f) (f_offset f) (f_dsize f) (f_soff f) 1)
      as (w & E & E3 & Et & Ety & Es & Eo & Ed); [done..|].
    rewrite E in *. exists w. split; [done|]. split; [done|]. rewrite Z.mod_small by lia.
    split; [done|]. rewrite E3. split; [done|].
    unfold unpack. rewrite E3, Es, Eo, Ed, Et. simpl. rewrite !u16_small, swrap_small by lia. done.
  - destruct Hfit as (Ht & H8 & Ho & Hs & Hd & Ha).
    destruct (pack2 (f_tag f) (f_type f) (f_offset f) (f_dsize f) (f_soff f) (f_asize f))
      as (w & v & E & E3 & Et & Ety & Ea & Es & Eh & Eo & Ed); [done..|].
    rewrite E in *. exists w. split; [done|]. split; [done|]. split; [done|]. rewrite E3. split; [done|].
    unfold unpack. rewrite E3. simpl. unfold mbind, D_bind. rewrite (Hw 1%nat v eq_refl : info_word d (info_pos i + 1) s m = _).
    rewrite Ea, Es, Eh, Eo, Ed, Et. simpl. rewrite (u16_small (f_tag f mod 64)) by dlia.
    rewrite lor_shiftl_add by (pows; dlia). pows.
    replace (f_tag f mod 64 + f_tag f / 64 * 64) with (f_tag f) by dlia.
    by rewrite !u16_small, swrap_small by lia.
  - destruct Hfit as (Ht & Ho & Hs & Hd & Ha).
    destruct (pack4 (f_tag f) (f_type f) (f_offset f) (f_dsize f) (f_soff f) (f_asize f))
      as (w & v & E & E3 & Et & Ety & Ea & Eh & Es); [done..|].
    rewrite E in *. exists w. split; [done|]. split; [done|]. split; [done|]. rewrite E3. split; [done|].
    unfold unpack. rewrite E3. simpl. unfold mbind, D_bind.
    rewrite (Hw 1%nat v eq_refl : info_word d (info_pos i + 1) s m = _),
      (Hw 2%nat _ eq_refl : info_word d (info_pos i + 2) s m = _),
      (Hw 3%nat _ eq_refl : info_word d (info_pos i + 3) s m = _).
    rewrite Ea, Es, Eh, Et. simpl. rewrite (u16_small (f_tag f mod 64)) by dlia.
    rewrite (u32_small (Z.shiftl (f_tag f / 64) 6)) by (rewrite Z.shiftl_mul_pow2 by lia; pows; dlia).
    rewrite lor_shiftl_add by (pows; dlia). pows.
    replace (f_tag f mod 64 + f_tag f / 64 * 64) with (f_tag f) by dlia.
    by rewrite !u16_small, swrap_small by lia.
Qed.

Lemma wf_lookup (i : nat) (f : field) :
  fs !! i = Some f -> fits f /\ PB_ATYPE (f_type f) <> PB_ATYPE_POINTER /\
    PB_LTYPE (f_type f) <> PB_LTYPE_EXTENSION.
Proof.
  intros Hf. destruct Hwf as [H1 H2 H3 _ _].
  split; [|split]; [exact (Forall_lookup_1 _ _ _ _ H1 Hf)|exact (Forall_lookup_1 _ _ _ _ H2 Hf)|
    exact (Forall_lookup_1 _ _ _ _ H3 Hf)].
Qed.

Lemma filter_pos (p : field -> bool) (i : nat) (f : field) :
  fs !! i = Some f ->
  length (List.filter p (take (Datatypes.S i) fs))
  = (length (List.filter p (take i fs)) + if p f then 1 else 0)%nat.
Proof.
  intros Hf. rewrite (take_S_r _ _ _ Hf), List.filter_app, length_app. simpl. by destruct (p f).
Qed.

Lemma filter_bound (p : field -> bool) (i : nat) :
  (length (List.filter p (take i fs)) <= length (List.filter p fs))%nat.
Proof.
  rewrite <- (take_drop i fs) at 2. rewrite List.filter_app, length_app. lia.
Qed.

Lemma info_bound (i : nat) : info_pos i <= Z.of_nat (length (concat (map words fs))).
Proof.
  unfold info_pos. rewrite <- (take_drop i fs) at 2. rewrite map_app, concat_app, length_app. lia.
Qed.

Lemma words_pos (f : field) : (1 <= length (words f))%nat.
Proof. unfold words. destruct (f_width f); simpl; lia. Qed.

Lemma fields_le_words (l : list field) : (length l <= length (concat (map words l)))%nat.
Proof. induction l as [|f l IH]; simpl; [lia|]. rewrite length_app. pose proof (words_pos f). lia. Qed.

Lemma load_at {S} (message : Z) (i : nat) (f : field) (iter : pb_field_iter) (s : S) (m : mem) :
  fs !! i = Some f -> at_pos message i iter ->
  load_descriptor_values iter s m = Ret (true, iter_at message i f) s m.
Proof.
  intros Hf (Ed & Em & Ei & Efi & Eri & Esi).
  destruct (wf_lookup i f Hf) as (Hfit & Hp & He). pose proof (lookup_lt_Some _ _ _ Hf) as Hlt.
  destruct (unpack_words (S := S) i f s m Hf Hfit) as (w & Hw & Ety & _ & _ & Eu).
  unfold load_descriptor_values. rewrite Ed, Em, Ei, Efi, Eri, Esi. cbn [field_count].
  rewrite (proj2 (Z.leb_gt _ _)) by (simpl; lia).
  unfold mbind, D_bind. pose proof (info_word_at (S := S) i 0 f w s m Hf Hw) as E0.
  change (Z.of_nat 0) with 0 in E0. rewrite Z.add_0_r in E0. rewrite E0. cbv beta.
  rewrite Ety, Eu, (u8_small (f_type f)) by apply Hfit.
  rewrite (proj2 (Z.eqb_neq (PB_ATYPE (f_type f)) _) Hp). cbn [andb mret D_ret].
  unfold iter_at, psize_at, is_submsg. rewrite (proj2 (Z.eqb_neq (PB_ATYPE (f_type f)) _) Hp).
  destruct (PB_LTYPE (f_type f) =? PB_LTYPE_SUBMESSAGE) eqn:Esub; [|done].
  assert (Z.to_nat (sub_pos i) < length (submsgs ++ [0%Z]))%nat as Hsub.
  { unfold sub_pos. rewrite Nat2Z.id, length_app. simpl. pose proof (filter_bound is_submsg i).
    destruct Hwf as [_ _ _ _ Hs]. lia. }
  destruct (lookup_lt_is_Some_2 _ _ Hsub) as [p Hp2]. simpl. rewrite Hp2.
  by rewrite (nth_lookup_Some _ _ _ _ Hp2).
Qed.

Definition succ_pos (i : nat) : nat := if decide (Datatypes.S i < length fs)%nat then Datatypes.S i else O.

Lemma advance_at {S} (message : Z) (i : nat) (f : field) (iter : pb_field_iter) (s : S) (m : mem) :
  fs !! i = Some f -> at_pos message i iter ->
  exists iter', advance_iterator iter s m = Ret iter' s m /\ at_pos message (succ_pos i) iter'.
Proof.
  intros Hf (Ed & Em & Ei & Efi & Eri & Esi).
  destruct (wf_lookup i f Hf) as (Hfit & Hp & He). pose proof (lookup_lt_Some _ _ _ Hf) as Hlt.
  destruct (unpack_words (S := S) i f s m Hf Hfit) as (w & Hw & Ety & _ & Elen & _).
  pose proof (fields_le_words fs). pose proof (wf_words _ _ Hwf) as Hww.
  unfold advance_iterator. rewrite Ei, Ed. rewrite u16_small by lia. unfold succ_pos. case_decide as Hn.
  - cbn [field_count PB_BIND]. rewrite (proj2 (Z.leb_gt _ _)) by lia.
    unfold mbind, D_bind. pose proof (info_word_at (S := S) i 0 f w s m Hf Hw) as E0.
    change (Z.of_nat 0) with 0 in E0. rewrite Z.add_0_r in E0. rewrite Efi, E0.
    rewrite Ety, Elen, (u8_small (f_type f)) by apply Hfit.
    eexists. split; [reflexivity|]. unfold at_pos, set_position. simpl.
    pose proof (info_bound (Datatypes.S i)) as Hib.
    assert (info_pos (Datatypes.S i) = info_pos i + Z.of_nat (length (words f))) as Eip.
    { unfold info_pos. rewrite (take_S_r _ _ _ Hf), map_app, concat_app, length_app. simpl.
      rewrite app_nil_r. lia. }
    assert (0 <= info_pos i) by (unfold info_pos; lia).
    pose proof (filter_pos is_required i f Hf) as Er. pose proof (filter_pos is_submsg i f Hf) as Es.
    pose proof (filter_bound is_required (Datatypes.S i)). pose proof (filter_bound is_submsg (Datatypes.S i)).
    pose proof (List.filter_length_le is_required fs). pose proof (List.filter_length_le is_submsg fs).
    rewrite Eri, Esi. fold (is_required f) (is_submsg f). unfold req_pos, sub_pos. rewrite Er, Es.
    rewrite (u16_small (Z.of_nat (length (words f)))), (u16_small (info_pos i + _)) by lia.
    repeat split; [done|done|lia|lia| |].
    + destruct (is_required f); [rewrite u16_small by lia|]; lia.
    + destruct (is_submsg f); [rewrite u16_small by lia|]; lia.
  - cbn [field_count PB_BIND]. rewrite (proj2 (Z.leb_le _ _)) by lia.
    eexists. split; [reflexivity|]. done.
Qed.

Lemma succ_lookup (i : nat) : (i < length fs)%nat -> exists g, fs !! succ_pos i = Some g.
Proof. intros. apply lookup_lt_is_Some_2. unfold succ_pos. case_decide; lia. Qed.

Lemma next_at {S} (message : Z) (i : nat) (f g : field) (iter : pb_field_iter) (s : S) (m : mem) :
  fs !! i = Some f -> fs !! succ_pos i = Some g -> at_pos message i iter ->
  pb_field_iter_next iter s m
  = Ret (negb (Z.of_nat (succ_pos i) =? 0), iter_at message (succ_pos i) g) s m.
Proof.
  intros Hf Hg Hi. destruct (advance_at message i f iter s m Hf Hi) as (iter' & E & Hi').
  unfold pb_field_iter_next, mbind, D_bind. rewrite E.
  by rewrite (load_at message (succ_pos i) g iter' s m Hg Hi').
Qed.

Lemma begin_at {S} (message : Z) (f : field) (s : S) (m : mem) :
  fs !! O = Some f -> pb_field_iter_begin d message s m = Ret (true, iter_at message 0 f) s m.
Proof. intros Hf. apply load_at; [done|]. done. Qed.

Lemma check_at {S} (message want : Z) (j : nat) (g : field) (iter : pb_field_iter) (s : S) (m : mem) :
  fs !! j = Some g -> at_pos message j iter ->
  exists iter', check_candidate want iter s m = Ret (f_tag g =? want, iter') s m /\
    at_pos message j iter' /\ (f_tag g = want -> iter' = iter_at message j g).
Proof.
  intros Hg Hj. destruct (wf_lookup j g Hg) as (Hfit & Hp & He).
  destruct (unpack_words (S := S) j g s m Hg Hfit) as (w & Hw & _ & Etag & _).
  pose proof (info_word_at (S := S) j 0 g w s m Hg Hw) as E0.
  change (Z.of_nat 0) with 0 in E0. rewrite Z.add_0_r in E0.
  unfold check_candidate, mbind, D_bind. pose proof Hj as (Ed & _ & _ & Efi & _). rewrite Ed, Efi, E0.
  rewrite Etag. change 0x3F with (Z.ones 6) at 1. rewrite land_mod by lia. change (2 ^ 6) with 64.
  destruct (Z.eqb_spec (f_tag g mod 64) (want mod 64)) as [El|El].
  - rewrite (load_at message j g iter s m Hg Hj). cbn [tag ftype iter_at].
    rewrite (proj2 (Z.eqb_neq (PB_LTYPE (f_type g)) _) He), andb_true_r.
    exists (iter_at message j g). split; [done|]. split; [apply iter_at_pos|done].
  - exists iter. destruct (Z.eqb_spec (f_tag g) want) as [E|E]; [by rewrite E in El|]. done.
Qed.

(** The k-th position after i, round robin. *)
Definition nth_pos (i k : nat) : nat :=
  if decide (i + k < length fs)%nat then (i + k)%nat else (i + k - length fs)%nat.

Lemma succ_nth_pos (i k : nat) :
  (i < length fs)%nat -> (k < length fs)%nat -> succ_pos (nth_pos i k) = nth_pos i (Datatypes.S k).
Proof. intros Hi Hk. unfold succ_pos, nth_pos. repeat case_decide; lia. Qed.

Lemma nth_pos_lt (i k : nat) : (i < length fs)%nat -> (k <= length fs)%nat -> (nth_pos i k < length fs)%nat.
Proof. intros. unfold nth_pos. case_decide; lia. Qed.

Lemma nth_pos_start (i k : nat) :
  (i < length fs)%nat -> (0 < k <= length fs)%nat -> nth_pos i k = i <-> k = length fs.
Proof. intros. unfold nth_pos. case_decide; lia. Qed.

Lemma nth_pos_all (i j : nat) :
  (i < length fs)%nat -> (j < length fs)%nat -> exists k, (k <= length fs)%nat /\ nth_pos i k = j.
Proof.
  intros. unfold nth_pos. destruct (decide (i <= j)%nat).
  - exists (j - i)%nat. rewrite decide_True by lia. lia.
  - exists (j + length fs - i)%nat. rewrite decide_False by lia. lia.
Qed.

Lemma find_loop_at {S} (message want : Z) (i : nat) (f : field) (iter : pb_field_iter) (s : S) (m : mem)
    (k r fuel : nat) :
  NoDup (map f_tag fs) -> fs !! i = Some f -> f_tag f <> want ->
  at_pos message (nth_pos i k) iter -> (k + r = length fs)%nat -> (0 < r <= fuel)%nat ->
  (forall k' g, (k' <= k)%nat -> fs !! nth_pos i k' = Some g -> f_tag g <> want) ->
  find_loop fuel (Z.of_nat i) want iter s m
  = match list_find (fun g => f_tag g = want) fs with
    | Some (j, g) => Ret (true, iter_at message j g) s m
    | None => Ret (false, iter_at message i f) s m
    end.
Proof.
  intros Hnd Hf Hne. revert iter k fuel. induction r as [|r IH]; intros iter k fuel Hpos Hkr Hfuel Hnone; [lia|].
  destruct fuel as [|fuel]; [lia|]. cbn [find_loop]. pose proof (lookup_lt_Some _ _ _ Hf) as Hlt.
  destruct (lookup_lt_is_Some_2 fs (nth_pos i k)) as [h Hh]; [apply nth_pos_lt; lia|].
  destruct (advance_at message (nth_pos i k) h iter s m Hh Hpos) as (iter1 & E1 & H1).
  rewrite succ_nth_pos in H1 by lia.
  destruct (lookup_lt_is_Some_2 fs (nth_pos i (Datatypes.S k))) as [g Hg]; [apply nth_pos_lt; lia|].
  destruct (check_at message want _ g iter1 s m Hg H1) as (iter2 & E2 & H2 & Hfound).
  unfold mbind, D_bind. rewrite E1, E2. destruct (Z.eqb_spec (f_tag g) want) as [E|E].
  { rewrite Hfound by done.
    assert (list_find (fun g => f_tag g = want) fs = Some (nth_pos i (Datatypes.S k), g)) as ->; [|done].
    apply list_find_Some. split; [done|]. split; [done|]. intros j y Hy Hj Hyt.
    assert (j = nth_pos i (Datatypes.S k)); [|lia].
    eapply (NoDup_lookup _ _ _ want Hnd); rewrite list_lookup_fmap.
    - by rewrite Hy; simpl; rewrite Hyt.
    - by rewrite Hg; simpl; rewrite E. }
  assert (forall k' y, (k' <= Datatypes.S k)%nat -> fs !! nth_pos i k' = Some y -> f_tag y <> want) as Hnone'.
  { intros k' y Hk' Hy. destruct (decide (k' = Datatypes.S k)) as [->|]; [congruence|].
    apply (Hnone k'); [lia|done]. }
  pose proof H2 as (_ & _ & Ei & _). rewrite Ei.
  destruct (Z.eqb_spec (Z.of_nat (nth_pos i (Datatypes.S k))) (Z.of_nat i)) as [E3|E3].
  - apply Nat2Z.inj in E3. rewrite E3 in H2. rewrite (load_at message i f iter2 s m Hf H2).
    apply nth_pos_start in E3; [|lia|lia].
    assert (list_find (fun g => f_tag g = want) fs = None) as ->; [|done].
    apply list_find_None, Forall_lookup. intros j y Hy.
    destruct (nth_pos_all i j) as (k' & ? & Ek'); [done|by eapply lookup_lt_Some|].
    apply (Hnone' k'); [lia|by rewrite Ek'].
  - destruct r as [|r].
    { exfalso. apply E3. f_equal. apply nth_pos_start; lia. }
    apply (IH iter2 (Datatypes.S k)); [done|lia|lia|done].
Qed.

Lemma find_at {S} (message want : Z) (i : nat) (f : field) (iter : pb_field_iter) (s : S) (m : mem) :
  NoDup (map f_tag fs) -> fs !! i = Some f -> at_pos message i iter -> tag iter = f_tag f ->
  pb_field_iter_find iter want s m
  = if f_tag f =? want then Ret (true, iter) s m
    else match list_find (fun g => f_tag g = want) fs with
         | Some (j, g) => Ret (true, iter_at message j g) s m
         | None => Ret (false, iter_at message i f) s m
         end.
Proof.
  intros Hnd Hf Hi Et. unfold pb_field_iter_find. rewrite Et.
  destruct (Z.eqb_spec (f_tag f) want) as [E|E]; [done|]. pose proof (lookup_lt_Some _ _ _ Hf).
  pose proof Hi as (Ed & _ & Ei & _). rewrite Ed, Ei. cbn [field_count PB_BIND]. rewrite Nat2Z.id.
  assert (nth_pos i 0 = i) as E0 by (unfold nth_pos; rewrite decide_True; lia).
  apply (find_loop_at message want i f iter s m 0 (length fs)); try done; rewrite ?E0; try done; [lia|].
  intros k' g Hk'. replace k' with O by lia. rewrite E0, Hf. by intros [= <-].
Qed.

(** The position in the list *)
Lemma find_unique (want : Z) (i : nat) (f : field) :
  NoDup (map f_tag fs) -> fs !! i = Some f -> f_tag f = want ->
  list_find (fun g => f_tag g = want) fs = Some (i, f).
Proof.
  intros Hnd Hf Ht. apply list_find_Some. split; [done|]. split; [done|]. intros j g Hg Hj E.
  assert (i = j); [|lia]. eapply (NoDup_lookup (map f_tag fs)); [done| |];
    rewrite list_lookup_fmap; [by rewrite Hf|by rewrite Hg; simpl; rewrite E, Ht].
Qed.

End OnFields.

(** ** Theorem *)

(** C22: Field lookup is exact.  For every descriptor that PB_BIND makes of a list of
    fields with distinct tags in the 1, 2 and 4-word formats, whose values fit their
    format as the assertions of pb.h ask, without pointer and extension fields (the
    build has no malloc, and its messages have no extensions), with fewer than 2^16
    words and a descriptor for every submessage; and, beyond the assertions, with
    array_size 1 in the 1-word format and with bit 8 of the tag clear in the 2-word
    format, because PB_FIELDINFO_2 masks the tag with 0x2c0 and loses this bit (see
    [width2_tag_lost]).  Then, from whatever field the iterator stands at,
    pb_field_iter_find terminates, reads only words of the descriptor and finds the
    field with the tag asked for, with the type, the sizes and the addresses it was
    declared with; when no field has this tag it returns false and the iterator is
    where it was. *)
Theorem field_iter_find_correct {S : Type} (fs : list field) (submsgs : list Z) (default : option (list Z))
    (callback : bool) (message want : Z) (i : nat) (f : field) (s : S) (m : mem) :
  wf_fields fs submsgs -> NoDup (map f_tag fs) -> fs !! i = Some f ->
  pb_field_iter_find (iter_at fs submsgs default callback message i f) want s m
  = match list_find (fun g => f_tag g = want) fs with
    | Some (j, g) => Ret (true, iter_at fs submsgs default callback message j g) s m
    | None => Ret (false, iter_at fs submsgs default callback message i f) s m
    end.
Proof.
  intros Hwf Hnd Hf. erewrite find_at by done. destruct (Z.eqb_spec (f_tag f) want) as [E|]; [|done].
  by rewrite (find_unique fs want i f).
Qed.

(** An array of fixed count, an optional number and a submessage, in three formats. *)
Definition demo_fields : list field :=
  [mk_field W2 130 0x21 0 4 0 8; mk_field W1 2 0x11 40 8 4 1; mk_field W4 2000 0x17 48 16 1 1].

Lemma field_iter_find_correct_witness :
  pb_field_iter_find (iter_at demo_fields [7] None false 4096 0 (mk_field W2 130 0x21 0 4 0 8)) 2000 tt ∅
  = Ret (true, iter_at demo_fields [7] None false 4096 2 (mk_field W4 2000 0x17 48 16 1 1)) tt ∅.
Proof.
  apply (field_iter_find_correct demo_fields [7] None false 4096 2000 0 (mk_field W2 130 0x21 0 4 0 8) tt ∅).
  - split; [repeat constructor; vm_compute; intuition discriminate
           |repeat constructor; vm_compute; discriminate
           |repeat constructor; vm_compute; discriminate|vm_compute; reflexivity|vm_compute; lia].
  - apply (bool_decide_unpack _). vm_compute. exact I.
  - reflexivity.
Defined.

(** A field that passes PB_FIELDINFO_ASSERT_2 but whose tag, 300, has bit 8 set: it
    is not found under its tag, but under 44. *)
Example width2_tag_lost :
  let d := PB_BIND [mk_field W2 300 0x21 0 4 0 8] [] None false in
  match pb_field_iter_begin d 4096 tt ∅ with
  | Ret (true, it) _ _ =>
      tag it = 44 /\
      match pb_field_iter_find it 300 tt ∅ with Ret (found, _) _ _ => found = false | _ => False end
  | _ => False
  end.
Proof. by vm_compute. Qed.

End PbFields.
