(* ===== verification/PbDecode.v ===== *)
(** * The decoder of nanopb (nanopb/pb_decode.c)

    Built without PB_ENABLE_MALLOC, as the module is.  Decoding recurses through
    submessages and callbacks: [rec] is pb_decode_ex with less fuel, and
    [pb_decode_ex] ties the knot.  Descriptor pointers and function pointers are
    numbers; [descs] and [decode_fn] say what they point to, and following one that
    points nowhere is undefined. *)
From S2P Require Import Prelude.
From S2P Require Export PbFields.

Module PbDecode.
Export PbFields.

Definition PB_DECODE_NOINIT : Z := 0x01.
Definition PB_DECODE_DELIMITED : Z := 0x02.
Definition PB_DECODE_NULLTERMINATED : Z := 0x04.
Definition PB_MAX_REQUIRED_FIELDS : Z := 64.
(** sizeof (pb_callback_t): two pointers *)
Definition CALLBACK_SIZE : Z := 16.

(** pb_decode_ex (stream, fields, dest_struct, flags) *)
Notation decoder := (Z -> Z -> Z -> DI unit).
(** A decode function of a pb_callback_t: the field and the address of its arg; it
    may decode messages itself. *)
Notation callback_fn := (decoder -> pb_field_iter -> Z -> DI unit).

(** ** The size or has_ member a field points to *)

Definition read_size {S} (field : pb_field_iter) : D S Z :=
  match pSize field with
  | PS_NULL => undef
  | PS_ADDR a => load_int a 2
  | PS_ARRAY_SIZE => mret (array_size field)
  | PS_FIXED_COUNT n => mret n
  end.

Definition write_size (v : Z) (field : pb_field_iter) : DI pb_field_iter :=
  match pSize field with
  | PS_NULL => undef
  | PS_ADDR a => _ ← store_int a 2 v; mret field
  | PS_ARRAY_SIZE => mret (set_array_size v field)
  | PS_FIXED_COUNT _ => mret (set_pSize (PS_FIXED_COUNT v) field)
  end.

(** a bool: the lowest byte *)
Definition write_has (v : bool) (field : pb_field_iter) : DI pb_field_iter :=
  match pSize field with
  | PS_NULL => undef
  | PS_ADDR a => _ ← store_int a 1 (Z.b2z v); mret field
  | PS_ARRAY_SIZE => mret (set_array_size (array_size field - array_size field mod 256 + Z.b2z v) field)
  | PS_FIXED_COUNT n => mret (set_pSize (PS_FIXED_COUNT (n - n mod 256 + Z.b2z v)) field)
  end.

Definition has_pSize (field : pb_field_iter) : bool :=
  match pSize field with PS_NULL => false | _ => true end.

(** ** Field decoders *)

Definition pb_dec_varint (field : pb_field_iter) : DI unit :=
  if PB_LTYPE (ftype field) =? PB_LTYPE_UVARINT then
    value ← pb_decode_varint;
    if (data_size field =? 8) || (data_size field =? 4) || (data_size field =? 2) || (data_size field =? 1)
    then
      let clamped := wrap (8 * data_size field) value in
      _ ← store_int (pData field) (data_size field) clamped;
      if negb (clamped =? value) then PB_RETURN_ERROR "integer too large" else mret tt
    else PB_RETURN_ERROR "invalid data_size"
  else
    svalue ← (if PB_LTYPE (ftype field) =? PB_LTYPE_SVARINT then pb_decode_svarint
              else value ← pb_decode_varint;
                   mret (if data_size field =? 8 then s64 value else s32 value));
    if (data_size field =? 8) || (data_size field =? 4) || (data_size field =? 2) || (data_size field =? 1)
    then
      let clamped := swrap (8 * data_size field) svalue in
      _ ← store_int (pData field) (data_size field) clamped;
      if negb (clamped =? svalue) then PB_RETURN_ERROR "integer too large" else mret tt
    else PB_RETURN_ERROR "invalid data_size".

Definition pb_dec_fixed (field : pb_field_iter) : DI unit :=
  if data_size field =? 4 then pb_decode_fixed32 (pData field)
  else if data_size field =? 8 then pb_decode_fixed64 (pData field)
  else PB_RETURN_ERROR "invalid data_size".

(** offsetof (pb_bytes_array_t, bytes) *)
Definition BYTES_OFFSET : Z := 2.

Definition pb_dec_bytes (field : pb_field_iter) : DI unit :=
  size ← pb_decode_varint32;
  if PB_SIZE_MAX <? size then PB_RETURN_ERROR "bytes overflow"
  else
    let alloc_size := u64 (size + BYTES_OFFSET) in
    if alloc_size <? size then PB_RETURN_ERROR "size too large"
    else if PB_ATYPE (ftype field) =? PB_ATYPE_POINTER then PB_RETURN_ERROR "no malloc support"
    else if data_size field <? alloc_size then PB_RETURN_ERROR "bytes overflow"
    else
      _ ← store_int (pData field) 2 size;
      pb_read_to (pData field + BYTES_OFFSET) size.

Definition pb_dec_string (field : pb_field_iter) : DI unit :=
  size ← pb_decode_varint32;
  let alloc_size := u32 (size + 1) in
  if alloc_size <? size then PB_RETURN_ERROR "size too large"
  else if PB_ATYPE (ftype field) =? PB_ATYPE_POINTER then PB_RETURN_ERROR "no malloc support"
  else if data_size field <? alloc_size then PB_RETURN_ERROR "string overflow"
  else
    _ ← store_int (pData field + size) 1 0;
    pb_read_to (pData field) size.

Definition pb_dec_fixed_length_bytes (field : pb_field_iter) : DI unit :=
  size ← pb_decode_varint32;
  if PB_SIZE_MAX <? size then PB_RETURN_ERROR "bytes overflow"
  else if size =? 0 then memset0 (pData field) (data_size field)
  else if negb (size =? data_size field) then PB_RETURN_ERROR "incorrect fixed length bytes size"
  else pb_read_to (pData field) (data_size field).

Section Decoder.
Context (descs : Z -> option pb_msgdesc) (decode_fn : Z -> option callback_fn).
(** The decode functions of extension types; an extension list is at most [ext_max]
    long. *)
Context (ext_decode_fn : Z -> option (Z -> Z -> Z -> DI unit)) (ext_max : nat).

Definition desc_at {S} (p : Z) : D S pb_msgdesc :=
  match descs p with Some d => mret d | None => undef end.

Section Fields.
Context (rec : decoder).

Definition pb_dec_submessage (field : pb_field_iter) : DI unit :=
  substream ← pb_make_string_substream;
  if submsg_desc field =? 0 then PB_RETURN_ERROR "invalid field descriptor"
  else
    let flags := if (PB_HTYPE (ftype field) =? PB_HTYPE_REPEATED) ||
                    (PB_HTYPE (ftype field) =? PB_HTYPE_ONEOF) then 0 else PB_DECODE_NOINIT in
    '(status, substream) ← on_stream substream (rec (submsg_desc field) (pData field) flags);
    _ ← pb_close_string_substream substream;
    match status with Some _ => mret tt | None => fails end.

Definition decode_basic_field (field : pb_field_iter) : DI unit :=
  let ltype := PB_LTYPE (ftype field) in
  if (ltype =? PB_LTYPE_VARINT) || (ltype =? PB_LTYPE_UVARINT) || (ltype =? PB_LTYPE_SVARINT)
  then pb_dec_varint field
  else if (ltype =? PB_LTYPE_FIXED32) || (ltype =? PB_LTYPE_FIXED64) then pb_dec_fixed field
  else if ltype =? PB_LTYPE_BYTES then pb_dec_bytes field
  else if ltype =? PB_LTYPE_STRING then pb_dec_string field
  else if ltype =? PB_LTYPE_SUBMESSAGE then pb_dec_submessage field
  else if ltype =? PB_LTYPE_FIXED_LENGTH_BYTES then pb_dec_fixed_length_bytes field
  else PB_RETURN_ERROR "invalid field type".

(** pData of entry n of the array *)
Definition entry (n : Z) (field : pb_field_iter) : pb_field_iter :=
  set_pData (pField field + data_size field * n) field.

(** The loop over a packed array: status, substream, field. *)
Fixpoint packed_loop (fuel : nat) (substream : pb_istream) (field : pb_field_iter)
    : DI (bool * pb_istream * pb_field_iter) :=
  match fuel with
  | O => undef
  | S fuel =>
      size ← read_size field;
      if (0 <? bytes_left substream) && (size <? array_size field) then
        '(st, substream) ← on_stream substream (decode_basic_field field);
        match st with
        | None => mret (false, substream, field)
        | Some _ =>
            field ← write_size (u16 (size + 1)) field;
            packed_loop fuel substream (set_pData (pData field + data_size field) field)
        end
      else mret (true, substream, field)
  end.

Definition decode_repeated (wire_type : Z) (field : pb_field_iter) : DI pb_field_iter :=
  size ← read_size field;
  let field := entry size field in
  if (wire_type =? PB_WT_STRING) && (PB_LTYPE (ftype field) <=? PB_LTYPE_LAST_PACKABLE) then
    substream ← pb_make_string_substream;
    '(status, substream, field) ← packed_loop (S (length (state substream))) substream field;
    if negb (bytes_left substream =? 0) then PB_RETURN_ERROR "array overflow"
    else
      _ ← pb_close_string_substream substream;
      if (status : bool) then mret field else fails
  else
    let max := array_size field in
    field ← write_size (u16 (size + 1)) field;
    if max <=? size then PB_RETURN_ERROR "array overflow"
    else _ ← decode_basic_field field; mret field.

Definition decode_static_field (wire_type : Z) (field : pb_field_iter) : DI pb_field_iter :=
  let htype := PB_HTYPE (ftype field) in
  if htype =? PB_HTYPE_REQUIRED then _ ← decode_basic_field field; mret field
  else if htype =? PB_HTYPE_OPTIONAL then
    field ← (if has_pSize field then write_has true field else mret field);
    _ ← decode_basic_field field; mret field
  else if htype =? PB_HTYPE_REPEATED then decode_repeated wire_type field
  else if htype =? PB_HTYPE_ONEOF then
    field ← write_size (tag field) field;
    _ ← (if PB_LTYPE (ftype field) =? PB_LTYPE_SUBMESSAGE
         then memset0 (pData field) (data_size field) else mret tt);
    _ ← decode_basic_field field; mret field
  else PB_RETURN_ERROR "invalid field type".

(** pb_default_field_callback with an input stream *)
Definition pb_default_field_callback (field : pb_field_iter) : DI unit :=
  if data_size field =? CALLBACK_SIZE then
    if nonzero (pData field) then
      decode ← load_int (pData field) 8;
      if nonzero decode then
        match decode_fn decode with
        | Some f => f rec field (pData field + 8)
        | None => undef
        end
      else mret tt
    else mret tt
  else mret tt.

(** The callback is called until it has read everything or does not read. *)
Fixpoint callback_loop (fuel : nat) (substream : pb_istream) (field : pb_field_iter) : DI pb_istream :=
  match fuel with
  | O => undef
  | S fuel =>
      let prev_bytes_left := bytes_left substream in
      '(st, substream) ← on_stream substream (pb_default_field_callback field);
      match st with
      | None => PB_RETURN_ERROR "callback failed"
      | Some _ =>
          if (0 <? bytes_left substream) && (bytes_left substream <? prev_bytes_left)
          then callback_loop fuel substream field else mret substream
      end
  end.

Definition decode_callback_field (wire_type : Z) (field : pb_field_iter) : DI unit :=
  if negb (field_callback (descriptor field)) then pb_skip_field wire_type
  else if wire_type =? PB_WT_STRING then
    substream ← pb_make_string_substream;
    substream ← callback_loop (S (length (state substream))) substream field;
    pb_close_string_substream substream
  else
    buffer ← read_raw_value wire_type 10;
    '(st, _) ← on_stream (pb_istream_from_buffer buffer (Z.of_nat (length buffer)))
                 (pb_default_field_callback field);
    match st with Some _ => mret tt | None => fails end.

Definition decode_field (wire_type : Z) (field : pb_field_iter) : DI pb_field_iter :=
  let atype := PB_ATYPE (ftype field) in
  if atype =? PB_ATYPE_STATIC then decode_static_field wire_type field
  else if atype =? PB_ATYPE_POINTER then PB_RETURN_ERROR "no malloc support"
  else if atype =? PB_ATYPE_CALLBACK then _ ← decode_callback_field wire_type field; mret field
  else PB_RETURN_ERROR "invalid field type".

(** ** Extensions: pb_extension_t is { type, dest, next, found }, its type
    { decode, encode, arg }. *)

Definition pb_field_iter_begin_extension {S} (extension : Z) : D S (bool * pb_field_iter) :=
  type ← load_int extension 8;
  arg ← load_int (type + 16) 8;
  msg ← desc_at arg;
  word ← info_word msg 0;
  '(status, iter) ← (if PB_ATYPE (Z.shiftr word 8) =? PB_ATYPE_POINTER
                     then pb_field_iter_begin msg (extension + 8)
                     else dest ← load_int (extension + 8) 8; pb_field_iter_begin msg dest);
  mret (status, set_pSize (PS_ADDR (extension + 24)) iter).

Definition default_extension_decoder (extension want wire_type : Z) : DI unit :=
  '(ok, iter) ← pb_field_iter_begin_extension extension;
  if negb (ok : bool) then PB_RETURN_ERROR "invalid extension"
  else if negb (tag iter =? want) then mret tt
  else
    _ ← store_int (extension + 24) 1 1;
    _ ← decode_field wire_type iter; mret tt.

Fixpoint extension_loop (fuel : nat) (extension pos want wire_type : Z) : DI unit :=
  match fuel with
  | O => undef
  | S fuel =>
      s ← get;
      if nonzero extension && (pos =? bytes_left s) then
        type ← load_int extension 8;
        decode ← load_int type 8;
        _ ← (if nonzero decode then
               match ext_decode_fn decode with Some f => f extension want wire_type | None => undef end
             else default_extension_decoder extension want wire_type);
        next ← load_int (extension + 16) 8;
        extension_loop fuel next pos want wire_type
      else mret tt
  end.

Definition decode_extension (want wire_type : Z) (iter : pb_field_iter) : DI unit :=
  extension ← load_int (pData iter) 8;
  s ← get;
  extension_loop (S ext_max) extension (bytes_left s) want wire_type.

Fixpoint find_extension_loop (fuel : nat) (start : Z) (iter : pb_field_iter) : DI (bool * pb_field_iter) :=
  match fuel with
  | O => undef
  | S fuel =>
      if PB_LTYPE (ftype iter) =? PB_LTYPE_EXTENSION then mret (true, iter)
      else
        '(_, iter) ← pb_field_iter_next iter;
        if index iter =? start then mret (false, iter) else find_extension_loop fuel start iter
  end.

Definition find_extension_field (iter : pb_field_iter) : DI (bool * pb_field_iter) :=
  find_extension_loop (S (Z.to_nat (field_count (descriptor iter)))) (index iter) iter.

(** ** Default values *)

Fixpoint default_extensions (self : pb_field_iter -> DI unit) (fuel : nat) (ext : Z) : DI unit :=
  match fuel with
  | O => undef
  | S fuel =>
      if nonzero ext then
        '(ok, ext_iter) ← pb_field_iter_begin_extension ext;
        _ ← (if (ok : bool) then _ ← store_int (ext + 24) 1 0; self ext_iter else mret tt);
        next ← load_int (ext + 16) 8;
        default_extensions self fuel next
      else mret tt
  end.

(** [self] is pb_message_set_to_defaults for the messages inside. *)
Definition pb_field_set_to_default (self : pb_field_iter -> DI unit) (field : pb_field_iter)
    : DI pb_field_iter :=
  let type := ftype field in
  if PB_LTYPE type =? PB_LTYPE_EXTENSION then
    ext ← load_int (pData field) 8;
    _ ← default_extensions self (S ext_max) ext; mret field
  else if PB_ATYPE type =? PB_ATYPE_STATIC then
    '(init_data, field) ←
       (if (PB_HTYPE type =? PB_HTYPE_OPTIONAL) && has_pSize field then
          field ← write_has false field; mret (true, field)
        else if (PB_HTYPE type =? PB_HTYPE_REPEATED) || (PB_HTYPE type =? PB_HTYPE_ONEOF) then
          field ← write_size 0 field; mret (false, field)
        else mret (true, field));
    if (init_data : bool) then
      if PB_LTYPE type =? PB_LTYPE_SUBMESSAGE then
        desc ← desc_at (submsg_desc field);
        '(ok, submsg_iter) ← pb_field_iter_begin desc (pData field);
        _ ← (if (ok : bool) then self submsg_iter else mret tt);
        mret field
      else _ ← memset0 (pData field) (data_size field); mret field
    else mret field
  else if PB_ATYPE type =? PB_ATYPE_POINTER then
    _ ← store_int (pField field) 8 0;
    if (PB_HTYPE type =? PB_HTYPE_REPEATED) || (PB_HTYPE type =? PB_HTYPE_ONEOF)
    then write_size 0 field else mret field
  else mret field.

(** do ... while (pb_field_iter_next): the default stream, its next tag and type *)
Fixpoint defaults_loop (self : pb_field_iter -> DI unit) (fuel : nat) (defstream : pb_istream)
    (next_tag wire_type : Z) (iter : pb_field_iter) : DI unit :=
  match fuel with
  | O => undef
  | S fuel =>
      iter ← pb_field_set_to_default self iter;
      '(defstream, next_tag, wire_type, iter) ←
        (if nonzero next_tag && (tag iter =? next_tag) then
           '(st, defstream) ← on_stream defstream (decode_field wire_type iter);
           match st with
           | None => fails
           | Some iter =>
               '(st, defstream) ← on_stream defstream pb_decode_tag;
               match st with
               | Some (Some (wire_type, next_tag)) =>
                   iter ← (if has_pSize iter then write_has false iter else mret iter);
                   mret (defstream, next_tag, wire_type, iter)
               | _ => fails
               end
           end
         else mret (defstream, next_tag, wire_type, iter));
      '(more, iter) ← pb_field_iter_next iter;
      if (more : bool) then defaults_loop self fuel defstream next_tag wire_type iter else mret tt
  end.

Definition SIZE_MAX : Z := u64 (-1).

Fixpoint pb_message_set_to_defaults (fuel : nat) (iter : pb_field_iter) : DI unit :=
  match fuel with
  | O => undef
  | S fuel =>
      let loop := defaults_loop (pb_message_set_to_defaults fuel)
                    (Z.to_nat (field_count (descriptor iter))) in
      match default_value (descriptor iter) with
      | Some bytes =>
          '(st, defstream) ← on_stream (pb_istream_from_buffer bytes SIZE_MAX) pb_decode_tag;
          match st with
          | Some (Some (wire_type, next_tag)) => loop defstream next_tag wire_type iter
          | _ => fails
          end
      | None => loop PB_ISTREAM_EMPTY 0 PB_WT_VARINT iter
      end
  end.

(** ** All fields *)

Record inner := mk_inner {
  extension_range_start : Z;
  fixed_count_field : Z; fixed_count_size : Z; fixed_count_total_size : Z;
  fields_seen : list Z;
  iter : pb_field_iter }.

Definition set_iter (i : pb_field_iter) (st : inner) : inner :=
  mk_inner (extension_range_start st) (fixed_count_field st) (fixed_count_size st)
    (fixed_count_total_size st) (fields_seen st) i.

(** A tag that is not a field of the message. *)
Definition unknown_field (wire_type want : Z) (st : inner) : DI inner :=
  '(handled, st) ←
    (if extension_range_start st <=? want then
       '(found, it) ← find_extension_field (iter st);
       let start := if (found : bool) then tag it else u32 (-1) in
       let st := mk_inner start (fixed_count_field st) (fixed_count_size st)
                   (fixed_count_total_size st) (fields_seen st) it in
       if start <=? want then
         s ← get;
         _ ← decode_extension want wire_type it;
         s' ← get;
         mret (negb (bytes_left s =? bytes_left s'), st)
       else mret (false, st)
     else mret (false, st));
  if (handled : bool) then mret st
  else _ ← pb_skip_field wire_type; mret st.

(** An array of fixed count: the count is a local variable. *)
Definition enter_fixed_count (st : inner) : DI inner :=
  let it := iter st in
  if (PB_HTYPE (ftype it) =? PB_HTYPE_REPEATED) && match pSize it with PS_ARRAY_SIZE => true | _ => false end
  then
    if negb (fixed_count_field st =? index it) then
      if negb (fixed_count_field st =? PB_SIZE_MAX) &&
         negb (fixed_count_size st =? fixed_count_total_size st)
      then PB_RETURN_ERROR "wrong size for fixed count field"
      else mret (mk_inner (extension_range_start st) (index it) 0 (array_size it) (fields_seen st)
                   (set_pSize (PS_FIXED_COUNT 0) it))
    else mret (set_iter (set_pSize (PS_FIXED_COUNT (fixed_count_size st)) it) st)
  else mret st.

(** fields_seen of a required field *)
Definition mark_seen (st : inner) : inner :=
  let it := iter st in
  if (PB_HTYPE (ftype it) =? PB_HTYPE_REQUIRED) && (required_field_index it <? PB_MAX_REQUIRED_FIELDS) then
    let w := Z.to_nat (Z.shiftr (required_field_index it) 5) in
    mk_inner (extension_range_start st) (fixed_count_field st) (fixed_count_size st)
      (fixed_count_total_size st)
      (<[w := Z.lor (nth w (fields_seen st) 0) (Z.shiftl 1 (Z.land (required_field_index it) 31))]>
         (fields_seen st)) it
  else st.

(** The field is decoded; the local count is what pSize pointed to. *)
Definition decode_known (wire_type : Z) (st : inner) : DI inner :=
  it ← decode_field wire_type (iter st);
  let n := match pSize it with PS_FIXED_COUNT n => n | _ => fixed_count_size st end in
  mret (mk_inner (extension_range_start st) (fixed_count_field st) n (fixed_count_total_size st)
          (fields_seen st) it).

(** The rest of the loop body: the field with the tag that was read. *)
Definition decode_tagged (wire_type want : Z) (st : inner) : DI inner :=
  '(found, it) ← pb_field_iter_find (iter st) want;
  let st := set_iter it st in
  if negb (found : bool) || (PB_LTYPE (ftype it) =? PB_LTYPE_EXTENSION)
  then unknown_field wire_type want st
  else st ← enter_fixed_count st; decode_known wire_type (mark_seen st).

Fixpoint inner_loop (fuel : nat) (flags : Z) (st : inner) : DI inner :=
  match fuel with
  | O => undef
  | S fuel =>
      s ← get;
      if bytes_left s =? 0 then mret st
      else
        r ← pb_decode_tag;
        match r with
        | None => mret st  (* eof *)
        | Some (wire_type, want) =>
            if want =? 0 then
              if nonzero (Z.land flags PB_DECODE_NULLTERMINATED) then mret st
              else PB_RETURN_ERROR "zero tag"
            else
              st ← decode_tagged wire_type want st;
              inner_loop fuel flags st
        end
  end.

(** The iterator runs to the end: the index of the last required field, the type of
    the last field. *)
Fixpoint last_field (fuel : nat) (it : pb_field_iter) : DI (Z * Z * pb_field_iter) :=
  match fuel with
  | O => undef
  | S fuel =>
      '(more, it') ← pb_field_iter_next it;
      if (more : bool) then last_field fuel it' else mret (required_field_index it, ftype it, it')
  end.

Definition allbits : Z := u32 (Z.lnot 0).

Fixpoint check_words (n : nat) (i : nat) (seen : list Z) : bool :=
  match n with
  | O => true
  | S n => (nth i seen 0 =? allbits) && check_words n (S i) seen
  end.

Definition check_required (st : inner) : DI unit :=
  '(req_field_count, last_type, it) ← last_field (S (Z.to_nat (field_count (descriptor (iter st))))) (iter st);
  let count := if (PB_HTYPE last_type =? PB_HTYPE_REQUIRED) && negb (tag it =? 0)
               then req_field_count + 1 else req_field_count in
  let count := if PB_MAX_REQUIRED_FIELDS <? count then PB_MAX_REQUIRED_FIELDS else count in
  if 0 <? count then
    if negb (check_words (Z.to_nat (Z.shiftr count 5)) 0 (fields_seen st))
    then PB_RETURN_ERROR "missing required field"
    else if nonzero (Z.land count 31) &&
            negb (nth (Z.to_nat (Z.shiftr count 5)) (fields_seen st) 0
                  =? Z.shiftr allbits (32 - Z.land count 31))
    then PB_RETURN_ERROR "missing required field"
    else mret tt
  else mret tt.

Definition pb_decode_inner (fields : pb_msgdesc) (dest_struct flags : Z) : DI unit :=
  '(_, it) ← pb_field_iter_begin fields dest_struct;
  s ← get;
  st ← inner_loop (S (length (state s))) flags (mk_inner 0 PB_SIZE_MAX 0 0 [0; 0] it);
  if negb (fixed_count_field st =? PB_SIZE_MAX) && negb (fixed_count_size st =? fixed_count_total_size st)
  then PB_RETURN_ERROR "wrong size for fixed count field"
  else check_required st.

(** pb_decode_ex, given what it does for the messages inside. *)
Definition decode_ex (fuel : nat) (fields dest_struct flags : Z) : DI unit :=
  desc ← desc_at fields;
  _ ← (if Z.land flags PB_DECODE_NOINIT =? 0 then
         '(ok, it) ← pb_field_iter_begin desc dest_struct;
         if (ok : bool) then
           s ← get;
           '(st, _) ← on_stream s (pb_message_set_to_defaults fuel it);
           match st with Some _ => mret tt | None => PB_RETURN_ERROR "failed to set defaults" end
         else mret tt
       else mret tt);
  if Z.land flags PB_DECODE_DELIMITED =? 0 then pb_decode_inner desc dest_struct flags
  else
    substream ← pb_make_string_substream;
    '(status, substream) ← on_stream substream (pb_decode_inner desc dest_struct flags);
    _ ← pb_close_string_substream substream;
    match status with Some _ => mret tt | None => fails end.

End Fields.

Fixpoint pb_decode_ex (fuel : nat) (fields dest_struct flags : Z) : DI unit :=
  match fuel with
  | O => undef
  | S fuel => decode_ex (pb_decode_ex fuel) (S fuel) fields dest_struct flags
  end.

Lemma pb_decode_ex_succ (fuel : nat) :
  pb_decode_ex (S fuel) = decode_ex (pb_decode_ex fuel) (S fuel).
Proof. done. Qed.

Definition pb_decode (fuel : nat) (fields dest_struct : Z) : DI unit :=
  pb_decode_ex fuel fields dest_struct 0.
Definition pb_decode_delimited (fuel : nat) (fields dest_struct : Z) : DI unit :=
  pb_decode_ex fuel fields dest_struct PB_DECODE_DELIMITED.

End Decoder.
End PbDecode.
