(* ===== verification/PbRefine.v ===== *)
(** * Reasoning about the decoder of nanopb

    Decoding a message is related to a specification that works on an abstract state:
    for each field the stream holds, a step of the specification.  [inner_refines]
    proves it once for pb_decode_inner, for descriptors whose fields are singular or
    callbacks, as all of the status core are. *)
From S2P Require Import Prelude.
From S2P Require Export PbDecode.

Module PbRefine.
Export PbDecode.

(** ** Computations that do not touch memory *)

Definition memfree {A} (c : DI A) : Prop :=
  forall s m, c s m = match c s ∅ with
                      | Ret a s' _ => Ret a s' m | Err s' _ => Err s' m | Undef => Undef end.

(** What such a computation does to the stream. *)
Definition rd {A} (c : DI A) (s : pb_istream) : option (A * pb_istream) :=
  match c s ∅ with Ret a s' _ => Some (a, s') | _ => None end.

Lemma memfree_bind {A B} (c : DI A) (f : A -> DI B) :
  memfree c -> (forall a, memfree (f a)) -> memfree (c ≫= f).
Proof.
  intros Hc Hf s m. unfold mbind, D_bind. rewrite (Hc s m).
  destruct (c s ∅) as [a s' m'| |]; [|done|done]. rewrite (Hf a s' m), (Hf a s' m').
  by destruct (f a s' ∅).
Qed.

Lemma memfree_on_stream {A} (sub : pb_istream) (c : DI A) : memfree c -> memfree (on_stream sub c).
Proof. intros Hc s m. unfold on_stream. rewrite (Hc sub m). by destruct (c sub ∅). Qed.

Lemma memfree_buf_read (count : Z) : memfree (buf_read count).
Proof. intros s m. unfold buf_read. by case_decide. Qed.

Ltac memfree :=
  repeat match goal with
  | |- forall _, memfree _ => intros ?
  | |- memfree (mbind _ _) => apply memfree_bind
  | |- memfree (buf_read _) => apply memfree_buf_read
  | |- memfree (on_stream _ _) => apply memfree_on_stream
  | |- memfree get => done
  | |- memfree (put _) => done
  | |- memfree (mret _) => done
  | |- memfree (PB_RETURN_ERROR _) => done
  | |- memfree fails => done
  | |- memfree (if ?b then _ else _) => destruct b
  | |- memfree (match ?x with _ => _ end) => destruct x
  end.

Lemma memfree_read (count : Z) : memfree (pb_read count).
Proof. unfold pb_read, consume. memfree. Qed.

Lemma memfree_readbyte : memfree pb_readbyte.
Proof. unfold pb_readbyte, consume. memfree. Qed.

Lemma memfree_varint32_loop (fuel : nat) (r b : Z) : memfree (varint32_loop fuel r b).
Proof.
  revert r b. induction fuel as [|fuel IH]; intros r b; [done|]. cbn [varint32_loop].
  apply memfree_bind; [apply memfree_readbyte|]. intros byte. memfree; apply IH.
Qed.

Lemma memfree_varint32_eof : memfree pb_decode_varint32_eof.
Proof.
  unfold pb_decode_varint32_eof, varint32_multibyte.
  memfree; first [apply memfree_readbyte|apply memfree_varint32_loop].
Qed.

Lemma memfree_varint32 : memfree pb_decode_varint32.
Proof. unfold pb_decode_varint32. memfree; apply memfree_varint32_eof. Qed.

Lemma memfree_tag : memfree pb_decode_tag.
Proof. unfold pb_decode_tag. memfree; apply memfree_varint32_eof. Qed.

Lemma memfree_varint_loop (fuel : nat) (r b : Z) : memfree (varint_loop fuel r b).
Proof.
  revert r b. induction fuel as [|fuel IH]; intros r b; [done|]. cbn [varint_loop].
  case_match; [done|]. apply memfree_bind; [apply memfree_readbyte|]. intros byte. memfree; apply IH.
Qed.

Lemma memfree_varint : memfree pb_decode_varint.
Proof. apply memfree_varint_loop. Qed.

Lemma memfree_skip_loop (fuel : nat) : memfree (skip_loop fuel).
Proof.
  induction fuel as [|fuel IH]; [done|]. cbn [skip_loop].
  apply memfree_bind; [apply memfree_read|]. intros bs. by case_match.
Qed.

Lemma memfree_skip_field (wire_type : Z) : memfree (pb_skip_field wire_type).
Proof.
  unfold pb_skip_field, pb_skip_varint, pb_skip_string.
  memfree; first [apply memfree_skip_loop|apply memfree_read|apply memfree_varint32].
Qed.

Lemma memfree_raw_loop (fuel : nat) (n : Z) (buf : list Z) : memfree (raw_varint_loop fuel n buf).
Proof.
  revert buf. induction fuel as [|fuel IH]; intros buf; [done|]. cbn [raw_varint_loop].
  case_match; [done|]. apply memfree_bind; [apply memfree_read|]. intros bs. memfree; apply IH.
Qed.

Lemma memfree_raw_value (wire_type n : Z) : memfree (read_raw_value wire_type n).
Proof. unfold read_raw_value. memfree; first [apply memfree_raw_loop|apply memfree_read]. Qed.

Lemma memfree_make_substream : memfree pb_make_string_substream.
Proof. unfold pb_make_string_substream. memfree; apply memfree_varint32. Qed.

(** A reader that does not touch memory does to the stream what [rd] says. *)
Lemma rd_dwp {A} (c : DI A) (post : A -> nat -> Prop) (s : pb_istream) (m : mem)
    (Q : A -> pb_istream -> mem -> Prop) (E : pb_istream -> mem -> Prop) :
  memfree c -> (forall N, reader N c post) -> stream_ok s ->
  (forall a s' k, rd c s = Some (a, s') -> post a k -> adv_by k s s' -> Q a s' m) ->
  (forall s', rd c s = None -> fell s s' -> E s' m) ->
  dwp c s m Q E.
Proof.
  intros Hm Hr Hs HQ HE. pose proof (Hr (2 ^ 64) s ∅ Hs ltac:(apply Hs)) as H. revert H HQ HE.
  unfold dwp, rd. rewrite (Hm s m). destruct (c s ∅) as [a s' m'|s' m'|]; [| |done].
  - intros (_ & k & Hp & Hk) HQ _. by eapply HQ.
  - intros [_ Hf] _ HE. by apply HE.
Qed.

(** The tag is there as long as bytes are left. *)
Lemma tag_present (s s' : pb_istream) :
  stream_ok s -> bytes_left s <> 0 -> rd pb_decode_tag s = Some (None, s') -> False.
Proof.
  intros Hs Hne. unfold rd, pb_decode_tag, pb_decode_varint32_eof, get, put, mbind, D_bind.
  assert (dwp pb_readbyte s ∅ (fun _ s1 _ => stream_ok s1) (fun _ _ => False)) as Hb.
  { apply pb_readbyte_dwp; [done| |done]. intros b s1 _ Ha. by eapply adv_ok. }
  unfold on_stream, dwp in *. destruct (pb_readbyte s ∅) as [b s1 m1| |]; [|done|done].
  destruct (more b); simpl; [|done].
  unfold mbind, D_bind. by destruct (varint32_multibyte _ _ _ _).
Qed.

Lemma pb_read_ok (count : Z) (s : pb_istream) (m : mem) :
  stream_ok s -> 0 <= count <= bytes_left s ->
  pb_read count s m
  = Ret (take (Z.to_nat count) (state s))
      (mk_istream (drop (Z.to_nat count) (state s)) (bytes_left s - count) (errmsg s)) m.
Proof.
  intros (Hs & Hw & _) Hc. unfold pb_read, get, mbind, D_bind.
  rewrite (proj2 (Z.ltb_ge _ _)) by lia. unfold buf_read, consume, get, put, mbind, D_bind.
  rewrite decide_True by lia. simpl. by rewrite u64_small by lia.
Qed.

(** ** Cells of memory *)

Definition holds (m : mem) (a : Z) (bs : list Z) : Prop := load_bytes m a (length bs) = Some bs.

Lemma holds_mapped (m : mem) (a : Z) (bs : list Z) : holds m a bs -> mapped m a (Z.of_nat (length bs)).
Proof.
  revert a. induction bs as [|b bs IH]; intros a H x Hx; simpl in *; [lia|].
  unfold holds in H. simpl in H. destruct (m !! a) as [b'|] eqn:Eb; [|done]. simpl in H.
  destruct (load_bytes m (a + 1) (length bs)) as [r|] eqn:E; [|done]. simpl in H. injection H as -> ->.
  destruct (decide (x = a)) as [->|]; [by rewrite Eb|]. apply (IH (a + 1)); [done|lia].
Qed.

Lemma holds_frame (P : Z -> Prop) (m m' : mem) (a : Z) (bs : list Z) :
  differs_only P m m' -> (forall x, within a (Z.of_nat (length bs)) x -> ~ P x) -> holds m a bs -> holds m' a bs.
Proof. intros Hd Hn H. unfold holds in *. by rewrite (load_differs P m m'). Qed.

Lemma load_bytes_app (m : mem) (a : Z) (n k : nat) :
  load_bytes m a (n + k) = (b ← load_bytes m a n; c ← load_bytes m (a + Z.of_nat n) k; Some (b ++ c)).
Proof.
  revert a. induction n as [|n IH]; intros a; simpl.
  - rewrite Z.add_0_r. by destruct (load_bytes m a k).
  - rewrite IH. replace (a + 1 + Z.of_nat n) with (a + Z.of_nat (S n)) by lia.
    destruct (m !! a); simpl; [|done]. destruct (load_bytes m (a + 1) n); simpl; [|done].
    by destruct (load_bytes m (a + Z.of_nat (S n)) k).
Qed.

Lemma holds_app (m : mem) (a : Z) (bs cs : list Z) :
  holds m a (bs ++ cs) <-> holds m a bs /\ holds m (a + Z.of_nat (length bs)) cs.
Proof.
  unfold holds. rewrite length_app, load_bytes_app. split.
  - destruct (load_bytes m a (length bs)) as [b|] eqn:E1; simpl; [|done].
    destruct (load_bytes m (a + Z.of_nat (length bs)) (length cs)) as [c|] eqn:E2; simpl; [|done].
    intros [= E]. apply load_bytes_length in E1. apply app_inj_1 in E as [-> ->]; [done|lia].
  - intros [-> ->]. done.
Qed.

Lemma dwp_store_cell {S} (a : Z) (old new : list Z) (s : S) (m : mem) (Q : unit -> S -> mem -> Prop) E :
  holds m a old -> length new = length old ->
  (forall m', holds m' a new -> differs_only (within a (Z.of_nat (length old))) m m' -> Q tt s m') ->
  dwp (store a new) s m Q E.
Proof.
  intros Ho Hl HQ. apply dwp_store; rewrite Hl; [by apply holds_mapped|].
  intros m' Hst Hd. apply HQ; [by eapply store_load|done].
Qed.

Lemma dwp_load_cell {S} (a : Z) (bs : list Z) (n : nat) (s : S) (m : mem) (Q : list Z -> S -> mem -> Prop) E :
  holds m a bs -> n = length bs -> Q bs s m -> dwp (load a n) s m Q E.
Proof. intros Hh -> HQ. unfold dwp, load. by rewrite Hh. Qed.

Lemma dwp_load_int_cell {S} (a n v : Z) (s : S) (m : mem) (Q : Z -> S -> mem -> Prop) E :
  holds m a (bytes_of n v) -> 0 <= n -> 0 <= v < 2 ^ (8 * n) -> Q v s m -> dwp (load_int a n) s m Q E.
Proof.
  intros Hh Hn Hv HQ. apply dwp_bind. eapply dwp_load_cell; [done|by rewrite length_bytes_of|].
  apply dwp_ret. by rewrite value_of_bytes.
Qed.

(** ** The specification of decoding a message *)

Section Spec.
Context {A : Type}.
(** A field of the stream with its wire type and tag, decoded from where the stream
    is: the new state and the stream behind it, or [None] for an error. *)
Context (step : Z -> Z -> A -> pb_istream -> A * option pb_istream).

Fixpoint spec_loop (fuel : nat) (a : A) (s : pb_istream) : A * option pb_istream :=
  match fuel with
  | O => (a, None)
  | S fuel =>
      if bytes_left s =? 0 then (a, Some s)
      else match rd pb_decode_tag s with
           | Some (Some (wire_type, want), s') =>
               if want =? 0 then (a, None)
               else match step wire_type want a s' with
                    | (a', Some s'') => spec_loop fuel a' s''
                    | (a', None) => (a', None)
                    end
           | _ => (a, None)
           end
  end.

Definition spec_message (a : A) (s : pb_istream) : A * option pb_istream :=
  spec_loop (S (length (state s))) a s.

Lemma spec_loop_mono (P : A -> Prop) (fuel : nat) (a : A) (s : pb_istream) :
  (forall wt t a s, P (step wt t a s).1 -> P a) -> P (spec_loop fuel a s).1 -> P a.
Proof.
  intros Hm. revert a s. induction fuel as [|fuel IH]; intros a s; simpl; [done|].
  destruct (bytes_left s =? 0); [done|].
  destruct (rd pb_decode_tag s) as [[[[wt t]|] s']|]; [|done|done].
  destruct (t =? 0); [done|]. destruct (step wt t a s') as [a' [s''|]] eqn:E; intros Hp;
    apply (Hm wt t a s'); rewrite E; [by eapply IH|done].
Qed.
End Spec.

Section Outcomes.
Context {A : Type} (R : A -> mem -> Prop) (W : mem -> Prop).

(** The outcomes the specification allows: its new state, with the stream where it
    says, or an error. *)
Definition returned {B} (inv : B -> pb_istream -> Prop) (sp : A * option pb_istream) (s : pb_istream)
    (b : B) (s' : pb_istream) (m' : mem) : Prop :=
  inv b s' /\ exists a' k, sp = (a', Some s') /\ R a' m' /\ adv_by k s s'.
Definition failed (sp : A * option pb_istream) (s s' : pb_istream) (m' : mem) : Prop :=
  sp.2 = None /\ W m' /\ fell s s'.

(** Two parts of a message, one after the other. *)
Lemma refines_seq {B C} (c : DI B) (f : B -> DI C) (inv : B -> pb_istream -> Prop)
    (inv' : C -> pb_istream -> Prop) (sp : A * option pb_istream)
    (next : A -> pb_istream -> A * option pb_istream) (s0 s : pb_istream) (m : mem) (k0 : nat) :
  adv_by k0 s0 s -> dwp c s m (returned inv sp s) (failed sp s) ->
  (forall b s' m' a' k, sp = (a', Some s') -> inv b s' -> R a' m' -> adv_by k s s' ->
     dwp (f b) s' m' (returned inv' (next a' s') s') (failed (next a' s') s')) ->
  dwp (c ≫= f) s m
    (returned inv' (match sp with (a', Some s') => next a' s' | (a', None) => (a', None) end) s0)
    (failed (match sp with (a', Some s') => next a' s' | (a', None) => (a', None) end) s0).
Proof.
  intros H0 Hc Hf. apply dwp_bind. eapply dwp_mono; [done| |].
  - intros b s' m' (Hi & a' & k & -> & HR & Hk).
    eapply dwp_mono; [by eapply Hf| |].
    + intros c' s2 m2 (Hi' & a2 & k2 & E & HR2 & Hk2). split; [done|]. exists a2, (k0 + (k + k2))%nat.
      split; [done|]. split; [done|]. eapply adv_trans; [done|]. by eapply adv_trans.
    + intros s2 m2 (E & HW & Hfl). split; [done|]. split; [done|].
      eapply adv_fell; [done|]. by eapply adv_fell.
  - intros s' m' (E & HW & Hfl). destruct sp as [a' [s2|]]; [done|].
    split; [done|]. split; [done|]. by eapply adv_fell.
Qed.

End Outcomes.

Section Inner.
Context (descs : Z -> option pb_msgdesc) (decode_fn : Z -> option callback_fn).
Context (ext_decode_fn : Z -> option (Z -> Z -> Z -> DI unit)) (ext_max : nat) (rec : decoder).
Context (fs : list field) (submsgs : list Z) (default : option (list Z)) (callback : bool) (dest : Z).
Context (Hwf : wf_fields fs submsgs) (Hnd : NoDup (map f_tag fs)) (Hne : fs <> []).
(** Singular fields and callbacks only. *)
Context (Hnoreq : Forall (fun f => PB_HTYPE (f_type f) <> PB_HTYPE_REQUIRED) fs).
Context (Hnoarray : Forall (fun f => psize_at f dest <> PS_ARRAY_SIZE) fs).
Notation d := (PB_BIND fs submsgs default callback).
Notation at_ i f := (iter_at fs submsgs default callback dest i f).

Lemma first_field : exists f, fs !! O = Some f.
Proof. destruct fs as [|f l]; [done|]. by exists f. Qed.

Lemma find_extension_none (i : nat) (f : field) (s : pb_istream) (m : mem) :
  fs !! i = Some f -> find_extension_field (at_ i f) s m = Ret (false, at_ i f) s m.
Proof.
  intros Hf. pose proof (lookup_lt_Some _ _ _ Hf) as Hi. unfold find_extension_field.
  assert (forall r k fuel g, (k + r = length fs)%nat -> (0 < r <= fuel)%nat ->
    fs !! nth_pos fs i k = Some g ->
    find_extension_loop fuel (Z.of_nat i) (at_ (nth_pos fs i k) g) s m = Ret (false, at_ i f) s m) as H.
  { induction r as [|r IH]; intros k fuel g Hk Hfuel Hg; [lia|].
    destruct fuel as [|fuel]; [lia|]. cbn [find_extension_loop].
    destruct (wf_lookup fs submsgs Hwf _ g Hg) as (_ & _ & Hext).
    change (ftype (at_ (nth_pos fs i k) g)) with (f_type g).
    rewrite (proj2 (Z.eqb_neq _ _) Hext). unfold mbind, D_bind.
    destruct (succ_lookup fs (nth_pos fs i k)) as [h Hh]; [apply nth_pos_lt; lia|].
    rewrite (next_at fs submsgs default callback Hwf dest _ g h) by done.
    rewrite succ_nth_pos in * by lia. change (index (at_ (nth_pos fs i (S k)) h)) with (Z.of_nat (nth_pos fs i (S k))).
    destruct (Z.eqb_spec (Z.of_nat (nth_pos fs i (S k))) (Z.of_nat i)) as [E|E].
    - apply Nat2Z.inj in E. rewrite E in *. by rewrite Hf in Hh; injection Hh as <-.
    - destruct r as [|r]; [|apply IH; [lia|lia|done]].
      exfalso. apply E. f_equal. apply nth_pos_start; lia. }
  assert (nth_pos fs i 0 = i) as E0 by (unfold nth_pos; rewrite decide_True; lia).
  specialize (H (length fs) O (S (Z.to_nat (field_count d))) f). rewrite E0 in H.
  apply H; [lia| |done]. simpl. lia.
Qed.

Lemma req_pos_zero (i : nat) : req_pos fs i = 0.
Proof.
  unfold req_pos. assert (List.filter is_required (take i fs) = []) as ->; [|done].
  assert (Forall (fun f => PB_HTYPE (f_type f) <> PB_HTYPE_REQUIRED) (take i fs)) as H by by apply Forall_take.
  induction H as [|f l Hf _ IH]; [done|]. simpl. unfold is_required.
  by rewrite (proj2 (Z.eqb_neq _ _) Hf).
Qed.

Lemma last_field_at (fuel i : nat) (f : field) (s : pb_istream) (m : mem) :
  fs !! i = Some f -> (length fs - i <= fuel)%nat ->
  exists t it, last_field fuel (at_ i f) s m = Ret (0, t, it) s m /\ PB_HTYPE t <> PB_HTYPE_REQUIRED.
Proof.
  revert i f. induction fuel as [|fuel IH]; intros i f Hf Hfuel; pose proof (lookup_lt_Some _ _ _ Hf); [lia|].
  cbn [last_field]. destruct (succ_lookup fs i) as [g Hg]; [done|].
  unfold mbind, D_bind. rewrite (next_at fs submsgs default callback Hwf dest i f g) by done.
  unfold succ_pos in *. case_decide.
  - rewrite (proj2 (Z.eqb_neq _ _)) by lia. apply IH; [done|lia].
  - simpl. exists (f_type f), (at_ 0 g). rewrite req_pos_zero. split; [done|].
    exact (Forall_lookup_1 _ _ _ _ Hnoreq Hf).
Qed.

Lemma check_required_none (st : inner) (i : nat) (f : field) (s : pb_istream) (m : mem) :
  fs !! i = Some f -> iter st = at_ i f -> check_required st s m = Ret tt s m.
Proof.
  intros Hf Hi. unfold check_required. rewrite Hi.
  destruct (last_field_at (S (Z.to_nat (field_count (descriptor (at_ i f))))) i f s m Hf)
    as (t & it & E & Ht); [simpl; lia|].
  unfold mbind, D_bind. rewrite E. rewrite (proj2 (Z.eqb_neq (PB_HTYPE t) _) Ht). done.
Qed.

Context {A : Type} (step : Z -> Z -> A -> pb_istream -> A * option pb_istream).
Context (R : A -> mem -> Prop) (W : mem -> Prop) (P : A -> Prop).
(** Unknown fields are skipped. *)
Context (Hunknown : forall wt t a s, list_find (fun g => f_tag g = t) fs = None ->
  step wt t a s = (a, snd <$> rd (pb_skip_field wt) s)).
(** Known fields take a step; [P] bounds what the message may contain. *)
Context (Hmono : forall wt t a s, P (step wt t a s).1 -> P a).
Context (Hknown : forall i f wt a s m, fs !! i = Some f -> stream_ok s -> R a m ->
  P (step wt (f_tag f) a s).1 ->
  dwp (decode_field decode_fn rec wt (at_ i f)) s m
    (returned R (fun it _ => it = at_ i f) (step wt (f_tag f) a s) s) (failed W (step wt (f_tag f) a s) s)).
Context (HRW : forall a m, R a m -> W m).
Notation returned := (returned R).
Notation failed := (failed W).

(** Between two fields. *)
Definition inner_inv (st : inner) : Prop :=
  (exists i f, fs !! i = Some f /\ iter st = at_ i f) /\
  fixed_count_field st = PB_SIZE_MAX /\
  (extension_range_start st = 0 \/ extension_range_start st = u32 (-1)).

Lemma unknown_field_refines (wt t : Z) (st : inner) (a : A) (s : pb_istream) (m : mem) :
  inner_inv st -> stream_ok s -> R a m -> 0 <= t < 2 ^ 29 ->
  list_find (fun g => f_tag g = t) fs = None ->
  dwp (unknown_field descs decode_fn ext_decode_fn ext_max rec wt t st) s m
    (returned (fun st' _ => inner_inv st') (step wt t a s) s) (failed (step wt t a s) s).
Proof.
  intros ((i & f & Hf & Hi) & Hfc & Hext) Hs HR Ht Hfind. unfold unknown_field.
  rewrite (Hunknown wt t a s Hfind). apply dwp_bind.
  assert (forall st', inner_inv st' ->
    dwp (_ ← pb_skip_field wt; mret st') s m
      (returned (fun st' _ => inner_inv st') (a, snd <$> rd (pb_skip_field wt) s) s)
      (failed (a, snd <$> rd (pb_skip_field wt) s) s)) as Hskip.
  { intros st' Hst'. apply dwp_bind. eapply rd_dwp; [apply memfree_skip_field|intros N; apply skip_field_reader|done| |].
    - intros [] s' k Hrd _ Hk. apply dwp_ret. split; [done|]. rewrite Hrd. exists a, k. done.
    - intros s' Hrd Hf'. rewrite Hrd. simpl. split; [done|]. split; [by eapply HRW|done]. }
  destruct Hext as [E|E]; rewrite E.
  - rewrite (proj2 (Z.leb_le _ _)) by lia. apply dwp_bind. unfold dwp at 1.
    rewrite Hi, (find_extension_none i f) by done.
    rewrite (proj2 (Z.leb_gt (u32 (-1)) t)) by (change (u32 (-1)) with 4294967295; lia).
    apply dwp_ret. apply Hskip. split; [by exists i, f|]. by split; [|right].
  - rewrite (proj2 (Z.leb_gt (u32 (-1)) t)) by (change (u32 (-1)) with 4294967295; lia).
    apply dwp_ret. apply Hskip. split; [by exists i, f|]. by split; [|right].
Qed.

Lemma known_field_refines (wt : Z) (i : nat) (f : field) (st : inner) (a : A) (s : pb_istream) (m : mem) :
  inner_inv st -> fs !! i = Some f -> iter st = at_ i f -> stream_ok s -> R a m ->
  P (step wt (f_tag f) a s).1 ->
  dwp (st ← enter_fixed_count st; decode_known decode_fn rec wt (mark_seen st)) s m
    (returned (fun st' _ => inner_inv st') (step wt (f_tag f) a s) s) (failed (step wt (f_tag f) a s) s).
Proof.
  intros (_ & Hfc & Hext) Hf Hi Hs HR HP. apply dwp_bind.
  assert (enter_fixed_count st s m = Ret st s m) as E.
  { unfold enter_fixed_count. rewrite Hi. change (pSize (at_ i f)) with (psize_at f dest).
    pose proof (Forall_lookup_1 _ _ _ _ Hnoarray Hf) as Hna. cbv beta in Hna.
    destruct (psize_at f dest); [..|done|]; by rewrite andb_false_r. }
  unfold dwp at 1. rewrite E.
  assert (mark_seen st = st) as ->.
  { unfold mark_seen. rewrite Hi. change (ftype (at_ i f)) with (f_type f).
    by rewrite (proj2 (Z.eqb_neq _ _) (Forall_lookup_1 _ _ _ _ Hnoreq Hf)). }
  unfold decode_known. apply dwp_bind. rewrite Hi.
  eapply dwp_mono; [by apply Hknown| |done].
  intros it s' m' (-> & a' & k & Hstep & HR' & Hk). apply dwp_ret.
  split; [|by exists a', k]. split; [by exists i, f|]. done.
Qed.

(** The field with tag t, wherever the iterator was. *)
Lemma field_refines (wt t : Z) (st : inner) (a : A) (s : pb_istream) (m : mem) :
  inner_inv st -> stream_ok s -> R a m -> 0 <= t < 2 ^ 29 -> P (step wt t a s).1 ->
  dwp (decode_tagged descs decode_fn ext_decode_fn ext_max rec wt t st) s m
    (returned (fun st' _ => inner_inv st') (step wt t a s) s) (failed (step wt t a s) s).
Proof.
  intros ((i & f & Hf & Hi) & Hfc & Hext) Hs HR Ht HP.
  assert (forall j g, fs !! j = Some g -> inner_inv (set_iter (at_ j g) st)) as Hset.
  { intros j g Hg. by split; [exists j, g|]. }
  assert (forall j g, fs !! j = Some g -> f_tag g = t ->
    dwp (if negb true || (PB_LTYPE (ftype (at_ j g)) =? PB_LTYPE_EXTENSION)
         then unknown_field descs decode_fn ext_decode_fn ext_max rec wt t (set_iter (at_ j g) st)
         else st0 ← enter_fixed_count (set_iter (at_ j g) st); decode_known decode_fn rec wt (mark_seen st0)) s m
      (returned (fun st' _ => inner_inv st') (step wt t a s) s) (failed (step wt t a s) s)) as Hkn.
  { intros j g Hg <-. destruct (wf_lookup fs submsgs Hwf _ g Hg) as (_ & _ & Hx).
    change (ftype (at_ j g)) with (f_type g). rewrite (proj2 (Z.eqb_neq _ _) Hx). cbn [negb orb].
    apply (known_field_refines wt j g); auto. }
  apply dwp_bind. unfold dwp at 1. rewrite Hi, (find_at fs submsgs default callback Hwf dest t i f) by done.
  destruct (Z.eqb_spec (f_tag f) t) as [Eft|Eft]; [by apply Hkn|].
  destruct (list_find (fun g => f_tag g = t) fs) as [[j g]|] eqn:Hfind.
  - apply list_find_Some in Hfind as (Hg & Eg & _). by apply Hkn.
  - cbn [negb orb]. apply unknown_field_refines; auto.
Qed.

Lemma inner_loop_refines (fuel : nat) (flags : Z) (st : inner) (a : A) (s : pb_istream) (m : mem) :
  inner_inv st -> stream_ok s -> R a m -> bytes_left s < Z.of_nat fuel ->
  Z.land flags PB_DECODE_NULLTERMINATED = 0 -> P (spec_loop step fuel a s).1 ->
  dwp (inner_loop descs decode_fn ext_decode_fn ext_max rec fuel flags st) s m
    (returned (fun st' s' => inner_inv st' /\ bytes_left s' = 0) (spec_loop step fuel a s) s)
    (failed (spec_loop step fuel a s) s).
Proof.
  revert st a s m. induction fuel as [|fuel IH]; intros st a s m Hinv Hs HR Hb Hfl; [destruct Hs; lia|].
  cbn [inner_loop spec_loop]. intros HP. apply dwp_bind. unfold get, dwp at 1.
  destruct (Z.eqb_spec (bytes_left s) 0) as [E0|E0].
  { apply dwp_ret. split; [done|]. exists a, O. split; [done|]. split; [done|]. by apply adv_refl. }
  apply dwp_bind. eapply rd_dwp; [apply memfree_tag|intros N; apply decode_tag_reader|done| |].
  2: { intros s' Hrd Hf. rewrite Hrd. split; [done|]. split; [by eapply HRW|done]. }
  intros r s1 k Hrd Hpost Hk. rewrite Hrd in *. destruct r as [[wt t]|].
  2: { exfalso. by eapply tag_present. }
  destruct Hpost as (Hk1 & Hwt & Ht). pose proof (adv_ok _ _ _ Hs Hk) as Hs1.
  destruct (Z.eqb_spec t 0) as [Et|Et].
  { rewrite Hfl. simpl. split; [done|]. split; [by eapply HRW|]. apply fell_error. by eapply adv_is_fell. }
  assert (P (step wt t a s1).1) as HP1.
  { destruct (step wt t a s1) as [a' [s''|]]; [|done]. by eapply spec_loop_mono. }
  pose proof (field_refines wt t st a s1 m Hinv Hs1 HR Ht HP1) as Hfield.
  eapply refines_seq; [done|exact Hfield|].
  intros st1 s2 m2 a1 k1 Hst Hinv1 HR1 Hk2. rewrite Hst in HP.
  pose proof Hk as (_ & Eb & ?). pose proof Hk2 as (_ & Eb2 & ?).
  apply IH; try done; [by eapply adv_ok|lia].
Qed.

(** Decoding a message does what the specification says. *)
Lemma inner_refines (flags : Z) (a : A) (s : pb_istream) (m : mem) :
  stream_ok s -> R a m -> Z.land flags PB_DECODE_NULLTERMINATED = 0 -> P (spec_message step a s).1 ->
  dwp (pb_decode_inner descs decode_fn ext_decode_fn ext_max rec d dest flags) s m
    (returned (fun _ s' => bytes_left s' = 0) (spec_message step a s) s) (failed (spec_message step a s) s).
Proof.
  intros Hs HR Hfl HP. destruct first_field as [f Hf]. unfold pb_decode_inner.
  apply dwp_bind. unfold dwp at 1. rewrite (begin_at fs submsgs default callback Hwf dest f) by done.
  apply dwp_bind. unfold get, dwp at 1. apply dwp_bind.
  eapply dwp_mono; [apply (inner_loop_refines _ _ _ a); try done| |done].
  - split; [by exists O, f|]. by split; [|left].
  - destruct Hs as [? _]. lia.
  - intros st' s' m' ((((i & g & Hg & Hi) & Hfc & _) & Hb) & Hex). rewrite Hfc, Z.eqb_refl. cbn [negb andb].
    unfold dwp. by rewrite (check_required_none st' i g).
Qed.


End Inner.

(** ** Default values, field by field, without a default stream *)
Section Defaults.
Context (descs : Z -> option pb_msgdesc) (decode_fn : Z -> option callback_fn).
Context (ext_max : nat) (rec : decoder) (self : pb_field_iter -> DI unit).
Context (fs : list field) (submsgs : list Z) (callback : bool) (dest : Z) (Hwf : wf_fields fs submsgs).
Notation at_ i f := (iter_at fs submsgs None callback dest i f).

Lemma defaults_step (fuel i : nat) (f g : field) (s : pb_istream) (m : mem)
    (Q : unit -> pb_istream -> mem -> Prop) E :
  fs !! i = Some f -> fs !! succ_pos fs i = Some g ->
  dwp (pb_field_set_to_default descs ext_max self (at_ i f)) s m
    (fun it s' m' => it = at_ i f /\
       if decide (succ_pos fs i = O) then Q tt s' m'
       else dwp (defaults_loop descs decode_fn ext_max rec self fuel PB_ISTREAM_EMPTY 0 PB_WT_VARINT
                   (at_ (succ_pos fs i) g)) s' m' Q E) E ->
  dwp (defaults_loop descs decode_fn ext_max rec self (S fuel) PB_ISTREAM_EMPTY 0 PB_WT_VARINT (at_ i f)) s m Q E.
Proof.
  intros Hf Hg H. cbn [defaults_loop]. apply dwp_bind. eapply dwp_mono; [exact H| |done].
  intros it s' m' [-> Hrest]. cbn [nonzero Z.eqb negb andb]. apply dwp_bind. apply dwp_ret.
  apply dwp_bind. unfold dwp at 1. rewrite (next_at fs submsgs None callback Hwf dest i f g) by done.
  case_decide as E0.
  - by rewrite E0.
  - by rewrite (proj2 (Z.eqb_neq _ _)) by lia.
Qed.
End Defaults.

(** ** Single fields *)

(** A computation that does not touch memory: [rd] tells its result. *)
Lemma dwp_rd {A} (c : DI A) (s : pb_istream) (m : mem) (Q : A -> pb_istream -> mem -> Prop) E :
  memfree c ->
  dwp c s m (fun a s' m' => m' = m -> rd c s = Some (a, s') -> Q a s' m')
            (fun s' m' => m' = m -> rd c s = None -> E s' m') -> dwp c s m Q E.
Proof.
  intros Hm. unfold dwp, rd. rewrite (Hm s m). destruct (c s ∅); auto.
Qed.

Section Fields.
Context (decode_fn : Z -> option callback_fn) (rec : decoder).
Context {A : Type} (R : A -> mem -> Prop) (W : mem -> Prop) (P : A -> Prop).
Context (HRW : forall a m, R a m -> W m).

(** The parent stream once the substream is closed. *)
Definition closed (sub s : pb_istream) : pb_istream :=
  mk_istream (drop (Z.to_nat (bytes_left sub)) (state sub)) (bytes_left s) (errmsg sub).

(** A field of length-delimited data, which [g] decodes on a stream of its own. *)
Definition spec_delimited (g : A -> pb_istream -> A * option pb_istream) (a : A) (s : pb_istream)
    : A * option pb_istream :=
  match rd pb_make_string_substream s with
  | None => (a, None)
  | Some (sub, s1) =>
      match g a sub with
      | (a', Some sub') => (a', Some (closed sub' s1))
      | (a', None) => (a', None)
      end
  end.

Lemma delimited_mono (g : A -> pb_istream -> A * option pb_istream) (a : A) (s : pb_istream) :
  (forall a s, P (g a s).1 -> P a) -> P (spec_delimited g a s).1 -> P a.
Proof.
  intros Hm. unfold spec_delimited. destruct (rd _ s) as [[sub s1]|]; [|done].
  destruct (g a sub) as [a' [?|]] eqn:E; intros HP; apply (Hm a sub); by rewrite E.
Qed.

Lemma close_ok (k j : nat) (s sub s1 sub' : pb_istream) :
  stream_ok s -> split_off k s sub s1 -> adv_by j sub sub' ->
  exists i, adv_by i s (closed sub' s1).
Proof.
  intros Hs Hsp Ha. pose proof (split_off_ok _ _ _ _ Hs Hsp) as Hok.
  pose proof (adv_ok _ _ _ Hok Ha) as Hok'.
  assert (dwp (pb_close_string_substream sub') s1 ∅
    (fun _ s2 _ => adv_by (k + Z.to_nat (bytes_left sub)) s s2) (fun _ _ => False)) as H.
  { by eapply (close_substream_adv k j s sub). }
  unfold dwp in H. rewrite close_substream_eq in H by done. eauto.
Qed.

(** The common shape: open a substream, decode on it, close it. *)
Lemma delimited_refines (c : pb_istream -> DI unit) g (a : A) (s : pb_istream) (m : mem) :
  stream_ok s -> R a m -> P (spec_delimited g a s).1 ->
  (forall sub s1 a m, stream_ok sub -> R a m -> P (g a sub).1 ->
     forall k, split_off k s sub s1 ->
     dwp (c sub) s1 m
       (fun _ s' m' => exists a' j sub', g a sub = (a', Some sub') /\ R a' m' /\ adv_by j sub sub' /\
          s' = closed sub' s1)
       (fun s' m' => (g a sub).2 = None /\ W m' /\ fell s s')) ->
  dwp (sub ← pb_make_string_substream; c sub) s m
    (returned R (fun _ _ => True) (spec_delimited g a s) s) (failed W (spec_delimited g a s) s).
Proof.
  intros Hs HR HP Hc. apply dwp_bind, dwp_rd; [apply memfree_make_substream|].
  apply make_substream_dwp; [done| |].
  - intros k sub s1 Hk Hsp _ Hrd. unfold spec_delimited in *. rewrite Hrd in *.
    pose proof (split_off_ok _ _ _ _ Hs Hsp) as Hok.
    eapply dwp_mono; [eapply (Hc sub s1 a m Hok HR); [|done]| |].
    + by destruct (g a sub) as [a' [?|]].
    + intros [] s' m' (a' & j & sub' & Hg & HR' & Hj & ->). rewrite Hg.
      destruct (close_ok k j s sub s1 sub' Hs Hsp Hj) as [i Hi]. split; [done|]. eauto 6.
    + intros s' m' (Hg & HW & Hf). destruct (g a sub) as [a' [?|]]; [done|]. done.
  - intros s' Hf _ Hrd. unfold spec_delimited. rewrite Hrd. split; [done|]. split; [by eapply HRW|done].
Qed.

(** A submessage: [g] is what [rec] does for it. *)
Lemma submessage_refines (field : pb_field_iter) g (a : A) (s : pb_istream) (m : mem) :
  submsg_desc field <> 0 -> PB_HTYPE (ftype field) = PB_HTYPE_OPTIONAL ->
  (forall a s m, stream_ok s -> R a m -> P (g a s).1 ->
     dwp (rec (submsg_desc field) (pData field) PB_DECODE_NOINIT) s m
       (returned R (fun _ _ => True) (g a s) s) (failed W (g a s) s)) ->
  stream_ok s -> R a m -> P (spec_delimited g a s).1 ->
  dwp (pb_dec_submessage rec field) s m
    (returned R (fun _ _ => True) (spec_delimited g a s) s) (failed W (spec_delimited g a s) s).
Proof.
  intros Hd Hh Hrec Hs HR HP. apply delimited_refines; [done..|].
  intros sub s1 a1 m1 Hok HR1 HP1 k Hsp. rewrite Hh, (proj2 (Z.eqb_neq _ _) Hd).
  apply dwp_bind, dwp_on_stream. eapply dwp_mono; [by apply (Hrec a1)| |].
  - intros [] sub' m' (_ & a' & j & Hg & HR' & Hj). apply dwp_bind. unfold dwp at 1.
    rewrite close_substream_eq by (by eapply adv_ok). apply dwp_ret. by exists a', j, sub'.
  - intros sub' m' (Hg & HW & Hf). apply dwp_bind. by eapply (close_substream_fell k s sub).
Qed.

(** ** Callbacks *)

Section Callback.
Context (field : pb_field_iter) (g : A -> pb_istream -> A * option pb_istream).
Hypothesis Hcb : forall a s m, stream_ok s -> R a m -> P (g a s).1 ->
  dwp (pb_default_field_callback decode_fn rec field) s m
    (returned R (fun _ _ => True) (g a s) s) (failed W (g a s) s).
Hypothesis Hmono : forall a s, P (g a s).1 -> P a.

Fixpoint spec_callback_loop (fuel : nat) (a : A) (s : pb_istream) : A * option pb_istream :=
  match fuel with
  | O => (a, None)
  | S fuel =>
      match g a s with
      | (a', Some s') =>
          if (0 <? bytes_left s') && (bytes_left s' <? bytes_left s)
          then spec_callback_loop fuel a' s' else (a', Some s')
      | (a', None) => (a', None)
      end
  end.

Definition spec_callback (wire_type : Z) (a : A) (s : pb_istream) : A * option pb_istream :=
  if wire_type =? PB_WT_STRING then
    spec_delimited (fun a sub => spec_callback_loop (S (length (state sub))) a sub) a s
  else match rd (read_raw_value wire_type 10) s with
       | None => (a, None)
       | Some (buf, s1) =>
           match g a (pb_istream_from_buffer buf (Z.of_nat (length buf))) with
           | (a', Some _) => (a', Some s1)
           | (a', None) => (a', None)
           end
       end.

Lemma callback_loop_mono (fuel : nat) (a : A) (s : pb_istream) : P (spec_callback_loop fuel a s).1 -> P a.
Proof.
  revert a s. induction fuel as [|fuel IH]; intros a s; simpl; [done|].
  destruct (g a s) as [a' [s'|]] eqn:E; [case_match|]; intros HP; apply (Hmono a s); rewrite E; [by eapply IH|done..].
Qed.

Lemma spec_callback_mono (wire_type : Z) (a : A) (s : pb_istream) : P (spec_callback wire_type a s).1 -> P a.
Proof.
  unfold spec_callback. case_match.
  - apply delimited_mono. intros a1 s1. apply callback_loop_mono.
  - destruct (rd _ s) as [[buf s1]|]; [|done]. set (sub := pb_istream_from_buffer _ _).
    destruct (g a sub) as [a' [?|]] eqn:E; intros HP; apply (Hmono a sub); by rewrite E.
Qed.

Lemma callback_loop_refines (fuel : nat) (a : A) (sub s1 : pb_istream) (m : mem) :
  stream_ok sub -> R a m -> bytes_left sub < Z.of_nat fuel -> P (spec_callback_loop fuel a sub).1 ->
  dwp (callback_loop decode_fn rec fuel sub field) s1 m
    (fun sub' s' m' => s' = s1 /\ exists a' j, spec_callback_loop fuel a sub = (a', Some sub') /\ R a' m' /\
       adv_by j sub sub')
    (fun s' m' => (spec_callback_loop fuel a sub).2 = None /\ W m' /\ s' = set_error "callback failed" s1).
Proof.
  revert a sub m. induction fuel as [|fuel IH]; intros a sub m Hs HR Hb; [destruct Hs; lia|].
  cbn [callback_loop spec_callback_loop]. intros HP.
  assert (P (g a sub).1) as HP1.
  { destruct (g a sub) as [a' [s'|]]; [|done]. case_match; [by eapply callback_loop_mono|done]. }
  apply dwp_bind, dwp_on_stream. eapply dwp_mono; [by apply (Hcb a)| |].
  - intros [] sub' m' (_ & a' & j & Hg & HR' & Hj). rewrite Hg in *. case_match eqn:Hm.
    + apply andb_true_iff in Hm as [_ Hm]. apply Z.ltb_lt in Hm.
      eapply dwp_mono; [apply (IH a'); [by eapply adv_ok|done|lia|done]| |done].
      intros sub2 s2 m2 (-> & a2 & j2 & Hsp & HR2 & Hj2). split; [done|].
      exists a2, (j + j2)%nat. split; [done|]. split; [done|]. by eapply adv_trans.
    + apply dwp_ret. split; [done|]. by exists a', j.
  - intros sub' m' (Hg & HW & _). destruct (g a sub) as [a' [?|]]; [done|]. done.
Qed.

Lemma callback_field_refines (wire_type : Z) (a : A) (s : pb_istream) (m : mem) :
  field_callback (descriptor field) = true ->
  stream_ok s -> R a m -> P (spec_callback wire_type a s).1 ->
  dwp (decode_callback_field decode_fn rec wire_type field) s m
    (returned R (fun _ _ => True) (spec_callback wire_type a s) s) (failed W (spec_callback wire_type a s) s).
Proof.
  intros Hd Hs HR. unfold decode_callback_field, spec_callback. rewrite Hd. cbn [negb].
  destruct (wire_type =? PB_WT_STRING); intros HP.
  - apply delimited_refines; [done..|]. intros sub s1 a1 m1 Hok HR1 HP1 k Hsp. apply dwp_bind.
    eapply dwp_mono; [apply (callback_loop_refines _ a1); [done|done|destruct Hok; lia|done]| |].
    + intros sub' s' m' (-> & a' & j & Hsp' & HR' & Hj). unfold dwp.
      rewrite close_substream_eq by (by eapply adv_ok). by exists a', j, sub'.
    + intros s' m' (Hn & HW & ->). split; [done|]. split; [done|].
      apply fell_error. by eapply split_off_fell.
  - apply dwp_bind. eapply rd_dwp; [apply memfree_raw_value|intros N; by apply raw_value_reader|done| |].
    + intros buf s1 k Hrd (Hk1 & Hl & Hb & Hm) Hk. rewrite Hrd in *.
      assert (stream_ok (pb_istream_from_buffer buf (Z.of_nat (length buf)))) as Hok.
      { unfold stream_ok. simpl. repeat split; try lia. done. }
      apply dwp_bind, dwp_on_stream. eapply dwp_mono; [apply (Hcb a); [done|done|]| |].
      * by destruct (g a _) as [a' [?|]].
      * intros [] sub' m' (_ & a' & j & Hg & HR' & _). rewrite Hg. apply dwp_ret. split; [done|]. by exists a', k.
      * intros sub' m' (Hg & HW & _). destruct (g a _) as [a' [?|]]; [done|].
        split; [done|]. split; [done|]. by eapply adv_is_fell.
    + intros s' Hrd Hf. rewrite Hrd. split; [done|]. split; [by eapply HRW|done].
Qed.
End Callback.

(** A callback that is not set reads nothing; the data is skipped. *)
Lemma null_callback (field : pb_field_iter) (a : A) (s : pb_istream) (m : mem) :
  data_size field = CALLBACK_SIZE -> holds m (pData field) (bytes_of 8 0) -> stream_ok s -> R a m ->
  dwp (pb_default_field_callback decode_fn rec field) s m
    (returned R (fun _ _ => True) (a, Some s) s) (failed W (a, Some s) s).
Proof.
  intros Hd Hh Hs HR. unfold pb_default_field_callback. rewrite Hd, Z.eqb_refl.
  assert (returned R (fun (_ : unit) _ => True) (a, Some s) s tt s m) as Hret.
  { split; [done|]. exists a, O. split; [done|]. split; [done|]. by apply adv_refl. }
  case_match; [|done]. apply dwp_bind. by eapply dwp_load_int_cell.
Qed.

(** ** An unsigned 64-bit field *)
Lemma uint64_field (field : pb_field_iter) (old : list Z) (wire_type : Z) (s : pb_istream) (m : mem) :
  ftype field = 0x11 -> pSize field = PS_NULL -> data_size field = 8 ->
  holds m (pData field) old -> length old = 8%nat -> stream_ok s ->
  dwp (decode_field decode_fn rec wire_type field) s m
    (fun it s' m' => it = field /\ exists v k, rd pb_decode_varint s = Some (v, s') /\ 0 <= v < 2 ^ 64 /\
       holds m' (pData field) (bytes_of 8 v) /\ differs_only (within (pData field) 8) m m' /\ adv_by k s s')
    (fun s' m' => rd pb_decode_varint s = None /\ m' = m /\ fell s s').
Proof.
  intros Ht Hp Hd Hh Hl Hs. unfold decode_field, decode_static_field, decode_basic_field, has_pSize, pb_dec_varint.
  rewrite Ht, Hp, Hd. cbn -[dwp mbind pb_decode_varint store_int wrap]. 
  apply dwp_bind. apply dwp_ret. rewrite Ht, Hd. cbn -[dwp mbind pb_decode_varint store_int wrap].
  apply dwp_bind, dwp_bind.
  eapply rd_dwp; [apply memfree_varint|intros N; apply varint_reader|done| |].
  - intros v s' k Hrd (Hk1 & Hv) Hk. change (wrap 64 v) with (u64 v). rewrite u64_small, Z.eqb_refl by done.
    apply dwp_bind. eapply dwp_store_cell; [done|by rewrite length_bytes_of, Hl|].
    intros m' Hh' Hdiff. apply dwp_ret. apply dwp_ret. split; [done|]. exists v, k.
    rewrite Hl in Hdiff. done.
  - intros s' Hrd Hf. done.
Qed.
End Fields.
End PbRefine.
