(* ===== verification/PbWire.v ===== *)
(** * The wire format of protobuf

    The format as its documentation defines it, independent of the code: numbers in
    groups of seven bits, keys, and fields.  Proved: the decoders of integers invert
    it, and a message decodes field by field. *)
From S2P Require Import Prelude.
From S2P Require Export PbRefine.

Module PbWire.
Export PbRefine.

(** ** Numbers *)

(** Base 128, least significant group first, a set top bit says that more follow; at
    most n + 1 bytes. *)
Fixpoint leb128 (n : nat) (v : Z) : list Z :=
  match n with
  | O => [v]
  | S n => if v <? 128 then [v] else (v mod 128 + 128) :: leb128 n (v / 128)
  end.

(** Ten bytes hold 64 bits. *)
Definition varint (v : Z) : list Z := leb128 9 v.

Lemma leb128_cons (n : nat) (v : Z) :
  128 <= v -> leb128 (S n) v = (v mod 128 + 128) :: leb128 n (v / 128).
Proof. intros. simpl. by rewrite (proj2 (Z.ltb_ge _ _)) by lia. Qed.

Lemma leb128_one (n : nat) (v : Z) : v < 128 -> leb128 n v = [v].
Proof. intros. destruct n; simpl; [done|]. by rewrite (proj2 (Z.ltb_lt _ _)). Qed.

Lemma leb128_length (n : nat) (v : Z) : (1 <= length (leb128 n v) <= S n)%nat.
Proof.
  revert v. induction n as [|n IH]; intros v; simpl; [lia|]. case_match; simpl; [lia|]. specialize (IH (v / 128)). lia.
Qed.

Lemma pow7_S (n : nat) : 2 ^ (7 * Z.of_nat (S (S n))) = 128 * 2 ^ (7 * Z.of_nat (S n)).
Proof. replace (7 * Z.of_nat (S (S n))) with (7 + 7 * Z.of_nat (S n)) by lia. by rewrite Z.pow_add_r by lia. Qed.

Lemma leb128_bytes (n : nat) (v : Z) :
  0 <= v < 2 ^ (7 * Z.of_nat (S n)) -> Forall is_byte (leb128 n v).
Proof.
  revert v. induction n as [|n IH]; intros v Hv; simpl.
  - constructor; [|done]. change (2 ^ (7 * Z.of_nat 1)) with 128 in Hv. unfold is_byte. lia.
  - rewrite pow7_S in Hv. case_match eqn:E.
    + apply Z.ltb_lt in E. constructor; [|done]. unfold is_byte. lia.
    + constructor; [unfold is_byte; dlia|]. apply IH. split; [dlia|]. apply Z.div_lt_upper_bound; lia.
Qed.

(** More room changes nothing. *)
Lemma leb128_room (n k : nat) (v : Z) :
  0 <= v < 2 ^ (7 * Z.of_nat (S n)) -> leb128 (n + k) v = leb128 n v.
Proof.
  revert v. induction n as [|n IH]; intros v Hv.
  - apply leb128_one. change (2 ^ (7 * Z.of_nat 1)) with 128 in Hv. lia.
  - simpl. case_match eqn:E; [done|]. f_equal. apply IH. rewrite pow7_S in Hv.
    split; [dlia|]. apply Z.div_lt_upper_bound; lia.
Qed.

Lemma varint_bytes (v : Z) : 0 <= v < 2 ^ 64 -> Forall is_byte (varint v).
Proof. intros Hv. apply leb128_bytes. change (2 ^ (7 * Z.of_nat 10)) with (2 ^ 70). lia. Qed.

Lemma low7_mod (b : Z) : low7 b = b mod 128.
Proof. unfold low7. change 0x7F with (Z.ones 7). by rewrite Z.land_ones. Qed.

Lemma more_small (b : Z) : 0 <= b < 128 -> more b = false.
Proof.
  intros Hb. unfold more, nonzero. apply negb_false_iff, Z.eqb_eq.
  apply Z.bits_inj'. intros i Hi. rewrite Z.land_spec, Z.bits_0. change 0x80 with (2 ^ 7).
  rewrite Z.pow2_bits_eqb by lia. destruct (Z.eqb_spec 7 i) as [<-|]; [|apply andb_false_r].
  by rewrite (proj1 (Z.bounded_iff_bits_nonneg' 7 b ltac:(lia) ltac:(lia)) ltac:(lia) 7 ltac:(lia)).
Qed.

Lemma more_large (b : Z) : 128 <= b < 256 -> more b = true.
Proof. intros Hb. destruct (more b) eqn:E; [done|]. apply more_false in E; [lia|]. unfold is_byte. lia. Qed.

Lemma lor_disjoint (a b i : Z) : 0 <= i -> 0 <= a < 2 ^ i -> 0 <= b -> Z.lor a (b * 2 ^ i) = a + b * 2 ^ i.
Proof.
  intros Hi Ha Hb. symmetry. rewrite <- Z.add_lor_land.
  assert (Z.land a (b * 2 ^ i) = 0) as ->; [|lia].
  apply Z.bits_inj'. intros j Hj. rewrite Z.land_spec, Z.bits_0.
  destruct (Z.ltb_spec j i).
  - rewrite Z.mul_pow2_bits_low by lia. apply andb_false_r.
  - by rewrite (proj1 (Z.bounded_iff_bits_nonneg' i a ltac:(lia) ltac:(lia)) ltac:(lia) j ltac:(lia)).
Qed.

(** One group of seven bits at bit [i]. *)
Lemma group_added (w r g i : Z) :
  0 <= i -> 0 <= r < 2 ^ i -> 0 <= g -> g * 2 ^ i < 2 ^ w ->
  Z.lor r (wrap w (Z.shiftl g i)) = r + g * 2 ^ i.
Proof.
  intros Hi Hr Hg Hb. rewrite Z.shiftl_mul_pow2 by lia. rewrite wrap_small by nia. by apply lor_disjoint.
Qed.

(** The group that is read next and what remains. *)
Lemma group_step (w v r i : Z) :
  0 <= i -> 0 <= v -> 0 <= r < 2 ^ i -> v * 2 ^ i < 2 ^ w ->
  Z.lor r (wrap w (Z.shiftl (low7 (v mod 128 + 128)) i)) = r + (v mod 128) * 2 ^ i /\
  0 <= r + (v mod 128) * 2 ^ i < 2 ^ (i + 7) /\
  r + v * 2 ^ i = r + (v mod 128) * 2 ^ i + (v / 128) * 2 ^ (i + 7) /\ (v / 128) * 2 ^ (i + 7) < 2 ^ w.
Proof.
  intros Hi Hv Hr Hb. rewrite low7_mod. replace ((v mod 128 + 128) mod 128) with (v mod 128) by dlia.
  assert (2 ^ (i + 7) = 128 * 2 ^ i) as Hp by (rewrite Z.pow_add_r by lia; lia). rewrite Hp.
  pose proof (Z.div_mod v 128 ltac:(lia)) as Hdm. pose proof (Z.mod_pos_bound v 128 ltac:(lia)) as Hm.
  assert (0 <= v / 128) by dlia. set (q := v / 128) in *. set (g := v mod 128) in *. clearbody q g. subst v.
  split; [apply group_added; [lia|lia|lia|nia]|]. repeat split; nia.
Qed.

Lemma varint_loop_eq (n fuel : nat) (v r i c : Z) (rest : list Z) (e : option string) (m : mem) :
  0 <= v < 2 ^ (7 * Z.of_nat (S n)) -> 0 <= i -> i + 7 * Z.of_nat n <= 63 -> 0 <= r < 2 ^ i ->
  v * 2 ^ i < 2 ^ 64 -> (n < fuel)%nat -> Z.of_nat (length (leb128 n v)) <= c < 2 ^ 64 ->
  varint_loop fuel r i (mk_istream (leb128 n v ++ rest) c e) m
  = Ret (r + v * 2 ^ i) (mk_istream rest (c - Z.of_nat (length (leb128 n v))) e) m.
Proof.
  revert fuel v r i c. induction n as [|n IH]; intros fuel v r i c Hv Hi Hin Hr Hb Hf Hc;
    (destruct fuel as [|fuel]; [lia|]); cbn [varint_loop]; rewrite (proj2 (Z.leb_gt _ _)) by lia;
    unfold mbind, D_bind; destruct (Z.ltb_spec v 128) as [Hl|Hl].
  2: { change (2 ^ (7 * Z.of_nat 1)) with 128 in Hv. lia. }
  1,2: rewrite leb128_one in * by done; cbn [app length] in *; rewrite pb_readbyte_eq by lia;
    rewrite low7_mod, Z.mod_small, more_small by lia; unfold u64; rewrite group_added by lia; done.
  rewrite pow7_S in Hv. pose proof (leb128_length n (v / 128)) as Hln.
  rewrite leb128_cons in * by done. cbn [app length] in *.
  rewrite pb_readbyte_eq by lia. rewrite more_large by dlia.
  destruct (group_step 64 v r i) as (Eg & Hr' & Ev & Hb'); [lia..|]. unfold u64. rewrite Eg, u8_small by lia.
  rewrite (IH fuel (v / 128)); [|split; [dlia|apply Z.div_lt_upper_bound; lia]|lia..]. rewrite Ev. do 2 f_equal. lia.
Qed.

(** The decoder of 64-bit numbers inverts the format. *)
Lemma varint_roundtrip (v c : Z) (rest : list Z) (e : option string) (m : mem) :
  0 <= v < 2 ^ 64 -> Z.of_nat (length (varint v)) <= c < 2 ^ 64 ->
  pb_decode_varint (mk_istream (varint v ++ rest) c e) m
  = Ret v (mk_istream rest (c - Z.of_nat (length (varint v))) e) m.
Proof.
  intros Hv Hc. unfold pb_decode_varint.
  rewrite (varint_loop_eq 9 11 v 0 0); change (2 ^ 0) with 1; [|change (2 ^ (7 * Z.of_nat 10)) with (2 ^ 70)|..]; try lia.
  - by rewrite Z.mul_1_r.
  - exact Hc.
Qed.

Lemma varint32_loop_eq (n fuel : nat) (v r i c : Z) (rest : list Z) (e : option string) (m : mem) :
  0 <= v < 2 ^ (7 * Z.of_nat (S n)) -> 0 <= i -> i + 7 * Z.of_nat n <= 28 -> 0 <= r < 2 ^ i ->
  v * 2 ^ i < 2 ^ 32 -> (length (leb128 n v) <= fuel)%nat -> Z.of_nat (length (leb128 n v)) <= c < 2 ^ 64 ->
  exists bitpos byte,
    varint32_loop fuel r i (mk_istream (leb128 n v ++ rest) c e) m
    = Ret (r + v * 2 ^ i, bitpos, byte) (mk_istream rest (c - Z.of_nat (length (leb128 n v))) e) m /\
    (bitpos = 35 -> 0 <= byte < 16).
Proof.
  revert fuel v r i c. induction n as [|n IH]; intros fuel v r i c Hv Hi Hin Hr Hb Hf Hc;
    (destruct fuel as [|fuel]; [match type of Hf with (length (leb128 ?k v) <= _)%nat => pose proof (leb128_length k v) end; lia|]); cbn [varint32_loop]; rewrite (proj2 (Z.leb_gt 32 i)) by lia;
    unfold mbind, D_bind; destruct (Z.ltb_spec v 128) as [Hl|Hl].
  2: { change (2 ^ (7 * Z.of_nat 1)) with 128 in Hv. lia. }
  1,2: rewrite leb128_one in * by done; cbn [app length] in *; rewrite pb_readbyte_eq by lia; cbn [mret D_ret];
    rewrite low7_mod, Z.mod_small, more_small by lia; unfold u32; rewrite group_added by lia; rewrite u8_small by lia;
    exists (i + 7), v; (split; [done|]); intros E; replace i with 28 in Hb by lia; lia.
  rewrite pow7_S in Hv. pose proof (leb128_length n (v / 128)) as Hln.
  rewrite leb128_cons in * by done. cbn [app length] in *.
  rewrite pb_readbyte_eq by lia. cbn [mret D_ret]. rewrite more_large by dlia.
  destruct (group_step 32 v r i) as (Eg & Hr' & Ev & Hb'); [lia..|]. unfold u32. rewrite Eg, u8_small by lia.
  destruct (IH fuel (v / 128) (r + v mod 128 * 2 ^ i) (i + 7) (c - 1)) as (bp & b & E & Hbp);
    [split; [dlia|apply Z.div_lt_upper_bound; lia]|lia..|].
  exists bp, b. split; [|done]. etransitivity; [exact E|]. rewrite Ev. do 2 f_equal. lia.
Qed.

Lemma top_bits_clear (b : Z) : 0 <= b < 16 -> nonzero (Z.land b 0x70) = false.
Proof.
  intros Hb. unfold nonzero. apply negb_false_iff, Z.eqb_eq. apply Z.bits_inj'. intros i Hi.
  rewrite Z.land_spec, Z.bits_0. destruct (Z.ltb_spec i 4).
  - assert (i = 0 \/ i = 1 \/ i = 2 \/ i = 3) as [->|[->|[->| ->]]] by lia; apply andb_false_r.
  - by rewrite (proj1 (Z.bounded_iff_bits_nonneg' 4 b ltac:(lia) ltac:(lia)) ltac:(lia) i ltac:(lia)).
Qed.

Lemma varint32_eof_roundtrip (v c : Z) (rest : list Z) (e : option string) (m : mem) :
  0 <= v < 2 ^ 32 -> Z.of_nat (length (varint v)) <= c < 2 ^ 64 ->
  pb_decode_varint32_eof (mk_istream (varint v ++ rest) c e) m
  = Ret (Some v) (mk_istream rest (c - Z.of_nat (length (varint v))) e) m.
Proof.
  intros Hv Hc. assert (varint v = leb128 4 v) as Ev.
  { apply (leb128_room 4 5). change (2 ^ (7 * Z.of_nat 5)) with (2 ^ 35). lia. }
  rewrite Ev in *. unfold pb_decode_varint32_eof, get, put, mbind, D_bind, on_stream.
  destruct (Z.ltb_spec v 128) as [Hl|Hl].
  { rewrite leb128_one in * by done. cbn [app length] in *. rewrite pb_readbyte_eq by lia.
    by rewrite more_small by lia. }
  pose proof (leb128_length 3 (v / 128)) as Hln. rewrite leb128_cons in * by done. cbn [app length] in *.
  rewrite pb_readbyte_eq by lia. rewrite more_large by dlia. cbn [negb]. unfold varint32_multibyte, mbind, D_bind.
  rewrite low7_mod. replace ((v mod 128 + 128) mod 128) with (v mod 128) by dlia.
  destruct (varint32_loop_eq 3 (length (state (mk_istream (v mod 128 + 128 :: leb128 3 (v / 128) ++ rest) c e)))
    (v / 128) (v mod 128) 7 (c - 1) rest e m) as (bp & b & E & Hb).
  - change (2 ^ (7 * Z.of_nat 4)) with (2 ^ 28). dlia.
  - lia.
  - lia.
  - change (2 ^ 7) with 128. dlia.
  - change (2 ^ 7) with 128. dlia.
  - simpl. rewrite length_app. lia.
  - lia.
  - rewrite E. assert ((bp =? 35) && nonzero (Z.land b 0x70) = false) as ->.
    { destruct (Z.eqb_spec bp 35) as [H|]; [|done]. by rewrite top_bits_clear by auto. }
    cbn [mret D_ret]. change (2 ^ 7) with 128. do 2 f_equal; [f_equal; dlia|lia].
Qed.

(** The decoder of 32-bit numbers inverts the format. *)
Lemma varint32_roundtrip (v c : Z) (rest : list Z) (e : option string) (m : mem) :
  0 <= v < 2 ^ 32 -> Z.of_nat (length (varint v)) <= c < 2 ^ 64 ->
  pb_decode_varint32 (mk_istream (varint v ++ rest) c e) m
  = Ret v (mk_istream rest (c - Z.of_nat (length (varint v))) e) m.
Proof. intros Hv Hc. unfold pb_decode_varint32, mbind, D_bind. by rewrite varint32_eof_roundtrip. Qed.


(** ** Fields *)

Definition key (wire_type tag : Z) : list Z := varint (tag * 8 + wire_type).

(** A number; zero is the default and left out. *)
Definition uint_field (tag v : Z) : list Z := if v =? 0 then [] else key PB_WT_VARINT tag ++ varint v.
(** A string, or a message in its encoded form *)
Definition bytes_field (tag : Z) (bs : list Z) : list Z :=
  key PB_WT_STRING tag ++ varint (Z.of_nat (length bs)) ++ bs.
Definition bytes_fields (tag : Z) (l : list (list Z)) : list Z := concat (map (bytes_field tag) l).

Lemma tag_roundtrip (wt tag c : Z) (rest : list Z) (e : option string) :
  0 <= wt < 8 -> 0 <= tag < 2 ^ 29 -> Z.of_nat (length (key wt tag)) <= c < 2 ^ 64 ->
  rd pb_decode_tag (mk_istream (key wt tag ++ rest) c e)
  = Some (Some (wt, tag), mk_istream rest (c - Z.of_nat (length (key wt tag))) e).
Proof.
  intros Hw Ht Hc. unfold rd, pb_decode_tag, mbind, D_bind, key in *. rewrite varint32_eof_roundtrip by lia.
  cbn [mret D_ret]. change 7 with (Z.ones 3). rewrite Z.land_ones, Z.shiftr_div_pow2 by lia. change (2 ^ 3) with 8.
  replace ((tag * 8 + wt) mod 8) with wt by dlia. by replace ((tag * 8 + wt) / 8) with tag by dlia.
Qed.

Lemma substream_roundtrip (bs rest : list Z) (c : Z) (e : option string) :
  let l := Z.of_nat (length bs) in
  l < 2 ^ 32 -> Z.of_nat (length (varint l)) + l <= c < 2 ^ 64 ->
  rd pb_make_string_substream (mk_istream (varint l ++ bs ++ rest) c e)
  = Some (mk_istream (bs ++ rest) l e, mk_istream (bs ++ rest) (c - Z.of_nat (length (varint l)) - l) e).
Proof.
  intros l Hl Hc. unfold rd, pb_make_string_substream, mbind, D_bind, get, put.
  rewrite varint32_roundtrip by lia. cbn [bytes_left state errmsg].
  rewrite (proj2 (Z.ltb_ge _ _)) by lia. cbn [mret D_ret]. by rewrite u64_small by lia.
Qed.

Lemma length_key (wt tag : Z) : (1 <= length (key wt tag))%nat.
Proof. apply leb128_length. Qed.

(** ** Messages *)

Section Reads.
Context {A : Type} (step : Z -> Z -> A -> pb_istream -> A * option pb_istream).

(** The bytes [bs] are fields, and decoding them makes [g a] of [a]. *)
Definition reads (bs : list Z) (g : A -> A) : Prop :=
  forall fuel a rest c e, Z.of_nat (length bs) <= c < 2 ^ 64 -> (length bs <= fuel)%nat ->
  exists fuel', (fuel - length bs <= fuel')%nat /\
    spec_loop step fuel a (mk_istream (bs ++ rest) c e)
    = spec_loop step fuel' (g a) (mk_istream rest (c - Z.of_nat (length bs)) e).

Lemma reads_nil : reads [] id.
Proof.
  intros fuel a rest c e Hc Hf. exists fuel. split; [simpl; lia|]. simpl. by rewrite Z.sub_0_r.
Qed.

Lemma reads_app (bs cs : list Z) (f g : A -> A) : reads bs f -> reads cs g -> reads (bs ++ cs) (g ∘ f).
Proof.
  intros Hb Hc fuel a rest c e Hl Hf. rewrite length_app in *. rewrite <- (assoc_L (++)).
  destruct (Hb fuel a (cs ++ rest) c e) as (f1 & Hf1 & E1); [lia|lia|].
  destruct (Hc f1 (f a) rest (c - Z.of_nat (length bs)) e) as (f2 & Hf2 & E2); [lia|lia|].
  exists f2. split; [lia|]. rewrite E1, E2. do 2 f_equal. lia.
Qed.

Lemma reads_ext (bs : list Z) (f g : A -> A) : (forall a, f a = g a) -> reads bs f -> reads bs g.
Proof.
  intros E H fuel a rest c e Hc Hf. destruct (H fuel a rest c e Hc Hf) as (f' & Hf' & Ef).
  exists f'. by rewrite <- E.
Qed.

Lemma reads_concat {B} (enc : B -> list Z) (f : B -> A -> A) (l : list B) :
  (forall b, b ∈ l -> reads (enc b) (f b)) ->
  reads (concat (map enc l)) (fun a => fold_left (fun a b => f b a) l a).
Proof.
  induction l as [|b l IH]; intros H; simpl; [apply reads_nil|].
  apply (reads_app _ _ (f b)); [apply H; left|]. apply IH. intros x Hx. apply H. by right.
Qed.

(** A field that the step reads to its end. *)
Lemma reads_field (wt tag : Z) (body : list Z) (g : A -> A) :
  0 <= wt < 8 -> 0 < tag < 2 ^ 29 ->
  (forall a rest c e, Z.of_nat (length body) <= c < 2 ^ 64 ->
     step wt tag a (mk_istream (body ++ rest) c e)
     = (g a, Some (mk_istream rest (c - Z.of_nat (length body)) e))) ->
  reads (key wt tag ++ body) g.
Proof.
  intros Hw Ht Hs fuel a rest c e Hl Hf. pose proof (length_key wt tag). rewrite length_app in *.
  destruct fuel as [|fuel]; [lia|]. exists fuel. split; [lia|]. rewrite <- (assoc_L (++)). cbn [spec_loop].
  cbn [bytes_left]. rewrite (proj2 (Z.eqb_neq _ _)) by lia.
  rewrite tag_roundtrip by lia. rewrite (proj2 (Z.eqb_neq _ _)) by lia. rewrite Hs by lia. do 2 f_equal. lia.
Qed.

(** Fields with the same effect on the end of a message *)
Lemma message_read (bs rest : list Z) (g : A -> A) (a : A) (e : option string) :
  reads bs g -> Z.of_nat (length bs) < 2 ^ 64 ->
  spec_message step a (mk_istream (bs ++ rest) (Z.of_nat (length bs)) e) = (g a, Some (mk_istream rest 0 e)).
Proof.
  intros Hr Hl. unfold spec_message. cbn [state]. rewrite length_app.
  destruct (Hr (S (length bs + length rest)) a rest (Z.of_nat (length bs)) e) as (f & Hf & ->); [lia|lia|].
  destruct f as [|f]; [lia|]. cbn [spec_loop bytes_left]. by rewrite Z.sub_diag.
Qed.
End Reads.

(** Data with a length, read by [g] to its end. *)
Lemma delimited_read {A} (g : A -> pb_istream -> A * option pb_istream) (f : A -> A) (bs rest : list Z) (a : A)
    (c : Z) (e : option string) :
  let body := varint (Z.of_nat (length bs)) ++ bs in
  Z.of_nat (length bs) < 2 ^ 32 -> Z.of_nat (length body) <= c < 2 ^ 64 ->
  g a (mk_istream (bs ++ rest) (Z.of_nat (length bs)) e) = (f a, Some (mk_istream rest 0 e)) ->
  spec_delimited g a (mk_istream (body ++ rest) c e)
  = (f a, Some (mk_istream rest (c - Z.of_nat (length body)) e)).
Proof.
  intros body Hl Hc Hg. subst body. rewrite length_app in *. unfold spec_delimited.
  rewrite <- (assoc_L (++)), substream_roundtrip by lia. rewrite Hg. unfold closed. simpl.
  rewrite drop_0. do 3 f_equal. lia.
Qed.

(** A callback that is called once, or not set. *)
Lemma callback_read {A} (g : A -> pb_istream -> A * option pb_istream) (f : A -> A) (bs rest : list Z) (a : A)
    (c : Z) (e : option string) :
  let body := varint (Z.of_nat (length bs)) ++ bs in
  Z.of_nat (length bs) < 2 ^ 32 -> Z.of_nat (length body) <= c < 2 ^ 64 ->
  g a (mk_istream (bs ++ rest) (Z.of_nat (length bs)) e) = (f a, Some (mk_istream rest 0 e)) ->
  spec_callback g PB_WT_STRING a (mk_istream (body ++ rest) c e)
  = (f a, Some (mk_istream rest (c - Z.of_nat (length body)) e)).
Proof.
  intros body Hl Hc Hg. unfold spec_callback. rewrite Z.eqb_refl. apply delimited_read; [done..|].
  cbn [spec_callback_loop]. by rewrite Hg.
Qed.

Lemma unset_callback_read {A} (bs rest : list Z) (a : A) (c : Z) (e : option string) :
  let body := varint (Z.of_nat (length bs)) ++ bs in
  Z.of_nat (length bs) < 2 ^ 32 -> Z.of_nat (length body) <= c < 2 ^ 64 ->
  spec_callback (fun a s => (a, Some s)) PB_WT_STRING a (mk_istream (body ++ rest) c e)
  = (a, Some (mk_istream rest (c - Z.of_nat (length body)) e)).
Proof.
  intros body Hl Hc. subst body. rewrite length_app in *. unfold spec_callback. rewrite Z.eqb_refl. unfold spec_delimited.
  rewrite <- (assoc_L (++)), substream_roundtrip by lia. cbn [spec_callback_loop].
  rewrite Z.ltb_irrefl, andb_false_r. unfold closed. simpl. rewrite Nat2Z.id, drop_app_length. do 3 f_equal. lia.
Qed.

(** ** Theorem *)

(** C23: The decoders of integers are safe and right.  On every stream inside its buffer
    pb_decode_varint and pb_decode_varint32 terminate, change no memory and do not read
    more than is left; a number that is returned fits 64 (or 32) bits and took at least
    one byte, and at most ten for 64 bits.  A number in the wire format is decoded to
    itself, and the stream is then exactly behind it. *)
Theorem varint_decoders_correct (s : pb_istream) (m : mem) :
  stream_ok s ->
  dwp pb_decode_varint s m
    (fun v s' m' => m' = m /\ 0 <= v < 2 ^ 64 /\ exists k, (1 <= k <= 10)%nat /\ adv_by k s s')
    (fun s' m' => m' = m /\ fell s s') /\
  dwp pb_decode_varint32 s m
    (fun v s' m' => m' = m /\ 0 <= v < 2 ^ 32 /\ exists k, (1 <= k)%nat /\ adv_by k s s')
    (fun s' m' => m' = m /\ fell s s') /\
  (forall v rest, state s = varint v ++ rest -> Z.of_nat (length (varint v)) <= bytes_left s ->
     let s' := mk_istream rest (bytes_left s - Z.of_nat (length (varint v))) (errmsg s) in
     (0 <= v < 2 ^ 64 -> pb_decode_varint s m = Ret v s' m) /\
     (0 <= v < 2 ^ 32 -> pb_decode_varint32 s m = Ret v s' m)).
Proof.
  intros Hs. pose proof Hs as (_ & Hw & _). split; [|split].
  - eapply dwp_mono; [by apply (varint_reader (2 ^ 64))| |done].
    intros v s' m' (-> & k & [Hk Hv] & Ha). split; [done|]. split; [done|]. by exists k.
  - eapply dwp_mono; [by apply (varint32_reader (2 ^ 64))| |done].
    intros v s' m' (-> & k & [Hk Hv] & Ha). split; [done|]. split; [done|]. by exists k.
  - intros v rest E Hl. destruct s as [st n e]. simpl in *. subst st.
    split; intros Hv; [by apply varint_roundtrip|by apply varint32_roundtrip].
Qed.

Lemma varint_decoders_correct_witness :
  pb_decode_varint (mk_istream [172; 2; 99] 3 None) ∅ = Ret 300 (mk_istream [99] 1 None) ∅.
Proof.
  refine (proj1 (proj2 (proj2 (varint_decoders_correct (mk_istream [172; 2; 99] 3 None) ∅ _)) 300 [99] _ _) _).
  - split; [simpl; lia|]. split; [simpl; lia|]. by repeat constructor.
  - reflexivity.
  - vm_compute. discriminate.
  - lia.
Defined.

End PbWire.
