(* ===== verification/PbEncode.v ===== *)
(** * The encoder of nanopb (nanopb/pb_encode.c)

    An output stream writes to a buffer, or counts only (a sizing stream, whose
    callback is NULL).  The buffer is [out], what has been written, and [room], the
    bytes behind the pointer; writing behind it is undefined.  Messages are read from
    memory.  As in the decoder, [rec] is pb_encode with less fuel. *)
From S2P Require Import Prelude.
From S2P Require Export PbDecode.

Module PbEncode.
Export PbDecode.

Record pb_ostream := mk_ostream {
  callback : bool; out : list Z; room : Z;
  max_size : Z; bytes_written : Z; o_errmsg : option string }.

Notation DO := (D pb_ostream).

Definition o_error (msg : string) (s : pb_ostream) : pb_ostream :=
  mk_ostream (callback s) (out s) (room s) (max_size s) (bytes_written s)
    (match o_errmsg s with Some e => Some e | None => Some msg end).
Definition O_RETURN_ERROR {A} (msg : string) : DO A := fun s m => Err (o_error msg s) m.
Definition O_GET_ERROR (s : pb_ostream) : string := match o_errmsg s with Some e => e | None => "(none)" end.

Definition PB_ENCODE_DELIMITED : Z := 0x02.
Definition PB_ENCODE_NULLTERMINATED : Z := 0x04.
Definition PB_OSTREAM_SIZING : pb_ostream := mk_ostream false [] 0 0 0 None.

Definition pb_ostream_from_buffer (bufsize : Z) : pb_ostream := mk_ostream true [] bufsize bufsize 0 None.

(** What a const pb_byte_t pointer points to: nothing, a local array, or memory. *)
Inductive source :=
| NULL
| LOCAL (bs : list Z)
| AT (a : Z).

Definition fetch (buf : source) (count : Z) : DO (list Z) :=
  match buf with
  | NULL => if count =? 0 then mret [] else undef
  | LOCAL bs => if count <=? Z.of_nat (length bs) then mret (take (Z.to_nat count) bs) else undef
  | AT a => load a (Z.to_nat count)
  end.

Definition buf_write (buf : source) (count : Z) : DO unit :=
  bs ← fetch buf count;
  s ← get;
  if count <=? room s then
    put (mk_ostream (callback s) (out s ++ bs) (room s - count) (max_size s) (bytes_written s) (o_errmsg s))
  else undef.

Definition pb_write (buf : source) (count : Z) : DO unit :=
  s ← get;
  _ ← (if callback s then
         if max_size s <? u64 (bytes_written s + count) then O_RETURN_ERROR "stream full"
         else buf_write buf count
       else mret tt);
  s ← get;
  put (mk_ostream (callback s) (out s) (room s) (max_size s) (u64 (bytes_written s + count)) (o_errmsg s)).

(** ** Integers *)

(** while (i < 4 && (low != 0 || high != 0)) *)
Fixpoint low_groups (n : nat) (low high byte : Z) (buffer : list Z) : list Z * Z :=
  match n with
  | O => (buffer, byte)
  | S n =>
      if nonzero low || nonzero high
      then low_groups n (Z.shiftr low 7) high (u8 (Z.land low 0x7F)) (buffer ++ [Z.lor byte 0x80])
      else (buffer, byte)
  end.

(** while (high): 29 bits are five groups. *)
Fixpoint high_groups (n : nat) (high byte : Z) (buffer : list Z) : list Z * Z :=
  match n with
  | O => (buffer, byte)
  | S n =>
      if nonzero high
      then high_groups n (Z.shiftr high 7) (u8 (Z.land high 0x7F)) (buffer ++ [Z.lor byte 0x80])
      else (buffer, byte)
  end.

Definition varint_32_bytes (low high : Z) : list Z :=
  let '(buffer, byte) := low_groups 4 (Z.shiftr low 7) high (u8 (Z.land low 0x7F)) [] in
  let '(buffer, byte) :=
    if nonzero high
    then high_groups 5 (Z.shiftr high 3) (u8 (Z.lor byte (Z.shiftl (Z.land high 0x07) 4))) buffer
    else (buffer, byte) in
  buffer ++ [byte].

Definition pb_encode_varint_32 (low high : Z) : DO unit :=
  let buffer := varint_32_bytes low high in
  pb_write (LOCAL buffer) (Z.of_nat (length buffer)).

Definition pb_encode_varint (value : Z) : DO unit :=
  if value <=? 0x7F then pb_write (LOCAL [u8 value]) 1
  else pb_encode_varint_32 (u32 value) (u32 (Z.shiftr value 32)).

Definition pb_encode_svarint (value : Z) : DO unit :=
  pb_encode_varint (if value <? 0 then not64 (u64 (Z.shiftl (u64 value) 1)) else u64 (Z.shiftl (u64 value) 1)).

Definition byte_at (v i : Z) : Z := u8 (Z.land (Z.shiftr v (8 * i)) 0xFF).

Definition pb_encode_fixed32 (value : Z) : DO unit :=
  val ← load_int value 4;
  pb_write (LOCAL (map (byte_at val) [0; 1; 2; 3])) 4.

Definition pb_encode_fixed64 (value : Z) : DO unit :=
  val ← load_int value 8;
  pb_write (LOCAL (map (byte_at val) [0; 1; 2; 3; 4; 5; 6; 7])) 8.

Definition pb_encode_tag (wiretype field_number : Z) : DO unit :=
  pb_encode_varint (Z.lor (u64 (Z.shiftl field_number 3)) wiretype).

Definition pb_encode_tag_for_field (field : pb_field_iter) : DO unit :=
  let ltype := PB_LTYPE (ftype field) in
  if (ltype =? PB_LTYPE_VARINT) || (ltype =? PB_LTYPE_UVARINT) || (ltype =? PB_LTYPE_SVARINT)
  then pb_encode_tag PB_WT_VARINT (tag field)
  else if ltype =? PB_LTYPE_FIXED32 then pb_encode_tag PB_WT_32BIT (tag field)
  else if ltype =? PB_LTYPE_FIXED64 then pb_encode_tag PB_WT_64BIT (tag field)
  else if (ltype =? PB_LTYPE_BYTES) || (ltype =? PB_LTYPE_STRING) || (ltype =? PB_LTYPE_SUBMESSAGE) ||
          (ltype =? PB_LTYPE_FIXED_LENGTH_BYTES)
  then pb_encode_tag PB_WT_STRING (tag field)
  else O_RETURN_ERROR "invalid field type".

Definition pb_encode_string (buffer : source) (size : Z) : DO unit :=
  _ ← pb_encode_varint size; pb_write buffer size.

(** ** Field encoders *)

Definition valid_int_size (n : Z) : bool := (n =? 1) || (n =? 2) || (n =? 4) || (n =? 8).

Definition pb_enc_varint (field : pb_field_iter) : DO unit :=
  if valid_int_size (data_size field) then
    value ← load_int (pData field) (data_size field);
    if PB_LTYPE (ftype field) =? PB_LTYPE_UVARINT then pb_encode_varint value
    else
      let value := swrap (8 * data_size field) value in
      if PB_LTYPE (ftype field) =? PB_LTYPE_SVARINT then pb_encode_svarint value
      else pb_encode_varint (u64 value)
  else O_RETURN_ERROR "invalid data_size".

Definition pb_enc_fixed (field : pb_field_iter) : DO unit :=
  if data_size field =? 4 then pb_encode_fixed32 (pData field)
  else if data_size field =? 8 then pb_encode_fixed64 (pData field)
  else O_RETURN_ERROR "invalid data_size".

Definition pb_enc_bytes (field : pb_field_iter) : DO unit :=
  if pData field =? 0 then pb_encode_string NULL 0
  else
    size ← load_int (pData field) 2;
    if (PB_ATYPE (ftype field) =? PB_ATYPE_STATIC) && (data_size field <? size + BYTES_OFFSET)
    then O_RETURN_ERROR "bytes size exceeded"
    else pb_encode_string (AT (pData field + BYTES_OFFSET)) size.

(** while (size < max_size && *p != 0); a string ends before unmapped memory. *)
Fixpoint strlen_loop (fuel : nat) (size max_size p : Z) : DO (Z * Z) :=
  match fuel with
  | O => undef
  | S fuel =>
      if size <? max_size then
        c ← load_int p 1;
        if nonzero c then strlen_loop fuel (size + 1) max_size (p + 1) else mret (size, p)
      else mret (size, p)
  end.

Definition string_size (max_size str : Z) : DO Z :=
  if str =? 0 then mret 0
  else
    '(size, p) ← (fun s m => strlen_loop (S (size m)) 0 max_size str s m);
    c ← load_int p 1;
    if nonzero c then O_RETURN_ERROR "unterminated string" else mret size.

Definition pb_enc_string (field : pb_field_iter) : DO unit :=
  if PB_ATYPE (ftype field) =? PB_ATYPE_POINTER then
    size ← string_size SIZE_MAX (pData field);
    pb_encode_string (AT (pData field)) size
  else if data_size field =? 0 then O_RETURN_ERROR "zero-length string"
  else
    size ← string_size (data_size field - 1) (pData field);
    pb_encode_string (AT (pData field)) size.

Definition pb_enc_fixed_length_bytes (field : pb_field_iter) : DO unit :=
  pb_encode_string (AT (pData field)) (data_size field).

(** ** Messages *)

(** pb_encode (stream, fields, src_struct) *)
Notation encoder := (Z -> Z -> DO unit).
(** An encode function of a pb_callback_t, which may encode messages itself. *)
Notation encode_callback_fn := (encoder -> pb_field_iter -> Z -> DO unit).

Section Encoder.
Context (descs : Z -> option pb_msgdesc) (encode_fn : Z -> option encode_callback_fn).
Context (ext_encode_fn : Z -> option (Z -> DO unit)) (ext_max : nat).
Notation desc_at := (desc_at descs).

(** all bytes zero, from byte i on *)
Fixpoint zero_bytes (n : nat) (p : Z) : DO bool :=
  match n with
  | O => mret true
  | S n => c ← load_int p 1; if nonzero c then mret false else zero_bytes n (p + 1)
  end.

(** do ... while (pb_field_iter_next): all fields of a submessage *)
Fixpoint default_fields (self : pb_field_iter -> DO bool) (fuel : nat) (iter : pb_field_iter) : DO bool :=
  match fuel with
  | O => undef
  | S fuel =>
      d ← self iter;
      if negb (d : bool) then mret false
      else
        '(more, iter) ← pb_field_iter_next iter;
        if (more : bool) then default_fields self fuel iter else mret true
  end.

Fixpoint pb_check_proto3_default_value (fuel : nat) (field : pb_field_iter) : DO bool :=
  match fuel with
  | O => undef
  | S fuel =>
      let type := ftype field in
      let catch_all := zero_bytes (Z.to_nat (data_size field)) (pData field) in
      if PB_ATYPE type =? PB_ATYPE_STATIC then
        if PB_HTYPE type =? PB_HTYPE_REQUIRED then mret false
        else if (PB_HTYPE type =? PB_HTYPE_REPEATED) || (PB_HTYPE type =? PB_HTYPE_ONEOF) then
          n ← read_size field; mret (n =? 0)
        else if (PB_HTYPE type =? PB_HTYPE_OPTIONAL) && has_pSize field then
          match pSize field with
          | PS_ADDR a => b ← load_int a 1; mret (b =? 0)
          | _ => undef
          end
        else if PB_LTYPE type =? PB_LTYPE_BYTES then n ← load_int (pData field) 2; mret (n =? 0)
        else if PB_LTYPE type =? PB_LTYPE_STRING then c ← load_int (pData field) 1; mret (c =? 0)
        else if PB_LTYPE type =? PB_LTYPE_FIXED_LENGTH_BYTES then mret (data_size field =? 0)
        else if PB_LTYPE type =? PB_LTYPE_SUBMESSAGE then
          desc ← desc_at (submsg_desc field);
          '(ok, iter) ← pb_field_iter_begin desc (pData field);
          if (ok : bool)
          then default_fields (pb_check_proto3_default_value fuel) (Z.to_nat (field_count desc)) iter
          else mret true
        else catch_all
      else catch_all
  end.

Section Fields.
Context (rec : encoder).

Definition pb_encode_submessage (fields src_struct : Z) : DO unit :=
  '(st, substream) ← on_stream PB_OSTREAM_SIZING (rec fields src_struct);
  s ← get;
  match st with
  | None =>
      _ ← put (mk_ostream (callback s) (out s) (room s) (max_size s) (bytes_written s) (o_errmsg substream));
      fails
  | Some _ =>
      let size := bytes_written substream in
      _ ← pb_encode_varint size;
      s ← get;
      if negb (callback s) then pb_write NULL size
      else if max_size s <? u64 (bytes_written s + size) then O_RETURN_ERROR "stream full"
      else
        '(status, substream) ← on_stream (mk_ostream (callback s) (out s) (room s) size 0 None)
                                 (rec fields src_struct);
        _ ← put (mk_ostream (callback s) (out substream) (room substream) (max_size s)
                   (u64 (bytes_written s + bytes_written substream)) (o_errmsg substream));
        if negb (bytes_written substream =? size) then O_RETURN_ERROR "submsg size changed"
        else match status with Some _ => mret tt | None => fails end
  end.

Definition pb_enc_submessage (field : pb_field_iter) : DO unit :=
  if submsg_desc field =? 0 then O_RETURN_ERROR "invalid field descriptor"
  else pb_encode_submessage (submsg_desc field) (pData field).

Definition encode_basic_field (field : pb_field_iter) : DO unit :=
  if pData field =? 0 then mret tt
  else
    _ ← pb_encode_tag_for_field field;
    let ltype := PB_LTYPE (ftype field) in
    if (ltype =? PB_LTYPE_VARINT) || (ltype =? PB_LTYPE_UVARINT) || (ltype =? PB_LTYPE_SVARINT)
    then pb_enc_varint field
    else if (ltype =? PB_LTYPE_FIXED32) || (ltype =? PB_LTYPE_FIXED64) then pb_enc_fixed field
    else if ltype =? PB_LTYPE_BYTES then pb_enc_bytes field
    else if ltype =? PB_LTYPE_STRING then pb_enc_string field
    else if ltype =? PB_LTYPE_SUBMESSAGE then pb_enc_submessage field
    else if ltype =? PB_LTYPE_FIXED_LENGTH_BYTES then pb_enc_fixed_length_bytes field
    else O_RETURN_ERROR "invalid field type".

(** for (i = 0; i < count; i++), with pData moving over the entries *)
Fixpoint over_entries (f : pb_field_iter -> DO unit) (n : nat) (field : pb_field_iter) : DO unit :=
  match n with
  | O => mret tt
  | S n => _ ← f field; over_entries f n (set_pData (pData field + data_size field) field)
  end.

(** An entry of a packed array *)
Definition packed_entry (field : pb_field_iter) : DO unit :=
  if (PB_LTYPE (ftype field) =? PB_LTYPE_FIXED32) || (PB_LTYPE (ftype field) =? PB_LTYPE_FIXED64)
  then pb_enc_fixed field else pb_enc_varint field.

(** An entry of any other array; for strings and bytes through a pointer it is one. *)
Definition array_entry (field : pb_field_iter) : DO unit :=
  if (PB_ATYPE (ftype field) =? PB_ATYPE_POINTER) &&
     ((PB_LTYPE (ftype field) =? PB_LTYPE_STRING) || (PB_LTYPE (ftype field) =? PB_LTYPE_BYTES))
  then
    p ← load_int (pData field) 8;
    if p =? 0 then _ ← pb_encode_tag_for_field (set_pData p field); pb_encode_varint 0
    else encode_basic_field (set_pData p field)
  else encode_basic_field field.

(** The size of a packed array *)
Definition packed_size (count : Z) (field : pb_field_iter) : DO Z :=
  if PB_LTYPE (ftype field) =? PB_LTYPE_FIXED32 then mret (u64 (4 * count))
  else if PB_LTYPE (ftype field) =? PB_LTYPE_FIXED64 then mret (u64 (8 * count))
  else
    '(st, sizestream) ← on_stream PB_OSTREAM_SIZING (over_entries pb_enc_varint (Z.to_nat count) field);
    match st with
    | None => O_RETURN_ERROR (O_GET_ERROR sizestream)
    | Some _ => mret (bytes_written sizestream)
    end.

Definition encode_array (field : pb_field_iter) : DO unit :=
  count ← read_size field;
  if count =? 0 then mret tt
  else if negb (PB_ATYPE (ftype field) =? PB_ATYPE_POINTER) && (array_size field <? count)
  then O_RETURN_ERROR "array max size exceeded"
  else if PB_LTYPE (ftype field) <=? PB_LTYPE_LAST_PACKABLE then
    _ ← pb_encode_tag PB_WT_STRING (tag field);
    size ← packed_size count field;
    _ ← pb_encode_varint size;
    s ← get;
    if negb (callback s) then pb_write NULL size
    else over_entries packed_entry (Z.to_nat count) field
  else over_entries array_entry (Z.to_nat count) field.

(** pb_default_field_callback with an output stream *)
Definition pb_default_field_callback (field : pb_field_iter) : DO unit :=
  if data_size field =? CALLBACK_SIZE then
    if nonzero (pData field) then
      encode ← load_int (pData field) 8;
      if nonzero encode then
        match encode_fn encode with
        | Some f => f rec field (pData field + 8)
        | None => undef
        end
      else mret tt
    else mret tt
  else mret tt.

Definition encode_callback_field (field : pb_field_iter) : DO unit :=
  if field_callback (descriptor field) then
    s ← get;
    '(st, s') ← on_stream s (pb_default_field_callback field);
    _ ← put s';
    match st with Some _ => mret tt | None => O_RETURN_ERROR "callback error" end
  else mret tt.

Definition encode_field (fuel : nat) (field : pb_field_iter) : DO unit :=
  let type := ftype field in
  if PB_ATYPE type =? PB_ATYPE_CALLBACK then encode_callback_field field
  else if PB_HTYPE type =? PB_HTYPE_REPEATED then encode_array field
  else if PB_HTYPE type =? PB_HTYPE_REQUIRED then
    if pData field =? 0 then O_RETURN_ERROR "missing required field" else encode_basic_field field
  else if PB_HTYPE type =? PB_HTYPE_OPTIONAL then
    absent ← (if PB_ATYPE type =? PB_ATYPE_STATIC then
                match pSize field with
                | PS_NULL => pb_check_proto3_default_value fuel field
                | PS_ADDR a => b ← load_int a 1; mret (b =? 0)
                | _ => undef
                end
              else mret false);
    if (absent : bool) then mret tt else encode_basic_field field
  else if PB_HTYPE type =? PB_HTYPE_ONEOF then
    which ← read_size field;
    if negb (which =? tag field) then mret tt else encode_basic_field field
  else O_RETURN_ERROR "invalid field type".

Definition default_extension_encoder (fuel : nat) (extension : Z) : DO unit :=
  '(ok, iter) ← pb_field_iter_begin_extension descs extension;
  if negb (ok : bool) then O_RETURN_ERROR "invalid extension" else encode_field fuel iter.

Fixpoint encode_extensions (fuel n : nat) (extension : Z) : DO unit :=
  match n with
  | O => undef
  | S n =>
      if nonzero extension then
        type ← load_int extension 8;
        encode ← load_int (type + 8) 8;
        _ ← (if nonzero encode then
               match ext_encode_fn encode with Some f => f extension | None => undef end
             else default_extension_encoder fuel extension);
        next ← load_int (extension + 16) 8;
        encode_extensions fuel n next
      else mret tt
  end.

Definition encode_extension_field (fuel : nat) (field : pb_field_iter) : DO unit :=
  extension ← load_int (pData field) 8;
  encode_extensions fuel (S ext_max) extension.

(** do ... while (pb_field_iter_next) *)
Fixpoint encode_fields (fuel n : nat) (iter : pb_field_iter) : DO unit :=
  match n with
  | O => undef
  | S n =>
      _ ← (if PB_LTYPE (ftype iter) =? PB_LTYPE_EXTENSION then encode_extension_field fuel iter
           else encode_field fuel iter);
      '(more, iter) ← pb_field_iter_next iter;
      if (more : bool) then encode_fields fuel n iter else mret tt
  end.

Definition encode_message (fuel : nat) (fields src_struct : Z) : DO unit :=
  desc ← desc_at fields;
  '(ok, iter) ← pb_field_iter_begin desc src_struct;
  if (ok : bool) then encode_fields fuel (Z.to_nat (field_count desc)) iter else mret tt.
End Fields.

Fixpoint pb_encode (fuel : nat) (fields src_struct : Z) : DO unit :=
  match fuel with
  | O => undef
  | S fuel => encode_message (pb_encode fuel) (S fuel) fields src_struct
  end.

Definition pb_encode_ex (fuel : nat) (fields src_struct flags : Z) : DO unit :=
  if nonzero (Z.land flags PB_ENCODE_DELIMITED) then pb_encode_submessage (pb_encode fuel) fields src_struct
  else if nonzero (Z.land flags PB_ENCODE_NULLTERMINATED) then
    _ ← pb_encode fuel fields src_struct;
    pb_write (LOCAL [0]) 1
  else pb_encode fuel fields src_struct.

Definition pb_get_encoded_size (fuel : nat) (fields src_struct : Z) : DO Z :=
  '(st, stream) ← on_stream PB_OSTREAM_SIZING (pb_encode fuel fields src_struct);
  match st with Some _ => mret (bytes_written stream) | None => fails end.

End Encoder.
End PbEncode.
