(* ===== verification/PbEncodeProof.v ===== *)
(** * The encoder writes the wire format, and exactly as much as it says

    Proved: the encoder of integers writes base 128 although it never shifts more than
    32 bits, its integers are decoded to themselves, and for every message the size
    that a sizing stream computes is the size that is written, with nothing written
    behind the end of a buffer that is too small. *)
From S2P Require Import Prelude.
From S2P Require Export PbWire PbEncode.

Module PbEncodeProof.
Export PbWire PbEncode.

(** ** Integers *)

Lemma lor_0x80 (b : Z) : 0 <= b < 128 -> Z.lor b 0x80 = b + 128.
Proof. intros Hb. change 0x80 with (1 * 2 ^ 7). by rewrite lor_disjoint by (change (2 ^ 7) with 128; lia). Qed.

Lemma shiftr7 (x : Z) : Z.shiftr x 7 = x / 128.
Proof. by rewrite Z.shiftr_div_pow2. Qed.

Lemma group_byte (x : Z) : u8 (Z.land x 0x7F) = x mod 128.
Proof.
  change (Z.land x 0x7F) with (low7 x). rewrite low7_mod. apply u8_small.
  pose proof (Z.mod_pos_bound x 128 ltac:(lia)). lia.
Qed.

Lemma nonzero_ne (x : Z) : x <> 0 -> nonzero x = true.
Proof. intros. unfold nonzero. by rewrite (proj2 (Z.eqb_neq _ _)). Qed.

Lemma high_groups_spec (n : nat) (high byte : Z) (buf : list Z) :
  0 <= byte < 128 -> 0 <= high < 2 ^ (7 * Z.of_nat n) ->
  let r := high_groups n high byte buf in r.1 ++ [r.2] = buf ++ leb128 n (byte + 128 * high).
Proof.
  revert high byte buf. induction n as [|n IH]; intros high byte buf Hb Hh; simpl.
  { replace high with 0 by (change (2 ^ (7 * Z.of_nat 0)) with 1 in Hh; lia). by rewrite Z.add_0_r. }
  destruct (Z.eq_dec high 0) as [->|Hne].
  { rewrite (proj2 (Z.ltb_lt (byte + 128 * 0) 128)) by lia. simpl. by rewrite Z.add_0_r. }
  rewrite (nonzero_ne high) by done. rewrite group_byte, shiftr7, lor_0x80 by done.
  rewrite (proj2 (Z.ltb_ge _ _)) by lia. simpl in IH. rewrite IH.
  - rewrite <- (assoc_L (++)). f_equal. simpl. f_equal; [dlia|]. f_equal. dlia.
  - dlia.
  - replace (7 * Z.of_nat (S n)) with (7 + 7 * Z.of_nat n) in Hh by lia. rewrite Z.pow_add_r in Hh by lia.
    split; [dlia|]. apply Z.div_lt_upper_bound; lia.
Qed.

(** What remains to be written, with [n] rounds of the first loop to go. *)
Lemma low_groups_spec (n : nat) (low high byte : Z) (buf : list Z) :
  (n <= 4)%nat -> 0 <= high < 2 ^ 32 ->
  (n = O -> low = 0 /\ 0 <= byte < 16) -> (n <> O -> 0 <= low < 2 ^ (7 * Z.of_nat n - 3) /\ 0 <= byte < 128) ->
  let '(buffer, byte') := low_groups n low high byte buf in
  let '(buffer, byte') :=
    if nonzero high
    then high_groups 5 (Z.shiftr high 3) (u8 (Z.lor byte' (Z.shiftl (Z.land high 0x07) 4))) buffer
    else (buffer, byte') in
  buffer ++ [byte'] = buf ++ leb128 (n + 5) (byte + 128 * low + high * 2 ^ (7 * Z.of_nat n + 4)).
Proof.
  intros Hn Hh. revert low byte buf. induction n as [|n IH]; intros low byte buf H0 H1; cbn [low_groups].
  - destruct (H0 eq_refl) as [-> Hb]. change (2 ^ (7 * Z.of_nat 0 + 4)) with 16.
    destruct (Z.eq_dec high 0) as [->|Hne].
    { cbn [nonzero Z.eqb negb]. rewrite leb128_one by lia. do 2 f_equal. lia. }
    rewrite (nonzero_ne high) by done. rewrite Z.shiftl_mul_pow2 by lia.
    change 0x07 with (Z.ones 3). rewrite Z.land_ones, Z.shiftr_div_pow2 by lia. change (2 ^ 3) with 8.
    assert (0 <= high mod 8 < 8) by (apply Z.mod_pos_bound; lia).
    rewrite lor_disjoint by lia. change (2 ^ 4) with 16. rewrite u8_small by lia.
    pose proof (high_groups_spec 5 (high / 8) (byte + high mod 8 * 16) buf ltac:(lia)) as E.
    destruct (high_groups 5 (high / 8) (byte + high mod 8 * 16) buf) as [b' y]. cbn [fst snd] in E. rewrite E.
    + f_equal. change (0 + 5)%nat with 5%nat. f_equal. dlia.
    + split; [dlia|]. apply Z.div_lt_upper_bound; [lia|]. change (2 ^ (7 * Z.of_nat 5)) with (2 ^ 35). lia.
  - destruct (H1 ltac:(done)) as [Hl Hb].
    assert (2 ^ (7 * Z.of_nat (S n) + 4) = 128 * 2 ^ (7 * Z.of_nat n + 4)) as Hp.
    { replace (7 * Z.of_nat (S n) + 4) with (7 + (7 * Z.of_nat n + 4)) by lia. by rewrite Z.pow_add_r by lia. }
    rewrite Hp. assert (0 < 2 ^ (7 * Z.of_nat n + 4)) as Hpos by (apply Z.pow_pos_nonneg; lia).
    set (P := 2 ^ (7 * Z.of_nat n + 4)) in *. clearbody P.
    destruct (nonzero low || nonzero high) eqn:E.
    + assert (0 < low + high * P) as HT.
      { destruct (Z.eq_dec low 0) as [->|]; [|nia]. destruct (Z.eq_dec high 0) as [->|]; [done|nia]. }
      assert (0 <= low mod 128 < 128) by (apply Z.mod_pos_bound; lia).
      rewrite group_byte, shiftr7, lor_0x80 by done.
      specialize (IH ltac:(lia) (low / 128) (low mod 128) (buf ++ [byte + 128])).
      destruct (low_groups n (low / 128) high (low mod 128) (buf ++ [byte + 128])) as [b1 y1].
      destruct (if nonzero high then _ else _) as [b2 y2]. rewrite IH.
      * rewrite <- (assoc_L (++)). simpl. rewrite (proj2 (Z.ltb_ge _ _)) by nia. do 2 f_equal.
        -- replace (byte + 128 * low + high * (128 * P)) with (byte + (low + high * P) * 128) by lia.
           rewrite Z.mod_add, (Z.mod_small byte) by lia. done.
        -- replace (byte + 128 * low + high * (128 * P)) with ((low + high * P) * 128 + byte) by lia.
           rewrite Z.div_add_l, (Z.div_small byte) by lia. f_equal. pose proof (Z.div_mod low 128). lia.
      * intros ->. change (2 ^ (7 * Z.of_nat 1 - 3)) with 16 in Hl. split; dlia.
      * intros Hn0. split; [|lia]. split; [dlia|]. apply Z.div_lt_upper_bound; [lia|].
        replace (7 * Z.of_nat (S n) - 3) with (7 + (7 * Z.of_nat n - 3)) in Hl by lia.
        rewrite Z.pow_add_r in Hl by lia. lia.
    + apply orb_false_iff in E as [E1 E2]. unfold nonzero in E1, E2. apply negb_false_iff, Z.eqb_eq in E1, E2.
      subst low high. cbn [nonzero Z.eqb negb]. rewrite leb128_one by lia. do 2 f_equal. lia.
Qed.

Lemma varint_32_spec (v : Z) :
  0 <= v < 2 ^ 64 -> varint_32_bytes (u32 v) (u32 (Z.shiftr v 32)) = varint v.
Proof.
  intros Hv. rewrite (Z.shiftr_div_pow2 v) by lia.
  assert (0 <= v / 2 ^ 32 < 2 ^ 32) as Hh by (split; [apply Z.div_pos; lia|apply Z.div_lt_upper_bound; lia]).
  rewrite (u32_small (v / 2 ^ 32)) by lia. unfold u32, wrap, varint_32_bytes.
  set (lo := v mod 2 ^ 32). set (hi := v / 2 ^ 32) in *.
  assert (0 <= lo < 2 ^ 32) as Hlo by (apply Z.mod_pos_bound; lia).
  rewrite group_byte, shiftr7.
  pose proof (low_groups_spec 4 (lo / 128) hi (lo mod 128) [] ltac:(lia) Hh) as E.
  destruct (low_groups 4 (lo / 128) hi (lo mod 128) []) as [b1 y1].
  destruct (if nonzero hi then _ else _) as [b2 y2]. rewrite E; [|done|].
  - change (2 ^ (7 * Z.of_nat 4 + 4)) with (2 ^ 32). cbn [app]. change (4 + 5)%nat with 9%nat. unfold varint. f_equal.
    assert (v = 2 ^ 32 * hi + lo) by (apply Z.div_mod; lia). pose proof (Z.div_mod lo 128). lia.
  - intros _. change (2 ^ (7 * Z.of_nat 4 - 3)) with (2 ^ 25). split; [|apply Z.mod_pos_bound; lia].
    split; [dlia|]. apply Z.div_lt_upper_bound; lia.
Qed.

(** ** What a computation writes *)

(** Streams are compared but for the error message. *)
#[export] Instance ostream_equiv : Equiv pb_ostream := fun s t =>
  callback s = callback t /\ out s = out t /\ room s = room t /\ max_size s = max_size t /\
  bytes_written s = bytes_written t.

#[export] Instance ostream_equivalence : Equivalence (≡@{pb_ostream}).
Proof.
  split; unfold equiv, ostream_equiv; [by intros s|intros s t; by intuition|intros s t u; intuition congruence].
Qed.

(** The limit of a writing stream is inside its buffer. *)
Definition ostream_ok (s : pb_ostream) : Prop :=
  0 <= bytes_written s < 2 ^ 64 /\
  (callback s = true -> bytes_written s <= max_size s < 2 ^ 63 /\ max_size s - bytes_written s <= room s).

Definition fits_in (s : pb_ostream) (bs : list Z) : Prop :=
  callback s = true -> bytes_written s + Z.of_nat (length bs) <= max_size s.

#[export] Instance fits_in_dec (s : pb_ostream) (bs : list Z) : Decision (fits_in s bs).
Proof. unfold fits_in. destruct (callback s); [|by left]. apply _. Defined.

(** The stream after [bs]; a sizing stream only counts. *)
Definition emit (s : pb_ostream) (bs : list Z) : pb_ostream :=
  if callback s
  then mk_ostream true (out s ++ bs) (room s - Z.of_nat (length bs)) (max_size s)
         (bytes_written s + Z.of_nat (length bs)) (o_errmsg s)
  else mk_ostream false (out s) (room s) (max_size s) (u64 (bytes_written s + Z.of_nat (length bs))) (o_errmsg s).

#[export] Instance ostream_ok_proper : Proper ((≡) ==> iff) ostream_ok.
Proof. intros s t (E1 & E2 & E3 & E4 & E5). unfold ostream_ok. by rewrite E1, E3, E4, E5. Qed.
#[export] Instance fits_in_proper : Proper ((≡) ==> (=) ==> iff) fits_in.
Proof. intros s t (E1 & E2 & E3 & E4 & E5) bs ? <-. unfold fits_in. by rewrite E1, E4, E5. Qed.
#[export] Instance emit_proper : Proper ((≡) ==> (=) ==> (≡)) emit.
Proof.
  intros s t (E1 & E2 & E3 & E4 & E5) bs ? <-. unfold emit. rewrite E1.
  destruct (callback t); (split; [|split; [|split; [|split]]]); simpl; congruence.
Qed.

(** On memory [m] the computation writes [bs]: to every stream that has the room, and
    a sizing stream counts as much; else it returns false. *)
Definition emits (c : DO unit) (m : mem) (bs : list Z) : Prop :=
  forall s, ostream_ok s ->
    if decide (fits_in s bs) then exists s', c s m = Ret tt s' m /\ s' ≡ emit s bs
    else exists s', c s m = Err s' m.

(** It returns false, whatever the stream. *)
Definition refuses {A} (c : DO A) (m : mem) : Prop :=
  forall s, ostream_ok s -> exists s', c s m = Err s' m.

(** It only reads. *)
Definition quiet {A} (c : DO A) (m : mem) (a : A) : Prop := forall s, c s m = Ret a s m.

(** It writes the same to every stream, at most [n] bytes, or fails on every stream. *)
Definition sized (c : DO unit) (m : mem) (n : Z) : Prop :=
  (exists bs, emits c m bs /\ Z.of_nat (length bs) <= n) \/ refuses c m.

Lemma emit_ok (s : pb_ostream) (bs : list Z) : ostream_ok s -> fits_in s bs -> ostream_ok (emit s bs).
Proof.
  unfold ostream_ok, fits_in, emit. intros [Hb Hc] Hf. destruct (callback s) eqn:E; simpl.
  - specialize (Hc eq_refl). specialize (Hf eq_refl). lia.
  - split; [apply u64_range|done].
Qed.

Lemma emit_nil (s : pb_ostream) : ostream_ok s -> emit s [] = s /\ fits_in s [].
Proof.
  intros [Hb Hc]. unfold emit, fits_in. destruct s as [[] o r mx bw e]; simpl in *.
  - specialize (Hc eq_refl). rewrite app_nil_r, Z.sub_0_r, Z.add_0_r. split; [done|]. lia.
  - by rewrite Z.add_0_r, u64_small.
Qed.

Lemma emit_app (s : pb_ostream) (bs cs : list Z) : emit (emit s bs) cs = emit s (bs ++ cs).
Proof.
  unfold emit. destruct (callback s) eqn:E; simpl; rewrite length_app, ?(assoc_L (++)).
  - f_equal; lia.
  - f_equal. unfold u64, wrap. rewrite Z.add_mod_idemp_l by lia. f_equal. lia.
Qed.

Lemma fits_app (s : pb_ostream) (bs cs : list Z) :
  fits_in s (bs ++ cs) <-> fits_in s bs /\ fits_in (emit s bs) cs.
Proof.
  unfold fits_in, emit. destruct (callback s) eqn:E; simpl; [|done]. rewrite length_app. split.
  - intros H. specialize (H eq_refl). split; intros _; lia.
  - intros [H1 H2] _. specialize (H1 eq_refl). specialize (H2 eq_refl). lia.
Qed.

Lemma emits_nil (m : mem) : emits (mret tt) m [].
Proof. intros s Hs. destruct (emit_nil s Hs) as [E Hf]. rewrite decide_True, E by done. by exists s. Qed.

Lemma emits_seq (c1 : DO unit) (c2 : unit -> DO unit) (m : mem) (bs cs : list Z) :
  emits c1 m bs -> emits (c2 tt) m cs -> emits (c1 ≫= c2) m (bs ++ cs).
Proof.
  intros H1 H2 s Hs. specialize (H1 s Hs). unfold mbind, D_bind.
  destruct (decide (fits_in s bs)) as [Hb|Hb].
  - destruct H1 as (s1 & -> & E1). assert (ostream_ok s1) as Hs1 by (rewrite E1; by apply emit_ok).
    specialize (H2 s1 Hs1).
    destruct (decide (fits_in s1 cs)) as [Hc|Hc]; rewrite E1 in Hc.
    + rewrite decide_True by (by apply fits_app). destruct H2 as (s2 & -> & E2). exists s2. split; [done|].
      by rewrite E2, E1, emit_app.
    + rewrite decide_False by (rewrite fits_app; tauto). done.
  - destruct H1 as [s' ->]. rewrite decide_False by (rewrite fits_app; tauto). by exists s'.
Qed.

Lemma refuses_seq {A} (c1 : DO unit) (c2 : unit -> DO A) (m : mem) (bs : list Z) :
  emits c1 m bs -> refuses (c2 tt) m -> refuses (c1 ≫= c2) m.
Proof.
  intros H1 H2 s Hs. specialize (H1 s Hs). unfold mbind, D_bind. case_decide as Hb.
  - destruct H1 as (s1 & -> & E1). apply H2. rewrite E1. by apply emit_ok.
  - destruct H1 as [s' ->]. by exists s'.
Qed.

Lemma refuses_bind {A B} (c1 : DO A) (c2 : A -> DO B) (m : mem) : refuses c1 m -> refuses (c1 ≫= c2) m.
Proof. intros H1 s Hs. unfold mbind, D_bind. destruct (H1 s Hs) as [s' ->]. by exists s'. Qed.

Lemma quiet_bind {A B} (c1 : DO A) (c2 : A -> DO B) (m : mem) (a : A) (b : B) :
  quiet c1 m a -> quiet (c2 a) m b -> quiet (c1 ≫= c2) m b.
Proof. intros H1 H2 s. unfold mbind, D_bind. rewrite H1. by apply H2. Qed.

Lemma quiet_ret {A} (m : mem) (a : A) : quiet (mret a) m a.
Proof. done. Qed.

Lemma refuses_error {A} (msg : string) (m : mem) : refuses (A := A) (O_RETURN_ERROR msg) m.
Proof. intros s Hs. by eexists. Qed.

Lemma sized_mono (c : DO unit) (m : mem) (n k : Z) : sized c m n -> n <= k -> sized c m k.
Proof. intros [(bs & H & Hl)|H] Hk; [left|by right]. exists bs. split; [done|lia]. Qed.

Lemma sized_ret (m : mem) (n : Z) : 0 <= n -> sized (mret tt) m n.
Proof. intros. left. exists []. split; [apply emits_nil|done]. Qed.

Lemma sized_error (msg : string) (m : mem) (n : Z) : sized (O_RETURN_ERROR msg) m n.
Proof. right. apply refuses_error. Qed.

Lemma sized_seq (c1 : DO unit) (c2 : unit -> DO unit) (m : mem) (n k : Z) :
  sized c1 m n -> sized (c2 tt) m k -> sized (c1 ≫= c2) m (n + k).
Proof.
  intros [(bs & H1 & L1)|H1]; [|right; by apply refuses_bind]. intros [(cs & H2 & L2)|H2].
  - left. exists (bs ++ cs). split; [by apply emits_seq|]. rewrite length_app. lia.
  - right. by eapply refuses_seq.
Qed.

Lemma sized_quiet {A} (c1 : DO A) (c2 : A -> DO unit) (m : mem) (a : A) (n : Z) :
  quiet c1 m a -> sized (c2 a) m n -> sized (c1 ≫= c2) m n.
Proof.
  intros H1 [(bs & H2 & L2)|H2].
  - left. exists bs. split; [|done]. intros s Hs. unfold mbind, D_bind. rewrite H1. by apply H2.
  - right. intros s Hs. unfold mbind, D_bind. rewrite H1. by apply H2.
Qed.

(** ** Writing *)

Lemma write_emits (buf : source) (bs : list Z) (m : mem) :
  Z.of_nat (length bs) < 2 ^ 63 ->
  quiet (fetch buf (Z.of_nat (length bs))) m bs -> emits (pb_write buf (Z.of_nat (length bs))) m bs.
Proof.
  intros Hl Hq [[] o r mx bw e] [Hb Hc]; unfold pb_write, get, put, mbind, D_bind, fits_in, emit; simpl in *.
  - specialize (Hc eq_refl). rewrite u64_small by lia.
    destruct (Z.ltb_spec mx (bw + Z.of_nat (length bs))) as [Hm|Hm].
    + rewrite decide_False; [by eexists|]. intros H. specialize (H eq_refl). lia.
    + rewrite decide_True by lia. unfold buf_write, get, put, mbind, D_bind. rewrite Hq. simpl.
      rewrite (proj2 (Z.leb_le _ _)) by lia. simpl. rewrite u64_small by lia. by eexists.
  - by eexists.
Qed.

Lemma local_emits (bs : list Z) (m : mem) :
  Z.of_nat (length bs) < 2 ^ 63 -> emits (pb_write (LOCAL bs) (Z.of_nat (length bs))) m bs.
Proof.
  intros Hl. apply write_emits; [done|]. intros s. unfold fetch.
  rewrite (proj2 (Z.leb_le _ _)) by lia. rewrite Nat2Z.id, take_ge by done. done.
Qed.

(** Integers are written in the wire format. *)
Lemma varint_emits (v : Z) (m : mem) : 0 <= v < 2 ^ 64 -> emits (pb_encode_varint v) m (varint v).
Proof.
  intros Hv. unfold pb_encode_varint. destruct (Z.leb_spec v 0x7F) as [Hs|Hs].
  - rewrite u8_small by lia. unfold varint. rewrite leb128_one by lia. by apply (local_emits [v]).
  - unfold pb_encode_varint_32. rewrite varint_32_spec by done. apply local_emits.
    pose proof (leb128_length 9 v). unfold varint. lia.
Qed.

Lemma tag_emits (wt t : Z) (m : mem) :
  0 <= wt < 8 -> 0 <= t < 2 ^ 29 -> emits (pb_encode_tag wt t) m (key wt t).
Proof.
  intros Hw Ht. unfold pb_encode_tag, key. rewrite Z.shiftl_mul_pow2 by lia. change (2 ^ 3) with 8.
  rewrite u64_small by lia.
  replace (Z.lor (t * 8) wt) with (t * 8 + wt); [apply varint_emits; lia|].
  rewrite Z.lor_comm. change 8 with (2 ^ 3) at 2. rewrite lor_disjoint by lia. lia.
Qed.

(** ** Reading the message *)

Definition byte_memory (m : mem) : Prop := forall a b, m !! a = Some b -> is_byte b.

Lemma load_is_bytes (m : mem) (a : Z) (n : nat) (bs : list Z) :
  byte_memory m -> load_bytes m a n = Some bs -> Forall is_byte bs.
Proof.
  intros Hm. revert a bs. induction n as [|n IH]; intros a bs; simpl; [by intros [= <-]|].
  destruct (m !! a) as [b|] eqn:Eb; simpl; [|done]. destruct (load_bytes m (a + 1) n) as [r|] eqn:E; simpl; [|done].
  intros [= <-]. constructor; [by eapply Hm|by eapply IH].
Qed.

Lemma quiet_load (m : mem) (a n : Z) :
  byte_memory m -> 0 <= n -> mapped m a n -> exists v, quiet (load_int a n) m v /\ 0 <= v < 2 ^ (8 * n).
Proof.
  intros Hm Hn Ha. destruct (load_bytes_total m a (Z.to_nat n)) as (bs & E & Hl); [by rewrite Z2Nat.id|].
  exists (value_of bs). split.
  - intros s. unfold load_int, load, mbind, D_bind. by rewrite E.
  - pose proof (value_of_bound bs (load_is_bytes _ _ _ _ Hm E)) as Hv. rewrite Hl, Z2Nat.id in Hv by lia. done.
Qed.

Lemma at_emits (m : mem) (a : Z) (n : nat) :
  mapped m a (Z.of_nat n) -> Z.of_nat n < 2 ^ 63 ->
  exists bs, length bs = n /\ emits (pb_write (AT a) (Z.of_nat n)) m bs.
Proof.
  intros Ha Hn. destruct (load_bytes_total m a n Ha) as (bs & E & Hl). exists bs. split; [done|].
  rewrite <- Hl. apply write_emits; [lia|]. intros s. unfold fetch, load. rewrite Nat2Z.id, Hl, E. done.
Qed.

Lemma varint_length (n : nat) (v : Z) :
  (n <= 9)%nat -> 0 <= v < 2 ^ (7 * Z.of_nat (S n)) -> (length (varint v) <= S n)%nat.
Proof.
  intros Hn Hv. unfold varint. replace 9%nat with (n + (9 - n))%nat by lia. rewrite leb128_room by done.
  apply leb128_length.
Qed.

Lemma varint_sized (v : Z) (m : mem) : 0 <= v < 2 ^ 64 -> sized (pb_encode_varint v) m 10.
Proof.
  intros Hv. left. exists (varint v). split; [by apply varint_emits|].
  pose proof (leb128_length 9 v). unfold varint. lia.
Qed.

Lemma not64_range (x : Z) : 0 <= not64 x < 2 ^ 64.
Proof. apply u64_range. Qed.

(** The bytes of a field's key *)
Definition key_size (t : Z) : Z := if t <? 16 then 1 else 3.

Lemma tag_sized (wt t : Z) (m : mem) : 0 <= wt < 8 -> 0 <= t < 2 ^ 16 -> sized (pb_encode_tag wt t) m (key_size t).
Proof.
  intros Hw Ht. left. exists (key wt t). split; [apply tag_emits; lia|]. unfold key, key_size.
  destruct (Z.ltb_spec t 16).
  - pose proof (varint_length 0 (t * 8 + wt) ltac:(lia)) as H1. change (2 ^ (7 * Z.of_nat 1)) with 128 in H1. lia.
  - pose proof (varint_length 2 (t * 8 + wt) ltac:(lia)) as H1. change (2 ^ (7 * Z.of_nat 3)) with (2 ^ 21) in H1. lia.
Qed.

Section Entries.
Context (m : mem) (Hm : byte_memory m) (field : pb_field_iter).
Context (Hdata : mapped m (pData field) (data_size field)) (Hsize : 0 <= data_size field < 2 ^ 16).

Lemma tag_for_field_sized : 0 <= tag field < 2 ^ 16 -> sized (pb_encode_tag_for_field field) m (key_size (tag field)).
Proof.
  intros Ht. unfold pb_encode_tag_for_field. repeat case_match; first [by apply tag_sized|apply sized_error].
Qed.

Lemma enc_varint_sized : sized (pb_enc_varint field) m 10.
Proof.
  unfold pb_enc_varint. destruct (valid_int_size (data_size field)) eqn:E; [|apply sized_error].
  destruct (quiet_load m (pData field) (data_size field)) as (v & Hq & Hv); [done|lia|done|].
  eapply sized_quiet; [done|]. 
  assert (2 ^ (8 * data_size field) <= 2 ^ 64) as Hp.
  { apply Z.pow_le_mono_r; [lia|]. unfold valid_int_size in E. rewrite !orb_true_iff, !Z.eqb_eq in E. lia. }
  case_match; [apply varint_sized; lia|]. case_match; [|apply varint_sized, u64_range].
  unfold pb_encode_svarint. apply varint_sized. case_match; [apply not64_range|apply u64_range].
Qed.

Lemma byte_at_list (v : Z) (l : list Z) (n : Z) :
  n = Z.of_nat (length l) -> n < 2 ^ 63 -> sized (pb_write (LOCAL (map (byte_at v) l)) n) m n.
Proof.
  intros -> Hl. left. exists (map (byte_at v) l). rewrite <- (length_map (byte_at v) l) in *. split; [|lia].
  by apply local_emits.
Qed.

Lemma enc_fixed_sized : sized (pb_enc_fixed field) m (data_size field).
Proof.
  unfold pb_enc_fixed, pb_encode_fixed32, pb_encode_fixed64.
  destruct (quiet_load m (pData field) (data_size field)) as (v & Hq & Hv); [done|lia|done|].
  destruct (Z.eqb_spec (data_size field) 4) as [E|].
  { rewrite E in *. eapply sized_quiet; [done|]. by apply byte_at_list. }
  destruct (Z.eqb_spec (data_size field) 8) as [E|]; [|apply sized_error].
  rewrite E in *. eapply sized_quiet; [done|]. by apply byte_at_list.
Qed.

(** A string in memory *)
Lemma string_sized (a n k : Z) :
  mapped m a n -> 0 <= n <= k -> k < 2 ^ 16 -> sized (pb_encode_string (AT a) n) m (3 + k).
Proof.
  intros Ha Hn Hk. unfold pb_encode_string. apply sized_mono with (n := 3 + n); [|lia].
  apply (sized_seq _ (fun _ => pb_write (AT a) n)).
  - left. exists (varint n). split; [apply varint_emits; lia|].
    pose proof (varint_length 2 n ltac:(lia)) as H1. change (2 ^ (7 * Z.of_nat 3)) with (2 ^ 21) in H1. lia.
  - destruct (at_emits m a (Z.to_nat n)) as (bs & Hl & He); [by rewrite Z2Nat.id by lia|lia|].
    rewrite Z2Nat.id in He by lia. left. exists bs. split; [done|lia].
Qed.

Lemma enc_fixed_length_sized : sized (pb_enc_fixed_length_bytes field) m (3 + data_size field).
Proof. apply string_sized; [done|lia|lia]. Qed.

Lemma enc_bytes_sized :
  PB_ATYPE (ftype field) = PB_ATYPE_STATIC -> 2 <= data_size field -> pData field <> 0 ->
  sized (pb_enc_bytes field) m (3 + data_size field).
Proof.
  intros Ha H2 Hp. unfold pb_enc_bytes. rewrite (proj2 (Z.eqb_neq _ _)) by done.
  destruct (quiet_load m (pData field) 2) as (n & Hq & Hn); [done|lia|eapply mapped_sub; [done|lia|lia]|].
  eapply sized_quiet; [done|]. rewrite Ha. cbn [andb Z.eqb].
  destruct (Z.ltb_spec (data_size field) (n + BYTES_OFFSET)) as [Hl|Hl]; simpl; [apply sized_error|].
  unfold BYTES_OFFSET in *. apply string_sized; [eapply mapped_sub; [done|lia|lia]|lia|lia].
Qed.

Lemma mapped_size (a : Z) (n : nat) : mapped m a (Z.of_nat n) -> (n <= size m)%nat.
Proof.
  intros Ha. rewrite <- size_dom. assert (list_to_set (seqZ a (Z.of_nat n)) ⊆ dom m) as Hs.
  { intros x Hx. apply elem_of_list_to_set, elem_of_seqZ in Hx. apply elem_of_dom, Ha. lia. }
  apply subseteq_size in Hs. rewrite size_list_to_set in Hs by apply NoDup_seqZ. by rewrite length_seqZ, Nat2Z.id in Hs.
Qed.

(** strlen of a string inside [n + 1] bytes; the loop ends at a zero or after [n]. *)
Lemma strlen_quiet (fuel : nat) (sz n p : Z) :
  0 <= sz <= n -> mapped m p (n - sz) -> (Z.to_nat (n - sz) < fuel)%nat ->
  exists k, sz <= k <= n /\ quiet (strlen_loop fuel sz n p) m (k, p + (k - sz)).
Proof.
  revert sz p. induction fuel as [|fuel IH]; intros sz p Hs Hp Hf; [lia|]. cbn [strlen_loop].
  destruct (Z.ltb_spec sz n) as [Hl|Hl].
  2: { exists sz. split; [lia|]. by rewrite Z.sub_diag, Z.add_0_r. }
  destruct (quiet_load m p 1) as (c & Hq & Hc); [done|lia|eapply mapped_sub; [done|lia|lia]|].
  destruct (nonzero c) eqn:E.
  - destruct (IH (sz + 1) (p + 1)) as (k & Hk & Hr); [lia|eapply mapped_sub; [done|lia|lia]|lia|].
    exists k. split; [lia|]. eapply quiet_bind; [done|]. rewrite E.
    by replace (p + (k - sz)) with (p + 1 + (k - (sz + 1))) by lia.
  - exists sz. split; [lia|]. eapply quiet_bind; [done|]. rewrite E. by rewrite Z.sub_diag, Z.add_0_r.
Qed.

Lemma enc_string_sized :
  PB_ATYPE (ftype field) = PB_ATYPE_STATIC -> 1 <= data_size field -> pData field <> 0 ->
  sized (pb_enc_string field) m (3 + data_size field).
Proof.
  intros Ha H1 Hp. unfold pb_enc_string. rewrite Ha. cbn [Z.eqb PB_ATYPE_STATIC PB_ATYPE_POINTER].
  rewrite (proj2 (Z.eqb_neq _ _)) by lia. set (n := data_size field - 1).
  destruct (strlen_quiet (S (size m)) 0 n (pData field)) as (k & Hk & Hq); [lia|eapply mapped_sub; [done|lia|lia]| |].
  { assert (Z.to_nat n <= size m)%nat; [|lia]. apply (mapped_size (pData field)). eapply mapped_sub; [done|lia|lia]. }
  destruct (quiet_load m (pData field + (k - 0)) 1) as (c & Hq1 & _); [done|lia|eapply mapped_sub; [done|lia|lia]|].
  assert (forall T (f : Z -> DO T) s, (string_size n (pData field) ≫= f) s m
            = (if nonzero c then O_RETURN_ERROR "unterminated string" else f k) s m) as E.
  { intros T f s. unfold string_size. rewrite (proj2 (Z.eqb_neq _ _)) by done. unfold mbind, D_bind.
    rewrite Hq, Hq1. by destruct (nonzero c). }
  destruct (nonzero c).
  - right. intros s Hs. rewrite E. by eexists.
  - destruct (string_sized (pData field) k (data_size field)) as [(bs & He & Hl)|Hr]; [eapply mapped_sub; [done|lia|lia]|lia|lia| |].
    + left. exists bs. split; [|done]. intros s Hs. rewrite E. by apply He.
    + right. intros s Hs. rewrite E. by apply Hr.
Qed.
End Entries.

(** ** Messages inside messages *)

Lemma sizing_ok : ostream_ok PB_OSTREAM_SIZING.
Proof. split; [simpl; lia|done]. Qed.

(** The size that a sizing stream counts *)
Lemma emits_sizing (c : DO unit) (m : mem) (bs : list Z) :
  emits c m bs -> Z.of_nat (length bs) < 2 ^ 63 ->
  exists s', c PB_OSTREAM_SIZING m = Ret tt s' m /\ bytes_written s' = Z.of_nat (length bs).
Proof.
  intros H Hl. specialize (H PB_OSTREAM_SIZING sizing_ok). rewrite decide_True in H by done.
  destruct H as (s' & E & (_ & _ & _ & _ & Eb)). exists s'. split; [done|]. rewrite Eb. simpl. apply u64_small. lia.
Qed.

Lemma submessage_emits (rec : encoder) (p base : Z) (m : mem) (bs : list Z) :
  emits (rec p base) m bs -> Z.of_nat (length bs) < 2 ^ 63 ->
  emits (pb_encode_submessage rec p base) m (varint (Z.of_nat (length bs)) ++ bs).
Proof.
  intros He Hl. destruct (emits_sizing _ _ _ He Hl) as (sz & Esz & Hsz).
  set (rest := fun _ : unit =>
    (s ← get;
     if negb (callback s) then pb_write NULL (bytes_written sz)
     else if max_size s <? u64 (bytes_written s + bytes_written sz) then O_RETURN_ERROR "stream full"
     else
       '(status, substream) ← on_stream (mk_ostream (callback s) (out s) (room s) (bytes_written sz) 0 None)
                                (rec p base);
       _ ← put (mk_ostream (callback s) (out substream) (room substream) (max_size s)
                  (u64 (bytes_written s + bytes_written substream)) (o_errmsg substream));
       if negb (bytes_written substream =? bytes_written sz) then O_RETURN_ERROR "submsg size changed"
       else match status with Some _ => mret tt | None => fails end) : DO unit).
  assert (emits (rest tt) m bs) as Hrest.
  { intros [[] o r mx bw e] [Hb Hc]; unfold rest, get, put, mbind, D_bind, fits_in, emit; simpl in *; rewrite Hsz.
    - specialize (Hc eq_refl). rewrite u64_small by lia.
      destruct (Z.ltb_spec mx (bw + Z.of_nat (length bs))) as [Hm|Hm].
      + rewrite decide_False; [by eexists|]. intros H. specialize (H eq_refl). lia.
      + rewrite decide_True by lia. unfold on_stream.
        set (sub := mk_ostream true o r (Z.of_nat (length bs)) 0 None).
        assert (ostream_ok sub) as Hsub by (split; simpl; lia).
        specialize (He sub Hsub). rewrite decide_True in He by (intros _; simpl; lia).
        destruct He as (s' & -> & (E1 & E2 & E3 & E4 & E5)). simpl in *. rewrite E5, Z.eqb_refl. simpl.
        eexists. split; [done|]. split_and!; simpl; try congruence. apply u64_small. lia.
    - by eexists. }
  assert (0 <= bytes_written sz < 2 ^ 64) as Hr by lia.
  pose proof (emits_seq _ rest m _ _ (varint_emits (bytes_written sz) m Hr) Hrest) as H. rewrite <- Hsz.
  intros s Hs. assert (pb_encode_submessage rec p base s m = (pb_encode_varint (bytes_written sz) ≫= rest) s m) as ->;
    [|by apply H].
  unfold pb_encode_submessage. unfold mbind at 1, D_bind at 1, on_stream at 1. by rewrite Esz.
Qed.

Lemma submessage_sized (rec : encoder) (p base : Z) (m : mem) (n : Z) :
  sized (rec p base) m n -> n < 2 ^ 63 -> sized (pb_encode_submessage rec p base) m (10 + n).
Proof.
  intros [(bs & He & Hl)|Hr] Hn.
  - left. exists (varint (Z.of_nat (length bs)) ++ bs). split; [apply submessage_emits; [done|lia]|].
    rewrite length_app. pose proof (leb128_length 9 (Z.of_nat (length bs))). unfold varint. lia.
  - right. intros s Hs. destruct (Hr _ sizing_ok) as [s' E].
    unfold pb_encode_submessage, mbind, D_bind, on_stream. rewrite E. by eexists.
Qed.

(** ** Arrays *)

Definition nth_entry (k : nat) (field : pb_field_iter) : pb_field_iter :=
  set_pData (pData field + Z.of_nat k * data_size field) field.

Lemma nth_entry_S (k : nat) (field : pb_field_iter) :
  nth_entry k (set_pData (pData field + data_size field) field) = nth_entry (S k) field.
Proof. unfold nth_entry, set_pData. simpl. f_equal. lia. Qed.

Lemma nth_entry_0 (field : pb_field_iter) : nth_entry 0 field = field.
Proof. unfold nth_entry, set_pData. rewrite Z.mul_0_l, Z.add_0_r. by destruct field. Qed.

Lemma entries_sized (f : pb_field_iter -> DO unit) (n : nat) (w : Z) (field : pb_field_iter) (m : mem) :
  (forall k, (k < n)%nat -> sized (f (nth_entry k field)) m w) ->
  sized (over_entries f n field) m (Z.of_nat n * w).
Proof.
  revert field. induction n as [|n IH]; intros field H; cbn [over_entries]; [by apply sized_ret|].
  replace (Z.of_nat (S n) * w) with (w + Z.of_nat n * w) by lia.
  apply (sized_seq _ (fun _ => over_entries f n _)).
  - rewrite <- (nth_entry_0 field). apply H. lia.
  - apply IH. intros k Hk. rewrite nth_entry_S. apply H. lia.
Qed.

(** Entries of a fixed width *)
Lemma entries_emit_fixed (f : pb_field_iter -> DO unit) (n : nat) (w : Z) (field : pb_field_iter) (m : mem) :
  (forall k, (k < n)%nat -> exists bs, emits (f (nth_entry k field)) m bs /\ Z.of_nat (length bs) = w) ->
  exists bs, emits (over_entries f n field) m bs /\ Z.of_nat (length bs) = Z.of_nat n * w.
Proof.
  revert field. induction n as [|n IH]; intros field H; cbn [over_entries].
  { exists []. split; [apply emits_nil|]. simpl. lia. }
  destruct (H 0%nat) as (b1 & H1 & L1); [lia|]. rewrite nth_entry_0 in H1.
  destruct (IH (set_pData (pData field + data_size field) field)) as (b2 & H2 & L2).
  { intros k Hk. rewrite nth_entry_S. apply H. lia. }
  exists (b1 ++ b2). split; [by apply (emits_seq _ (fun _ => over_entries f n _))|]. rewrite length_app. lia.
Qed.

(** A packed array: the size is counted first, then the entries are written. *)
Lemma packed_emits (body : DO unit) (bs : list Z) (size : Z) (m : mem) :
  emits body m bs -> size = Z.of_nat (length bs) -> size < 2 ^ 63 ->
  emits (_ ← pb_encode_varint size; s ← get; if negb (callback s) then pb_write NULL size else body) m
    (varint size ++ bs).
Proof.
  intros He -> Hl. apply (emits_seq _ (fun _ => s ← get; if negb (callback s) then pb_write NULL _ else body));
    [apply varint_emits; lia|].
  intros s Hs. unfold mbind, D_bind, get. destruct (callback s) eqn:E; simpl; [by apply He|].
  unfold fits_in. rewrite decide_True by (by rewrite E). unfold pb_write, get, put, mbind, D_bind, emit. rewrite E.
  eexists. split; [done|]. split_and!; simpl; done.
Qed.

(** ** The largest encoding of a message *)

Definition is_varint (f : field) : bool := PB_LTYPE (f_type f) <=? PB_LTYPE_SVARINT.
Definition is_fixed (f : field) : bool :=
  (PB_LTYPE (f_type f) =? PB_LTYPE_FIXED32) || (PB_LTYPE (f_type f) =? PB_LTYPE_FIXED64).

(** One entry of a field, without its key; [sub] is for a message inside. *)
Definition entry_max (f : field) (sub : Z) : Z :=
  if is_varint f then 10 else if is_fixed f then f_dsize f
  else if is_submsg f then 10 + sub else 3 + f_dsize f.

(** [cb] is for a field with a callback. *)
Definition field_max (cb : Z) (f : field) (sub : Z) : Z :=
  if PB_ATYPE (f_type f) =? PB_ATYPE_CALLBACK then cb
  else if PB_HTYPE (f_type f) =? PB_HTYPE_REPEATED then
    if PB_LTYPE (f_type f) <=? PB_LTYPE_LAST_PACKABLE
    then key_size (f_tag f) + (10 + f_asize f * entry_max f sub)
    else f_asize f * (key_size (f_tag f) + entry_max f sub)
  else key_size (f_tag f) + entry_max f sub.

(** What the generator of nanopb sees to. *)
Record field_wf (f : field) : Prop := {
  fw_atype : PB_ATYPE (f_type f) = PB_ATYPE_STATIC \/ PB_ATYPE (f_type f) = PB_ATYPE_CALLBACK;
  fw_bytes : PB_LTYPE (f_type f) = PB_LTYPE_BYTES -> 2 <= f_dsize f;
  fw_string : PB_LTYPE (f_type f) = PB_LTYPE_STRING -> 1 <= f_dsize f;
  fw_fixed32 : PB_LTYPE (f_type f) = PB_LTYPE_FIXED32 -> f_dsize f = 4;
  fw_fixed64 : PB_LTYPE (f_type f) = PB_LTYPE_FIXED64 -> f_dsize f = 8;
  fw_oneof : PB_ATYPE (f_type f) = PB_ATYPE_STATIC -> PB_HTYPE (f_type f) = PB_HTYPE_ONEOF -> f_soff f <> 0 }.

Lemma fits_sizes (f : field) :
  fits f -> 0 <= f_tag f < 2 ^ 16 /\ 0 <= f_dsize f < 2 ^ 16 /\ 0 <= f_asize f < 2 ^ 16.
Proof. intros [_ H]. destruct (f_width f); lia. Qed.

Section Messages.
Context (descs : Z -> option pb_msgdesc) (encode_fn : Z -> option encode_callback_fn).
Context (ext_encode_fn : Z -> option (Z -> DO unit)) (ext_max : nat).
(** The fields of the messages, and the largest output of a callback *)
Context (layout : Z -> option (list field * list Z)) (cb : Z) (Hcb : 0 <= cb).
Context (Hdescs : forall p fs subs, layout p = Some (fs, subs) ->
  wf_fields fs subs /\ Forall field_wf fs /\ exists dv fc, descs p = Some (PB_BIND fs subs dv fc)).
Context (m : mem) (Hm : byte_memory m).

Definition sub_at (fs : list field) (subs : list Z) (i : nat) (f : field) : Z :=
  if is_submsg f then nth (Z.to_nat (sub_pos fs i)) (subs ++ [0]) 0 else 0.

Definition sum (l : list Z) : Z := foldr Z.add 0 l.

Fixpoint message_max (fuel : nat) (p : Z) : Z :=
  match fuel with
  | O => 0
  | S fuel =>
      match layout p with
      | None => 0
      | Some (fs, subs) => sum (imap (fun i f => field_max cb f (message_max fuel (sub_at fs subs i f))) fs)
      end
  end.

(** The message is in memory: the data of each field, its count or has_ member, the
    messages inside, and callbacks that keep to what they write. *)
Definition callback_readable (a : Z) : Prop :=
  forall v, quiet (load_int a 8) m v -> v = 0 \/
    exists f, encode_fn v = Some f /\ forall rec it, sized (f rec it (a + 8)) m cb.

Definition field_readable (self : Z -> Z -> Prop) (base : Z) (f : field) (sub : Z) : Prop :=
  let a := base + f_offset f in
  mapped m a (f_dsize f * Z.max 1 (f_asize f)) /\
  match psize_at f base with PS_ADDR p => mapped m p 2 | _ => True end /\
  (PB_ATYPE (f_type f) = PB_ATYPE_CALLBACK -> f_dsize f = CALLBACK_SIZE -> callback_readable a) /\
  (PB_ATYPE (f_type f) = PB_ATYPE_STATIC -> is_submsg f = true ->
   forall k, 0 <= k < Z.max 1 (f_asize f) -> self sub (a + k * f_dsize f)).

Fixpoint readable (fuel : nat) (p base : Z) : Prop :=
  match fuel with
  | O => False
  | S fuel =>
      exists fs subs, layout p = Some (fs, subs) /\
        forall i f, fs !! i = Some f -> field_readable (readable fuel) base f (sub_at fs subs i f)
  end.

Lemma sum_nonneg (l : list Z) : Forall (fun x => 0 <= x) l -> 0 <= sum l.
Proof. induction 1 as [|x l Hx _ IH]; simpl; lia. Qed.

Lemma key_size_pos (t : Z) : 0 <= key_size t.
Proof. unfold key_size. case_match; lia. Qed.

Lemma entry_max_pos (f : field) (sub : Z) : fits f -> 0 <= sub -> 0 <= entry_max f sub.
Proof. intros Hf Hs. apply fits_sizes in Hf. unfold entry_max. repeat case_match; lia. Qed.

Lemma field_max_pos (f : field) (sub : Z) : fits f -> 0 <= sub -> 0 <= field_max cb f sub.
Proof.
  intros Hf Hs. pose proof (entry_max_pos f sub Hf Hs). apply fits_sizes in Hf. pose proof (key_size_pos (f_tag f)).
  unfold field_max. repeat case_match; nia.
Qed.

Lemma message_max_pos (fuel : nat) (p : Z) : 0 <= message_max fuel p.
Proof.
  revert p. induction fuel as [|fuel IH]; intros p; simpl; [lia|]. destruct (layout p) as [[fs subs]|] eqn:E; [|lia].
  destruct (Hdescs _ _ _ E) as (Hwf & _). apply sum_nonneg, Forall_lookup. intros i x Hx.
  apply list_lookup_imap_Some in Hx as (f & Hf & ->). apply field_max_pos; [|apply IH].
  exact (Forall_lookup_1 _ _ _ _ (wf_fits _ _ Hwf) Hf).
Qed.

Lemma ltype_range (t : Z) : 0 <= PB_LTYPE t < 16.
Proof. unfold PB_LTYPE. change 0x0F with (Z.ones 4). rewrite Z.land_ones by lia. apply Z.mod_pos_bound. lia. Qed.

(** A field whose data is in the struct. *)
Record at_field (f : field) (field : pb_field_iter) : Prop := {
  af_tag : tag field = f_tag f; af_dsize : data_size field = f_dsize f; af_asize : array_size field = f_asize f;
  af_type : ftype field = f_type f }.

Lemma basic_sized (rec : encoder) (f : field) (field : pb_field_iter) (n : Z) :
  at_field f field -> fits f -> field_wf f -> PB_ATYPE (f_type f) = PB_ATYPE_STATIC ->
  mapped m (pData field) (f_dsize f) -> 0 <= n < 2 ^ 63 ->
  (is_submsg f = true -> submsg_desc field <> 0 -> sized (rec (submsg_desc field) (pData field)) m n) ->
  sized (encode_basic_field rec field) m (key_size (f_tag f) + entry_max f n).
Proof.
  intros [Ht Hd _ Hty] Hfit Hwf Ha Hmap Hn Hsub. pose proof (fits_sizes f Hfit) as (Htag & Hds & _).
  unfold encode_basic_field. rewrite Hty.
  destruct (Z.eqb_spec (pData field) 0) as [E0|Hne].
  { apply sized_ret. pose proof (key_size_pos (f_tag f)). pose proof (entry_max_pos f n Hfit ltac:(lia)). lia. }
  apply sized_seq.
  { rewrite <- Ht. apply tag_for_field_sized. by rewrite Ht. }
  rewrite <- Hd in Hmap, Hds. pose proof (ltype_range (f_type f)) as Hl. unfold entry_max, is_varint, is_fixed, is_submsg in *.
  destruct Hwf as [_ Hw1 Hw2 Hw3 Hw4 _]. revert Hw1 Hw2 Hsub. generalize dependent (PB_LTYPE (f_type f)).
  intros L Hw3 Hw4 Hl Hw1 Hw2 Hsub.
  assert (L = 0 \/ L = 1 \/ L = 2 \/ L = 3 \/ L = 4 \/ L = 5 \/ L = 6 \/ L = 7 \/ L = 8 \/ L = 9 \/ 10 <= L) as HL by lia.
  destruct HL as [->|[->|[->|[->|[->|[->|[->|[->|[->|[->|HL]]]]]]]]]]; try rewrite <- Hd.
  - by apply enc_varint_sized.
  - by apply enc_varint_sized.
  - by apply enc_varint_sized.
  - by apply enc_fixed_sized.
  - by apply enc_fixed_sized.
  - apply enc_bytes_sized; rewrite ?Hty; try done. rewrite Hd. by apply Hw1.
  - apply enc_string_sized; rewrite ?Hty; try done. rewrite Hd. by apply Hw2.
  - cbn -[pb_enc_submessage]. unfold pb_enc_submessage. destruct (Z.eqb_spec (submsg_desc field) 0); [apply sized_error|].
    apply submessage_sized; [by apply Hsub|lia].
  - apply sized_error.
  - by apply enc_fixed_length_sized.
  - rewrite !(proj2 (Z.eqb_neq L _)) by (unfold PB_LTYPE_VARINT, PB_LTYPE_UVARINT, PB_LTYPE_SVARINT, PB_LTYPE_FIXED32,
      PB_LTYPE_FIXED64, PB_LTYPE_BYTES, PB_LTYPE_STRING, PB_LTYPE_SUBMESSAGE, PB_LTYPE_FIXED_LENGTH_BYTES; lia).
    apply sized_error.
Qed.

Lemma read_size_quiet (f : field) (base : Z) (field : pb_field_iter) :
  fits f -> array_size field = f_asize f -> pSize field = psize_at f base -> psize_at f base <> PS_NULL ->
  match psize_at f base with PS_ADDR p => mapped m p 2 | _ => True end ->
  exists v, quiet (read_size field) m v /\ 0 <= v < 2 ^ 16.
Proof.
  intros Hf Ha Hp Hn Hmap. apply fits_sizes in Hf as (_ & _ & Hf). unfold read_size. rewrite Hp. unfold psize_at in *.
  destruct (nonzero (f_soff f)).
  - by apply (quiet_load m _ 2).
  - destruct ((PB_HTYPE (f_type f) =? PB_HTYPE_REPEATED) && _); [|done]. exists (f_asize f). rewrite Ha. by split.
Qed.

Lemma over_entries_ext (f g : pb_field_iter -> DO unit) (n : nat) (field : pb_field_iter) :
  (forall k, f (nth_entry k field) = g (nth_entry k field)) -> over_entries f n field = over_entries g n field.
Proof.
  revert field. induction n as [|n IH]; intros field H; cbn [over_entries]; [done|].
  rewrite (IH (set_pData (pData field + data_size field) field)).
  - pose proof (H 0%nat) as H0. rewrite nth_entry_0 in H0. by rewrite H0.
  - intros k. rewrite nth_entry_S. apply H.
Qed.

Lemma enc_fixed_emits (field : pb_field_iter) :
  mapped m (pData field) (data_size field) -> data_size field = 4 \/ data_size field = 8 ->
  exists bs, emits (pb_enc_fixed field) m bs /\ Z.of_nat (length bs) = data_size field.
Proof.
  intros Hmap Hd. destruct (quiet_load m (pData field) (data_size field)) as (v & Hq & Hv); [done|lia|done|].
  unfold pb_enc_fixed, pb_encode_fixed32, pb_encode_fixed64. destruct Hd as [Hd|Hd]; rewrite Hd in *; cbn [Z.eqb Pos.eqb].
  - exists (map (byte_at v) [0; 1; 2; 3]). split; [|done]. intros s Hs. unfold mbind, D_bind. rewrite Hq.
    by apply (local_emits (map (byte_at v) [0; 1; 2; 3])).
  - exists (map (byte_at v) [0; 1; 2; 3; 4; 5; 6; 7]). split; [|done]. intros s Hs. unfold mbind, D_bind. rewrite Hq.
    by apply (local_emits (map (byte_at v) [0; 1; 2; 3; 4; 5; 6; 7])).
Qed.

(** *** Packed arrays: counting, then writing *)
Section Packed.
Context (f : field) (field : pb_field_iter) (count : Z).
Context (Hf : at_field f field) (Hfit : fits f) (Hwf : field_wf f).
Context (Hc : 0 <= count < 2 ^ 16) (Hmap : mapped m (pData field) (f_dsize f * count)).

Lemma entry_mapped (k : nat) :
  (k < Z.to_nat count)%nat -> mapped m (pData (nth_entry k field)) (data_size (nth_entry k field)).
Proof.
  intros Hk. pose proof (fits_sizes f Hfit) as (_ & Hds & _). simpl. rewrite (af_dsize _ _ Hf).
  eapply mapped_sub; [done|nia|nia].
Qed.

Lemma packed_entry_at (k : nat) :
  packed_entry (nth_entry k field)
  = if is_fixed f then pb_enc_fixed (nth_entry k field) else pb_enc_varint (nth_entry k field).
Proof.
  unfold packed_entry, is_fixed. change (ftype (nth_entry k field)) with (ftype field). by rewrite (af_type _ _ Hf).
Qed.

Lemma packed_written (size : Z) (bs : list Z) :
  emits (over_entries packed_entry (Z.to_nat count) field) m bs ->
  size = Z.of_nat (length bs) -> size <= count * entry_max f 0 -> size < 2 ^ 63 ->
  sized (_ ← pb_encode_varint size; s ← get;
    if negb (callback s) then pb_write NULL size else over_entries packed_entry (Z.to_nat count) field) m
    (10 + count * entry_max f 0).
Proof.
  intros He Hs Hb Hlt. left. exists (varint size ++ bs). split; [by apply packed_emits|].
  rewrite length_app. pose proof (leb128_length 9 size). unfold varint. lia.
Qed.

Definition packed_array : DO unit :=
  size ← packed_size count field; _ ← pb_encode_varint size; s ← get;
  if negb (callback s) then pb_write NULL size else over_entries packed_entry (Z.to_nat count) field.

Lemma packed_fixed : is_fixed f = true -> sized packed_array m (10 + count * entry_max f 0).
Proof.
  intros Hfx. pose proof Hfx as Hl. unfold is_fixed in Hl. rewrite orb_true_iff, !Z.eqb_eq in Hl.
  assert (entry_max f 0 = f_dsize f) as Hem.
  { unfold entry_max, is_varint. rewrite Hfx. by destruct Hl as [E|E]; rewrite E. }
  assert (f_dsize f = 4 \/ f_dsize f = 8) as H48.
  { destruct Hl as [E|E]; [left; by apply (fw_fixed32 _ Hwf)|right; by apply (fw_fixed64 _ Hwf)]. }
  destruct (entries_emit_fixed packed_entry (Z.to_nat count) (f_dsize f) field m) as (bs & He & Hlb).
  { intros k Hk. rewrite packed_entry_at, Hfx.
    destruct (enc_fixed_emits (nth_entry k field)) as (bs & He & Hb);
      [by apply entry_mapped|simpl; by rewrite (af_dsize _ _ Hf)|].
    exists bs. split; [done|]. rewrite Hb. apply Hf. }
  rewrite Z2Nat.id in Hlb by lia. unfold packed_array, packed_size. rewrite (af_type _ _ Hf).
  destruct Hl as [E|E]; rewrite E; cbn [Z.eqb Pos.eqb PB_LTYPE_FIXED32 PB_LTYPE_FIXED64];
    [pose proof (fw_fixed32 _ Hwf E)|pose proof (fw_fixed64 _ Hwf E)];
    (eapply sized_quiet; [apply quiet_ret|]); rewrite u64_small by lia; apply (packed_written _ bs); try done; lia.
Qed.

Lemma packed_varint :
  is_fixed f = false -> PB_LTYPE (f_type f) <= PB_LTYPE_LAST_PACKABLE ->
  sized packed_array m (10 + count * entry_max f 0).
Proof.
  intros Hfx Hpk. assert (entry_max f 0 = 10) as Hem.
  { pose proof (ltype_range (f_type f)). unfold entry_max, is_varint. unfold is_fixed in Hfx.
    rewrite orb_false_iff, !Z.eqb_neq in Hfx.
    unfold PB_LTYPE_FIXED32, PB_LTYPE_FIXED64, PB_LTYPE_LAST_PACKABLE, PB_LTYPE_SVARINT in *.
    by rewrite (proj2 (Z.leb_le _ _)) by lia. }
  assert (over_entries packed_entry (Z.to_nat count) field = over_entries pb_enc_varint (Z.to_nat count) field) as Hoe.
  { apply over_entries_ext. intros k. by rewrite packed_entry_at, Hfx. }
  pose proof packed_written as Hfin. rewrite Hoe in Hfin. unfold packed_array, packed_size. rewrite Hoe, (af_type _ _ Hf).
  unfold is_fixed in Hfx. apply orb_false_iff in Hfx as [-> ->].
  destruct (entries_sized pb_enc_varint (Z.to_nat count) 10 field m) as [(bs & He & Hlb)|Hr].
  { intros k Hk. apply enc_varint_sized; [done|by apply entry_mapped|]. simpl. rewrite (af_dsize _ _ Hf). by apply fits_sizes. }
  - rewrite Z2Nat.id in Hlb by lia. destruct (emits_sizing _ _ _ He) as (sz & Esz & Hsz); [lia|].
    eapply (sized_quiet _ _ _ (bytes_written sz)).
    { intros s. unfold mbind, D_bind, on_stream. by rewrite Esz. }
    apply (Hfin _ bs); [done|done|lia|lia].
  - right. intros s Hs. destruct (Hr _ sizing_ok) as [s' E]. unfold mbind, D_bind, on_stream. rewrite E. by eexists.
Qed.
End Packed.

(** *** Fields *)

Section Field.
Context (rec : encoder) (self : Z -> Z -> Prop) (n : Z) (Hn : 0 <= n < 2 ^ 63).
Context (base sub : Z) (f : field) (field : pb_field_iter).
Context (Hf : at_field f field) (Hfit : fits f) (Hwf : field_wf f).
Context (Hpdata : pData field = base + f_offset f) (Hpsize : pSize field = psize_at f base) (Hsubd : submsg_desc field = sub).
Context (Hread : field_readable self base f sub).
Context (Hrec : forall b, self sub b -> sized (rec sub b) m n).
Context (Hmax : field_max cb f n < 2 ^ 63).

Lemma entry_sized (k : nat) :
  PB_ATYPE (f_type f) = PB_ATYPE_STATIC -> Z.of_nat k < Z.max 1 (f_asize f) ->
  sized (encode_basic_field rec (nth_entry k field)) m (key_size (f_tag f) + entry_max f n).
Proof.
  intros Ha Hk. pose proof (fits_sizes f Hfit) as (_ & Hds & Has). destruct Hread as (Hmap & _ & _ & Hsub).
  apply basic_sized; try done.
  - by destruct Hf.
  - simpl. rewrite (af_dsize _ _ Hf), Hpdata. eapply mapped_sub; [done|nia|nia].
  - intros Hs Hne. simpl in *. rewrite Hsubd in *. apply Hrec. rewrite Hpdata, (af_dsize _ _ Hf). apply Hsub; [done..|lia].
Qed.

Lemma basic_field_sized :
  PB_ATYPE (f_type f) = PB_ATYPE_STATIC -> sized (encode_basic_field rec field) m (key_size (f_tag f) + entry_max f n).
Proof. intros Ha. rewrite <- (nth_entry_0 field). apply entry_sized; [done|lia]. Qed.

Lemma array_sized :
  PB_ATYPE (f_type f) = PB_ATYPE_STATIC -> PB_HTYPE (f_type f) = PB_HTYPE_REPEATED ->
  sized (encode_array rec field) m (field_max cb f n).
Proof.
  intros Ha Hh. pose proof (fits_sizes f Hfit) as (Htag & Hds & Has). pose proof Hread as (Hmap & Hps & _).
  pose proof (key_size_pos (f_tag f)) as Hks. pose proof (entry_max_pos f n Hfit ltac:(lia)) as Hem.
  destruct (read_size_quiet f base field) as (count & Hq & Hc); [done|apply Hf|done| |done|].
  { unfold psize_at. rewrite Ha, Hh. by destruct (nonzero (f_soff f)). }
  unfold encode_array. eapply sized_quiet; [done|]. rewrite (af_type _ _ Hf), (af_asize _ _ Hf), (af_tag _ _ Hf), Ha.
  destruct (Z.eqb_spec count 0); [apply sized_ret; by apply field_max_pos; [|lia]|]. cbn [negb andb Z.eqb PB_ATYPE_STATIC PB_ATYPE_POINTER].
  destruct (Z.ltb_spec (f_asize f) count) as [|Hle]; [apply sized_error|].
  unfold field_max. rewrite Ha, Hh. cbn [Z.eqb PB_ATYPE_STATIC PB_ATYPE_CALLBACK]. rewrite Z.eqb_refl.
  destruct (Z.leb_spec (PB_LTYPE (f_type f)) PB_LTYPE_LAST_PACKABLE) as [Hpk|Hpk].
  - assert (entry_max f n = entry_max f 0) as Hem0.
    { unfold entry_max. destruct (is_varint f), (is_fixed f); try done. unfold is_submsg.
      rewrite (proj2 (Z.eqb_neq _ _)) by (unfold PB_LTYPE_LAST_PACKABLE, PB_LTYPE_SUBMESSAGE in *; lia). done. }
    rewrite Hem0 in *. apply sized_mono with (n := key_size (f_tag f) + (10 + count * entry_max f 0)); [|nia].
    apply sized_seq; [by apply tag_sized|].
    assert (mapped m (pData field) (f_dsize f * count)) as Hmc by (rewrite Hpdata; eapply mapped_sub; [done|nia|nia]).
    destruct (is_fixed f) eqn:Hfx; [by apply (packed_fixed f)|by apply (packed_varint f)].
  - rewrite (over_entries_ext _ (encode_basic_field rec)).
    2: { intros k. unfold array_entry. change (ftype (nth_entry k field)) with (ftype field). by rewrite (af_type _ _ Hf), Ha. }
    apply sized_mono with (n := Z.of_nat (Z.to_nat count) * (key_size (f_tag f) + entry_max f n)); [|nia].
    apply entries_sized. intros k Hk. apply entry_sized; [done|lia].
Qed.
End Field.

(** *** The check for default values only reads *)

Lemma zero_bytes_quiet (n : nat) (p : Z) : mapped m p (Z.of_nat n) -> exists b, quiet (zero_bytes n p) m b.
Proof.
  revert p. induction n as [|n IH]; intros p Hp; cbn [zero_bytes]; [by exists true|].
  destruct (quiet_load m p 1) as (c & Hq & _); [done|lia|eapply mapped_sub; [done|lia|lia]|].
  destruct (IH (p + 1)) as [b Hb]; [eapply mapped_sub; [done|lia|lia]|].
  exists (if nonzero c then false else b). eapply quiet_bind; [done|]. by destruct (nonzero c).
Qed.

Lemma default_fields_quiet (fs : list field) (subs : list Z) (dv : option (list Z)) (fc : bool)
    (self : pb_field_iter -> DO bool) (base : Z) (fuel i : nat) (f : field) :
  wf_fields fs subs -> (length fs <= i + fuel)%nat -> fs !! i = Some f ->
  (forall j g, fs !! j = Some g -> exists b, quiet (self (iter_at fs subs dv fc base j g)) m b) ->
  exists b, quiet (default_fields self fuel (iter_at fs subs dv fc base i f)) m b.
Proof.
  intros Hwf. revert i f. induction fuel as [|fuel IH]; intros i f Hl Hi Hs;
    pose proof (lookup_lt_Some _ _ _ Hi) as Hlt; [lia|]. cbn [default_fields].
  destruct (Hs i f Hi) as [d Hd]. destruct (succ_lookup fs i Hlt) as [g Hg].
  destruct d; [|exists false; by eapply quiet_bind].
  assert (forall s : pb_ostream, pb_field_iter_next (iter_at fs subs dv fc base i f) s m
            = Ret (negb (Z.of_nat (succ_pos fs i) =? 0), iter_at fs subs dv fc base (succ_pos fs i) g) s m) as Hnext.
  { intros s. by apply (next_at fs subs dv fc Hwf base i f g). }
  unfold succ_pos in *. destruct (decide (S i < length fs)%nat) as [Hb|Hb].
  - destruct (IH (S i) g) as [b Hq]; [lia|done|done|]. exists b. eapply quiet_bind; [exact Hd|]. cbn [negb].
    eapply quiet_bind; [exact Hnext|]. by rewrite (proj2 (Z.eqb_neq _ _)) by lia.
  - exists true. eapply quiet_bind; [exact Hd|]. cbn [negb]. by eapply quiet_bind; [exact Hnext|].
Qed.

(** The first field of a message, or none *)
Lemma begin_message (fs : list field) (subs : list Z) (dv : option (list Z)) (fc : bool) (base : Z) :
  wf_fields fs subs ->
  (fs = [] /\ quiet (pb_field_iter_begin (PB_BIND fs subs dv fc) base) m (false, zero_iter (PB_BIND fs subs dv fc) base)) \/
  (exists f, fs !! O = Some f /\
     quiet (pb_field_iter_begin (PB_BIND fs subs dv fc) base) m (true, iter_at fs subs dv fc base 0 f)).
Proof.
  intros Hwf. destruct fs as [|f fs]; [left; by split|]. right. exists f. split; [done|]. intros s. by apply begin_at.
Qed.

(** All cases but the fields of a submessage *)
Lemma check_step (fuel : nat) (self : Z -> Z -> Prop) (base sub : Z) (f : field) (field : pb_field_iter) :
  at_field f field -> fits f -> field_wf f -> pData field = base + f_offset f -> pSize field = psize_at f base ->
  submsg_desc field = sub -> field_readable self base f sub ->
  (PB_ATYPE (f_type f) = PB_ATYPE_STATIC -> is_submsg f = true ->
   exists b, quiet (desc ← desc_at descs sub;
      '(ok, iter) ← pb_field_iter_begin desc (base + f_offset f);
      if (ok : bool)
      then default_fields (pb_check_proto3_default_value descs fuel) (Z.to_nat (field_count desc)) iter
      else mret true) m b) ->
  exists b, quiet (pb_check_proto3_default_value descs (S fuel) field) m b.
Proof.
  intros Hf Hfit Hwf Hpd Hps Hsd Hread Hsub. pose proof (fits_sizes f Hfit) as (_ & Hds & Has).
  pose proof Hread as (Hmap & Hmp & _ & _). cbn [pb_check_proto3_default_value].
  rewrite (af_type _ _ Hf), (af_dsize _ _ Hf), Hpd, Hsd.
  assert (exists b, quiet (zero_bytes (Z.to_nat (f_dsize f)) (base + f_offset f)) m b) as Hall.
  { apply zero_bytes_quiet. rewrite Z2Nat.id by lia. eapply mapped_sub; [done|lia|nia]. }
  assert (forall n, 0 <= n -> n <= f_dsize f -> exists b, quiet (v ← load_int (base + f_offset f) n; mret (v =? 0)) m b) as Hld.
  { intros n Hn Hle. destruct (quiet_load m (base + f_offset f) n) as (v & Hq & _); [done|lia|eapply mapped_sub; [done|lia|nia]|].
    exists (v =? 0). by eapply quiet_bind. }
  destruct (Z.eqb_spec (PB_ATYPE (f_type f)) PB_ATYPE_STATIC) as [Ha|]; [|exact Hall].
  destruct (Z.eqb_spec (PB_HTYPE (f_type f)) PB_HTYPE_REQUIRED); [by exists false|].
  destruct ((PB_HTYPE (f_type f) =? PB_HTYPE_REPEATED) || (PB_HTYPE (f_type f) =? PB_HTYPE_ONEOF)) eqn:Hro.
  { destruct (read_size_quiet f base field) as (v & Hq & _); [done|apply Hf|done| |done|].
    - apply orb_true_iff in Hro. rewrite !Z.eqb_eq in Hro. unfold psize_at. destruct Hro as [Hh|Hh].
      + rewrite Ha, Hh. by destruct (nonzero (f_soff f)).
      + by rewrite (nonzero_ne _ (fw_oneof _ Hwf Ha Hh)).
    - exists (v =? 0). by eapply quiet_bind. }
  apply orb_false_iff in Hro as [Hr Ho]. unfold has_pSize. rewrite Hps. unfold psize_at in *. rewrite Hr in *. cbn [andb] in *.
  match goal with |- exists b, quiet (if _ then _ else ?c) m b => assert (exists b, quiet c m b) as Hrest end.
  { destruct (Z.eqb_spec (PB_LTYPE (f_type f)) PB_LTYPE_BYTES) as [E|]; [apply Hld; [lia|by apply (fw_bytes _ Hwf)]|].
    destruct (Z.eqb_spec (PB_LTYPE (f_type f)) PB_LTYPE_STRING) as [E|]; [apply Hld; [lia|by apply (fw_string _ Hwf)]|].
    destruct (Z.eqb_spec (PB_LTYPE (f_type f)) PB_LTYPE_FIXED_LENGTH_BYTES); [by eexists|].
    unfold is_submsg in Hsub. destruct (PB_LTYPE (f_type f) =? PB_LTYPE_SUBMESSAGE); [by apply Hsub|exact Hall]. }
  destruct (PB_HTYPE (f_type f) =? PB_HTYPE_OPTIONAL), (nonzero (f_soff f)); try exact Hrest. cbn [andb].
  destruct (quiet_load m (base + f_offset f - f_soff f) 1) as (v & Hq & _); [done|lia|eapply mapped_sub; [done|lia|lia]|].
  exists (v =? 0). by eapply quiet_bind.
Qed.

Lemma iter_at_field (fs : list field) (subs : list Z) (dv : option (list Z)) (fc : bool) (base : Z) (i : nat) (f : field) :
  at_field f (iter_at fs subs dv fc base i f).
Proof. done. Qed.

Lemma check_quiet (fuel : nat) (base sub : Z) (f : field) (field : pb_field_iter) :
  at_field f field -> fits f -> field_wf f -> pData field = base + f_offset f -> pSize field = psize_at f base ->
  submsg_desc field = sub -> field_readable (readable fuel) base f sub ->
  exists b, quiet (pb_check_proto3_default_value descs (S fuel) field) m b.
Proof.
  revert base sub f field. induction fuel as [|fuel IH]; intros base sub f field Hf Hfit Hwf Hpd Hps Hsd Hread;
    apply (check_step _ _ base sub f field Hf Hfit Hwf Hpd Hps Hsd Hread); intros Ha Hs;
    destruct Hread as (_ & _ & _ & Hsub); specialize (Hsub Ha Hs 0 ltac:(lia)); [done|].
  rewrite Z.mul_0_l, Z.add_0_r in Hsub. destruct Hsub as (fs & subs & El & Hall).
  destruct (Hdescs _ _ _ El) as (Hwfs & Hws & dv & fc & Ed).
  assert (forall s : pb_ostream, desc_at descs sub s m = Ret (PB_BIND fs subs dv fc) s m) as Hdesc.
  { intros s. unfold desc_at. by rewrite Ed. }
  destruct (begin_message fs subs dv fc (base + f_offset f) Hwfs) as [[-> Hb]|(g & Hg & Hb)].
  { exists true. eapply quiet_bind; [exact Hdesc|]. by eapply quiet_bind; [exact Hb|]. }
  destruct (default_fields_quiet fs subs dv fc (pb_check_proto3_default_value descs (S fuel)) (base + f_offset f)
    (length fs) 0 g Hwfs) as [b Hq]; [lia|done| |].
  - intros j h Hh. apply (IH (base + f_offset f) (sub_at fs subs j h) h); try done.
    + exact (Forall_lookup_1 _ _ _ _ (wf_fits _ _ Hwfs) Hh).
    + exact (Forall_lookup_1 _ _ _ _ Hws Hh).
    + by apply Hall.
  - exists b. eapply quiet_bind; [exact Hdesc|]. eapply quiet_bind; [exact Hb|]. simpl. by rewrite Nat2Z.id.
Qed.

(** *** Any field *)

Lemma protected_sized (c : DO unit) (n : Z) (msg : string) :
  sized c m n ->
  sized (s ← get; '(st, s') ← on_stream s c; _ ← put s';
         match st with Some _ => mret tt | None => O_RETURN_ERROR msg end) m n.
Proof.
  intros [(bs & He & Hl)|Hr].
  - left. exists bs. split; [|done]. intros s Hs. specialize (He s Hs).
    unfold get, put, mbind, D_bind, on_stream. case_decide.
    + destruct He as (s' & -> & E). by exists s'.
    + destruct He as [s' ->]. by eexists.
  - right. intros s Hs. destruct (Hr s Hs) as [s' E]. unfold get, put, mbind, D_bind, on_stream. rewrite E. by eexists.
Qed.

Lemma callback_sized (rec : encoder) (self : Z -> Z -> Prop) (base sub : Z) (f : field) (field : pb_field_iter) :
  at_field f field -> pData field = base + f_offset f -> PB_ATYPE (f_type f) = PB_ATYPE_CALLBACK ->
  field_readable self base f sub ->
  sized (encode_callback_field encode_fn rec field) m cb.
Proof.
  intros Hf Hpd Ha (Hmap & _ & Hcall & _). unfold encode_callback_field.
  destruct (field_callback (descriptor field)); [|by apply sized_ret]. apply protected_sized.
  unfold pb_default_field_callback. rewrite (af_dsize _ _ Hf), Hpd.
  destruct (Z.eqb_spec (f_dsize f) CALLBACK_SIZE) as [Ed|]; [|by apply sized_ret].
  destruct (nonzero (base + f_offset f)); [|by apply sized_ret].
  destruct (quiet_load m (base + f_offset f) 8) as (v & Hq & _);
    [done|lia|eapply mapped_sub; [done|lia|rewrite Ed; unfold CALLBACK_SIZE; lia]|].
  eapply sized_quiet; [done|]. destruct (Hcall Ha Ed v Hq) as [->|(fn & Efn & Hfn)]; [by apply sized_ret|].
  destruct (nonzero v); [|by apply sized_ret]. rewrite Efn. apply Hfn.
Qed.

Lemma field_sized (rec : encoder) (fuel : nat) (n base sub : Z) (f : field) (field : pb_field_iter) :
  at_field f field -> fits f -> field_wf f -> pData field = base + f_offset f -> pSize field = psize_at f base ->
  submsg_desc field = sub -> field_readable (readable fuel) base f sub ->
  0 <= n < 2 ^ 63 -> (forall b, readable fuel sub b -> sized (rec sub b) m n) ->
  sized (encode_field descs encode_fn rec (S fuel) field) m (field_max cb f n).
Proof.
  intros Hf Hfit Hwf Hpd Hps Hsd Hread Hn Hrec. unfold encode_field. rewrite (af_type _ _ Hf).
  pose proof (field_max_pos f n Hfit ltac:(lia)) as Hpos.
  destruct (fw_atype _ Hwf) as [Ha|Ha]; rewrite Ha; cbn [Z.eqb PB_ATYPE_STATIC PB_ATYPE_CALLBACK].
  2: { unfold field_max. rewrite Ha. by eapply callback_sized. }
  destruct (Z.eqb_spec (PB_HTYPE (f_type f)) PB_HTYPE_REPEATED) as [Hh|Hh].
  { by apply (array_sized rec (readable fuel) n Hn base sub f field). }
  assert (sized (encode_basic_field rec field) m (field_max cb f n)) as Hbasic.
  { unfold field_max. rewrite Ha, (proj2 (Z.eqb_neq _ _) Hh). cbn [Z.eqb PB_ATYPE_STATIC PB_ATYPE_CALLBACK].
    by apply (basic_field_sized rec (readable fuel) n Hn base sub f field). }
  destruct (PB_HTYPE (f_type f) =? PB_HTYPE_REQUIRED).
  { case_match; [apply sized_error|done]. }
  destruct (PB_HTYPE (f_type f) =? PB_HTYPE_OPTIONAL).
  - match goal with |- sized (?c ≫= _) _ _ => assert (exists b, quiet c m b) as [b Hb] end.
    { rewrite Hps. unfold psize_at. rewrite (proj2 (Z.eqb_neq _ _) Hh). cbn [andb].
      destruct (nonzero (f_soff f)) eqn:Hs; [|by apply (check_quiet fuel base sub f field)].
      destruct Hread as (_ & Hmp & _). unfold psize_at in Hmp. rewrite Hs in Hmp.
      destruct (quiet_load m (base + f_offset f - f_soff f) 1) as (v & Hq & _); [done|lia|eapply mapped_sub; [done|lia|lia]|].
      exists (v =? 0). by eapply quiet_bind. }
    eapply sized_quiet; [done|]. destruct b; [by apply sized_ret|done].
  - destruct (Z.eqb_spec (PB_HTYPE (f_type f)) PB_HTYPE_ONEOF) as [Ho|]; [|apply sized_error].
    destruct (read_size_quiet f base field) as (v & Hq & _); [done|apply Hf|done| |apply Hread|].
    { unfold psize_at. by rewrite (nonzero_ne _ (fw_oneof _ Hwf Ha Ho)). }
    eapply sized_quiet; [done|]. rewrite (af_tag _ _ Hf). case_match; [by apply sized_ret|done].
Qed.

(** *** Messages *)

Lemma fields_sized (rec : encoder) (fuel : nat) (fs : list field) (subs : list Z) (dv : option (list Z)) (fc : bool)
    (base : Z) (n i : nat) (f : field) :
  let maxes := imap (fun i f => field_max cb f (message_max fuel (sub_at fs subs i f))) fs in
  wf_fields fs subs -> Forall field_wf fs ->
  (forall j g, fs !! j = Some g -> field_readable (readable fuel) base g (sub_at fs subs j g)) ->
  (forall p b, readable fuel p b -> sized (rec p b) m (message_max fuel p)) ->
  (forall p, message_max fuel p < 2 ^ 63) ->
  fs !! i = Some f -> (length fs <= i + n)%nat ->
  sized (encode_fields descs encode_fn ext_encode_fn ext_max rec (S fuel) n (iter_at fs subs dv fc base i f)) m
    (sum (drop i maxes)).
Proof.
  intros maxes Hwf Hws Hread Hrec Hlt. revert i f. induction n as [|n IH]; intros i f Hi Hl;
    pose proof (lookup_lt_Some _ _ _ Hi) as Hb; [lia|]. cbn [encode_fields].
  destruct (wf_lookup fs subs Hwf i f Hi) as (Hfit & _ & Hext).
  change (ftype (iter_at fs subs dv fc base i f)) with (f_type f). rewrite (proj2 (Z.eqb_neq _ _) Hext).
  assert (maxes !! i = Some (field_max cb f (message_max fuel (sub_at fs subs i f)))) as Hmx.
  { unfold maxes. by rewrite list_lookup_imap, Hi. }
  rewrite (drop_S _ _ _ Hmx). cbn [sum foldr]. change (foldr Z.add 0) with sum. apply sized_seq.
  { apply (field_sized _ _ _ base (sub_at fs subs i f)); try done.
    - exact (Forall_lookup_1 _ _ _ _ Hws Hi).
    - by apply Hread.
    - split; [apply message_max_pos|by apply Hlt].
    - intros b. apply Hrec. }
  destruct (succ_lookup fs i Hb) as [g Hg].
  assert (forall s : pb_ostream, pb_field_iter_next (iter_at fs subs dv fc base i f) s m
            = Ret (negb (Z.of_nat (succ_pos fs i) =? 0), iter_at fs subs dv fc base (succ_pos fs i) g) s m) as Hnext.
  { intros s. by apply (next_at fs subs dv fc Hwf base i f g). }
  unfold succ_pos in *. destruct (decide (S i < length fs)%nat) as [Hs|Hs].
  - eapply sized_quiet; [exact Hnext|]. rewrite (proj2 (Z.eqb_neq _ _)) by lia. apply IH; [done|lia].
  - eapply sized_quiet; [exact Hnext|]. apply sized_ret. rewrite drop_ge; [done|]. unfold maxes. rewrite length_imap. lia.
Qed.

Lemma encode_sized (fuel : nat) (p base : Z) :
  (forall k q, (k < fuel)%nat -> message_max k q < 2 ^ 63) -> readable fuel p base ->
  sized (pb_encode descs encode_fn ext_encode_fn ext_max fuel p base) m (message_max fuel p).
Proof.
  revert p base. induction fuel as [|fuel IH]; intros p base Hmax Hread; [done|].
  destruct Hread as (fs & subs & El & Hall). destruct (Hdescs _ _ _ El) as (Hwf & Hws & dv & fc & Ed).
  cbn [pb_encode message_max]. rewrite El. unfold encode_message.
  eapply sized_quiet; [intros s; unfold desc_at; by rewrite Ed|].
  destruct (begin_message fs subs dv fc base Hwf) as [[-> Hb]|(f & Hf & Hb)]; (eapply sized_quiet; [exact Hb|]).
  { by apply sized_ret. }
  cbn [field_count PB_BIND]. rewrite Nat2Z.id.
  apply (fields_sized _ fuel fs subs dv fc base (length fs) 0 f); try done.
  - intros q b Hq. apply IH; [|done]. intros k r Hk. apply Hmax. lia.
  - intros q. apply Hmax. lia.
Qed.
End Messages.

(** ** Theorem *)

(** C24: The size of a message is computed exactly, and a buffer is never overrun.  For
    every message in memory, with callbacks that write the same whenever they are
    called, either pb_get_encoded_size and pb_encode both return false, whatever the
    buffer, or the size that pb_get_encoded_size returns is the number of bytes that
    pb_encode writes: into a buffer that is large enough it writes exactly these
    bytes, and it returns false for any smaller one.  The size is at most what the
    descriptors allow.  Memory is only read, and only where the message is. *)
Theorem encoded_size_exact (descs : Z -> option pb_msgdesc) (encode_fn : Z -> option encode_callback_fn)
    (ext_encode_fn : Z -> option (Z -> DO unit)) (ext_max : nat)
    (layout : Z -> option (list field * list Z)) (cb : Z) (m : mem) (fuel : nat) (fields src_struct : Z) :
  0 <= cb -> byte_memory m ->
  (forall p fs subs, layout p = Some (fs, subs) ->
    wf_fields fs subs /\ Forall field_wf fs /\ exists dv fc, descs p = Some (PB_BIND fs subs dv fc)) ->
  (forall k p, (k <= fuel)%nat -> message_max layout cb k p < 2 ^ 63) ->
  readable encode_fn layout cb m fuel fields src_struct ->
  let encode bufsize := pb_encode descs encode_fn ext_encode_fn ext_max fuel fields src_struct
                          (pb_ostream_from_buffer bufsize) m in
  let size s := pb_get_encoded_size descs encode_fn ext_encode_fn ext_max fuel fields src_struct s m in
  (exists bs, Z.of_nat (length bs) <= message_max layout cb fuel fields /\
     (forall s, size s = Ret (Z.of_nat (length bs)) s m) /\
     forall bufsize, 0 <= bufsize < 2 ^ 63 ->
       if Z.of_nat (length bs) <=? bufsize
       then exists s', encode bufsize = Ret tt s' m /\ out s' = bs /\ bytes_written s' = Z.of_nat (length bs)
       else exists s', encode bufsize = Err s' m) \/
  ((forall s, size s = Err s m) /\
   forall bufsize, 0 <= bufsize < 2 ^ 63 -> exists s', encode bufsize = Err s' m).
Proof.
  intros Hcb Hm Hdescs Hmax Hread encode size.
  assert (forall bufsize, 0 <= bufsize < 2 ^ 63 -> ostream_ok (pb_ostream_from_buffer bufsize)) as Hok.
  { intros b Hb. split; simpl; lia. }
  destruct (encode_sized descs encode_fn ext_encode_fn ext_max layout cb Hcb Hdescs m Hm fuel fields src_struct)
    as [(bs & He & Hl)|Hr]; [intros k q Hk; apply Hmax; lia|done| |].
  - left. exists bs. specialize (Hmax fuel fields ltac:(lia)). split; [done|]. split.
    + intros s. destruct (emits_sizing _ _ _ He) as (sz & Esz & Hsz); [lia|].
      unfold size, pb_get_encoded_size, mbind, D_bind, on_stream. rewrite Esz, Hsz. done.
    + intros b Hb. specialize (He _ (Hok b Hb)). unfold fits_in in He. simpl in He.
      destruct (Z.leb_spec (Z.of_nat (length bs)) b).
      * rewrite decide_True in He by lia. destruct He as (s' & E & (_ & Eo & _ & _ & Ew)). exists s'. by split_and!.
      * rewrite decide_False in He by (intros H'; specialize (H' eq_refl); lia). done.
  - right. split; [|intros b Hb; by apply Hr, Hok]. intros s. destruct (Hr _ sizing_ok) as [s' E].
    unfold size, pb_get_encoded_size, mbind, D_bind, on_stream. by rewrite E.
Qed.

(** A message with two numbers, 1 and 300, takes five bytes. *)
Definition demo_area : list field :=
  [mk_field W1 1 (Z.lor PB_HTYPE_OPTIONAL PB_LTYPE_UVARINT) 0 8 0 1;
   mk_field W1 2 (Z.lor PB_HTYPE_OPTIONAL PB_LTYPE_UVARINT) 8 8 0 1].
Definition demo_layout (p : Z) : option (list field * list Z) := if p =? 6 then Some (demo_area, []) else None.
Definition demo_descs (p : Z) : option pb_msgdesc :=
  if p =? 6 then Some (PB_BIND demo_area [] None false) else None.
Definition demo_memory : mem := alloc_bytes ∅ 4096 [1; 0; 0; 0; 0; 0; 0; 0; 44; 1; 0; 0; 0; 0; 0; 0].

Lemma demo_memory_bytes : byte_memory demo_memory.
Proof.
  intros a b. unfold demo_memory, alloc_bytes. rewrite !lookup_insert. repeat case_decide; intros [= <-]; unfold is_byte; lia.
Qed.

Lemma demo_area_wf : wf_fields demo_area [] /\ Forall field_wf demo_area.
Proof.
  split; [split|]; repeat constructor; vm_compute; try intuition discriminate; lia.
Qed.

Lemma encoded_size_exact_witness :
  let encode bufsize := pb_encode demo_descs (fun _ => None) (fun _ => None) 0 1 6 4096
                          (pb_ostream_from_buffer bufsize) demo_memory in
  (exists s', encode 4 = Err s' demo_memory) /\
  exists s', encode 5 = Ret tt s' demo_memory /\ length (out s') = 5%nat.
Proof.
  intros encode.
  destruct (encoded_size_exact demo_descs (fun _ => None) (fun _ => None) 0 demo_layout 0 demo_memory 1 6 4096)
    as [(bs & _ & Hs & He)|[Hs _]].
  - lia.
  - apply demo_memory_bytes.
  - intros p fs subs. unfold demo_layout, demo_descs. destruct (p =? 6); [|done]. intros [= <- <-].
    split; [apply demo_area_wf|]. split; [apply demo_area_wf|]. by exists None, false.
  - intros k p Hk. unfold message_max, demo_layout. destruct k as [|[|k]], (p =? 6); vm_compute; (reflexivity || lia).
  - exists demo_area, []. split; [reflexivity|]. intros [|[|i]] f; [intros [= <-] ..|done];
      (split; [intros x Hx; apply (mapped_alloc ∅ 4096 [1; 0; 0; 0; 0; 0; 0; 0; 44; 1; 0; 0; 0; 0; 0; 0]);
               cbn in Hx |- *; lia|done]).
  - specialize (Hs PB_OSTREAM_SIZING). assert (5 = Z.of_nat (length bs)) as Hl.
    { remember (Z.of_nat (length bs)) as n. clear - Hs. vm_compute in Hs. by injection Hs. }
    split.
    + specialize (He 4 ltac:(lia)). rewrite <- Hl in He. exact He.
    + specialize (He 5 ltac:(lia)). rewrite <- Hl in He. destruct He as (s' & E & Eo & _). exists s'.
      split; [exact E|]. rewrite Eo. lia.
  - specialize (Hs PB_OSTREAM_SIZING). vm_compute in Hs. discriminate.
Defined.

(** ** Round trips *)

(** What is in a buffer of that size after encoding *)
Definition encoded (c : DO unit) (m : mem) (bufsize : Z) : option (list Z) :=
  match c (pb_ostream_from_buffer bufsize) m with Ret _ s _ => Some (out s) | _ => None end.

(** [bs] is decoded to [v], and the stream is then at [rest]. *)
Definition decodes {A} (c : DI A) (bs rest : list Z) (m : mem) (v : A) (m' : mem) : Prop :=
  c (pb_istream_from_buffer (bs ++ rest) (Z.of_nat (length (bs ++ rest)))) m
  = Ret v (pb_istream_from_buffer rest (Z.of_nat (length rest))) m'.

Lemma emits_encoded (c : DO unit) (m : mem) (bs : list Z) (bufsize : Z) :
  emits c m bs -> Z.of_nat (length bs) <= bufsize < 2 ^ 63 -> encoded c m bufsize = Some bs.
Proof.
  intros He Hl. unfold encoded. specialize (He (pb_ostream_from_buffer bufsize)).
  rewrite decide_True in He by (intros _; simpl; lia). destruct He as (s' & -> & (_ & E & _)).
  - split; simpl; lia.
  - by rewrite E.
Qed.

(** *** Zigzag *)

Definition zigzag (v : Z) : Z := if v <? 0 then -2 * v - 1 else 2 * v.

Lemma svarint_emits (v : Z) (m : mem) : - 2 ^ 63 <= v < 2 ^ 63 -> emits (pb_encode_svarint v) m (varint (zigzag v)).
Proof.
  intros Hv. unfold pb_encode_svarint, zigzag, not64. destruct (Z.ltb_spec v 0).
  - replace (u64 v) with (v + 2 ^ 64).
    2: { unfold u64, wrap. symmetry. rewrite <- (Z_mod_plus_full v 1). rewrite Z.mod_small; lia. }
    rewrite Z.shiftl_mul_pow2 by lia. change (2 ^ 1) with 2.
    replace (u64 ((v + 2 ^ 64) * 2)) with (2 * v + 2 ^ 64).
    2: { unfold u64, wrap. replace ((v + 2 ^ 64) * 2) with (2 * v + 2 ^ 64 + 1 * 2 ^ 64) by lia.
         rewrite Z_mod_plus_full, Z.mod_small; lia. }
    unfold Z.lnot. replace (u64 (Z.pred (- (2 * v + 2 ^ 64)))) with (-2 * v - 1).
    2: { unfold u64, wrap. rewrite <- (Z_mod_plus_full _ 1). rewrite Z.mod_small; lia. }
    apply varint_emits. lia.
  - rewrite (u64_small v) by lia. rewrite Z.shiftl_mul_pow2 by lia. change (2 ^ 1) with 2.
    rewrite Z.mul_comm, u64_small by lia. apply varint_emits. lia.
Qed.

Lemma svarint_decoded (v c : Z) (rest : list Z) (e : option string) (m : mem) :
  - 2 ^ 63 <= v < 2 ^ 63 -> Z.of_nat (length (varint (zigzag v))) <= c < 2 ^ 64 ->
  pb_decode_svarint (mk_istream (varint (zigzag v) ++ rest) c e) m
  = Ret v (mk_istream rest (c - Z.of_nat (length (varint (zigzag v)))) e) m.
Proof.
  intros Hv Hc. assert (0 <= zigzag v < 2 ^ 64) as Hz by (unfold zigzag; case_match eqn:E; [apply Z.ltb_lt in E|apply Z.ltb_ge in E]; lia).
  unfold pb_decode_svarint, mbind, D_bind. rewrite varint_roundtrip by done. cbn [mret D_ret]. f_equal.
  change 1 with (Z.ones 1) at 1. rewrite Z.land_ones, Z.shiftr_div_pow2 by lia. change (2 ^ 1) with 2.
  unfold zigzag, nonzero, not64. destruct (Z.ltb_spec v 0).
  - replace ((-2 * v - 1) mod 2) with 1 by dlia. cbn [Z.eqb negb]. replace ((-2 * v - 1) / 2) with (- v - 1) by dlia.
    unfold Z.lnot. replace (u64 (Z.pred (- (- v - 1)))) with (v + 2 ^ 64).
    2: { unfold u64, wrap. rewrite <- (Z_mod_plus_full _ 1). rewrite Z.mod_small; lia. }
    unfold s64, swrap. change (64 - 1) with 63.
    replace (v + 2 ^ 64 + 2 ^ 63) with (v + 2 ^ 63 + 1 * 2 ^ 64) by lia. rewrite Z_mod_plus_full, Z.mod_small; lia.
  - replace ((2 * v) mod 2) with 0 by dlia. cbn [Z.eqb negb]. replace (2 * v / 2) with v by dlia.
    unfold s64. apply swrap_small; [lia|]. change (64 - 1) with 63. lia.
Qed.
(** *** Fixed width *)

Lemma byte_at_land (v i : Z) : byte_at v i = Z.land (Z.shiftr v (8 * i)) (Z.ones 8).
Proof.
  unfold byte_at. change 0xFF with (Z.ones 8). apply u8_small. rewrite Z.land_ones by lia. by apply Z.mod_pos_bound.
Qed.

Lemma bytes_of_byte_at (v : Z) :
  map (byte_at v) [0; 1; 2; 3] = bytes_of 4 v /\ map (byte_at v) [0; 1; 2; 3; 4; 5; 6; 7] = bytes_of 8 v.
Proof.
  unfold bytes_of, Z_to_little_endian.
  split; cbn [Z.iter Pos.iter map]; rewrite !byte_at_land, !Z.shiftr_shiftr by lia; by rewrite Z.shiftr_0_r.
Qed.

Lemma length_4 (w : list Z) : length w = 4%nat -> exists a b c d, w = [a; b; c; d].
Proof. destruct w as [|a [|b [|c [|d [|]]]]]; try done. by exists a, b, c, d. Qed.

Lemma little_endian_bytes (w : list Z) (n : Z) :
  Forall is_byte w -> n = Z.of_nat (length w) -> bytes_of n (value_of w) = w.
Proof. intros Hw Hn. by apply Z_to_little_endian_to_Z. Qed.

Ltac shifts := rewrite ?Z.shiftl_lor, ?Z.shiftl_shiftl, ?Z.shiftl_0_l, ?Z.shiftl_0_r, ?Z.lor_0_r, ?Z.lor_assoc by lia.

Lemma read_ok (bs rest : list Z) (n : Z) (m : mem) :
  n = Z.of_nat (length bs) -> Z.of_nat (length (bs ++ rest)) < 2 ^ 64 ->
  pb_read n (pb_istream_from_buffer (bs ++ rest) (Z.of_nat (length (bs ++ rest)))) m
  = Ret bs (pb_istream_from_buffer rest (Z.of_nat (length rest))) m.
Proof.
  intros -> Hl. rewrite length_app in *. unfold pb_istream_from_buffer. rewrite pb_read_eq by lia. do 2 f_equal. lia.
Qed.

Lemma fixed32_roundtrip (src dst : Z) (w rest : list Z) (m : mem) (bufsize : Z) :
  holds m src w -> length w = 4%nat -> Forall is_byte w -> mapped m dst 4 ->
  10 <= bufsize < 2 ^ 63 -> Z.of_nat (length rest) < 2 ^ 63 ->
  exists m', encoded (pb_encode_fixed32 src) m bufsize = Some w /\
    decodes (pb_decode_fixed32 dst) w rest m tt m' /\ holds m' dst w.
Proof.
  intros Hh Hl Hw Hd Hb Hr. assert (load_bytes m src 4 = Some w) as Hld by (by rewrite <- Hl).
  assert (encoded (pb_encode_fixed32 src) m bufsize = Some w) as Henc.
  { apply emits_encoded; [|lia]. intros s Hs. unfold pb_encode_fixed32, mbind, D_bind, load_int, load, mbind, D_bind.
    change (Z.to_nat 4) with 4%nat. rewrite Hld. cbn [mret D_ret]. rewrite (proj1 (bytes_of_byte_at _)), little_endian_bytes by (done || lia).
    replace 4 with (Z.of_nat (length w)) by lia. apply local_emits; [lia|done]. }
  destruct (length_4 w Hl) as (a & b & c & d & ->).
  destruct (store_bytes_total m dst [a; b; c; d]) as (m' & Em & _); [done|].
  exists m'. split; [done|]. split; [|by eapply store_load].
  unfold decodes, pb_decode_fixed32, mbind, D_bind. rewrite (read_ok [a; b; c; d]) by (rewrite ?length_app; simpl; lia).
  unfold store_int, store. cbn [nth].
  replace (Z.lor _ _) with (value_of [a; b; c; d]).
  - by rewrite (little_endian_bytes [a; b; c; d] 4), Em.
  - unfold value_of. cbn [little_endian_to_Z]. by shifts.
Qed.

Lemma length_8 (w : list Z) :
  length w = 8%nat -> exists a b c d e f g h, w = [a; b; c; d; e; f; g; h].
Proof.
  intros Hl. destruct (length_4 (take 4 w)) as (a & b & c & d & E1); [rewrite length_take; lia|].
  destruct (length_4 (drop 4 w)) as (e & f & g & h & E2); [rewrite length_drop; lia|].
  exists a, b, c, d, e, f, g, h. by rewrite <- (take_drop 4 w), E1, E2.
Qed.

Lemma fixed64_roundtrip (src dst : Z) (w rest : list Z) (m : mem) (bufsize : Z) :
  holds m src w -> length w = 8%nat -> Forall is_byte w -> mapped m dst 8 ->
  10 <= bufsize < 2 ^ 63 -> Z.of_nat (length rest) < 2 ^ 63 ->
  exists m', encoded (pb_encode_fixed64 src) m bufsize = Some w /\
    decodes (pb_decode_fixed64 dst) w rest m tt m' /\ holds m' dst w.
Proof.
  intros Hh Hl Hw Hd Hb Hr. assert (load_bytes m src 8 = Some w) as Hld by (by rewrite <- Hl).
  assert (encoded (pb_encode_fixed64 src) m bufsize = Some w) as Henc.
  { apply emits_encoded; [|lia]. intros s Hs. unfold pb_encode_fixed64, mbind, D_bind, load_int, load, mbind, D_bind.
    change (Z.to_nat 8) with 8%nat. rewrite Hld. cbn [mret D_ret]. rewrite (proj2 (bytes_of_byte_at _)), little_endian_bytes by (done || lia).
    replace 8 with (Z.of_nat (length w)) by lia. apply local_emits; [lia|done]. }
  destruct (length_8 w Hl) as (a & b & c & d & x & f & g & h & ->).
  destruct (store_bytes_total m dst [a; b; c; d; x; f; g; h]) as (m' & Em & _); [done|].
  exists m'. split; [done|]. split; [|by eapply store_load].
  unfold decodes, pb_decode_fixed64, mbind, D_bind.
  rewrite (read_ok [a; b; c; d; x; f; g; h]) by (rewrite ?length_app; simpl; lia).
  unfold store_int, store. cbn [nth].
  replace (Z.lor _ _) with (value_of [a; b; c; d; x; f; g; h]).
  - by rewrite (little_endian_bytes [a; b; c; d; x; f; g; h] 8), Em.
  - unfold value_of. cbn [little_endian_to_Z]. by shifts.
Qed.

Lemma decodes_eq {A} (c : DI A) (bs rest : list Z) (m : mem) (v : A) :
  c (mk_istream (bs ++ rest) (Z.of_nat (length (bs ++ rest))) None) m
  = Ret v (mk_istream rest (Z.of_nat (length (bs ++ rest)) - Z.of_nat (length bs)) None) m ->
  decodes c bs rest m v m.
Proof.
  intros E. unfold decodes, pb_istream_from_buffer. rewrite E. do 2 f_equal. rewrite length_app. lia.
Qed.

(** C29: What the encoder writes the decoder reads back: numbers of 64 and of 32 bits,
    signed numbers in zigzag form, the tag of a field with its wire type, and the
    fixed32 and fixed64 values, which go from memory to memory.  Ten bytes of buffer
    suffice, and the stream is then exactly behind what was read, whatever follows. *)
Theorem scalars_roundtrip (m : mem) (rest : list Z) (bufsize : Z) :
  10 <= bufsize < 2 ^ 63 -> Z.of_nat (length rest) < 2 ^ 63 ->
  (forall v, 0 <= v < 2 ^ 64 ->
     exists bs, encoded (pb_encode_varint v) m bufsize = Some bs /\ decodes pb_decode_varint bs rest m v m /\
       (v < 2 ^ 32 -> decodes pb_decode_varint32 bs rest m v m)) /\
  (forall v, - 2 ^ 63 <= v < 2 ^ 63 ->
     exists bs, encoded (pb_encode_svarint v) m bufsize = Some bs /\ decodes pb_decode_svarint bs rest m v m) /\
  (forall wt tag, 0 <= wt < 8 -> 0 <= tag < 2 ^ 29 ->
     exists bs, encoded (pb_encode_tag wt tag) m bufsize = Some bs /\
       decodes pb_decode_tag bs rest m (Some (wt, tag)) m) /\
  (forall src dst w, holds m src w -> Forall is_byte w -> mapped m dst (Z.of_nat (length w)) ->
     (length w = 4%nat -> exists m', encoded (pb_encode_fixed32 src) m bufsize = Some w /\
        decodes (pb_decode_fixed32 dst) w rest m tt m' /\ holds m' dst w) /\
     (length w = 8%nat -> exists m', encoded (pb_encode_fixed64 src) m bufsize = Some w /\
        decodes (pb_decode_fixed64 dst) w rest m tt m' /\ holds m' dst w)).
Proof.
  intros Hb Hr.
  assert (forall v, 0 <= v < 2 ^ 64 -> (length (varint v) <= 10)%nat) as Hlen.
  { intros v Hv. apply varint_length; [lia|]. change (2 ^ (7 * Z.of_nat 10)) with (2 ^ 70). lia. }
  split_and!.
  - intros v Hv. specialize (Hlen v Hv). exists (varint v). split; [apply emits_encoded; [by apply varint_emits|lia]|].
    split; [|intros Hv']; apply decodes_eq; [apply varint_roundtrip|apply varint32_roundtrip]; rewrite ?length_app; lia.
  - intros v Hv. assert (0 <= zigzag v < 2 ^ 64) as Hz.
    { unfold zigzag. destruct (Z.ltb_spec v 0); lia. }
    specialize (Hlen _ Hz). exists (varint (zigzag v)). split; [apply emits_encoded; [by apply svarint_emits|lia]|].
    apply decodes_eq. apply svarint_decoded; rewrite ?length_app; lia.
  - intros wt tag Hw Ht. assert (length (key wt tag) <= 10)%nat by (apply Hlen; lia). exists (key wt tag).
    split; [apply emits_encoded; [by apply tag_emits|lia]|]. apply decodes_eq.
    unfold pb_decode_tag, mbind, D_bind. unfold key in *. rewrite varint32_eof_roundtrip by (rewrite ?length_app; lia).
    cbn [mret D_ret]. change 7 with (Z.ones 3). rewrite Z.land_ones, Z.shiftr_div_pow2 by lia. change (2 ^ 3) with 8.
    do 3 f_equal; dlia.
  - intros src dst w Hh Hw Hd. split; intros Hl; rewrite Hl in Hd; [by apply fixed32_roundtrip|by apply fixed64_roundtrip].
Qed.

Lemma scalars_roundtrip_witness :
  exists bs, encoded (pb_encode_svarint (-150)) ∅ 16 = Some bs /\ decodes pb_decode_svarint bs [7; 7] ∅ (-150) ∅.
Proof.
  refine (proj1 (proj2 (scalars_roundtrip ∅ [7; 7] 16 _ _)) (-150) _); simpl; lia.
Defined.

End PbEncodeProof.
