(* ===== verification/StatusCore.v ===== *)
(** * Reading the status core (tlkm/tlkm_status.c, nanopb/status_core.pb.[ch])

    The status core of a bitstream is a protobuf message that describes it.  The
    driver decodes it with nanopb into dev->status; for each Platform message the
    callback add_component decodes it into a local variable and fills one entry of
    dev->components.  Structs are laid out as on the 64-bit platforms. *)
From S2P Require Import Prelude.
From S2P Require Export PbDecode.

Module StatusCore.
Export PbDecode.

(** ** Descriptors (status_core.pb.h), bound by PB_BIND *)

(** PB_FIELDINFO_WIDTH_AUTO *)
Definition PB_FIELDINFO_WIDTH_AUTO (atype htype ltype : Z) : width :=
  if (atype =? PB_ATYPE_CALLBACK) || (htype =? PB_HTYPE_REPEATED) then W2
  else if (ltype =? PB_LTYPE_BYTES) || (ltype =? PB_LTYPE_STRING) || (ltype =? PB_LTYPE_SUBMESSAGE) ||
          (ltype =? PB_LTYPE_FIXED_LENGTH_BYTES) then W2 else W1.

(** PB_GEN_FIELD_INFO; no field here is an array in the struct. *)
Definition X (atype htype ltype offset size size_offset tag : Z) : field :=
  mk_field (PB_FIELDINFO_WIDTH_AUTO atype htype ltype) tag (Z.lor (Z.lor atype htype) ltype)
    offset size size_offset 1.

Definition STATIC := PB_ATYPE_STATIC.
Definition CALLBACK := PB_ATYPE_CALLBACK.
Definition SINGULAR := PB_HTYPE_OPTIONAL.
Definition OPTIONAL := PB_HTYPE_OPTIONAL.
Definition REPEATED := PB_HTYPE_REPEATED.
Definition UINT32 := PB_LTYPE_UVARINT.
Definition UINT64 := PB_LTYPE_UVARINT.
Definition STRING := PB_LTYPE_STRING.
Definition MESSAGE := PB_LTYPE_SUBMESSAGE.

(** Addresses of the descriptors *)
Definition Interrupt_fields : Z := 1.
Definition PE_fields : Z := 2.
Definition Platform_fields : Z := 3.
Definition Clock_fields : Z := 4.
Definition Version_fields : Z := 5.
Definition MemoryArea_fields : Z := 6.
Definition Status_fields : Z := 7.

Definition Interrupt_FIELDLIST : list field :=
  [X STATIC SINGULAR UINT64 0 8 0 1; X CALLBACK SINGULAR STRING 8 16 0 2].
Definition PE_FIELDLIST : list field :=
  [X CALLBACK SINGULAR STRING 0 16 0 1; X STATIC SINGULAR UINT32 16 4 0 2;
   X STATIC SINGULAR UINT64 24 8 0 3; X STATIC SINGULAR UINT64 32 8 0 4;
   X STATIC OPTIONAL MESSAGE 48 16 8 5; X STATIC OPTIONAL MESSAGE 72 48 8 6;
   X CALLBACK REPEATED MESSAGE 120 16 0 7].
Definition Platform_FIELDLIST : list field :=
  [X CALLBACK SINGULAR STRING 0 16 0 1; X STATIC SINGULAR UINT64 16 8 0 2;
   X STATIC SINGULAR UINT64 24 8 0 3; X CALLBACK REPEATED MESSAGE 32 16 0 4].
Definition Clock_FIELDLIST : list field :=
  [X CALLBACK SINGULAR STRING 0 16 0 1; X STATIC SINGULAR UINT32 16 4 0 2].
Definition Version_FIELDLIST : list field :=
  [X CALLBACK SINGULAR STRING 0 16 0 1; X STATIC SINGULAR UINT32 16 4 0 2;
   X STATIC SINGULAR UINT32 20 4 0 3; X CALLBACK SINGULAR STRING 24 16 0 4].
Definition MemoryArea_FIELDLIST : list field :=
  [X STATIC SINGULAR UINT64 0 8 0 1; X STATIC SINGULAR UINT64 8 8 0 2].
Definition Status_FIELDLIST : list field :=
  [X STATIC SINGULAR UINT64 0 8 0 1; X STATIC OPTIONAL MESSAGE 16 16 8 2;
   X STATIC OPTIONAL MESSAGE 40 16 8 3; X CALLBACK REPEATED MESSAGE 56 16 0 4;
   X CALLBACK REPEATED MESSAGE 72 16 0 5; X CALLBACK REPEATED MESSAGE 88 16 0 6;
   X CALLBACK REPEATED MESSAGE 104 16 0 7].

Definition descs (p : Z) : option pb_msgdesc :=
  if p =? Interrupt_fields then Some (PB_BIND Interrupt_FIELDLIST [] None true)
  else if p =? PE_fields then
    Some (PB_BIND PE_FIELDLIST [MemoryArea_fields; Platform_fields; Interrupt_fields] None true)
  else if p =? Platform_fields then Some (PB_BIND Platform_FIELDLIST [Interrupt_fields] None true)
  else if p =? Clock_fields then Some (PB_BIND Clock_FIELDLIST [] None true)
  else if p =? Version_fields then Some (PB_BIND Version_FIELDLIST [] None true)
  else if p =? MemoryArea_fields then Some (PB_BIND MemoryArea_FIELDLIST [] None false)
  else if p =? Status_fields then
    Some (PB_BIND Status_FIELDLIST
      [MemoryArea_fields; MemoryArea_fields; PE_fields; Platform_fields; Clock_fields; Version_fields]
      None true)
  else None.

(** ** tlkm_status.c *)

Definition TLKM_COMPONENT_MAX : nat := 16.
Definition TLKM_COMPONENTS_NAME_MAX : nat := 32.

(** sizes of the structs and offsets of members *)
Definition COMPONENT_SIZE : Z := 48.
Definition STATUS_SIZE : Z := 120.
Definition PLATFORM_SIZE : Z := 48.

(** Addresses: dev->status, dev->components, the local variables
    add_component_helper and plat, and the code of the callbacks. *)
Definition STA : Z := 1000.
Definition COMPONENTS : Z := 2000.
Definition HELP : Z := 4000.
Definition PLAT : Z := 5000.
Definition PARSE_STRING : Z := 16.
Definition ADD_COMPONENT : Z := 32.

Definition component_at (i : Z) : Z := COMPONENTS + COMPONENT_SIZE * i.

(** The result of pb_read is ignored. *)
Definition parse_string : callback_fn := fun _ field arg =>
  s ← get;
  let bytes_to_read := if bytes_left s <? 31 then bytes_left s else 31 in
  dest ← load_int arg 8;
  _ ← memset0 dest 32;
  '(_, s') ← on_stream s (pb_read_to dest bytes_to_read);
  put s'.

(** The entry takes the numbers of plat, and the counter is incremented. *)
Definition store_component (help c : Z) : DI unit :=
  offset ← load_int (PLAT + 16) 8;
  _ ← store_int (c + 32) 8 offset;
  size ← load_int (PLAT + 24) 8;
  _ ← store_int (c + 40) 8 size;
  cntr ← load_int (help + 8) 4;
  store_int (help + 8) 4 (cntr + 1).

(** help->dev is the device, of which only the components are modelled. *)
Definition add_component : callback_fn := fun pb_decode_ex field arg =>
  _ ← memset0 PLAT PLATFORM_SIZE;
  help ← load_int arg 8;
  dev ← load_int help 8;
  cntr ← load_int (help + 8) 4;
  let c := dev + COMPONENT_SIZE * cntr in
  _ ← store_int PLAT 8 PARSE_STRING;
  _ ← store_int (PLAT + 8) 8 c;
  s ← get;
  '(ret, s') ← on_stream s (pb_decode_ex Platform_fields PLAT 0);
  _ ← put s';
  _ ← store_component help c;
  match ret with Some _ => mret tt | None => fails end.

Definition decode_fn (p : Z) : option callback_fn :=
  if p =? PARSE_STRING then Some parse_string
  else if p =? ADD_COMPONENT then Some add_component else None.

(** for (i = 0; i < TLKM_COMPONENT_MAX; i += 1) *)
Fixpoint reset_components (n : nat) (i : Z) : D unit unit :=
  match n with
  | O => mret tt
  | S n =>
      _ ← memset0 (component_at i) 32;
      _ ← store_int (component_at i + 32) 8 (-1);
      reset_components n (i + 1)
  end.

(** A Status contains messages that contain no messages that are decoded: two levels,
    and one more for the defaults. *)
Definition decode_fuel : nat := 3.

(** The helper of add_component, the reset of the table, and dev->status with the
    callback for Platform messages. *)
Definition prepare : D unit unit :=
  _ ← store_int HELP 8 COMPONENTS;
  _ ← store_int (HELP + 8) 4 0;
  _ ← reset_components TLKM_COMPONENT_MAX 0;
  _ ← memset0 STA STATUS_SIZE;
  _ ← store_int (STA + 72) 8 ADD_COMPONENT;
  store_int (STA + 80) 8 HELP.

Definition status_init (status_core : list Z) : D unit Z :=
  _ ← prepare;
  let stream := pb_istream_from_buffer status_core (Z.of_nat (length status_core)) in
  '(parse_status, _) ← on_stream stream
    (pb_decode_delimited descs decode_fn (fun _ => None) 0 decode_fuel Status_fields STA);
  match parse_status with Some _ => mret 0 | None => mret (- ENOSPC) end.

(** ** The objects as records *)

Record component := mk_component { name : list Z; offset : Z; csize : Z }.
Record tlkm_status := mk_status {
  arch_base : Z; arch_size : Z; platform_base : Z; platform_size : Z }.
Definition status_zero : tlkm_status := mk_status 0 0 0 0.

Definition component_bytes (c : component) : list Z :=
  take 32 (name c ++ replicate 32 0) ++ bytes_of 8 (offset c) ++ bytes_of 8 (csize c).

(** The memory tlkm_status_init works on. *)
Definition status_memory (components : list component) : mem :=
  alloc_bytes (alloc_bytes (alloc_bytes (alloc_bytes ∅
    PLAT (replicate (Z.to_nat PLATFORM_SIZE) 0))
    HELP (replicate 12 0))
    COMPONENTS (concat (map component_bytes components)))
    STA (replicate (Z.to_nat STATUS_SIZE) 0).

Definition read_component (m : mem) (i : Z) : option component :=
  n ← load_bytes m (component_at i) 32;
  o ← load_bytes m (component_at i + 32) 8;
  s ← load_bytes m (component_at i + 40) 8;
  Some (mk_component n (value_of o) (value_of s)).

Definition read_components (m : mem) (n : nat) : option (list component) :=
  mapM (read_component m) (map Z.of_nat (seq 0 n)).

Definition read_status (m : mem) : option tlkm_status :=
  ab ← load_bytes m (STA + 16) 8;
  az ← load_bytes m (STA + 24) 8;
  pb ← load_bytes m (STA + 40) 8;
  pz ← load_bytes m (STA + 48) 8;
  Some (mk_status (value_of ab) (value_of az) (value_of pb) (value_of pz)).

(** tlkm_status_init: the result, dev->status and dev->components; [None] is undefined
    behaviour. *)
Definition tlkm_status_init (status_core : list Z) (components : list component)
    : option (Z * tlkm_status * list component) :=
  match status_init status_core tt (status_memory components) with
  | Ret ret _ m => sta ← read_status m; table ← read_components m (length components); Some (ret, sta, table)
  | _ => None
  end.

#[global] Arguments tlkm_status_init : simpl never.

End StatusCore.
