(* ===== verification/StatusRefine.v ===== *)
(** * What the status core says, and that the driver reads it

    The specification decodes the messages of the status core into records, without
    memory: a Status with its register spaces, and for each Platform message the
    component it describes.  The theorem relates it to the code, for every content of
    the core. *)
From S2P Require Import Prelude.
From S2P Require Export PbRefine StatusCore.

Module StatusRefine.
Export PbRefine StatusCore.

(** ** Specification *)

(** A 64-bit number: [set] puts it into the state. *)
Definition spec_uint64 {A} (set : Z -> A -> A) (a : A) (s : pb_istream) : A * option pb_istream :=
  match rd pb_decode_varint s with
  | Some (v, s') => (set v a, Some s')
  | None => (a, None)
  end.

Definition spec_skip {A} (wire_type : Z) (a : A) (s : pb_istream) : A * option pb_istream :=
  (a, snd <$> rd (pb_skip_field wire_type) s).

(** A field for which no callback is set. *)
Definition spec_ignored {A} (wire_type : Z) (a : A) (s : pb_istream) : A * option pb_istream :=
  spec_callback (fun a s => (a, Some s)) wire_type a s.

(** MemoryArea: base and size *)
Definition area_step (wire_type t : Z) (a : Z * Z) (s : pb_istream) : (Z * Z) * option pb_istream :=
  if t =? 1 then spec_uint64 (fun v a => (v, a.2)) a s
  else if t =? 2 then spec_uint64 (fun v a => (a.1, v)) a s
  else spec_skip wire_type a s.

(** parse_string: the name is what the last call leaves. *)
Definition spec_name (c : component) (s : pb_istream) : component * option pb_istream :=
  let n := Z.to_nat (Z.min (bytes_left s) 31) in
  (mk_component (take n (state s) ++ replicate (32 - n) 0) (offset c) (csize c),
   Some (mk_istream (drop n (state s)) (bytes_left s - Z.of_nat n) (errmsg s))).

Definition platform_step (wire_type t : Z) (c : component) (s : pb_istream) : component * option pb_istream :=
  if t =? 1 then spec_callback spec_name wire_type c s
  else if t =? 2 then spec_uint64 (fun v c => mk_component (name c) v (csize c)) c s
  else if t =? 3 then spec_uint64 (fun v c => mk_component (name c) (offset c) v) c s
  else if t =? 4 then spec_ignored wire_type c s
  else spec_skip wire_type c s.

Definition blank : component := mk_component (replicate 32 0) 0 0.

(** dev->status and the components so far *)
Record status_state := mk_sstate {
  timestamp : Z; has_arch : bool; arch : Z * Z; has_platform : bool; platform : Z * Z;
  found : list component }.

Definition set_arch (p : Z * Z) (a : status_state) : status_state :=
  mk_sstate (timestamp a) (has_arch a) p (has_platform a) (platform a) (found a).
Definition set_platform (p : Z * Z) (a : status_state) : status_state :=
  mk_sstate (timestamp a) (has_arch a) (arch a) (has_platform a) p (found a).
Definition with_arch (a : status_state) : status_state :=
  mk_sstate (timestamp a) true (arch a) (has_platform a) (platform a) (found a).
Definition with_platform (a : status_state) : status_state :=
  mk_sstate (timestamp a) (has_arch a) (arch a) true (platform a) (found a).

Definition spec_arch (a : status_state) (s : pb_istream) : status_state * option pb_istream :=
  let (p, r) := spec_message area_step (arch a) s in (set_arch p a, r).
Definition spec_platform (a : status_state) (s : pb_istream) : status_state * option pb_istream :=
  let (p, r) := spec_message area_step (platform a) s in (set_platform p a, r).

(** add_component: an entry is taken even if the message is broken. *)
Definition spec_component (a : status_state) (s : pb_istream) : status_state * option pb_istream :=
  let (c, r) := spec_message platform_step blank s in
  (mk_sstate (timestamp a) (has_arch a) (arch a) (has_platform a) (platform a) (found a ++ [c]), r).

Definition status_step (wire_type t : Z) (a : status_state) (s : pb_istream)
    : status_state * option pb_istream :=
  if t =? 1 then spec_uint64 (fun v a => mk_sstate v (has_arch a) (arch a) (has_platform a) (platform a) (found a)) a s
  else if t =? 2 then spec_delimited spec_arch (with_arch a) s
  else if t =? 3 then spec_delimited spec_platform (with_platform a) s
  else if (t =? 4) || (t =? 6) || (t =? 7) then spec_ignored wire_type a s
  else if t =? 5 then spec_callback spec_component wire_type a s
  else spec_skip wire_type a s.

Definition no_status : status_state := mk_sstate 0 false (0, 0) false (0, 0) [].

(** The whole core: a length and a Status. *)
Definition status_spec (status_core : list Z) : status_state * bool :=
  let s := pb_istream_from_buffer status_core (Z.of_nat (length status_core)) in
  let (a, r) := spec_delimited (fun a s => spec_message status_step a s) no_status s in
  (a, match r with Some _ => true | None => false end).

(** ** Descriptors are well-formed *)

Ltac wf_fields :=
  split; [repeat constructor; vm_compute; intuition discriminate
         |repeat constructor; vm_compute; discriminate
         |repeat constructor; vm_compute; discriminate|vm_compute; reflexivity|vm_compute; lia].

Lemma area_wf : wf_fields MemoryArea_FIELDLIST [].
Proof. wf_fields. Qed.
Lemma platform_wf : wf_fields Platform_FIELDLIST [Interrupt_fields].
Proof. wf_fields. Qed.
Lemma status_wf :
  wf_fields Status_FIELDLIST
    [MemoryArea_fields; MemoryArea_fields; PE_fields; Platform_fields; Clock_fields; Version_fields].
Proof. wf_fields. Qed.

(** ** MemoryArea *)

Notation decode := (pb_decode_ex descs decode_fn (fun _ => None) 0).

Ltac nodup := apply (bool_decide_unpack _); vm_compute; exact I.

(** What decoding a Platform may change: plat, and the name in the table entry at [c]. *)
Definition platform_part (c x : Z) : Prop := within PLAT 48 x \/ within c 32 x.

Definition area_ok (p : Z * Z) : Prop := 0 <= p.1 < 2 ^ 64 /\ 0 <= p.2 < 2 ^ 64.

(** Two numbers at [D], all else as in [m0]. *)
Definition area_mem (m0 : mem) (D : Z) (a : Z * Z) (m : mem) : Prop :=
  holds m D (bytes_of 8 a.1) /\ holds m (D + 8) (bytes_of 8 a.2) /\ area_ok a /\ differs_only (within D 16) m0 m.

(** A cell elsewhere stays. *)
Ltac frame_by H :=
  eapply holds_frame; [exact H| |eassumption];
  let x := fresh in intros x; unfold platform_part, within, PLAT, HELP, STA, COMPONENTS in *;
  rewrite ?length_bytes_of, ?length_replicate by lia; simpl; lia.

Ltac weaken_diff :=
  eapply differs_only_weaken; [|eassumption];
  let x := fresh in intros x; unfold within; simpl; lia.

Lemma uint64_refines {A} (R : A -> mem -> Prop) (W : mem -> Prop) (rec : decoder) (field : pb_field_iter)
    (old : list Z) (set : Z -> A -> A) (a : A) (wt : Z) (s : pb_istream) (m : mem) :
  ftype field = 0x11 -> pSize field = PS_NULL -> data_size field = 8 ->
  holds m (pData field) old -> length old = 8%nat -> stream_ok s -> W m ->
  (forall v m', 0 <= v < 2 ^ 64 -> holds m' (pData field) (bytes_of 8 v) ->
     differs_only (within (pData field) 8) m m' -> R (set v a) m') ->
  dwp (decode_field decode_fn rec wt field) s m
    (returned R (fun it _ => it = field) (spec_uint64 set a s) s) (failed W (spec_uint64 set a s) s).
Proof.
  intros Ht Hp Hd Hh Hl Hs HW HR.
  eapply dwp_mono; [by eapply uint64_field| |].
  - intros it s' m' (-> & v & k & Hrd & Hv & Hh' & Hdf & Hk). split; [done|]. unfold spec_uint64. rewrite Hrd.
    exists (set v a), k. split; [done|]. split; [by apply HR|done].
  - intros s' m' (Hrd & -> & Hf). unfold failed, spec_uint64. by rewrite Hrd.
Qed.

Lemma area_decode (n : nat) (D : Z) (m0 : mem) (a : Z * Z) (s : pb_istream) (m : mem) :
  stream_ok s -> area_mem m0 D a m ->
  dwp (decode (S n) MemoryArea_fields D PB_DECODE_NOINIT) s m
    (returned (area_mem m0 D) (fun _ _ => True) (spec_message area_step a s) s)
    (failed (differs_only (within D 16) m0) (spec_message area_step a s) s).
Proof.
  intros Hs HR. cbn [pb_decode_ex]. unfold decode_ex. apply dwp_bind. unfold dwp at 1. cbn -[dwp mbind pb_decode_inner].
  apply dwp_bind, dwp_ret.
  eapply dwp_mono;
    [eapply (inner_refines descs decode_fn (fun _ => None) 0 (decode n) MemoryArea_FIELDLIST [] None false D
       area_wf ltac:(nodup) ltac:(done) ltac:(repeat constructor; done) ltac:(repeat constructor; done)
       area_step (area_mem m0 D) (differs_only (within D 16) m0) (fun _ => True)); try done|
     by intros [] s' m' (_ & ?)|done].
  - intros wt t a1 s1 Hfind. unfold area_step.
    destruct (Z.eqb_spec t 1) as [->|]; [done|]. destruct (Z.eqb_spec t 2) as [->|]; [done|]. done.
  - intros i f wt a1 s1 m1 Hf Hs1 (Hb & Hz & [Ho1 Ho2] & Hd) _.
    assert (i = 0%nat \/ i = 1%nat) as Hi by (apply lookup_lt_Some in Hf; simpl in Hf; lia).
    destruct Hi as [->| ->]; injection Hf as <-.
    + eapply (uint64_refines _ _ _ _ (bytes_of 8 a1.1)); try done; [by simpl; rewrite Z.add_0_r|].
      simpl. rewrite Z.add_0_r. intros v m' Hv Hh' Hd'. split; [done|]. split; [frame_by Hd'|].
      split; [done|]. eapply differs_only_trans; [done|weaken_diff].
    + eapply (uint64_refines _ _ _ _ (bytes_of 8 a1.2)); try done.
      simpl. intros v m' Hv Hh' Hd'. split; [frame_by Hd'|]. split; [done|].
      split; [done|]. eapply differs_only_trans; [done|weaken_diff].
  - by intros a1 m1 (_ & _ & _ & ?).
Qed.

(** ** Platform *)

Notation set_defaults := (pb_message_set_to_defaults descs decode_fn 0).

Definition platform_mem (m0 : mem) (c : Z) (p : component) (m : mem) : Prop :=
  holds m PLAT (bytes_of 8 PARSE_STRING) /\ holds m (PLAT + 8) (bytes_of 8 c) /\
  holds m (PLAT + 16) (bytes_of 8 (offset p)) /\ holds m (PLAT + 24) (bytes_of 8 (csize p)) /\
  holds m (PLAT + 32) (bytes_of 8 0) /\ holds m c (name p) /\ length (name p) = 32%nat /\
  (0 <= offset p < 2 ^ 64 /\ 0 <= csize p < 2 ^ 64) /\ differs_only (platform_part c) m0 m.

(** The table is below plat. *)
Definition entry_ok (c : Z) : Prop := 0 < c /\ c + 48 <= HELP.

Lemma within_platform (c a n x : Z) :
  PLAT <= a -> a + n <= PLAT + 48 -> within a n x -> platform_part c x.
Proof. unfold platform_part, within. lia. Qed.

Lemma name_refines (rec : decoder) (m0 : mem) (c : Z) (field : pb_field_iter) (p : component) (s : pb_istream) (m : mem) :
  entry_ok c -> data_size field = CALLBACK_SIZE -> pData field = PLAT ->
  stream_ok s -> platform_mem m0 c p m ->
  dwp (pb_default_field_callback decode_fn rec field) s m
    (returned (platform_mem m0 c) (fun _ _ => True) (spec_name p s) s)
    (failed (differs_only (platform_part c) m0) (spec_name p s) s).
Proof.
  intros [Hc0 Hc] Hd Hp Hs (H0 & H8 & H16 & H24 & H32 & Hn & Hl & Hr & Hdf).
  unfold HELP in Hc. unfold pb_default_field_callback. rewrite Hd, Hp. cbn -[dwp mbind load_int].
  apply dwp_bind. eapply dwp_load_int_cell; [done|done|done|]. cbn -[dwp mbind load_int parse_string].
  unfold parse_string. apply dwp_bind. unfold get, dwp at 1.
  set (n := Z.to_nat (Z.min (bytes_left s) 31)).
  replace (if bytes_left s <? 31 then bytes_left s else 31) with (Z.of_nat n)
    by (destruct Hs as [? _]; subst n; case_match eqn:Hlt; [apply Z.ltb_lt in Hlt|apply Z.ltb_ge in Hlt]; lia).
  assert (n <= 31)%nat as Hn31 by (subst n; lia).
  assert (Z.of_nat n <= bytes_left s) as Hnb by (subst n; destruct Hs as [? _]; lia).
  apply dwp_bind. eapply dwp_load_int_cell; [done|lia|split; unfold PLAT in *; lia|].
  apply dwp_bind. eapply dwp_store_cell; [done|by rewrite length_replicate, Hl|]. rewrite Hl.
  intros m1 Hz D1. change (Z.to_nat 32) with 32%nat in Hz.
  replace 32%nat with (n + (32 - n))%nat in Hz by lia. rewrite replicate_add in Hz.
  apply holds_app in Hz as [Hz1 Hz2]. rewrite length_replicate in Hz2.
  apply dwp_bind, dwp_on_stream. unfold pb_read_to. apply dwp_bind. unfold dwp at 1. rewrite pb_read_ok by (done || lia). rewrite Nat2Z.id.
  assert (length (take n (state s)) = n) as Htk by (rewrite length_take; destruct Hs as [? _]; lia).
  eapply dwp_store_cell; [exact Hz1|by rewrite length_replicate|]. rewrite length_replicate.
  intros m2 Hz3 D2. unfold put, dwp. split; [done|]. unfold spec_name. fold n.
  eexists _, n. split; [done|]. split.
  2: { destruct Hs as [? _]. unfold adv_by. simpl. repeat split; lia. }
  assert (differs_only (within c 32) m m2) as D3.
  { eapply differs_only_trans; [done|]. eapply differs_only_weaken; [|exact D2]. intros x. unfold within. lia. }
  unfold platform_mem. simpl. split_and!; try (by apply Hr); try frame_by D3.
  - apply holds_app. split; [done|]. rewrite Htk.
    eapply holds_frame; [exact D2| |done]. intros x. unfold within. lia.
  - rewrite length_app, length_replicate, Htk. lia.
  - eapply differs_only_trans; [done|]. eapply differs_only_weaken; [|exact D3]. intros x. by right.
Qed.

Lemma platform_inner (rec : decoder) (m0 : mem) (c : Z) (p : component) (s : pb_istream) (m : mem) :
  entry_ok c -> stream_ok s -> platform_mem m0 c p m ->
  dwp (pb_decode_inner descs decode_fn (fun _ => None) 0 rec
         (PB_BIND Platform_FIELDLIST [Interrupt_fields] None true) PLAT 0) s m
    (returned (platform_mem m0 c) (fun _ s' => bytes_left s' = 0) (spec_message platform_step p s) s)
    (failed (differs_only (platform_part c) m0) (spec_message platform_step p s) s).
Proof.
  intros Hc Hs HR.
  assert (forall p m, platform_mem m0 c p m -> differs_only (platform_part c) m0 m) as HRW.
  { by intros p1 m1 (_ & _ & _ & _ & _ & _ & _ & _ & ?). }
  apply (inner_refines descs decode_fn (fun _ => None) 0 rec Platform_FIELDLIST [Interrupt_fields] None true PLAT
       platform_wf ltac:(nodup) ltac:(done) ltac:(repeat constructor; done) ltac:(repeat constructor; done)
       platform_step (platform_mem m0 c) (differs_only (platform_part c) m0) (fun _ => True)); try done.
  - intros wt t a1 s1 Hfind. unfold platform_step.
    destruct (Z.eqb_spec t 1) as [->|]; [done|]. destruct (Z.eqb_spec t 2) as [->|]; [done|].
    destruct (Z.eqb_spec t 3) as [->|]; [done|]. by destruct (Z.eqb_spec t 4) as [->|].
  - intros i f wt a1 s1 m1 Hf Hs1 HR1 _. pose proof Hc as [Hc0 Hc1].
    pose proof HR1 as (H0 & H8 & H16 & H24 & H32 & Hn & Hl & Hr & Hdf).
    assert (i = 0 \/ i = 1 \/ i = 2 \/ i = 3)%nat as Hi by (apply lookup_lt_Some in Hf; simpl in Hf; lia).
    destruct Hi as [->|[->|[->| ->]]]; injection Hf as <-.
    + unfold decode_field. cbn -[dwp mbind decode_callback_field iter_at spec_callback]. apply dwp_bind.
      eapply dwp_mono; [eapply (callback_field_refines _ _ (platform_mem m0 c) (differs_only (platform_part c) m0)
        (fun _ => True) HRW _ spec_name); try done|by intros [] s' m' [_ ?]|done].
      intros a2 s2 m2 Hs2 HR2 _. by apply name_refines.
    + eapply (uint64_refines _ _ _ _ (bytes_of 8 (offset a1))); try done.
      simpl. intros v m' Hv Hh' Hd'. unfold platform_mem. split_and!; simpl; try done; try apply Hr; try apply Hv; try frame_by Hd'.
      eapply differs_only_trans; [done|]. eapply differs_only_weaken; [|exact Hd'].
      intros x. apply within_platform; unfold PLAT; lia.
    + eapply (uint64_refines _ _ _ _ (bytes_of 8 (csize a1))); try done.
      simpl. intros v m' Hv Hh' Hd'. unfold platform_mem. split_and!; simpl; try done; try apply Hr; try apply Hv; try frame_by Hd'.
      eapply differs_only_trans; [done|]. eapply differs_only_weaken; [|exact Hd'].
      intros x. apply within_platform; unfold PLAT; lia.
    + unfold decode_field. cbn -[dwp mbind decode_callback_field iter_at spec_callback]. apply dwp_bind.
      eapply dwp_mono; [eapply (callback_field_refines _ _ (platform_mem m0 c) (differs_only (platform_part c) m0)
        (fun _ => True) HRW _ (fun a s => (a, Some s))); try done|by intros [] s' m' [_ ?]|done].
      intros a2 s2 m2 Hs2 HR2 _. apply null_callback; [done|by apply HR2|done..].
Qed.

(** The defaults clear the numbers and leave the callbacks. *)
Lemma platform_defaults (n : nat) (rec : decoder) (o z : list Z) (s : pb_istream) (m : mem) :
  holds m (PLAT + 16) o -> holds m (PLAT + 24) z -> length o = 8%nat -> length z = 8%nat ->
  dwp (set_defaults rec (S n)
         (iter_at Platform_FIELDLIST [Interrupt_fields] None true PLAT 0 (X CALLBACK SINGULAR STRING 0 16 0 1))) s m
    (fun _ s' m' => s' = s /\ holds m' (PLAT + 16) (bytes_of 8 0) /\ holds m' (PLAT + 24) (bytes_of 8 0) /\
       differs_only (within (PLAT + 16) 16) m m') (fun _ _ => False).
Proof.
  intros Ho Hz Lo Lz. cbn [pb_message_set_to_defaults]. cbn -[dwp defaults_loop iter_at].
  change (Pos.to_nat 4) with 4%nat.
  eapply (defaults_step _ _ _ _ _ _ _ _ _ platform_wf 3 0); [done|reflexivity|]. apply dwp_ret. split; [done|].
  eapply (defaults_step _ _ _ _ _ _ _ _ _ platform_wf 2 1); [done|reflexivity|].
  apply dwp_bind, dwp_ret. apply dwp_bind. eapply (dwp_store_cell _ o); [done|by rewrite Lo|]. rewrite Lo.
  intros m1 H1 D1. apply dwp_ret. split; [done|].
  eapply (defaults_step _ _ _ _ _ _ _ _ _ platform_wf 1 2); [done|reflexivity|].
  apply dwp_bind, dwp_ret. apply dwp_bind. eapply (dwp_store_cell _ z); [frame_by D1|by rewrite Lz|]. rewrite Lz.
  intros m2 H2 D2. apply dwp_ret. split; [done|].
  eapply (defaults_step _ _ _ _ _ _ _ _ _ platform_wf 0 3); [done|reflexivity|]. apply dwp_ret. split; [done|].
  simpl. split; [done|]. split; [frame_by D2|]. split; [done|].
  eapply differs_only_trans; (eapply differs_only_weaken; [|eassumption]); intros x; unfold within; simpl; lia.
Qed.

(** Decoding into plat, with the name going to the entry at [c]. *)
Lemma platform_decode (n : nat) (c : Z) (o z : list Z) (s : pb_istream) (m : mem) :
  entry_ok c -> stream_ok s ->
  holds m PLAT (bytes_of 8 PARSE_STRING) -> holds m (PLAT + 8) (bytes_of 8 c) ->
  holds m (PLAT + 16) o -> holds m (PLAT + 24) z -> length o = 8%nat -> length z = 8%nat ->
  holds m (PLAT + 32) (bytes_of 8 0) -> holds m c (replicate 32 0) ->
  dwp (decode (S n) Platform_fields PLAT 0) s m
    (returned (platform_mem m c) (fun _ s' => bytes_left s' = 0) (spec_message platform_step blank s) s)
    (failed (differs_only (platform_part c) m) (spec_message platform_step blank s) s).
Proof.
  intros Hc Hs H0 H8 H16 H24 Lo Lz H32 Hn. pose proof Hc as [Hc0 Hc1]. cbn [pb_decode_ex].
  unfold decode_ex. apply dwp_bind. unfold dwp at 1. cbn -[dwp mbind pb_decode_inner set_defaults].
  apply dwp_bind. apply dwp_bind. unfold dwp at 1.
  rewrite (begin_at _ _ _ _ platform_wf _ (X CALLBACK SINGULAR STRING 0 16 0 1)) by done.
  apply dwp_bind. unfold get, dwp at 1. apply dwp_bind, dwp_on_stream.
  eapply dwp_mono; [by eapply platform_defaults| |done].
  intros [] s' m1 (-> & Ho & Hz & D1). apply dwp_ret.
  apply platform_inner; [done|done|]. unfold platform_mem, blank. simpl.
  split_and!; try done; try frame_by D1.
  eapply differs_only_weaken; [|exact D1]. intros x. apply within_platform; unfold PLAT; lia.
Qed.

(** ** Status *)

(** An entry of the table *)
Definition entry_bytes (c : component) : list Z := name c ++ bytes_of 8 (offset c) ++ bytes_of 8 (csize c).
Definition NONE : Z := u64 (-1).
Definition reset (c : component) : component := mk_component (replicate 32 0) NONE (csize c).

Definition entry_wf (c : component) : Prop :=
  length (name c) = 32%nat /\ 0 <= offset c < 2 ^ 64 /\ 0 <= csize c < 2 ^ 64.

Lemma length_entry (c : component) : length (name c) = 32%nat -> length (entry_bytes c) = 48%nat.
Proof. intros H. unfold entry_bytes. by rewrite !length_app, !length_bytes_of, H by lia. Qed.

Lemma entry_cells (m : mem) (c : Z) (p : component) :
  length (name p) = 32%nat ->
  holds m c (entry_bytes p) <->
  holds m c (name p) /\ holds m (c + 32) (bytes_of 8 (offset p)) /\ holds m (c + 40) (bytes_of 8 (csize p)).
Proof.
  intros Hl. unfold entry_bytes. rewrite !holds_app, length_bytes_of, Hl by lia.
  replace (c + Z.of_nat 32 + Z.of_nat (Z.to_nat 8)) with (c + 40) by lia.
  by replace (c + Z.of_nat 32) with (c + 32) by lia.
Qed.

Lemma component_at_ok (k : nat) : (k < 16)%nat -> entry_ok (component_at (Z.of_nat k)).
Proof. intros. unfold entry_ok, component_at, COMPONENTS, COMPONENT_SIZE, HELP. lia. Qed.

(** dev->status, the helper of add_component, and plat *)
Definition sta_mem (a : status_state) (m : mem) : Prop :=
  (holds m STA (bytes_of 8 (timestamp a)) /\
   holds m (STA + 8) (bytes_of 1 (Z.b2z (has_arch a))) /\
   holds m (STA + 16) (bytes_of 8 (arch a).1) /\ holds m (STA + 24) (bytes_of 8 (arch a).2) /\
   holds m (STA + 32) (bytes_of 1 (Z.b2z (has_platform a))) /\
   holds m (STA + 40) (bytes_of 8 (platform a).1) /\ holds m (STA + 48) (bytes_of 8 (platform a).2)) /\
  (holds m (STA + 56) (bytes_of 8 0) /\
   holds m (STA + 72) (bytes_of 8 ADD_COMPONENT) /\ holds m (STA + 80) (bytes_of 8 HELP) /\
   holds m (STA + 88) (bytes_of 8 0) /\ holds m (STA + 104) (bytes_of 8 0)) /\
  (area_ok (arch a) /\ area_ok (platform a)).

Definition help_mem (cs : list component) (m : mem) : Prop :=
  holds m HELP (bytes_of 8 COMPONENTS) /\ holds m (HELP + 8) (bytes_of 4 (Z.of_nat (length cs))).

Definition plat_mem (m : mem) : Prop := mapped m PLAT 48.

Lemma sta_frame (Q : Z -> Prop) (a : status_state) (m m' : mem) :
  differs_only Q m m' -> (forall x, within STA 120 x -> ~ Q x) -> sta_mem a m -> sta_mem a m'.
Proof.
  intros Hd HQ Hs. unfold sta_mem in *. destruct_and!.
  split_and!; try done;
    (eapply holds_frame; [exact Hd| |eassumption]); rewrite length_bytes_of by lia; simpl;
    intros x Hx; apply HQ; unfold within in *; lia.
Qed.

Lemma help_frame (Q : Z -> Prop) (cs : list component) (m m' : mem) :
  differs_only Q m m' -> (forall x, within HELP 12 x -> ~ Q x) -> help_mem cs m -> help_mem cs m'.
Proof.
  intros Hd HQ [H1 H2]. split; (eapply holds_frame; [exact Hd| |eassumption]);
    rewrite length_bytes_of by lia; simpl; intros x Hx; apply HQ; unfold within in *; lia.
Qed.

Lemma same_objects (Q : Z -> Prop) (m0 m m' : mem) :
  differs_only (fun _ => True) m0 m -> differs_only Q m m' -> differs_only (fun _ => True) m0 m'.
Proof. intros H1 H2. eapply differs_only_trans; [done|]. eapply differs_only_weaken; [|exact H2]. done. Qed.

(** ** add_component *)

Lemma store_component_ok (c o z k : Z) (o' z' : list Z) (s : pb_istream) (m : mem) :
  entry_ok c -> 0 <= o < 2 ^ 64 -> 0 <= z < 2 ^ 64 -> 0 <= k < 2 ^ 31 ->
  holds m (PLAT + 16) (bytes_of 8 o) -> holds m (PLAT + 24) (bytes_of 8 z) ->
  holds m (c + 32) o' -> holds m (c + 40) z' -> length o' = 8%nat -> length z' = 8%nat ->
  holds m (HELP + 8) (bytes_of 4 k) ->
  dwp (store_component HELP c) s m
    (fun _ s' m' => s' = s /\ holds m' (c + 32) (bytes_of 8 o) /\ holds m' (c + 40) (bytes_of 8 z) /\
       holds m' (HELP + 8) (bytes_of 4 (k + 1)) /\
       differs_only (fun x => within (c + 32) 16 x \/ within (HELP + 8) 4 x) m m')
    (fun _ _ => False).
Proof.
  intros [Hc0 Hc] Ho Hz Hk H16 H24 Hco Hcz Lo Lz Hh. unfold store_component.
  apply dwp_bind. eapply dwp_load_int_cell; [done|done|done|].
  apply dwp_bind. eapply dwp_store_cell; [exact Hco|by rewrite length_bytes_of, Lo|]. rewrite Lo.
  intros m1 H1 D1.
  apply dwp_bind. eapply dwp_load_int_cell; [frame_by D1|done|done|].
  apply dwp_bind. eapply dwp_store_cell; [frame_by D1|by rewrite length_bytes_of, Lz|]. rewrite Lz.
  intros m2 H2 D2.
  assert (holds m1 (HELP + 8) (bytes_of 4 k)) as Hh1 by frame_by D1.
  assert (holds m2 (HELP + 8) (bytes_of 4 k)) as Hh2 by frame_by D2.
  apply dwp_bind. eapply dwp_load_int_cell; [done|done|lia|].
  eapply dwp_store_cell; [exact Hh2|by rewrite !length_bytes_of|]. rewrite length_bytes_of by lia.
  intros m3 H3 D3. assert (holds m2 (c + 32) (bytes_of 8 o)) by frame_by D2.
  split; [done|]. split; [frame_by D3|]. split; [frame_by D3|]. split; [done|].
  eapply differs_only_trans; [|eapply differs_only_trans];
    (eapply differs_only_weaken; [|eassumption]); intros x; unfold within; simpl; lia.
Qed.

Lemma store_component_safe (c : Z) (s : pb_istream) (m : mem) :
  mapped m (PLAT + 16) 8 -> mapped m (PLAT + 24) 8 -> mapped m (c + 32) 8 -> mapped m (c + 40) 8 ->
  mapped m (HELP + 8) 4 ->
  dwp (store_component HELP c) s m (fun _ s' m' => s' = s /\ differs_only (fun _ => True) m m') (fun _ _ => False).
Proof.
  intros H1 H2 H3 H4 H5. unfold store_component.
  assert (forall a n m', differs_only (fun _ => True) m m' -> mapped m a n -> mapped m' a n) as Hm.
  { intros a n m' Hd. by eapply mapped_differs. }
  apply dwp_bind, dwp_load_int; [lia|done|]. intros o _.
  apply dwp_bind, dwp_store_int; [lia|done|]. intros m1 _ D1.
  assert (differs_only (fun _ => True) m m1) as T1 by (by eapply same_objects).
  apply dwp_bind, dwp_load_int; [lia|auto|]. intros z _.
  apply dwp_bind, dwp_store_int; [lia|auto|]. intros m2 _ D2.
  assert (differs_only (fun _ => True) m m2) as T2 by (by eapply same_objects).
  apply dwp_bind, dwp_load_int; [lia|auto|]. intros k _.
  apply dwp_store_int; [lia|auto|]. intros m3 _ D3. split; [done|]. by eapply same_objects.
Qed.

(** plat with its name callback set. *)
Lemma plat_prepared (c : Z) (m m1 m2 m3 : mem) :
  store_bytes m PLAT (replicate 48 0) = Some m1 ->
  store_bytes m1 PLAT (bytes_of 8 PARSE_STRING) = Some m2 ->
  store_bytes m2 (PLAT + 8) (bytes_of 8 c) = Some m3 ->
  differs_only (within PLAT 8) m1 m2 -> differs_only (within (PLAT + 8) 8) m2 m3 ->
  holds m3 PLAT (bytes_of 8 PARSE_STRING) /\ holds m3 (PLAT + 8) (bytes_of 8 c) /\
  holds m3 (PLAT + 16) (bytes_of 8 0) /\ holds m3 (PLAT + 24) (bytes_of 8 0) /\
  holds m3 (PLAT + 32) (bytes_of 8 0).
Proof.
  intros E1 E2 E3 D2 D3. apply store_load in E1, E2, E3.
  fold (holds m1 PLAT (replicate 48 0)) in E1. fold (holds m2 PLAT (bytes_of 8 PARSE_STRING)) in E2.
  fold (holds m3 (PLAT + 8) (bytes_of 8 c)) in E3.
  change (replicate 48 0) with
    (bytes_of 8 0 ++ bytes_of 8 0 ++ bytes_of 8 0 ++ bytes_of 8 0 ++ bytes_of 8 0 ++ bytes_of 8 0) in E1.
  rewrite !holds_app in E1. change (Z.of_nat (length (bytes_of 8 0))) with 8 in E1.
  destruct E1 as (_ & _ & H16 & H24 & H32 & _).
  change (PLAT + 8 + 8) with (PLAT + 16) in *. change (PLAT + 16 + 8) with (PLAT + 24) in *.
  change (PLAT + 24 + 8) with (PLAT + 32) in *.
  assert (holds m2 (PLAT + 16) (bytes_of 8 0)) by frame_by D2.
  assert (holds m2 (PLAT + 24) (bytes_of 8 0)) by frame_by D2.
  assert (holds m2 (PLAT + 32) (bytes_of 8 0)) by frame_by D2.
  split; [frame_by D3|]. split; [done|]. split_and!; frame_by D3.
Qed.

(** ** The table *)

Section Status.
Context (old : list component) (Hold : length old = TLKM_COMPONENT_MAX).

(** dev->components when [found] have been decoded *)
Definition table (cs : list component) : list component := cs ++ drop (length cs) (map reset old).

Definition table_mem (cs : list component) (m : mem) : Prop :=
  forall i c, table cs !! i = Some c ->
    entry_wf c /\ holds m (component_at (Z.of_nat i)) (entry_bytes c).

(** [m0] is the memory at the start: the objects are still the same. *)
Definition status_mem (m0 : mem) (a : status_state) (m : mem) : Prop :=
  sta_mem a m /\ help_mem (found a) m /\ table_mem (found a) m /\ plat_mem m /\
  differs_only (fun _ => True) m0 m.

Definition at_most_max (a : status_state) : Prop := (length (found a) <= TLKM_COMPONENT_MAX)%nat.

Lemma table_length (cs : list component) : (length cs <= 16)%nat -> length (table cs) = 16%nat.
Proof.
  intros. unfold table. rewrite length_app, length_drop, length_map, Hold. unfold TLKM_COMPONENT_MAX. lia.
Qed.

Lemma table_snoc (cs : list component) (c : component) (i : nat) :
  (length cs < 16)%nat ->
  table (cs ++ [c]) !! i = if decide (i = length cs) then Some c else table cs !! i.
Proof.
  intros Hl. unfold table. rewrite <- (assoc_L (++)), length_app. simpl.
  replace (length cs + 1)%nat with (S (length cs)) by lia. case_decide as E.
  - subst i. by rewrite lookup_app_r, Nat.sub_diag by lia.
  - destruct (decide (i < length cs)%nat).
    + by rewrite !lookup_app_l by lia.
    + rewrite !lookup_app_r by lia. destruct (i - length cs)%nat as [|j] eqn:Ej; [lia|]. simpl.
      rewrite !lookup_drop. f_equal. lia.
Qed.

Lemma table_fresh (cs : list component) :
  (length cs < 16)%nat -> exists c, table cs !! length cs = Some c /\ name c = replicate 32 0.
Proof.
  intros Hl. unfold table. rewrite lookup_app_r, Nat.sub_diag, lookup_drop, Nat.add_0_r by lia.
  destruct (lookup_lt_is_Some_2 old (length cs)) as [c Hc]; [by rewrite Hold|].
  exists (reset c). split; [|done]. by rewrite list_lookup_fmap, Hc.
Qed.

Lemma table_lt (cs : list component) (i : nat) (c : component) :
  (length cs <= 16)%nat -> table cs !! i = Some c -> (i < 16)%nat.
Proof. intros H Hc. apply lookup_lt_Some in Hc. by rewrite table_length in Hc. Qed.

(** ** Parts of memory that are not touched *)
Lemma cells_frame (Q : Z -> Prop) (cs : list component) (m m' : mem) :
  differs_only Q m m' -> (length cs <= 16)%nat -> (forall x, within COMPONENTS 768 x -> ~ Q x) ->
  table_mem cs m -> table_mem cs m'.
Proof.
  intros Hd Hl HQ Ht i c Hc. destruct (Ht i c Hc) as [Hn Hh]. split; [done|].
  pose proof (table_lt _ _ _ Hl Hc). eapply holds_frame; [exact Hd| |done].
  rewrite length_entry by apply Hn. intros x Hx. apply HQ. unfold within, component_at, COMPONENT_SIZE in *. lia.
Qed.

(** Filling entry [length cs]. *)
Lemma table_fill (cs : list component) (p : component) (m m' : mem) (Q : Z -> Prop) :
  (length cs < 16)%nat -> table_mem cs m -> differs_only Q m m' ->
  (forall x, Q x -> within COMPONENTS 768 x -> within (component_at (Z.of_nat (length cs))) 48 x) ->
  entry_wf p -> holds m' (component_at (Z.of_nat (length cs))) (entry_bytes p) ->
  table_mem (cs ++ [p]) m'.
Proof.
  intros Hl Ht Hd HQ Hn Hh i c. rewrite table_snoc by done. case_decide as E.
  - subst i. by intros [= <-].
  - intros Hc. destruct (Ht i c Hc) as [Hnc Hhc]. split; [done|].
    assert (i < 16)%nat by (eapply table_lt; [|done]; lia).
    eapply holds_frame; [exact Hd| |done]. rewrite length_entry by apply Hnc. intros x Hx HQx.
    apply HQ in HQx; unfold within, component_at, COMPONENTS, COMPONENT_SIZE in *; lia.
Qed.

Definition spec_next (a : status_state) (p : component) : status_state :=
  mk_sstate (timestamp a) (has_arch a) (arch a) (has_platform a) (platform a) (found a ++ [p]).

(** The state when plat has been decoded into [p] and the entry is stored. *)
Lemma component_stored (m0 : mem) (a : status_state) (p : component) (s : pb_istream) (m1 m2 m3 : mem) :
  let c := component_at (Z.of_nat (length (found a))) in
  (length (found a) < 16)%nat -> status_mem m0 a m1 ->
  differs_only (within PLAT 48) m1 m2 -> platform_mem m2 c p m3 ->
  dwp (store_component HELP c) s m3
    (fun _ s' m4 => s' = s /\ status_mem m0 (spec_next a p) m4) (fun _ _ => False).
Proof.
  intros c Hl (Hsta & [Hh1 Hh2] & Htab & Hplat & Hobj) D2 (H0 & H8 & H16 & H24 & H32 & Hn & Hln & [Ho Hz] & D3).
  pose proof (component_at_ok _ Hl) as Hok. fold c in Hok. pose proof Hok as [Hc0 Hc1].
  assert (COMPONENTS <= c /\ c + 48 <= COMPONENTS + 768) as Hcr.
  { unfold c, component_at, COMPONENT_SIZE. lia. }
  destruct (table_fresh _ Hl) as (c0 & Hc & Hcn). destruct (Htab _ _ Hc) as [Hlc Hent]. fold c in Hent.
  apply entry_cells in Hent as (_ & Hco & Hcz); [|apply Hlc].
  assert (differs_only (platform_part c) m1 m3) as D13.
  { eapply differs_only_trans; [|exact D3]. eapply differs_only_weaken; [|exact D2]. by left. }
  eapply dwp_mono;
    [eapply (store_component_ok c (offset p) (csize p) (Z.of_nat (length (found a)))); try done;
      [lia|frame_by D13|frame_by D13|by rewrite length_bytes_of..|frame_by D13]| |done].
  intros [] s' m4 (-> & H32' & H40' & Hh2' & D4).
  assert (differs_only (fun x => within PLAT 48 x \/ within c 48 x \/ within (HELP + 8) 4 x) m1 m4) as D14.
  { eapply differs_only_trans; (eapply differs_only_weaken; [|eassumption]);
      intros x; unfold platform_part, within; lia. }
  split; [done|]. split; [|split; [|split; [|split]]].
  - eapply sta_frame in Hsta; [exact Hsta|exact D14|].
    intros x. unfold within, STA, PLAT, HELP, COMPONENTS in *. lia.
  - split; [frame_by D14|]. simpl. rewrite length_app. simpl.
    by replace (Z.of_nat (length (found a) + 1)) with (Z.of_nat (length (found a)) + 1) by lia.
  - eapply table_fill; [done|done|exact D14| |done|].
    + intros x. unfold within, PLAT, HELP, COMPONENTS in *. fold c. lia.
    + apply entry_cells; [done|]. fold c. split; [frame_by D4|]. done.
  - by eapply mapped_differs.
  - by eapply same_objects.
Qed.

Lemma component_failed (m0 m1 m3 : mem) (a : status_state) (c : Z) (s : pb_istream) (Q : Z -> Prop) :
  (length (found a) < 16)%nat -> c = component_at (Z.of_nat (length (found a))) ->
  status_mem m0 a m1 -> differs_only Q m1 m3 ->
  dwp (store_component HELP c) s m3
    (fun _ s' m4 => s' = s /\ differs_only (fun _ => True) m0 m4) (fun _ _ => False).
Proof.
  intros Hl -> (Hsta & [Hh1 Hh2] & Htab & Hplat & Hobj) D.
  destruct (table_fresh _ Hl) as (c0 & Hc & Hcn). destruct (Htab _ _ Hc) as [Hlc Hent].
  apply entry_cells in Hent as (_ & Hco & Hcz); [|apply Hlc].
  assert (forall x n bs, holds m1 x bs -> n = Z.of_nat (length bs) -> mapped m3 x n) as Hm.
  { intros x n bs Hh ->. eapply mapped_differs; [exact D|]. by apply holds_mapped. }
  eapply dwp_mono; [apply store_component_safe| |done].
  - eapply mapped_sub; [by eapply mapped_differs|unfold PLAT; lia..].
  - eapply mapped_sub; [by eapply mapped_differs|unfold PLAT; lia..].
  - by eapply Hm; [exact Hco|rewrite length_bytes_of].
  - by eapply Hm; [exact Hcz|rewrite length_bytes_of].
  - by eapply Hm; [exact Hh2|rewrite length_bytes_of].
  - intros [] s' m4 [-> D4]. split; [done|]. eapply same_objects; [|exact D4]. by eapply same_objects.
Qed.

Lemma component_refines (n : nat) (m0 : mem) (field : pb_field_iter) (a : status_state) (s : pb_istream) (m : mem) :
  data_size field = CALLBACK_SIZE -> pData field = STA + 72 ->
  stream_ok s -> status_mem m0 a m -> at_most_max (spec_component a s).1 ->
  dwp (pb_default_field_callback decode_fn (decode (S n)) field) s m
    (returned (status_mem m0) (fun _ _ => True) (spec_component a s) s)
    (failed (differs_only (fun _ => True) m0) (spec_component a s) s).
Proof.
  intros Hd Hp Hs HR HP. pose proof HR as (Hsta & [Hh1 Hh2] & Htab & Hplat & Hobj).
  pose proof Hsta as (_ & (_ & H72 & H80 & _) & _).
  assert (length (found a) < 16)%nat as Hl.
  { unfold at_most_max, spec_component, TLKM_COMPONENT_MAX in HP. destruct (spec_message platform_step blank s).
    simpl in HP. rewrite length_app in HP. simpl in HP. lia. }
  unfold pb_default_field_callback. rewrite Hd, Hp. cbn -[dwp mbind load_int].
  apply dwp_bind. eapply dwp_load_int_cell; [done|done|done|]. cbn -[dwp mbind load_int add_component].
  set (c := component_at (Z.of_nat (length (found a)))).
  pose proof (component_at_ok _ Hl) as Hok. fold c in Hok. pose proof Hok as [Hc0 Hc1].
  destruct (table_fresh _ Hl) as (c0 & Hc & Hcn). destruct (Htab _ _ Hc) as [Hlc Hent]. fold c in Hent.
  apply entry_cells in Hent as (Hname & _ & _); [|apply Hlc]. rewrite Hcn in Hname.
  unfold add_component. apply dwp_bind. apply dwp_memset0; [done|done|]. intros m1 E1 D1.
  apply dwp_bind. eapply dwp_load_int_cell; [change (STA + 72 + 8) with (STA + 80); frame_by D1|done|done|].
  apply dwp_bind. eapply dwp_load_int_cell; [frame_by D1|done|done|].
  apply dwp_bind. eapply dwp_load_int_cell; [frame_by D1|done|lia|].
  change (COMPONENTS + COMPONENT_SIZE * Z.of_nat (length (found a))) with c.
  assert (mapped m1 PLAT 48) as Hm1 by by eapply mapped_differs.
  apply dwp_bind, dwp_store_int; [lia|by eapply mapped_sub|]. intros m2 E2 D2.
  apply dwp_bind, dwp_store_int; [lia|eapply mapped_sub; [by eapply mapped_differs|lia|lia]|]. intros m3 E3 D3.
  assert (differs_only (within PLAT 48) m m3) as D03.
  { eapply differs_only_trans; [|eapply differs_only_trans];
      (eapply differs_only_weaken; [|eassumption]); intros x; unfold within, PLATFORM_SIZE; lia. }
  destruct (plat_prepared c m m1 m2 m3) as (P0 & P8 & P16 & P24 & P32); [done..|].
  apply dwp_bind. unfold get, dwp at 1. apply dwp_bind, dwp_on_stream.
  eapply dwp_mono; [apply (platform_decode n c _ _ s m3 Hok Hs P0 P8 P16 P24); try done; frame_by D03| |].
  - intros [] s' m4 (Hb & p & k & Hsp & HRp & Hk). apply dwp_bind. unfold put, dwp at 1.
    apply dwp_bind. eapply dwp_mono; [by eapply (component_stored m0 a p _ m m3 m4)| |done].
    intros [] s2 m5 [-> HR']. apply dwp_ret. split; [done|]. unfold spec_component. rewrite Hsp. by exists (spec_next a p), k.
  - intros s' m4 (Hsp & D4 & Hf). apply dwp_bind. unfold put, dwp at 1. apply dwp_bind.
    assert (differs_only (fun _ => True) m m4) as D04.
    { eapply same_objects; [|exact D4]. eapply differs_only_weaken; [|exact D03]. done. }
    eapply dwp_mono; [eapply (component_failed m0 m m4 a c); done| |done].
    intros [] s2 m5 [-> HW]. unfold spec_component. destruct (spec_message platform_step blank s) as [p o]. simpl in Hsp.
    rewrite Hsp. done.
Qed.

(** ** The fields of Status *)

Lemma status_weak (m0 : mem) (a : status_state) (m : mem) :
  status_mem m0 a m -> differs_only (fun _ => True) m0 m.
Proof. by intros (_ & _ & _ & _ & ?). Qed.

(** A change inside the numbers of dev->status leaves the rest. *)
Lemma status_update (m0 : mem) (a a' : status_state) (m m' : mem) (D n : Z) :
  STA <= D -> D + n <= STA + 120 -> status_mem m0 a m -> differs_only (within D n) m m' ->
  found a' = found a -> at_most_max a -> sta_mem a' m' -> status_mem m0 a' m'.
Proof.
  intros H1 H2 (_ & Hh & Ht & Hp & Ho) Hd Hf Hmax Hs. unfold at_most_max, TLKM_COMPONENT_MAX in Hmax.
  split; [done|]. rewrite Hf. split; [|split; [|split]].
  - eapply help_frame; [exact Hd| |done]. intros x. unfold within, STA, HELP in *. lia.
  - eapply cells_frame; [exact Hd|done| |done]. intros x. unfold within, STA, COMPONENTS in *. lia.
  - by eapply mapped_differs.
  - by eapply same_objects.
Qed.

Lemma arch_refines (n : nat) (m0 : mem) (a : status_state) (s : pb_istream) (m : mem) :
  stream_ok s -> status_mem m0 a m -> at_most_max a ->
  dwp (decode (S n) MemoryArea_fields (STA + 16) PB_DECODE_NOINIT) s m
    (returned (status_mem m0) (fun _ _ => True) (spec_arch a s) s)
    (failed (differs_only (fun _ => True) m0) (spec_arch a s) s).
Proof.
  intros Hs HR Hmax. pose proof HR as (((T & h1 & A1 & A2 & h2 & B1 & B2) & (C1 & C2 & C3 & C4 & C5) & Oa & Op) & _ & _ & _ & Ho).
  eapply dwp_mono; [apply (area_decode n (STA + 16) m (arch a)); [done|by split_and!]| |].
  - intros [] s' m' (_ & p & k & Hsp & (Hp1 & Hp2 & Hok & Hd) & Hk). split; [done|].
    unfold spec_arch. rewrite Hsp. exists (set_arch p a), k. split; [done|]. split; [|done].
    eapply (status_update m0 a _ m m' (STA + 16) 16); try done.
    unfold sta_mem. simpl. split_and!; try done; frame_by Hd.
  - intros s' m' (Hsp & Hd & Hf). unfold failed, spec_arch. destruct (spec_message area_step (arch a) s) as [p o].
    simpl in Hsp. rewrite Hsp. split; [done|]. split; [|done]. by eapply same_objects.
Qed.

Lemma platform_area_refines (n : nat) (m0 : mem) (a : status_state) (s : pb_istream) (m : mem) :
  stream_ok s -> status_mem m0 a m -> at_most_max a ->
  dwp (decode (S n) MemoryArea_fields (STA + 40) PB_DECODE_NOINIT) s m
    (returned (status_mem m0) (fun _ _ => True) (spec_platform a s) s)
    (failed (differs_only (fun _ => True) m0) (spec_platform a s) s).
Proof.
  intros Hs HR Hmax. pose proof HR as (((T & h1 & A1 & A2 & h2 & B1 & B2) & (C1 & C2 & C3 & C4 & C5) & Oa & Op) & _ & _ & _ & Ho).
  eapply dwp_mono; [apply (area_decode n (STA + 40) m (platform a)); [done|by split_and!]| |].
  - intros [] s' m' (_ & p & k & Hsp & (Hp1 & Hp2 & Hok & Hd) & Hk). split; [done|].
    unfold spec_platform. rewrite Hsp. exists (set_platform p a), k. split; [done|]. split; [|done].
    eapply (status_update m0 a _ m m' (STA + 40) 16); try done.
    unfold sta_mem. simpl. split_and!; try done; frame_by Hd.
  - intros s' m' (Hsp & Hd & Hf). unfold failed, spec_platform. destruct (spec_message area_step (platform a) s) as [p o].
    simpl in Hsp. rewrite Hsp. split; [done|]. split; [|done]. by eapply same_objects.
Qed.

(** An optional submessage: has_ is set, then the message is decoded. *)
Lemma optional_refines (n : nat) (m0 : mem) (field : pb_field_iter) (h : Z) (g : status_state -> pb_istream -> status_state * option pb_istream)
    (a a' : status_state) (wt : Z) (s : pb_istream) (m : mem) :
  ftype field = 0x17 -> pSize field = PS_ADDR h -> submsg_desc field <> 0 ->
  (forall a s m, stream_ok s -> status_mem m0 a m -> at_most_max (g a s).1 ->
     dwp (decode (S n) (submsg_desc field) (pData field) PB_DECODE_NOINIT) s m
       (returned (status_mem m0) (fun _ _ => True) (g a s) s)
       (failed (differs_only (fun _ => True) m0) (g a s) s)) ->
  stream_ok s -> status_mem m0 a m -> at_most_max (spec_delimited g a' s).1 -> mapped m h 1 ->
  (forall m', holds m' h (bytes_of 1 1) -> differs_only (within h 1) m m' -> status_mem m0 a' m') ->
  dwp (decode_field decode_fn (decode (S n)) wt field) s m
    (returned (status_mem m0) (fun it _ => it = field) (spec_delimited g a' s) s)
    (failed (differs_only (fun _ => True) m0) (spec_delimited g a' s) s).
Proof.
  intros Ht Hp Hsub Hrec Hs HR HP Hm Hset. unfold decode_field, decode_static_field, has_pSize, write_has.
  rewrite Ht, Hp. cbn -[dwp mbind decode_basic_field store_int].
  apply dwp_bind, dwp_bind, dwp_store_int; [lia|done|]. intros m1 E1 D1. apply dwp_ret.
  apply dwp_bind. unfold decode_basic_field. rewrite Ht. cbn -[dwp mbind pb_dec_submessage].
  apply store_load in E1.
  eapply dwp_mono; [apply (submessage_refines _ (status_mem m0) (differs_only (fun _ => True) m0) at_most_max (status_weak m0)); try done| |done].
  - by rewrite Ht.
  - by apply Hset.
  - intros [] s' m' [_ H]. apply dwp_ret. by split.
Qed.

Lemma component_mono (a : status_state) (s : pb_istream) : at_most_max (spec_component a s).1 -> at_most_max a.
Proof.
  unfold spec_component, at_most_max. destruct (spec_message platform_step blank s). simpl.
  rewrite length_app. simpl. lia.
Qed.

Lemma area_mono (a : status_state) (s : pb_istream) :
  (at_most_max (spec_arch a s).1 -> at_most_max a) /\ (at_most_max (spec_platform a s).1 -> at_most_max a).
Proof.
  unfold spec_arch, spec_platform. by destruct (spec_message area_step (arch a) s), (spec_message area_step (platform a) s).
Qed.

Lemma status_mono (wt t : Z) (a : status_state) (s : pb_istream) :
  at_most_max (status_step wt t a s).1 -> at_most_max a.
Proof.
  unfold status_step, spec_uint64, spec_skip, spec_ignored. repeat case_match; try done.
  - intros HP. apply (delimited_mono at_most_max) in HP; [done|]. intros a1 s1. apply area_mono.
  - intros HP. apply (delimited_mono at_most_max) in HP; [done|]. intros a1 s1. apply area_mono.
  - apply spec_callback_mono. done.
  - apply spec_callback_mono. apply component_mono.
Qed.

Lemma ignored_refines (rec : decoder) (m0 : mem) (field : pb_field_iter) (a : status_state) (wt : Z) (s : pb_istream) (m : mem) :
  ftype field = 0x67 -> field_callback (descriptor field) = true -> data_size field = CALLBACK_SIZE ->
  (forall a m, status_mem m0 a m -> holds m (pData field) (bytes_of 8 0)) ->
  stream_ok s -> status_mem m0 a m -> at_most_max (spec_ignored wt a s).1 ->
  dwp (decode_field decode_fn rec wt field) s m
    (returned (status_mem m0) (fun it _ => it = field) (spec_ignored wt a s) s)
    (failed (differs_only (fun _ => True) m0) (spec_ignored wt a s) s).
Proof.
  intros Ht Hcb Hd Hn Hs HR HP. unfold decode_field. rewrite Ht. cbn -[dwp mbind decode_callback_field].
  apply dwp_bind.
  eapply dwp_mono; [eapply (callback_field_refines _ _ (status_mem m0) (differs_only (fun _ => True) m0)
    at_most_max (status_weak m0) _ (fun a s => (a, Some s))); try done| |done].
  - intros a2 s2 m2 Hs2 HR2 _. apply null_callback; [done|by eapply Hn|done..].
  - intros [] s' m' [_ H]. apply dwp_ret. by split.
Qed.

Notation Status_submsgs :=
  [MemoryArea_fields; MemoryArea_fields; PE_fields; Platform_fields; Clock_fields; Version_fields].

Lemma status_field (n : nat) (m0 : mem) (i : nat) (f : field) (wt : Z) (a : status_state) (s : pb_istream) (m : mem) :
  Status_FIELDLIST !! i = Some f -> stream_ok s -> status_mem m0 a m ->
  at_most_max (status_step wt (f_tag f) a s).1 ->
  let it := iter_at Status_FIELDLIST Status_submsgs None true STA i f in
  dwp (decode_field decode_fn (decode (S n)) wt it) s m
    (returned (status_mem m0) (fun it' _ => it' = it) (status_step wt (f_tag f) a s) s)
    (failed (differs_only (fun _ => True) m0) (status_step wt (f_tag f) a s) s).
Proof.
  intros Hf Hs HR HP it. pose proof (status_mono _ _ _ _ HP) as Hmax. subst it.
  pose proof HR as (((T & h1 & A1 & A2 & h2 & B1 & B2) & (C1 & C2 & C3 & C4 & C5) & Oa & Op) & _ & _ & _ & Ho).
  assert (i = 0 \/ i = 1 \/ i = 2 \/ i = 3 \/ i = 4 \/ i = 5 \/ i = 6)%nat as Hi
    by (apply lookup_lt_Some in Hf; simpl in Hf; lia).
  destruct Hi as [->|[->|[->|[->|[->|[->| ->]]]]]]; injection Hf as <-.
  - eapply (uint64_refines _ _ _ _ (bytes_of 8 (timestamp a))); try done.
    simpl. change (STA + 0) with STA. intros v m' Hv Hh' Hd. eapply (status_update m0 a _ m m' STA 8); try done.
    unfold sta_mem. simpl. split_and!; try done; frame_by Hd.
  - eapply (optional_refines n m0 _ (STA + 8) spec_arch a (with_arch a)); try done.
    + intros a1 s1 m1 Hs1 HR1 HP1. apply arch_refines; try done. exact (proj1 (area_mono _ _) HP1).
    + by apply holds_mapped in h1; rewrite length_bytes_of in h1 by lia.
    + intros m' Hh Hd. eapply (status_update m0 a _ m m' (STA + 8) 1); try done.
      unfold sta_mem. simpl. split_and!; try done; frame_by Hd.
  - eapply (optional_refines n m0 _ (STA + 32) spec_platform a (with_platform a)); try done.
    + intros a1 s1 m1 Hs1 HR1 HP1. apply platform_area_refines; try done. exact (proj2 (area_mono _ _) HP1).
    + by apply holds_mapped in h2; rewrite length_bytes_of in h2 by lia.
    + intros m' Hh Hd. eapply (status_update m0 a _ m m' (STA + 32) 1); try done.
      unfold sta_mem. simpl. split_and!; try done; frame_by Hd.
  - apply ignored_refines; try done. by intros a1 m1 ((_ & (? & _) & _) & _).
  - unfold decode_field. cbn -[dwp mbind decode_callback_field iter_at status_step decode].
    apply dwp_bind.
    eapply dwp_mono; [eapply (callback_field_refines _ _ (status_mem m0) (differs_only (fun _ => True) m0)
      at_most_max (status_weak m0) _ spec_component); try done| |done].
    + intros a1 s1 m1 Hs1 HR1 HP1. by apply component_refines.
    + intros a1 s1. apply component_mono.
    + intros [] s' m' [_ H]. apply dwp_ret. by split.
  - apply ignored_refines; try done. by intros a1 m1 ((_ & (_ & _ & _ & ? & _) & _) & _).
  - apply ignored_refines; try done. by intros a1 m1 ((_ & (_ & _ & _ & _ & ?) & _) & _).
Qed.

(** ** The whole message *)

Lemma status_inner (n : nat) (m0 : mem) (flags : Z) (a : status_state) (s : pb_istream) (m : mem) :
  Z.land flags PB_DECODE_NULLTERMINATED = 0 ->
  stream_ok s -> status_mem m0 a m -> at_most_max (spec_message status_step a s).1 ->
  dwp (pb_decode_inner descs decode_fn (fun _ => None) 0 (decode (S n))
         (PB_BIND Status_FIELDLIST Status_submsgs None true) STA flags) s m
    (returned (status_mem m0) (fun _ s' => bytes_left s' = 0) (spec_message status_step a s) s)
    (failed (differs_only (fun _ => True) m0) (spec_message status_step a s) s).
Proof.
  intros Hfl Hs HR HP.
  apply (inner_refines descs decode_fn (fun _ => None) 0 (decode (S n)) Status_FIELDLIST Status_submsgs None true STA
       status_wf ltac:(nodup) ltac:(done) ltac:(repeat constructor; done) ltac:(repeat constructor; done)
       status_step (status_mem m0) (differs_only (fun _ => True) m0) at_most_max); try done.
  - intros wt t a1 s1 Hfind. unfold status_step.
    destruct (Z.eqb_spec t 1) as [->|]; [done|]. destruct (Z.eqb_spec t 2) as [->|]; [done|].
    destruct (Z.eqb_spec t 3) as [->|]; [done|]. destruct (Z.eqb_spec t 4) as [->|]; [done|].
    destruct (Z.eqb_spec t 6) as [->|]; [done|]. destruct (Z.eqb_spec t 7) as [->|]; [done|].
    by destruct (Z.eqb_spec t 5) as [->|].
  - apply status_mono.
  - intros. by apply status_field.
  - apply status_weak.
Qed.

Lemma area_defaults (n : nat) (rec : decoder) (D : Z) (b z : list Z) (s : pb_istream) (m : mem) :
  holds m D b -> holds m (D + 8) z -> length b = 8%nat -> length z = 8%nat ->
  dwp (set_defaults rec (S n) (iter_at MemoryArea_FIELDLIST [] None false D 0 (X STATIC SINGULAR UINT64 0 8 0 1))) s m
    (fun _ s' m' => s' = s /\ holds m' D (bytes_of 8 0) /\ holds m' (D + 8) (bytes_of 8 0) /\
       differs_only (within D 16) m m') (fun _ _ => False).
Proof.
  intros Hb Hz Lb Lz. cbn [pb_message_set_to_defaults]. cbn -[dwp defaults_loop iter_at].
  change (Pos.to_nat 2) with 2%nat.
  eapply (defaults_step _ _ _ _ _ _ _ _ _ area_wf 1 0); [done|reflexivity|].
  apply dwp_bind, dwp_ret. apply dwp_bind. eapply (dwp_store_cell _ b); [by simpl; rewrite Z.add_0_r|by rewrite Lb|].
  rewrite Lb. intros m1 H1 D1. simpl in H1, D1. rewrite Z.add_0_r in H1, D1. apply dwp_ret. split; [done|].
  eapply (defaults_step _ _ _ _ _ _ _ _ _ area_wf 0 1); [done|reflexivity|].
  assert (holds m1 (D + 8) z) as Hz1.
  { eapply holds_frame; [exact D1| |done]. rewrite Lz. intros x. unfold within. lia. }
  apply dwp_bind, dwp_ret. apply dwp_bind. eapply (dwp_store_cell _ z); [done|by rewrite Lz|].
  rewrite Lz. intros m2 H2 D2. apply dwp_ret. split; [done|]. simpl in *.
  split; [done|]. split; [frame_by D2|]. split; [done|].
  eapply differs_only_trans; (eapply differs_only_weaken; [|eassumption]); intros x; unfold within; simpl; lia.
Qed.

(** An optional MemoryArea: has_ is cleared, the numbers are. *)
Lemma area_field_default (n : nat) (rec : decoder) (field : pb_field_iter) (h D : Z) (s : pb_istream) (m : mem) :
  ftype field = 0x17 -> pSize field = PS_ADDR h -> submsg_desc field = MemoryArea_fields -> pData field = D ->
  holds m h (bytes_of 1 0) -> holds m D (bytes_of 8 0) -> holds m (D + 8) (bytes_of 8 0) -> h + 1 <= D ->
  dwp (pb_field_set_to_default descs 0 (set_defaults rec (S n)) field) s m
    (fun it s' m' => it = field /\ s' = s /\ holds m' h (bytes_of 1 0) /\ holds m' D (bytes_of 8 0) /\
       holds m' (D + 8) (bytes_of 8 0) /\ differs_only (within h (D + 16 - h)) m m') (fun _ _ => False).
Proof.
  intros Ht Hp Hsub HD Hh H0 H8 Hlt. unfold pb_field_set_to_default, has_pSize, write_has.
  rewrite Ht, Hp. cbn -[dwp mbind store_int pb_field_iter_begin set_defaults desc_at].
  apply dwp_bind, dwp_bind, dwp_bind. eapply (dwp_store_cell _ (bytes_of 1 0)); [done|done|].
  change (Z.of_nat (length (bytes_of 1 0))) with 1. intros m1 H1 D1. apply dwp_ret, dwp_ret.
  rewrite Hsub, HD. apply dwp_bind. unfold dwp at 1, desc_at. cbn -[dwp mbind pb_field_iter_begin set_defaults].
  apply dwp_bind. unfold dwp at 1.
  rewrite (begin_at _ _ _ _ area_wf _ (X STATIC SINGULAR UINT64 0 8 0 1)) by done.
  apply dwp_bind. eapply dwp_mono; [eapply (area_defaults n rec D (bytes_of 8 0) (bytes_of 8 0)); try done| |done].
  - eapply holds_frame; [exact D1| |done]. intros x. unfold within. lia.
  - eapply holds_frame; [exact D1| |done]. intros x. unfold within. lia.
  - intros [] s' m2 (-> & E0 & E8 & D2). apply dwp_ret. split; [done|]. split; [done|].
    split; [eapply holds_frame; [exact D2| |done]; change (Z.of_nat (length (bytes_of 1 0))) with 1; intros x; unfold within; lia|].
    split; [done|]. split; [done|].
    eapply differs_only_trans; (eapply differs_only_weaken; [|eassumption]); intros x; unfold within; lia.
Qed.

Lemma status_defaults (n : nat) (rec : decoder) (m0 : mem) (s : pb_istream) (m : mem) :
  status_mem m0 no_status m ->
  dwp (set_defaults rec (S (S n))
         (iter_at Status_FIELDLIST Status_submsgs None true STA 0 (X STATIC SINGULAR UINT64 0 8 0 1))) s m
    (fun _ s' m' => s' = s /\ status_mem m0 no_status m') (fun _ _ => False).
Proof.
  intros HR. pose proof HR as (((T & h1 & A1 & A2 & h2 & B1 & B2) & (C1 & C2 & C3 & C4 & C5) & Oa & Op) & _).
  assert (at_most_max no_status) as Hmax by (unfold at_most_max; simpl; lia).
  cbn [pb_message_set_to_defaults].
  change (Z.to_nat (field_count (descriptor (iter_at Status_FIELDLIST Status_submsgs None true STA 0
    (X STATIC SINGULAR UINT64 0 8 0 1))))) with 7%nat.
  eapply (defaults_step _ _ _ _ _ _ _ _ _ status_wf 6 0); [done|reflexivity|].
  apply dwp_bind, dwp_ret. apply dwp_bind. eapply (dwp_store_cell _ (bytes_of 8 0)); [done|done|].
  change (Z.of_nat (length (bytes_of 8 0))) with 8. intros m1 H1 D1. apply dwp_ret. split; [done|].
  assert (status_mem m0 no_status m1) as HR1.
  { eapply (status_update m0 no_status _ m m1 STA 8); try done.
    unfold sta_mem. split_and!; try done; frame_by D1. }
  eapply (defaults_step _ _ _ _ _ _ _ _ _ status_wf 5 1); [done|reflexivity|].
  eapply dwp_mono; [eapply (area_field_default n rec _ (STA + 8) (STA + 16)); try done; by apply HR1| |done].
  intros it s2 m2 (-> & -> & E1 & E2 & E3 & D2). split; [done|].
  assert (status_mem m0 no_status m2) as HR2.
  { eapply (status_update m0 no_status _ m1 m2 (STA + 8) 24); try done.
    clear - HR1 D2 E1 E2 E3. destruct HR1 as (((? & ? & ? & ? & ? & ? & ?) & (? & ? & ? & ? & ?) & ? & ?) & _).
    unfold sta_mem. split_and!; try done; frame_by D2. }
  eapply (defaults_step _ _ _ _ _ _ _ _ _ status_wf 4 2); [done|reflexivity|].
  eapply dwp_mono; [eapply (area_field_default n rec _ (STA + 32) (STA + 40)); try done; by apply HR2| |done].
  intros it s3 m3 (-> & -> & F1 & F2 & F3 & D3). split; [done|].
  assert (status_mem m0 no_status m3) as HR3.
  { eapply (status_update m0 no_status _ m2 m3 (STA + 32) 24); try done.
    clear - HR2 D3 F1 F2 F3. destruct HR2 as (((? & ? & ? & ? & ? & ? & ?) & (? & ? & ? & ? & ?) & ? & ?) & _).
    unfold sta_mem. split_and!; try done; frame_by D3. }
  eapply (defaults_step _ _ _ _ _ _ _ _ _ status_wf 3 3); [done|reflexivity|]. apply dwp_ret. split; [done|].
  eapply (defaults_step _ _ _ _ _ _ _ _ _ status_wf 2 4); [done|reflexivity|]. apply dwp_ret. split; [done|].
  eapply (defaults_step _ _ _ _ _ _ _ _ _ status_wf 1 5); [done|reflexivity|]. apply dwp_ret. split; [done|].
  eapply (defaults_step _ _ _ _ _ _ _ _ _ status_wf 0 6); [done|reflexivity|]. apply dwp_ret. by split.
Qed.

Lemma status_decode (n : nat) (m0 : mem) (s : pb_istream) (m : mem) :
  stream_ok s -> status_mem m0 no_status m ->
  at_most_max (spec_delimited (fun a s => spec_message status_step a s) no_status s).1 ->
  dwp (decode (S (S n)) Status_fields STA PB_DECODE_DELIMITED) s m
    (returned (status_mem m0) (fun _ _ => True)
       (spec_delimited (fun a s => spec_message status_step a s) no_status s) s)
    (failed (differs_only (fun _ => True) m0)
       (spec_delimited (fun a s => spec_message status_step a s) no_status s) s).
Proof.
  intros Hs HR HP. rewrite pb_decode_ex_succ. unfold decode_ex.
  apply dwp_bind. unfold dwp at 1, desc_at. cbn -[dwp mbind pb_decode_inner set_defaults decode].
  apply dwp_bind. apply dwp_bind. unfold dwp at 1.
  rewrite (begin_at _ _ _ _ status_wf _ (X STATIC SINGULAR UINT64 0 8 0 1)) by done.
  apply dwp_bind. unfold get, dwp at 1. apply dwp_bind, dwp_on_stream.
  eapply dwp_mono; [by eapply (status_defaults n _ m0)| |done].
  intros [] s' m1 [-> HR1]. apply dwp_ret.
  apply (delimited_refines (status_mem m0) (differs_only (fun _ => True) m0) at_most_max (status_weak m0)); try done.
  intros sub s1 a m2 Hok HR2 HP2 k Hsp. apply dwp_bind, dwp_on_stream.
  eapply dwp_mono; [by apply (status_inner n m0)| |].
  - intros [] sub' m' (Hb & a' & j & Hg & HR' & Hj). apply dwp_bind. unfold dwp at 1.
    rewrite close_substream_eq by (by eapply adv_ok). apply dwp_ret. by exists a', j, sub'.
  - intros sub' m' (Hg & HW & Hf). apply dwp_bind. by eapply (close_substream_fell k s sub).
Qed.

End Status.
End StatusRefine.
