(* ===== verification/StatusInit.v ===== *)
(** * tlkm_status_init reads the status core (tlkm/tlkm_status.c)

    From the memory the device record is in: the table is reset, the core is decoded,
    and what the records hold then is what the specification says, whatever bytes the
    core has. *)
From S2P Require Import Prelude.
From S2P Require Export StatusRefine.

Module StatusInit.
Export StatusRefine.

Section Init.
Context (old : list component) (Hold : length old = TLKM_COMPONENT_MAX)
  (Hsizes : Forall (fun c => 0 <= csize c < 2 ^ 64) old).

(** ** The objects *)

Lemma length_component_bytes (c : component) : length (component_bytes c) = 48%nat.
Proof.
  unfold component_bytes. rewrite !length_app, length_take, length_app, length_replicate, !length_bytes_of by lia. lia.
Qed.

Lemma holds_alloc_ne (m : mem) (a b : Z) (bs cs : list Z) :
  (forall x, within b (Z.of_nat (length cs)) x -> ~ within a (Z.of_nat (length bs)) x) ->
  holds m b cs -> holds (alloc_bytes m a bs) b cs.
Proof.
  intros Hne Hh. unfold holds in *. rewrite <- Hh. apply load_bytes_agree.
  intros x Hx. apply alloc_lookup_ne. auto.
Qed.

Lemma holds_alloc (m : mem) (a : Z) (bs : list Z) : holds (alloc_bytes m a bs) a bs.
Proof. apply alloc_load. Qed.

Lemma length_table_bytes (l : list component) : length (concat (map component_bytes l)) = (48 * length l)%nat.
Proof. induction l as [|c l IH]; simpl; [done|]. rewrite length_app, length_component_bytes, IH. lia. Qed.

(** The entries of an array. *)
Lemma holds_entry (m : mem) (l : list component) (i : nat) (c : component) (a : Z) :
  holds m a (concat (map component_bytes l)) -> l !! i = Some c ->
  holds m (a + COMPONENT_SIZE * Z.of_nat i) (component_bytes c).
Proof.
  revert i a. induction l as [|e l IH]; intros i a Hh Hi; [done|]. simpl in Hh.
  apply holds_app in Hh as [H1 H2]. rewrite length_component_bytes in H2. destruct i as [|i]; simpl in Hi.
  - injection Hi as <-. by replace (a + _) with a by (unfold COMPONENT_SIZE; lia).
  - replace (a + _) with (a + Z.of_nat 48 + COMPONENT_SIZE * Z.of_nat i) by (unfold COMPONENT_SIZE; lia). by apply IH.
Qed.

Lemma memory_objects :
  holds (status_memory old) STA (replicate 120 0) /\
  holds (status_memory old) HELP (replicate 12 0) /\
  holds (status_memory old) PLAT (replicate 48 0) /\
  (forall i c, old !! i = Some c -> holds (status_memory old) (component_at (Z.of_nat i)) (component_bytes c)).
Proof.
  pose proof (length_table_bytes old) as Hl. rewrite Hold in Hl. unfold TLKM_COMPONENT_MAX in Hl.
  unfold status_memory. change (Z.to_nat STATUS_SIZE) with 120%nat. change (Z.to_nat PLATFORM_SIZE) with 48%nat.
  split; [apply holds_alloc|].
  split; [|split].
  - do 2 (apply holds_alloc_ne;
      [intros x; rewrite ?Hl, ?length_replicate; unfold within, STA, HELP, COMPONENTS; lia|]). apply holds_alloc.
  - do 3 (apply holds_alloc_ne;
      [intros x; rewrite ?Hl, ?length_replicate; unfold within, STA, PLAT, HELP, COMPONENTS; lia|]). apply holds_alloc.
  - intros i c Hi. eapply holds_entry; [|exact Hi].
    apply holds_alloc_ne; [|apply holds_alloc].
    intros x. rewrite Hl, length_replicate. unfold within, STA, COMPONENTS. lia.
Qed.

(** ** The reset of the table *)

(** Entry [j] before and after its reset. *)
Definition resetting (i j : nat) (c : component) (m : mem) : Prop :=
  let a := component_at (Z.of_nat j) in
  holds m (a + 40) (bytes_of 8 (csize c)) /\ mapped m a 40 /\
  ((j < i)%nat -> holds m a (replicate 32 0) /\ holds m (a + 32) (bytes_of 8 NONE)).

Lemma resetting_frame (i j k : nat) (c : component) (m m' : mem) :
  differs_only (within (component_at (Z.of_nat k)) 40) m m' -> j <> k ->
  resetting i j c m -> resetting i j c m'.
Proof.
  intros Hd Hne (H1 & H2 & H3).
  assert (forall x n bs, holds m x bs -> n = Z.of_nat (length bs) ->
            component_at (Z.of_nat j) <= x -> x + n <= component_at (Z.of_nat j) + 48 -> holds m' x bs) as Hf.
  { intros x n bs Hh -> Ha Hb. eapply holds_frame; [exact Hd| |done].
    intros y. unfold within, component_at, COMPONENT_SIZE in *. lia. }
  split; [eapply Hf; [done|by rewrite length_bytes_of|lia|lia]|]. split; [by eapply mapped_differs|].
  intros Hlt. destruct (H3 Hlt) as [H4 H5]. split.
  - eapply Hf; [done|by rewrite length_replicate|lia|lia].
  - eapply Hf; [done|by rewrite length_bytes_of|lia|lia].
Qed.

Lemma reset_one (j : nat) (c : component) (s : unit) (m : mem)
    (Q : unit -> unit -> mem -> Prop) E k :
  resetting j j c m ->
  (forall m', resetting (S j) j c m' -> differs_only (within (component_at (Z.of_nat j)) 40) m m' ->
     dwp (k tt) s m' Q E) ->
  dwp (_ ← memset0 (component_at (Z.of_nat j)) 32;
       _ ← store_int (component_at (Z.of_nat j) + 32) 8 (-1); k tt) s m Q E.
Proof.
  intros (H40 & Hm & _) Hk. set (a := component_at (Z.of_nat j)) in *.
  apply dwp_bind, dwp_memset0; [lia|eapply mapped_sub; [exact Hm|lia..]|]. intros m1 E1 D1.
  apply dwp_bind, dwp_store_int; [lia|eapply mapped_sub; [by eapply mapped_differs|lia..]|]. intros m2 E2 D2.
  apply store_load in E1, E2.
  assert (differs_only (within a 40) m m2) as D12.
  { eapply differs_only_trans; (eapply differs_only_weaken; [|eassumption]); intros x; unfold within; lia. }
  apply Hk; [|done]. split; [frame_by D12|]. split; [by eapply mapped_differs|]. intros _.
  split; [frame_by D2|]. exact E2.
Qed.

Lemma reset_ok (n i : nat) (s : unit) (m : mem) :
  (i + n = length old)%nat -> (forall j c, old !! j = Some c -> resetting i j c m) ->
  dwp (reset_components n (Z.of_nat i)) s m
    (fun _ _ m' => (forall j c, old !! j = Some c -> resetting (length old) j c m') /\
       differs_only (within COMPONENTS 768) m m') (fun _ _ => False).
Proof.
  revert i s m. induction n as [|n IH]; intros i s m Hi Hr; cbn [reset_components].
  { apply dwp_ret. replace (length old) with i by lia. split; [done|apply differs_only_refl]. }
  rewrite Hold in Hi. unfold TLKM_COMPONENT_MAX in Hi.
  destruct (lookup_lt_is_Some_2 old i) as [c Hc]; [rewrite Hold; unfold TLKM_COMPONENT_MAX; lia|].
  apply (reset_one i c s m _ _ (fun _ => reset_components n (Z.of_nat i + 1))); [by apply Hr|].
  intros m1 H1 D1. replace (Z.of_nat i + 1) with (Z.of_nat (S i)) by lia.
  eapply dwp_mono; [apply IH; [rewrite Hold; unfold TLKM_COMPONENT_MAX; lia|]| |done].
  - intros j e He. destruct (decide (j = i)) as [->|Hne].
    + by rewrite Hc in He; injection He as <-.
    + destruct (resetting_frame i j i e m m1 D1 Hne (Hr j e He)) as (Ha & Hb & Hd).
      split; [done|]. split; [done|]. intros Hlt. apply Hd. lia.
  - intros [] [] m2 [Hall D2]. split; [done|]. eapply differs_only_trans; [|exact D2].
    eapply differs_only_weaken; [|exact D1]. intros x. unfold within, component_at, COMPONENT_SIZE. lia.
Qed.

Lemma reset_table (m : mem) :
  (forall j c, old !! j = Some c -> resetting (length old) j c m) -> table_mem old [] m.
Proof.
  intros Hr i c Hc. unfold table in Hc. simpl in Hc. rewrite drop_0, list_lookup_fmap in Hc.
  destruct (old !! i) as [e|] eqn:He; [|done]. injection Hc as <-.
  pose proof (lookup_lt_Some _ _ _ He) as Hi. destruct (Hr i e He) as (H40 & _ & Hd). destruct (Hd Hi) as [H0 H32].
  split.
  - split; [apply length_replicate|]. split; [done|]. exact (Forall_lookup_1 _ _ _ _ Hsizes He).
  - apply (proj2 (entry_cells m (component_at (Z.of_nat i)) (reset e) (length_replicate 32 0))). exact (conj H0 (conj H32 H40)).
Qed.

(** ** The call of the decoder *)

Lemma holds_zeros (m : mem) (a b n k : Z) :
  holds m a (replicate (Z.to_nat n) 0) -> a <= b -> 0 <= k -> b + k <= a + n ->
  holds m b (replicate (Z.to_nat k) 0).
Proof.
  intros Hh Ha Hk Hb. replace (Z.to_nat n) with (Z.to_nat (b - a) + (Z.to_nat k + Z.to_nat (a + n - (b + k))))%nat in Hh by lia.
  rewrite !replicate_add, !holds_app, length_replicate in Hh. destruct Hh as (_ & Hh & _).
  by replace (a + Z.of_nat (Z.to_nat (b - a))) with b in Hh by lia.
Qed.

(** dev->status with the callback set. *)
Lemma sta_prepared (m m1 m2 m3 : mem) :
  store_bytes m STA (replicate 120 0) = Some m1 ->
  store_bytes m1 (STA + 72) (bytes_of 8 ADD_COMPONENT) = Some m2 ->
  store_bytes m2 (STA + 80) (bytes_of 8 HELP) = Some m3 ->
  differs_only (within (STA + 72) 8) m1 m2 -> differs_only (within (STA + 80) 8) m2 m3 ->
  sta_mem no_status m3.
Proof.
  intros E1 E2 E3 D2 D3. apply store_load in E1, E2, E3.
  fold (holds m1 STA (replicate (Z.to_nat 120) 0)) in E1.
  fold (holds m2 (STA + 72) (bytes_of 8 ADD_COMPONENT)) in E2. fold (holds m3 (STA + 80) (bytes_of 8 HELP)) in E3.
  assert (forall x k, STA <= x -> 0 <= k -> x + k <= STA + 72 \/ STA + 88 <= x /\ x + k <= STA + 120 ->
            holds m3 x (replicate (Z.to_nat k) 0)) as Hf.
  { intros x k Hx Hk H. eapply holds_frame; [exact D3|intros y; rewrite length_replicate; unfold within; lia|].
    eapply holds_frame; [exact D2|intros y; rewrite length_replicate; unfold within; lia|].
    apply (holds_zeros m1 STA x 120 k E1); lia. }
  unfold sta_mem. split_and!; try done;
    first [apply (Hf _ 8); lia|apply (Hf _ 1); lia|frame_by D3].
Qed.

Lemma initial_entries (m : mem) :
  differs_only (within HELP 12) (status_memory old) m ->
  forall j c, old !! j = Some c -> resetting 0 j c m.
Proof.
  intros D j c Hc. destruct memory_objects as (_ & _ & _ & Htab). apply Htab in Hc as Hh.
  pose proof (lookup_lt_Some _ _ _ Hc) as Hj. rewrite Hold in Hj. unfold TLKM_COMPONENT_MAX in Hj.
  assert (holds m (component_at (Z.of_nat j)) (component_bytes c)) as Hm.
  { eapply holds_frame; [exact D| |done]. rewrite length_component_bytes. intros x.
    unfold within, component_at, COMPONENTS, COMPONENT_SIZE, HELP. lia. }
  pose proof (holds_mapped _ _ _ Hm) as Hmap. rewrite length_component_bytes in Hmap.
  unfold component_bytes in Hm. rewrite !holds_app, length_take, length_app, length_replicate, length_bytes_of in Hm by lia.
  destruct Hm as (_ & _ & Hm). split; [|split; [eapply mapped_sub; [exact Hmap|lia..]|lia]].
  by replace (component_at (Z.of_nat j) + 40) with
    (component_at (Z.of_nat j) + Z.of_nat (32 `min` (length (name c) + 32)) + Z.of_nat (Z.to_nat 8)) by lia.
Qed.

Lemma prepare_ok :
  dwp prepare tt (status_memory old)
    (fun _ _ m => status_mem old (status_memory old) no_status m) (fun _ _ => False).
Proof.
  destruct memory_objects as (Hsta & Hhelp & Hplat & Htab). unfold prepare.
  pose proof (holds_mapped _ _ _ Hhelp) as Mh. pose proof (holds_mapped _ _ _ Hsta) as Ms.
  pose proof (holds_mapped _ _ _ Hplat) as Mp. rewrite length_replicate in Mh, Ms, Mp.
  apply dwp_bind, dwp_store_int; [lia|eapply mapped_sub; [exact Mh|lia..]|]. intros m1 E1 D1.
  apply dwp_bind, dwp_store_int; [lia|eapply mapped_sub; [eapply mapped_differs; [exact D1|exact Mh]|lia..]|]. intros m2 E2 D2.
  assert (differs_only (within HELP 12) (status_memory old) m2) as D02.
  { eapply differs_only_trans; (eapply differs_only_weaken; [|eassumption]); intros x; unfold within; lia. }
  apply dwp_bind. eapply dwp_mono; [eapply (reset_ok TLKM_COMPONENT_MAX 0);
    [by rewrite Hold|by apply initial_entries]| |done].
  intros [] [] m3 [Hr D3]. pose proof (same_objects _ _ _ _ (differs_only_weaken _ _ _ _ (fun _ _ => I) D02) D3) as D03.
  apply dwp_bind, dwp_memset0; [done|eapply mapped_differs; [exact D03|exact Ms]|]. intros m4 E4 D4.
  pose proof (same_objects _ _ _ _ D03 D4) as D04.
  apply dwp_bind, dwp_store_int; [lia|eapply mapped_sub; [eapply mapped_differs; [exact D04|exact Ms]|lia..]|]. intros m5 E5 D5.
  pose proof (same_objects _ _ _ _ D04 D5) as D05.
  apply dwp_store_int; [lia|eapply mapped_sub; [eapply mapped_differs; [exact D05|exact Ms]|lia..]|]. intros m6 E6 D6.
  assert (differs_only (within STA 120) m3 m6) as D36.
  { eapply differs_only_trans; [|eapply differs_only_trans];
      (eapply differs_only_weaken; [|eassumption]); intros x; unfold within, STATUS_SIZE; lia. }
  split; [by eapply sta_prepared|]. split; [|split; [|split]].
  - eapply help_frame; [exact D36|intros x; unfold within, HELP, STA; lia|].
    eapply help_frame; [exact D3|intros x; unfold within, HELP, COMPONENTS; lia|].
    apply store_load in E1, E2. split; [frame_by D2|exact E2].
  - eapply cells_frame; [exact Hold|exact D36|simpl; lia|intros x; unfold within, COMPONENTS, STA; lia|].
    by apply reset_table.
  - eapply mapped_differs; [|exact Mp]. by eapply same_objects.
  - by eapply same_objects.
Qed.

(** ** tlkm_status_init *)

Definition core_ok (core : list Z) : Prop := Forall is_byte core /\ Z.of_nat (length core) < 2 ^ 64.

Lemma status_init_ok (core : list Z) (a : status_state) (ok : bool) :
  core_ok core -> status_spec core = (a, ok) -> (length (found a) <= TLKM_COMPONENT_MAX)%nat ->
  dwp (status_init core) tt (status_memory old)
    (fun ret _ m => if ok then ret = 0 /\ status_mem old (status_memory old) a m
       else ret = - ENOSPC /\ differs_only (fun _ => True) (status_memory old) m) (fun _ _ => False).
Proof.
  intros [Hb Hlen] Hspec Hmax. unfold status_init. apply dwp_bind.
  eapply dwp_mono; [apply prepare_ok| |done]. intros [] [] m HR.
  set (s := pb_istream_from_buffer core (Z.of_nat (length core))).
  assert (stream_ok s) as Hs by (split; [simpl; lia|by split]).
  unfold status_spec in Hspec. fold s in Hspec.
  destruct (spec_delimited _ no_status s) as [a' r] eqn:Hsp. injection Hspec as -> Hok.
  apply dwp_bind, dwp_on_stream.
  eapply dwp_mono; [apply (status_decode old Hold 1 (status_memory old) s m Hs HR); by rewrite Hsp| |].
  - intros [] s' m' (_ & a2 & k & E & HR' & _). rewrite Hsp in E. injection E as -> ->. apply dwp_ret. by subst ok.
  - intros s' m' (E & HW & _). rewrite Hsp in E. simpl in E. subst r. apply dwp_ret. by subst ok.
Qed.

(** Reading the records back. *)
Lemma read_int (m : mem) (x v : Z) :
  holds m x (bytes_of 8 v) -> 0 <= v < 2 ^ 64 -> exists bs, load_bytes m x 8 = Some bs /\ value_of bs = v.
Proof.
  intros Hh Hv. unfold holds in Hh. rewrite length_bytes_of in Hh by lia. exists (bytes_of 8 v).
  split; [exact Hh|]. by apply value_of_bytes.
Qed.

Lemma read_status_ok (a : status_state) (m : mem) :
  sta_mem a m ->
  read_status m = Some (mk_status (arch a).1 (arch a).2 (platform a).1 (platform a).2).
Proof.
  intros ((_ & _ & A1 & A2 & _ & B1 & B2) & _ & [Oa1 Oa2] & [Op1 Op2]). unfold read_status.
  destruct (read_int _ _ _ A1 Oa1) as (? & -> & <-), (read_int _ _ _ A2 Oa2) as (? & -> & <-),
    (read_int _ _ _ B1 Op1) as (? & -> & <-), (read_int _ _ _ B2 Op2) as (? & -> & <-). done.
Qed.

Lemma read_component_ok (c : component) (i : nat) (m : mem) :
  entry_wf c -> holds m (component_at (Z.of_nat i)) (entry_bytes c) -> read_component m (Z.of_nat i) = Some c.
Proof.
  intros (Hl & Ho & Hz) Hh. apply entry_cells in Hh as (H0 & H32 & H40); [|done]. unfold read_component.
  unfold holds in H0. rewrite Hl in H0. rewrite H0. cbn [mbind option_bind].
  destruct (read_int _ _ _ H32 Ho) as (o & -> & Eo), (read_int _ _ _ H40 Hz) as (z & -> & Ez). simpl.
  rewrite Eo, Ez. by destruct c.
Qed.

Lemma read_components_ok (m : mem) (l : list component) :
  (forall i c, l !! i = Some c -> entry_wf c /\ holds m (component_at (Z.of_nat i)) (entry_bytes c)) ->
  read_components m (length l) = Some l.
Proof.
  intros H. unfold read_components. apply mapM_Some. apply Forall2_same_length_lookup_2.
  { by rewrite length_map, length_seq. }
  intros i x c Hx Hc. apply list_lookup_fmap_Some in Hx as (j & -> & Hj). apply lookup_seq in Hj as [-> _].
  destruct (H i c Hc). by apply read_component_ok.
Qed.

(** A memory with the same objects can be read. *)
Lemma read_total (m : mem) :
  differs_only (fun _ => True) (status_memory old) m ->
  exists sta tab, read_status m = Some sta /\ read_components m (length old) = Some tab /\
    length tab = length old.
Proof.
  intros D. destruct memory_objects as (Hsta & _ & _ & Htab).
  assert (forall x n, STA <= x -> x + Z.of_nat n <= STA + 120 -> exists bs, load_bytes m x n = Some bs) as Hl.
  { intros x n H1 H2. destruct (load_bytes_total m x n) as (bs & E & _); [|by exists bs].
    eapply mapped_sub; [eapply mapped_differs; [exact D|]; by apply holds_mapped in Hsta|lia|].
    rewrite length_replicate. lia. }
  unfold read_status.
  destruct (Hl (STA + 16) 8%nat) as [? ->]; [lia|lia|]. destruct (Hl (STA + 24) 8%nat) as [? ->]; [lia|lia|].
  destruct (Hl (STA + 40) 8%nat) as [? ->]; [lia|lia|]. destruct (Hl (STA + 48) 8%nat) as [? ->]; [lia|lia|].
  simpl. eexists.
  assert (is_Some (read_components m (length old))) as [tab Ht].
  { apply mapM_is_Some_2, Forall_forall. intros y Hy. apply list_elem_of_fmap in Hy as (i & -> & Hi).
    apply elem_of_seq in Hi as [_ Hi]. destruct (lookup_lt_is_Some_2 old i) as [c Hc]; [lia|].
    apply Htab, holds_mapped in Hc. rewrite length_component_bytes in Hc.
    eapply mapped_differs in Hc; [|exact D]. change (is_Some (read_component m (Z.of_nat i))). unfold read_component.
    destruct (load_bytes_total m (component_at (Z.of_nat i)) 32) as (n & -> & _); [eapply mapped_sub; [exact Hc|lia..]|].
    destruct (load_bytes_total m (component_at (Z.of_nat i) + 32) 8) as (o & -> & _); [eapply mapped_sub; [exact Hc|lia..]|].
    destruct (load_bytes_total m (component_at (Z.of_nat i) + 40) 8) as (z & -> & _); [eapply mapped_sub; [exact Hc|lia..]|].
    by eexists. }
  exists tab. split; [done|]. split; [done|].
  unfold read_components in Ht. apply length_mapM in Ht. by rewrite <- Ht, length_map, length_seq.
Qed.

Lemma init_refines (core : list Z) (a : status_state) (ok : bool) :
  core_ok core -> status_spec core = (a, ok) -> (length (found a) <= TLKM_COMPONENT_MAX)%nat ->
  if ok then
    tlkm_status_init core old
    = Some (0, mk_status (arch a).1 (arch a).2 (platform a).1 (platform a).2, table old (found a))
  else exists sta tab, tlkm_status_init core old = Some (- ENOSPC, sta, tab) /\ length tab = TLKM_COMPONENT_MAX.
Proof.
  intros Hc Hspec Hmax. pose proof (status_init_ok core a ok Hc Hspec Hmax) as H. unfold dwp in H.
  unfold tlkm_status_init. destruct (status_init core tt (status_memory old)) as [ret [] m| |]; [|done|done].
  destruct ok; destruct H as [-> H].
  - destruct H as (Hsta & _ & Htab & _). rewrite (read_status_ok a) by done. simpl.
    replace (length old) with (length (table old (found a))) by (by rewrite table_length).
    by rewrite read_components_ok.
  - destruct (read_total m H) as (sta & tab & -> & -> & Hl). simpl. exists sta, tab. by rewrite Hl.
Qed.

End Init.

(** ** Theorem *)

(** C3: Reading the status core refines its specification.  For every sequence of bytes
    as status core for which the specification finds no more components than the table
    has entries, tlkm_status_init with all of nanopb below it stays inside the objects
    it is given and terminates.  When the specification accepts, it returns 0,
    dev->status has the register spaces of the message and dev->components the decoded
    components, with the unused entries reset; else it returns -ENOSPC. *)
Theorem status_init_refines (core : list Z) (old : list component) (a : status_state) (ok : bool) :
  core_ok core -> length old = TLKM_COMPONENT_MAX -> Forall (fun c => 0 <= csize c < 2 ^ 64) old ->
  status_spec core = (a, ok) -> (length (found a) <= TLKM_COMPONENT_MAX)%nat ->
  if ok then
    tlkm_status_init core old
    = Some (0, mk_status (arch a).1 (arch a).2 (platform a).1 (platform a).2, table old (found a))
  else exists sta tab, tlkm_status_init core old = Some (- ENOSPC, sta, tab) /\ length tab = TLKM_COMPONENT_MAX.
Proof. intros. by apply init_refines. Qed.

Definition demo_table : list component := replicate 16 (mk_component [] 0 0).

(** A core that ends in the middle of a component. *)
Lemma status_init_refines_witness :
  exists sta tab, tlkm_status_init [7; 42; 5; 10; 1; 71; 16] demo_table = Some (- ENOSPC, sta, tab) /\
    length tab = TLKM_COMPONENT_MAX.
Proof.
  apply (status_init_refines [7; 42; 5; 10; 1; 71; 16] demo_table
           (status_spec [7; 42; 5; 10; 1; 71; 16]).1 false);
    [by split; [repeat constructor|]|done|by repeat constructor|vm_compute; reflexivity|vm_compute; lia].
Defined.

End StatusInit.
