(* ===== verification/StatusWire.v ===== *)
(** * The status core as the tool flow writes it

    A description of a bitstream and its encoding in the wire format of protobuf.
    The encoded messages of processing elements, clocks and versions are arbitrary,
    the driver skips them.  Proved: decoding the core gives the description back. *)
From S2P Require Import Prelude.
From S2P Require Export PbWire StatusInit.

Module StatusWire.
Export PbWire StatusInit.

(** message Platform *)
Record platform_msg := mk_platform {
  p_name : list Z; p_offset : Z; p_size : Z; p_interrupts : list (list Z) }.

(** message Status *)
Record description := mk_description {
  d_timestamp : Z; d_arch : option (Z * Z); d_platform : option (Z * Z);
  d_pes : list (list Z); d_components : list platform_msg;
  d_clocks : list (list Z); d_versions : list (list Z) }.

Definition encode_area (p : Z * Z) : list Z := uint_field 1 p.1 ++ uint_field 2 p.2.
Definition option_field (tag : Z) (p : option (Z * Z)) : list Z :=
  match p with Some p => bytes_field tag (encode_area p) | None => [] end.

Definition encode_platform (p : platform_msg) : list Z :=
  bytes_field 1 (p_name p) ++ uint_field 2 (p_offset p) ++ uint_field 3 (p_size p) ++
  bytes_fields 4 (p_interrupts p).

Definition encode_status (d : description) : list Z :=
  uint_field 1 (d_timestamp d) ++ option_field 2 (d_arch d) ++ option_field 3 (d_platform d) ++
  bytes_fields 4 (d_pes d) ++ concat (map (fun p => bytes_field 5 (encode_platform p)) (d_components d)) ++
  bytes_fields 6 (d_clocks d) ++ bytes_fields 7 (d_versions d).

(** The core: the length and the message; the memory behind it is arbitrary. *)
Definition encode_core (d : description) : list Z :=
  varint (Z.of_nat (length (encode_status d))) ++ encode_status d.

(** ** Well-formed descriptions *)

Definition word (v : Z) : Prop := 0 <= v < 2 ^ 64.
Definition blob (bs : list Z) : Prop := Forall is_byte bs /\ Z.of_nat (length bs) < 2 ^ 32.
Definition area_wf_opt (p : option (Z * Z)) : Prop :=
  match p with Some p => word p.1 /\ word p.2 | None => True end.

Definition platform_msg_wf (p : platform_msg) : Prop :=
  Forall is_byte (p_name p) /\ (length (p_name p) <= 31)%nat /\ word (p_offset p) /\ word (p_size p) /\
  Forall blob (p_interrupts p) /\ Z.of_nat (length (encode_platform p)) < 2 ^ 32.

Definition description_wf (d : description) : Prop :=
  word (d_timestamp d) /\ area_wf_opt (d_arch d) /\ area_wf_opt (d_platform d) /\
  Forall blob (d_pes d) /\ Forall platform_msg_wf (d_components d) /\
  Forall blob (d_clocks d) /\ Forall blob (d_versions d) /\
  Z.of_nat (length (encode_status d)) < 2 ^ 32.

(** ** What is decoded *)

Definition component_of (p : platform_msg) : component :=
  mk_component (p_name p ++ replicate (32 - length (p_name p)) 0) (p_offset p) (p_size p).
Definition state_of (d : description) : status_state :=
  mk_sstate (d_timestamp d) (bool_decide (is_Some (d_arch d))) (default (0, 0) (d_arch d))
    (bool_decide (is_Some (d_platform d))) (default (0, 0) (d_platform d)) (map component_of (d_components d)).

(** A number: leaving out zero is right for a state that has zero. *)
Lemma uint_read {A} (step : Z -> Z -> A -> pb_istream -> A * option pb_istream) (set : Z -> A -> A) (tag v : Z) :
  (forall a s, step PB_WT_VARINT tag a s = spec_uint64 set a s) -> 0 < tag < 2 ^ 29 -> word v ->
  reads step (uint_field tag v) (if v =? 0 then id else set v).
Proof.
  intros Hs Ht Hv. unfold uint_field. destruct (Z.eqb_spec v 0); [apply reads_nil|].
  apply reads_field; [done|done|]. intros a rest c e Hc. rewrite Hs. unfold spec_uint64, rd.
  by rewrite varint_roundtrip.
Qed.

(** Messages that are skipped. *)
Lemma ignored_read {A} (step : Z -> Z -> A -> pb_istream -> A * option pb_istream) (tag : Z) (l : list (list Z)) :
  (forall a s, step PB_WT_STRING tag a s = spec_ignored PB_WT_STRING a s) -> 0 < tag < 2 ^ 29 -> Forall blob l ->
  reads step (bytes_fields tag l) id.
Proof.
  intros Hs Ht Hl. eapply reads_ext; [|eapply (reads_concat step _ (fun _ => id))].
  - intros a. clear Hl. by induction l as [|bs l IH].
  - intros bs Hbs. rewrite Forall_forall in Hl. destruct (Hl bs Hbs) as [_ Hlen].
    apply reads_field; [done|done|]. intros a rest c e Hc. rewrite Hs. by apply unset_callback_read.
Qed.

(** A message that is decoded into a struct twice: what is present overwrites. *)
Definition merge (p q : Z * Z) : Z * Z := (if p.1 =? 0 then q.1 else p.1, if p.2 =? 0 then q.2 else p.2).

Lemma merge_zero (p : Z * Z) : merge p (0, 0) = p.
Proof. destruct p as [b z]. unfold merge. simpl. destruct (Z.eqb_spec b 0), (Z.eqb_spec z 0); subst; done. Qed.

Lemma area_read (p q : Z * Z) (rest : list Z) (e : option string) :
  word p.1 -> word p.2 -> Z.of_nat (length (encode_area p)) < 2 ^ 64 ->
  spec_message area_step q (mk_istream (encode_area p ++ rest) (Z.of_nat (length (encode_area p))) e)
  = (merge p q, Some (mk_istream rest 0 e)).
Proof.
  intros H1 H2 Hl. erewrite message_read; [| |done].
  2: { apply reads_app.
       - by apply (uint_read area_step (fun v a => (v, a.2)) 1).
       - by apply (uint_read area_step (fun v a => (a.1, v)) 2). }
  f_equal. destruct q as [q1 q2]. unfold merge. simpl. by destruct (Z.eqb_spec p.1 0), (Z.eqb_spec p.2 0).
Qed.

Lemma length_uint (tag v : Z) : (length (uint_field tag v) <= 20)%nat.
Proof.
  unfold uint_field, key, varint. case_match; [simpl; lia|]. rewrite length_app.
  pose proof (leb128_length 9 (tag * 8 + PB_WT_VARINT)). pose proof (leb128_length 9 v). lia.
Qed.

Lemma length_area (p : Z * Z) : (length (encode_area p) <= 40)%nat.
Proof.
  unfold encode_area. rewrite length_app. pose proof (length_uint 1 p.1). pose proof (length_uint 2 p.2). lia.
Qed.

(** The optional register spaces. *)
Definition arch_of (p : option (Z * Z)) (a : status_state) : status_state :=
  match p with Some p => set_arch (merge p (arch a)) (with_arch a) | None => a end.
Definition platform_of (p : option (Z * Z)) (a : status_state) : status_state :=
  match p with Some p => set_platform (merge p (platform a)) (with_platform a) | None => a end.

Lemma arch_read (p : option (Z * Z)) :
  area_wf_opt p -> reads status_step (option_field 2 p) (arch_of p).
Proof.
  destruct p as [p|]; [|intros _; apply reads_nil]. intros [H1 H2]. pose proof (length_area p).
  apply reads_field; [done|done|]. intros a rest c e Hc.
  apply (delimited_read spec_arch (fun a => set_arch (merge p (arch a)) a) (encode_area p) rest (with_arch a));
    [lia|done|].
  unfold spec_arch. rewrite area_read by (done || lia). done.
Qed.

Lemma platform_area_read (p : option (Z * Z)) :
  area_wf_opt p -> reads status_step (option_field 3 p) (platform_of p).
Proof.
  destruct p as [p|]; [|intros _; apply reads_nil]. intros [H1 H2]. pose proof (length_area p).
  apply reads_field; [done|done|]. intros a rest c e Hc.
  apply (delimited_read spec_platform (fun a => set_platform (merge p (platform a)) a) (encode_area p) rest (with_platform a));
    [lia|done|].
  unfold spec_platform. rewrite area_read by (done || lia). done.
Qed.

(** ** Components *)

Lemma name_read (n : list Z) :
  (length n <= 31)%nat ->
  reads platform_step (bytes_field 1 n)
    (fun c => mk_component (n ++ replicate (32 - length n) 0) (offset c) (csize c)).
Proof.
  intros Hn. apply reads_field; [done|done|]. intros a rest c e Hc.
  apply (callback_read spec_name (fun c => mk_component (n ++ replicate (32 - length n) 0) (offset c) (csize c)) n rest a c e);
    [lia|done|].
  unfold spec_name. cbn [bytes_left state errmsg]. rewrite Z.min_l, Nat2Z.id by lia.
  rewrite take_app_length, drop_app_length. by rewrite Z.sub_diag.
Qed.

Lemma platform_read (p : platform_msg) (rest : list Z) (e : option string) :
  platform_msg_wf p ->
  spec_message platform_step blank
    (mk_istream (encode_platform p ++ rest) (Z.of_nat (length (encode_platform p))) e)
  = (component_of p, Some (mk_istream rest 0 e)).
Proof.
  intros (Hb & Hn & Ho & Hz & Hi & Hl). erewrite message_read; [| |lia].
  2: { apply reads_app; [by apply name_read|]. apply reads_app; [|apply reads_app].
       - by apply (uint_read platform_step (fun v c => mk_component (name c) v (csize c)) 2).
       - by apply (uint_read platform_step (fun v c => mk_component (name c) (offset c) v) 3).
       - by apply (ignored_read platform_step 4). }
  f_equal. unfold component_of, blank. destruct p as [n o z i]. simpl.
  destruct (Z.eqb_spec o 0), (Z.eqb_spec z 0); subst; done.
Qed.

Lemma component_read (p : platform_msg) :
  platform_msg_wf p ->
  reads status_step (bytes_field 5 (encode_platform p)) (fun a => spec_next a (component_of p)).
Proof.
  intros Hp. pose proof Hp as (_ & _ & _ & _ & _ & Hl). apply reads_field; [done|done|]. intros a rest c e Hc.
  apply (callback_read spec_component (fun a => spec_next a (component_of p)) (encode_platform p) rest a c e); [done|done|].
  unfold spec_component. by rewrite platform_read.
Qed.

(** ** The core *)

Definition decoded (d : description) (a : status_state) : status_state :=
  fold_left (fun a p => spec_next a (component_of p)) (d_components d)
    (platform_of (d_platform d) (arch_of (d_arch d)
       (if d_timestamp d =? 0 then a
        else mk_sstate (d_timestamp d) (has_arch a) (arch a) (has_platform a) (platform a) (found a)))).

Lemma status_read (d : description) : description_wf d -> reads status_step (encode_status d) (decoded d).
Proof.
  intros (Ht & Ha & Hp & Hpe & Hc & Hck & Hv & Hl). unfold encode_status.
  eapply reads_ext; [|apply reads_app; [|apply reads_app; [by apply arch_read|apply reads_app; [by apply platform_area_read|
    apply reads_app; [by apply (ignored_read status_step 4)|apply reads_app; [|apply reads_app;
      [by apply (ignored_read status_step 6)|by apply (ignored_read status_step 7)]]]]]]].
  2: { by apply (uint_read status_step
         (fun v a => mk_sstate v (has_arch a) (arch a) (has_platform a) (platform a) (found a)) 1). }
  2: { apply (reads_concat status_step (fun p => bytes_field 5 (encode_platform p)) (fun p a => spec_next a (component_of p))).
       intros p Hin. apply component_read. by eapply Forall_forall in Hc. }
  intros a. simpl. unfold decoded. by destruct (d_timestamp d =? 0).
Qed.

Lemma fold_components (l : list platform_msg) (a : status_state) :
  fold_left (fun a p => spec_next a (component_of p)) l a
  = mk_sstate (timestamp a) (has_arch a) (arch a) (has_platform a) (platform a) (found a ++ map component_of l).
Proof.
  revert a. induction l as [|p l IH]; intros a; simpl; [rewrite app_nil_r; by destruct a|].
  rewrite IH. simpl. by rewrite <- (assoc_L (++)).
Qed.

Lemma decoded_no_status (d : description) : decoded d no_status = state_of d.
Proof.
  unfold decoded. rewrite fold_components. unfold state_of.
  destruct d as [t a p pe cs ck v]. simpl.
  destruct (Z.eqb_spec t 0) as [->|], a as [a|], p as [p|]; simpl; rewrite ?merge_zero; done.
Qed.

(** Decoding the core gives the description back, whatever is behind it. *)
Lemma core_roundtrip (d : description) (rest : list Z) :
  description_wf d -> Z.of_nat (length (encode_core d ++ rest)) < 2 ^ 64 ->
  status_spec (encode_core d ++ rest) = (state_of d, true).
Proof.
  intros Hd Hlen. pose proof Hd as (_ & _ & _ & _ & _ & _ & _ & Hl). unfold status_spec, encode_core, pb_istream_from_buffer in *.
  rewrite (delimited_read _ (decoded d) (encode_status d)); [by rewrite decoded_no_status|done| |].
  - rewrite (length_app _ rest) in *. lia.
  - apply message_read; [by apply status_read|lia].
Qed.

(** ** The driver reads the core *)

Lemma bytes_uint (tag v : Z) : 0 <= tag < 2 ^ 29 -> word v -> Forall is_byte (uint_field tag v).
Proof.
  intros Ht Hv. unfold uint_field, key, PB_WT_VARINT. case_match; [done|]. rewrite Forall_app.
  split; apply varint_bytes; [lia|done].
Qed.

Lemma bytes_one (tag : Z) (bs : list Z) :
  0 <= tag < 2 ^ 29 -> Forall is_byte bs -> Z.of_nat (length bs) < 2 ^ 32 -> Forall is_byte (bytes_field tag bs).
Proof.
  intros Ht Hb Hl. unfold bytes_field, key, PB_WT_STRING.
  rewrite !Forall_app. split; [|split; [|done]]; apply varint_bytes; lia.
Qed.

Lemma bytes_blobs (tag : Z) (l : list (list Z)) : 0 <= tag < 2 ^ 29 -> Forall blob l -> Forall is_byte (bytes_fields tag l).
Proof.
  intros Ht. unfold bytes_fields. induction 1 as [|bs l [Hb Hl] _ IH]; [done|]. cbn [map concat].
  apply Forall_app. split; [by apply bytes_one|done].
Qed.

Lemma bytes_area (tag : Z) (p : option (Z * Z)) :
  0 <= tag < 2 ^ 29 -> area_wf_opt p -> Forall is_byte (option_field tag p).
Proof.
  intros Ht. destruct p as [p|]; [|done]. intros [H1 H2]. pose proof (length_area p).
  apply bytes_one; [done| |lia]. apply Forall_app. split; by apply bytes_uint.
Qed.

Lemma bytes_platform (p : platform_msg) : platform_msg_wf p -> Forall is_byte (encode_platform p).
Proof.
  intros (Hb & Hn & Ho & Hz & Hi & Hl). unfold encode_platform. rewrite !Forall_app.
  split; [by apply bytes_one; [..|lia]|]. split; [by apply bytes_uint|]. split; [by apply bytes_uint|by apply bytes_blobs].
Qed.

Lemma bytes_core (d : description) : description_wf d -> Forall is_byte (encode_core d).
Proof.
  intros (Ht & Ha & Hp & Hpe & Hc & Hck & Hv & Hl). unfold encode_core. apply Forall_app.
  split; [apply varint_bytes; lia|]. unfold encode_status. rewrite !Forall_app. split; [by apply bytes_uint|]. split; [by apply bytes_area|].
  split; [by apply bytes_area|]. split; [by apply bytes_blobs|]. split; [|split; by apply bytes_blobs].
  clear Hl. induction Hc as [|p l Hw _ IH]; [done|]. cbn [map concat]. apply Forall_app. split; [|done].
  apply bytes_one; [done|by apply bytes_platform|apply Hw].
Qed.

Lemma init_reads (d : description) (pad : list Z) (old : list component) :
  description_wf d -> Forall is_byte pad -> Z.of_nat (length (encode_core d ++ pad)) < 2 ^ 64 ->
  length old = TLKM_COMPONENT_MAX -> Forall (fun c => 0 <= csize c < 2 ^ 64) old ->
  (length (d_components d) <= TLKM_COMPONENT_MAX)%nat ->
  tlkm_status_init (encode_core d ++ pad) old
  = Some (0, mk_status (default (0, 0) (d_arch d)).1 (default (0, 0) (d_arch d)).2
               (default (0, 0) (d_platform d)).1 (default (0, 0) (d_platform d)).2,
          map component_of (d_components d) ++ drop (length (d_components d)) (map reset old)).
Proof.
  intros Hd Hpad Hlen Hold Hsz Hmax.
  pose proof (init_refines old Hold Hsz (encode_core d ++ pad) (state_of d) true) as H.
  simpl in H. rewrite length_map in H. unfold table in H. rewrite length_map in H. apply H; [|by apply core_roundtrip|done].
  split; [|done]. apply Forall_app. split; [by apply bytes_core|done].
Qed.

End StatusWire.
