(* ===== verification/Status.v ===== *)
(** * The component table of a device (tlkm/tlkm_status.c)

    The other parts of the driver look up register windows by the name of a platform
    component.  Proved here, with the decoder of nanopb underneath: a lookup finds what
    the tool flow has written. *)
From S2P Require Import Prelude.
From S2P Require Export StatusWire.

Module Status.
Import StatusWire.

(** ** Strings in C *)

(** A string literal as bytes. *)
Definition str (s : string) : list Z :=
  map (fun a => Z.of_nat (Ascii.nat_of_ascii a)) (String.list_ascii_of_string s).

(** The string in a buffer ends at its first zero byte. *)
Fixpoint cstr (b : list Z) : list Z :=
  match b with
  | [] => []
  | c :: r => if c =? 0 then [] else c :: cstr r
  end.

(** strncmp (a, b, n) == 0 *)
Definition strncmp_eq (n : nat) (a b : list Z) : bool :=
  bool_decide (take n (cstr a) = take n (cstr b)).

(** ** The code *)

Definition tlkm_status_exit : tlkm_status := status_zero.

Fixpoint get_component (c : list Z) (components : list component) : option component :=
  match components with
  | [] => None
  | e :: r => if strncmp_eq TLKM_COMPONENTS_NAME_MAX c (name e) then Some e else get_component c r
  end.

Definition tlkm_status_get_component_base (components : list component) (c : list Z) : Z :=
  match get_component c components with Some e => offset e | None => NONE end.

Definition tlkm_status_get_component_size (components : list component) (c : list Z) : Z :=
  match get_component c components with Some e => csize e | None => NONE end.

(** ** Lemmas *)

(** A name as the tool flow writes it: no zero byte, fits the buffer. *)
Definition name_ok (n : list Z) : Prop := Forall (fun c => c <> 0) n /\ (length n <= 31)%nat.

Lemma cstr_zeros (n : list Z) (k : nat) : Forall (fun c => c <> 0) n -> cstr (n ++ replicate k 0) = n.
Proof.
  induction 1 as [|c n Hc _ IH]; simpl; [by destruct k|].
  by rewrite (proj2 (Z.eqb_neq _ _) Hc), IH.
Qed.

Lemma strncmp_names (a b : list Z) (k : nat) :
  name_ok a -> name_ok b -> strncmp_eq TLKM_COMPONENTS_NAME_MAX a (b ++ replicate k 0) = bool_decide (a = b).
Proof.
  intros [Ha La] [Hb Lb]. unfold strncmp_eq.
  pose proof (cstr_zeros a 0 Ha) as E. simpl in E. rewrite app_nil_r in E.
  rewrite cstr_zeros, E by done.
  by rewrite !take_ge by (unfold TLKM_COMPONENTS_NAME_MAX; lia).
Qed.

Lemma get_component_app (c : list Z) (l k : list component) :
  get_component c (l ++ k)
  = match get_component c l with Some e => Some e | None => get_component c k end.
Proof. induction l as [|e l IH]; simpl; [done|]. by destruct (strncmp_eq _ c (name e)). Qed.

Lemma get_component_decoded (c : list Z) (msgs : list platform_msg) :
  name_ok c -> Forall (fun msg => name_ok (p_name msg)) msgs ->
  get_component c (map component_of msgs)
  = component_of <$> head (base.filter (fun msg => p_name msg = c) msgs).
Proof.
  intros Hc. induction 1 as [|msg r Hm _ IH]; simpl; [done|].
  rewrite strncmp_names, filter_cons by done. case_bool_decide as Heq.
  - by rewrite decide_True.
  - by rewrite decide_False.
Qed.

Lemma get_component_unused (c : list Z) (l : list component) :
  name_ok c -> c <> [] -> Forall (fun e => name e = replicate 32 0) l -> get_component c l = None.
Proof.
  intros [Hc Lc] Hne. induction 1 as [|e l He _ IH]; simpl; [done|]. rewrite He.
  assert (strncmp_eq TLKM_COMPONENTS_NAME_MAX c (replicate 32 0) = false) as ->; [|done].
  unfold strncmp_eq. apply bool_decide_eq_false. destruct c as [|x c]; [done|].
  apply Forall_cons in Hc as [Hx _]. simpl. by rewrite (proj2 (Z.eqb_neq _ _) Hx).
Qed.

(** ** Theorem *)

(** C11: Looking up a component finds what the tool flow wrote.  For every description of
    a bitstream in the wire format of protobuf, with at most 16 platform components
    whose names have no zero byte and at most 31 bytes, and whatever follows it in the
    memory of the core, tlkm_status_init succeeds and publishes the register spaces,
    and tlkm_status_get_component_base and _size then return the offset and size of the
    first component with the name asked for, and -1 for any other non-empty name,
    whatever the table held before. *)
Theorem status_components_found (d : description) (pad : list Z) (old : list component) :
  description_wf d -> Forall is_byte pad -> Z.of_nat (length (encode_core d ++ pad)) < 2 ^ 64 ->
  Forall (fun msg => name_ok (p_name msg)) (d_components d) ->
  (length (d_components d) <= TLKM_COMPONENT_MAX)%nat ->
  length old = TLKM_COMPONENT_MAX -> Forall (fun c => 0 <= csize c < 2 ^ 64) old ->
  exists sta table, tlkm_status_init (encode_core d ++ pad) old = Some (0, sta, table) /\
    (arch_base sta, arch_size sta) = default (0, 0) (d_arch d) /\
    (platform_base sta, platform_size sta) = default (0, 0) (d_platform d) /\
    length table = TLKM_COMPONENT_MAX /\
    forall c, name_ok c -> c <> [] ->
      match head (base.filter (fun msg => p_name msg = c) (d_components d)) with
      | Some msg => tlkm_status_get_component_base table c = p_offset msg /\
                    tlkm_status_get_component_size table c = p_size msg
      | None => tlkm_status_get_component_base table c = NONE /\
                tlkm_status_get_component_size table c = NONE
      end.
Proof.
  intros Hd Hpad Hlen Hnames Hmax Hold Hsz. do 2 eexists. split; [by apply init_reads|].
  split; [by destruct (default _ (d_arch d))|]. split; [by destruct (default _ (d_platform d))|]. split.
  { rewrite length_app, length_drop, !length_map. lia. }
  intros c Hc Hne. unfold tlkm_status_get_component_base, tlkm_status_get_component_size.
  rewrite get_component_app, get_component_decoded by done.
  destruct (head (base.filter _ (d_components d))) as [msg|]; simpl; [done|].
  rewrite get_component_unused; [done|done|done|].
  apply Forall_drop, Forall_map, Forall_forall. done.
Qed.

(** ** Witnesses *)

(** Two components, a processing element and a version. *)
Definition demo_description : description :=
  mk_description 1 (Some (0, 64)) (Some (128, 64)) [[10; 1; 65]]
    [mk_platform [77; 77; 85] 4096 256 []; mk_platform [71] 8192 64 [[8; 3]]] [] [[10; 1; 66]].

Lemma demo_description_ok : description_wf demo_description.
Proof.
  assert (forall bs, (forallb (fun b => (0 <=? b) && (b <? 256)) bs && (length bs <? 100)%nat) = true -> blob bs) as Hb.
  { intros bs H. apply andb_true_iff in H as [H1 H2]. apply Nat.ltb_lt in H2. split; [|lia].
    rewrite forallb_forall in H1. apply Forall_forall. intros x Hx. apply list_elem_of_In in Hx. apply H1 in Hx.
    apply andb_true_iff in Hx as [Ha Hc]. apply Z.leb_le in Ha. apply Z.ltb_lt in Hc. done. }
  assert (forall n o z l, word o -> word z -> Forall blob l -> blob n -> (length n <= 31)%nat ->
    Z.of_nat (length (encode_platform (mk_platform n o z l))) < 2 ^ 32 -> platform_msg_wf (mk_platform n o z l)) as Hp.
  { intros n o z l Ho Hz Hl [Hn _] H31 He. by split_and!. }
  unfold description_wf. cbn [demo_description d_timestamp d_arch d_platform d_pes d_components d_clocks d_versions].
  split; [done|]. split; [done|]. split; [done|]. split; [by apply Forall_singleton, Hb|]. split.
  { apply Forall_cons. split; [|apply Forall_singleton];
      apply Hp; try done; try (by apply Hb); try (simpl; lia). by apply Forall_singleton, Hb. }
  split; [done|]. split; [by apply Forall_singleton, Hb|]. by vm_compute.
Qed.

Lemma status_components_found_witness :
  exists sta table, tlkm_status_init (encode_core demo_description ++ [255; 255]) demo_table
                = Some (0, sta, table) /\
    tlkm_status_get_component_base table [71] = 8192.
Proof.
  destruct (status_components_found demo_description [255; 255] demo_table) as (sta & table & E & _ & _ & _ & H).
  - apply demo_description_ok.
  - by repeat constructor.
  - by vm_compute.
  - by repeat constructor.
  - vm_compute. lia.
  - done.
  - by repeat constructor.
  - exists sta, table. split; [done|]. apply (H [71]); [|done]. by repeat constructor.
Defined.

(** A seventeenth component is written behind the table. *)
Example status_table_overflow :
  tlkm_status_init
    (encode_core (mk_description 0 None None [] (replicate 17 (mk_platform [71] 8192 64 [])) [] [])) demo_table = None.
Proof. vm_compute. reflexivity. Qed.

End Status.
