(* ===== verification/DeviceLife.v ===== *)
(** * Set-up and removal of a device
      (tlkm/tlkm_device.c, tlkm/tlkm_platform.c, device/tlkm_control.c,
       device/tlkm_perfc_miscdev.c)

    tlkm_device_init brings a device up in eight steps, some of them functions of
    its class (create, init_subsystems, init_interrupts), and undoes the steps it
    has made when one fails; tlkm_device_exit undoes all of them.  The functions of
    a class are an interface: each stage of a class owns certain resources, and its
    functions move between the stages. *)
From S2P Require Import Prelude Kernel Lifecycle StatusCore Status.

Module DeviceLife.
Import Kernel Lifecycle.
Import StatusCore(tlkm_status, component, tlkm_status_init, status_zero,
  arch_base, arch_size, platform_base, platform_size).
Import Status(tlkm_status_exit, str, strncmp_eq).
#[local] Open Scope prog_scope.

(** ** Resources and state *)

(** What a device holds; [CR] are the resources of its class. *)
Inductive dev_res (CR : Type) :=
| perfc_name | perfc_file
| ctrl_mem | ctrl_name | ctrl_file
| map_status | map_arch | map_plat
| cls_res (r : CR).
Arguments perfc_name {CR}.
Arguments perfc_file {CR}.
Arguments ctrl_mem {CR}.
Arguments ctrl_name {CR}.
Arguments ctrl_file {CR}.
Arguments map_status {CR}.
Arguments map_arch {CR}.
Arguments map_plat {CR}.
Arguments cls_res {CR} r.

#[export] Instance dev_res_eq_dec `{EqDecision CR} : EqDecision (dev_res CR).
Proof. solve_decision. Defined.

(** struct platform_regspace *)
Record regspace := mk_regspace { base : Z; high : Z; size : Z }.
Definition INIT_REGSPACE (b s : Z) : regspace := mk_regspace b (u64 (b + s - 1)) s.

(** struct tlkm_device: what its own code sets up.  Pointers the code compares with
    NULL are booleans; [ctrl] carries whether miscdev.name is not NULL. *)
Record dev_core := mk_core {
  perfc_named : bool;
  ctrl : option bool;
  m_status : bool;
  m_arch : bool;
  m_plat : bool;
  status : tlkm_status;
  arch : regspace;
  plat : regspace;
  components : list component
}.

(** base_offset and private_data belong to the class. *)
Record tlkm_device (P : Type) := mk_device {
  core : dev_core;
  base_offset : Z;
  private_data : P
}.
Arguments mk_device {P}.
Arguments core {P}.
Arguments base_offset {P}.
Arguments private_data {P}.

Definition set_core {P} (f : dev_core -> dev_core) (d : tlkm_device P) : tlkm_device P :=
  mk_device (f (core d)) (base_offset d) (private_data d).
Definition set_perfc (b : bool) (c : dev_core) : dev_core :=
  mk_core b (ctrl c) (m_status c) (m_arch c) (m_plat c) (status c) (arch c) (plat c) (components c).
Definition set_ctrl (o : option bool) (c : dev_core) : dev_core :=
  mk_core (perfc_named c) o (m_status c) (m_arch c) (m_plat c) (status c) (arch c) (plat c) (components c).
Definition set_m_status (b : bool) (c : dev_core) : dev_core :=
  mk_core (perfc_named c) (ctrl c) b (m_arch c) (m_plat c) (status c) (arch c) (plat c) (components c).
Definition set_m_arch (b : bool) (c : dev_core) : dev_core :=
  mk_core (perfc_named c) (ctrl c) (m_status c) b (m_plat c) (status c) (arch c) (plat c) (components c).
Definition set_m_plat (b : bool) (c : dev_core) : dev_core :=
  mk_core (perfc_named c) (ctrl c) (m_status c) (m_arch c) b (status c) (arch c) (plat c) (components c).
Definition set_status (st : tlkm_status) (cs : list component) (c : dev_core) : dev_core :=
  mk_core (perfc_named c) (ctrl c) (m_status c) (m_arch c) (m_plat c) st (arch c) (plat c) cs.
Definition set_regspaces (a p : regspace) (c : dev_core) : dev_core :=
  mk_core (perfc_named c) (ctrl c) (m_status c) (m_arch c) (m_plat c) (status c) a p (components c).

Section Code.
Context {CR P : Type}.
Notation L := (prog (lifeE (dev_res CR) (tlkm_device P))).

(** struct tlkm_class: its name, and the functions tlkm_device_init and
    tlkm_device_exit call; an entry that may be NULL is an option. *)
Record tlkm_class := mk_class {
  class_name : list Z;
  create : L Z;
  destroy : L unit;
  init_subsystems : option (L Z);
  exit_subsystems : option (L unit);
  init_interrupts : option (L Z);
  exit_interrupts : option (L unit)
}.

(** ** device/tlkm_perfc_miscdev.c *)

Definition tlkm_perfc_miscdev_init : L Z :=
  let! named := call (acquire perfc_name) in
  update (set_core (set_perfc named));;;
  let! ret := call (request perfc_file) in
  if nonzero ret then Ret ret else Ret 0.

Definition tlkm_perfc_miscdev_exit : L unit :=
  let! d := call load in
  (if perfc_named (core d) then call (release perfc_name) else Ret tt);;;
  call (release perfc_file);;;
  update (set_core (set_perfc false)).

(** ** device/tlkm_control.c *)

(** tlkm_control_init with init_miscdev; a failed misc_register leaves the name
    behind. *)
Definition tlkm_control_init : L Z :=
  let! ok := call (acquire ctrl_mem) in
  if negb ok then Ret (- ENOMEM) else
  let! named := call (acquire ctrl_name) in
  let! ret := call (request ctrl_file) in
  if nonzero ret then call (release ctrl_mem);;; Ret ret else
  update (set_core (set_ctrl (Some named)));;;
  Ret 0.

(** tlkm_control_exit with exit_miscdev *)
Definition tlkm_control_exit : L unit :=
  let! d := call load in
  match ctrl (core d) with
  | None => Ret tt
  | Some named =>
      call (release ctrl_file);;;
      (if named then call (release ctrl_name) else Ret tt);;;
      call (release ctrl_mem)
  end.

(** ** tlkm/tlkm_platform.c *)

Definition tlkm_platform_status_init : L Z :=
  let! ok := call (acquire map_status) in
  update (set_core (set_m_status ok));;;
  if negb ok then Ret (- ENOSPC) else Ret 0.

Definition tlkm_platform_status_exit : L unit :=
  let! d := call load in
  if m_status (core d)
  then call (release map_status);;; update (set_core (set_m_status false)) else Ret tt.

Definition tlkm_platform_mmap_init : L Z :=
  let! ok := call (acquire map_arch) in
  update (set_core (set_m_arch ok));;;
  if negb ok then Ret (- ENOSPC) else
  let! ok := call (acquire map_plat) in
  update (set_core (set_m_plat ok));;;
  if negb ok then
    call (release map_arch);;; update (set_core (set_m_arch false));;; Ret (- ENOSPC)
  else Ret 0.

Definition tlkm_platform_mmap_exit : L unit :=
  let! d := call load in
  (if m_plat (core d)
   then call (release map_plat);;; update (set_core (set_m_plat false)) else Ret tt);;;
  if m_arch (core d)
  then call (release map_arch);;; update (set_core (set_m_arch false)) else Ret tt.

(** ** tlkm/tlkm_device.c *)

Definition opt_init (o : option (L Z)) : L Z := match o with Some p => p | None => Ret 0 end.
Definition opt_exit (o : option (L unit)) : L unit := match o with Some p => p | None => Ret tt end.

Section Init.
Variable cls : tlkm_class.
(** The bytes of the status core that the device shows. *)
Variable status_core : list Z.

Definition status_init : L Z :=
  let! d := call load in
  match tlkm_status_init status_core (components (core d)) with
  | None => call bug;;; Ret 0
  | Some (ret, st, table) => update (set_core (set_status st table));;; Ret ret
  end.

Definition status_exit : L unit :=
  update (set_core (fun c => set_status tlkm_status_exit (components c) c)).

(** The error labels, from the last to the first. *)
Definition err_control (ret : Z) : L Z := tlkm_perfc_miscdev_exit;;; Ret ret.
Definition err_priv (ret : Z) : L Z := tlkm_control_exit;;; err_control ret.
Definition err_ioremap_status (ret : Z) : L Z := destroy cls;;; err_priv ret.
Definition err_status (ret : Z) : L Z := tlkm_platform_status_exit;;; err_ioremap_status ret.
Definition err_ioremap (ret : Z) : L Z := status_exit;;; err_status ret.
Definition err_sub (ret : Z) : L Z := tlkm_platform_mmap_exit;;; err_ioremap ret.
Definition err_interrupts (ret : Z) : L Z := opt_exit (exit_subsystems cls);;; err_sub ret.

Definition set_spaces : L unit :=
  update (set_core (fun c =>
    set_regspaces (INIT_REGSPACE (arch_base (status c)) (arch_size (status c)))
      (INIT_REGSPACE (platform_base (status c)) (platform_size (status c))) c)).

Definition TLKM_DEVICE_NAME_LEN : nat := 30.
(** The test in a module that is built with ENABLE_SIM; no other class has this name. *)
Definition is_sim : bool := strncmp_eq TLKM_DEVICE_NAME_LEN (class_name cls) (str "sim").

Definition tlkm_device_init : L Z :=
  let! ret := tlkm_perfc_miscdev_init in
  if nonzero ret then Ret ret else
  let! ret := tlkm_control_init in
  if nonzero ret then err_control ret else
  let! ret := create cls in
  if nonzero ret then err_priv ret else
  if is_sim then Ret 0 else
  let! ret := tlkm_platform_status_init in
  if nonzero ret then err_ioremap_status ret else
  let! ret := status_init in
  if nonzero ret then err_status ret else
  set_spaces;;;
  let! ret := tlkm_platform_mmap_init in
  if nonzero ret then err_ioremap ret else
  let! ret := opt_init (init_subsystems cls) in
  if nonzero ret then err_sub ret else
  let! ret := opt_init (init_interrupts cls) in
  if nonzero ret then err_interrupts ret else
  Ret 0.

Definition tlkm_device_exit : L unit :=
  opt_exit (exit_interrupts cls);;;
  opt_exit (exit_subsystems cls);;;
  status_exit;;;
  destroy cls;;;
  tlkm_platform_status_exit;;;
  tlkm_platform_mmap_exit;;;
  tlkm_control_exit;;;
  tlkm_perfc_miscdev_exit.
End Init.
End Code.
Arguments tlkm_class CR P : clear implicits.

(** ** What the code expects of a class *)

Definition perfc_res {CR} (named : bool) : list (dev_res CR) :=
  perfc_file :: if named then [perfc_name] else [].
Definition ctrl_res {CR} (named : bool) : list (dev_res CR) :=
  ctrl_file :: ctrl_mem :: if named then [ctrl_name] else [].

Section Interface.
Context {CR P : Type} {EqCR : EqDecision CR}.

(** A state whose class owns what the stage [I] says, with [h] besides; the core of
    the device is as it was. *)
Definition at_stage (I : P -> list CR -> Prop) (c : dev_core) (h : list (dev_res CR))
    (s : life (dev_res CR) (tlkm_device P)) : Prop :=
  core (state s) = c /\
  exists l, I (private_data (state s)) l /\ Permutation (held s) (map cls_res l ++ h).
End Interface.

(** The promise of a class: [fresh] before create; then each stage owns resources,
    and the functions lead from one to the next or, when they fail, back.
    [supported] restricts the bitstreams the class copes with. *)
Class DeviceClass {CR P : Type} {EqCR : EqDecision CR} (may_fail : dev_res CR -> bool)
    (cls : tlkm_class CR P) := {
  fresh : P -> Prop;
  supported : list component -> Prop;
  created : P -> list CR -> Prop;
  with_subsystems : list component -> P -> list CR -> Prop;
  with_interrupts : list component -> P -> list CR -> Prop;
  create_ok (s : life (dev_res CR) (tlkm_device P)) (h : list (dev_res CR)) :
    fresh (private_data (state s)) -> Permutation (held s) h ->
    wp (life_model may_fail) (create cls) s (fun ret s' =>
      (ret = 0 /\ at_stage created (core (state s)) h s') \/
      (ret <> 0 /\ core (state s') = core (state s) /\ Permutation (held s') h));
  destroy_ok (s : life (dev_res CR) (tlkm_device P)) (h : list (dev_res CR)) :
    at_stage created (core (state s)) h s ->
    wp (life_model may_fail) (destroy cls) s (fun _ s' =>
      core (state s') = core (state s) /\ Permutation (held s') h);
  init_subsystems_ok (s : life (dev_res CR) (tlkm_device P)) (h : list (dev_res CR)) :
    at_stage created (core (state s)) h s -> supported (components (core (state s))) ->
    wp (life_model may_fail) (opt_init (init_subsystems cls)) s (fun ret s' =>
      (ret = 0 /\ at_stage (with_subsystems (components (core (state s)))) (core (state s)) h s') \/
      (ret <> 0 /\ at_stage created (core (state s)) h s'));
  exit_subsystems_ok (s : life (dev_res CR) (tlkm_device P)) (h : list (dev_res CR)) :
    at_stage (with_subsystems (components (core (state s)))) (core (state s)) h s ->
    wp (life_model may_fail) (opt_exit (exit_subsystems cls)) s (fun _ s' =>
      at_stage created (core (state s)) h s');
  init_interrupts_ok (s : life (dev_res CR) (tlkm_device P)) (h : list (dev_res CR)) :
    at_stage (with_subsystems (components (core (state s)))) (core (state s)) h s ->
    supported (components (core (state s))) ->
    wp (life_model may_fail) (opt_init (init_interrupts cls)) s (fun ret s' =>
      (ret = 0 /\ at_stage (with_interrupts (components (core (state s)))) (core (state s)) h s') \/
      (ret <> 0 /\ at_stage (with_subsystems (components (core (state s)))) (core (state s)) h s'));
  exit_interrupts_ok (s : life (dev_res CR) (tlkm_device P)) (h : list (dev_res CR)) :
    at_stage (with_interrupts (components (core (state s)))) (core (state s)) h s ->
    wp (life_model may_fail) (opt_exit (exit_interrupts cls)) s (fun _ s' =>
      at_stage (with_subsystems (components (core (state s)))) (core (state s)) h s');
  (* tlkm_device_init sets up neither subsystems nor interrupts of a simulated device,
     but tlkm_device_exit removes them *)
  sim_stages (cs : list component) (p : P) (l : list CR) :
    is_sim cls = true -> created p l -> with_interrupts cs p l
}.

(** ** The steps *)
Section Steps.
Context {CR P : Type} {EqCR : EqDecision CR}.
Variable may_fail : dev_res CR -> bool.
Notation st := (life (dev_res CR) (tlkm_device P)).
Notation M := (life_model may_fail).

(** What a failed registration of a device file may leave behind. *)
Definition leaked (l : list (dev_res CR)) : Prop :=
  l = [] \/ (l = [perfc_name] /\ may_fail perfc_file = true) \/
  (l = [ctrl_name] /\ may_fail ctrl_file = true).

Lemma perfc_init_spec (s : st) (h : list (dev_res CR)) :
  Permutation (held s) h ->
  wp M tlkm_perfc_miscdev_init s (fun ret s' =>
    (ret = 0 /\ exists b, state s' = set_core (set_perfc b) (state s) /\
       Permutation (held s') (perfc_res b ++ h)) \/
    (ret < 0 /\ exists l, leaked l /\ Permutation (held s') (l ++ h))).
Proof.
  intros Hh. apply wp_bind.
  assert (forall (b : bool) (s1 : st) L, Permutation (held s1) L -> state s1 = state s ->
    L = (if b then [perfc_name] else []) ++ h ->
    wp M (update (set_core (set_perfc b));;;
          let! ret := call (request perfc_file) in if nonzero ret then Ret ret else Ret 0) s1
      (fun ret s' =>
        (ret = 0 /\ exists b, state s' = set_core (set_perfc b) (state s) /\
           Permutation (held s') (perfc_res b ++ h)) \/
        (ret < 0 /\ exists l, leaked l /\ Permutation (held s') (l ++ h)))) as Hgo.
  { intros b s1 L H1 E1 EL. apply wp_bind. apply (wp_update_perm _ _ _ L); [done|]. intros s2 H2 E2.
    apply wp_bind. apply (wp_request_perm _ _ _ L); [done| |].
    - intros s3 H3 E3. simpl. left. split; [done|]. exists b. rewrite E3, E2, E1. split; [done|].
      by rewrite H3, EL.
    - intros res Hres Hf. unfold nonzero. rewrite (proj2 (Z.eqb_neq _ _)) by lia. simpl. right.
      split; [done|]. exists (if b then [perfc_name] else []). rewrite <- EL. split; [|done].
      destruct b; [right; by left|by left]. }
  apply (wp_acquire_perm _ _ _ h); [done| |].
  - intros s1 H1 E1. by apply (Hgo true s1 (perfc_name :: h)).
  - intros _. by apply (Hgo false s h).
Qed.

Lemma perfc_exit_spec (s : st) (h : list (dev_res CR)) :
  Permutation (held s) (perfc_res (perfc_named (core (state s))) ++ h) ->
  wp M tlkm_perfc_miscdev_exit s (fun _ s' => Permutation (held s') h).
Proof.
  intros Hh. apply wp_bind, wp_load, wp_bind.
  assert (forall s1 : st, Permutation (held s1) (perfc_file :: h) ->
    wp M (call (release perfc_file);;; update (set_core (set_perfc false))) s1
      (fun _ s' => Permutation (held s') h)) as Hgo.
  { intros s1 H1. apply wp_bind. apply (wp_release_perm _ _ _ h); [done|]. intros s2 H2 _.
    by apply (wp_update_perm _ _ _ h). }
  destruct (perfc_named _); simpl in Hh; [|by apply wp_ret, Hgo].
  apply (wp_release_perm _ _ _ (perfc_file :: h)); [rewrite Hh; perm|]. intros s1 H1 _. by apply Hgo.
Qed.

Lemma control_init_spec (s : st) (h : list (dev_res CR)) :
  Permutation (held s) h ->
  wp M tlkm_control_init s (fun ret s' =>
    (ret = 0 /\ exists b, state s' = set_core (set_ctrl (Some b)) (state s) /\
       Permutation (held s') (ctrl_res b ++ h)) \/
    (ret < 0 /\ state s' = state s /\ exists l, leaked l /\ Permutation (held s') (l ++ h))).
Proof.
  intros Hh. apply wp_bind. apply (wp_acquire_perm _ _ _ h); [done| |].
  2:{ intros _. apply wp_ret. right. split; [done|]. split; [done|]. exists []. by split; [left|]. }
  intros s1 H1 E1. simpl. apply wp_bind.
  assert (forall (b : bool) (s2 : st) L, Permutation (held s2) (ctrl_mem :: L) -> state s2 = state s ->
    L = (if b then [ctrl_name] else []) ++ h ->
    wp M (let! ret := call (request ctrl_file) in
          if nonzero ret then call (release ctrl_mem);;; Ret ret else
          update (set_core (set_ctrl (Some b)));;; Ret 0) s2
      (fun ret s' =>
        (ret = 0 /\ exists b, state s' = set_core (set_ctrl (Some b)) (state s) /\
           Permutation (held s') (ctrl_res b ++ h)) \/
        (ret < 0 /\ state s' = state s /\ exists l, leaked l /\ Permutation (held s') (l ++ h)))) as Hgo.
  { intros b s2 L H2 E2 EL. apply wp_bind. apply (wp_request_perm _ _ _ (ctrl_mem :: L)); [done| |].
    - intros s3 H3 E3. simpl. apply wp_bind.
      apply (wp_update_perm _ _ _ (ctrl_file :: ctrl_mem :: L)); [done|].
      intros s4 H4 E4. left. split; [done|]. exists b. rewrite E4, E3, E2. split; [done|].
      by rewrite H4, EL.
    - intros res Hres Hf. unfold nonzero. rewrite (proj2 (Z.eqb_neq _ _)) by lia. simpl.
      apply wp_bind. apply (wp_release_perm _ _ _ L); [done|]. intros s3 H3 E3. right.
      split; [done|]. split; [congruence|]. exists (if b then [ctrl_name] else []). rewrite <- EL.
      split; [|done]. destruct b; [right; by right|by left]. }
  apply (wp_acquire_perm _ _ _ (ctrl_mem :: h)); [done| |].
  - intros s2 H2 E2. apply (Hgo true s2 (ctrl_name :: h)); [rewrite H2; perm|congruence|done].
  - intros _. by apply (Hgo false s1 h).
Qed.

Lemma control_exit_spec (s : st) (b : bool) (h : list (dev_res CR)) :
  ctrl (core (state s)) = Some b -> Permutation (held s) (ctrl_res b ++ h) ->
  wp M tlkm_control_exit s (fun _ s' => state s' = state s /\ Permutation (held s') h).
Proof.
  intros Hc Hh. apply wp_bind, wp_load. rewrite Hc. apply wp_bind. destruct b; simpl in Hh.
  - apply (wp_release_perm _ _ _ (ctrl_mem :: ctrl_name :: h)); [done|]. intros s1 H1 E1. apply wp_bind.
    apply (wp_release_perm _ _ _ (ctrl_mem :: h)); [rewrite H1; perm|]. intros s2 H2 E2.
    apply (wp_release_perm _ _ _ h); [done|]. intros s3 H3 E3. split; [congruence|done].
  - apply (wp_release_perm _ _ _ (ctrl_mem :: h)); [done|]. intros s1 H1 E1. apply wp_bind, wp_ret.
    apply (wp_release_perm _ _ _ h); [done|]. intros s3 H3 E3. split; [congruence|done].
Qed.

Lemma platform_status_init_spec (s : st) (h : list (dev_res CR)) :
  Permutation (held s) h ->
  wp M tlkm_platform_status_init s (fun ret s' =>
    (ret = 0 /\ state s' = set_core (set_m_status true) (state s) /\
       Permutation (held s') (map_status :: h)) \/
    (ret < 0 /\ state s' = set_core (set_m_status false) (state s) /\ Permutation (held s') h)).
Proof.
  intros Hh. apply wp_bind. apply (wp_acquire_perm _ _ _ h); [done| |].
  - intros s1 H1 E1. apply wp_bind. apply (wp_update_perm _ _ _ (map_status :: h)); [done|].
    intros s2 H2 E2. left. rewrite E2, E1. by split.
  - intros _. apply wp_bind. apply (wp_update_perm _ _ _ h); [done|]. intros s2 H2 E2. right.
    by rewrite E2.
Qed.

Lemma platform_status_exit_spec (s : st) (h : list (dev_res CR)) :
  m_status (core (state s)) = true -> Permutation (held s) (map_status :: h) ->
  wp M tlkm_platform_status_exit s (fun _ s' =>
    state s' = set_core (set_m_status false) (state s) /\ Permutation (held s') h).
Proof.
  intros Hm Hh. apply wp_bind, wp_load. rewrite Hm. apply wp_bind.
  apply (wp_release_perm _ _ _ h); [done|]. intros s1 H1 E1. apply (wp_update_perm _ _ _ h); [done|].
  intros s2 H2 E2. by rewrite E2, E1.
Qed.

Lemma platform_mmap_init_spec (s : st) (h : list (dev_res CR)) :
  Permutation (held s) h ->
  wp M tlkm_platform_mmap_init s (fun ret s' =>
    (ret = 0 /\ state s' = set_core (set_m_plat true) (set_core (set_m_arch true) (state s)) /\
       Permutation (held s') (map_plat :: map_arch :: h)) \/
    (ret < 0 /\ (exists a p, state s' = set_core (set_m_arch a) (set_core (set_m_plat p) (state s))) /\
       Permutation (held s') h)).
Proof.
  intros Hh. apply wp_bind. apply (wp_acquire_perm _ _ _ h); [done| |].
  - intros s1 H1 E1. apply wp_bind. apply (wp_update_perm _ _ _ (map_arch :: h)); [done|].
    intros s2 H2 E2. simpl. apply wp_bind. apply (wp_acquire_perm _ _ _ (map_arch :: h)); [done| |].
    + intros s3 H3 E3. apply wp_bind. apply (wp_update_perm _ _ _ (map_plat :: map_arch :: h)); [done|].
      intros s4 H4 E4. left. rewrite E4, E3, E2, E1. by split.
    + intros _. apply wp_bind. apply (wp_update_perm _ _ _ (map_arch :: h)); [done|].
      intros s3 H3 E3. simpl. apply wp_bind. apply (wp_release_perm _ _ _ h); [done|].
      intros s4 H4 E4. apply wp_bind. apply (wp_update_perm _ _ _ h); [done|].
      intros s5 H5 E5. right. split; [done|]. split; [|done]. exists false, false.
      by rewrite E5, E4, E3, E2, E1.
  - intros _. apply wp_bind. apply (wp_update_perm _ _ _ h); [done|].
    intros s2 H2 E2. right. split; [done|]. split; [|done].
    exists false, (m_plat (core (state s))). rewrite E2. by destruct (state s) as [[] ? ?].
Qed.

Lemma platform_mmap_exit_spec (s : st) (h : list (dev_res CR)) :
  m_plat (core (state s)) = true -> m_arch (core (state s)) = true ->
  Permutation (held s) (map_plat :: map_arch :: h) ->
  wp M tlkm_platform_mmap_exit s (fun _ s' =>
    state s' = set_core (set_m_arch false) (set_core (set_m_plat false) (state s)) /\
    Permutation (held s') h).
Proof.
  intros Hp Ha Hh. apply wp_bind, wp_load. rewrite Hp, Ha. apply wp_bind, wp_bind.
  apply (wp_release_perm _ _ _ (map_arch :: h)); [done|]. intros s1 H1 E1.
  apply (wp_update_perm _ _ _ (map_arch :: h)); [done|]. intros s2 H2 E2. apply wp_bind.
  apply (wp_release_perm _ _ _ h); [done|]. intros s3 H3 E3.
  apply (wp_update_perm _ _ _ h); [done|]. intros s4 H4 E4. by rewrite E4, E3, E2, E1.
Qed.
End Steps.

(** ** Composition *)
Section Compose.
Context {CR P : Type} {EqCR : EqDecision CR}.
Variable may_fail : dev_res CR -> bool.
Variable cls : tlkm_class CR P.
Context {Cls : DeviceClass may_fail cls}.
Variable status_core : list Z.
Notation st := (life (dev_res CR) (tlkm_device P)).
Notation M := (life_model may_fail).

(** What the device files account for. *)
Definition file_res (c : dev_core) (b : bool) : list (dev_res CR) :=
  ctrl_res b ++ perfc_res (perfc_named c).

(** Every error label gives back what was obtained before it, and keeps the error. *)
Definition undone (ret : Z) (h : list (dev_res CR)) (r : Z) (s : st) : Prop :=
  r = ret /\ Permutation (held s) h.

Lemma err_control_spec (ret : Z) (s : st) (h : list (dev_res CR)) :
  Permutation (held s) (perfc_res (perfc_named (core (state s))) ++ h) ->
  wp M (err_control ret) s (undone ret h).
Proof. intros Hh. wp_seq (perfc_exit_spec may_fail s h Hh). intros [] s1 H1. by split. Qed.

Lemma err_priv_spec (ret : Z) (s : st) (b : bool) (h : list (dev_res CR)) :
  ctrl (core (state s)) = Some b -> Permutation (held s) (file_res (core (state s)) b ++ h) ->
  wp M (err_priv ret) s (undone ret h).
Proof.
  intros Hc Hh. unfold file_res in Hh. rewrite <- app_assoc in Hh.
  wp_seq (control_exit_spec may_fail s b _ Hc Hh). intros [] s1 [E1 H1].
  apply err_control_spec. by rewrite E1.
Qed.

Lemma err_ioremap_status_spec (ret : Z) (s : st) (b : bool) (h : list (dev_res CR)) :
  ctrl (core (state s)) = Some b ->
  at_stage created (core (state s)) (file_res (core (state s)) b ++ h) s ->
  wp M (err_ioremap_status cls ret) s (undone ret h).
Proof.
  intros Hc Hs. wp_seq (destroy_ok s _ Hs). intros [] s1 [E1 H1].
  apply (err_priv_spec ret s1 b); by rewrite E1.
Qed.

Lemma err_status_spec (ret : Z) (s : st) (b : bool) (h : list (dev_res CR)) :
  ctrl (core (state s)) = Some b -> m_status (core (state s)) = true ->
  at_stage created (core (state s)) (map_status :: file_res (core (state s)) b ++ h) s ->
  wp M (err_status cls ret) s (undone ret h).
Proof.
  intros Hc Hm (E0 & l & HI & Hh).
  assert (Permutation (held s) (map_status :: map cls_res l ++ file_res (core (state s)) b ++ h)) as Hh'
    by (rewrite Hh; perm).
  wp_seq (platform_status_exit_spec may_fail s _ Hm Hh'). intros [] s1 [E1 H1].
  apply (err_ioremap_status_spec ret s1 b); rewrite E1; [done|].
  split; [by rewrite E1|]. exists l. rewrite E1. by split.
Qed.

Lemma err_ioremap_spec (ret : Z) (s : st) (b : bool) (h : list (dev_res CR)) :
  ctrl (core (state s)) = Some b -> m_status (core (state s)) = true ->
  at_stage created (core (state s)) (map_status :: file_res (core (state s)) b ++ h) s ->
  wp M (err_ioremap cls ret) s (undone ret h).
Proof.
  intros Hc Hm (E0 & l & HI & Hh). apply wp_bind. apply (wp_update_perm _ _ _ _ _ Hh).
  intros s1 H1 E1. apply (err_status_spec ret s1 b); rewrite E1; [done|done|].
  split; [by rewrite E1|]. exists l. rewrite E1. by split.
Qed.

(** The windows and files of a device that is up. *)
Definition base_res (c : dev_core) (b : bool) : list (dev_res CR) :=
  map_plat :: map_arch :: map_status :: file_res c b.

Record mapped (c : dev_core) (b : bool) : Prop := {
  u_ctrl : ctrl c = Some b;
  u_status : m_status c = true;
  u_arch : m_arch c = true;
  u_plat : m_plat c = true
}.

Lemma err_sub_spec (ret : Z) (s : st) (b : bool) (h : list (dev_res CR)) :
  mapped (core (state s)) b ->
  at_stage created (core (state s)) (base_res (core (state s)) b ++ h) s ->
  wp M (err_sub cls ret) s (undone ret h).
Proof.
  intros [Hc Hm Ha Hp] (E0 & l & HI & Hh).
  assert (Permutation (held s) (map_plat :: map_arch ::
    map cls_res l ++ map_status :: file_res (core (state s)) b ++ h)) as Hh' by (rewrite Hh; perm).
  wp_seq (platform_mmap_exit_spec may_fail s _ Hp Ha Hh'). intros [] s1 [E1 H1].
  apply (err_ioremap_spec ret s1 b); rewrite E1; [done|done|].
  split; [by rewrite E1|]. exists l. rewrite E1. by split.
Qed.

Lemma err_interrupts_spec (ret : Z) (s : st) (b : bool) (h : list (dev_res CR)) :
  mapped (core (state s)) b ->
  at_stage (with_subsystems (components (core (state s)))) (core (state s))
    (base_res (core (state s)) b ++ h) s ->
  wp M (err_interrupts cls ret) s (undone ret h).
Proof.
  intros Hu Hs. wp_seq (exit_subsystems_ok s _ Hs). intros [] s1 Hs1. pose proof Hs1 as [E1 _].
  apply (err_sub_spec ret s1 b); by rewrite E1.
Qed.

(** Before tlkm_device_init: what kzalloc gives. *)
Record unmapped (c : dev_core) : Prop := {
  n_status : m_status c = false;
  n_arch : m_arch c = false;
  n_plat : m_plat c = false
}.
Definition blank (d : tlkm_device P) : Prop := fresh (private_data d) /\ unmapped (core d).

(** The status core does not have more components than the table has entries, which
    the code does not check (tlkm_status_init would write past the table), and the
    class copes with what a core that can be parsed describes; a simulated device
    has no status core. *)
Definition bitstream_ok (cs : list component) : Prop :=
  is_sim cls = false -> exists ret sta table, tlkm_status_init status_core cs = Some (ret, sta, table) /\
    (ret = 0 -> supported table).

(** A simulated device has its files only. *)
Definition device_up (h : list (dev_res CR)) (s : st) : Prop :=
  exists b,
    if is_sim cls then
      ctrl (core (state s)) = Some b /\ unmapped (core (state s)) /\
      at_stage created (core (state s)) (file_res (core (state s)) b ++ h) s
    else
      mapped (core (state s)) b /\
      at_stage (with_interrupts (components (core (state s)))) (core (state s))
        (base_res (core (state s)) b ++ h) s.

Definition init_post (h : list (dev_res CR)) (ret : Z) (s : st) : Prop :=
  (ret = 0 /\ device_up h s) \/
  (ret <> 0 /\ exists l, leaked may_fail l /\ Permutation (held s) (l ++ h)).

Lemma undone_post (ret r : Z) (h : list (dev_res CR)) (s : st) :
  ret <> 0 -> undone ret h r s -> init_post h r s.
Proof. intros Hr [-> H]. right. split; [done|]. exists []. by split; [left|]. Qed.

(** From the subsystems on. *)
Lemma init_subsystems_spec (s : st) (b : bool) (h : list (dev_res CR)) :
  is_sim cls = false -> mapped (core (state s)) b -> supported (components (core (state s))) ->
  at_stage created (core (state s)) (base_res (core (state s)) b ++ h) s ->
  wp M (let! ret := opt_init (init_subsystems cls) in
        if nonzero ret then err_sub cls ret else
        let! ret := opt_init (init_interrupts cls) in
        if nonzero ret then err_interrupts cls ret else Ret 0) s (init_post h).
Proof.
  intros Hsim Hu Hsup Hs. wp_seq (init_subsystems_ok s _ Hs Hsup). intros ret s1 [[-> Hs1]|[Hr Hs1]];
    pose proof Hs1 as [E1 _].
  2:{ unfold nonzero. rewrite (proj2 (Z.eqb_neq _ _) Hr). simpl.
      eapply wp_mono; [apply (err_sub_spec ret s1 b); by rewrite E1|]. intros r s2. by apply undone_post. }
  simpl. rewrite <- E1 in Hs1, Hsup. wp_seq (init_interrupts_ok s1 _ Hs1 Hsup).
  intros ret s2 [[-> Hs2]|[Hr Hs2]]; pose proof Hs2 as [E2 _].
  - simpl. left. split; [done|]. exists b. rewrite Hsim. by rewrite E2, E1 in *.
  - unfold nonzero. rewrite (proj2 (Z.eqb_neq _ _) Hr). simpl.
    eapply wp_mono; [apply (err_interrupts_spec ret s2 b); by rewrite E2, E1 in *|].
    intros r s3. by apply undone_post.
Qed.

(** From the status window on. *)
Lemma init_windows_spec (s : st) (b : bool) (h : list (dev_res CR)) :
  is_sim cls = false -> ctrl (core (state s)) = Some b -> bitstream_ok (components (core (state s))) ->
  at_stage created (core (state s)) (file_res (core (state s)) b ++ h) s ->
  wp M (let! ret := tlkm_platform_status_init in
        if nonzero ret then err_ioremap_status cls ret else
        let! ret := status_init status_core in
        if nonzero ret then err_status cls ret else
        set_spaces;;;
        let! ret := tlkm_platform_mmap_init in
        if nonzero ret then err_ioremap cls ret else
        let! ret := opt_init (init_subsystems cls) in
        if nonzero ret then err_sub cls ret else
        let! ret := opt_init (init_interrupts cls) in
        if nonzero ret then err_interrupts cls ret else Ret 0) s (init_post h).
Proof.
  intros Hsim Hc Hbit (_ & l & HI & Hh). destruct (Hbit Hsim) as (r0 & sta & table & Hst & Hsup).
  wp_seq (platform_status_init_spec may_fail s _ Hh). intros ret s1 [(-> & E1 & H1)|(Hr & E1 & H1)].
  2:{ unfold nonzero. rewrite (proj2 (Z.eqb_neq _ _)) by lia. simpl.
      eapply wp_mono; [apply (err_ioremap_status_spec ret s1 b h)|intros r s2; apply undone_post; lia].
      - by rewrite E1.
      - split; [done|]. rewrite E1. by exists l. }
  simpl. apply wp_bind, wp_bind, wp_load. rewrite E1.
  change (components (core (set_core (set_m_status true) (state s)))) with (components (core (state s))).
  rewrite Hst. apply wp_bind.
  apply (wp_update_perm _ _ _ _ _ H1). intros s2 H2 E2. rewrite E1 in E2. apply wp_ret.
  unfold nonzero. destruct (Z.eqb_spec r0 0) as [-> | Hr0]; simpl.
  2:{ eapply wp_mono; [apply (err_status_spec r0 s2 b h)|intros r s3; by apply undone_post].
      - by rewrite E2.
      - by rewrite E2.
      - split; [done|]. rewrite E2. exists l. split; [done|]. simpl. rewrite H2. unfold file_res. simpl. perm. }
  apply wp_bind. apply (wp_update_perm _ _ _ _ _ H2). intros s3 H3 E3. rewrite E2 in E3.
  wp_seq (platform_mmap_init_spec may_fail s3 _ H3).
  intros ret s4 [(-> & E4 & H4)|(Hr & (a & p & E4) & H4)].
  - simpl. rewrite E3 in E4. apply (init_subsystems_spec s4 b h); [done|..]; rewrite E4; simpl;
      [by split|by apply Hsup|].
    split; [by rewrite E4|]. rewrite E4. exists l. split; [done|]. rewrite H4.
    unfold base_res, file_res. simpl. perm.
  - rewrite (proj2 (Z.eqb_neq _ _)) by lia. simpl. rewrite E3 in E4.
    eapply wp_mono; [apply (err_ioremap_spec ret s4 b h)|intros r s5; apply undone_post; lia].
    + by rewrite E4.
    + by rewrite E4.
    + split; [done|]. rewrite E4. exists l. split; [done|]. rewrite H4. unfold file_res. simpl. perm.
Qed.

Lemma device_init_spec (s : st) (h : list (dev_res CR)) :
  blank (state s) -> bitstream_ok (components (core (state s))) -> Permutation (held s) h ->
  wp M (tlkm_device_init cls status_core) s (init_post h).
Proof.
  intros [Hb [Hn1 Hn2 Hn3]] Hbit Hh. wp_seq (perfc_init_spec may_fail s h Hh).
  intros ret s1 [(-> & bp & E1 & H1)|(Hr & l & Hl & H1)].
  2:{ unfold nonzero. rewrite (proj2 (Z.eqb_neq _ _)) by lia. simpl. right. split; [lia|]. by exists l. }
  simpl. wp_seq (control_init_spec may_fail s1 _ H1).
  intros ret s2 [(-> & b & E2 & H2)|(Hr & E2 & l & Hl & H2)].
  2:{ unfold nonzero. rewrite (proj2 (Z.eqb_neq _ _)) by lia. simpl.
      eapply wp_mono; [apply (err_control_spec ret s2 (l ++ h))|].
      - rewrite E2, E1, H2. simpl. perm.
      - intros r s3 [-> H3]. right. split; [lia|]. by exists l. }
  simpl. rewrite E1 in E2. rewrite app_assoc in H2.
  assert (fresh (private_data (state s2))) as Hf by (rewrite E2; apply Hb).
  wp_seq (create_ok s2 _ Hf H2). intros ret s3 [[-> Hs3]|(Hr & E3 & H3)].
  - simpl. pose proof Hs3 as [E3 _]. destruct (is_sim cls) eqn:Hsim.
    { apply wp_ret. left. split; [done|]. exists b. rewrite Hsim, E3, E2. split; [done|]. split; [by split|].
      rewrite E2 in Hs3. apply Hs3. }
    apply (init_windows_spec s3 b h); [done|rewrite E3, E2; simpl..].
    + done.
    + done.
    + rewrite E2 in Hs3. apply Hs3.
  - unfold nonzero. rewrite (proj2 (Z.eqb_neq _ _) Hr). simpl.
    eapply wp_mono; [apply (err_priv_spec ret s3 b h)|intros r s4; by apply undone_post].
    + by rewrite E3, E2.
    + by rewrite E3, E2.
Qed.

(** The common part of tlkm_device_exit, for what the windows account for. *)
Lemma exit_class_spec (s : st) (h : list (dev_res CR)) (Q : unit -> st -> Prop) :
  at_stage (with_interrupts (components (core (state s)))) (core (state s)) h s ->
  (forall s', core (state s') = set_status tlkm_status_exit (components (core (state s))) (core (state s)) ->
     Permutation (held s') h ->
     wp M (tlkm_platform_status_exit;;; tlkm_platform_mmap_exit;;; tlkm_control_exit;;;
           tlkm_perfc_miscdev_exit) s' Q) ->
  wp M (tlkm_device_exit cls) s Q.
Proof.
  intros Hs HQ. wp_seq (exit_interrupts_ok s _ Hs). intros [] s1 Hs1.
  pose proof Hs1 as [E1 _]. rewrite <- E1 in Hs1 at 1 2. wp_seq (exit_subsystems_ok s1 _ Hs1).
  intros [] s2 (E2 & l & HI & H2). rewrite E1 in E2. apply wp_bind.
  apply (wp_update_perm _ _ _ _ _ H2). intros s3 H3 E3.
  assert (at_stage created (core (state s3)) h s3) as Hs3.
  { split; [done|]. exists l. split; [by rewrite E3|done]. }
  wp_seq (destroy_ok s3 _ Hs3). intros [] s4 [E4 H4]. rewrite E3 in E4. simpl in E4. rewrite E2 in E4.
  by apply HQ.
Qed.

(** A simulated device: there are no windows to unmap. *)
Lemma sim_exit_spec (s : st) (b : bool) (h : list (dev_res CR)) :
  is_sim cls = true -> ctrl (core (state s)) = Some b -> unmapped (core (state s)) ->
  at_stage created (core (state s)) (file_res (core (state s)) b ++ h) s ->
  wp M (tlkm_device_exit cls) s (fun _ s' => Permutation (held s') h).
Proof.
  intros Hsim Hc [Hn1 Hn2 Hn3] (E0 & l & HI & Hh). eapply exit_class_spec.
  { split; [done|]. exists l. split; [by apply sim_stages|done]. }
  intros s1 E1 H1. apply wp_bind, wp_bind, wp_load. rewrite E1. simpl. rewrite Hn1. apply wp_ret.
  apply wp_bind, wp_bind, wp_load. rewrite E1. simpl. rewrite Hn2, Hn3. apply wp_bind, wp_ret, wp_ret.
  unfold file_res in H1. rewrite <- app_assoc in H1.
  wp_seq (control_exit_spec may_fail s1 b _ (ltac:(by rewrite E1)) H1).
  intros [] s2 [E2 H2]. apply perfc_exit_spec. by rewrite E2, E1.
Qed.

Lemma device_exit_spec (s : st) (h : list (dev_res CR)) :
  device_up h s ->
  wp M (tlkm_device_exit cls) s (fun _ s' => Permutation (held s') h).
Proof.
  intros (b & Hup). destruct (is_sim cls) eqn:Hsim; [destruct Hup as (? & ? & ?); by apply (sim_exit_spec s b)|].
  destruct Hup as ([Hc Hm Ha Hp] & Hs). eapply exit_class_spec; [exact Hs|]. intros s4 E4 H4.
  assert (Permutation (held s4) (map_status :: map_plat :: map_arch :: file_res (core (state s)) b ++ h))
    as H4' by (rewrite H4; unfold base_res; simpl; perm).
  wp_seq (platform_status_exit_spec may_fail s4 _ (ltac:(by rewrite E4)) H4'). intros [] s5 [E5 H5].
  wp_seq (platform_mmap_exit_spec may_fail s5 _ (ltac:(by rewrite E5; simpl; rewrite E4))
            (ltac:(by rewrite E5; simpl; rewrite E4)) H5). intros [] s6 [E6 H6].
  assert (state s6 = set_core (set_m_arch false) (set_core (set_m_plat false)
    (set_core (set_m_status false) (state s4)))) as E6' by congruence.
  unfold file_res in H6. rewrite <- app_assoc in H6.
  wp_seq (control_exit_spec may_fail s6 b _ (ltac:(by rewrite E6'; simpl; rewrite E4)) H6).
  intros [] s7 [E7 H7]. apply perfc_exit_spec. rewrite E7, E6'. simpl. by rewrite E4.
Qed.
End Compose.

(** ** Theorem *)

(** C37: Bringing a device up is all or nothing, for every device class that keeps the
    promise of the interface [DeviceClass] and every bitstream that is [bitstream_ok]:
    its status core has at most the 16 entries of dev->components (the code does not
    check this, tlkm_status_init would write past the table), and what it describes is
    something the class supports (for a Zynq: interrupt controllers numbered from 0
    without a gap); a status core that cannot be parsed is allowed.  Which resources
    the kernel may refuse is a parameter; a class may need some of its own to be
    granted (a Zynq the names and lines of its interrupts).  For these: whichever
    allocation, registration, mapping or class function fails, tlkm_device_init does
    not use anything it does not hold; if it returns 0, the device holds exactly its
    files, its register windows and what its class owns with interrupts set up; if it
    returns an error, everything obtained has been given back, but for the name of a
    device file whose registration failed.  tlkm_device_exit of a device that is up
    gives back exactly what it holds. *)
Theorem tlkm_device_init_exit {CR P : Type} {EqCR : EqDecision CR} (may_fail : dev_res CR -> bool)
    (cls : tlkm_class CR P) {Cls : DeviceClass may_fail cls}
    (status_core : list Z)
    (h : list (dev_res CR)) (s : life (dev_res CR) (tlkm_device P)) :
  (Permutation (held s) h -> blank may_fail cls (state s) ->
   bitstream_ok may_fail cls status_core (components (core (state s))) ->
   wp (life_model may_fail) (tlkm_device_init cls status_core) s (fun ret s' =>
     (ret = 0 /\ device_up may_fail cls h s') \/
     (ret <> 0 /\ exists l, leaked may_fail l /\ Permutation (held s') (l ++ h)))) /\
  (device_up may_fail cls h s ->
   wp (life_model may_fail) (tlkm_device_exit cls) s (fun _ s' => Permutation (held s') h)).
Proof.
  split; [|apply device_exit_spec]. intros Hh Hb Hbit. by apply device_init_spec.
Qed.

End DeviceLife.
