(* ===== verification/Registers.v ===== *)
(** * Register windows of a device, and the commands of its control file
      (tlkm/tlkm_platform.c: addr2map_off, addr2map, tlkm_platform_read,
       tlkm_platform_write; device/tlkm_device_mmap.c; device/tlkm_device_ioctl.c; the
       dispatchers of pcie/pcie_ioctl.c and zynq/zynq_ioctl.c)

    A device has three register windows, mapped by DeviceLife.v: the status core, the
    processing elements and the platform.  User space reads and writes them with
    commands, or maps them.  Every command of a device goes through the same
    dispatcher, which copies its argument from and to user space. *)
From S2P Require Import Prelude Status DeviceLife.

Module Registers.
Import DeviceLife(regspace, base, size) Status(str, strncmp_eq).

(** ** Windows *)
Inductive window := w_status | w_arch | w_plat.
#[export] Instance window_eq_dec : EqDecision window.
Proof. solve_decision. Defined.

(** What a device keeps: base_offset, the base of the status core in its class, arch
    and plat, and the three mapped windows with their bytes (None: not mapped).  [hook]
    is the addr2map function of the class, if it has one. *)
Record dev := mk_dev {
  base_offset : Z;
  status_base : Z;
  arch : regspace;
  plat : regspace;
  mmap_status : option (list Z);
  mmap_arch : option (list Z);
  mmap_plat : option (list Z);
  hook : option (Z -> Z)
}.

Definition mem (d : dev) (w : window) : option (list Z) :=
  match w with w_status => mmap_status d | w_arch => mmap_arch d | w_plat => mmap_plat d end.

Definition set_mem (w : window) (l : list Z) (d : dev) : dev :=
  match w with
  | w_status => mk_dev (base_offset d) (status_base d) (arch d) (plat d) (Some l) (mmap_arch d) (mmap_plat d) (hook d)
  | w_arch => mk_dev (base_offset d) (status_base d) (arch d) (plat d) (mmap_status d) (Some l) (mmap_plat d) (hook d)
  | w_plat => mk_dev (base_offset d) (status_base d) (arch d) (plat d) (mmap_status d) (mmap_arch d) (Some l) (hook d)
  end.

(** Physical address of an offset in the control file; 0 is NULL. *)
Definition addr2map_off (d : dev) (addr : Z) : Z :=
  if addr =? 0 then u64 (base_offset d + status_base d)
  else if addr =? 4096 then u64 (base_offset d + base (arch d))
  else if addr =? 8192 then u64 (base_offset d + base (plat d))
  else match hook d with Some f => f addr | None => 0 end.

(** The mapped window of an address; None: NULL. *)
Definition addr2map (d : dev) (addr : Z) : option window :=
  let w := if addr =? 0 then Some w_status
           else if addr =? 4096 then Some w_arch
           else if addr =? 8192 then Some w_plat
           else None in
  match w with
  | Some w => match mem d w with Some _ => Some w | None => None end
  | None => None
  end.

(** ** Reading and writing *)

(** struct tlkm_copy_cmd, without the user address: the user memory is an argument. *)
Record tlkm_copy_cmd := mk_copy { length_ : Z; dev_addr : Z }.

(** A window is modelled as memory: it gives back what was last written.
    memcpy_fromio and memcpy_toio at the start of a window; None: an access behind
    its end. *)
Definition fromio (l : list Z) (n : Z) : option (list Z) :=
  if n <=? Z.of_nat (length l) then Some (take (Z.to_nat n) l) else None.
Definition toio (l bytes : list Z) : option (list Z) :=
  if Z.of_nat (length bytes) <=? Z.of_nat (length l)
  then Some (bytes ++ drop (length bytes) l) else None.

(** tlkm_platform_read: result and what reaches user space.  [kzalloc_ok]: the buffer
    is not NULL, which the code does not check; [fault]: copy_to_user stops after this
    number of bytes, or copies all. *)
Definition tlkm_platform_read (kzalloc_ok : bool) (fault : option nat) (d : dev) (cmd : tlkm_copy_cmd)
    : option (Z * list Z) :=
  match addr2map d (dev_addr cmd) with
  | None => Some (- ENXIO, [])
  | Some w =>
      l ← mem d w;
      buf ← (if kzalloc_ok then fromio l (length_ cmd) else None);
      match fault with
      | None => Some (0, buf)
      | Some k => Some (- EAGAIN, take k buf)
      end
  end.

(** tlkm_platform_write: [user] are the bytes at user_addr, None if they cannot be
    read. *)
Definition tlkm_platform_write (kzalloc_ok : bool) (user : option (list Z)) (d : dev) (cmd : tlkm_copy_cmd)
    : option (Z * dev) :=
  match addr2map d (dev_addr cmd) with
  | None => Some (- ENXIO, d)
  | Some w =>
      if negb kzalloc_ok then None else
      match user with
      | None => Some (- EAGAIN, d)
      | Some bytes =>
          l ← mem d w;
          l' ← toio l (take (Z.to_nat (length_ cmd)) bytes);
          Some (0, set_mem w l' d)
      end
  end.

(** ** Mapping *)
Definition PAGE_SHIFT : Z := 12.

(** What remap_pfn_range was asked for: the first page frame, the number of bytes and
    whether caching is off. *)
Record mapping := mk_mapping { pfn : Z; sz : Z; noncached : bool }.

(** tlkm_device_mmap; [name]: dp->name, [remap]: the result of remap_pfn_range.  Of a
    simulated device nothing is mapped. *)
Definition tlkm_device_mmap (name : list Z) (d : dev) (vm_start vm_end vm_pgoff remap : Z) : Z * option mapping :=
  let sz := s64 (vm_end - vm_start) in
  let off := u64 (Z.shiftl vm_pgoff PAGE_SHIFT) in
  let kptr := addr2map_off d off in
  if strncmp_eq 3 name (str "sim") then (0, None) else
  if kptr =? 0 then (- ENXIO, None) else
  if nonzero remap then (- EAGAIN, None) else
  (0, Some (mk_mapping (Z.shiftr kptr PAGE_SHIFT) sz (Z.shiftr off PAGE_SHIFT <? 4))).

(** ** Commands *)

(** TLKM_DEV_IOCTL_CMDS, in order. *)
Inductive command :=
| INFO | SIZE | ALLOC | FREE | COPYTO | COPYFROM | REGISTER_INTERRUPT | ALLOC_COPYTO | COPYFROM_FREE
| READ | WRITE | DMA_BUFFER_ALLOCATE | DMA_BUFFER_FREE | DMA_BUFFER_TO_DEV | DMA_BUFFER_FROM_DEV
| KERNEL_BUFFER_ALLOCATE | KERNEL_BUFFER_FREE | KERNEL_BUFFER_MAP | KERNEL_BUFFER_UNMAP | PCIE_BAR_ADDR
| SVM_LAUNCH | SVM_MIGRATE_TO_DEV | SVM_MIGRATE_TO_RAM.
#[export] Instance command_eq_dec : EqDecision command.
Proof. solve_decision. Defined.

Definition TLKM_DEV_IOCTL_CMDS : list command :=
  [INFO; SIZE; ALLOC; FREE; COPYTO; COPYFROM; REGISTER_INTERRUPT; ALLOC_COPYTO; COPYFROM_FREE; READ; WRITE;
   DMA_BUFFER_ALLOCATE; DMA_BUFFER_FREE; DMA_BUFFER_TO_DEV; DMA_BUFFER_FROM_DEV; KERNEL_BUFFER_ALLOCATE;
   KERNEL_BUFFER_FREE; KERNEL_BUFFER_MAP; KERNEL_BUFFER_UNMAP; PCIE_BAR_ADDR; SVM_LAUNCH;
   SVM_MIGRATE_TO_DEV; SVM_MIGRATE_TO_RAM].

Definition cmd_id (c : command) : Z :=
  match c with
  | INFO => 1 | SIZE => 2 | ALLOC => 16 | FREE => 17 | COPYTO => 18 | COPYFROM => 19
  | REGISTER_INTERRUPT => 20 | ALLOC_COPYTO => 32 | COPYFROM_FREE => 33 | READ => 48 | WRITE => 49
  | DMA_BUFFER_ALLOCATE => 64 | DMA_BUFFER_FREE => 65 | DMA_BUFFER_TO_DEV => 66
  | DMA_BUFFER_FROM_DEV => 67 | KERNEL_BUFFER_ALLOCATE => 68 | KERNEL_BUFFER_FREE => 69
  | KERNEL_BUFFER_MAP => 70 | KERNEL_BUFFER_UNMAP => 71 | PCIE_BAR_ADDR => 79 | SVM_LAUNCH => 80
  | SVM_MIGRATE_TO_DEV => 82 | SVM_MIGRATE_TO_RAM => 83
  end.

Section Dispatch.
(** The size of the argument of each command. *)
Variable sizeof : command -> Z.

(** _IOWR('d', id, dt) *)
Definition ioctl_number (c : command) : Z :=
  Z.lor (Z.lor (Z.lor (Z.shiftl 3 30) (Z.shiftl (sizeof c) 16)) (Z.shiftl 100 8)) (cmd_id c).

Fixpoint find_cmd (ioctl : Z) (l : list command) : option command :=
  match l with
  | [] => None
  | c :: r => if ioctl =? ioctl_number c then Some c else find_cmd ioctl r
  end.

(** The dispatcher of a class, pcie_ioctl or zynq_ioctl: [data] is the argument in
    user space (None: it cannot be read), [copied_back] whether it can be written;
    [run] are the functions of the class. *)
Context {A S : Type}.
Variable run : command -> A -> S -> option (Z * A * S).

Definition class_ioctl (data : option A) (copied_back : bool) (ioctl : Z) (s : S)
    : option (Z * option A * S) :=
  match find_cmd ioctl TLKM_DEV_IOCTL_CMDS with
  | None => Some (- ENXIO, None, s)
  | Some c =>
      match data with
      | None => Some (- EFAULT, None, s)
      | Some d =>
          '(ret, d', s') ← run c d s;
          if copied_back then Some (ret, Some d', s') else Some (- EFAULT, None, s')
      end
  end.

(** tlkm_device_ioctl: three commands are the control file's own ([own]); [ioctl_f] is
    cls->ioctl, and NULL is a BUG. *)
Variable own : command -> S -> option (Z * option A * S).
Variable ioctl_f : option (option A -> bool -> Z -> S -> option (Z * option A * S)).
Definition tlkm_device_ioctl (data : option A) (copied_back : bool) (ioctl : Z) (s : S)
    : option (Z * option A * S) :=
  if ioctl =? ioctl_number INFO then own INFO s
  else if ioctl =? ioctl_number SIZE then own SIZE s
  else if ioctl =? ioctl_number REGISTER_INTERRUPT then own REGISTER_INTERRUPT s
  else match ioctl_f with
       | None => None
       | Some f => f data copied_back ioctl s
       end.
End Dispatch.

(** The functions of a class that do more than to answer -EFAULT. *)
Definition zynq_implements (c : command) : bool :=
  match c with
  | ALLOC | FREE | COPYTO | COPYFROM | ALLOC_COPYTO | COPYFROM_FREE | READ | WRITE => true
  | _ => false
  end.
Definition pcie_implements (en_svm : bool) (c : command) : bool :=
  match c with
  | READ | WRITE | DMA_BUFFER_ALLOCATE | DMA_BUFFER_FREE | DMA_BUFFER_TO_DEV | DMA_BUFFER_FROM_DEV
  | KERNEL_BUFFER_ALLOCATE | KERNEL_BUFFER_FREE | KERNEL_BUFFER_MAP | KERNEL_BUFFER_UNMAP
  | PCIE_BAR_ADDR => true
  | SVM_LAUNCH | SVM_MIGRATE_TO_DEV | SVM_MIGRATE_TO_RAM => en_svm
  | _ => false
  end.
Definition class_run {A S} (implements : command -> bool) (f : command -> A -> S -> option (Z * A * S))
    (c : command) (a : A) (s : S) : option (Z * A * S) :=
  if implements c then f c a s else Some (- EFAULT, a, s).

(** ** Dispatching *)

(** The id is the low byte of the number. *)
Lemma number_id (sizeof : command -> Z) (c : command) : 0 <= sizeof c -> ioctl_number sizeof c mod 256 = cmd_id c.
Proof.
  intros Hs. unfold ioctl_number. change 256 with (2 ^ 8). rewrite <- Z.land_ones by lia.
  rewrite !Z.land_lor_distr_l, (Z.land_ones (Z.shiftl (sizeof c) 16)) by lia.
  rewrite (Z.shiftl_mul_pow2 (sizeof c)) by lia.
  replace ((sizeof c * 2 ^ 16) mod 2 ^ 8) with 0 by dlia. by destruct c.
Qed.

Lemma cmd_id_inj (c c' : command) : cmd_id c = cmd_id c' -> c = c'.
Proof. destruct c; destruct c'; simpl; intros; try done; lia. Qed.

Lemma number_inj (sizeof : command -> Z) (c c' : command) :
  (forall c, 0 <= sizeof c) -> ioctl_number sizeof c = ioctl_number sizeof c' -> c = c'.
Proof. intros Hs E. apply cmd_id_inj. by rewrite <- !(number_id sizeof), E. Qed.

(** Every command is found by its number. *)
Lemma find_cmd_number (sizeof : command -> Z) (c : command) (l : list command) :
  (forall c, 0 <= sizeof c) -> c ∈ l -> find_cmd sizeof (ioctl_number sizeof c) l = Some c.
Proof.
  intros Hs. induction l as [|x l IH]; intros Hc; [by apply elem_of_nil in Hc|]. simpl.
  destruct (Z.eqb_spec (ioctl_number sizeof c) (ioctl_number sizeof x)) as [E|Hne].
  - by rewrite (number_inj sizeof c x Hs E).
  - apply elem_of_cons in Hc as [->|Hc]; [done|]. by apply IH.
Qed.

Lemma find_cmd_unknown (sizeof : command -> Z) (nr : Z) (l : list command) :
  (forall c, nr <> ioctl_number sizeof c) -> find_cmd sizeof nr l = None.
Proof. intros Hn. induction l as [|x l IH]; simpl; [done|]. by rewrite (proj2 (Z.eqb_neq _ _) (Hn x)). Qed.

Lemma all_commands (c : command) : c ∈ TLKM_DEV_IOCTL_CMDS.
Proof. unfold TLKM_DEV_IOCTL_CMDS. destruct c; set_solver. Qed.

(** A command reaches the function of its class and no other; the three commands of the
    control file never reach the class; an unknown number is refused; a command the
    class does not implement changes nothing.  When the result cannot be copied back,
    the command is reported as failed although it has been carried out. *)
Theorem command_dispatch {A S : Type} (sizeof : command -> Z) (implements : command -> bool)
    (f : command -> A -> S -> option (Z * A * S)) (own : command -> S -> option (Z * option A * S))
    (data : A) (back : bool) (s : S) :
  (forall c, 0 <= sizeof c) ->
  let ioctl := tlkm_device_ioctl sizeof own (Some (class_ioctl sizeof (class_run implements f))) in
  (forall c, c = INFO \/ c = SIZE \/ c = REGISTER_INTERRUPT ->
     ioctl (Some data) back (ioctl_number sizeof c) s = own c s) /\
  (forall c, c <> INFO -> c <> SIZE -> c <> REGISTER_INTERRUPT ->
     ioctl (Some data) back (ioctl_number sizeof c) s =
       if implements c then
         '(ret, d', s') ← f c data s; Some (if back then (ret, Some d', s') else (- EFAULT, None, s'))
       else Some (- EFAULT, if back then Some data else None, s)) /\
  (forall c, c <> INFO -> c <> SIZE -> c <> REGISTER_INTERRUPT ->
     ioctl None back (ioctl_number sizeof c) s = Some (- EFAULT, None, s)) /\
  (forall nr, (forall c, nr <> ioctl_number sizeof c) ->
     ioctl (Some data) back nr s = Some (- ENXIO, None, s)).
Proof.
  intros Hs ioctl. unfold ioctl, tlkm_device_ioctl.
  assert (forall c c', c <> c' -> (ioctl_number sizeof c =? ioctl_number sizeof c') = false) as Hne.
  { intros c c' Hc. apply Z.eqb_neq. intros E. apply Hc. by apply (number_inj sizeof). }
  split; [|split; [|split]].
  - intros c [->|[->| ->]]; by rewrite ?Z.eqb_refl, ?Hne, ?Z.eqb_refl.
  - intros c H1 H2 H3. rewrite !Hne by done. unfold class_ioctl.
    rewrite find_cmd_number by (done || apply all_commands). unfold class_run. destruct (implements c).
    + destruct (f c data s) as [[[ret d'] s']|]; [|done]. by destruct back.
    + by destruct back.
  - intros c H1 H2 H3. rewrite !Hne by done. unfold class_ioctl.
    by rewrite find_cmd_number by (done || apply all_commands).
  - intros nr Hn. rewrite !(proj2 (Z.eqb_neq _ _)) by apply Hn. unfold class_ioctl.
    by rewrite find_cmd_unknown.
Qed.

(** ** Registers *)
Definition window_addr (w : window) : Z := match w with w_status => 0 | w_arch => 4096 | w_plat => 8192 end.

Lemma mem_set_mem (d : dev) (w w' : window) (l : list Z) :
  mem (set_mem w l d) w' = if decide (w' = w) then Some l else mem d w'.
Proof. by destruct w, w'. Qed.

Lemma addr2map_window (d : dev) (w : window) (l : list Z) :
  mem d w = Some l -> addr2map d (window_addr w) = Some w.
Proof. destruct d, w; simpl; intros ->; done. Qed.

Lemma addr2map_other (d : dev) (a : Z) : (forall w, a <> window_addr w) -> addr2map d a = None.
Proof.
  intros Ha. unfold addr2map. rewrite !(proj2 (Z.eqb_neq _ _)); [done|apply (Ha w_plat)|apply (Ha w_arch)|apply (Ha w_status)].
Qed.

(** C32: The registers of a device through its control file, for a window that is mapped
    and behaves as memory (a register whose value the hardware changes, or that cannot be
    written, does not).  When kzalloc succeeds, what is written to a window is what is
    read back, the bytes behind it and the other windows keep their values; an address
    that is not one of the three windows is refused; user memory that cannot be read
    changes nothing, and when user memory cannot be written to the end, read returns
    EAGAIN and a first part of the bytes has been copied.  The code does not compare the
    length with the size of the window: a longer access leaves it.  It does not look at
    the result of kzalloc either: if the allocation fails, both access NULL.  The three
    windows can be mapped, at the page offsets 0, 1 and 2, without caching and with any
    size, unless the device is simulated or remap_pfn_range fails. *)
Theorem register_access (d : dev) (w : window) (l bytes : list Z) (fault : option nat) :
  mem d w = Some l ->
  let n := Z.of_nat (length bytes) in
  let cmd := mk_copy n (window_addr w) in
  (n <= Z.of_nat (length l) -> exists d',
     tlkm_platform_write true (Some bytes) d cmd = Some (0, d') /\
     tlkm_platform_read true None d' cmd = Some (0, bytes) /\
     (forall k, tlkm_platform_read true (Some k) d' cmd = Some (- EAGAIN, take k bytes)) /\
     tlkm_platform_read true None d' (mk_copy (Z.of_nat (length l)) (window_addr w))
       = Some (0, bytes ++ drop (length bytes) l) /\
     forall w', w' <> w -> mem d' w' = mem d w') /\
  (Z.of_nat (length l) < n ->
     tlkm_platform_write true (Some bytes) d cmd = None /\ tlkm_platform_read true fault d cmd = None) /\
  tlkm_platform_write true None d cmd = Some (- EAGAIN, d) /\
  (forall user, tlkm_platform_write false user d cmd = None /\ tlkm_platform_read false fault d cmd = None) /\
  (forall a kzalloc_ok, (forall w, a <> window_addr w) ->
     tlkm_platform_read kzalloc_ok fault d (mk_copy n a) = Some (- ENXIO, []) /\
     tlkm_platform_write kzalloc_ok (Some bytes) d (mk_copy n a) = Some (- ENXIO, d)) /\
  (forall name vm_start sz, strncmp_eq 3 name (str "sim") = false ->
     0 <= sz < 2 ^ 63 -> addr2map_off d (window_addr w) <> 0 ->
     tlkm_device_mmap name d vm_start (vm_start + sz) (window_addr w / 4096) 0
       = (0, Some (mk_mapping (Z.shiftr (addr2map_off d (window_addr w)) PAGE_SHIFT) sz true))).
Proof.
  intros Hm n cmd. pose proof (addr2map_window d w l Hm) as Ha.
  assert (Z.to_nat n = length bytes) as Hn by (unfold n; lia).
  split; [|split; [|split; [|split; [|split]]]].
  - intros Hle. exists (set_mem w (bytes ++ drop (length bytes) l) d).
    assert (mem (set_mem w (bytes ++ drop (length bytes) l) d) w = Some (bytes ++ drop (length bytes) l)) as Hm'
      by (rewrite mem_set_mem; by rewrite decide_True).
    pose proof (addr2map_window _ w _ Hm') as Ha'.
    assert (length (bytes ++ drop (length bytes) l) = length l) as Hlen
      by (rewrite length_app, length_drop; unfold n in Hle; lia).
    split; [|split; [|split; [|split]]].
    + unfold tlkm_platform_write. simpl. rewrite Ha, Hm, Hn, firstn_all. simpl. unfold toio.
      by rewrite (proj2 (Z.leb_le _ _)).
    + unfold tlkm_platform_read, fromio. simpl. rewrite Ha', Hm'. simpl. rewrite Hlen, (proj2 (Z.leb_le _ _)) by done.
      rewrite Hn. simpl. by rewrite take_app_length.
    + intros k. unfold tlkm_platform_read, fromio. simpl. rewrite Ha', Hm'. simpl.
      rewrite Hlen, (proj2 (Z.leb_le _ _)) by done. rewrite Hn. simpl. by rewrite take_app_length.
    + unfold tlkm_platform_read, fromio. simpl. rewrite Ha', Hm'. simpl. rewrite Hlen, Z.leb_refl. simpl.
      by rewrite Nat2Z.id, <- Hlen, firstn_all.
    + intros w' Hw'. rewrite mem_set_mem. by rewrite decide_False.
  - intros Hlt. unfold tlkm_platform_write, tlkm_platform_read, fromio, toio. simpl.
    rewrite Ha, Hm, Hn, firstn_all. simpl. fold n. by rewrite (proj2 (Z.leb_gt _ _)).
  - unfold tlkm_platform_write. simpl. by rewrite Ha.
  - intros user. unfold tlkm_platform_read, tlkm_platform_write. simpl. by rewrite Ha, Hm.
  - intros a ok Hw. unfold tlkm_platform_read, tlkm_platform_write. simpl. by rewrite addr2map_other.
  - intros name vs sz Hname Hsz Hp. unfold tlkm_device_mmap. rewrite Hname. simpl.
    assert (u64 (Z.shiftl (window_addr w / 4096) PAGE_SHIFT) = window_addr w) as -> by (by destruct w).
    rewrite (proj2 (Z.eqb_neq _ _)) by done. change (nonzero 0) with false. cbv iota.
    replace (vs + sz - vs) with sz by lia. unfold s64. rewrite swrap_small by lia.
    by destruct w.
Qed.

(** ** Witness *)
Definition demo_dev : dev :=
  mk_dev 65536 0 (DeviceLife.mk_regspace 8192 8195 4) (DeviceLife.mk_regspace 16384 16387 4)
    (Some [1; 2]) (Some [3; 4; 5; 6]) (Some [7; 8]) None.

Lemma register_access_witness :
  exists d', tlkm_platform_write true (Some [9; 10]) demo_dev (mk_copy 2 4096) = Some (0, d') /\
    tlkm_platform_read true None d' (mk_copy 4 4096) = Some (0, [9; 10; 5; 6]).
Proof.
  destruct (register_access demo_dev w_arch [3; 4; 5; 6] [9; 10] None eq_refl) as [H _].
  destruct (H ltac:(simpl; lia)) as (d' & H1 & _ & _ & H3 & _). by exists d'.
Defined.

End Registers.
