(* ===== verification/ZynqDevice.v ===== *)
(** * The Zynq device classes (zynq/zynq_device.c, zynq/zynq_irq.c: set-up)

    The functions of zynq_cls and zynqmp_cls that DeviceLife.v calls, and the proof
    that they keep its interface.  The DMA buffers of a Zynq device are those of
    ZynqDma.v; its interrupt controllers start with the empty table of Irq.v. *)
From stdpp Require Import strings.
From S2P Require Import Prelude Kernel Lifecycle StatusCore StatusRefine StatusWire Status DeviceLife Fsp ZynqDma Irq.

Module ZynqDevice.
Import Kernel Lifecycle DeviceLife.
Import StatusCore(component) StatusRefine(NONE) Status(str, tlkm_status_get_component_base).
Import ZynqDma(zynq, zynq_dmamgmt_init, zynq_dmamgmt_exit, zynq_inv, exit_loop, elem, kvirt_addr,
  zynq_dmamgmt_dealloc, dmamgmt_dealloc_spec, zynq_init_inv, zi_free, zi_pool, ids_range,
  ZYNQ_DMAMGMT_POOLSZ).
#[local] Open Scope prog_scope.

(** ** State and resources *)

(** An interrupt line, by its index in the device tree and the controller that is
    passed to the handler; the name that was given with it. *)
Inductive zynq_res := zirq (line controller : Z) | zname (controller : Z).

#[export] Instance zynq_res_eq_dec : EqDecision zynq_res.
Proof. solve_decision. Defined.

(** struct zynq_irq_mapping *)
Record intc_base := mk_intc { intc : Z; start : Z; id : Z; mapping : option (Z * Z) }.

(** _zynq_dev and the DMA buffers; [attached]: dev->private_data points to it;
    [intc_writes]: the writes to the interrupt controllers (controller, register, value). *)
Record zynq_device := mk_zynq_device {
  attached : bool;
  requested_irq_num : Z;
  intc_bases : list intc_base;
  intc_writes : list (Z * Z * Z);
  dma : zynq
}.

Definition set_attached (b : bool) (z : zynq_device) : zynq_device :=
  mk_zynq_device b (requested_irq_num z) (intc_bases z) (intc_writes z) (dma z).
Definition set_requested (n : Z) (z : zynq_device) : zynq_device :=
  mk_zynq_device (attached z) n (intc_bases z) (intc_writes z) (dma z).
Definition set_intc (i : Z) (b : intc_base) (z : zynq_device) : zynq_device :=
  mk_zynq_device (attached z) (requested_irq_num z) (<[Z.to_nat i := b]> (intc_bases z)) (intc_writes z) (dma z).
Definition set_dma (d : zynq) (z : zynq_device) : zynq_device :=
  mk_zynq_device (attached z) (requested_irq_num z) (intc_bases z) (intc_writes z) d.
Definition add_write (controller reg v : Z) (z : zynq_device) : zynq_device :=
  mk_zynq_device (attached z) (requested_irq_num z) (intc_bases z)
    (intc_writes z ++ [(controller, reg, v)]) (dma z).

Notation device := (tlkm_device zynq_device).
Notation L := (prog (lifeE (dev_res zynq_res) device)).

Definition set_private (f : zynq_device -> zynq_device) (d : device) : device :=
  mk_device (core d) (base_offset d) (f (private_data d)).

(** ** zynq_device.c *)

Definition zynq_device_init : L Z := update (set_private (set_attached true));;; Ret 0.
Definition zynq_device_exit : L unit := update (set_private (set_attached false)).

Definition zynq_device_init_subsystems : L Z :=
  update (set_private (set_dma zynq_dmamgmt_init));;;
  update (set_private (set_requested 0));;;
  Ret 0.

Definition zynq_device_exit_subsystems : L unit :=
  let! d := call load in
  match zynq_dmamgmt_exit (dma (private_data d)) with
  | Some z => update (set_private (set_dma z))
  | None => call bug
  end.

(** ** zynq_irq.c *)

Definition intc_name (i : Z) : list Z := str "PLATFORM_COMPONENT_INTC" ++ [48 + i].

(** zynq_init_intc: acknowledge everything, enable; the status is read and dropped. *)
Definition zynq_init_intc (i : Z) : L unit :=
  update (set_private (add_write i 2 (u32 (-1))));;;
  update (set_private (add_write i 7 3));;;
  call read_reg;;;
  Ret tt.

(** while (--zdev->requested_irq_num >= 0), from the label err of zynq_irq_init: the
    line is the one that failed. *)
Fixpoint err_loop (line : Z) (n : nat) : L unit :=
  match n with
  | O => update (set_private (set_requested (-1)))
  | S k =>
      update (set_private (set_requested (Z.of_nat k)));;;
      call (release (cls_res (zirq line (Z.of_nat k))));;;
      err_loop line k
  end.

Fixpoint irq_init_loop (l : list Z) : L Z :=
  match l with
  | [] => Ret 0
  | i :: r =>
      let! d := call load in
      let rirq := requested_irq_num (private_data d) in
      let offset := tlkm_status_get_component_base (components (core d)) (intc_name i) in
      if offset =? NONE then irq_init_loop r else
      update (set_private (set_intc i (mk_intc offset (i * 32) i None)));;;
      zynq_init_intc i;;;
      let! ok := call (acquire (cls_res (zname i))) in
      if negb ok then call bug;;; Ret 0 else
      let! retval := call (request (cls_res (zirq rirq i))) in
      update (set_private (fun z => set_requested (requested_irq_num z + 1) z));;;
      if nonzero retval then err_loop rirq (Z.to_nat (rirq + 1));;; Ret retval
      else irq_init_loop r
  end.

Definition zynq_irq_init : L Z :=
  update (set_private (set_requested 0));;; irq_init_loop [0; 1; 2; 3].

(** while (zdev->requested_irq_num): free_irq returns the name. *)
Fixpoint irq_exit_loop (n : nat) : L unit :=
  match n with
  | O => Ret tt
  | S k =>
      update (set_private (set_requested (Z.of_nat k)));;;
      call (release (cls_res (zirq (Z.of_nat k) (Z.of_nat k))));;;
      call (release (cls_res (zname (Z.of_nat k))));;;
      irq_exit_loop k
  end.

Definition zynq_irq_exit : L unit :=
  let! d := call load in irq_exit_loop (Z.to_nat (requested_irq_num (private_data d))).

(** zynq_cls and zynqmp_cls *)
Definition zynq_cls_of (name : list Z) : tlkm_class zynq_res zynq_device :=
  mk_class name zynq_device_init zynq_device_exit
    (Some zynq_device_init_subsystems) (Some zynq_device_exit_subsystems)
    (Some zynq_irq_init) (Some zynq_irq_exit).
Definition zynq_cls : tlkm_class zynq_res zynq_device := zynq_cls_of (str "zynq").
Definition zynqmp_cls : tlkm_class zynq_res zynq_device := zynq_cls_of (str "zynqmp").

(** ** The DMA buffers at exit *)

Lemma zynq_inv_perm (ids ids' : list Z) (s : zynq) :
  Permutation ids ids' -> zynq_inv ids s -> zynq_inv ids' s.
Proof.
  intros E [H1 H2 H3 H4 H5 H6]. split.
  - by eapply Fsp.fsp_inv_perm; [exact ZynqDma.POOLSZ_ok|reflexivity|exact E|exact H1].
  - done.
  - intros i Hi Hn. apply H3; [done|]. by rewrite E.
  - intros i Hi. apply H4. by rewrite E.
  - intros i j Hi Hj. apply H5; by rewrite E.
  - intros i j Hi Hj. apply H6; by rewrite E.
Qed.

Lemma exit_loop_spec (l ids : list Z) (s : zynq) :
  zynq_inv ids s -> (forall i, i ∈ l -> 0 <= i < ZYNQ_DMAMGMT_POOLSZ) ->
  (forall i, i ∈ ids -> i ∈ l) ->
  exists s', exit_loop s l = Some s' /\ zynq_inv [] s'.
Proof.
  revert ids s. induction l as [|i l IH]; intros ids s Hs Hl Hids; simpl.
  { exists s. split; [done|]. destruct ids as [|j ids]; [done|].
    by specialize (Hids j ltac:(left)) as ?%elem_of_nil. }
  assert (0 <= i < ZYNQ_DMAMGMT_POOLSZ) as Hi by (apply Hl; left).
  destruct (decide (i ∈ ids)) as [Hin|Hin].
  - pose proof (Fsp.fi_nodup _ _ _ _ (zi_pool _ _ Hs)) as Hnd. rewrite app_nil_r in Hnd.
    pose proof (remove_one_perm i ids Hin) as E. rewrite E in Hnd. apply NoDup_cons in Hnd as [Hni _].
    destruct (ZynqDma.zi_used _ _ Hs i Hin) as [Hk _]. unfold nonzero.
    rewrite (proj2 (Z.eqb_neq _ _) Hk). simpl.
    destruct (dmamgmt_dealloc_spec (remove_one i ids) s i) as (s1 & -> & Hs1 & _);
      [by apply (zynq_inv_perm ids)|]. simpl.
    apply (IH (remove_one i ids)); [done|intros j Hj; apply Hl; by right|].
    intros j Hj. assert (j ∈ i :: l) as Hjl by (apply Hids; rewrite E; by right).
    apply elem_of_cons in Hjl as [-> | ?]; [|done]. by destruct Hni.
  - rewrite (zi_free _ _ Hs i Hi Hin). simpl.
    apply (IH ids); [done|intros j Hj; apply Hl; by right|].
    intros j Hj. specialize (Hids j Hj). apply elem_of_cons in Hids as [-> | ?]; done.
Qed.

Lemma dmamgmt_exit_spec (ids : list Z) (s : zynq) :
  zynq_inv ids s -> exists s', zynq_dmamgmt_exit s = Some s' /\ zynq_inv [] s'.
Proof.
  intros Hs. apply (exit_loop_spec _ ids s Hs).
  - intros i Hi%elem_of_seqZ. lia.
  - intros i Hi. pose proof (ids_range _ _ _ Hs Hi). apply elem_of_seqZ. lia.
Qed.

(** ** The class keeps the interface *)

(** The interrupt lines and names of the first [n] controllers. *)
Fixpoint irqs (n : nat) : list zynq_res :=
  match n with
  | O => []
  | S k => zirq (Z.of_nat k) (Z.of_nat k) :: zname (Z.of_nat k) :: irqs k
  end.

(** The controllers of a bitstream are numbered from 0 without a gap. *)
Definition controllers (cs : list component) (n : nat) : Prop :=
  (n <= 4)%nat /\
  forall i, (i < 4)%nat ->
    (tlkm_status_get_component_base cs (intc_name (Z.of_nat i)) =? NONE) = negb (bool_decide (i < n)%nat).

Section Lawful.
Variable may_fail : dev_res zynq_res -> bool.
(** zynq_irq_init does not survive a refused line or name. *)
Hypothesis irq_granted : forall i, may_fail (cls_res (zname i)) = false.
Hypothesis line_granted : forall n i, may_fail (cls_res (zirq n i)) = false.
Notation st := (life (dev_res zynq_res) device).
Notation M := (life_model may_fail).

Definition z_created (z : zynq_device) (l : list zynq_res) : Prop :=
  attached z = true /\ length (intc_bases z) = 4%nat /\ l = [].
Definition z_subsystems (cs : list component) (z : zynq_device) (l : list zynq_res) : Prop :=
  z_created z l /\ exists ids, zynq_inv ids (dma z).
Definition z_interrupts (cs : list component) (z : zynq_device) (l : list zynq_res) : Prop :=
  attached z = true /\ length (intc_bases z) = 4%nat /\
  (exists n, requested_irq_num z = Z.of_nat n /\ l = irqs n) /\ exists ids, zynq_inv ids (dma z).

(** During the loops: [n] lines are requested. *)
Definition requesting (d : device) (h : list (dev_res zynq_res)) (n : nat) (s : st) : Prop :=
  core (state s) = core d /\ attached (private_data (state s)) = true /\
  length (intc_bases (private_data (state s))) = 4%nat /\
  dma (private_data (state s)) = dma (private_data d) /\
  requested_irq_num (private_data (state s)) = Z.of_nat n /\
  Permutation (held s) (map cls_res (irqs n) ++ h).

Lemma irq_init_loop_spec (d : device) (h : list (dev_res zynq_res)) (k m i n : nat) (s : st) :
  controllers (components (core d)) m -> (i + k = 4)%nat -> n = Nat.min i m -> requesting d h n s ->
  wp M (irq_init_loop (map Z.of_nat (seq i k))) s (fun ret s' => ret = 0 /\ requesting d h m s').
Proof.
  intros Hm. revert i n s. induction k as [|k IH]; intros i n s Hik Hn Hs; simpl.
  { split; [done|]. replace m with n; [done|]. destruct Hm. lia. }
  destruct Hs as (Ec & Ha & Hl & Hd & Hr & Hh). apply wp_bind, wp_load. rewrite Ec, Hr.
  destruct Hm as [Hm4 Hm]. rewrite Hm by lia.
  case_bool_decide as Him; cbn [negb]; [|apply (IH (S i) n); [lia|lia|done]].
  assert (n = i) as -> by lia. cbv zeta. apply wp_bind. apply (wp_update_perm _ _ _ _ _ Hh).
  intros s0 H0 E0. apply wp_bind. apply wp_bind, (wp_update_perm _ _ _ _ _ H0). intros s0' H0' E0'.
  apply wp_bind, (wp_update_perm _ _ _ _ _ H0'). intros s1 H1 E1'. apply wp_bind, wp_read_reg. intros _.
  apply wp_ret. assert (state s1 = set_private (fun z => add_write (Z.of_nat i) 7 3 (add_write (Z.of_nat i) 2 (u32 (-1))
    (set_intc (Z.of_nat i) (mk_intc _ _ _ None) z))) (state s)) as E1
    by (rewrite E1', E0', E0; reflexivity).
  apply wp_bind. apply (wp_acquire_perm _ _ _ _ _ H1).
  2:{ rewrite irq_granted. done. }
  intros s2 H2 E2. cbn [negb]. cbv iota. apply wp_bind. apply (wp_request_perm _ _ _ _ _ H2).
  2:{ intros res _. by rewrite line_granted. }
  intros s3 H3 E3. apply wp_bind. apply (wp_update_perm _ _ _ _ _ H3). intros s4 H4 E4.
  change (nonzero 0) with false. cbv iota. apply (IH (S i) (S i)); [lia|lia|].
  unfold requesting. rewrite E4, E3, E2, E1. cbn. rewrite Hr, length_insert.
  split_and!; try done; lia.
Qed.

Lemma irq_exit_loop_spec (d : device) (h : list (dev_res zynq_res)) (n : nat) (s : st) :
  requesting d h n s ->
  wp M (irq_exit_loop n) s (fun _ s' => requesting d h 0 s').
Proof.
  revert s. induction n as [|n IH]; intros s (Ec & Ha & Hl & Hd & Hr & Hh); simpl; [by split_and!|].
  apply wp_bind. apply (wp_update_perm _ _ _ _ _ Hh). intros s1 H1 E1. apply wp_bind.
  apply (wp_release_perm _ _ _ _ _ H1). intros s2 H2 E2. apply wp_bind.
  apply (wp_release_perm _ _ _ _ _ H2). intros s3 H3 E3. apply IH.
  unfold requesting. rewrite E3, E2, E1. by split_and!.
Qed.

Definition zynq_class_of (name : list Z) :
  is_sim (zynq_cls_of name) = false -> DeviceClass may_fail (zynq_cls_of name).
Proof.
  intros Hsim.
  refine {| fresh := fun z => length (intc_bases z) = 4%nat;
            supported := fun cs => exists n, controllers cs n;
            created := z_created; with_subsystems := z_subsystems; with_interrupts := z_interrupts |}.
  - intros s h Hf Hh. apply wp_bind. apply (wp_update_perm _ _ _ _ _ Hh). intros s1 H1 E1. left.
    split; [done|]. split; [by rewrite E1|]. exists []. by rewrite E1.
  - intros s h (_ & l & (_ & _ & ->) & Hh). apply (wp_update_perm _ _ _ _ _ Hh). intros s1 H1 E1.
    by rewrite E1.
  - intros s h (_ & l & (Ha & Hl & ->) & Hh) _. apply wp_bind, (wp_update_perm _ _ _ _ _ Hh).
    intros s1 H1 E1. apply wp_bind, (wp_update_perm _ _ _ _ _ H1). intros s2 H2 E2. left.
    split; [done|]. split; [by rewrite E2, E1|]. exists []. rewrite E2, E1. split; [|done].
    split; [done|]. exists []. apply zynq_init_inv.
  - intros s h (_ & l & ((Ha & Hl & ->) & ids & Hd) & Hh). apply wp_bind, wp_load.
    destruct (dmamgmt_exit_spec ids _ Hd) as (z & -> & _). apply (wp_update_perm _ _ _ _ _ Hh).
    intros s1 H1 E1. split; [by rewrite E1|]. exists []. by rewrite E1.
  - intros s h (_ & l & ((Ha & Hl & ->) & ids & Hd) & Hh) [n Hn]. apply wp_bind.
    apply (wp_update_perm _ _ _ _ _ Hh). intros s1 H1 E1.
    eapply wp_mono; [apply (irq_init_loop_spec (state s) h 4 n 0 0); [done|done|done|]|].
    + unfold requesting. rewrite E1. by split_and!.
    + intros ret s2 (-> & Ec & Ha2 & Hl2 & Hd2 & Hr2 & Hh2). left. split; [done|]. split; [done|].
      exists (irqs n). split; [|done]. split; [done|]. split; [done|]. split; [by exists n|].
      exists ids. by rewrite Hd2.
  - intros s h (_ & l & (Ha & Hl & (n & Hr & ->) & ids & Hd) & Hh). apply wp_bind, wp_load.
    rewrite Hr, Nat2Z.id.
    eapply wp_mono; [apply (irq_exit_loop_spec (state s) h n s); by split_and!|].
    intros [] s1 (Ec & Ha1 & Hl1 & Hd1 & _ & Hh1). split; [done|]. exists []. split; [|done].
    split; [done|]. exists ids. by rewrite Hd1.
  - intros cs p l Hs. by rewrite Hsim in Hs.
Defined.

#[export] Instance zynq_class : DeviceClass may_fail zynq_cls := zynq_class_of (str "zynq") eq_refl.
#[export] Instance zynqmp_class : DeviceClass may_fail zynqmp_cls := zynq_class_of (str "zynqmp") eq_refl.
End Lawful.

(** ** Witness: a Zynq with one interrupt controller *)
Definition demo_status_core : list Z :=
  StatusWire.encode_core (StatusWire.mk_description 0 (Some (0, 64)) (Some (128, 64)) []
    [StatusWire.mk_platform (intc_name 0) 4096 256 []] [] []).
Definition demo_core : dev_core :=
  mk_core false None false false false StatusCore.status_zero (mk_regspace 0 0 0) (mk_regspace 0 0 0)
    (replicate 16 (StatusCore.mk_component [] 0 0)).
Definition demo_device : device :=
  mk_device demo_core 0 (mk_zynq_device false 0 (replicate 4 (mk_intc 0 0 0 None)) [] zynq_dmamgmt_init).

(** The kernel may refuse every resource but the interrupt lines and their names. *)
Definition demo_may_fail (r : dev_res zynq_res) : bool :=
  match r with cls_res _ => false | _ => true end.
Definition demo_class : DeviceClass demo_may_fail zynq_cls :=
  zynq_class demo_may_fail (fun _ => eq_refl) (fun _ _ => eq_refl).

Lemma demo_bitstream (may_fail : dev_res zynq_res -> bool) H1 H2 :
  bitstream_ok (Cls := zynq_class may_fail H1 H2) may_fail zynq_cls demo_status_core (components demo_core).
Proof.
  intros _. eexists _, _, _. split; [vm_compute; reflexivity|]. intros _. exists 1%nat. split; [lia|].
  intros [|[|[|[|i]]]] Hi; [vm_compute; reflexivity..|lia].
Qed.

Lemma tlkm_device_init_exit_witness :
  wp (life_model demo_may_fail) (tlkm_device_init zynq_cls demo_status_core) (mk_life [] demo_device)
    (fun ret s' =>
       (ret = 0 /\ device_up (Cls := demo_class) demo_may_fail zynq_cls [] s') \/
       (ret <> 0 /\ exists l, leaked demo_may_fail l /\ Permutation (held s') l)).
Proof.
  eapply wp_mono.
  - apply (tlkm_device_init_exit (Cls := demo_class)
      demo_may_fail zynq_cls demo_status_core [] (mk_life [] demo_device));
      [reflexivity|by split|apply demo_bitstream].
  - simpl. intros ret s' [H|(H & l & Hl & Hh)]; [by left|right]. split; [done|]. exists l.
    by rewrite app_nil_r in Hh.
Defined.

End ZynqDevice.
