(* ===== verification/PcieDevice.v ===== *)
(** * The PCIe device classes (pcie/pcie_device.c, pcie/pcie_irq.c, pcie/pcie_irq_aws.c:
      set-up)

    The functions of pcie_cls, pcie_versal_cls and pcie_aws_cls that DeviceLife.v
    calls, with the shared virtual memory of SvmLife.v and the QDMA core of
    Qdma.v as subsystems, and the proof that they keep its interface. *)
From stdpp Require Import strings.
From S2P Require Import Prelude Kernel Lifecycle StatusCore StatusRefine Status DeviceLife.
From S2P Require Import Intervals SvmHw SvmSys SvmLife Qdma.

Module PcieDevice.
Import Kernel Lifecycle DeviceLife.
Import StatusCore(component) StatusRefine(NONE) Status(str, tlkm_status_get_component_base).
Import Intervals(IntervalTree, IntervalTreeLaws). Import SvmHw(hw_dev).
Import SvmLife(svm_res, svm_res_eq_dec, pcie_dev, pcie_init_svm, pcie_exit_svm, pcie_init_svm_spec,
  pcie_exit_svm_spec, device_resources, after_exit, svm_data).
#[local] Open Scope prog_scope.

(** ** State and resources *)
Inductive pcie_res :=
| pdev_mem
| pci_enabled
| pci_regions
| msi_vectors
| bar2_window
| aws_irq (vector controller : Z)
| aws_name (controller : Z)
| svm_part (r : svm_res)
| qdma_part (r : Qdma.qdma_res).

#[local] Existing Instance svm_res_eq_dec.
#[local] Existing Instance Qdma.qdma_res_eq_dec.
#[export] Instance pcie_res_eq_dec : EqDecision pcie_res.
Proof. solve_decision. Defined.

Section Classes.
Context {T : Type} {IT : IntervalTree T}.

(** struct tlkm_pcie_device and what the kernel keeps of the PCI device: whether
    private_data is set, whether drvdata is set, whether MSI-X is enabled.  [gier] and
    [xdma] are the writes to the interrupt enable register and to the XDMA core. *)
Record pcie_device := mk_pcie_device {
  allocated : bool;
  drvdata : bool;
  msi_enabled : bool;
  link_width : Z;
  link_speed : Z;
  ack_register : Z;
  ack_register_aws : Z;
  gier : list Z;
  requested_irq_num : Z;
  svm : pcie_dev T;
  qdma : Qdma.qdma;
  xdma : list (Z * Z)
}.
Notation device := (tlkm_device pcie_device).
Notation L := (prog (lifeE (dev_res pcie_res) device)).

Definition set_allocated (b : bool) (p : pcie_device) : pcie_device :=
  mk_pcie_device b (drvdata p) (msi_enabled p) (link_width p) (link_speed p) (ack_register p)
    (ack_register_aws p) (gier p) (requested_irq_num p) (svm p) (qdma p) (xdma p).
Definition set_drvdata (b : bool) (p : pcie_device) : pcie_device :=
  mk_pcie_device (allocated p) b (msi_enabled p) (link_width p) (link_speed p) (ack_register p)
    (ack_register_aws p) (gier p) (requested_irq_num p) (svm p) (qdma p) (xdma p).
Definition set_msi (b : bool) (p : pcie_device) : pcie_device :=
  mk_pcie_device (allocated p) (drvdata p) b (link_width p) (link_speed p) (ack_register p)
    (ack_register_aws p) (gier p) (requested_irq_num p) (svm p) (qdma p) (xdma p).
Definition set_link (w sp : Z) (p : pcie_device) : pcie_device :=
  mk_pcie_device (allocated p) (drvdata p) (msi_enabled p) w sp (ack_register p)
    (ack_register_aws p) (gier p) (requested_irq_num p) (svm p) (qdma p) (xdma p).
Definition set_ack (a : Z) (p : pcie_device) : pcie_device :=
  mk_pcie_device (allocated p) (drvdata p) (msi_enabled p) (link_width p) (link_speed p) a
    (ack_register_aws p) (gier p) (requested_irq_num p) (svm p) (qdma p) (xdma p).
Definition set_ack_aws (a : Z) (p : pcie_device) : pcie_device :=
  mk_pcie_device (allocated p) (drvdata p) (msi_enabled p) (link_width p) (link_speed p)
    (ack_register p) a (gier p) (requested_irq_num p) (svm p) (qdma p) (xdma p).
Definition add_gier (v : Z) (p : pcie_device) : pcie_device :=
  mk_pcie_device (allocated p) (drvdata p) (msi_enabled p) (link_width p) (link_speed p)
    (ack_register p) (ack_register_aws p) (gier p ++ [v]) (requested_irq_num p) (svm p) (qdma p) (xdma p).
Definition set_requested (n : Z) (p : pcie_device) : pcie_device :=
  mk_pcie_device (allocated p) (drvdata p) (msi_enabled p) (link_width p) (link_speed p)
    (ack_register p) (ack_register_aws p) (gier p) n (svm p) (qdma p) (xdma p).
Definition set_svm (v : pcie_dev T) (p : pcie_device) : pcie_device :=
  mk_pcie_device (allocated p) (drvdata p) (msi_enabled p) (link_width p) (link_speed p)
    (ack_register p) (ack_register_aws p) (gier p) (requested_irq_num p) v (qdma p) (xdma p).
Definition set_qdma (q : Qdma.qdma) (p : pcie_device) : pcie_device :=
  mk_pcie_device (allocated p) (drvdata p) (msi_enabled p) (link_width p) (link_speed p)
    (ack_register p) (ack_register_aws p) (gier p) (requested_irq_num p) (svm p) q (xdma p).
Definition add_xdma (w : Z * Z) (p : pcie_device) : pcie_device :=
  mk_pcie_device (allocated p) (drvdata p) (msi_enabled p) (link_width p) (link_speed p)
    (ack_register p) (ack_register_aws p) (gier p) (requested_irq_num p) (svm p) (qdma p) (xdma p ++ [w]).

Definition set_private (f : pcie_device -> pcie_device) (d : device) : device :=
  mk_device (core d) (base_offset d) (f (private_data d)).

(** The SVM functions, on their part of the device. *)
Definition svm_call {A} (p : prog (lifeE svm_res (pcie_dev T)) A) : L A :=
  lift (fun r => cls_res (svm_part r)) (fun d => svm (private_data d))
    (fun v => set_private (set_svm v)) p.

(** The QDMA functions, likewise. *)
Definition qdma_call {A} (p : prog (lifeE Qdma.qdma_res Qdma.qdma) A) : L A :=
  lift (fun r => cls_res (qdma_part r)) (fun d => qdma (private_data d))
    (fun q => set_private (set_qdma q)) p.

(** What is known of the card: BAR 0 and BAR 2, whether it is a Versal with QDMA, the
    masks the platform accepts, the link status word; [en_svm] is the build option;
    the SVM arguments are those of SvmLife.v. *)
Variable bar0_start : Z.
Variable qdma_in_use : bool.
Variable mask64 mask32 : bool.
Variable lnksta : Z.
Variable en_svm : bool.
Variable card : hw_dev.
Variable region bar2_len bar2_start : Z.
(** The bus address of the completion ring of QDMA. *)
Variable ring_addr : Z.

(** ** pcie_device.c *)

Definition claim_device : L Z :=
  let! err := call (request (cls_res pci_enabled)) in
  if nonzero err then Ret (- ENODEV) else
  let! err := call (request (cls_res pci_regions)) in
  if nonzero err then call (release (cls_res pci_enabled));;; Ret (- ENODEV) else
  update (set_private (set_drvdata true));;;
  update (fun d => mk_device (core d) bar0_start (private_data d));;;
  Ret 0.

Definition release_device : L unit :=
  update (set_private (set_drvdata false));;;
  call (release (cls_res pci_regions));;;
  call (release (cls_res pci_enabled)).

Definition configure_device : L Z :=
  if mask64 then Ret 0 else if mask32 then Ret 0 else Ret (- ENODEV).

Definition claim_msi : L Z :=
  let! ok := call (acquire (cls_res msi_vectors)) in
  if negb ok then Ret (- ENOSPC) else
  update (set_private (set_msi true));;;
  Ret 0.

(** pci_free_irq_vectors does nothing when no vectors are allocated. *)
Definition release_msi : L unit :=
  let! d := call load in
  if msi_enabled (private_data d)
  then call (release (cls_res msi_vectors));;; update (set_private (set_msi false)) else Ret tt.

Definition report_link_status : L unit :=
  update (set_private (set_link (Z.shiftr (Z.land lnksta 1008) 4) (Z.land lnksta 15))).

Definition pcie_device_create : L Z :=
  let! ok := call (acquire (cls_res pdev_mem)) in
  if negb ok then Ret (- ENOMEM) else
  update (set_private (set_allocated true));;;
  let! ret := claim_device in
  if nonzero ret then
    call (release (cls_res pdev_mem));;; update (set_private (set_allocated false));;; Ret ret
  else
  let! ret := configure_device in
  if nonzero ret then
    release_device;;;
    call (release (cls_res pdev_mem));;; update (set_private (set_allocated false));;; Ret ret
  else
  report_link_status;;;
  Ret 0.

Definition pcie_device_destroy : L unit :=
  let! d := call load in
  if negb (allocated (private_data d)) then call bug else
  release_msi;;;
  release_device;;;
  call (release (cls_res pdev_mem));;;
  update (set_private (set_allocated false)).

Definition has_mmu (d : device) : bool :=
  en_svm && negb (tlkm_status_get_component_base (components (core d)) (str "PLATFORM_COMPONENT_MMU") =? NONE).

(** The state of the memory channels is read, for warnings. *)
Definition check_memory_channels : L unit :=
  let! d := call load in
  if tlkm_status_get_component_base (components (core d)) (str "PLATFORM_COMPONENT_MEM_GPIO") =? NONE
  then Ret tt else call read_reg;;; Ret tt.

Definition pcie_device_init_subsystems : L Z :=
  check_memory_channels;;;
  let! ret := (if qdma_in_use then qdma_call (Qdma.pcie_qdma_init bar2_len ring_addr) else Ret 0) in
  if nonzero ret then Ret ret else
  let! ret := claim_msi in
  if nonzero ret then Ret ret else
  let! d := call load in
  if has_mmu d then
    let! ret := svm_call (pcie_init_svm card region bar2_len bar2_start) in
    if nonzero ret then release_msi;;; Ret ret else Ret 0
  else Ret 0.

Definition pcie_device_exit_subsystems : L unit :=
  let! d := call load in
  (if has_mmu d then svm_call pcie_exit_svm else Ret tt);;;
  release_msi;;;
  (if qdma_in_use then qdma_call Qdma.pcie_qdma_exit;;; Ret tt else Ret tt).

(** ** pcie_irq.c *)

Definition intc0 (d : device) : Z :=
  tlkm_status_get_component_base (components (core d)) (str "PLATFORM_COMPONENT_INTC0").

Definition pcie_irqs_init : L Z :=
  let! d := call load in
  update (set_private (set_ack (u64 (intc0 d + 33056))));;;
  (if qdma_in_use then update (set_private (add_gier 1)) else Ret tt);;;
  Ret 0.

Definition pcie_irqs_exit : L unit :=
  if qdma_in_use then update (set_private (add_gier 0)) else Ret tt.

(** ** pcie_irq_aws.c *)

Definition NUM_DIRECT_IRQS : Z := 4.
Definition AWS_NUM_IRQ_CONTROLLERS : nat := 4.

Definition get_xdma_reg_addr (target channel offset : Z) : Z :=
  Z.lor (Z.lor (Z.shiftl target 12) (Z.shiftl channel 8)) offset.

Definition iowrite_xdma (v a : Z) : L unit := update (set_private (add_xdma (a, v))).

(** aws_ec2_configure_xdma: the window is mapped while the core is configured. *)
Definition aws_ec2_configure_xdma : L Z :=
  let! ok := call (acquire (cls_res bar2_window)) in
  if negb ok then Ret (- ENODEV) else
  iowrite_xdma 50462976 (get_xdma_reg_addr 2 0 128);;;
  iowrite_xdma 117835012 (get_xdma_reg_addr 2 0 132);;;
  iowrite_xdma 185207048 (get_xdma_reg_addr 2 0 136);;;
  iowrite_xdma 252579084 (get_xdma_reg_addr 2 0 140);;;
  iowrite_xdma 65535 (get_xdma_reg_addr 2 0 4);;;
  call (release (cls_res bar2_window));;;
  Ret 0.

(** The label err of pcie_aws_irqs_init: the vector is the one that failed. *)
Fixpoint aws_err_loop (vector : Z) (n : nat) : L unit :=
  match n with
  | O => update (set_private (set_requested (-1)))
  | S k =>
      update (set_private (set_requested (Z.of_nat k)));;;
      call (release (cls_res (aws_irq vector (Z.of_nat k))));;;
      aws_err_loop vector k
  end.

Fixpoint aws_init_loop (l : list Z) : L Z :=
  match l with
  | [] => Ret 0
  | i :: r =>
      let rirq := NUM_DIRECT_IRQS + i in
      let! ok := call (acquire (cls_res (aws_name i))) in
      if negb ok then call bug;;; Ret 0 else
      let! err := call (request (cls_res (aws_irq rirq i))) in
      update (set_private (fun p => set_requested (requested_irq_num p + 1) p));;;
      if nonzero err then aws_err_loop rirq (Z.to_nat (i + 1));;; Ret err
      else aws_init_loop r
  end.

(** The result of aws_ec2_configure_xdma is overwritten. *)
Definition pcie_aws_irqs_init : L Z :=
  aws_ec2_configure_xdma;;;
  pcie_irqs_init;;;
  let! d := call load in
  update (set_private (set_ack_aws (u64 (intc0 d + 33060))));;;
  update (set_private (set_requested 0));;;
  aws_init_loop [0; 1; 2; 3].

Fixpoint aws_exit_loop (n : nat) : L unit :=
  match n with
  | O => Ret tt
  | S k =>
      update (set_private (set_requested (Z.of_nat k)));;;
      call (release (cls_res (aws_irq (NUM_DIRECT_IRQS + Z.of_nat k) (Z.of_nat k))));;;
      call (release (cls_res (aws_name (Z.of_nat k))));;;
      aws_exit_loop k
  end.

Definition pcie_aws_irqs_exit : L unit :=
  pcie_irqs_exit;;;
  let! d := call load in aws_exit_loop (Z.to_nat (requested_irq_num (private_data d))).

(** pcie_cls and pcie_versal_cls differ in the number of vectors only. *)
Definition pcie_cls : tlkm_class pcie_res pcie_device :=
  mk_class (str "pcie") pcie_device_create pcie_device_destroy
    (Some pcie_device_init_subsystems) (Some pcie_device_exit_subsystems)
    (Some pcie_irqs_init) (Some pcie_irqs_exit).

Definition pcie_aws_cls : tlkm_class pcie_res pcie_device :=
  mk_class (str "pcie") pcie_device_create pcie_device_destroy
    (Some pcie_device_init_subsystems) (Some pcie_device_exit_subsystems)
    (Some pcie_aws_irqs_init) (Some pcie_aws_irqs_exit).
End Classes.
Arguments pcie_device T : clear implicits.

(** ** The classes keep the interface *)
Section Lawful.
Context {T : Type} {IT : IntervalTree T}.
Variable may_fail : dev_res pcie_res -> bool.
Notation st := (life (dev_res pcie_res) (tlkm_device (pcie_device T))).
Notation M := (life_model may_fail).

(** What a created device owns. *)
Definition owned (msi : bool) : list pcie_res :=
  (if msi then [msi_vectors] else []) ++ [pdev_mem; pci_regions; pci_enabled].

Definition p_created (p : pcie_device T) (l : list pcie_res) : Prop :=
  allocated p = true /\ msi_enabled p = false /\ l = owned false.

Lemma check_channels_spec (s : st) (Q : unit -> st -> Prop) :
  Q tt s -> wp M check_memory_channels s Q.
Proof. intros HQ. apply wp_bind, wp_load. destruct (_ =? NONE); [by apply wp_ret|]. by apply wp_bind, wp_read_reg. Qed.

Lemma claim_device_spec (bar0_start : Z) (s : st) (h : list (dev_res pcie_res)) :
  Permutation (held s) h ->
  wp M (claim_device bar0_start) s (fun ret s' =>
    (ret = 0 /\ Permutation (held s') (cls_res pci_regions :: cls_res pci_enabled :: h) /\
     state s' = mk_device (core (state s)) bar0_start (set_drvdata true (private_data (state s)))) \/
    (ret <> 0 /\ Permutation (held s') h /\ state s' = state s)).
Proof.
  intros Hh. apply wp_bind. apply (wp_request_perm _ _ _ _ _ Hh).
  2:{ intros res Hres _. unfold nonzero. rewrite (proj2 (Z.eqb_neq _ _)) by lia. by right. }
  intros s1 H1 E1. change (nonzero 0) with false. cbv iota. apply wp_bind.
  apply (wp_request_perm _ _ _ _ _ H1).
  2:{ intros res Hres _. unfold nonzero. rewrite (proj2 (Z.eqb_neq _ _)) by lia. cbn [negb]. cbv iota.
      apply wp_bind. apply (wp_release_perm _ _ _ _ _ H1). intros s2 H2 E2. right. split; [done|].
      split; [done|congruence]. }
  intros s2 H2 E2. change (nonzero 0) with false. cbv iota.
  apply wp_bind, (wp_update_perm _ _ _ _ _ H2). intros s3 H3 E3.
  apply wp_bind, (wp_update_perm _ _ _ _ _ H3). intros s4 H4 E4. left. split; [done|]. split; [done|].
  by rewrite E4, E3, E2, E1.
Qed.

Lemma release_device_spec (s : st) (h : list (dev_res pcie_res)) :
  Permutation (held s) (cls_res pci_regions :: cls_res pci_enabled :: h) ->
  wp M release_device s (fun _ s' =>
    Permutation (held s') h /\ state s' = set_private (set_drvdata false) (state s)).
Proof.
  intros Hh. apply wp_bind, (wp_update_perm _ _ _ _ _ Hh). intros s1 H1 E1. apply wp_bind.
  apply (wp_release_perm _ _ _ _ _ H1). intros s2 H2 E2.
  apply (wp_release_perm _ _ _ _ _ H2). intros s3 H3 E3. split; [done|congruence].
Qed.

Lemma release_msi_spec (s : st) (h : list (dev_res pcie_res)) :
  Permutation (held s) (map cls_res (owned (msi_enabled (private_data (state s)))) ++ h) ->
  wp M release_msi s (fun _ s' =>
    Permutation (held s') (map cls_res (owned false) ++ h) /\
    state s' = set_private (set_msi false) (state s)).
Proof.
  intros Hh. apply wp_bind, wp_load.
  destruct (msi_enabled (private_data (state s))) eqn:Em; simpl in Hh.
  - apply wp_bind. apply (wp_release_perm _ _ _ _ _ Hh). intros s1 H1 E1.
    apply (wp_update_perm _ _ _ _ _ H1). intros s2 H2 E2. split; [done|]. by rewrite E2, E1.
  - apply wp_ret. split; [done|]. destruct (state s) as [c b []]. simpl in Em. by subst.
Qed.

Lemma pcie_create_spec (bar0_start lnksta : Z) (mask64 mask32 : bool) (s : st)
    (h : list (dev_res pcie_res)) :
  msi_enabled (private_data (state s)) = false -> Permutation (held s) h ->
  wp M (pcie_device_create bar0_start mask64 mask32 lnksta) s (fun ret s' =>
    (ret = 0 /\ at_stage p_created (core (state s)) h s') \/
    (ret <> 0 /\ core (state s') = core (state s) /\ Permutation (held s') h)).
Proof.
  intros Hm Hh. apply wp_bind. apply (wp_acquire_perm _ _ _ _ _ Hh).
  2:{ intros _. by right. }
  intros s1 H1 E1. cbn [negb]. cbv iota. apply wp_bind, (wp_update_perm _ _ _ _ _ H1).
  intros s2 H2 E2. wp_seq (claim_device_spec bar0_start s2 _ H2).
  intros ret s3 [(-> & H3 & E3)|(Hr & H3 & E3)].
  2:{ unfold nonzero. rewrite (proj2 (Z.eqb_neq _ _) Hr). cbn [negb]. cbv iota.
      apply wp_bind. apply (wp_release_perm _ _ _ _ _ H3). intros s4 H4 E4.
      apply wp_bind, (wp_update_perm _ _ _ _ _ H4). intros s5 H5 E5. right. split; [done|].
      split; [|done]. by rewrite E5, E4, E3, E2, E1. }
  change (nonzero 0) with false. cbv iota. apply wp_bind.
  assert (forall s4 : st, s4 = s3 ->
    wp M (report_link_status lnksta;;; Ret 0) s4 (fun ret s' =>
      (ret = 0 /\ at_stage p_created (core (state s)) h s') \/
      (ret <> 0 /\ core (state s') = core (state s) /\ Permutation (held s') h))) as Hok.
  { intros s4 ->. apply wp_bind, (wp_update_perm _ _ _ _ _ H3). intros s5 H5 E5. left.
    split; [done|]. split; [by rewrite E5, E3, E2, E1|]. exists (owned false). split.
    - rewrite E5, E3, E2, E1. by split; [|split].
    - rewrite H5. simpl. perm. }
  destruct mask64; [by apply wp_ret, Hok|]. destruct mask32; [by apply wp_ret, Hok|]. apply wp_ret.
  change (nonzero (- ENODEV)) with true. cbv iota.
  wp_seq (release_device_spec s3 _ H3). intros [] s4 [H4 E4].
  apply wp_bind. apply (wp_release_perm _ _ _ _ _ H4). intros s5 H5 E5.
  apply wp_bind, (wp_update_perm _ _ _ _ _ H5). intros s6 H6 E6. right. split; [done|].
  split; [|done]. by rewrite E6, E5, E4, E3, E2, E1.
Qed.

Lemma pcie_destroy_spec (s : st) (h : list (dev_res pcie_res)) :
  at_stage p_created (core (state s)) h s ->
  wp M pcie_device_destroy s (fun _ s' =>
    core (state s') = core (state s) /\ Permutation (held s') h).
Proof.
  intros (_ & l & (Ha & Hm & ->) & Hh). apply wp_bind, wp_load. rewrite Ha. cbn [negb]. cbv iota.
  wp_seq (release_msi_spec s h ltac:(by rewrite Hm)). intros [] s1 [H1 E1].
  assert (Permutation (held s1) (cls_res pci_regions :: cls_res pci_enabled :: cls_res pdev_mem :: h))
    as H1' by (rewrite H1; simpl; perm).
  wp_seq (release_device_spec s1 _ H1'). intros [] s2 [H2 E2]. apply wp_bind.
  apply (wp_release_perm _ _ _ _ _ H2). intros s3 H3 E3. apply (wp_update_perm _ _ _ _ _ H3).
  intros s4 H4 E4. by rewrite E4, E3, E2, E1.
Qed.

Lemma claim_msi_spec (s : st) (h : list (dev_res pcie_res)) :
  Permutation (held s) h ->
  wp M claim_msi s (fun ret s' =>
    (ret = 0 /\ Permutation (held s') (cls_res msi_vectors :: h) /\
     state s' = set_private (set_msi true) (state s)) \/
    (ret < 0 /\ s' = s)).
Proof.
  intros Hh. apply wp_bind. apply (wp_acquire_perm _ _ _ _ _ Hh).
  - intros s1 H1 E1. cbn [negb]. cbv iota. apply wp_bind, (wp_update_perm _ _ _ _ _ H1).
    intros s2 H2 E2. left. split; [done|]. split; [done|]. by rewrite E2, E1.
  - intros _. by right.
Qed.

(** *** Subsystems *)
Variable en_svm : bool.
Variable card : hw_dev.
Variable region bar2_len bar2_start : Z.
Variable ring_addr : Z.

Definition svm_owned (mmu : bool) : list pcie_res := if mmu then map svm_part device_resources else [].

Definition p_subsystems (mmu : bool) (p : pcie_device T) (l : list pcie_res) : Prop :=
  allocated p = true /\ msi_enabled p = true /\ l = svm_owned mmu ++ owned true /\
  (mmu = true -> exists v, svm_data (svm p) = Some v).

(** pcie_init_svm inside the device: all or nothing, and nothing else changes. *)
Lemma svm_init_spec (s : st) (h : list (dev_res pcie_res)) :
  Permutation (held s) h ->
  wp M (svm_call (pcie_init_svm card region bar2_len bar2_start)) s (fun ret s' =>
    (ret = 0 /\ Permutation (held s') (map cls_res (svm_owned true) ++ h) /\
     exists v, state s' = set_private (set_svm v) (state s) /\ exists x, svm_data v = Some x) \/
    (ret < 0 /\ Permutation (held s') h /\ state s' = state s)).
Proof.
  intros Hh.
  assert (set_private (set_svm (svm (private_data (state s)))) (state s) = state s) as Eid
    by (by destruct (state s) as [c b []]).
  eapply wp_mono.
  - apply (wp_lift (fun r => cls_res (svm_part r)) (fun d => svm (private_data d))
      (fun v => set_private (set_svm v)) (fun r => may_fail (cls_res (svm_part r))) may_fail
      (fun r => eq_refl) (fun f v => eq_refl) (fun f g v => eq_refl) _
      (mk_life [] (svm (private_data (state s)))) s h (state s));
      [apply pcie_init_svm_spec|]. split; [done|]. simpl. by rewrite Eid.
  - simpl. intros ret s' (s1 & [(-> & Hheld & Hst)|(Hr & ->)] & Hemb & Est).
    + left. split; [done|]. rewrite Hheld in Hemb.
      split; [exact Hemb|]. exists (state s1). split; [done|]. rewrite Hst. by eexists.
    + right. split; [done|]. split; [done|]. rewrite Est. exact Eid.
Qed.

Lemma pcie_init_subsystems_spec (s : st) (h : list (dev_res pcie_res)) :
  at_stage p_created (core (state s)) h s ->
  wp M (pcie_device_init_subsystems false en_svm card region bar2_len bar2_start ring_addr) s
    (fun ret s' =>
      (ret = 0 /\ at_stage (p_subsystems (has_mmu en_svm (state s))) (core (state s)) h s') \/
      (ret < 0 /\ at_stage p_created (core (state s)) h s')).
Proof.
  intros Hs. pose proof Hs as (_ & l & (Ha & Hm & ->) & Hh). apply wp_bind, check_channels_spec, wp_bind, wp_ret.
  change (nonzero 0) with false. cbv iota. wp_seq (claim_msi_spec s _ Hh).
  intros ret s1 [(-> & H1 & E1)|(Hr & ->)].
  2:{ unfold nonzero. rewrite (proj2 (Z.eqb_neq _ _)) by lia. cbn [negb]. cbv iota. by right. }
  change (nonzero 0) with false. cbv iota. apply wp_bind, wp_load.
  assert (has_mmu en_svm (state s1) = has_mmu en_svm (state s)) as -> by (by rewrite E1).
  destruct (has_mmu en_svm (state s)).
  2:{ apply wp_ret. left. split; [done|]. split; [by rewrite E1|]. exists (owned true).
      split; [by rewrite E1|]. rewrite H1. done. }
  wp_seq (svm_init_spec s1 _ H1). intros ret s2 [(-> & H2 & v & E2 & x & Ex)|(Hr & H2 & E2)].
  - change (nonzero 0) with false. cbv iota. apply wp_ret. left. split; [done|].
    split; [by rewrite E2, E1|]. exists (svm_owned true ++ owned true). split.
    + rewrite E2, E1. split_and!; try done. intros _. by exists x.
    + rewrite H2, map_app. simpl. done.
  - unfold nonzero. rewrite (proj2 (Z.eqb_neq _ _)) by lia. cbn [negb]. cbv iota.
    wp_seq (release_msi_spec s2 h ltac:(by rewrite E2, E1)). intros [] s3 [H3 E3]. right. split; [done|].
    split; [by rewrite E3, E2, E1|]. exists (owned false). split; [|done].
    by rewrite E3, E2, E1.
Qed.

(** A design without MMU: nothing is left over. *)
Lemma pcie_exit_subsystems_spec (s : st) (h : list (dev_res pcie_res)) :
  has_mmu en_svm (state s) = false -> at_stage (p_subsystems false) (core (state s)) h s ->
  wp M (pcie_device_exit_subsystems false en_svm) s (fun _ s' =>
    at_stage p_created (core (state s)) h s').
Proof.
  intros Hmmu (_ & l & (Ha & Hm & -> & _) & Hh). apply wp_bind, wp_load. rewrite Hmmu.
  apply wp_bind, wp_ret. wp_seq (release_msi_spec s h ltac:(by rewrite Hm)). intros [] s1 [H1 E1].
  apply wp_ret. split; [by rewrite E1|]. exists (owned false). split; [|done]. by rewrite E1.
Qed.

(** *** Versal: QDMA comes first *)
Definition qdma_owned : list pcie_res := [qdma_part Qdma.ring_mem; qdma_part Qdma.w_ack].

Lemma qdma_init_in_device (s : st) (h : list (dev_res pcie_res)) :
  Permutation (held s) h ->
  wp M (qdma_call (Qdma.pcie_qdma_init bar2_len ring_addr)) s (fun ret s' =>
    (exists q, state s' = set_private (set_qdma q) (state s)) /\
    ((ret = 0 /\ Permutation (held s') (map cls_res qdma_owned ++ h)) \/
     (ret < 0 /\ Permutation (held s') h))).
Proof.
  intros Hh.
  assert (set_private (set_qdma (qdma (private_data (state s)))) (state s) = state s) as Eid
    by (by destruct (state s) as [c b []]).
  eapply wp_mono.
  - apply (wp_lift (fun r => cls_res (qdma_part r)) (fun d => qdma (private_data d))
      (fun v => set_private (set_qdma v)) (fun r => may_fail (cls_res (qdma_part r))) may_fail
      (fun r => eq_refl) (fun f v => eq_refl) (fun f g v => eq_refl) _
      (mk_life [] (qdma (private_data (state s)))) s h (state s));
      [apply Qdma.qdma_init_spec|]. split; [done|]. simpl. by rewrite Eid.
  - simpl. intros ret s' (s1 & Hs1 & Hemb & Est). split; [by exists (state s1)|].
    destruct Hs1 as [(-> & Hheld & _)|(Hr & Hheld)]; [left|right]; rewrite Hheld in Hemb; by split.
Qed.

(** Without an MMU: when the MSI-X vectors are refused, what QDMA has obtained stays
    behind. *)
Lemma versal_init_subsystems_spec (s : st) (h : list (dev_res pcie_res)) :
  has_mmu en_svm (state s) = false -> at_stage p_created (core (state s)) h s ->
  wp M (pcie_device_init_subsystems true en_svm card region bar2_len bar2_start ring_addr) s
    (fun ret s' => core (state s') = core (state s) /\
      ((ret = 0 /\ msi_enabled (private_data (state s')) = true /\
        Permutation (held s') (map cls_res (owned true ++ qdma_owned) ++ h)) \/
       (ret < 0 /\ msi_enabled (private_data (state s')) = false /\ exists l,
        (l = [] \/ (may_fail (cls_res msi_vectors) = true /\ l = qdma_owned)) /\
        Permutation (held s') (map cls_res (owned false ++ l) ++ h)))).
Proof.
  intros Hmmu (_ & l & (Ha & Hm & ->) & Hh). apply wp_bind, check_channels_spec.
  wp_seq (qdma_init_in_device s _ Hh).
  intros ret s1 [[q Eq] [[-> H1]|[Hr H1]]].
  2:{ unfold nonzero. rewrite (proj2 (Z.eqb_neq _ _)) by lia. cbn [negb]. cbv iota. apply wp_ret.
      split; [by rewrite Eq|]. right. split; [done|]. split; [by rewrite Eq|]. exists []. split; [by left|].
      by rewrite app_nil_r. }
  change (nonzero 0) with false. cbv iota. apply wp_bind, wp_bind.
  apply (wp_acquire_perm _ _ _ _ _ H1).
  - intros s2 H2 E2. cbn [negb]. cbv iota. apply wp_bind, (wp_update_perm _ _ _ _ _ H2). intros s3 H3 E3.
    apply wp_ret. change (nonzero 0) with false. cbv iota. apply wp_bind, wp_load.
    assert (has_mmu en_svm (state s3) = false) as -> by (by rewrite E3, E2, Eq).
    apply wp_ret. split; [by rewrite E3, E2, Eq|]. left. split; [done|]. split; [by rewrite E3|].
    rewrite H3. simpl. perm.
  - intros Hf. apply wp_ret. change (nonzero (- ENOSPC)) with true. cbv iota. apply wp_ret.
    split; [by rewrite Eq|]. right. split; [done|]. split; [by rewrite Eq|]. exists qdma_owned.
    split; [by right|]. rewrite H1. simpl. perm.
Qed.

(** *** The interfaces *)
Variable bar0_start lnksta : Z.
Variable mask64 mask32 : bool.

Definition mmu_of (cs : list component) : bool :=
  en_svm && negb (tlkm_status_get_component_base cs (str "PLATFORM_COMPONENT_MMU") =? NONE).

Definition p_up (cs : list component) (p : pcie_device T) (l : list pcie_res) : Prop :=
  mmu_of cs = false /\ p_subsystems false p l.

Notation cls := (pcie_cls bar0_start false mask64 mask32 lnksta en_svm card region bar2_len bar2_start
  ring_addr).
Notation aws := (pcie_aws_cls bar0_start false mask64 mask32 lnksta en_svm card region bar2_len
  bar2_start ring_addr).

Lemma p_up_init (s : st) (h : list (dev_res pcie_res)) :
  at_stage p_created (core (state s)) h s -> mmu_of (components (core (state s))) = false ->
  wp M (pcie_device_init_subsystems false en_svm card region bar2_len bar2_start ring_addr) s
    (fun ret s' =>
      (ret = 0 /\ at_stage (p_up (components (core (state s)))) (core (state s)) h s') \/
      (ret <> 0 /\ at_stage p_created (core (state s)) h s')).
Proof.
  intros Hs Hmmu. eapply wp_mono; [by apply pcie_init_subsystems_spec|].
  change (has_mmu en_svm (state s)) with (mmu_of (components (core (state s)))). rewrite Hmmu.
  intros ret s' [(-> & Ec & l & Hl & Hh)|(Hr & H)]; [left|right; split; [lia|done]].
  split; [done|]. split; [done|]. by exists l.
Qed.

Lemma p_up_exit (s : st) (h : list (dev_res pcie_res)) :
  at_stage (p_up (components (core (state s)))) (core (state s)) h s ->
  wp M (pcie_device_exit_subsystems false en_svm) s (fun _ s' =>
    at_stage p_created (core (state s)) h s').
Proof.
  intros (Ec & l & (Hmmu & Hl) & Hh). apply pcie_exit_subsystems_spec; [done|]. split; [done|]. by exists l.
Qed.

(** A private update that the stages do not see. *)
Lemma p_up_update (f : pcie_device T -> pcie_device T) (s : st) (h : list (dev_res pcie_res)) :
  (forall p l, p_subsystems false p l -> p_subsystems false (f p) l) ->
  at_stage (p_up (components (core (state s)))) (core (state s)) h s ->
  wp M (update (set_private f)) s (fun _ s' =>
    at_stage (p_up (components (core (state s)))) (core (state s)) h s').
Proof.
  intros Hf (_ & l & (Hmmu & Hl) & Hh). apply (wp_update_perm _ _ _ _ _ Hh). intros s1 H1 E1.
  split; [by rewrite E1|]. exists l. split; [|done]. split; [done|]. rewrite E1. by apply Hf.
Qed.

Lemma pcie_irqs_init_spec (s : st) (h : list (dev_res pcie_res)) :
  at_stage (p_up (components (core (state s)))) (core (state s)) h s ->
  wp M (pcie_irqs_init false) s (fun ret s' =>
    ret = 0 /\ at_stage (p_up (components (core (state s)))) (core (state s)) h s').
Proof.
  intros Hs. apply wp_bind, wp_load. wp_seq (p_up_update (set_ack (u64 (intc0 (state s) + 33056))) s h);
    [done|done|]. intros [] s1 H1. apply wp_bind, wp_ret. by apply wp_ret.
Qed.

#[export] Instance pcie_class : DeviceClass may_fail cls.
Proof.
  refine {| fresh := fun p => msi_enabled p = false; supported := fun cs => mmu_of cs = false;
            created := p_created; with_subsystems := p_up; with_interrupts := p_up |}.
  - intros s h Hf Hh. by apply pcie_create_spec.
  - intros s h Hs. by apply pcie_destroy_spec.
  - intros s h Hs Hsup. by apply p_up_init.
  - intros s h Hs. by apply p_up_exit.
  - intros s h Hs _. eapply wp_mono; [by apply (pcie_irqs_init_spec s h)|]. intros ret s' H. by left.
  - intros s h Hs. by apply wp_ret.
  - done.
Defined.

(** *** AWS *)
Hypothesis name_granted : forall i, may_fail (cls_res (aws_name i)) = false.
Hypothesis irq_granted : forall v i, may_fail (cls_res (aws_irq v i)) = false.

Fixpoint aws_irqs (n : nat) : list pcie_res :=
  match n with
  | O => []
  | S k => aws_irq (NUM_DIRECT_IRQS + Z.of_nat k) (Z.of_nat k) :: aws_name (Z.of_nat k) :: aws_irqs k
  end.

Definition aws_up (cs : list component) (p : pcie_device T) (l : list pcie_res) : Prop :=
  mmu_of cs = false /\ allocated p = true /\ msi_enabled p = true /\
  exists n, requested_irq_num p = Z.of_nat n /\ l = aws_irqs n ++ owned true.

Definition aws_at (d : tlkm_device (pcie_device T)) (h : list (dev_res pcie_res)) (n : nat) (s : st) : Prop :=
  core (state s) = core d /\ allocated (private_data (state s)) = true /\
  msi_enabled (private_data (state s)) = true /\
  requested_irq_num (private_data (state s)) = Z.of_nat n /\
  Permutation (held s) (map cls_res (aws_irqs n) ++ map cls_res (owned true) ++ h).

Lemma aws_init_loop_spec (d : tlkm_device (pcie_device T)) (h : list (dev_res pcie_res)) (k i : nat) (s : st) :
  aws_at d h i s ->
  wp M (aws_init_loop (map Z.of_nat (seq i k))) s (fun ret s' => ret = 0 /\ aws_at d h (i + k) s').
Proof.
  revert i s. induction k as [|k IH]; intros i s Hs; simpl; [by rewrite Nat.add_0_r|].
  destruct Hs as (Ec & Ha & Hm & Hr & Hh). apply wp_bind. apply (wp_acquire_perm _ _ _ _ _ Hh).
  2:{ by rewrite name_granted. }
  intros s1 H1 E1. cbn [negb]. cbv iota. apply wp_bind. apply (wp_request_perm _ _ _ _ _ H1).
  2:{ intros res _. by rewrite irq_granted. }
  intros s2 H2 E2. apply wp_bind, (wp_update_perm _ _ _ _ _ H2). intros s3 H3 E3.
  change (nonzero 0) with false. cbv iota.
  eapply wp_mono; [apply (IH (S i))|intros ret s4 [-> H4]; split; [done|]; by replace (i + S k)%nat with (S i + k)%nat by lia].
  unfold aws_at. rewrite E3, E2, E1. cbn. split_and!; [done|done|done|lia|done].
Qed.

Lemma aws_exit_loop_spec (d : tlkm_device (pcie_device T)) (h : list (dev_res pcie_res)) (n : nat) (s : st) :
  aws_at d h n s -> wp M (aws_exit_loop n) s (fun _ s' => aws_at d h 0 s').
Proof.
  revert s. induction n as [|n IH]; intros s (Ec & Ha & Hm & Hr & Hh); simpl; [by split_and!|].
  apply wp_bind, (wp_update_perm _ _ _ _ _ Hh). intros s1 H1 E1. apply wp_bind.
  apply (wp_release_perm _ _ _ _ _ H1). intros s2 H2 E2. apply wp_bind.
  apply (wp_release_perm _ _ _ _ _ H2). intros s3 H3 E3. apply IH.
  unfold aws_at. rewrite E3, E2, E1. by split_and!.
Qed.

(** The vectors 0 to 15 in order, four to a register, then the enable mask. *)
Definition xdma_writes : list (Z * Z) :=
  map (fun i => (8320 + 4 * i, foldr (fun k acc => 4 * i + k + 256 * acc) 0 [0; 1; 2; 3])) [0; 1; 2; 3]
  ++ [(8196, 2 ^ 16 - 1)].

Lemma configure_xdma_spec (s : st) (L : list (dev_res pcie_res)) :
  Permutation (held s) L ->
  wp M aws_ec2_configure_xdma s (fun ret s' => Permutation (held s') L /\ exists l,
    state s' = set_private (fun p => fold_left (fun p w => add_xdma w p) l p) (state s) /\
    ((ret = 0 /\ l = xdma_writes) \/ (ret = - ENODEV /\ l = []))).
Proof.
  intros Hh. apply wp_bind. apply (wp_acquire_perm _ _ _ _ _ Hh).
  2:{ intros _. apply wp_ret. split; [done|]. exists []. split; [by destruct (state s)|by right]. }
  intros s1 H1 E1. cbn [negb]. cbv iota.
  apply wp_bind, (wp_update_perm _ _ _ _ _ H1). intros s2 H2 E2.
  apply wp_bind, (wp_update_perm _ _ _ _ _ H2). intros s3 H3 E3.
  apply wp_bind, (wp_update_perm _ _ _ _ _ H3). intros s4 H4 E4.
  apply wp_bind, (wp_update_perm _ _ _ _ _ H4). intros s5 H5 E5.
  apply wp_bind, (wp_update_perm _ _ _ _ _ H5). intros s6 H6 E6.
  apply wp_bind. apply (wp_release_perm _ _ _ _ _ H6).
  intros s7 H7 E7. apply wp_ret. split; [done|]. exists xdma_writes.
  split; [by rewrite E7, E6, E5, E4, E3, E2, E1|by left].
Qed.

(** The stages do not see the XDMA core. *)
Lemma p_up_xdma (l : list (Z * Z)) (p : pcie_device T) (r : list pcie_res) :
  p_subsystems false p r -> p_subsystems false (fold_left (fun p w => add_xdma w p) l p) r.
Proof. revert p. induction l as [|w l IH]; intros p Hp; simpl; [done|]. by apply IH. Qed.

Lemma aws_irqs_init_spec (s : st) (h : list (dev_res pcie_res)) :
  at_stage (p_up (components (core (state s)))) (core (state s)) h s ->
  wp M (pcie_aws_irqs_init false) s (fun ret s' =>
    ret = 0 /\ at_stage (aws_up (components (core (state s)))) (core (state s)) h s').
Proof.
  intros (_ & l & (Hmmu & Hl) & Hh). wp_seq (configure_xdma_spec s _ Hh). intros r s1 (H1 & w & E1 & _).
  assert (at_stage (p_up (components (core (state s1)))) (core (state s1)) h s1) as Hs1.
  { split; [done|]. exists l. rewrite E1. split; [|done]. split; [done|]. by apply p_up_xdma. }
  wp_seq (pcie_irqs_init_spec s1 h Hs1). intros ret s2 (-> & Ec & l2 & (_ & Ha & Hm & -> & _) & H2).
  rewrite E1 in Ec. apply wp_bind, wp_load. apply wp_bind, (wp_update_perm _ _ _ _ _ H2). intros s3 H3 E3.
  apply wp_bind, (wp_update_perm _ _ _ _ _ H3). intros s4 H4 E4.
  eapply wp_mono; [apply (aws_init_loop_spec (state s) h 4 0)|].
  - unfold aws_at. rewrite E4, E3. by split_and!.
  - intros ret s5 (-> & Ec5 & Ha5 & Hm5 & Hr5 & Hh5). split; [done|]. split; [done|].
    exists (aws_irqs 4 ++ owned true). split; [|by rewrite Hh5].
    split_and!; [done|done|done|]. by exists 4%nat.
Qed.

#[export] Instance aws_class : DeviceClass may_fail aws.
Proof.
  refine {| fresh := fun p => msi_enabled p = false; supported := fun cs => mmu_of cs = false;
            created := p_created; with_subsystems := p_up; with_interrupts := aws_up |}.
  - intros s h Hf Hh. by apply pcie_create_spec.
  - intros s h Hs. by apply pcie_destroy_spec.
  - intros s h Hs Hsup. by apply p_up_init.
  - intros s h Hs. by apply p_up_exit.
  - intros s h Hs _. eapply wp_mono; [by apply (aws_irqs_init_spec s h)|]. intros ret s' H. by left.
  - intros s h (_ & l & (Hmmu & Ha & Hm & n & Hr & ->) & Hh). rewrite map_app, <- app_assoc in Hh.
    apply wp_bind, wp_ret, wp_bind, wp_load. rewrite Hr, Nat2Z.id.
    eapply wp_mono; [apply (aws_exit_loop_spec (state s) h n s); by split_and!|].
    intros [] s1 (Ec & Ha1 & Hm1 & _ & Hh1). split; [done|]. exists (owned true). split; [|done].
    split; [done|]. by split_and!.
  - done.
Defined.
End Lawful.

End PcieDevice.
