(* ===== verification/BusLife.v ===== *)
(** * Loading and unloading the module
      (tlkm/tlkm_bus.c, tlkm/tlkm.c, tlkm_module.c, pcie/pcie.c, the probe functions)

    tlkm_bus_init looks for devices, sets each up with tlkm_device_init and then
    registers the main file; tlkm_bus_exit undoes this.  Each device is a component
    of its own (DeviceLife.v), run here on its part of the resources and the state. *)
From S2P Require Import Prelude Kernel Lifecycle StatusCore Status DeviceLife Access ZynqDevice.

Module BusLife.
Import Kernel Lifecycle DeviceLife.
Import StatusCore(component, tlkm_status).
#[local] Open Scope prog_scope.

(** ** Resources and state *)

(** The memory of a device and what it holds, by its address; the main file; the
    registration as a PCI driver. *)
Inductive mod_res (CR : Type) :=
| dev_mem (k : Z)
| dev_part (k : Z) (r : dev_res CR)
| main_file
| pci_driver.
Arguments dev_mem {CR} k.
Arguments dev_part {CR} k r.
Arguments main_file {CR}.
Arguments pci_driver {CR}.

#[export] Instance mod_res_eq_dec `{EqDecision CR} : EqDecision (mod_res CR).
Proof. solve_decision. Defined.

(** The bus and the open files (Access.v), the devices, _tlkm.is_setup and
    register_once of pcie.c. *)
Record tlkm_module (P : Type) := mk_module {
  acc : Access.tlkm;
  devs : gmap Z (tlkm_device P);
  is_setup : bool;
  register_once : bool
}.
Arguments mk_module {P}.
Arguments acc {P}.
Arguments devs {P}.
Arguments is_setup {P}.
Arguments register_once {P}.

Definition set_acc {P} (f : Access.tlkm -> Access.tlkm) (m : tlkm_module P) : tlkm_module P :=
  mk_module (f (acc m)) (devs m) (is_setup m) (register_once m).
Definition set_dev {P} (k : Z) (d : tlkm_device P) (m : tlkm_module P) : tlkm_module P :=
  mk_module (acc m) (<[k := d]> (devs m)) (is_setup m) (register_once m).
Definition set_setup {P} (m : tlkm_module P) : tlkm_module P :=
  mk_module (acc m) (devs m) true (register_once m).
Definition set_once {P} (b : bool) (m : tlkm_module P) : tlkm_module P :=
  mk_module (acc m) (devs m) (is_setup m) b.

(** A device on the bus while it is being set up: kzalloc, then the ids; the class
    name is copied when it is up. *)
Definition new_entry (vendor product : Z) : Access.tlkm_device :=
  Access.mk_device 0 [] vendor product [0; 0; 0].
Definition set_name (k : Z) (nm : list Z) (t : Access.tlkm) : Access.tlkm :=
  match Access.devices t !! k with
  | None => t
  | Some d => Access.set_devices
      (<[k := Access.mk_device (Access.dev_id d) nm (Access.vendor_id d) (Access.product_id d)
                (Access.ref_cnt d)]> (Access.devices t)) t
  end.

Section Code.
Context {CR P : Type}.
Notation L := (prog (lifeE (mod_res CR) (tlkm_module P))).
(** A device as kzalloc leaves it; the class of the device at an address, its name
    and ids, and its status core. *)
Variable zero_dev : tlkm_device P.
Variable cls_of : Z -> tlkm_class CR P.
Variable ids_of : Z -> Z * Z.
Variable core_of : Z -> list Z.

(** A function of the device at address [k]. *)
Definition device_call {A} (k : Z) (p : prog (lifeE (dev_res CR) (tlkm_device P)) A) : L A :=
  lift (dev_part k) (fun m => default zero_dev (devs m !! k)) (set_dev k) p.

(** ** tlkm_bus.c *)

(** tlkm_bus_new_device; [k] is the address kzalloc returns.  True: not NULL. *)
Definition tlkm_bus_new_device (k : Z) : L bool :=
  let! ok := call (acquire (dev_mem k)) in
  if negb ok then Ret false else
  update (fun m => set_acc (Access.tlkm_bus_add_device k (new_entry (fst (ids_of k)) (snd (ids_of k))))
                     (set_dev k zero_dev m));;;
  let! ret := device_call k (tlkm_device_init (cls_of k) (core_of k)) in
  if nonzero ret then
    update (set_acc (Access.tlkm_bus_del_device k));;;
    call (release (dev_mem k));;;
    Ret false
  else update (set_acc (set_name k (take 29 (class_name (cls_of k)))));;; Ret true.

Definition tlkm_bus_delete_device (k : Z) : L unit :=
  device_call k (tlkm_device_exit (cls_of k));;;
  update (set_acc (Access.tlkm_bus_del_device k));;;
  call (release (dev_mem k)).

(** ** The probe and remove functions of the classes *)

(** zynq_device_probe and zynqmp_device_probe: [node] is the device the device tree
    describes, if any. *)
Definition zynq_device_probe (node : option Z) : L Z :=
  match node with
  | Some k => let! inst := tlkm_bus_new_device k in Ret (if inst then 0 else - EFAULT)
  | None => Ret 0
  end.

Definition tlkm_pcie_probe (k : Z) : L Z :=
  let! dev := tlkm_bus_new_device k in Ret (if dev then 0 else - ENOMEM).

(** The drvdata of a card is set by claim_device and reset by release_device, that
    is, while its device is on the bus. *)
Definition tlkm_pcie_remove (k : Z) : L unit :=
  let! m := call load in
  if decide (k ∈ Access.bus (acc m)) then tlkm_bus_delete_device k else Ret tt.

(** pcie_init: pci_register_driver probes the cards that match. *)
Definition pcie_init (cards : list Z) : L Z :=
  let! m := call load in
  if register_once m then Ret 0 else
  update (set_once true);;;
  let! err := call (request pci_driver) in
  (if nonzero err then Ret tt else for_each cards (fun k => tlkm_pcie_probe k;;; Ret tt));;;
  Ret 0.

(** pcie_exit: pci_unregister_driver calls tlkm_pcie_remove for the cards that are
    bound to the driver. *)
Definition pcie_exit (cards : list Z) : L unit :=
  let! m := call load in
  if register_once m then
    update (set_once false);;;
    for_each cards tlkm_pcie_remove;;;
    call (release pci_driver)
  else Ret tt.

(** sim_device_probe; [node] is None in a module that is built without ENABLE_SIM. *)
Definition sim_device_probe (node : option Z) : L Z :=
  match node with
  | Some k => let! inst := tlkm_bus_new_device k in Ret 0
  | None => Ret 0
  end.

(** The classes in the order of _tlkm_class: zynq, zynqmp, pcie, pcie_aws (with the same
    functions) and sim. *)
Definition tlkm_bus_enumerate (zynq zynqmp : option Z) (cards : list Z) (sim : option Z) : L unit :=
  zynq_device_probe zynq;;;
  zynq_device_probe zynqmp;;;
  pcie_init cards;;;
  pcie_init cards;;;
  sim_device_probe sim;;;
  Ret tt.

(** ** tlkm.c *)

Definition tlkm_init : L Z :=
  update (set_acc (fun t => Access.mk_tlkm (Access.bus t) (Access.num_devs t) (Access.devices t)
                              (Access.files t) 0));;;
  update set_setup;;;
  call (request main_file).

Definition tlkm_exit : L unit :=
  let! m := call load in
  if is_setup m then call (release main_file) else Ret tt.

(** ** tlkm_bus_init, tlkm_bus_exit: the module *)

Definition tlkm_bus_exit (cards : list Z) : L unit :=
  tlkm_exit;;;
  let! m := call load in
  for_each (Access.bus (acc m)) tlkm_bus_delete_device;;;
  pcie_exit cards;;;
  pcie_exit cards.

Definition tlkm_bus_init (zynq zynqmp : option Z) (cards : list Z) (sim : option Z) : L Z :=
  update (set_acc (fun t => Access.mk_tlkm [] (Access.num_devs t) (Access.devices t)
                              (Access.files t) (Access.opened_counter t)));;;
  tlkm_bus_enumerate zynq zynqmp cards sim;;;
  let! m := call load in
  if Access.tlkm_bus_num_devices (acc m) =? 0 then
    tlkm_bus_exit cards;;; Ret (- ENXIO)
  else
    let! ret := tlkm_init in
    if nonzero ret then tlkm_bus_exit cards;;; Ret ret else Ret ret.
End Code.

(** ** Invariant *)
Section Spec.
Context {CR P : Type} {EqCR : EqDecision CR}.
Variable zero_dev : tlkm_device P.
Variable cls_of : Z -> tlkm_class CR P.
Variable ids_of : Z -> Z * Z.
Variable core_of : Z -> list Z.
Variable may_fail : mod_res CR -> bool.
Notation dev_fail k := (fun r => may_fail (dev_part k r)).
Context {Cls : forall k, DeviceClass (dev_fail k) (cls_of k)}.
Notation st := (life (mod_res CR) (tlkm_module P)).
Notation M := (life_model may_fail).
Notation new_device := (tlkm_bus_new_device zero_dev cls_of ids_of core_of).
Notation delete_device := (tlkm_bus_delete_device zero_dev cls_of).

(** kzalloc gives what a class expects; no status core has more components than
    dev->components has entries, and the class supports what it describes (neither is
    checked by tlkm_bus.c or tlkm_status.c). *)
Definition devices_ok : Prop :=
  forall k, blank (dev_fail k) (cls_of k) zero_dev /\
    bitstream_ok (dev_fail k) (cls_of k) (core_of k) (components (core zero_dev)).

(** The device [d] is up and holds [l]. *)
Definition up (k : Z) (d : tlkm_device P) (l : list (dev_res CR)) : Prop :=
  device_up (dev_fail k) (cls_of k) [] (mk_life l d).

(** All devices at the addresses [ks] are up, and together they hold [D]. *)
Fixpoint devs_up (ks : list Z) (m : gmap Z (tlkm_device P)) (D : list (mod_res CR)) : Prop :=
  match ks with
  | [] => D = []
  | k :: ks' => exists d l rest, m !! k = Some d /\ up k d l /\ devs_up ks' m rest /\
      Permutation D (dev_mem k :: map (dev_part k) l ++ rest)
  end.

(** The names that failed registrations have left behind. *)
Definition is_name (r : mod_res CR) : Prop :=
  exists k, r = dev_part k perfc_name \/ r = dev_part k ctrl_name.

(** The module holds [extra], leaked names and what its devices hold. *)
Record mod_inv (extra : list (mod_res CR)) (s : st) : Prop := {
  m_acc : Access.unused (acc (state s));
  m_held : exists leaks D, Forall is_name leaks /\
    devs_up (Access.bus (acc (state s))) (devs (state s)) D /\
    Permutation (held s) (extra ++ leaks ++ D)
}.

Lemma up_perm (k : Z) (d : tlkm_device P) (l l' : list (dev_res CR)) :
  Permutation l l' -> up k d l -> up k d l'.
Proof.
  intros E (b & H). exists b. simpl in *. destruct (is_sim (cls_of k)).
  - destruct H as (Hc & Hn & Ec & lc & Hl & Hh). do 3 (split; [done|]). exists lc. split; [done|]. simpl in *. by rewrite <- E.
  - destruct H as (Hm & Ec & lc & Hl & Hh). do 2 (split; [done|]). exists lc. split; [done|]. simpl in *. by rewrite <- E.
Qed.

Lemma devs_up_frame (ks : list Z) (m m' : gmap Z (tlkm_device P)) (D : list (mod_res CR)) :
  (forall k, k ∈ ks -> m' !! k = m !! k) -> devs_up ks m D -> devs_up ks m' D.
Proof.
  revert D. induction ks as [|k ks IH]; intros D Hm; simpl; [done|].
  intros (d & l & rest & Hd & Hu & Hr & HD). exists d, l, rest.
  split; [rewrite Hm; [done|left]|]. split; [done|]. split; [|done].
  apply IH; [|done]. intros j Hj. apply Hm. by right.
Qed.

Lemma devs_up_cons (k : Z) (ks : list Z) m (d : tlkm_device P) l D :
  m !! k = Some d -> up k d l -> devs_up ks m D ->
  devs_up (k :: ks) m (dev_mem k :: map (dev_part k) l ++ D).
Proof. intros Hd Hu HD. by exists d, l, D. Qed.

Lemma devs_up_perm (ks ks' : list Z) m (D : list (mod_res CR)) :
  Permutation ks ks' -> devs_up ks m D -> exists D', devs_up ks' m D' /\ Permutation D D'.
Proof.
  intros E. revert D. induction E as [|k l l' _ IH|x y l|l1 l2 l3 _ IH1 _ IH2]; intros D HD.
  - by exists D.
  - destruct HD as (d & a & rest & Hd & Hu & Hr & HD). destruct (IH rest Hr) as (D' & HD' & E').
    eexists. split; [by apply (devs_up_cons k l' m d a D')|]. by rewrite HD, E'.
  - destruct HD as (d & a & rest & Hd & Hu & (d2 & a2 & rest2 & Hd2 & Hu2 & Hr2 & HD2) & HD).
    eexists. split; [apply (devs_up_cons x _ m d2 a2); [done|done|];
      by apply (devs_up_cons y l m d a rest2)|]. rewrite HD, HD2. perm.
  - destruct (IH1 D HD) as (D1 & HD1 & E1). destruct (IH2 D1 HD1) as (D2 & HD2 & E2).
    exists D2. split; [done|]. by rewrite E1.
Qed.

(** *** The bus *)

Lemma unused_add (t : Access.tlkm) (k v p : Z) :
  Access.unused t -> k ∉ Access.bus t -> k <> Access.NULL -> k <> Access.HEAD ->
  Z.of_nat (length (Access.bus t)) + 1 < 2 ^ 32 ->
  Access.unused (Access.tlkm_bus_add_device k (new_entry v p) t).
Proof.
  intros (Hb & Hf & Hr) Hk H0 H1 Hsm. split; [|split]; simpl; [|done|].
  - split; simpl.
    + apply NoDup_app. split; [apply Hb|]. split; [|apply NoDup_singleton].
      intros x Hx Hxk%list_elem_of_singleton. by subst.
    + intros q [Hq|Hq%list_elem_of_singleton]%elem_of_app.
      * destruct (Access.bus_devices _ Hb q Hq) as (? & ? & ?). split; [done|]. split; [done|].
        destruct (decide (q = k)) as [->|]; [done|]. by rewrite lookup_insert_ne.
      * subst q. split; [done|]. split; [done|]. by rewrite lookup_insert_eq.
    + rewrite (Access.bus_num _ Hb), length_app. simpl. rewrite u64_small by lia. lia.
    + rewrite length_app. simpl. lia.
    + rewrite lookup_insert_ne by done. apply Hb.
  - intros q d. destruct (decide (q = k)) as [->|]; [rewrite lookup_insert_eq|rewrite lookup_insert_ne by done].
    + intros [= <-]. done.
    + apply Hr.
Qed.

Lemma filter_absent (k : Z) (l : list Z) : k ∉ l -> base.filter (fun q => q <> k) l = l.
Proof.
  induction l as [|x l IH]; intros Hk; [done|]. apply not_elem_of_cons in Hk as [Hx Hk].
  rewrite filter_cons, decide_True by congruence. by rewrite IH.
Qed.

Lemma filter_length_ne (k : Z) (l : list Z) :
  NoDup l -> k ∈ l -> Permutation l (k :: base.filter (fun q => q <> k) l).
Proof.
  induction l as [|x l IH]; intros Hnd Hk; [by apply elem_of_nil in Hk|].
  apply NoDup_cons in Hnd as [Hx Hnd]. rewrite filter_cons. destruct (decide (x <> k)) as [Hne|He].
  - apply elem_of_cons in Hk as [->|Hk]; [done|]. rewrite (IH Hnd Hk) at 1. apply Permutation_swap.
  - apply dec_stable in He as ->. by rewrite filter_absent.
Qed.

Lemma unused_del (t : Access.tlkm) (k : Z) :
  Access.unused t -> k ∈ Access.bus t -> Access.unused (Access.tlkm_bus_del_device k t).
Proof.
  intros (Hb & Hf & Hr) Hk. split; [|split]; simpl; [|done|done].
  pose proof (filter_length_ne k _ (Access.bus_nodup _ Hb) Hk) as E.
  assert (length (Access.bus t) = S (length (base.filter (fun q => q <> k) (Access.bus t)))) as El
    by (by rewrite E at 1).
  pose proof (Access.bus_small _ Hb). split; simpl.
  - apply NoDup_filter, Hb.
  - intros q Hq. apply list_elem_of_filter in Hq as [_ Hq]. by apply (Access.bus_devices _ Hb).
  - rewrite (Access.bus_num _ Hb), u64_small by lia. lia.
  - lia.
  - apply Hb.
Qed.

Lemma unused_name (t : Access.tlkm) (k : Z) (nm : list Z) :
  Access.unused t -> Access.unused (set_name k nm t).
Proof.
  intros (Hb & Hf & Hr). unfold set_name. destruct (Access.devices t !! k) as [d|] eqn:Ed; [|done].
  split; [|split]; simpl; [|done|].
  - destruct Hb as [H1 H2 H3 H4 H5]. split; simpl; try done.
    2:{ rewrite lookup_insert_ne; [done|]. intros ->. congruence. }
    intros q Hq. destruct (H2 q Hq) as (? & ? & ?). split; [done|]. split; [done|].
    destruct (decide (q = k)) as [->|]; [by rewrite lookup_insert_eq|by rewrite lookup_insert_ne].
  - intros q e. destruct (decide (q = k)) as [->|]; [rewrite lookup_insert_eq|rewrite lookup_insert_ne by done].
    + intros [= <-]. simpl. by eapply Hr.
    + apply Hr.
Qed.

Lemma bus_set_name (t : Access.tlkm) (k : Z) (nm : list Z) :
  Access.bus (set_name k nm t) = Access.bus t.
Proof. unfold set_name. by destruct (Access.devices t !! k). Qed.

(** *** A device inside the module *)

Lemma set_dev_id (k : Z) (m : tlkm_module P) (d : tlkm_device P) :
  devs m !! k = Some d -> set_dev k d m = m.
Proof. intros H. destruct m as [a ds i r]. unfold set_dev. simpl in *. by rewrite insert_id. Qed.

Lemma embed_device (k : Z) {A} (p : prog (lifeE (dev_res CR) (tlkm_device P)) A) (s : st)
    (d : tlkm_device P) (l : list (dev_res CR)) (H : list (mod_res CR)) Q :
  devs (state s) !! k = Some d -> Permutation (held s) (map (dev_part k) l ++ H) ->
  wp (life_model (dev_fail k)) p (mk_life l d) Q ->
  wp M (device_call zero_dev k p) s (fun a s' => exists l' d', Q a (mk_life l' d') /\
    Permutation (held s') (map (dev_part k) l' ++ H) /\ state s' = set_dev k d' (state s)).
Proof.
  intros Hd Hh Hp. eapply wp_mono.
  - apply (wp_lift (dev_part k) (fun m => default zero_dev (devs m !! k)) (set_dev k)
      (dev_fail k) may_fail (fun r => eq_refl)) with (s1 := mk_life l d) (h := H) (b := state s) (Q := Q).
    + intros f v. simpl. by rewrite lookup_insert_eq.
    + intros f g v. unfold set_dev. simpl. by rewrite insert_insert_eq.
    + done.
    + split; [done|]. simpl. by rewrite set_dev_id.
  - simpl. intros a s' ([l' d'] & HQ & Hh' & Hst). by exists l', d'.
Qed.

Lemma init_in_module (k : Z) (s : st) (H : list (mod_res CR)) :
  devices_ok -> devs (state s) !! k = Some zero_dev -> Permutation (held s) H ->
  wp M (device_call zero_dev k (tlkm_device_init (cls_of k) (core_of k))) s
    (fun ret s' => exists d l, state s' = set_dev k d (state s) /\
      Permutation (held s') (map (dev_part k) l ++ H) /\
      ((ret = 0 /\ up k d l) \/ (ret <> 0 /\ Forall is_name (map (dev_part k) l)))).
Proof.
  intros Hok Hd Hh. destruct (Hok k) as [Hblank Hbit]. eapply wp_mono.
  - apply (embed_device k _ s zero_dev [] H) with (2 := Hh); [done|].
    by apply (device_init_spec (dev_fail k) (cls_of k) (core_of k)
      (mk_life [] zero_dev) []).
  - simpl. intros ret s' (l & d & Hpost & Hh' & Hst). exists d, l. split; [done|]. split; [done|].
    destruct Hpost as [[-> Hup]|(Hr & lk & Hlk & Hl)]; [by left|right]. split; [done|].
    simpl in Hl. rewrite app_nil_r in Hl. rewrite Hl.
    destruct Hlk as [->|[[-> _]|[-> _]]]; simpl; repeat constructor; exists k; auto.
Qed.

Lemma exit_in_module (k : Z) (s : st) (d : tlkm_device P) (l : list (dev_res CR)) (H : list (mod_res CR)) :
  devs (state s) !! k = Some d -> up k d l -> Permutation (held s) (map (dev_part k) l ++ H) ->
  wp M (device_call zero_dev k (tlkm_device_exit (cls_of k))) s
    (fun _ s' => exists d', state s' = set_dev k d' (state s) /\ Permutation (held s') H).
Proof.
  intros Hd Hup Hh. eapply wp_mono.
  - eapply (embed_device k _ s d l H _ Hd Hh). by apply (device_exit_spec (dev_fail k) (cls_of k) _ []).
  - simpl. intros [] s' (l' & d' & Hl & Hh' & Hst). exists d'. split; [done|].
    simpl in Hl. symmetry in Hl. apply Permutation_nil in Hl. by rewrite Hl in Hh'.
Qed.

(** *** One device more, one device less *)

Definition same_flags (s s' : st) : Prop :=
  is_setup (state s') = is_setup (state s) /\ register_once (state s') = register_once (state s).

Lemma new_device_spec (extra : list (mod_res CR)) (k : Z) (s : st) :
  devices_ok -> mod_inv extra s -> k ∉ Access.bus (acc (state s)) ->
  k <> Access.NULL -> k <> Access.HEAD -> Z.of_nat (length (Access.bus (acc (state s)))) + 1 < 2 ^ 32 ->
  wp M (new_device k) s (fun ok s' => mod_inv extra s' /\ same_flags s s' /\
    Access.bus (acc (state s')) = Access.bus (acc (state s)) ++ (if ok then [k] else [])).
Proof.
  intros Hok [Hacc (leaks & D & Hlk & HD & Hh)] Hk H0 H1 Hsm. apply wp_bind.
  apply (wp_acquire_perm _ _ _ _ _ Hh).
  2:{ intros _. apply wp_ret. split; [by split; [|exists leaks, D]|]. by rewrite app_nil_r. }
  intros s1 Hh1 E1. cbn [negb]. cbv iota. apply wp_bind, (wp_update_perm _ _ _ _ _ Hh1).
  intros s2 Hh2 E2. rewrite E1 in E2.
  assert (devs_up (Access.bus (acc (state s))) (<[k := zero_dev]> (devs (state s))) D) as HD2.
  { eapply devs_up_frame; [|done]. intros j Hj. apply lookup_insert_ne. by intros ->. }
  apply wp_bind. eapply wp_mono; [apply (init_in_module k s2 (dev_mem k :: extra ++ leaks ++ D) Hok);
    [rewrite E2; apply lookup_insert_eq|exact Hh2]|].
  intros ret s3 (d & l & E3 & Hh3 & [[-> Hup]|[Hr Hl]]).
  - change (nonzero 0) with false. cbv iota. apply wp_bind, (wp_update_perm _ _ _ _ _ Hh3).
    intros s4 Hh4 E4. apply wp_ret. rewrite E3, E2 in E4. split; [|split].
    + split; rewrite E4; simpl; [apply unused_name; by apply unused_add|].
      destruct (devs_up_perm (k :: Access.bus (acc (state s))) (Access.bus (acc (state s)) ++ [k])
          (<[k := d]> (<[k := zero_dev]> (devs (state s)))) (dev_mem k :: map (dev_part k) l ++ D))
          as (D' & HD' & ED').
      { apply Permutation_cons_append. }
      { apply (devs_up_cons k _ _ d l); [apply lookup_insert_eq|done|].
        eapply devs_up_frame; [|exact HD2]. intros j Hj. apply lookup_insert_ne. by intros ->. }
      exists leaks, D'. split; [done|]. rewrite bus_set_name. split; [done|].
      rewrite Hh4, <- ED'. simpl. perm.
    + unfold same_flags. by rewrite E4.
    + rewrite E4. simpl. by rewrite bus_set_name.
  - unfold nonzero. rewrite (proj2 (Z.eqb_neq _ _) Hr). cbn [negb]. cbv iota.
    apply wp_bind, (wp_update_perm _ _ _ _ _ Hh3). intros s4 Hh4 E4. rewrite E3, E2 in E4.
    assert (Permutation (held s4) (dev_mem k :: extra ++ (map (dev_part k) l ++ leaks) ++ D)) as Hh4'
      by (rewrite Hh4; perm).
    apply wp_bind. apply (wp_release_perm _ _ _ _ _ Hh4'). intros s5 Hh5 E5. rewrite E4 in E5.
    apply wp_ret.
    assert (Access.bus (acc (state s5)) = Access.bus (acc (state s))) as Ebus.
    { rewrite E5. simpl. rewrite filter_app, filter_absent by done. rewrite filter_cons, decide_False by (by intros ?).
      apply app_nil_r. }
    split; [|split; [unfold same_flags; by rewrite E5|by rewrite app_nil_r]]. split.
    + rewrite E5. simpl. apply unused_del; [by apply unused_add|].
      simpl. apply elem_of_app. right. by left.
    + exists (map (dev_part k) l ++ leaks), D. split; [by apply Forall_app|]. rewrite Ebus, E5. simpl.
      split; [|done]. eapply devs_up_frame; [|exact HD2]. intros j Hj. apply lookup_insert_ne. by intros ->.
Qed.

Lemma delete_device_spec (extra : list (mod_res CR)) (k : Z) (s : st) :
  mod_inv extra s -> k ∈ Access.bus (acc (state s)) ->
  wp M (delete_device k) s (fun _ s' => mod_inv extra s' /\ same_flags s s' /\
    Access.bus (acc (state s')) = base.filter (fun q => q <> k) (Access.bus (acc (state s)))).
Proof.
  intros [Hacc (leaks & D & Hlk & HD & Hh)] Hk.
  pose proof (filter_length_ne k _ (Access.bus_nodup _ (proj1 Hacc)) Hk) as E.
  destruct (devs_up_perm _ _ _ _ E HD) as (D' & (d & l & rest & Hd & Hup & Hrest & HD') & ED).
  assert (Permutation (held s) (map (dev_part k) l ++ dev_mem k :: extra ++ leaks ++ rest)) as Hh'
    by (rewrite Hh, ED, HD'; perm).
  apply wp_bind. eapply wp_mono; [apply (exit_in_module k s d l _ Hd Hup Hh')|].
  intros [] s1 (d' & E1 & Hh1). apply wp_bind, (wp_update_perm _ _ _ _ _ Hh1). intros s2 Hh2 E2.
  rewrite E1 in E2. apply (wp_release_perm _ _ _ _ _ Hh2). intros s3 Hh3 E3. rewrite E2 in E3.
  rewrite E3. split; [|by split; [split; by rewrite E3|]]. split; rewrite E3; simpl.
  - by apply unused_del.
  - exists leaks, rest. split; [done|]. split; [|done]. eapply devs_up_frame; [|exact Hrest].
    intros j Hj. apply lookup_insert_ne. intros ->. by apply list_elem_of_filter in Hj as [? _].
Qed.

(** *** Loading and unloading *)

Lemma delete_all_spec (extra : list (mod_res CR)) (s : st) :
  mod_inv extra s ->
  wp M (for_each (Access.bus (acc (state s))) delete_device) s (fun _ s' =>
    mod_inv extra s' /\ same_flags s s' /\ Access.bus (acc (state s')) = []).
Proof.
  intros Hs.
  apply (wp_for_each M _ _ (fun l s' => mod_inv extra s' /\ same_flags s s' /\ Access.bus (acc (state s')) = l));
    [|by split; [|split]].
  intros k l s1 (Hs1 & Hf & Hb). eapply wp_mono; [apply (delete_device_spec extra k s1 Hs1); rewrite Hb; left|].
  intros [] s2 (Hs2 & Hf2 & Hb2). split; [done|]. split.
  - destruct Hf, Hf2. split; congruence.
  - rewrite Hb2, Hb. pose proof (Access.bus_nodup _ (proj1 (m_acc _ _ Hs1))) as Hnd. rewrite Hb in Hnd.
    apply NoDup_cons in Hnd as [Hk _]. rewrite filter_cons, decide_False by (by intros ?).
    by apply filter_absent.
Qed.

(** Removing cards when no device is left. *)
Lemma remove_none_spec (cards : list Z) (s : st) (Q : unit -> st -> Prop) :
  Access.bus (acc (state s)) = [] -> Q tt s ->
  wp M (for_each cards (tlkm_pcie_remove zero_dev cls_of)) s Q.
Proof.
  intros Hb HQ. induction cards as [|k cards IH]; simpl; [done|].
  apply wp_bind, wp_bind, wp_load. rewrite Hb, decide_False; [|by intros ?%elem_of_nil].
  by apply wp_ret.
Qed.

(** Addresses kzalloc may return for the devices that are still to come. *)
Definition good_keys (l : list Z) (s : st) : Prop :=
  NoDup l /\ (forall k, k ∈ l -> k ∉ Access.bus (acc (state s)) /\ k <> Access.NULL /\ k <> Access.HEAD) /\
  Z.of_nat (length (Access.bus (acc (state s)))) + Z.of_nat (length l) < 2 ^ 32.

Lemma good_keys_next (k : Z) (l : list Z) (s s' : st) (ok : bool) :
  good_keys (k :: l) s ->
  Access.bus (acc (state s')) = Access.bus (acc (state s)) ++ (if ok then [k] else []) ->
  good_keys l s'.
Proof.
  intros (Hnd & Hk & Hlen) Hb. apply NoDup_cons in Hnd as [Hkl Hnd]. split; [done|]. rewrite Hb. split.
  - intros j Hj. destruct (Hk j) as (H1 & H2 & H3); [by right|]. split; [|done].
    rewrite not_elem_of_app. split; [done|]. destruct ok; [|by intros ?%elem_of_nil].
    intros ->%list_elem_of_singleton. done.
  - rewrite length_app. simpl in Hlen. destruct ok; simpl; lia.
Qed.

Lemma good_key_new (extra : list (mod_res CR)) (k : Z) (l : list Z) (s : st) :
  devices_ok -> mod_inv extra s -> good_keys (k :: l) s ->
  wp M (new_device k) s (fun _ s' => mod_inv extra s' /\ same_flags s s' /\ good_keys l s').
Proof.
  intros Hok Hs Hg. pose proof Hg as (Hnd & Hk & Hlen). destruct (Hk k) as (H1 & H2 & H3); [left|].
  simpl in Hlen. eapply wp_mono; [apply (new_device_spec extra k s); try done; lia|].
  intros ok s' (Hs' & Hf & Hb). split; [done|]. split; [done|]. by eapply good_keys_next.
Qed.

Lemma zynq_probe_spec (extra : list (mod_res CR)) (node : option Z) (l : list Z) (s : st) :
  devices_ok -> mod_inv extra s -> good_keys (option_list node ++ l) s ->
  wp M (zynq_device_probe zero_dev cls_of ids_of core_of node) s
    (fun _ s' => mod_inv extra s' /\ same_flags s s' /\ good_keys l s').
Proof.
  intros Hok Hs Hg. destruct node as [k|]; simpl in *; [|done].
  wp_seq (good_key_new extra k l s Hok Hs Hg). intros ok s' H. by apply wp_ret.
Qed.

Lemma sim_probe_spec (extra : list (mod_res CR)) (node : option Z) (s : st) :
  devices_ok -> mod_inv extra s -> good_keys (option_list node) s ->
  wp M (sim_device_probe zero_dev cls_of ids_of core_of node) s
    (fun _ s' => mod_inv extra s' /\ same_flags s s').
Proof.
  intros Hok Hs Hg. destruct node as [k|]; simpl in *; [|done].
  wp_seq (good_key_new extra k [] s Hok Hs Hg). intros ok s' (H1 & H2 & _). by apply wp_ret.
Qed.

Lemma pcie_init_first (extra : list (mod_res CR)) (cards rest : list Z) (s : st) :
  devices_ok -> may_fail pci_driver = false -> mod_inv extra s -> good_keys (cards ++ rest) s ->
  register_once (state s) = false ->
  wp M (pcie_init zero_dev cls_of ids_of core_of cards) s
    (fun _ s' => mod_inv (pci_driver :: extra) s' /\ is_setup (state s') = is_setup (state s) /\
       register_once (state s') = true /\ good_keys rest s').
Proof.
  intros Hok Hdrv Hs Hg Honce. pose proof Hs as [Hacc (leaks & D & Hlk & HD & Hh)].
  apply wp_bind, wp_load. rewrite Honce. apply wp_bind, (wp_update_perm _ _ _ _ _ Hh). intros s1 Hh1 E1.
  apply wp_bind. apply (wp_request_perm _ _ _ _ _ Hh1); [|intros res _; by rewrite Hdrv].
  intros s2 Hh2 E2. rewrite E1 in E2. change (nonzero 0) with false. cbv iota. apply wp_bind.
  eapply wp_mono.
  - apply (wp_for_each M cards _ (fun l s' => mod_inv (pci_driver :: extra) s' /\
      is_setup (state s') = is_setup (state s) /\ register_once (state s') = true /\ good_keys (l ++ rest) s')).
    + intros k l s3 (Hs3 & Hi3 & Hr3 & Hg3). apply wp_bind. unfold tlkm_pcie_probe.
      wp_seq (good_key_new (pci_driver :: extra) k (l ++ rest) s3 Hok Hs3 Hg3).
      intros ok s4 (Hs4 & [Hi4 Hr4] & Hg4). apply wp_ret, wp_ret. split_and!; try done; congruence.
    + rewrite E2. split_and!; [|done|done|].
      * split; rewrite E2; [done|]. exists leaks, D. split; [done|]. split; [done|]. by rewrite Hh2.
      * unfold good_keys in *. by rewrite E2.
  - simpl. intros [] s3 (Hs3 & Hi3 & Hr3 & Hg3). by apply wp_ret.
Qed.

(** What the module holds besides its devices. *)
Definition own_res (m : tlkm_module P) : list (mod_res CR) :=
  (if is_setup m then [main_file] else []) ++ (if register_once m then [pci_driver] else []).

(** Unloaded: at most names are left. *)
Definition unloaded (s : st) : Prop :=
  Access.bus (acc (state s)) = [] /\ exists leaks, Forall is_name leaks /\ Permutation (held s) leaks.

Lemma pcie_exit_spec (cards : list Z) (s : st) :
  mod_inv (if register_once (state s) then [pci_driver] else []) s -> Access.bus (acc (state s)) = [] ->
  wp M (pcie_exit zero_dev cls_of cards) s (fun _ s' =>
    mod_inv [] s' /\ Access.bus (acc (state s')) = [] /\ register_once (state s') = false).
Proof.
  intros Hs Hb. apply wp_bind, wp_load. destruct (register_once (state s)) eqn:Er.
  2:{ by apply wp_ret. }
  destruct Hs as [Hacc (leaks & D & Hlk & HD & Hh)].
  apply wp_bind, (wp_update_perm _ _ _ _ _ Hh). intros s1 Hh1 E1.
  apply wp_bind, remove_none_spec; [by rewrite E1|].
  apply (wp_release_perm _ _ _ _ _ Hh1). intros s2 Hh2 E2. rewrite E1 in E2. rewrite E2.
  split; [|done]. split; rewrite E2; [done|]. by exists leaks, D.
Qed.

Lemma bus_exit_spec (cards : list Z) (s : st) :
  mod_inv (own_res (state s)) s ->
  wp M (tlkm_bus_exit zero_dev cls_of cards) s (fun _ s' => unloaded s').
Proof.
  intros Hs. apply wp_bind.
  assert (wp M tlkm_exit s (fun _ s' => state s' = state s /\
    mod_inv (if register_once (state s) then [pci_driver] else []) s')) as Hexit.
  { apply wp_bind, wp_load. unfold own_res in Hs. destruct (is_setup (state s)); [|by apply wp_ret].
    destruct Hs as [Hacc (leaks & D & Hlk & HD & Hh)]. simpl in Hh.
    apply (wp_release_perm _ _ _ _ _ Hh). intros s1 Hh1 E1. split; [done|].
    split; rewrite E1; [done|]. by exists leaks, D. }
  eapply wp_mono; [apply Hexit|]. intros [] s1 [E1 Hs1]. apply wp_bind, wp_load.
  wp_seq (delete_all_spec _ s1 Hs1). intros [] s2 (Hs2 & [_ Hr] & Hb). rewrite E1 in Hr. apply wp_bind.
  eapply wp_mono; [apply pcie_exit_spec; [by rewrite Hr|done]|]. intros [] s3 (Hs3 & Hb3 & Hr3).
  eapply wp_mono; [apply pcie_exit_spec; [by rewrite Hr3|done]|]. intros [] s4 (Hs4 & Hb4 & _).
  split; [done|]. destruct Hs4 as [_ (leaks & D & Hlk & HD & Hh)]. rewrite Hb4 in HD. simpl in HD. subst D.
  exists leaks. split; [done|]. by rewrite Hh, app_nil_r.
Qed.

(** The module is loaded and no device is in use ([mod_inv] contains [Access.unused]). *)
Definition loaded (s : st) : Prop :=
  own_res (state s) = [main_file; pci_driver] /\ mod_inv [main_file; pci_driver] s.

(** Before the module is loaded. *)
Definition not_loaded (s : st) : Prop :=
  held s = [] /\ is_setup (state s) = false /\ register_once (state s) = false /\
  Access.unused (acc (state s)) /\ Access.bus (acc (state s)) = [].

Lemma bus_init_spec (zynq zynqmp : option Z) (cards : list Z) (sim : option Z) (s : st) :
  devices_ok -> may_fail pci_driver = false -> may_fail main_file = false -> not_loaded s ->
  good_keys (option_list zynq ++ option_list zynqmp ++ cards ++ option_list sim) s ->
  wp M (tlkm_bus_init zero_dev cls_of ids_of core_of zynq zynqmp cards sim) s
    (fun ret s' => (ret = 0 /\ Access.bus (acc (state s')) <> [] /\ mod_inv [main_file; pci_driver] s' /\
                    own_res (state s') = [main_file; pci_driver]) \/
                   (ret = - ENXIO /\ unloaded s')).
Proof.
  intros Hok Hdrv Hmain (Hh & His & Honce & Hacc & Hbus) Hg.
  apply wp_bind, (wp_update_perm _ _ _ [] _); [by rewrite Hh|]. intros s1 Hh1 E1.
  assert (acc (state s1) = acc (state s)) as Ea.
  { rewrite E1. simpl. rewrite <- Hbus. by destruct (acc (state s)). }
  assert (mod_inv [] s1) as Hs1.
  { split; [by rewrite Ea|]. exists [], []. split; [done|]. split; [|done]. rewrite Ea, Hbus. done. }
  assert (good_keys (option_list zynq ++ option_list zynqmp ++ cards ++ option_list sim) s1) as Hg1
    by (unfold good_keys in *; by rewrite Ea).
  apply wp_bind. unfold tlkm_bus_enumerate.
  wp_seq (zynq_probe_spec [] zynq _ s1 Hok Hs1 Hg1). intros r2 s2 (Hs2 & [Hi2 Hr2] & Hg2).
  wp_seq (zynq_probe_spec [] zynqmp _ s2 Hok Hs2 Hg2). intros r3 s3 (Hs3 & [Hi3 Hr3] & Hg3).
  rewrite Hi2, E1 in Hi3. rewrite Hr2, E1 in Hr3. simpl in Hi3, Hr3. rewrite His in Hi3. rewrite Honce in Hr3.
  wp_seq (pcie_init_first [] cards _ s3 Hok Hdrv Hs3 Hg3 Hr3). intros r4 s3' (Hs3' & Hi3' & Hr3' & Hg3').
  apply wp_bind, wp_bind, wp_load. rewrite Hr3'. apply wp_ret.
  wp_seq (sim_probe_spec _ sim s3' Hok Hs3' Hg3'). intros r5 s4 (Hs4 & Hi4 & Hr4).
  rewrite Hi3' in Hi4. rewrite Hr3' in Hr4. apply wp_ret, wp_bind, wp_load.
  assert (own_res (state s4) = [pci_driver]) as Eown by (unfold own_res; by rewrite Hr4, Hi4, Hi3).
  unfold Access.tlkm_bus_num_devices.
  rewrite (Access.bus_num _ (proj1 (m_acc _ _ Hs4))).
  destruct (Z.eqb_spec (Z.of_nat (length (Access.bus (acc (state s4))))) 0) as [Hz|Hnz].
  - apply wp_bind. eapply wp_mono; [apply bus_exit_spec; by rewrite Eown|]. intros [] s5 H5. by right.
  - destruct Hs4 as [Hacc4 (leaks & D & Hlk & HD & Hh4)]. apply wp_bind. unfold tlkm_init.
    apply wp_bind, (wp_update_perm _ _ _ _ _ Hh4). intros s5 Hh5 E5.
    apply wp_bind, (wp_update_perm _ _ _ _ _ Hh5). intros s6 Hh6 E6. rewrite E5 in E6.
    apply (wp_request_perm _ _ _ _ _ Hh6); [|intros res _; by rewrite Hmain].
    intros s7 Hh7 E7. rewrite E6 in E7. change (nonzero 0) with false. cbv iota. apply wp_ret. left.
    split; [done|]. split; [|split].
    + rewrite E7. simpl. intros Hb. rewrite Hb in Hnz. simpl in Hnz. lia.
    + split; rewrite E7; simpl.
      * destruct Hacc4 as ([B1 B2 B3 B4 B5] & Hf & Hr). split; [|by split]. by split.
      * exists leaks, D. split; [done|]. split; [done|]. by rewrite Hh7.
    + unfold own_res. rewrite E7. simpl. by rewrite Hr4.
Qed.
End Spec.

(** ** Theorem *)

(** C6: Loading and unloading the module balance, with any number of devices of any
    classes that keep the interface of DeviceLife.v, whichever of them cannot be set
    up, under these conditions, which the code does not check: the kernel refuses
    neither the main file nor the PCI driver, and [devices_ok]: every status core has
    at most the 16 components of dev->components (otherwise tlkm_status_init writes
    past that table) and describes something its class supports, if it can be parsed.
    If tlkm_bus_init returns 0, some device is up and the module is [loaded]: nobody
    uses a device, and it holds exactly the main file, the registration as PCI
    driver and, for every device on the bus, its memory and what it holds.
    Otherwise it returns ENXIO and has given back everything.  tlkm_bus_exit gives
    back everything from any loaded state, also a later one, in which devices have
    been used and released again (a class keeps its part: for a Zynq any set of DMA
    buffers may be in use), but not while a device is in use.  (Names of device
    files whose registration was refused stay behind.)  Neither does anything to a
    resource it does not hold. *)
Theorem module_load_unload {CR P : Type} {EqCR : EqDecision CR} (may_fail : mod_res CR -> bool)
    (zero_dev : tlkm_device P) (cls_of : Z -> tlkm_class CR P)
    {Cls : forall k, DeviceClass (fun r => may_fail (dev_part k r)) (cls_of k)}
    (ids_of : Z -> Z * Z)
    (core_of : Z -> list Z)
    (zynq zynqmp : option Z) (cards : list Z) (sim : option Z) (s : life (mod_res CR) (tlkm_module P)) :
  may_fail pci_driver = false -> may_fail main_file = false ->
  devices_ok zero_dev cls_of core_of may_fail ->
  not_loaded s -> good_keys (option_list zynq ++ option_list zynqmp ++ cards ++ option_list sim) s ->
  wp (life_model may_fail)
    (tlkm_bus_init zero_dev cls_of ids_of core_of zynq zynqmp cards sim) s
    (fun ret s' =>
      (ret = - ENXIO /\ unloaded s') \/
      (ret = 0 /\ Access.bus (acc (state s')) <> [] /\ loaded cls_of may_fail s')) /\
  (forall s', loaded cls_of may_fail s' ->
     wp (life_model may_fail) (tlkm_bus_exit zero_dev cls_of cards) s' (fun _ s'' => unloaded s'')).
Proof.
  intros Hdrv Hmain Hok Hs Hg. split.
  - eapply wp_mono; [by apply (bus_init_spec zero_dev cls_of ids_of core_of
      may_fail zynq zynqmp cards sim s)|].
    intros ret s' [(-> & Hb & Hinv & Hown)|[-> Hu]]; [right|by left]. by split_and!.
  - intros s' [Hown Hinv]. apply (bus_exit_spec zero_dev cls_of may_fail cards s'). by rewrite Hown.
Qed.

#[local] Existing Instance ZynqDevice.zynq_res_eq_dec.

(** A board with one Zynq and a PCI driver without cards; every allocation, device file
    and register window may be refused. *)
Definition demo_module : tlkm_module ZynqDevice.zynq_device :=
  mk_module (Access.mk_tlkm [] 0 ∅ ∅ 0) ∅ false false.
Definition demo_may_fail (r : mod_res ZynqDevice.zynq_res) : bool :=
  match r with
  | dev_part _ r => ZynqDevice.demo_may_fail r
  | main_file | pci_driver => false
  | _ => true
  end.

Lemma module_load_unload_witness :
  let Cls := fun _ : Z => ZynqDevice.demo_class in
  wp (life_model demo_may_fail)
    (tlkm_bus_init ZynqDevice.demo_device (fun _ => ZynqDevice.zynq_cls) (fun _ => (0, 0))
      (fun _ => ZynqDevice.demo_status_core) (Some 4096) None [] None) (mk_life [] demo_module)
    (fun ret s' =>
      (ret = - ENXIO /\ unloaded s') \/
      (ret = 0 /\ Access.bus (acc (state s')) <> [] /\
       wp (life_model demo_may_fail) (tlkm_bus_exit ZynqDevice.demo_device (fun _ => ZynqDevice.zynq_cls) []) s'
         (fun _ s'' => unloaded s''))).
Proof.
  intros Cls.
  destruct (module_load_unload demo_may_fail ZynqDevice.demo_device (fun _ => ZynqDevice.zynq_cls)
      (Cls := Cls) (fun _ => (0, 0)) (fun _ => ZynqDevice.demo_status_core)
      (Some 4096) None [] None (mk_life [] demo_module)) as [Hinit Hexit].
  - reflexivity.
  - reflexivity.
  - intros k. split; [by split|apply ZynqDevice.demo_bitstream].
  - split; [done|]. split; [done|]. split; [done|]. split; [|done].
    split; [|split; [done|intros p d Hd; simpl in Hd; by simplify_map_eq]]. split; simpl.
    + apply NoDup_nil_2.
    + intros p Hp. by apply elem_of_nil in Hp.
    + done.
    + done.
    + done.
  - split; [apply NoDup_singleton|]. split; [|done].
    intros k ->%list_elem_of_singleton. split; [by intros ?%elem_of_nil|done].
  - eapply wp_mono; [exact Hinit|]. intros ret s' [H|(-> & Hb & Hl)]; [by left|right].
    split; [done|]. split; [done|]. by apply Hexit.
Defined.

End BusLife.
