(* ===== verification/SimDevice.v ===== *)
(** * The simulation class (sim/sim_device.c, sim/sim_irq.c, sim/sim_ioctl.c, sim/sim.h)

    A module that is built with ENABLE_SIM has one more class: a device without
    hardware.  tlkm_device_init gives it its device files only.  The class keeps the
    interfaces of DeviceLife.v and Irq.v; its commands never change anything, but
    user space cannot reach them, because the class does not name its dispatcher. *)
From stdpp Require Import strings.
From S2P Require Import Prelude Kernel Lifecycle StatusCore Status DeviceLife Registers Irq.

Module SimDevice.
Import Kernel Lifecycle DeviceLife.
Import Status(str).
#[local] Open Scope prog_scope.

(** ** sim_device.c *)

(** _sim_dev: [attached]: dev->private_data points to it, [parent]: its parent is not
    NULL. *)
Record sim_device := mk_sim { attached : bool; parent : bool }.

Notation device := (tlkm_device sim_device).
Notation L := (prog (lifeE (dev_res Empty_set) device)).

Definition set_private (f : sim_device -> sim_device) (d : device) : device :=
  mk_device (core d) (base_offset d) (f (private_data d)).

Definition sim_device_init : L Z := update (set_private (fun _ => mk_sim true true));;; Ret 0.

(** The log reads the id of the parent. *)
Definition sim_device_exit : L unit :=
  update (set_private (fun z => mk_sim false (parent z)));;;
  let! d := call load in
  if parent (private_data d) then Ret tt else call bug.

Definition sim_device_init_subsystems : L Z := Ret 0.
Definition sim_device_exit_subsystems : L unit := Ret tt.

(** ** sim_irq.c *)

Definition sim_irq_init : L Z := Ret 0.
Definition sim_irq_exit : L unit := Ret tt.

Definition sim_irq_request_platform_irq (p : sim_device) : option (Z * sim_device) := Some (0, p).
Definition sim_irq_release_platform_irq (p : sim_device) : option sim_device := Some p.

#[export] Instance sim_irq_ops : Irq.irq_ops sim_device := {|
  Irq.pirq := fun _ p _ _ => sim_irq_request_platform_irq p;
  Irq.rirq := fun p _ _ => sim_irq_release_platform_irq p
|}.

(** ** sim.h *)

Definition sim_cls : tlkm_class Empty_set sim_device :=
  mk_class (str "sim") sim_device_init sim_device_exit
    (Some sim_device_init_subsystems) (Some sim_device_exit_subsystems)
    (Some sim_irq_init) (Some sim_irq_exit).

(** ** sim_ioctl.c *)
Section Commands.
Import Registers.
Variable sizeof : command -> Z.
(** The argument of a command as a struct tlkm_copy_cmd, and what the calls of the
    register commands find (see Registers.v). *)
Context {A : Type} (as_copy : A -> tlkm_copy_cmd) (kzalloc_ok : bool) (fault : option nat) (user : option (list Z)).

(** sim_ioctl_read and sim_ioctl_write *)
Definition sim_ioctl_read (a : A) (d : dev) : option (Z * A * dev) :=
  r ← tlkm_platform_read kzalloc_ok fault d (as_copy a); Some (fst r, a, d).
Definition sim_ioctl_write (a : A) (d : dev) : option (Z * A * dev) :=
  r ← tlkm_platform_write kzalloc_ok user d (as_copy a); Some (fst r, a, snd r).

(** sim_ioctl_info to sim_ioctl_svm_migrate_to_ram *)
Definition sim_run (c : command) (a : A) (d : dev) : option (Z * A * dev) :=
  match c with
  | ALLOC | FREE | COPYTO | COPYFROM | ALLOC_COPYTO | COPYFROM_FREE => Some (0, a, d)
  | READ => sim_ioctl_read a d
  | WRITE => sim_ioctl_write a d
  | INFO | SIZE | REGISTER_INTERRUPT
  | DMA_BUFFER_ALLOCATE | DMA_BUFFER_FREE | DMA_BUFFER_TO_DEV | DMA_BUFFER_FROM_DEV
  | KERNEL_BUFFER_ALLOCATE | KERNEL_BUFFER_FREE | KERNEL_BUFFER_MAP | KERNEL_BUFFER_UNMAP
  | PCIE_BAR_ADDR | SVM_LAUNCH | SVM_MIGRATE_TO_DEV | SVM_MIGRATE_TO_RAM => Some (- EFAULT, a, d)
  end.

Definition sim_ioctl := class_ioctl sizeof sim_run.

(** sim_cls.ioctl is not initialised. *)
Definition sim_cls_ioctl : option (option A -> bool -> Z -> dev -> option (Z * option A * dev)) := None.
End Commands.

(** ** The class keeps the interfaces *)
Section Lawful.
Variable may_fail : dev_res Empty_set -> bool.

Definition s_created (p : sim_device) (l : list Empty_set) : Prop := parent p = true /\ l = [].

#[export] Instance sim_class : DeviceClass may_fail sim_cls.
Proof.
  refine {| fresh := fun _ => True; supported := fun _ => True; created := s_created;
            with_subsystems := fun _ => s_created; with_interrupts := fun _ => s_created |}.
  - intros s h _ Hh. apply wp_bind, (wp_update_perm _ _ _ _ _ Hh). intros s1 H1 E1. left.
    split; [done|]. split; [by rewrite E1|]. exists []. by rewrite E1.
  - intros s h (_ & l & [Hp ->] & Hh). apply wp_bind, (wp_update_perm _ _ _ _ _ Hh). intros s1 H1 E1.
    apply wp_bind, wp_load. rewrite E1. simpl. rewrite Hp. apply wp_ret. by rewrite E1.
  - intros s h Hs _. left. by split.
  - intros s h Hs. done.
  - intros s h Hs _. left. by split.
  - intros s h Hs. done.
  - done.
Defined.
End Lawful.

(** Any number can be registered, and registrations are never refused. *)
#[export] Instance sim_irq_class : Irq.IrqClass sim_device.
Proof.
  refine {| Irq.irq_ok := fun _ _ => True; Irq.valid := fun _ => True; Irq.may_refuse := true |}.
  - intros irq_res p l a no fd _ _ _ _ _. by exists 0, p.
  - intros p l m _ _ _. by exists p.
Defined.

(** ** Theorems *)

(** A simulated device is set up with its two device files and nothing else, whatever its
    status core says, and removed again. *)
Theorem sim_device_lifecycle (may_fail : dev_res Empty_set -> bool) (status_core : list Z) (c : dev_core)
    (p : sim_device) (offset : Z) :
  unmapped c ->
  wp (life_model may_fail) (tlkm_device_init sim_cls status_core) (mk_life [] (mk_device c offset p))
    (fun ret s' =>
      (ret = 0 /\ (exists named, Permutation (held s') (file_res (core (state s')) named)) /\
       wp (life_model may_fail) (tlkm_device_exit sim_cls) s' (fun _ s'' => held s'' = [])) \/
      (ret <> 0 /\ exists l, leaked may_fail l /\ Permutation (held s') l)).
Proof.
  intros Hc. eapply wp_mono.
  - by apply (device_init_spec may_fail sim_cls status_core _ []).
  - intros ret s' [[-> Hu]|(Hr & l & Hl & Hh)]; [left|right; split; [done|]; exists l; by rewrite app_nil_r in Hh].
    split; [done|]. split.
    + destruct Hu as (b & Hb). simpl in Hb. destruct Hb as (_ & _ & _ & l & [_ ->] & Hh). exists b.
      by rewrite Hh, app_nil_r.
    + eapply wp_mono; [by apply (device_exit_spec may_fail sim_cls s' [])|].
      intros [] s2 H2. by apply Permutation_nil_r.
Qed.

(** The commands of the class: the memory commands report success and do nothing, the
    register commands fail because no window is mapped, all others are refused; the
    device and the argument never change.  From user space none of them can be used:
    tlkm_device_ioctl stops at BUG_ON, because sim_cls has no ioctl entry. *)
Theorem sim_commands {A : Type} (sizeof : Registers.command -> Z) (as_copy : A -> Registers.tlkm_copy_cmd)
    (kzalloc_ok back : bool) (fault : option nat) (user : option (list Z)) (a : A) (d : Registers.dev)
    (own : Registers.command -> Registers.dev -> option (Z * option A * Registers.dev)) (c : Registers.command) :
  (forall c, 0 <= sizeof c) ->
  (forall w, Registers.mem d w = None) ->
  (exists ret, (ret = 0 \/ ret = - ENXIO \/ ret = - EFAULT) /\
     sim_ioctl sizeof as_copy kzalloc_ok fault user (Some a) back (Registers.ioctl_number sizeof c) d
     = Some (if back then (ret, Some a, d) else (- EFAULT, None, d))) /\
  (c <> Registers.INFO -> c <> Registers.SIZE -> c <> Registers.REGISTER_INTERRUPT ->
   Registers.tlkm_device_ioctl sizeof own sim_cls_ioctl (Some a) back (Registers.ioctl_number sizeof c) d = None).
Proof.
  intros Hs Hd. split.
  - assert (forall addr, Registers.addr2map d addr = None) as Ha.
    { intros x. unfold Registers.addr2map. repeat case_match; try done;
        match goal with H : Registers.mem d ?w = Some _ |- _ => by rewrite Hd in H end. }
    unfold sim_ioctl, Registers.class_ioctl.
    rewrite Registers.find_cmd_number by (done || apply Registers.all_commands).
    assert (exists ret, (ret = 0 \/ ret = - ENXIO \/ ret = - EFAULT) /\
      sim_run as_copy kzalloc_ok fault user c a d = Some (ret, a, d)) as (ret & Hret & ->).
    { destruct c; simpl; unfold sim_ioctl_read, sim_ioctl_write, Registers.tlkm_platform_read,
        Registers.tlkm_platform_write; rewrite ?Ha; simpl; eexists; (split; [|reflexivity]); auto. }
    exists ret. split; [done|]. simpl. by destruct back.
  - intros H1 H2 H3. unfold Registers.tlkm_device_ioctl.
    assert (forall c', c <> c' -> (Registers.ioctl_number sizeof c =? Registers.ioctl_number sizeof c') = false) as Hne.
    { intros c' Hc. apply Z.eqb_neq. intros E. apply Hc. by apply (Registers.number_inj sizeof). }
    by rewrite !Hne.
Qed.

End SimDevice.
