(* ===== verification/Perfc.v ===== *)
(** * Performance counters (device/tlkm_perfc.c, device/tlkm_perfc_miscdev.c: reading)

    Each device has 22 counters, C ints that the module increments, adds to and sets.
    A device file shows them as text, one line per counter. *)
From stdpp Require Import strings.
From S2P Require Import Prelude Access Status.

Module Perfc.
Import Access(TLKM_DEVS_SZ) Status(str).

(** ** Counters (tlkm_perfc.h) *)

Inductive counter :=
| signals_read | signals_written | signals_signaled | control_ioctls | total_alloced_mem | total_freed_mem
| total_usr2dev_transfers | total_dev2usr_transfers | total_ctl_writes | total_ctl_reads | link_width
| link_speed | dma_reads | dma_writes | outstanding | outstanding_high_watermark | limited_by_read_sz
| limited_by_outbuf_sz | indices_in_order | indices_reversed | irq_error_already_pending | total_irqs.
#[export] Instance counter_eq_dec : EqDecision counter.
Proof. solve_decision. Defined.

Definition TLKM_PERFC_COUNTERS : list (counter * string) :=
  [(signals_read, "signals_read"); (signals_written, "signals_written");
   (signals_signaled, "signals_signaled"); (control_ioctls, "control_ioctls");
   (total_alloced_mem, "total_alloced_mem"); (total_freed_mem, "total_freed_mem");
   (total_usr2dev_transfers, "total_usr2dev_transfers"); (total_dev2usr_transfers, "total_dev2usr_transfers");
   (total_ctl_writes, "total_ctl_writes"); (total_ctl_reads, "total_ctl_reads");
   (link_width, "link_width"); (link_speed, "link_speed"); (dma_reads, "dma_reads");
   (dma_writes, "dma_writes"); (outstanding, "outstanding");
   (outstanding_high_watermark, "outstanding_high_watermark"); (limited_by_read_sz, "limited_by_read_sz");
   (limited_by_outbuf_sz, "limited_by_outbuf_sz"); (indices_in_order, "indices_in_order");
   (indices_reversed, "indices_reversed"); (irq_error_already_pending, "irq_error_already_pending");
   (total_irqs, "total_irqs")]%string.

(** ** tlkm_perfc.c *)

(** An array of TLKM_DEVS_SZ atomic ints per counter. *)
Definition tlkm_perfc : Type := counter -> list Z.

(** An operation on pc_name[dev_id]; None: behind the array. *)
Definition update_counter (c : counter) (dev_id : Z) (f : Z -> Z) (p : tlkm_perfc) : option tlkm_perfc :=
  if (0 <=? dev_id) && (dev_id <? Z.of_nat (length (p c)))
  then Some (fun c' => if decide (c' = c) then alter f (Z.to_nat dev_id) (p c) else p c')
  else None.

Definition tlkm_perfc_inc (c : counter) (dev_id : Z) := update_counter c dev_id (fun x => s32 (x + 1)).
Definition tlkm_perfc_add (c : counter) (dev_id v : Z) := update_counter c dev_id (fun x => s32 (x + v)).
Definition tlkm_perfc_set (c : counter) (dev_id v : Z) := update_counter c dev_id (fun _ => v).
Definition tlkm_perfc_get (c : counter) (dev_id : Z) (p : tlkm_perfc) : option Z :=
  if 0 <=? dev_id then p c !! Z.to_nat dev_id else None.

(** ** tlkm_perfc_miscdev.c *)

Definition TLKM_PERFC_MISCDEV_BUFSZ : Z := 768.
Definition TLKM_VERSION : string := "3.0".

(** %lu: at most 20 digits *)
Fixpoint digits (fuel : nat) (n : Z) (acc : list Z) : list Z :=
  match fuel with
  | O => acc
  | S fuel =>
      let acc := (48 + n mod 10) :: acc in
      if n / 10 =? 0 then acc else digits fuel (n / 10) acc
  end.
Definition decimal (n : Z) : list Z := digits 20 n [].
(** %8lu *)
Definition padded (n : Z) : list Z := replicate (8 - length (decimal n)) 32 ++ decimal n.

(** name:\t%8lu\n *)
Definition line (name : string) (v : Z) : list Z := str name ++ [58; 9] ++ padded (u64 v) ++ [10].

(** The arguments are evaluated as the counters are now. *)
Fixpoint lines (cs : list (counter * string)) (dev_id : Z) (p : tlkm_perfc) : option (list Z) :=
  match cs with
  | [] => Some (str "TLKM version:" ++ [9] ++ str TLKM_VERSION ++ [10])
  | (c, name) :: cs => v ← tlkm_perfc_get c dev_id p; l ← lines cs dev_id p; Some (line name v ++ l)
  end.

(** snprintf: what does not fit is cut off, and a zero byte is put behind. *)
Definition snprintf (size : Z) (text : list Z) : list Z := take (Z.to_nat (size - 1)) text.

(** tlkm_perfc_miscdev_read: the result, the new offset and the bytes at usr.  [left] is
    what copy_to_user returns, the number of bytes it could not copy; the size the caller
    gives is ignored.  None: undefined behaviour. *)
Definition tlkm_perfc_miscdev_read (dev_id loff left : Z) (p : tlkm_perfc) : option (Z * Z * list Z) :=
  text ← lines TLKM_PERFC_COUNTERS dev_id p;
  let tmp := snprintf TLKM_PERFC_MISCDEV_BUFSZ text in
  let sl := Z.of_nat (length tmp) + 1 in
  if sl - loff >? 0 then
    if loff <? 0 then None else
    let rl := Z.of_nat (length tmp) - loff + 1 in
    Some (rl, loff + (rl - left), take (Z.to_nat (rl - left)) (tmp ++ [0]))
  else Some (0, loff, []).

(** ** Well-typed counters *)

Definition is_int (v : Z) : Prop := - 2 ^ 31 <= v < 2 ^ 31.
Definition perfc_ok (p : tlkm_perfc) : Prop :=
  forall c, length (p c) = Z.to_nat TLKM_DEVS_SZ /\ Forall is_int (p c).

Lemma s32_int (v : Z) : is_int (s32 v).
Proof.
  unfold is_int, s32, swrap. change (32 - 1) with 31. pose proof (Z.mod_pos_bound (v + 2 ^ 31) (2 ^ 32)). lia.
Qed.

(** The operations on counters of existing devices are defined, keep every counter an
    int, have the effect of the machine operation on their counter and none on any other
    counter or device; for a device behind the tenth they are undefined. *)
Theorem counter_operations (p : tlkm_perfc) (c : counter) (dev_id : Z) (f : Z -> Z) :
  perfc_ok p -> (forall v, is_int v -> is_int (f v)) ->
  (0 <= dev_id < TLKM_DEVS_SZ -> exists p' v,
     update_counter c dev_id f p = Some p' /\ perfc_ok p' /\ tlkm_perfc_get c dev_id p = Some v /\
     tlkm_perfc_get c dev_id p' = Some (f v) /\
     forall c' d, c' <> c \/ d <> dev_id -> tlkm_perfc_get c' d p' = tlkm_perfc_get c' d p) /\
  (TLKM_DEVS_SZ <= dev_id -> update_counter c dev_id f p = None).
Proof.
  intros Hp Hf. destruct (Hp c) as [Hl Hi]. change TLKM_DEVS_SZ with 10 in *.
  unfold update_counter. rewrite Hl. change (Z.of_nat (Z.to_nat 10)) with 10. split.
  - intros Hd. rewrite (proj2 (Z.leb_le _ _)), (proj2 (Z.ltb_lt _ _)) by lia.
    destruct (lookup_lt_is_Some_2 (p c) (Z.to_nat dev_id)) as [v Hv]; [rewrite Hl; lia|].
    eexists _, v. split; [done|]. unfold tlkm_perfc_get. split; [|split; [|split]].
    + intros c'. case_decide; [|apply Hp]. rewrite length_alter. split; [done|].
      apply Forall_lookup. intros i x Hx. destruct (decide (i = Z.to_nat dev_id)) as [->|Hne].
      * rewrite list_lookup_alter_eq, Hv in Hx. injection Hx as <-. rewrite Forall_lookup in Hi. by apply Hf, (Hi _ _ Hv).
      * rewrite list_lookup_alter_ne in Hx by done. rewrite Forall_lookup in Hi. by apply (Hi i).
    + by rewrite (proj2 (Z.leb_le _ _)) by lia.
    + rewrite (proj2 (Z.leb_le _ _)), decide_True by (done || lia). by rewrite list_lookup_alter_eq, Hv.
    + intros c' d Hne. destruct (Z.leb_spec 0 d); [|done]. case_decide as Hc; [|done]. subst c'.
      destruct Hne as [Hne|Hne]; [done|]. apply list_lookup_alter_ne. lia.
  - intros Hd. by rewrite (proj2 (Z.ltb_ge _ _)), andb_false_r by lia.
Qed.

(** ** The text *)

(** Reading a number *)
Definition next_digit (v c : Z) : Z := 10 * v + (c - 48).
Definition parse (l : list Z) : Z := foldl next_digit 0 l.

Lemma digits_S (fuel : nat) (n : Z) (acc : list Z) :
  digits (S fuel) n acc
  = if n / 10 =? 0 then (48 + n mod 10) :: acc else digits fuel (n / 10) ((48 + n mod 10) :: acc).
Proof. done. Qed.

Lemma digits_value (fuel : nat) (n : Z) (acc : list Z) :
  0 <= n < 10 ^ Z.of_nat (S fuel) -> foldl next_digit 0 (digits (S fuel) n acc) = foldl next_digit n acc.
Proof.
  revert n acc. induction fuel as [|fuel IH]; intros n acc Hn; rewrite digits_S.
  - change (10 ^ Z.of_nat 1) with 10 in Hn. replace (n / 10) with 0 by dlia. cbn. f_equal. unfold next_digit. dlia.
  - destruct (Z.eqb_spec (n / 10) 0) as [E|E].
    + cbn. f_equal. unfold next_digit. dlia.
    + rewrite IH; [cbn; f_equal; unfold next_digit; dlia|].
      rewrite (Nat2Z.inj_succ (S fuel)), Z.pow_succ_r in Hn by lia. dlia.
Qed.

Lemma digits_length (k fuel : nat) (n : Z) (acc : list Z) :
  (1 <= k)%nat -> 0 <= n < 10 ^ Z.of_nat k -> (length (digits fuel n acc) <= k + length acc)%nat.
Proof.
  revert k n acc. induction fuel as [|fuel IH]; intros k n acc Hk Hn; [simpl; lia|]. rewrite digits_S.
  destruct (Z.eqb_spec (n / 10) 0) as [E|E]; [simpl; lia|]. destruct k as [|[|k]]; [lia| |].
  - change (10 ^ Z.of_nat 1) with 10 in Hn. exfalso. dlia.
  - etransitivity; [apply (IH (S k))|simpl; lia]; [lia|].
    rewrite (Nat2Z.inj_succ (S k)), Z.pow_succ_r in Hn by lia. dlia.
Qed.

(** A number of 64 bits can be read back. *)
Lemma decimal_parse (n : Z) : 0 <= n < 2 ^ 64 -> parse (decimal n) = n.
Proof. intros Hn. unfold parse, decimal. rewrite digits_value; [done|]. change (10 ^ Z.of_nat 20) with (10 ^ 20). lia. Qed.

Definition shown (v : Z) : Prop := 0 <= v < 2 ^ 31.

Lemma line_length (name : string) (v : Z) : shown v -> (length (line name v) <= length (str name) + 13)%nat.
Proof.
  intros Hv. unfold shown in Hv. unfold line, padded. rewrite u64_small by lia.
  assert (length (decimal v) <= 10)%nat by (apply (digits_length 10 20 v []); [lia|]; change (10 ^ Z.of_nat 10) with (10 ^ 10); lia).
  rewrite !length_app, length_replicate. simpl. lia.
Qed.

(** Every counter is in the text. *)
Lemma lines_length (cs : list (counter * string)) (dev_id : Z) (p : tlkm_perfc) :
  (forall c, exists v, tlkm_perfc_get c dev_id p = Some v /\ shown v) ->
  exists text, lines cs dev_id p = Some text /\
    (length text <= sum_list (map (fun x => length (str (snd x)) + 13) cs) + 18)%nat.
Proof.
  intros Hp. induction cs as [|[c name] cs (text & E & Hl)]; simpl; [eexists; split; [done|]; simpl; lia|].
  destruct (Hp c) as (v & -> & Hv). simpl. rewrite E. simpl. eexists. split; [done|].
  rewrite length_app. pose proof (line_length name v Hv). lia.
Qed.

(** What the file of a device shows.  While no counter is negative, the text of all of
    them fits the buffer: reading it from the start gives all lines and a zero byte, and
    the next read gives the end of the file.  A number can be read back from its digits. *)
Theorem perfc_file_shows_counters (p : tlkm_perfc) (dev_id : Z) :
  (forall c, exists v, tlkm_perfc_get c dev_id p = Some v /\ shown v) ->
  exists text, lines TLKM_PERFC_COUNTERS dev_id p = Some text /\
    let n := Z.of_nat (length text) + 1 in
    tlkm_perfc_miscdev_read dev_id 0 0 p = Some (n, n, text ++ [0]) /\
    tlkm_perfc_miscdev_read dev_id n 0 p = Some (0, n, []) /\
    forall c v, tlkm_perfc_get c dev_id p = Some v -> parse (decimal (u64 v)) = v.
Proof.
  intros Hp. destruct (lines_length TLKM_PERFC_COUNTERS dev_id p Hp) as (text & E & Hl).
  exists text. split; [done|]. intros n. unfold tlkm_perfc_miscdev_read. rewrite E. simpl.
  assert (length text <= 767)%nat as Hfit by (etransitivity; [exact Hl|]; vm_compute; lia).
  assert (snprintf TLKM_PERFC_MISCDEV_BUFSZ text = text) as -> by (by apply take_ge).
  rewrite !Z.gtb_ltb. split; [|split].
  - rewrite (proj2 (Z.ltb_lt _ _)) by lia. cbn [Z.ltb Z.compare]. f_equal. f_equal; [f_equal; unfold n; lia|].
    apply take_ge. rewrite length_app. simpl. lia.
  - by rewrite (proj2 (Z.ltb_ge _ _)) by (unfold n; lia).
  - intros c v Hv. destruct (Hp c) as (v' & Hv' & Hs). rewrite Hv in Hv'. injection Hv' as <-. unfold shown in Hs.
    rewrite u64_small by lia. apply decimal_parse. lia.
Qed.

(** A device whose counters are all zero: the read ignores the size of the caller's
    buffer and returns 608 bytes. *)
Example fresh_counters :
  match tlkm_perfc_miscdev_read 0 0 0 (fun _ => replicate 10 0) with
  | Some (ret, _, bytes) => (ret, take 23 bytes)
  | None => (0, [])
  end = (608, str "signals_read:" ++ [9] ++ padded 0 ++ [10]).
Proof. vm_compute. reflexivity. Qed.

(** A read that was cut short is continued from the start of the text, not from the
    offset. *)
Example second_read_restarts :
  match tlkm_perfc_miscdev_read 0 10 0 (fun _ => replicate 10 0) with
  | Some (_, _, bytes) => take 12 bytes
  | None => []
  end = str "signals_read".
Proof. vm_compute. reflexivity. Qed.

End Perfc.
