(* ===== verification/Commands.v ===== *)
(** * The commands that only report, and the dispatcher of the main file
      (tlkm/tlkm_ioctl.c: tlkm_ioctl_version, tlkm_ioctl_ioctl; device/tlkm_device_ioctl.c:
       tlkm_device_ioctl_info, tlkm_device_ioctl_size)

    The commands of the main file that change something are in Access.v, those of the
    control file in Registers.v and Irq.v. *)
From stdpp Require Import strings.
From S2P Require Import Prelude StatusCore Status Access.

Module Commands.
Import Access Status(str) StatusCore(tlkm_status, arch_size, platform_size).

(** ** The main file *)

Definition TLKM_VERSION : list Z := str "3.0".

(** tlkm_ioctl_version: [user] are the bytes of the argument in user space; the text is
    copied without its final zero. *)
Definition tlkm_ioctl_version (user : list Z) (copy_ok : bool) : Z * list Z :=
  if copy_ok then (0, TLKM_VERSION ++ drop (length TLKM_VERSION) user) else (- EACCES, user).

(** TLKM_IOCTL_CMDS *)
Inductive command := VERSION | ENUM_DEVICES | CREATE_DEVICE | DESTROY_DEVICE.

Definition cmd_id (c : command) : Z :=
  match c with VERSION => 1 | ENUM_DEVICES => 2 | CREATE_DEVICE => 3 | DESTROY_DEVICE => 4 end.
Definition cmd_size (c : command) : Z :=
  match c with VERSION => 30 | ENUM_DEVICES => 8 + 10 * 44 | CREATE_DEVICE | DESTROY_DEVICE => 8 end.

(** _IOWR('t', id, dt) *)
Definition ioctl_number (c : command) : Z :=
  Z.lor (Z.lor (Z.lor (Z.shiftl 3 30) (Z.shiftl (cmd_size c) 16)) (Z.shiftl 116 8)) (cmd_id c).

(** What a command leaves at the address user space gave. *)
Inductive answer :=
| untouched
| version (bytes : list Z)
| devices_found (num_devs : Z) (devs : list device_info).

(** tlkm_ioctl_ioctl; [copy_ok] and [kmalloc_ok] as in Access.v, [user] and [kc] the
    argument. *)
Definition tlkm_ioctl_ioctl (s : tlkm) (fp ioctl : Z) (copy_ok kmalloc_ok : bool) (user : list Z) (kc : device_cmd)
    : option (Z * answer * tlkm) :=
  if ioctl =? ioctl_number VERSION then
    let '(ret, bytes) := tlkm_ioctl_version user copy_ok in Some (ret, version bytes, s)
  else if ioctl =? ioctl_number ENUM_DEVICES then
    '(ret, (n, devs)) ← tlkm_ioctl_enum_devices s copy_ok;
    Some (ret, if ret =? 0 then devices_found n devs else untouched, s)
  else if ioctl =? ioctl_number CREATE_DEVICE then
    '(ret, s') ← tlkm_ioctl_create_device s fp copy_ok kmalloc_ok kc; Some (ret, untouched, s')
  else if ioctl =? ioctl_number DESTROY_DEVICE then
    '(ret, s') ← tlkm_ioctl_destroy_device s fp copy_ok kc; Some (ret, untouched, s')
  else Some (- EIO, untouched, s).

(** ** The control file of a device *)

(** The class of the device at an address, and what its status core says. *)
Section Control.
Variable cls_name : Z -> list Z.
Variable status_of : Z -> tlkm_status.

(** tlkm_device_ioctl_info; [id] is the dev_id of the control structure.  None: the
    pointer is not a device. *)
Definition tlkm_device_ioctl_info (s : tlkm) (id : Z) (copy_ok : bool) : option (Z * option device_info) :=
  let kdev := tlkm_bus_get_device s id in
  if kdev =? NULL then Some (- EFAULT, None) else
  d ← devices s !! kdev;
  if copy_ok then Some (0, Some (mk_info id (vendor_id d) (product_id d) (strncpy TLKM_DEVNAME_SZ (cls_name kdev))))
  else Some (- EAGAIN, None).

(** struct tlkm_size_cmd *)
Record size_cmd := mk_size { sz_status : Z; sz_arch : Z; sz_platform : Z }.

Definition tlkm_device_ioctl_size (s : tlkm) (id : Z) (copy_ok : bool) : option (Z * option size_cmd) :=
  let kdev := tlkm_bus_get_device s id in
  if kdev =? NULL then Some (- EFAULT, None) else
  _ ← devices s !! kdev;
  if copy_ok then Some (0, Some (mk_size 8192 (arch_size (status_of kdev)) (platform_size (status_of kdev))))
  else Some (- EAGAIN, None).
End Control.

(** ** Theorems *)

(** Every command of the main file reaches its function, and any other number is refused
    and changes nothing; the version and the list of devices change nothing either. *)
Theorem main_dispatch (s : tlkm) (fp ioctl : Z) (copy_ok kmalloc_ok : bool) (user : list Z) (kc : device_cmd) :
  tlkm_ioctl_ioctl s fp ioctl copy_ok kmalloc_ok user kc =
    match list_find (fun c => ioctl = ioctl_number c) [VERSION; ENUM_DEVICES; CREATE_DEVICE; DESTROY_DEVICE] with
    | Some (_, VERSION) =>
        Some (if copy_ok then (0, version (TLKM_VERSION ++ drop 3 user), s) else (- EACCES, version user, s))
    | Some (_, ENUM_DEVICES) =>
        '(ret, (n, devs)) ← tlkm_ioctl_enum_devices s copy_ok;
        Some (ret, if ret =? 0 then devices_found n devs else untouched, s)
    | Some (_, CREATE_DEVICE) =>
        '(ret, s') ← tlkm_ioctl_create_device s fp copy_ok kmalloc_ok kc; Some (ret, untouched, s')
    | Some (_, DESTROY_DEVICE) =>
        '(ret, s') ← tlkm_ioctl_destroy_device s fp copy_ok kc; Some (ret, untouched, s')
    | None => Some (- EIO, untouched, s)
    end.
Proof.
  unfold tlkm_ioctl_ioctl. simpl.
  repeat match goal with
  | |- context [?a =? ?b] => destruct (Z.eqb_spec a b); [rewrite decide_True by done|rewrite decide_False by done; simpl]
  end; try done. unfold tlkm_ioctl_version. simpl. by destruct copy_ok.
Qed.

(** On a bus that is in order, the control file of the device at position [id] reports its
    ids, the name of its class as a terminated string of 30 bytes, and the sizes of its
    register windows. *)
Theorem control_reports (cls_name : Z -> list Z) (status_of : Z -> tlkm_status) (s : tlkm) (id : Z) (copy_ok : bool) :
  bus_ok s -> 0 <= id < num_devs s ->
  exists p d, tlkm_bus_get_device s id = p /\ p ∈ bus s /\ devices s !! p = Some d /\
    tlkm_device_ioctl_info cls_name s id copy_ok
    = Some (if copy_ok then (0, Some (mk_info id (vendor_id d) (product_id d) (strncpy TLKM_DEVNAME_SZ (cls_name p))))
            else (- EAGAIN, None)) /\
    length (strncpy TLKM_DEVNAME_SZ (cls_name p)) = TLKM_DEVNAME_SZ /\
    last (strncpy TLKM_DEVNAME_SZ (cls_name p)) = Some 0 /\
    tlkm_device_ioctl_size status_of s id copy_ok
    = Some (if copy_ok then (0, Some (mk_size 8192 (arch_size (status_of p)) (platform_size (status_of p))))
            else (- EAGAIN, None)).
Proof.
  intros Hb Hid. pose proof (get_device_bus s id Hb Hid) as Hin.
  destruct (bus_devices _ Hb _ Hin) as (Hnull & _ & d & Hd). exists (tlkm_bus_get_device s id), d.
  unfold tlkm_device_ioctl_info, tlkm_device_ioctl_size. rewrite (proj2 (Z.eqb_neq _ _) Hnull), Hd. simpl.
  split; [done|]. split; [done|]. split; [done|]. split; [by destruct copy_ok|].
  split; [|split; [|by destruct copy_ok]].
  - unfold strncpy. rewrite length_app, length_take, length_app, repeat_length. unfold TLKM_DEVNAME_SZ. cbn [length]. lia.
  - unfold strncpy. apply last_snoc.
Qed.

End Commands.
