(* ===== verification/PcieTune.v ===== *)
(** * Tuning the link of a PCIe card (pcie/pcie_device.c: tune_pcie_parameters)

    The maximum payload size (MPS) of the card and of the bridges between it and the
    root is raised to the largest size that all of them support, read requests of 4096
    bytes are allowed and extended tags are enabled.  Whatever register cannot be
    written, no port is asked for a size it does not support. *)
From S2P Require Import Prelude Kernel.

Module PcieTune.
Import Kernel.
#[local] Open Scope prog_scope.

(** struct pci_dev: pcie_mpss and, for a bridge, whether pci_is_root_bus of its bus. *)
Record port := mk_port { pcie_mpss : Z; on_root_bus : bool }.

(** The registers: the MPS of the card (position 0) and of the bridges above it, and of
    the card the maximum read request size and the device control word. *)
Record link := mk_link { mps : list Z; readrq : Z; devctl : Z }.

Definition set_mps (i : nat) (v : Z) (l : link) : link := mk_link (<[i := v]> (mps l)) (readrq l) (devctl l).
Definition set_readrq (v : Z) (l : link) : link := mk_link (mps l) v (devctl l).
Definition set_devctl (v : Z) (l : link) : link := mk_link (mps l) (readrq l) v.

(** The services of the PCI subsystem; a result is zero or a negative error code. *)
Inductive pciE : Type -> Type :=
| pcie_get_mps (i : nat) : pciE Z
| pcie_set_mps (i : nat) (v : Z) : pciE Z
| pcie_get_readrq : pciE Z
| pcie_set_readrq (v : Z) : pciE Z
| capability_read_devctl : pciE (Z * Z)
| capability_write_devctl (v : Z) : pciE Z.

(** ** The code *)

Definition max_mps (p : port) : Z := Z.shiftl 128 (pcie_mpss p).

(** while (parent): the smallest size up to the root *)
Fixpoint common_mps (bridges : list port) (mps_m : Z) : Z :=
  match bridges with
  | [] => mps_m
  | parent :: up =>
      let mps_m := Z.min mps_m (max_mps parent) in
      if on_root_bus parent then mps_m else common_mps up mps_m
  end.

Fixpoint raise_mps (bridges : list port) (i : nat) (mps_m : Z) : prog pciE unit :=
  match bridges with
  | [] => Ret tt
  | parent :: up =>
      let! mps_p := call (pcie_get_mps i) in
      (if mps_p <? mps_m then call (pcie_set_mps i mps_m);;; Ret tt else Ret tt);;;
      if on_root_bus parent then Ret tt else raise_mps up (S i) mps_m
  end.

Definition PCI_EXP_DEVCTL_EXT_TAG : Z := 0x0100.

Definition enable_ext_tags : prog pciE unit :=
  let! r := call capability_read_devctl in
  if (fst r =? 0) && negb (nonzero (Z.land (snd r) PCI_EXP_DEVCTL_EXT_TAG)) then
    call (capability_write_devctl (Z.lor (snd r) PCI_EXP_DEVCTL_EXT_TAG));;; Ret tt
  else Ret tt.

Definition tune_pcie_parameters (pdev : port) (bridges : list port) : prog pciE unit :=
  call pcie_get_readrq;;;
  let mps_m := common_mps bridges (max_mps pdev) in
  raise_mps bridges 1 mps_m;;;
  call (pcie_set_mps 0 mps_m);;;
  call (pcie_set_readrq 4096);;;
  enable_ext_tags.

(** ** The model *)
Section Model.
Variable ports : list port.
(** Whether writes may fail. *)
Variable may_fail : bool.

(** A size is 128 bytes times a power of two, at most what the port supports. *)
Definition supports (p : port) (v : Z) : Prop := exists k, 0 <= k <= pcie_mpss p /\ v = Z.shiftl 128 k.

Definition written (ret : Z) (l l' old : link) : Prop :=
  (ret = 0 /\ l' = l) \/ (ret < 0 /\ may_fail = true /\ l' = old).

Definition pci_pre (X : Type) (e : pciE X) (l : link) : Prop :=
  match e with
  | pcie_get_mps i => is_Some (mps l !! i)
  | pcie_set_mps i v => exists p, ports !! i = Some p /\ supports p v
  | _ => True
  end.

Definition pci_post (X : Type) (e : pciE X) (l : link) : X -> link -> Prop :=
  match e in pciE X return X -> link -> Prop with
  | pcie_get_mps i => fun v l' => mps l !! i = Some v /\ l' = l
  | pcie_set_mps i v => fun ret l' => written ret (set_mps i v l) l' l
  | pcie_get_readrq => fun v l' => v = readrq l /\ l' = l
  | pcie_set_readrq v => fun ret l' => written ret (set_readrq v l) l' l
  | capability_read_devctl => fun r l' => l' = l /\ ((fst r = 0 /\ snd r = devctl l) \/ (fst r < 0 /\ may_fail = true))
  | capability_write_devctl v => fun ret l' => written ret (set_devctl v l) l' l
  end.

Definition pci_model : @model pciE link := {| pre := pci_pre; post := pci_post |}.

(** ** The common size *)

(** The bridges up to the root *)
Fixpoint path (bridges : list port) : list port :=
  match bridges with
  | [] => []
  | parent :: up => if on_root_bus parent then [parent] else parent :: path up
  end.

Lemma shiftl_min (a b : Z) : 0 <= a -> 0 <= b -> Z.min (Z.shiftl 128 a) (Z.shiftl 128 b) = Z.shiftl 128 (Z.min a b).
Proof.
  intros Ha Hb. rewrite !Z.shiftl_mul_pow2 by lia. destruct (Z.le_ge_cases a b) as [H|H].
  - assert (2 ^ a <= 2 ^ b) by (apply Z.pow_le_mono_r; lia). rewrite !Z.min_l by lia. done.
  - assert (2 ^ b <= 2 ^ a) by (apply Z.pow_le_mono_r; lia). rewrite !Z.min_r by lia. done.
Qed.

(** It is the size of the weakest port of the path. *)
Lemma common_mps_spec (bridges : list port) (k0 : Z) :
  0 <= k0 -> Forall (fun p => 0 <= pcie_mpss p) bridges ->
  exists k, common_mps bridges (Z.shiftl 128 k0) = Z.shiftl 128 k /\ 0 <= k <= k0 /\
    Forall (fun p => k <= pcie_mpss p) (path bridges) /\
    (k = k0 \/ exists p, p ∈ path bridges /\ k = pcie_mpss p).
Proof.
  revert k0. induction bridges as [|p up IH]; intros k0 Hk Hb; simpl;
    [exists k0; split_and!; auto; lia|].
  apply Forall_cons in Hb as [Hp Hup]. unfold max_mps. rewrite shiftl_min by done.
  assert (Z.min k0 (pcie_mpss p) = k0 \/ Z.min k0 (pcie_mpss p) = pcie_mpss p) as Hm by lia.
  destruct (on_root_bus p).
  - exists (Z.min k0 (pcie_mpss p)). split; [done|]. split; [lia|]. split; [apply Forall_singleton; lia|].
    destruct Hm as [->| ->]; [by left|right; exists p; split; [by apply list_elem_of_singleton|done]].
  - destruct (IH (Z.min k0 (pcie_mpss p)) ltac:(lia) Hup) as (k & -> & Hk' & Hall & Hwho).
    exists k. split; [done|]. split; [lia|]. split; [apply Forall_cons; split; [lia|done]|].
    destruct Hwho as [->|(q & Hq & ->)]; [|right; exists q; split; [by right|done]].
    destruct Hm as [->| ->]; [by left|right; exists p; split; [by left|done]].
Qed.

Lemma path_lookup (bridges : list port) (i : nat) (p : port) :
  (i < length (path bridges))%nat -> bridges !! i = Some p -> path bridges !! i = Some p.
Proof.
  revert i. induction bridges as [|q up IH]; intros i Hi Hp; simpl in *; [done|].
  destruct (on_root_bus q); destruct i as [|i]; simpl in *; try done; try lia. apply IH; [lia|done].
Qed.

(** ** Raising the bridges *)

(** The sizes from position [i] on, [n] of them, are raised to [v]. *)
Definition raised (v : Z) (i n : nat) (l l' : link) : Prop :=
  length (mps l') = length (mps l) /\ readrq l' = readrq l /\ devctl l' = devctl l /\
  forall x o, mps l !! x = Some o -> exists o', mps l' !! x = Some o' /\
    (o' = o \/ o' = v) /\ ((x < i \/ i + n <= x)%nat -> o' = o) /\
    (may_fail = false -> (i <= x < i + n)%nat -> o' = Z.max o v).

Lemma raised_none (v : Z) (i : nat) (l : link) : raised v i 0 l l.
Proof. split; [done|]. split; [done|]. split; [done|]. intros x o Hx. exists o. split_and!; auto; lia. Qed.

Lemma raised_step (v : Z) (i n : nat) (l l1 l2 : link) :
  raised v i 1 l l1 -> raised v (S i) n l1 l2 -> raised v i (S n) l l2.
Proof.
  intros (L1 & R1 & D1 & H1) (L2 & R2 & D2 & H2).
  split; [congruence|]. split; [congruence|]. split; [congruence|]. intros x o Hx.
  destruct (H1 x o Hx) as (o1 & Hx1 & Ha1 & Hb1 & Hc1). destruct (H2 x o1 Hx1) as (o2 & Hx2 & Ha2 & Hb2 & Hc2).
  exists o2. split; [done|]. split; [destruct Ha2 as [->| ->]; auto|]. split.
  - intros Hout. rewrite Hb2, Hb1 by lia. done.
  - intros Hf Hin. destruct (decide (x = i)) as [->|Hne].
    + rewrite Hb2, Hc1 by (done || lia). done.
    + rewrite (Hc2 Hf) by lia. by rewrite Hb1 by lia.
Qed.

Lemma raised_write (v o : Z) (i : nat) (l : link) (ret : Z) (l' : link) :
  mps l !! i = Some o -> o < v -> written ret (set_mps i v l) l' l -> raised v i 1 l l'.
Proof.
  intros Hi Hlt [[_ ->]|(_ & Hf & ->)].
  - split; [apply length_insert|]. split; [done|]. split; [done|]. intros x o' Hx. simpl.
    destruct (decide (x = i)) as [->|Hne].
    + rewrite list_lookup_insert_eq by (by eapply lookup_lt_Some). exists v. rewrite Hi in Hx. injection Hx as <-.
      split_and!; auto; lia.
    + rewrite list_lookup_insert_ne by done. exists o'. split_and!; auto; lia.
  - split; [done|]. split; [done|]. split; [done|]. intros x o' Hx. exists o'. split_and!; auto. by rewrite Hf.
Qed.

Lemma raise_mps_spec (bridges : list port) (i : nat) (v : Z) (l : link) :
  (forall j p, bridges !! j = Some p -> ports !! (i + j)%nat = Some p) ->
  Forall (fun p => supports p v) (path bridges) -> length (mps l) = length ports ->
  wp pci_model (raise_mps bridges i v) l (fun _ l' => raised v i (length (path bridges)) l l').
Proof.
  revert i l. induction bridges as [|p up IH]; intros i l Hp Hs Hl; [exact (raised_none v i l)|]. cbn [raise_mps path].
  pose proof (Hp 0%nat p eq_refl) as Hi. rewrite Nat.add_0_r in Hi.
  assert (is_Some (mps l !! i)) as [o Ho] by (apply lookup_lt_is_Some; rewrite Hl; by eapply lookup_lt_Some).
  assert (supports p v) as Hv by (cbn [path] in Hs; destruct (on_root_bus p); by apply Forall_cons in Hs as [? _]).
  wp_do; [by exists o|]. intros mps_p l1 [E ->]. rewrite Ho in E. injection E as <-.
  assert (wp pci_model (if o <? v then call (pcie_set_mps i v);;; Ret tt else Ret tt) l (fun _ l' => raised v i 1 l l')) as H1.
  { destruct (Z.ltb_spec o v) as [Hlt|Hge].
    - wp_do; [by exists p|]. intros ret l' Hw. apply wp_ret. by apply (raised_write v o i l ret l').
    - apply wp_ret. split; [done|]. split; [done|]. split; [done|]. intros x o' Hx. exists o'.
      split_and!; auto. intros _ Hx'. assert (x = i) as -> by lia. rewrite Ho in Hx. injection Hx as <-. lia. }
  wp_seq H1. intros [] l1 Hr. destruct (on_root_bus p) eqn:Eroot; [done|].
  eapply wp_mono; [apply (IH (S i) l1)|].
  - intros j q Hj. rewrite <- (Hp (S j) q Hj). f_equal. lia.
  - cbn [path] in Hs. rewrite Eroot in Hs. by apply Forall_cons in Hs as [_ ?].
  - by destruct Hr as [-> _].
  - intros [] l2 Hr2. by eapply raised_step.
Qed.

Lemma written_devctl (l : link) :
  wp pci_model enable_ext_tags l (fun _ l' => mps l' = mps l /\ readrq l' = readrq l /\
    (may_fail = false -> Z.testbit (devctl l') 8 = true)).
Proof.
  wp_do; [done|]. intros [ret ectl] l0 [-> Hr]. cbn [fst snd] in *.
  assert (nonzero (Z.land ectl PCI_EXP_DEVCTL_EXT_TAG) = Z.testbit ectl 8) as ->.
  { unfold PCI_EXP_DEVCTL_EXT_TAG. change 256 with (2 ^ 8). unfold nonzero.
    destruct (Z.testbit ectl 8) eqn:E.
    - apply negb_true_iff, Z.eqb_neq. intros H. apply (f_equal (fun x => Z.testbit x 8)) in H.
      by rewrite Z.land_spec, E in H.
    - apply negb_false_iff, Z.eqb_eq. apply Z.bits_inj'. intros n Hn. rewrite Z.land_spec, Z.bits_0.
      destruct (decide (n = 8)) as [->|]; [by rewrite E|]. by rewrite Z.pow2_bits_false, andb_false_r by lia. }
  destruct Hr as [[-> ->]|[Hr Hf]]; [|rewrite (proj2 (Z.eqb_neq _ _)) by lia; apply wp_ret; by rewrite Hf].
  destruct (Z.testbit (devctl l) 8) eqn:E; [by apply wp_ret|]. cbn [Z.eqb negb andb].
  wp_do; [done|]. intros ret l' [[_ ->]|(_ & Hf & ->)]; apply wp_ret; [|by rewrite Hf].
  split; [done|]. split; [done|]. intros _. cbn [devctl set_devctl]. by rewrite Z.lor_spec, orb_true_r.
Qed.
End Model.

(** ** Theorem *)

(** Tuning the link.  Whatever writes fail, no port is asked for a payload size that it
    does not support, so sizes that were supported before are supported after, and ports
    above the root keep theirs.  When the writes succeed, the card has the largest size
    that every port between it and the root supports, every bridge on the way has at
    least this size, read requests of 4096 bytes are allowed and extended tags are on. *)
Theorem tune_pcie_correct (pdev : port) (bridges : list port) (may_fail : bool) (l : link) :
  Forall (fun p => 0 <= pcie_mpss p) (pdev :: bridges) -> length (mps l) = length (pdev :: bridges) ->
  let v := common_mps bridges (max_mps pdev) in
  wp (pci_model (pdev :: bridges) may_fail) (tune_pcie_parameters pdev bridges) l (fun _ l' =>
    (forall i p o, (pdev :: bridges) !! i = Some p -> mps l !! i = Some o -> exists o',
       mps l' !! i = Some o' /\ (o <= max_mps p -> o' <= max_mps p) /\
       ((length (path bridges) < i)%nat -> o' = o) /\
       (may_fail = false -> (1 <= i <= length (path bridges))%nat -> o' = Z.max o v)) /\
    (may_fail = false -> mps l' !! 0%nat = Some v /\ readrq l' = 4096 /\ Z.testbit (devctl l') 8 = true)).
Proof.
  intros Hall Hl v. apply Forall_cons in Hall as [Hp Hb].
  destruct (common_mps_spec bridges (pcie_mpss pdev) Hp Hb) as (k & Ek & Hk & Hmin & _).
  assert (v = Z.shiftl 128 k) as Ev by exact Ek. clear Ek.
  assert (forall p, k <= pcie_mpss p -> supports p v) as Hsup by (intros p Hkp; exists k; by split; [lia|]).
  assert (forall p, k <= pcie_mpss p -> v <= max_mps p) as Hle.
  { intros p Hkp. rewrite Ev. unfold max_mps. rewrite !Z.shiftl_mul_pow2 by lia.
    assert (2 ^ k <= 2 ^ pcie_mpss p) by (apply Z.pow_le_mono_r; lia). lia. }
  wp_do; [done|]. intros r0 l0 [_ ->].
  wp_seq (raise_mps_spec (pdev :: bridges) may_fail bridges 1 v l); [by intros j p Hj| |done|].
  { eapply Forall_impl; [exact Hmin|]. intros p. apply Hsup. }
  intros [] l1 (L1 & R1 & D1 & H1).
  wp_do; [exists pdev; split; [done|]; apply Hsup; lia|]. intros ret l2 Hw2.
  wp_do; [done|]. intros ret' l3 Hw3.
  eapply wp_mono; [apply written_devctl|]. intros [] l4 (M4 & R4 & T4).
  assert (mps l4 = mps l1 \/ mps l4 = <[0%nat := v]> (mps l1)) as Hm.
  { rewrite M4. destruct Hw3 as [[_ ->]|(_ & _ & ->)]; simpl; destruct Hw2 as [[_ ->]|(_ & _ & ->)]; auto. }
  split.
  - intros i p o Hi Ho. destruct (H1 i o Ho) as (o1 & Ho1 & Hv1 & Hout & Hin).
    destruct i as [|i].
    + injection Hi as <-. rewrite (Hout ltac:(lia)) in Ho1.
      destruct Hm as [->| ->]; [exists o|exists v; rewrite list_lookup_insert_eq by (by eapply lookup_lt_Some)].
      * split; [done|]. split; [done|]. split; [done|lia].
      * split; [done|]. split; [intros _; apply Hle; lia|]. split; lia.
    + exists o1. split; [destruct Hm as [->| ->]; [done|by rewrite list_lookup_insert_ne]|].
      split; [|split; [intros Hx; apply Hout; lia|intros Hf Hx; apply Hin; [done|lia]]].
      intros Hcap. destruct (decide (S i < 1 + length (path bridges))%nat) as [Hin'|Hout']; [|rewrite Hout by lia; done].
      destruct Hv1 as [->| ->]; [done|]. apply Hle. rewrite Forall_forall in Hmin. apply Hmin.
      eapply list_elem_of_lookup_2. apply (path_lookup bridges i p); [lia|done].
  - intros Hf. assert (may_fail = true -> False) as Hno by (by rewrite Hf).
    destruct Hw3 as [[_ ->]|(_ & ? & _)]; [|exfalso; auto]. destruct Hw2 as [[_ ->]|(_ & ? & _)]; [|exfalso; auto].
    rewrite M4, R4. split; [|split; [done|by apply T4]]. simpl.
    apply list_lookup_insert_eq. rewrite L1, Hl. simpl. lia.
Qed.

(** A bridge with a larger size than the card supports keeps it. *)
Example larger_bridge_kept :
  wp (pci_model [mk_port 0 false; mk_port 2 true] false)
    (tune_pcie_parameters (mk_port 0 false) [mk_port 2 true]) (mk_link [128; 512] 512 0)
    (fun _ l' => mps l' !! 0%nat = Some 128 /\ mps l' !! 1%nat = Some 512).
Proof.
  eapply wp_mono.
  - apply (tune_pcie_correct (mk_port 0 false) [mk_port 2 true] false (mk_link [128; 512] 512 0));
      [by repeat constructor|done].
  - intros [] l' [H1 H2]. destruct (H2 eq_refl) as (H0 & _).
    destruct (H1 1%nat (mk_port 2 true) 512 eq_refl eq_refl) as (o & Ho & _ & _ & Hmax).
    rewrite Hmax in Ho by (simpl; lia). by split.
Qed.

End PcieTune.
