(* ===== verification/UserAlloc.v ===== *)
(** * The allocator of card memory in user space (libtapasco: src/allocator.rs)

    Without shared virtual memory the runtime library manages the memory of a card, and
    the local memories of its processing elements, itself: GenericAllocator keeps the free
    segments, sorted by address, and the used ones.  [AllocatorLaws] is what the library
    relies on for any of its allocators (trait Allocator); GenericAllocator satisfies it.

    Integers are u64.  Additions wrap around as in a release build, subtractions and the
    sums of stored segments cannot. *)
From S2P Require Import Prelude.

(** Result<A, E> *)
Inductive result (E A : Type) := Ok (a : A) | Err (e : E).
Arguments Ok {E A} a.
Arguments Err {E A} e.

Module UserAlloc.

Inductive Error :=
| OutOfMemory (size : Z)
| FixedNotAvailable (size offset : Z)
| InvalidSize (size : Z)
| InvalidAlignment (alignment : Z)
| UnknownMemory (ptr : Z).

(** struct MemoryFree *)
Record segment := mk_seg { base : Z; size : Z }.

#[export] Instance segment_eq_dec : EqDecision segment.
Proof. solve_decision. Defined.

Record GenericAllocator := mk_alloc {
  memory_free : list segment;
  memory_used : list segment;
  alignment : Z
}.

(** ** The code *)

Definition new (address size alignment : Z) : result Error GenericAllocator :=
  if size =? 0 then Err (InvalidSize size)
  else if alignment =? 0 then Err (InvalidAlignment alignment)
  else Ok (mk_alloc [mk_seg address size] [] alignment).

Definition fix_alignment (al size : Z) : Z :=
  Z.land (u64 (size + (al - 1))) (u64 (Z.lnot (al - 1))).

(** merge_memory: an iteration shortens the list or goes on to the next position. *)
Fixpoint merge_loop (fuel i : nat) (l : list segment) : list segment :=
  match fuel with
  | O => l
  | S fuel =>
      match l !! i with
      | None => l
      | Some s =>
          match l !! S i with
          | Some t =>
              if base s + size s =? base t
              then merge_loop fuel i (delete (S i) (<[i := mk_seg (base s) (size s + size t)]> l))
              else merge_loop fuel (S i) l
          | None => merge_loop fuel (S i) l
          end
      end
  end.

Definition merge_memory (l : list segment) : list segment := merge_loop (length l) 0 l.

Definition allocate (a : GenericAllocator) (sz : Z) : result Error Z * GenericAllocator :=
  if sz =? 0 then (Err (InvalidSize sz), a) else
  let size_aligned := fix_alignment (alignment a) sz in
  match list_find (fun s => size_aligned <= size s) (memory_free a) with
  | Some (i, s) =>
      let addr := base s in
      let s' := mk_seg (u64 (base s + size_aligned)) (size s - size_aligned) in
      (Ok addr,
       mk_alloc (if size s' =? 0 then delete i (memory_free a) else <[i := s']> (memory_free a))
                (memory_used a ++ [mk_seg addr size_aligned]) (alignment a))
  | None => (Err (OutOfMemory size_aligned), a)
  end.

Definition allocate_fixed (a : GenericAllocator) (sz offset : Z) : result Error Z * GenericAllocator :=
  if sz =? 0 then (Err (InvalidSize sz), a) else
  let size_aligned := fix_alignment (alignment a) sz in
  match list_find (fun s => base s <= offset /\ offset <= base s + size s /\ size_aligned <= base s + size s - offset)
                  (memory_free a) with
  | Some (x, s) =>
      let used := memory_used a ++ [mk_seg offset size_aligned] in
      let '(s', free') :=
        if base s =? offset then
          let s' := mk_seg (u64 (base s + size_aligned)) (size s - size_aligned) in (s', <[x := s']> (memory_free a))
        else
          let left_size := offset - base s in
          let split_segment := mk_seg (u64 (offset + size_aligned)) (size s - (left_size + size_aligned)) in
          let s' := mk_seg (base s) left_size in
          (s', <[x := s']> (if 0 <? size split_segment
                            then take (S x) (memory_free a) ++ [split_segment] ++ drop (S x) (memory_free a)
                            else memory_free a)) in
      (Ok offset, mk_alloc (if size s' =? 0 then delete x free' else free') used (alignment a))
  | None => (Err (FixedNotAvailable size_aligned offset), a)
  end.

(** A segment is put before the first one with a larger address. *)
Definition insert_free (fr : list segment) (m : segment) : list segment :=
  match fr with
  | [] => [m]
  | _ :: _ => match list_find (fun s => base m < base s) fr with
              | Some (x, _) => take x fr ++ [m] ++ drop x fr
              | None => fr ++ [m]
              end
  end.

Definition free (a : GenericAllocator) (ptr : Z) : result Error unit * GenericAllocator :=
  match list_find (fun s => base s = ptr) (memory_used a) with
  | Some (x, m) =>
      (Ok tt, mk_alloc (merge_memory (insert_free (memory_free a) m)) (delete x (memory_used a)) (alignment a))
  | None => (Err (UnknownMemory ptr), a)
  end.

Example split_and_join :
  match new 0 1024 64 with
  | Ok a =>
      let '(r1, a1) := allocate_fixed a 128 128 in
      let '(r2, a2) := allocate a1 256 in
      let '(r3, a3) := allocate a2 1024 in
      let '(r4, a4) := free a3 128 in
      let '(r5, a5) := free a4 256 in
      (r1, r2, r3, r4, r5, a5) = (Ok 128, Ok 256, Err (OutOfMemory 1024), Ok tt, Ok tt, a)
  | Err _ => False
  end.
Proof. reflexivity. Qed.

(** ** Segments *)

Definition in_seg (x : Z) (s : segment) : Prop := base s <= x < base s + size s.
Definition in_segs (x : Z) (l : list segment) : Prop := exists s, s ∈ l /\ in_seg x s.
(** [s] is followed by [t], with memory between them, or right after it. *)
Definition gap (s t : segment) : Prop := base s + size s < base t.
Definition before (s t : segment) : Prop := base s + size s <= base t.
Definition apart (s t : segment) : Prop := before s t \/ before t s.
Definition pos (s : segment) : Prop := 0 < size s.
Definition within (s t : segment) : Prop := base t <= base s /\ base s + size s <= base t + size t.

Lemma in_segs_nil (x : Z) : ~ in_segs x [].
Proof. by intros (s & Hs%elem_of_nil & _). Qed.
Lemma in_segs_cons (x : Z) (s : segment) (l : list segment) : in_segs x (s :: l) <-> in_seg x s \/ in_segs x l.
Proof. unfold in_segs. set_solver. Qed.
Lemma in_segs_app (x : Z) (l1 l2 : list segment) : in_segs x (l1 ++ l2) <-> in_segs x l1 \/ in_segs x l2.
Proof. unfold in_segs. set_solver. Qed.

Lemma in_segs_perm (x : Z) (l1 l2 : list segment) : Permutation l1 l2 -> in_segs x l1 <-> in_segs x l2.
Proof. unfold in_segs. intros H. by setoid_rewrite H. Qed.

Lemma apart_in (s t : segment) : pos s -> pos t -> apart s t <-> forall x, in_seg x s -> ~ in_seg x t.
Proof.
  unfold pos, apart, before, in_seg. intros Hs Ht. split; [intros; lia|]. intros H.
  destruct (Z.le_gt_cases (base s) (base t)) as [Hle|Hgt].
  - specialize (H (base t)). lia.
  - specialize (H (base s)). lia.
Qed.

Lemma sorted_app {A} (R : A -> A -> Prop) (l1 l2 : list A) :
  StronglySorted R (l1 ++ l2) <->
  StronglySorted R l1 /\ StronglySorted R l2 /\ forall a b, a ∈ l1 -> b ∈ l2 -> R a b.
Proof.
  induction l1 as [|c l1 IH]; simpl.
  - split; [|by intros (_ & ? & _)]. intros H. split; [constructor|]. split; [done|]. by intros a b ?%elem_of_nil.
  - split.
    + intros [(H1a & H1b & H)%IH H']%StronglySorted_inv. rewrite Forall_app, !Forall_forall in H'. destruct H' as [H1 H2].
      split; [constructor; [done|by apply Forall_forall]|]. split; [done|].
      intros a b [->|Ha]%elem_of_cons Hb; auto.
    + intros (H1 & H2 & H3). apply StronglySorted_inv in H1 as [H1 H4]. constructor.
      * apply IH. split_and!; [done..|]. intros a b Ha Hb. apply H3; [by right|done].
      * apply Forall_app. split; [done|]. apply Forall_forall. intros b Hb. apply H3; [left|done].
Qed.

(** A segment of the free list is replaced by parts of it. *)
Lemma sorted_replace (l1 l2 ps : list segment) (s : segment) :
  StronglySorted gap (l1 ++ s :: l2) -> StronglySorted gap ps -> Forall (fun p => within p s) ps ->
  StronglySorted gap (l1 ++ ps ++ l2).
Proof.
  intros (H1 & H2 & H3)%sorted_app Hps Hin. apply StronglySorted_inv in H2 as [H2 H4].
  rewrite Forall_forall in H4, Hin. apply sorted_app. split; [done|]. split.
  - apply sorted_app. split_and!; [done..|]. intros p b Hp Hb.
    destruct (Hin p Hp). specialize (H4 b Hb). unfold gap, within in *. lia.
  - intros a p Ha [Hp|Hp]%elem_of_app; [|apply H3; [done|by right]].
    destruct (Hin p Hp). specialize (H3 a s Ha ltac:(left)). unfold gap, within in *. lia.
Qed.

(** Free memory of any length lies in one segment. *)
Lemma contiguous (l : list segment) (x n : Z) :
  StronglySorted gap l -> 0 < n -> (forall y, x <= y < x + n -> in_segs y l) ->
  exists s, s ∈ l /\ within (mk_seg x n) s.
Proof.
  intros Hl Hn Hall. destruct (Hall x ltac:(lia)) as (s & Hs & Hx). exists s. split; [done|].
  unfold within, in_seg in *; simpl. split; [lia|]. destruct (Z.le_gt_cases (x + n) (base s + size s)); [done|].
  destruct (Hall (base s + size s) ltac:(lia)) as (t & Ht & Hy). unfold in_seg in Hy.
  apply list_elem_of_split in Hs as (l1 & l2 & ->). apply sorted_app in Hl as (_ & Hl & H3).
  apply StronglySorted_inv in Hl as [_ H4]. rewrite Forall_forall in H4.
  apply elem_of_app in Ht as [Ht|[->|Ht]%elem_of_cons]; [|lia|].
  - specialize (H3 t s Ht ltac:(left)). unfold gap in H3. lia.
  - specialize (H4 t Ht). unfold gap in H4. lia.
Qed.

(** ** Merging *)

Fixpoint merge (s : segment) (l : list segment) : list segment :=
  match l with
  | [] => [s]
  | t :: l => if base s + size s =? base t then merge (mk_seg (base s) (size s + size t)) l else s :: merge t l
  end.

Lemma merge_loop_merge (fuel : nat) (l1 : list segment) (s : segment) (l2 : list segment) :
  (S (length l2) <= fuel)%nat -> merge_loop fuel (length l1) (l1 ++ s :: l2) = l1 ++ merge s l2.
Proof.
  revert l1 s l2. induction fuel as [|fuel IH]; intros l1 s l2 Hf; [lia|]. simpl.
  rewrite list_lookup_middle by done.
  rewrite (lookup_app_r l1) by lia. replace (S (length l1) - length l1)%nat with 1%nat by lia.
  destruct l2 as [|t l2]; simpl.
  - destruct fuel as [|fuel]; [done|]. simpl. by rewrite lookup_ge_None_2 by (rewrite length_app; simpl; lia).
  - simpl in Hf. destruct (Z.eqb_spec (base s + size s) (base t)) as [He|He].
    + rewrite insert_app_r_alt, Nat.sub_diag by lia. simpl.
      replace (S (length l1)) with (length (l1 ++ [mk_seg (base s) (size s + size t)])) by (rewrite length_app; simpl; lia).
      rewrite (app_assoc l1 [_] (t :: l2) : l1 ++ _ :: t :: l2 = _), delete_middle, <- app_assoc. simpl. apply IH. lia.
    + rewrite (app_assoc l1 [s] (t :: l2) : l1 ++ s :: t :: l2 = _).
      replace (S (length l1)) with (length (l1 ++ [s])) by (rewrite length_app; simpl; lia).
      rewrite IH by lia. by rewrite <- app_assoc.
Qed.

Lemma merge_spec (s : segment) (l : list segment) :
  StronglySorted before (s :: l) -> Forall pos (s :: l) ->
  StronglySorted gap (merge s l) /\ Forall pos (merge s l) /\
  (forall x, in_segs x (merge s l) <-> in_segs x (s :: l)) /\
  Forall (fun t => base s <= base t) (merge s l).
Proof.
  revert s. induction l as [|t l IH]; intros s Hs Hp; simpl.
  - split_and!; [by repeat constructor|done|done|by repeat constructor].
  - apply Forall_cons in Hp as [Hps Hpl]. apply Forall_cons in Hpl as [Hpt Hpl'].
    pose proof (Forall_cons_2 _ _ _ Hpt Hpl') as Hpl.
    apply StronglySorted_inv in Hs as [Hl Hs]. pose proof (StronglySorted_inv Hl) as [Hl' Ht].
    rewrite Forall_forall in Hs, Ht. unfold pos in *. destruct (Z.eqb_spec (base s + size s) (base t)) as [He|He].
    + destruct (IH (mk_seg (base s) (size s + size t))) as (H1 & H2 & H3 & H4).
      { constructor; [done|]. apply Forall_forall. intros u Hu. specialize (Ht u Hu). unfold before in *. simpl. lia. }
      { constructor; [unfold pos; simpl; lia|done]. }
      split_and!; [done|done| |done]. intros x. rewrite H3, !in_segs_cons. unfold in_seg. simpl. intuition lia.
    + destruct (IH t Hl Hpl) as (H1 & H2 & H3 & H4). specialize (Hs t ltac:(left)). unfold before in Hs.
      split_and!.
      * constructor; [done|]. apply Forall_forall. rewrite Forall_forall in H4. intros u Hu.
        specialize (H4 u Hu). unfold gap. simpl in *. lia.
      * by constructor.
      * intros x. by rewrite in_segs_cons, H3, (in_segs_cons x s).
      * constructor; [lia|]. eapply Forall_impl; [done|]. simpl. intros; lia.
Qed.

Lemma merge_memory_spec (l : list segment) :
  StronglySorted before l -> Forall pos l ->
  StronglySorted gap (merge_memory l) /\ Forall pos (merge_memory l) /\
  (forall x, in_segs x (merge_memory l) <-> in_segs x l).
Proof.
  unfold merge_memory. destruct l as [|s l]; [by repeat constructor|]. intros Hs Hp.
  rewrite (merge_loop_merge _ [] s l) by (simpl; lia). simpl.
  destruct (merge_spec s l Hs Hp) as (? & ? & ? & _). done.
Qed.

(** ** Alignment *)

(** The size rounded up to a multiple of the alignment. *)
Definition aligned (al n : Z) : Z := (n + (al - 1)) / al * al.

Lemma aligned_le (al n : Z) : 0 < al -> n <= aligned al n < n + al.
Proof. unfold aligned. intros Hal. pose proof (Z.div_mod (n + (al - 1)) al). pose proof (Z.mod_pos_bound (n + (al - 1)) al). nia. Qed.

Lemma fix_alignment_aligned (k n : Z) :
  0 <= k < 64 -> 0 <= n -> n + (2 ^ k - 1) < 2 ^ 64 -> fix_alignment (2 ^ k) n = aligned (2 ^ k) n.
Proof.
  intros Hk Hn Hb. unfold fix_alignment, aligned. assert (0 < 2 ^ k) by (apply Z.pow_pos_nonneg; lia).
  rewrite u64_small by lia. rewrite <- Z.shiftr_div_pow2, <- Z.shiftl_mul_pow2 by lia.
  apply Z.bits_inj'. intros i Hi. rewrite Z.land_spec, Z.shiftl_spec by lia.
  unfold u64, wrap. rewrite Z.sub_1_r, <- Z.ones_equiv.
  destruct (Z.lt_ge_cases i 64) as [Hi64|Hi64].
  - rewrite Z.mod_pow2_bits_low, Z.lnot_spec by lia. destruct (Z.lt_ge_cases i k) as [Hik|Hik].
    + rewrite Z.ones_spec_low by lia. simpl. rewrite andb_false_r, Z.testbit_neg_r by lia. done.
    + rewrite Z.ones_spec_high by lia. simpl. rewrite andb_true_r, Z.shiftr_spec by lia. f_equal. lia.
  - rewrite Z.mod_pow2_bits_high, andb_false_r by lia. symmetry.
    rewrite Z.shiftr_spec by lia. replace (i - k + k) with i by lia.
    destruct (Z.eq_dec (n + Z.ones k) 0) as [->|Hne]; [by rewrite Z.testbit_0_l|].
    rewrite Z.ones_equiv, <- Z.sub_1_r in *.
    apply Z.bits_above_log2; [lia|]. apply Z.log2_lt_pow2; [lia|].
    apply (Z.lt_le_trans _ (2 ^ 64)); [lia|]. apply Z.pow_le_mono_r; lia.
Qed.

(** ** The invariant *)

(** The allocator manages the addresses from [lo] to [hi]: each is in a free segment or in
    exactly one used one, and free segments that touch have been merged. *)
Record alloc_ok (lo hi : Z) (a : GenericAllocator) : Prop := {
  ok_range : 0 <= lo /\ hi < 2 ^ 64;
  ok_align : exists k, 0 <= k < 64 /\ alignment a = 2 ^ k;
  ok_sorted : StronglySorted gap (memory_free a);
  ok_free_pos : Forall pos (memory_free a);
  ok_used_pos : Forall pos (memory_used a);
  ok_used_in : Forall (fun s => within s (mk_seg lo (hi - lo))) (memory_used a);
  ok_used_apart : StronglySorted apart (memory_used a);
  ok_split : forall x, in_segs x (memory_free a) <-> lo <= x < hi /\ ~ in_segs x (memory_used a)
}.

Lemma new_ok (lo hi k : Z) :
  0 <= lo < hi -> hi < 2 ^ 64 -> 0 <= k < 64 ->
  exists a, new lo (hi - lo) (2 ^ k) = Ok a /\ alloc_ok lo hi a /\ memory_used a = [].
Proof.
  intros Hlo Hhi Hk. assert (0 < 2 ^ k) by (apply Z.pow_pos_nonneg; lia). unfold new.
  rewrite (proj2 (Z.eqb_neq _ _)) by lia. rewrite (proj2 (Z.eqb_neq _ _)) by lia.
  eexists. split; [done|]. split; [|done]. constructor; simpl.
  - lia.
  - eauto.
  - repeat constructor.
  - repeat constructor. unfold pos. simpl. lia.
  - constructor.
  - constructor.
  - constructor.
  - intros x. rewrite in_segs_cons. pose proof (in_segs_nil x). unfold in_seg. simpl. intuition lia.
Qed.

(** ** Cutting a block out of a free segment *)

(** What is left of [s] when the block of [n] bytes at [x] is taken. *)
Definition rest (s : segment) (x n : Z) : list segment :=
  (if x - base s =? 0 then [] else [mk_seg (base s) (x - base s)]) ++
  (if base s + size s - (x + n) =? 0 then [] else [mk_seg (x + n) (base s + size s - (x + n))]).

Lemma carve (lo hi : Z) (a : GenericAllocator) (l1 l2 : list segment) (s : segment) (x n : Z) :
  alloc_ok lo hi a -> memory_free a = l1 ++ s :: l2 -> 0 < n -> within (mk_seg x n) s ->
  alloc_ok lo hi (mk_alloc (l1 ++ rest s x n ++ l2) (memory_used a ++ [mk_seg x n]) (alignment a)).
Proof.
  intros Hok Hf Hn Hin. destruct Hok as [H1 H2 H3 H4 H5 H6 H7 H8]. rewrite Hf in H3, H4.
  pose proof H4 as Hp4. apply Forall_app in H4 as [Hp1 [Hps Hp2]%Forall_cons].
  unfold within in Hin. simpl in Hin.
  assert (Hrest : StronglySorted gap (rest s x n) /\ Forall (fun p => within p s) (rest s x n) /\
    Forall pos (rest s x n) /\ forall y, in_segs y (rest s x n) <-> in_seg y s /\ ~ in_seg y (mk_seg x n)).
  { unfold rest, pos, within. destruct (Z.eqb_spec (x - base s) 0), (Z.eqb_spec (base s + size s - (x + n)) 0); simpl;
      (split_and!; [repeat constructor; unfold gap; simpl; lia|repeat constructor; simpl; lia|repeat constructor; simpl; lia|]);
      intros y; rewrite ?in_segs_cons; pose proof (in_segs_nil y); unfold in_seg; simpl; intuition lia. }
  destruct Hrest as (Hs & Hw & Hp & Hset).
  assert (Hsf : forall y, in_seg y s -> lo <= y < hi /\ ~ in_segs y (memory_used a)).
  { intros y Hy. apply H8. rewrite Hf, in_segs_app, in_segs_cons. tauto. }
  assert (Hlohi : lo <= x /\ x + n <= hi).
  { destruct (Hsf x) as [? _]; [unfold in_seg; lia|]. destruct (Hsf (x + n - 1)) as [? _]; [unfold in_seg; lia|]. lia. }
  constructor; simpl.
  - done.
  - done.
  - by apply (sorted_replace l1 l2 _ s).
  - rewrite !Forall_app. done.
  - apply Forall_app. split; [done|]. repeat constructor. done.
  - apply Forall_app. split; [done|]. repeat constructor; simpl; lia.
  - apply sorted_app. split; [done|]. split; [repeat constructor|]. intros u v Hu ->%list_elem_of_singleton.
    rewrite Forall_forall in H5. apply apart_in; [by apply H5|done|]. intros y Hyu Hyv.
    destruct (Hsf y) as [_ Hno]; [unfold in_seg in *; simpl in *; lia|]. apply Hno. by exists u.
  - intros y. specialize (H8 y). rewrite Hf in H8.
    rewrite in_segs_app, in_segs_cons in H8. rewrite !in_segs_app, in_segs_cons, Hset.
    assert (in_segs y l1 \/ in_segs y l2 -> ~ in_seg y s) as Hex.
    { intros Hy Hys. apply sorted_app in H3 as (_ & H3b & H3c). apply StronglySorted_inv in H3b as [_ H3b].
      rewrite Forall_forall in H3b. destruct Hy as [(u & Hu & Hyu)|(u & Hu & Hyu)].
      - specialize (H3c u s Hu ltac:(left)). unfold gap, in_seg in *. lia.
      - specialize (H3b u Hu). unfold gap, in_seg in *. lia. }
    pose proof (in_segs_nil y). unfold in_seg in *. simpl in *. intuition lia.
Qed.

Lemma find_split {A} (P : A -> Prop) `{forall x, Decision (P x)} (l : list A) (i : nat) (s : A) :
  list_find P l = Some (i, s) -> l = take i l ++ s :: drop (S i) l /\ length (take i l) = i /\ P s.
Proof.
  intros (Hl & HP & _)%list_find_Some. split; [symmetry; by apply take_drop_middle|]. split; [|done].
  apply length_take_le. apply lookup_lt_Some in Hl. lia.
Qed.

Lemma free_within (lo hi : Z) (a : GenericAllocator) (s : segment) :
  alloc_ok lo hi a -> s ∈ memory_free a -> pos s /\ lo <= base s /\ base s + size s <= hi.
Proof.
  intros Hok Hs. assert (Hp : pos s) by (pose proof (ok_free_pos _ _ _ Hok) as Hp; rewrite Forall_forall in Hp; auto).
  split; [done|]. unfold pos in Hp. assert (forall y, in_seg y s -> lo <= y < hi) as Hy.
  { intros y Hy. apply (ok_split _ _ _ Hok). by exists s. }
  pose proof (Hy (base s) ltac:(unfold in_seg; lia)). pose proof (Hy (base s + size s - 1) ltac:(unfold in_seg; lia)). lia.
Qed.

Lemma last_apart (lo hi : Z) (a : GenericAllocator) (u : list segment) (b : segment) :
  alloc_ok lo hi a -> memory_used a = u ++ [b] -> forall c, c ∈ u -> apart c b.
Proof.
  intros Hok Hu c Hc. pose proof (ok_used_apart _ _ _ Hok) as H. rewrite Hu in H.
  apply sorted_app in H as (_ & _ & H). apply H; [done|left].
Qed.

(** What an operation that hands out the block [b] has done. *)
Definition handed_out (lo hi : Z) (a a' : GenericAllocator) (b : segment) : Prop :=
  alloc_ok lo hi a' /\ memory_used a' = memory_used a ++ [b] /\ within b (mk_seg lo (hi - lo)) /\
  forall c, c ∈ memory_used a -> apart c b.

Lemma handed_out_carve (lo hi : Z) (a : GenericAllocator) (l1 l2 : list segment) (s : segment) (x n : Z) :
  alloc_ok lo hi a -> memory_free a = l1 ++ s :: l2 -> 0 < n -> within (mk_seg x n) s ->
  handed_out lo hi a (mk_alloc (l1 ++ rest s x n ++ l2) (memory_used a ++ [mk_seg x n]) (alignment a)) (mk_seg x n).
Proof.
  intros Hok Hf Hn Hin. pose proof (carve _ _ _ _ _ _ _ _ Hok Hf Hn Hin) as Hok'. split_and!; [done|done| |].
  - pose proof (ok_used_in _ _ _ Hok') as H. simpl in H. apply Forall_app in H as [_ H]. by apply Forall_inv in H.
  - by apply (last_apart _ _ _ _ _ Hok').
Qed.

(** The requests the arithmetic of fix_alignment can represent. *)
Definition representable (a : GenericAllocator) (sz : Z) : Prop := 0 < sz /\ sz + (alignment a - 1) < 2 ^ 64.

Lemma representable_aligned (lo hi : Z) (a : GenericAllocator) (sz : Z) :
  alloc_ok lo hi a -> representable a sz ->
  fix_alignment (alignment a) sz = aligned (alignment a) sz /\ sz <= aligned (alignment a) sz.
Proof.
  intros Hok [H1 H2]. destruct (ok_align _ _ _ Hok) as (k & Hk & He). rewrite He in *.
  assert (0 < 2 ^ k) by (apply Z.pow_pos_nonneg; lia). split; [by apply fix_alignment_aligned; lia|].
  pose proof (aligned_le (2 ^ k) sz). lia.
Qed.

(** allocate hands out free memory of the rounded size, and fails only when there is no
    block of that size. *)
Theorem allocate_correct (lo hi : Z) (a : GenericAllocator) (sz : Z) :
  alloc_ok lo hi a -> representable a sz ->
  let n := aligned (alignment a) sz in
  match allocate a sz with
  | (Ok addr, a') => handed_out lo hi a a' (mk_seg addr n)
  | (Err e, a') => e = OutOfMemory n /\ a' = a /\
      forall x, ~ forall y, x <= y < x + n -> in_segs y (memory_free a)
  end.
Proof.
  intros Hok Hr. destruct (representable_aligned _ _ _ _ Hok Hr) as [He Hle]. destruct Hr as [Hsz _].
  unfold allocate. rewrite He, (proj2 (Z.eqb_neq sz 0)) by lia. set (n := aligned (alignment a) sz) in *.
  destruct (list_find _ _) as [[i s]|] eqn:Hfind.
  - apply find_split in Hfind as (Hl & Hi & Hs).
    destruct (free_within lo hi a s Hok) as (_ & Hlo & Hhi); [rewrite Hl; apply elem_of_app; right; left|].
    pose proof (ok_range _ _ _ Hok).
    assert (Hout := handed_out_carve _ _ _ _ _ _ (base s) n Hok Hl ltac:(lia)). unfold within in Hout. simpl in Hout.
    specialize (Hout ltac:(lia)). simpl. unfold rest in Hout. rewrite Z.sub_diag in Hout. simpl in Hout.
    replace (base s + size s - (base s + n)) with (size s - n) in Hout by lia.
    destruct (Z.eqb_spec (size s - n) 0).
    + by rewrite delete_take_drop.
    + rewrite u64_small by lia. rewrite insert_take_drop by (rewrite Hl, length_app; simpl; lia). done.
  - split_and!; [done|done|]. intros x Hall. apply list_find_None in Hfind. rewrite Forall_forall in Hfind.
    destruct (contiguous _ x n (ok_sorted _ _ _ Hok) ltac:(lia) Hall) as (s & Hs & Hin).
    apply (Hfind s Hs). unfold within in Hin. simpl in Hin. lia.
Qed.

Lemma insert_split {A} (l1 l2 : list A) (s x : A) : <[length l1 := x]> (l1 ++ s :: l2) = l1 ++ x :: l2.
Proof. by rewrite insert_app_r_alt, Nat.sub_diag by lia. Qed.
Lemma take_split {A} (l1 l2 : list A) (s : A) : take (S (length l1)) (l1 ++ s :: l2) = l1 ++ [s].
Proof. rewrite take_app_ge by lia. replace (S (length l1) - length l1)%nat with 1%nat by lia. done. Qed.
Lemma drop_split {A} (l1 l2 : list A) (s : A) : drop (S (length l1)) (l1 ++ s :: l2) = l2.
Proof. rewrite drop_app_ge by lia. replace (S (length l1) - length l1)%nat with 1%nat by lia. done. Qed.

(** allocate_fixed hands out the block at the given address exactly when it is free. *)
Theorem allocate_fixed_correct (lo hi : Z) (a : GenericAllocator) (sz offset : Z) :
  alloc_ok lo hi a -> representable a sz ->
  let n := aligned (alignment a) sz in
  match allocate_fixed a sz offset with
  | (Ok addr, a') => addr = offset /\ handed_out lo hi a a' (mk_seg addr n)
  | (Err e, a') => e = FixedNotAvailable n offset /\ a' = a /\
      ~ forall y, offset <= y < offset + n -> in_segs y (memory_free a)
  end.
Proof.
  intros Hok Hr. destruct (representable_aligned _ _ _ _ Hok Hr) as [He Hle]. destruct Hr as [Hsz _].
  unfold allocate_fixed. rewrite He, (proj2 (Z.eqb_neq sz 0)) by lia. set (n := aligned (alignment a) sz) in *.
  destruct (list_find _ _) as [[i s]|] eqn:Hfind.
  - apply find_split in Hfind as (Hl & Hi & Hs).
    destruct (free_within lo hi a s Hok) as (_ & Hlo & Hhi); [rewrite Hl; apply elem_of_app; right; left|].
    pose proof (ok_range _ _ _ Hok).
    assert (Hout := handed_out_carve _ _ _ _ _ _ offset n Hok Hl ltac:(lia)). unfold within in Hout. simpl in Hout.
    specialize (Hout ltac:(lia)). unfold rest in Hout. rewrite <- Hi. clear Hi. revert Hl Hout.
    generalize (take i (memory_free a)) (drop (S i) (memory_free a)). intros l1 l2 Hl Hout. rewrite Hl.
    destruct (Z.eqb_spec (base s) offset) as [<-|Hne]; cbn [fst snd base size].
    + rewrite Z.sub_diag in Hout. simpl in Hout. rewrite insert_split.
      replace (base s + size s - (base s + n)) with (size s - n) in Hout by lia.
      destruct (Z.eqb_spec (size s - n) 0); [by rewrite delete_middle|]. by rewrite u64_small by lia.
    + rewrite (proj2 (Z.eqb_neq (offset - base s) 0)) in * by lia.
      replace (size s - (offset - base s + n)) with (base s + size s - (offset + n)) by lia.
      destruct (Z.eqb_spec (base s + size s - (offset + n)) 0) as [Hz|Hz].
      * rewrite Hz, Z.ltb_irrefl, insert_split. done.
      * rewrite (proj2 (Z.ltb_lt 0 _)) by lia. rewrite take_split, drop_split, <- app_assoc. simpl.
        rewrite insert_split, u64_small by lia. done.
  - split_and!; [done|done|]. intros Hall. apply list_find_None in Hfind. rewrite Forall_forall in Hfind.
    destruct (contiguous _ offset n (ok_sorted _ _ _ Hok) ltac:(lia) Hall) as (s & Hs & Hin).
    apply (Hfind s Hs). unfold within in Hin. simpl in Hin. lia.
Qed.

(** Where free puts a segment into the sorted list. *)
Lemma insert_position (l : list segment) (m : segment) :
  StronglySorted gap l -> Forall pos l ->
  exists l1 l2, l = l1 ++ l2 /\
    insert_free l m = l1 ++ m :: l2 /\
    (forall u, u ∈ l1 -> base u <= base m) /\ (forall u, u ∈ l2 -> base m < base u).
Proof.
  intros Hs Hp. unfold insert_free. destruct l as [|s0 l0] eqn:Hl0; [exists [], []; split_and!; [done|done|by intros ? ?%elem_of_nil..]|].
  rewrite <- Hl0 in *. clear Hl0. destruct (list_find _ l) as [[y s]|] eqn:Hfind.
  - exists (take y l), (drop y l). apply list_find_Some in Hfind as (Hl & Hb & Hbefore).
    split_and!; [by rewrite take_drop|done| |].
    + intros u (j & Hj)%list_elem_of_lookup. apply lookup_take_Some in Hj as [Hj Hlt].
      pose proof (Hbefore j u Hj Hlt). lia.
    + rewrite (drop_S _ _ _ Hl). intros u [->|Hu]%elem_of_cons; [done|].
      rewrite <- (take_drop_middle _ _ _ Hl) in Hs, Hp. apply sorted_app in Hs as (_ & Hs & _).
      apply StronglySorted_inv in Hs as [_ Hs]. apply Forall_app in Hp as [_ [Hp _]%Forall_cons].
      rewrite Forall_forall in Hs. specialize (Hs u Hu). unfold gap, pos in *. lia.
  - exists l, []. rewrite app_nil_r. apply list_find_None in Hfind. rewrite Forall_forall in Hfind.
    split_and!; [done|done| |by intros ? ?%elem_of_nil]. intros u Hu. specialize (Hfind u Hu). lia.
Qed.

Lemma insert_free_sorted (l1 l2 : list segment) (m : segment) :
  StronglySorted gap (l1 ++ l2) -> Forall pos (l1 ++ l2) -> pos m -> (forall u, u ∈ l1 ++ l2 -> apart u m) ->
  (forall u, u ∈ l1 -> base u <= base m) -> (forall u, u ∈ l2 -> base m < base u) ->
  StronglySorted before (l1 ++ m :: l2).
Proof.
  intros (H1 & H2 & H3)%sorted_app Hp Hm Hap Hb1 Hb2. rewrite Forall_forall in Hp. unfold pos, apart, before, gap in *.
  assert (Hweak : forall l, StronglySorted (fun s t => base s + size s < base t) l -> StronglySorted before l).
  { intros l H. induction H as [|u l H IH Hu]; constructor; [done|]. eapply Forall_impl; [done|]. unfold before. simpl. lia. }
  apply sorted_app. split; [auto|]. split.
  - constructor; [auto|]. apply Forall_forall. intros u Hu. unfold before.
    specialize (Hap u ltac:(apply elem_of_app; by right)). specialize (Hb2 u Hu). specialize (Hp u ltac:(apply elem_of_app; by right)). lia.
  - unfold before. intros u v Hu [->|Hv]%elem_of_cons; [|specialize (H3 u v Hu Hv); lia].
    specialize (Hap u ltac:(apply elem_of_app; by left)). specialize (Hb1 u Hu). specialize (Hp u ltac:(apply elem_of_app; by left)). lia.
Qed.

Lemma sorted_remove {A} (R : A -> A -> Prop) (l1 l2 : list A) (x : A) :
  StronglySorted R (l1 ++ x :: l2) -> StronglySorted R (l1 ++ l2).
Proof.
  intros (H1 & H2 & H3)%sorted_app. apply StronglySorted_inv in H2 as [H2 _]. apply sorted_app.
  split_and!; [done..|]. intros a b Ha Hb. apply H3; [done|by right].
Qed.

(** free gives back the block that starts at the address, and nothing else. *)
Theorem free_correct (lo hi : Z) (a : GenericAllocator) (ptr : Z) :
  alloc_ok lo hi a ->
  match free a ptr with
  | (Ok _, a') => exists b, base b = ptr /\ Permutation (memory_used a) (b :: memory_used a') /\ alloc_ok lo hi a' /\
      forall x, in_segs x (memory_free a') <-> in_segs x (memory_free a) \/ in_seg x b
  | (Err e, a') => e = UnknownMemory ptr /\ a' = a /\ forall b, b ∈ memory_used a -> base b <> ptr
  end.
Proof.
  intros Hok. unfold free. destruct (list_find _ (memory_used a)) as [[i m]|] eqn:Hfind.
  - apply find_split in Hfind as (Hl & Hi & Hm). exists m. split; [done|].
    rewrite delete_take_drop. revert Hl. generalize (take i (memory_used a)) (drop (S i) (memory_used a)).
    intros u1 u2 Hu. cbn [memory_used memory_free alignment]. split; [rewrite Hu; symmetry; apply Permutation_middle|].
    destruct Hok as [H1 H2 H3 H4 H5 H6 H7 H8]. rewrite Hu in *.
    apply Forall_app in H5 as [H5a [H5m H5b]%Forall_cons]. apply Forall_app in H6 as [H6a [H6m H6b]%Forall_cons].
    assert (Hdis : forall x, in_seg x m -> ~ in_segs x (u1 ++ u2)).
    { intros x Hx (t & Ht & Hxt). pose proof H7 as (_ & H7b & H7c)%sorted_app.
      apply StronglySorted_inv in H7b as [_ H7b]. rewrite Forall_forall in H7b.
      apply elem_of_app in Ht as [Ht|Ht]; [specialize (H7c t m Ht ltac:(left))|specialize (H7b t Ht)];
        unfold apart, before, in_seg in *; lia. }
    assert (Hap : forall s, s ∈ memory_free a -> apart s m).
    { intros s Hs. apply apart_in; [by rewrite Forall_forall in H4; apply H4|done|]. intros x Hx Hxm.
      destruct (proj1 (H8 x)) as [_ Hno]; [by exists s|]. apply Hno. rewrite in_segs_app, in_segs_cons. tauto. }
    destruct (insert_position _ m H3 H4) as (l1 & l2 & Hf & -> & Hb1 & Hb2). rewrite Hf in *.
    destruct (merge_memory_spec (l1 ++ m :: l2)) as (M1 & M2 & M3).
    { by apply insert_free_sorted. }
    { apply Forall_app in H4 as [? ?]. apply Forall_app. auto. }
    split; [|intros x; rewrite M3, !in_segs_app, in_segs_cons; tauto]. constructor; simpl; try done.
    + by apply Forall_app.
    + by apply Forall_app.
    + by apply sorted_remove in H7.
    + intros x. rewrite M3, in_segs_app, in_segs_cons. specialize (H8 x). specialize (Hdis x).
      rewrite in_segs_app in H8, Hdis. rewrite in_segs_app. rewrite in_segs_app, in_segs_cons in H8.
      assert (in_seg x m -> lo <= x < hi) by (unfold within in H6m; simpl in H6m; unfold in_seg; lia).
      destruct (decide (base m <= x < base m + size m)) as [Hx|Hx]; fold (in_seg x m) in Hx; tauto.
  - apply list_find_None in Hfind. rewrite Forall_forall in Hfind. done.
Qed.

(** ** Histories *)

Inductive request := Allocate (sz : Z) | AllocateFixed (sz offset : Z) | Free (ptr : Z).
Inductive answer := Address (addr : Z) | Freed | Refused (e : Error).

Definition answer_of (r : result Error Z) : answer := match r with Ok addr => Address addr | Err e => Refused e end.

(** One request, and a sequence of them with the answers. *)
Definition serve (a : GenericAllocator) (r : request) : answer * GenericAllocator :=
  match r with
  | Allocate sz => let '(x, a') := allocate a sz in (answer_of x, a')
  | AllocateFixed sz offset => let '(x, a') := allocate_fixed a sz offset in (answer_of x, a')
  | Free ptr => let '(x, a') := free a ptr in (match x with Ok _ => Freed | Err e => Refused e end, a')
  end.

Fixpoint serve_all (a : GenericAllocator) (rs : list request) : list answer * GenericAllocator :=
  match rs with
  | [] => ([], a)
  | r :: rs => let '(x, a') := serve a r in let '(xs, a'') := serve_all a' rs in (x :: xs, a'')
  end.

(** The specification: what a client knows of the memory from [lo] to [hi] is the blocks [B]
    that were handed out to it.  [promised B r x B']: with [B] handed out, [x] is a right
    answer to [r], after which [B'] is handed out. *)
Section Ledger.
Variables lo hi al : Z.

(** Nothing of the [n] bytes at [addr] is handed out. *)
Definition available (B : list segment) (addr n : Z) : Prop :=
  lo <= addr /\ addr + n <= hi /\ forall c, c ∈ B -> apart c (mk_seg addr n).

Inductive promised (B : list segment) : request -> answer -> list segment -> Prop :=
| promised_block (sz addr : Z) :
    0 < sz -> available B addr (aligned al sz) ->
    promised B (Allocate sz) (Address addr) (B ++ [mk_seg addr (aligned al sz)])
| promised_out_of_memory (sz : Z) :
    0 < sz -> (forall addr, ~ available B addr (aligned al sz)) ->
    promised B (Allocate sz) (Refused (OutOfMemory (aligned al sz))) B
| promised_nothing (sz : Z) : sz = 0 -> promised B (Allocate sz) (Refused (InvalidSize 0)) B
| promised_fixed (sz offset : Z) :
    0 < sz -> available B offset (aligned al sz) ->
    promised B (AllocateFixed sz offset) (Address offset) (B ++ [mk_seg offset (aligned al sz)])
| promised_not_available (sz offset : Z) :
    0 < sz -> ~ available B offset (aligned al sz) ->
    promised B (AllocateFixed sz offset) (Refused (FixedNotAvailable (aligned al sz) offset)) B
| promised_nothing_fixed (sz offset : Z) : sz = 0 -> promised B (AllocateFixed sz offset) (Refused (InvalidSize 0)) B
| promised_free (b : segment) (B' : list segment) :
    Permutation B (b :: B') -> promised B (Free (base b)) Freed B'
| promised_unknown (ptr : Z) :
    (forall b, b ∈ B -> base b <> ptr) -> promised B (Free ptr) (Refused (UnknownMemory ptr)) B.

Inductive history : list segment -> list request -> list answer -> list segment -> Prop :=
| history_nil (B : list segment) : history B [] [] B
| history_cons (B B' B'' : list segment) (r : request) (x : answer) (rs : list request) (xs : list answer) :
    promised B r x B' -> history B' rs xs B'' -> history B (r :: rs) (x :: xs) B''.
End Ledger.

(** Sizes are unsigned and stay below 2^64 when they are rounded up. *)
Definition fits (al : Z) (r : request) : Prop :=
  match r with
  | Allocate sz | AllocateFixed sz _ => 0 <= sz /\ sz + (al - 1) < 2 ^ 64
  | Free _ => True
  end.

(** A larger size wraps: a block of 64 bytes is handed out for 2^64 - 1. *)
Example rounding_wraps :
  fst (serve_all (mk_alloc [mk_seg 0 1024] [] 64) [Allocate (2 ^ 64 - 1); Allocate (2 ^ 64 - 64)])
  = [Address 0; Refused (OutOfMemory (2 ^ 64 - 64))].
Proof. vm_compute. reflexivity. Qed.

(** Of the memory that is not in use a block is free exactly when it is available. *)
Lemma free_available (lo hi : Z) (a : GenericAllocator) (x n : Z) :
  alloc_ok lo hi a -> 0 < n ->
  (forall y, x <= y < x + n -> in_segs y (memory_free a)) <-> available lo hi (memory_used a) x n.
Proof.
  intros Hok Hn. pose proof (ok_split _ _ _ Hok) as Hs. pose proof (ok_used_pos _ _ _ Hok) as Hp. rewrite Forall_forall in Hp.
  split.
  - intros Hall. destruct (proj1 (Hs x) (Hall x ltac:(lia))) as [Hx _].
    destruct (proj1 (Hs (x + n - 1)) (Hall (x + n - 1) ltac:(lia))) as [Hy _]. split_and!; [lia|lia|].
    intros c Hc. apply apart_in; [by apply Hp|done|]. intros y Hyc Hyb. unfold in_seg in Hyb. simpl in Hyb.
    destruct (proj1 (Hs y) (Hall y ltac:(lia))) as [_ Hno]. apply Hno. by exists c.
  - intros (Hlo & Hhi & Hap) y Hy. apply Hs. split; [lia|]. intros (c & Hc & Hyc). specialize (Hap c Hc).
    unfold apart, before, in_seg in *. simpl in *. lia.
Qed.

Lemma serve_alignment (a : GenericAllocator) (r : request) : alignment (snd (serve a r)) = alignment a.
Proof.
  destruct r as [sz|sz off|ptr]; simpl; unfold allocate, allocate_fixed, free;
    [destruct (sz =? 0); [done|]; by destruct (list_find _ _) as [[]|] |
     destruct (sz =? 0); [done|]; destruct (list_find _ _) as [[i s]|]; [|done]; by destruct (base s =? off) |
     by destruct (list_find _ _) as [[]|] ].
Qed.

Lemma handed_out_available (lo hi : Z) (a a' : GenericAllocator) (addr n : Z) :
  handed_out lo hi a a' (mk_seg addr n) -> available lo hi (memory_used a) addr n.
Proof. intros (_ & _ & Hw & Hap). unfold within in Hw. simpl in Hw. split_and!; [lia|lia|done]. Qed.

(** Each operation keeps the promise and the invariant. *)
Lemma serve_promised (lo hi : Z) (a : GenericAllocator) (r : request) :
  alloc_ok lo hi a -> fits (alignment a) r ->
  alloc_ok lo hi (serve a r).2 /\
  promised lo hi (alignment a) (memory_used a) r (serve a r).1 (memory_used (serve a r).2).
Proof.
  intros Hok Hf. destruct r as [sz|sz off|ptr]; simpl in *.
  - destruct (Z.eq_dec sz 0) as [->|Hne]; [split; [done|by constructor]|].
    assert (Hr : representable a sz) by (split; lia). destruct (representable_aligned _ _ _ _ Hok Hr) as [_ Hle].
    pose proof (allocate_correct _ _ _ sz Hok Hr) as H.
    destruct (allocate a sz) as [[addr|e] a']; simpl in *.
    + pose proof (handed_out_available _ _ _ _ _ _ H). destruct H as (? & -> & _). split; [done|]. constructor; [lia|done].
    + destruct H as (-> & -> & H). split; [done|]. constructor; [lia|]. intros x Hx. apply (H x). apply (free_available lo hi); [done|lia|done].
  - destruct (Z.eq_dec sz 0) as [->|Hne]; [split; [done|by constructor]|].
    assert (Hr : representable a sz) by (split; lia). destruct (representable_aligned _ _ _ _ Hok Hr) as [_ Hle].
    pose proof (allocate_fixed_correct _ _ _ sz off Hok Hr) as H.
    destruct (allocate_fixed a sz off) as [[addr|e] a']; simpl in *.
    + destruct H as [-> H]. pose proof (handed_out_available _ _ _ _ _ _ H). destruct H as (? & -> & _).
      split; [done|]. constructor; [lia|done].
    + destruct H as (-> & -> & H). split; [done|]. constructor; [lia|]. intros Hx. apply H. apply (free_available lo hi); [done|lia|done].
  - pose proof (free_correct _ _ _ ptr Hok) as H. destruct (free a ptr) as [[u|e] a']; simpl in *.
    + destruct H as (b & <- & Hp & ? & _). split; [done|]. by constructor.
    + destruct H as (-> & -> & H). split; [done|]. by constructor.
Qed.

Lemma serve_all_history (lo hi : Z) (rs : list request) (a : GenericAllocator) :
  alloc_ok lo hi a -> Forall (fits (alignment a)) rs ->
  alloc_ok lo hi (serve_all a rs).2 /\ alignment (serve_all a rs).2 = alignment a /\
  history lo hi (alignment a) (memory_used a) rs (serve_all a rs).1 (memory_used (serve_all a rs).2).
Proof.
  intros Hok Hrs. remember (alignment a) as al eqn:Hal. revert a Hok Hal. induction Hrs as [|r rs Hr Hrs IH]; intros a Hok Hal; simpl.
  - split_and!; [done|done|constructor].
  - subst al. destruct (serve_promised _ _ a r Hok Hr) as [Hok' Hp]. pose proof (serve_alignment a r) as Hal.
    destruct (serve a r) as [x a'] eqn:Hs. simpl in *. destruct (IH a' Hok' (eq_sym Hal)) as (? & ? & ?).
    destruct (serve_all a' rs) as [xs a'']. simpl in *. split_and!; [done|done|]. by econstructor.
Qed.

(** When nothing is in use, the free list is one segment again. *)
Lemma unused_whole (lo hi : Z) (a : GenericAllocator) :
  lo < hi -> alloc_ok lo hi a -> memory_used a = [] -> memory_free a = [mk_seg lo (hi - lo)].
Proof.
  intros Hlt Hok Hu. pose proof (ok_split _ _ _ Hok) as Hs. rewrite Hu in Hs.
  destruct (contiguous _ lo (hi - lo) (ok_sorted _ _ _ Hok) ltac:(lia)) as (s & Hin & Hw).
  { intros y Hy. apply Hs. split; [lia|apply in_segs_nil]. }
  unfold within in Hw. simpl in Hw. destruct (free_within _ _ _ _ Hok Hin) as (Hp & Hlo & Hhi).
  assert (s = mk_seg lo (hi - lo)) as -> by (destruct s; simpl in *; f_equal; lia).
  pose proof (ok_sorted _ _ _ Hok) as Hsort.
  assert (Hall : forall t, t ∈ memory_free a -> pos t /\ lo <= base t /\ base t + size t <= hi) by (intros t Ht; by apply (free_within lo hi a)).
  apply list_elem_of_split in Hin as (l1 & l2 & He). rewrite He in *. apply sorted_app in Hsort as (_ & Hsort & H3).
  apply StronglySorted_inv in Hsort as [_ H4]. rewrite Forall_forall in H4. unfold gap, pos in *. simpl in *.
  destruct l1 as [|t l1].
  - destruct l2 as [|t l2]; [done|]. specialize (H4 t ltac:(left)).
    destruct (Hall t ltac:(right; left)). lia.
  - specialize (H3 t (mk_seg lo (hi - lo)) ltac:(left) ltac:(left)). specialize (Hall t ltac:(left)). simpl in *. lia.
Qed.

(** C9: Any sequence of requests to a new allocator of the memory from lo to hi, an alignment
    that is a power of two, and sizes that stay below 2^64 when they are rounded up to it:
    the answers are right for what was handed out before.  The address of an answered
    allocation is that of a block of the rounded size inside the memory that overlaps no
    block handed out and not freed since, and for allocate_fixed it is the address that was
    asked for; allocate is refused only for size 0 or when no block of the rounded size is
    available anywhere, allocate_fixed only for size 0 or when that block is not available; free
    takes back exactly the block that starts at the address and refuses any other address;
    every refusal carries the error of the code.  When everything has been freed, the
    allocator is as new, its memory in one piece. *)
Theorem allocator_history (lo hi k : Z) (rs : list request) :
  0 <= lo < hi -> hi < 2 ^ 64 -> 0 <= k < 64 -> Forall (fits (2 ^ k)) rs ->
  exists a0 B, new lo (hi - lo) (2 ^ k) = Ok a0 /\
    history lo hi (2 ^ k) [] rs (serve_all a0 rs).1 B /\ (B = [] -> (serve_all a0 rs).2 = a0).
Proof.
  intros Hlo Hhi Hk Hrs. destruct (new_ok lo hi k Hlo Hhi Hk) as (a0 & Hnew & Hok0 & Hu0).
  assert (Hal0 : alignment a0 = 2 ^ k).
  { unfold new in Hnew. destruct (hi - lo =? 0); [done|]. destruct (2 ^ k =? 0); [done|]. by injection Hnew as <-. }
  rewrite <- Hal0 in Hrs. destruct (serve_all_history _ _ _ _ Hok0 Hrs) as (Hok & Hal & Hh). rewrite Hu0, Hal0 in Hh.
  exists a0, (memory_used (serve_all a0 rs).2). split_and!; [done|done|]. intros Hu.
  destruct (serve_all a0 rs) as [xs [f u al]], a0 as [f0 u0 al0]. simpl in *. subst.
  pose proof (unused_whole _ _ _ (proj2 Hlo) Hok eq_refl). pose proof (unused_whole _ _ _ (proj2 Hlo) Hok0 eq_refl).
  simpl in *. congruence.
Qed.

Example allocator_history_witness :
  let rs := [Allocate 100; AllocateFixed 64 512; AllocateFixed 1 512; Allocate 0; Allocate 960; Free 0; Free 512; Free 512] in
  Forall (fits (2 ^ 6)) rs /\
  (exists a0 B, new 0 (1024 - 0) (2 ^ 6) = Ok a0 /\
     history 0 1024 (2 ^ 6) [] rs (serve_all a0 rs).1 B /\ (B = [] -> (serve_all a0 rs).2 = a0)) /\
  serve_all (mk_alloc [mk_seg 0 1024] [] 64) rs
  = ([Address 0; Address 512; Refused (FixedNotAvailable 64 512); Refused (InvalidSize 0); Refused (OutOfMemory 960);
      Freed; Freed; Refused (UnknownMemory 512)], mk_alloc [mk_seg 0 1024] [] 64).
Proof.
  intros rs. assert (H : Forall (fits (2 ^ 6)) rs) by (repeat constructor; simpl; lia).
  split; [exact H|]. split; [apply (allocator_history 0 1024 6); [lia|lia|lia|exact H]|vm_compute; reflexivity].
Defined.

(** ** The interface *)

(** trait Allocator *)
Class Allocator (A : Type) := {
  al_allocate : A -> Z -> option Z -> result Error Z * A;
  al_allocate_fixed : A -> Z -> Z -> result Error Z * A;
  al_free : A -> Z -> result Error unit * A
}.

(** What an allocation of [sz] bytes may do: hand out a new block, or nothing. *)
Definition allocated {A : Type} (ok : A -> Prop) (used : A -> list segment) (a : A) (sz : Z) (r : result Error Z * A) : Prop :=
  match r with
  | (Ok addr, a') => ok a' /\ exists b, base b = addr /\ sz <= size b /\ Permutation (used a') (b :: used a) /\
      forall c, c ∈ used a -> apart c b
  | (Err _, a') => ok a' /\ Permutation (used a') (used a)
  end.

Class AllocatorLaws (A : Type) `{Allocator A} := {
  al_ok : A -> Prop;
  al_used : A -> list segment;
  law_allocate (a : A) (sz : Z) (va : option Z) :
    al_ok a -> 0 <= sz < 2 ^ 63 -> allocated al_ok al_used a sz (al_allocate a sz va);
  law_allocate_fixed (a : A) (sz offset : Z) :
    al_ok a -> 0 <= sz < 2 ^ 63 -> allocated al_ok al_used a sz (al_allocate_fixed a sz offset);
  law_free (a : A) (b : segment) :
    al_ok a -> b ∈ al_used a ->
    match al_free a (base b) with
    | (Ok _, a') => al_ok a' /\ Permutation (al_used a) (b :: al_used a')
    | (Err _, _) => False
    end;
  (* the largest address is not one of a block *)
  law_address (a : A) (b : segment) : al_ok a -> b ∈ al_used a -> base b < 2 ^ 64 - 1
}.

#[export] Instance generic_ops : Allocator GenericAllocator := {|
  al_allocate := fun a sz _ => allocate a sz;
  al_allocate_fixed := allocate_fixed;
  al_free := free
|}.

Definition generic_ok (a : GenericAllocator) : Prop := exists lo hi, alloc_ok lo hi a.

Lemma representable_63 (lo hi : Z) (a : GenericAllocator) (sz : Z) :
  alloc_ok lo hi a -> 0 < sz < 2 ^ 63 -> representable a sz.
Proof.
  intros Hok Hsz. destruct (ok_align _ _ _ Hok) as (k & Hk & He). unfold representable. rewrite He.
  assert (2 ^ k <= 2 ^ 63) by (apply Z.pow_le_mono_r; lia). lia.
Qed.

Lemma handed_out_allocated (lo hi sz n addr : Z) (a a' : GenericAllocator) :
  sz <= n -> handed_out lo hi a a' (mk_seg addr n) -> allocated generic_ok memory_used a sz (Ok addr, a').
Proof.
  intros Hn (H1 & H2 & _ & H4). split; [by exists lo, hi|]. exists (mk_seg addr n). split_and!; [done|done| |done].
  rewrite H2. symmetry. apply Permutation_cons_append.
Qed.

(** Blocks in use are told apart by their addresses. *)
Lemma used_base_inj (lo hi : Z) (a : GenericAllocator) (b c : segment) :
  alloc_ok lo hi a -> b ∈ memory_used a -> c ∈ memory_used a -> base b = base c -> b = c.
Proof.
  intros Hok Hb Hc He. pose proof (ok_used_pos _ _ _ Hok) as Hp. pose proof (ok_used_apart _ _ _ Hok) as Ha.
  rewrite Forall_forall in Hp. pose proof (Hp b Hb). pose proof (Hp c Hc). unfold pos in *.
  apply list_elem_of_split in Hb as (l1 & l2 & Hl). rewrite Hl in *. apply sorted_app in Ha as (_ & Ha & H3).
  apply StronglySorted_inv in Ha as [_ Ha]. rewrite Forall_forall in Ha. unfold apart, before in *.
  apply elem_of_app in Hc as [Hc|[->|Hc]%elem_of_cons]; [|done|].
  - specialize (H3 c b Hc ltac:(left)). lia.
  - specialize (Ha c Hc). lia.
Qed.

#[export] Instance generic_laws : AllocatorLaws GenericAllocator.
Proof.
  refine {| al_ok := generic_ok; al_used := memory_used |}.
  - intros a sz va (lo & hi & Hok) Hsz. simpl. destruct (Z.eq_dec sz 0) as [->|Hne].
    { split; [by exists lo, hi|done]. }
    pose proof (representable_63 _ _ _ sz Hok ltac:(lia)) as Hr. pose proof (allocate_correct _ _ _ _ Hok Hr) as H.
    destruct (representable_aligned _ _ _ _ Hok Hr) as [_ Hle]. destruct (allocate a sz) as [[addr|e] a'].
    + by eapply handed_out_allocated.
    + destruct H as (_ & -> & _). split; [by exists lo, hi|done].
  - intros a sz offset (lo & hi & Hok) Hsz. simpl. destruct (Z.eq_dec sz 0) as [->|Hne].
    { split; [by exists lo, hi|done]. }
    pose proof (representable_63 _ _ _ sz Hok ltac:(lia)) as Hr. pose proof (allocate_fixed_correct _ _ _ _ offset Hok Hr) as H.
    destruct (representable_aligned _ _ _ _ Hok Hr) as [_ Hle]. destruct (allocate_fixed a sz offset) as [[addr|e] a'].
    + destruct H as [_ H]. by eapply handed_out_allocated.
    + destruct H as (_ & -> & _). split; [by exists lo, hi|done].
  - intros a b (lo & hi & Hok) Hb. simpl. pose proof (free_correct _ _ _ (base b) Hok) as H.
    destruct (free a (base b)) as [[u|e] a'].
    + destruct H as (c & He & Hp & Hok' & _). split; [by exists lo, hi|].
      rewrite (used_base_inj _ _ _ b c Hok Hb); [done| |done]. rewrite Hp. left.
    + destruct H as (_ & _ & H). by destruct (H b Hb).
  - intros a b (lo & hi & Hok) Hb. pose proof (ok_used_in _ _ _ Hok) as Hin. pose proof (ok_used_pos _ _ _ Hok) as Hp.
    rewrite Forall_forall in Hin, Hp. specialize (Hin b Hb). specialize (Hp b Hb). pose proof (ok_range _ _ _ Hok).
    unfold within, pos in *. simpl in *. lia.
Defined.

End UserAlloc.
