(* ===== verification/UserArgs.v ===== *)
(** * The arguments of a job (libtapasco: src/tapasco.hpp, class JobArgumentList, and the
      functions tapasco_job_param_* of src/ffi.rs)

    A program launches a processing element with C++ values as arguments: integers, buffers
    as WrappedPointer with annotations around them (InOnly, OutOnly, Local, Offset), virtual
    addresses and streams.  JobArgumentList turns them, left to right, into the parameter
    list of the runtime.  The annotations set flags of the object that the next buffer takes
    and resets. *)
From S2P Require Import Prelude.

Module UserArgs.

(** ** Parameters of the runtime (device.rs) *)

(** A buffer of the program: Box<[u8]> made of its address and length. *)
Record slice := mk_slice { ptr : Z; len : Z }.

#[export] Instance slice_eq_dec : EqDecision slice.
Proof. solve_decision. Defined.

(** The fields that the three kinds of DataTransfer share. *)
Record transfer := mk_transfer { data : slice; from_device : bool; to_device : bool; free : bool }.

(** enum PEParameter; a memory is named by its position, the default memory is 0. *)
Inductive PEParameter :=
| Single32 (v : Z)
| Single64 (v : Z)
| DeviceAddress (a : Z)
| DataTransferLocal (x : transfer) (fixed : option Z)
| DataTransferAlloc (x : transfer) (memory : nat) (fixed : option Z)
| DataTransferPrealloc (x : transfer) (device_address : Z) (memory : nat)
| DataTransferStream (data : slice) (c2h : bool) (memory : nat)
| VirtualAddress (p : Z).

Definition default_memory : nat := 0.
(** Whether Device::default_memory() is Ok.  It takes the first memory of the device and
    cannot fail; ffi.rs handles an error all the same. *)
Definition default_memory_ok : bool := true.

(** ** The list in ffi.rs: null, or the parameters in order *)

Definition JobList : Type := option (list PEParameter).

Definition push (p : PEParameter) (l : JobList) : JobList :=
  match l with Some ps => Some (ps ++ [p]) | None => None end.

Definition tapasco_job_param_new : JobList := Some [].
Definition tapasco_job_param_single32 (param : Z) (l : JobList) : JobList := push (Single32 param) l.
Definition tapasco_job_param_single64 (param : Z) (l : JobList) : JobList := push (Single64 param) l.
Definition tapasco_job_param_deviceaddress (param : Z) (l : JobList) : JobList := push (DeviceAddress param) l.
Definition tapasco_job_param_virtualaddress (addr : Z) (l : JobList) : JobList := push (VirtualAddress addr) l.

(** With a null device, and when the device has no default memory ([ok] is false), nothing is
    added; the caller is told by the result, a null pointer. *)
Definition tapasco_job_param_alloc (dev : Z) (ok : bool) (p bytes : Z) (to_device from_device free uses_fixed : bool) (fixed : Z) (l : JobList)
    : JobList :=
  if dev =? 0 then l else
  if negb ok then l else
  push (DataTransferAlloc (mk_transfer (mk_slice p bytes) from_device to_device free) default_memory
          (if uses_fixed then Some fixed else None)) l.

Definition tapasco_job_param_local (p bytes : Z) (to_device from_device free uses_fixed : bool) (fixed : Z) (l : JobList)
    : JobList :=
  push (DataTransferLocal (mk_transfer (mk_slice p bytes) from_device to_device free)
          (if uses_fixed then Some fixed else None)) l.

Definition tapasco_job_param_prealloc (dev : Z) (ok : bool) (p addr bytes : Z) (to_device from_device free : bool)
    (l : JobList) : JobList :=
  if dev =? 0 then l else
  if negb ok then l else
  push (DataTransferPrealloc (mk_transfer (mk_slice p bytes) from_device to_device free) addr default_memory) l.

(** The device is used without a check for null, which is not modelled. *)
Definition tapasco_job_param_stream (ok : bool) (p bytes : Z) (c2h : bool) (l : JobList) : JobList :=
  if negb ok then l else
  push (DataTransferStream (mk_slice p bytes) c2h default_memory) l.

(** ** Arguments of launch *)

(** A value of a type of [sz] bytes, a raw pointer, a buffer, and the annotations. *)
Inductive arg :=
| Value (sz v : Z)
| Pointer (p : Z)
| Local (t : arg)
| OutOnly (t : arg)
| InOnly (t : arg)
| Offset (t : arg) (offset : Z)
| WrappedPointer (p sz : Z)
| VirtualAddr (addr : Z)
| InputStream (p sz : Z)
| OutputStream (p sz : Z).

(** The exceptions thrown while arguments are collected (class tapasco_error). *)
Inductive arg_error := ListAllocated | LargeArgument | SmallArgument | RawPointer.

(** ** class JobArgumentList *)

(** [has_memory]: whether device->default_memory() is Ok. *)
Record JobArgumentList := mk_jal {
  device : Z;
  has_memory : bool;
  list_inner : JobList;
  jl_from_device : bool;
  jl_to_device : bool;
  jl_free : bool;
  jl_local : bool;
  jl_offset_used : bool;
  jl_offset : Z;
  jl_deviceaddress : Z
}.

(** (DeviceAddress)-1 *)
Definition NO_ADDRESS : Z := 2 ^ 64 - 1.

Definition set_list (l : JobList) (a : JobArgumentList) : JobArgumentList :=
  mk_jal (device a) (has_memory a) l (jl_from_device a) (jl_to_device a) (jl_free a) (jl_local a) (jl_offset_used a) (jl_offset a)
    (jl_deviceaddress a).

Definition reset_state (a : JobArgumentList) : JobArgumentList :=
  mk_jal (device a) (has_memory a) (list_inner a) true true true false false 0 NO_ADDRESS.

Definition new_list (a : JobArgumentList) : arg_error + JobArgumentList :=
  match list_inner a with
  | Some _ => inl ListAllocated
  | None => inr (reset_state (set_list tapasco_job_param_new a))
  end.

(** The constructor: the members' initialisers, then new_list. *)
Definition make_list (d : Z) (ok : bool) : arg_error + JobArgumentList :=
  new_list (mk_jal d ok None false false false false false 0 NO_ADDRESS).

Definition single32 (param : Z) (a : JobArgumentList) : JobArgumentList :=
  set_list (tapasco_job_param_single32 param (list_inner a)) a.
Definition single64 (param : Z) (a : JobArgumentList) : JobArgumentList :=
  set_list (tapasco_job_param_single64 param (list_inner a)) a.
Definition devaddr (param : Z) (a : JobArgumentList) : JobArgumentList :=
  set_list (tapasco_job_param_deviceaddress param (list_inner a)) a.
Definition virtaddr (p : Z) (a : JobArgumentList) : JobArgumentList :=
  set_list (tapasco_job_param_virtualaddress p (list_inner a)) a.
Definition streamop (p bytes : Z) (c2h : bool) (a : JobArgumentList) : JobArgumentList :=
  set_list (tapasco_job_param_stream (has_memory a) p bytes c2h (list_inner a)) a.

Definition memop (p bytes : Z) (a : JobArgumentList) : JobArgumentList :=
  reset_state
    (if negb (jl_deviceaddress a =? NO_ADDRESS) then
       set_list (tapasco_job_param_prealloc (device a) (has_memory a) p (jl_deviceaddress a) bytes (jl_to_device a) (jl_from_device a)
                   (jl_free a) (list_inner a)) a
     else if jl_local a then
       set_list (tapasco_job_param_local p bytes (jl_to_device a) (jl_from_device a) (jl_free a) (jl_offset_used a)
                   (jl_offset a) (list_inner a)) a
     else
       set_list (tapasco_job_param_alloc (device a) (has_memory a) p bytes (jl_to_device a) (jl_from_device a) (jl_free a)
                   (jl_offset_used a) (jl_offset a) (list_inner a)) a).

Definition unset_from_device (a : JobArgumentList) : JobArgumentList :=
  mk_jal (device a) (has_memory a) (list_inner a) false (jl_to_device a) (jl_free a) (jl_local a) (jl_offset_used a) (jl_offset a)
    (jl_deviceaddress a).
Definition unset_to_device (a : JobArgumentList) : JobArgumentList :=
  mk_jal (device a) (has_memory a) (list_inner a) (jl_from_device a) false (jl_free a) (jl_local a) (jl_offset_used a) (jl_offset a)
    (jl_deviceaddress a).
Definition unset_free (a : JobArgumentList) : JobArgumentList :=
  mk_jal (device a) (has_memory a) (list_inner a) (jl_from_device a) (jl_to_device a) false (jl_local a) (jl_offset_used a) (jl_offset a)
    (jl_deviceaddress a).
Definition set_local (a : JobArgumentList) : JobArgumentList :=
  mk_jal (device a) (has_memory a) (list_inner a) (jl_from_device a) (jl_to_device a) (jl_free a) true (jl_offset_used a) (jl_offset a)
    (jl_deviceaddress a).
Definition set_offset (offset : Z) (a : JobArgumentList) : JobArgumentList :=
  mk_jal (device a) (has_memory a) (list_inner a) (jl_from_device a) (jl_to_device a) (jl_free a) (jl_local a) true offset
    (jl_deviceaddress a).

(** The overloads of set_arg *)
Fixpoint set_arg (t : arg) (a : JobArgumentList) : arg_error * JobArgumentList + JobArgumentList :=
  match t with
  | Value sz v =>
      if sz =? 4 then inr (single32 (u32 v) a)
      else if sz =? 8 then inr (single64 (u64 v) a)
      else if sz >? 8 then inl (LargeArgument, a)
      else inl (SmallArgument, a)
  | Pointer _ => inl (RawPointer, a)
  | Local t => set_arg t (set_local a)
  | OutOnly t => set_arg t (unset_to_device a)
  | InOnly t => set_arg t (unset_from_device a)
  | Offset t offset => set_arg t (set_offset offset a)
  | WrappedPointer p sz => inr (memop p sz a)
  | VirtualAddr p => inr (virtaddr p a)
  | InputStream p sz => inr (streamop p sz false a)
  | OutputStream p sz => inr (streamop p sz true a)
  end.

(** set_args: an exception leaves the arguments before it in the list. *)
Fixpoint set_args (ts : list arg) (a : JobArgumentList) : arg_error * JobArgumentList + JobArgumentList :=
  match ts with
  | [] => inr a
  | t :: ts => match set_arg t a with inr a' => set_args ts a' | inl e => inl e end
  end.

(** ** What the arguments mean *)

(** The argument inside the annotations, and the annotations around it. *)
Fixpoint core (t : arg) : arg :=
  match t with Local t | OutOnly t | InOnly t | Offset t _ => core t | _ => t end.
Fixpoint is_local (t : arg) : bool :=
  match t with Local _ => true | OutOnly t | InOnly t | Offset t _ => is_local t | _ => false end.
Fixpoint is_out (t : arg) : bool :=
  match t with OutOnly _ => true | Local t | InOnly t | Offset t _ => is_out t | _ => false end.
Fixpoint is_in (t : arg) : bool :=
  match t with InOnly _ => true | Local t | OutOnly t | Offset t _ => is_in t | _ => false end.
(** The innermost offset *)
Fixpoint offset_of (t : arg) : option Z :=
  match t with
  | Offset t o => match offset_of t with Some i => Some i | None => Some o end
  | Local t | OutOnly t | InOnly t => offset_of t
  | _ => None
  end.

(** The parameter an argument stands for, or why it is refused. *)
Definition encode (t : arg) : arg_error + PEParameter :=
  match core t with
  | Value sz v =>
      if sz =? 4 then inr (Single32 (u32 v))
      else if sz =? 8 then inr (Single64 (u64 v))
      else inl (if 8 <? sz then LargeArgument else SmallArgument)
  | WrappedPointer p sz =>
      let x := mk_transfer (mk_slice p sz) (negb (is_in t)) (negb (is_out t)) true in
      inr (if is_local t then DataTransferLocal x (offset_of t) else DataTransferAlloc x default_memory (offset_of t))
  | VirtualAddr p => inr (VirtualAddress p)
  | InputStream p sz => inr (DataTransferStream (mk_slice p sz) false default_memory)
  | OutputStream p sz => inr (DataTransferStream (mk_slice p sz) true default_memory)
  | _ => inl RawPointer
  end.

(** Annotations are for buffers. *)
Definition plain (t : arg) : bool :=
  match t with Local _ | OutOnly _ | InOnly _ | Offset _ _ => false | _ => true end.
Definition well_annotated (t : arg) : Prop := plain t = true \/ exists p sz, core t = WrappedPointer p sz.

(** The parameters of the arguments up to the first that is refused. *)
Fixpoint encode_all (ts : list arg) : list PEParameter * option arg_error :=
  match ts with
  | [] => ([], None)
  | t :: ts =>
      match encode t with
      | inl e => ([], Some e)
      | inr p => let '(ps, e) := encode_all ts in (p :: ps, e)
      end
  end.

(** The arguments that need the default memory, and the ones that get into the list. *)
Definition needs_memory (t : arg) : bool :=
  match core t with
  | WrappedPointer _ _ => negb (is_local t)
  | InputStream _ _ | OutputStream _ _ => true
  | _ => false
  end.
Definition kept (ok : bool) (ts : list arg) : list arg :=
  if ok then ts else base.filter (fun t => needs_memory t = false) ts.

(** ** Theorems *)

(** The object with the parameters [ps] and no flag set. *)
Definition fresh (d : Z) (ok : bool) (ps : list PEParameter) : JobArgumentList :=
  mk_jal d ok (Some ps) true true true false false 0 NO_ADDRESS.

(** A buffer takes the flags that were set before it and its own annotations. *)
Lemma set_arg_buffer (t : arg) (a : JobArgumentList) (ps : list PEParameter) (p sz : Z) :
  core t = WrappedPointer p sz -> list_inner a = Some ps -> device a <> 0 -> jl_deviceaddress a = NO_ADDRESS ->
  let fixed := match offset_of t with Some o => Some o | None => if jl_offset_used a then Some (jl_offset a) else None end in
  let x := mk_transfer (mk_slice p sz) (jl_from_device a && negb (is_in t)) (jl_to_device a && negb (is_out t)) (jl_free a) in
  set_arg t a = inr (reset_state (set_list (Some (ps ++
    if jl_local a || is_local t then [DataTransferLocal x fixed]
    else if has_memory a then [DataTransferAlloc x default_memory fixed] else [])) a)).
Proof.
  revert a. induction t as [| |t IH|t IH|t IH|t IH off| | | |]; intros a Hc Hl Hd Hn; simpl in *; try discriminate.
  - rewrite (IH (set_local a)) by done. simpl. by rewrite orb_true_r.
  - rewrite (IH (unset_to_device a)) by done. simpl. by rewrite andb_false_r.
  - rewrite (IH (unset_from_device a)) by done. simpl. by rewrite andb_false_r.
  - rewrite (IH (set_offset off a)) by done. simpl. by destruct (offset_of t).
  - injection Hc as -> ->. unfold memop. rewrite Hn, Z.eqb_refl, Hl. simpl. rewrite !andb_true_r, orb_false_r.
    unfold tapasco_job_param_local, tapasco_job_param_alloc. rewrite (proj2 (Z.eqb_neq _ _) Hd).
    destruct (jl_local a), (has_memory a); simpl; by rewrite ?app_nil_r.
Qed.

Lemma set_arg_encode (t : arg) (d : Z) (ok : bool) (ps : list PEParameter) :
  d <> 0 -> well_annotated t ->
  set_arg t (fresh d ok ps) =
    if negb ok && needs_memory t then inr (fresh d ok ps)
    else match encode t with inl e => inl (e, fresh d ok ps) | inr p => inr (fresh d ok (ps ++ [p])) end.
Proof.
  intros Hd [Hw|(p & sz & Hw)].
  - unfold encode, needs_memory. destruct t; try discriminate; simpl; rewrite ?andb_false_r, ?andb_true_r; try done.
    + rewrite Z.gtb_ltb. by zcases.
    + unfold memop. simpl. unfold tapasco_job_param_alloc. rewrite (proj2 (Z.eqb_neq _ _) Hd). by destruct ok.
    + by destruct ok.
    + by destruct ok.
  - rewrite (set_arg_buffer t _ ps p sz) by done. unfold encode, needs_memory. rewrite Hw. simpl.
    destruct (is_local t), ok, (offset_of t); simpl; by rewrite ?app_nil_r.
Qed.

Lemma kept_cons (ok : bool) (t : arg) (ts : list arg) :
  kept ok (t :: ts) = if negb ok && needs_memory t then kept ok ts else t :: kept ok ts.
Proof. destruct ok; [done|]. simpl. rewrite filter_cons. by destruct (needs_memory t). Qed.

Lemma set_args_encode (d : Z) (ok : bool) (ts : list arg) (ps0 : list PEParameter) :
  d <> 0 -> Forall well_annotated ts ->
  set_args ts (fresh d ok ps0) = match encode_all (kept ok ts) with
                                 | (ps, None) => inr (fresh d ok (ps0 ++ ps))
                                 | (ps, Some e) => inl (e, fresh d ok (ps0 ++ ps))
                                 end.
Proof.
  intros Hd Hts. revert ps0. induction Hts as [|t ts Ht Hts IH]; intros ps0.
  { by destruct ok; simpl; rewrite app_nil_r. }
  rewrite kept_cons. simpl. rewrite set_arg_encode by done. destruct (negb ok && needs_memory t); [apply IH|].
  simpl. destruct (encode t) as [e|p]; [by rewrite app_nil_r|].
  rewrite IH. destruct (encode_all (kept ok ts)) as [ps [e|]]; by rewrite <- app_assoc.
Qed.

(** The arguments of one launch *)
Lemma launch_arguments (d : Z) (ok : bool) (ts : list arg) :
  d <> 0 -> Forall well_annotated ts ->
  exists a0, make_list d ok = inr a0 /\
    set_args ts a0 = match encode_all (kept ok ts) with
                     | (ps, None) => inr (fresh d ok ps)
                     | (ps, Some e) => inl (e, fresh d ok ps)
                     end.
Proof. intros Hd Hts. exists (fresh d ok []). split; [done|]. by apply (set_args_encode d ok ts []). Qed.

(** The parameter has the type that the argument asks for. *)
Definition has_type (t : arg) (p : PEParameter) : Prop :=
  match core t, p with
  | Value sz _, Single32 v => sz = 4 /\ 0 <= v < 2 ^ 32
  | Value sz _, Single64 v => sz = 8 /\ 0 <= v < 2 ^ 64
  | WrappedPointer q n, DataTransferLocal x _ => is_local t = true /\ data x = mk_slice q n
  | WrappedPointer q n, DataTransferAlloc x _ _ => is_local t = false /\ data x = mk_slice q n
  | VirtualAddr q, VirtualAddress v => v = q
  | InputStream q n, DataTransferStream x c2h _ => x = mk_slice q n /\ c2h = false
  | OutputStream q n, DataTransferStream x c2h _ => x = mk_slice q n /\ c2h = true
  | _, _ => False
  end.

Lemma encode_has_type (t : arg) (p : PEParameter) : encode t = inr p -> has_type t p.
Proof.
  unfold encode, has_type. destruct (core t); try done; try (by intros [= <-]).
  - destruct (Z.eqb_spec sz 4); [intros [= <-]; split; [done|]; by apply Z.mod_pos_bound|].
    destruct (Z.eqb_spec sz 8); [intros [= <-]; split; [done|]; by apply Z.mod_pos_bound|done].
  - intros [= <-]. by destruct (is_local t).
Qed.

Lemma encode_all_types (ts : list arg) (ps : list PEParameter) (e : option arg_error) :
  encode_all ts = (ps, e) -> Forall2 has_type (take (length ps) ts) ps /\ (e = None <-> length ps = length ts).
Proof.
  revert ps e. induction ts as [|t ts IH]; intros ps e; simpl; [by intros [= <- <-]|].
  destruct (encode t) as [e'|p] eqn:Hp; [by intros [= <- <-]|].
  destruct (encode_all ts) as [ps' e'] eqn:He. intros [= <- <-]. destruct (IH ps' e' eq_refl) as [H1 H2]. split.
  - constructor; [by apply encode_has_type|done].
  - rewrite H2. simpl. lia.
Qed.

(** C36: The arguments of a launch, when the device pointer is not null and annotations
    (InOnly, OutOnly, Local, Offset) are only put around buffers.  (Around an integer they
    are kept and change the next buffer, see [annotation_leaks].)  If the device has a
    default memory, which Device::default_memory always says, every argument up to the first
    that is refused becomes, in its place, a parameter of the type that its C++ type and
    annotations ask for: an integer one of its own width, a buffer a transfer with the
    directions, the memory and the address of its annotations, streams and virtual addresses
    their own.  The first argument that has no such parameter raises the exception for it,
    with the arguments before it in the list.  If default_memory fails, ffi.rs drops the
    streams and the buffers that are not local, without an exception, and the others are
    encoded in the same way.  Afterwards no flag is set. *)
Theorem arguments_encoded (d : Z) (ok : bool) (ts : list arg) :
  d <> 0 -> Forall well_annotated ts ->
  exists a0 ps e, make_list d ok = inr a0 /\ encode_all (kept ok ts) = (ps, e) /\
    set_args ts a0 = match e with None => inr (fresh d ok ps) | Some e => inl (e, fresh d ok ps) end /\
    Forall2 has_type (take (length ps) (kept ok ts)) ps /\ (e = None <-> length ps = length (kept ok ts)).
Proof.
  intros Hd Hts. destruct (launch_arguments d ok ts Hd Hts) as (a0 & Ha0 & Hset).
  destruct (encode_all (kept ok ts)) as [ps e] eqn:He. exists a0, ps, e. split; [done|]. split; [done|].
  split; [by destruct e|by apply encode_all_types].
Qed.

Example arguments_encoded_witness :
  let ts := [Value 4 (-1); InOnly (Local (WrappedPointer 4096 64)); WrappedPointer 8192 64; Value 1 3] in
  exists a0 ps e, make_list 1 true = inr a0 /\ encode_all ts = (ps, e) /\
    set_args ts a0 = match e with None => inr (fresh 1 true ps) | Some e => inl (e, fresh 1 true ps) end /\
    Forall2 has_type (take (length ps) ts) ps /\ (e = None <-> length ps = length ts).
Proof.
  intros ts. apply (arguments_encoded 1 true ts); [lia|].
  constructor; [by left|]. constructor; [right; by exists 4096, 64|]. do 2 (constructor; [by left|]). constructor.
Defined.

(** The parameters of that example *)
Example demo_arguments :
  encode_all [Value 4 (-1); InOnly (Local (WrappedPointer 4096 64)); WrappedPointer 8192 64; Value 1 3]
  = ([Single32 4294967295; DataTransferLocal (mk_transfer (mk_slice 4096 64) false true true) None;
      DataTransferAlloc (mk_transfer (mk_slice 8192 64) true true true) 0 None], Some SmallArgument).
Proof. done. Qed.

(** Nothing sets the device address, so a buffer is never taken as one that is already on
    the device. *)
Corollary no_preallocated (ts : list arg) :
  Forall (fun p => match p with DataTransferPrealloc _ _ _ | DeviceAddress _ => False | _ => True end) (fst (encode_all ts)).
Proof.
  induction ts as [|t ts IH]; simpl; [constructor|]. destruct (encode t) as [e|p] eqn:He; [constructor|].
  destruct (encode_all ts) as [ps e]. constructor; [|done]. unfold encode in He.
  destruct (core t); simplify_eq/=; try done; [|by destruct (is_local t)]. by repeat case_match; simplify_eq/=.
Qed.

(** An annotation around an integer stays set and applies to the next buffer, which is then
    not copied back. *)
Example annotation_leaks (d : Z) :
  exists a0, make_list d true = inr a0 /\
    match set_args [InOnly (Value 4 7); WrappedPointer 4096 64] a0 with
    | inr a => d = 0 \/ list_inner a = Some [Single32 7; DataTransferAlloc (mk_transfer (mk_slice 4096 64) false true true) 0 None]
    | inl _ => False
    end.
Proof. eexists. split; [done|]. simpl. destruct (Z.eqb_spec d 0); [by left|right]. unfold memop. simpl. unfold tapasco_job_param_alloc. by rewrite (proj2 (Z.eqb_neq _ _)). Qed.

End UserArgs.
