(* ===== verification/UserJob.v ===== *)
(** * Running a job (libtapasco: src/job.rs, src/pe.rs, Scheduler of src/scheduler.rs)

    Job::start turns the parameters of a job into register values: memory of the card is
    allocated for the buffers, their contents are copied to it, streams are set up, the
    registers of the processing element are written and at last it is started.
    Job::release waits for it, reads the return value, hands the processing element back to
    the scheduler, copies results to the program's buffers and frees the memory.

    The memory of the program is [host], that of the card [dmem]; a buffer is a slice of
    [host] (the library makes a Box of the program's pointer).  DMA transfers, interrupts
    and register accesses are calls; allocators are any that keep the laws of UserAlloc.v.
    A lock is never poisoned. *)
From S2P Require Import Prelude Kernel UserAlloc UserArgs.

Module UserJob.
Import Kernel UserArgs.
Import UserAlloc(segment, mk_seg, base, size, apart, before, Allocator, AllocatorLaws, al_allocate, al_allocate_fixed, al_free,
  al_ok, al_used, law_allocate, law_allocate_fixed, law_free, sorted_app).
#[local] Open Scope prog_scope.

(** ** Data *)

(** enum CopyBack: what is to be done when the processing element has finished *)
Inductive CopyBack :=
| Transfer (x : transfer) (device_address : Z) (memory : nat)
| Free (addr : Z) (memory : nat)
| Stream (data : slice) (c2h : bool) (memory : nat)
| Return (x : transfer) (device_address : Z) (memory : nat).

Record PE := mk_pe {
  id : Z;
  type_id : Z;
  offset : Z;
  active : bool;
  copy_back : option (list CopyBack);
  local_memory : option nat;
  svm_in_use : bool
}.

Definition set_active (b : bool) (p : PE) : PE :=
  mk_pe (id p) (type_id p) (offset p) b (copy_back p) (local_memory p) (svm_in_use p).
Definition set_copy_back (c : option (list CopyBack)) (p : PE) : PE :=
  mk_pe (id p) (type_id p) (offset p) (active p) c (local_memory p) (svm_in_use p).

Definition add_copyback (param : CopyBack) (p : PE) : PE :=
  set_copy_back (Some (match copy_back p with Some l => l | None => [] end ++ [param])) p.

(** The errors of a job, of its processing element and of the scheduler *)
Inductive JobError :=
| AllocatorError (e : UserAlloc.Error)
| DMAError
| UnsupportedRegisterParameter
| UnsupportedSVMParameter
| TooManyStreams
| NoLocalMemory
| NoPEtoRelease
| PEAlreadyActive
| UnsupportedParameter
| ErrorInterrupt
| PEStillActive
| NoSuchPE.

Record Job := mk_job { pe : option PE }.

(** ** Registers *)

(** ValType: the value of a register access of 32 or of 64 bits *)
Inductive ValType := U32 (v : Z) | U64 (v : Z).

#[export] Instance val_type_eq_dec : EqDecision ValType.
Proof. solve_decision. Defined.

(** The registers are 32 bit words at their offsets; an access of 64 bits takes two of them,
    the low half first (tapasco_write_volatile, tapasco_read_volatile on mapped memory). *)
Definition write_words (w : ValType) (off : Z) (r : Z -> Z) : Z -> Z :=
  match w with
  | U32 v => fun o => if o =? off then v mod 2 ^ 32 else r o
  | U64 v => fun o => if o =? off then v mod 2 ^ 32 else if o =? off + 4 then (v / 2 ^ 32) mod 2 ^ 32 else r o
  end.
Definition read_words (r : Z -> Z) (off : Z) (u_32 : bool) : Z :=
  if u_32 then r off else r off + 2 ^ 32 * r (off + 4).

(** ** State and calls *)
Section Run.
Context {A : Type} `{Allocator A}.

Record rt := mk_rt {
  host : Z -> Z;
  dmem : nat -> Z -> Z;
  alloc : nat -> A;
  (* the registers of the bitstream, by words *)
  regs : Z -> Z;
  (* the processing element that was started last, with the registers and the memory of
     the card at that moment *)
  started : option (Z * (Z -> Z) * (nat -> Z -> Z));
  (* the scheduler: for each type the idle processing elements *)
  pes : Z -> option (list PE);
  (* buffers of the program that the library has freed *)
  dropped : list slice
}.

Definition set_host (h : Z -> Z) (s : rt) := mk_rt h (dmem s) (alloc s) (regs s) (started s) (pes s) (dropped s).
Definition set_dmem (d : nat -> Z -> Z) (s : rt) := mk_rt (host s) d (alloc s) (regs s) (started s) (pes s) (dropped s).
Definition set_alloc (m : nat) (a : A) (s : rt) :=
  mk_rt (host s) (dmem s) (fun n => if decide (n = m) then a else alloc s n) (regs s) (started s) (pes s) (dropped s).
Definition set_regs (r : Z -> Z) (st : option (Z * (Z -> Z) * (nat -> Z -> Z))) (s : rt) :=
  mk_rt (host s) (dmem s) (alloc s) r st (pes s) (dropped s).
Definition set_pes (q : Z -> option (list PE)) (s : rt) :=
  mk_rt (host s) (dmem s) (alloc s) (regs s) (started s) q (dropped s).
Definition add_dropped (l : list slice) (s : rt) :=
  mk_rt (host s) (dmem s) (alloc s) (regs s) (started s) (pes s) (dropped s ++ l).

Inductive rtE : Type -> Type :=
(* an operation on the library's own data *)
| atomically (X : Type) (f : rt -> X * rt) : rtE X
| write_volatile (off : Z) (value : ValType) : rtE unit
| read_volatile (off : Z) (u_32 : bool) : rtE Z
(* dma(): false is an error *)
| copy_to (memory : nat) (data : slice) (addr : Z) : rtE bool
| copy_from (memory : nat) (addr : Z) (data : slice) : rtE bool
(* a thread that streams a buffer, and its end *)
| spawn_stream (data : slice) (c2h : bool) : rtE unit
| join_stream (data : slice) (c2h : bool) : rtE bool
(* the interrupt of a processing element: an error, or how often it has come *)
| wait_for_interrupt : rtE bool
| check_for_interrupt : rtE (option Z).

Definition drop_boxes (l : list slice) : prog rtE unit := call (atomically unit (fun s => (tt, add_dropped l s))).

(** The buffers in parameters *)
Definition datas_of (p : PEParameter) : list slice :=
  match p with
  | DataTransferLocal x _ | DataTransferAlloc x _ _ | DataTransferPrealloc x _ _ => [data x]
  | DataTransferStream d _ _ => [d]
  | _ => []
  end.
Definition datas (ps : list PEParameter) : list slice := flat_map datas_of ps.
Definition cb_data (c : CopyBack) : list slice :=
  match c with Transfer x _ _ | Return x _ _ => [data x] | Stream d _ _ => [d] | Free _ _ => [] end.
Definition cb_datas (l : list CopyBack) : list slice := flat_map cb_data l.

(** ** pe.rs *)

Definition arg_offset (p : PE) (argn : nat) : Z := offset p + 0x20 + Z.of_nat argn * 0x10.

Definition set_register (p : PE) (argn : nat) (arg : PEParameter) : prog rtE (result JobError unit) :=
  match arg with
  | Single32 x => call (write_volatile (arg_offset p argn) (U32 x));;; Ret (Ok tt)
  | Single64 x => call (write_volatile (arg_offset p argn) (U64 x));;; Ret (Ok tt)
  | _ => Ret (Err UnsupportedParameter)
  end.

Definition pe_start (p : PE) : prog rtE (PE * result JobError unit) :=
  if active p then Ret (p, Err PEAlreadyActive) else
  call (write_volatile (offset p) (U32 1));;; Ret (set_active true p, Ok tt).

Definition reset_interrupt (p : PE) (v : bool) : prog rtE unit :=
  call (write_volatile (offset p + 0x0c) (U32 (if v then 1 else 0)));;;
  call (read_volatile (offset p + 0x0c) true);;; Ret tt.

Definition wait_for_completion (p : PE) : prog rtE (PE * result JobError unit) :=
  if active p then
    let! ok := call wait_for_interrupt in
    if negb ok then Ret (p, Err ErrorInterrupt) else
    let p := set_active false p in
    reset_interrupt p true;;; Ret (p, Ok tt)
  else Ret (p, Ok tt).

Definition check_for_completion (p : PE) : prog rtE (PE * result JobError bool) :=
  if active p then
    let! r := call check_for_interrupt in
    match r with
    | None => Ret (p, Err ErrorInterrupt)
    | Some r =>
        if r =? 0 then Ret (p, Ok false) else
        let p := set_active false p in
        reset_interrupt p true;;; Ret (p, Ok true)
    end
  else Ret (p, Ok true).

Definition return_value (p : PE) : prog rtE Z := call (read_volatile (offset p + 0x10) false).

Definition get_copyback (p : PE) : PE * option (list CopyBack) := (set_copy_back None p, copy_back p).

Definition finished (p : PE) (ret : bool) : prog rtE (PE * (Z * option (list CopyBack))) :=
  let! rv := if ret then return_value p else Ret 0 in
  let '(p, c) := get_copyback p in Ret (p, (rv, c)).

Definition pe_release (p : PE) (ret : bool) : prog rtE (PE * result JobError (Z * option (list CopyBack))) :=
  let! pr := wait_for_completion p in
  let '(p, r) := pr in
  match r with
  | Err e => Ret (p, Err e)
  | Ok _ => let! pc := finished p ret in Ret (fst pc, Ok (snd pc))
  end.

Definition pe_try_release (p : PE) (ret : bool)
    : prog rtE (PE * result JobError (option (Z * option (list CopyBack)))) :=
  let! pr := check_for_completion p in
  let '(p, r) := pr in
  match r with
  | Err e => Ret (p, Err e)
  | Ok false => Ret (p, Ok None)
  | Ok true => let! pc := finished p ret in Ret (fst pc, Ok (Some (snd pc)))
  end.

(** ** scheduler.rs *)

(** Scheduler::release_pe; a processing element that is refused is lost. *)
Definition release_pe (p : PE) : prog rtE (result JobError unit) :=
  if active p then Ret (Err PEStillActive) else
  call (atomically _ (fun s =>
    match pes s (type_id p) with
    | Some q => (Ok tt, set_pes (fun t => if t =? type_id p then Some (q ++ [p]) else pes s t) s)
    | None => (Err NoSuchPE, s)
    end)).

(** One attempt of Scheduler::do_acquire_pe: the outer option is its error. *)
Definition try_steal (ty : Z) : prog rtE (option (option PE)) :=
  call (atomically _ (fun s =>
    match pes s ty with
    | None => (None, s)
    | Some [] => (Some None, s)
    | Some (p :: q) => (Some (Some p), set_pes (fun t => if t =? ty then Some q else pes s t) s)
    end)).

(** ** job.rs *)

Definition handle_local_memory (p : PE) (arg : PEParameter) : result JobError PEParameter :=
  match arg with
  | DataTransferLocal x fixed =>
      match local_memory p with
      | Some m => Ok (DataTransferAlloc x m fixed)
      | None => Err NoLocalMemory
      end
  | _ => Ok arg
  end.

Fixpoint handle_local_memories (p : PE) (args : list PEParameter) : result JobError (list PEParameter) :=
  match args with
  | [] => Ok []
  | arg :: args =>
      match handle_local_memory p arg with
      | Err e => Err e
      | Ok q => match handle_local_memories p args with Ok qs => Ok (q :: qs) | Err e => Err e end
      end
  end.

Definition on_allocator {X} (m : nat) (f : A -> X * A) : prog rtE X :=
  call (atomically X (fun s => let '(x, a) := f (alloc s m) in (x, set_alloc m a s))).

Definition handle_allocate (p : PE) (arg : PEParameter) : prog rtE (result JobError PEParameter) :=
  match arg with
  | DataTransferAlloc x m fixed =>
      if svm_in_use p then Ret (Ok (DataTransferPrealloc x (ptr (data x)) m)) else
      let! r := on_allocator m (fun a =>
        match fixed with
        | Some offset => al_allocate_fixed a (len (data x)) offset
        | None => al_allocate a (len (data x)) (Some (ptr (data x)))
        end) in
      match r with
      | Ok addr => Ret (Ok (DataTransferPrealloc x addr m))
      | Err e => Ret (Err (AllocatorError e))
      end
  | _ => Ret (Ok arg)
  end.

Fixpoint handle_allocates (p : PE) (args : list PEParameter) : prog rtE (result JobError (list PEParameter)) :=
  match args with
  | [] => Ret (Ok [])
  | arg :: args =>
      let! r := handle_allocate p arg in
      match r with
      | Err e => Ret (Err e)
      | Ok q =>
          let! rs := handle_allocates p args in
          match rs with Ok qs => Ret (Ok (q :: qs)) | Err e => Ret (Err e) end
      end
  end.

(** What is to be done with a buffer after the job, and whether it stays with the job *)
Definition copy_back_of (p : PE) (x : transfer) (addr : Z) (m : nat) : option CopyBack * bool :=
  if svm_in_use p && negb (from_device x) then (Some (Return x addr m), true)
  else if from_device x then (Some (Transfer x addr m), true)
  else (if free x then Some (Free addr m) else None, false).

Fixpoint handle_transfers_to_device (p : PE) (args xs : list PEParameter) (unused_mem : list slice)
    : prog rtE (PE * result JobError (list PEParameter * list slice)) :=
  match args with
  | [] => Ret (p, Ok (xs, unused_mem))
  | DataTransferPrealloc x addr m as arg :: args' =>
      let! ok := if to_device x then call (copy_to m (data x) addr) else Ret true in
      if negb ok then drop_boxes (unused_mem ++ datas xs ++ datas args);;; Ret (p, Err DMAError) else
      let '(c, keeps) := copy_back_of p x addr m in
      handle_transfers_to_device (match c with Some c => add_copyback c p | None => p end) args'
        (xs ++ [DeviceAddress addr]) (if keeps then unused_mem else unused_mem ++ [data x])
  | arg :: args' => handle_transfers_to_device p args' (xs ++ [arg]) unused_mem
  end.

Fixpoint handle_stream_transfers (p : PE) (args v : list PEParameter) (first_c2h_stream first_h2c_stream : bool)
    : prog rtE (PE * result JobError (list PEParameter)) :=
  match args with
  | [] => Ret (p, Ok v)
  | DataTransferStream d c2h m :: args' =>
      if negb (if c2h then first_c2h_stream else first_h2c_stream)
      then drop_boxes (datas v ++ datas args);;; Ret (p, Err TooManyStreams)
      else
        call (spawn_stream d c2h);;;
        handle_stream_transfers (add_copyback (Stream d c2h m) p) args' v
          (first_c2h_stream && negb c2h) (first_h2c_stream && c2h)
  | arg :: args' => handle_stream_transfers p args' (v ++ [arg]) first_c2h_stream first_h2c_stream
  end.

Fixpoint set_registers (p : PE) (i : nat) (args : list PEParameter) : prog rtE (result JobError unit) :=
  match args with
  | [] => Ret (Ok tt)
  | arg :: args =>
      let! r :=
        match arg with
        | Single32 _ | Single64 _ => set_register p i arg
        | DeviceAddress x => set_register p i (Single64 x)
        | VirtualAddress x => if svm_in_use p then set_register p i (Single64 x) else Ret (Err UnsupportedSVMParameter)
        | _ => Ret (Err UnsupportedRegisterParameter)
        end in
      match r with Err e => Ret (Err e) | Ok _ => set_registers p (S i) args end
  end.

(** The end of Job::start: the registers are written, the processing element is started. *)
Definition finish_start (p : PE) (trans_args : list PEParameter) (unused_mem : list slice)
    : prog rtE (PE * result JobError (list slice)) :=
  let! r := set_registers p 0 trans_args in
  match r with
  | Err e => drop_boxes unused_mem;;; Ret (p, Err e)
  | Ok _ =>
      let! pr := pe_start p in
      let '(p, r) := pr in
      match r with
      | Err e => drop_boxes unused_mem;;; Ret (p, Err e)
      | Ok _ => Ret (p, Ok unused_mem)
      end
  end.

(** Job::start on the processing element of the job *)
Definition start (p : PE) (args : list PEParameter) : prog rtE (PE * result JobError (list slice)) :=
  match handle_local_memories p args with
  | Err e => drop_boxes (datas args);;; Ret (p, Err e)
  | Ok alloc_args =>
  let! r := handle_allocates p alloc_args in
  match r with
  | Err e => drop_boxes (datas alloc_args);;; Ret (p, Err e)
  | Ok local_args =>
  let! pr := handle_transfers_to_device p local_args [] [] in
  let '(p, r) := pr in
  match r with
  | Err e => Ret (p, Err e)
  | Ok (trans_args, unused_mem) =>
  let! pr := handle_stream_transfers p trans_args [] true true in
  let '(p, r) := pr in
  match r with
  | Err e => drop_boxes unused_mem;;; Ret (p, Err e)
  | Ok trans_args => finish_start p trans_args unused_mem
  end end end end.

Definition free_block (m : nat) (addr : Z) : prog rtE (result UserAlloc.Error unit) :=
  on_allocator m (fun a => al_free a addr).

Fixpoint handle_copyback (copybacks : list CopyBack) (res : list slice) : prog rtE (result JobError (list slice)) :=
  match copybacks with
  | [] => Ret (Ok res)
  | Transfer x addr m as c :: cs =>
      let! ok := call (copy_from m addr (data x)) in
      if negb ok then drop_boxes (res ++ cb_datas (c :: cs));;; Ret (Err DMAError) else
      let! r := if free x then free_block m addr else Ret (Ok tt) in
      match r with
      | Err e => drop_boxes (res ++ cb_datas (c :: cs));;; Ret (Err (AllocatorError e))
      | Ok _ => handle_copyback cs (res ++ [data x])
      end
  | Free addr m :: cs =>
      let! r := free_block m addr in
      match r with
      | Err e => drop_boxes (res ++ cb_datas cs);;; Ret (Err (AllocatorError e))
      | Ok _ => handle_copyback cs res
      end
  | Stream d c2h m :: cs =>
      let! ok := call (join_stream d c2h) in
      if negb ok then drop_boxes (res ++ d :: cb_datas cs);;; Ret (Err DMAError) else
      handle_copyback cs (res ++ [d])
  | Return x _ _ :: cs => handle_copyback cs (res ++ [data x])
  end.

Definition copyback_all (rv : Z) (copyback : option (list CopyBack)) : prog rtE (result JobError (Z * list slice)) :=
  match copyback with
  | Some copybacks =>
      let! r := handle_copyback copybacks [] in
      match r with Ok res => Ret (Ok (rv, res)) | Err e => Ret (Err e) end
  | None => Ret (Ok (rv, []))
  end.

(** The end of release and try_release *)
Definition give_back (p : PE) (release : bool) (rv : Z) (copyback : option (list CopyBack))
    : prog rtE (Job * result JobError (Z * list slice)) :=
  if release then
    let! r := release_pe p in
    match r with
    | Err e => drop_boxes (match copyback with Some l => cb_datas l | None => [] end);;; Ret (mk_job None, Err e)
    | Ok _ => let! r := copyback_all rv copyback in Ret (mk_job None, r)
    end
  else let! r := copyback_all rv copyback in Ret (mk_job (Some p), r).

Definition job_release (j : Job) (release ret : bool) : prog rtE (Job * result JobError (Z * list slice)) :=
  match pe j with
  | None => Ret (j, Err NoPEtoRelease)
  | Some p =>
      let! pr := pe_release p ret in
      let '(p, r) := pr in
      match r with
      | Err e => Ret (mk_job (Some p), Err e)
      | Ok (rv, copyback) => give_back p release rv copyback
      end
  end.

Definition job_try_release (j : Job) (release ret : bool) : prog rtE (Job * result JobError (option (Z * list slice))) :=
  match pe j with
  | None => Ret (j, Err NoPEtoRelease)
  | Some p =>
      let! pr := pe_try_release p ret in
      let '(p, r) := pr in
      match r with
      | Err e => Ret (mk_job (Some p), Err e)
      | Ok None => Ret (mk_job (Some p), Ok None)
      | Ok (Some (rv, copyback)) =>
          let! jr := give_back p release rv copyback in
          Ret (fst jr, match snd jr with Ok x => Ok (Some x) | Err e => Err e end)
      end
  end.
End Run.
End UserJob.
