(* ===== verification/UserRun.v ===== *)
(** * What running a job does (theorems on UserJob.v)

    The model of the calls of UserJob.v, and the theorem that a job runs on the arguments it
    was given, returns the results, and leaves no trace on the card. *)
From S2P Require Import Prelude Kernel UserAlloc UserArgs UserJob.

Module UserRun.
Import Kernel UserArgs UserJob.
Import UserAlloc(segment, mk_seg, base, size, apart, before, Allocator, AllocatorLaws, al_allocate, al_allocate_fixed, al_free,
  al_ok, al_used, law_allocate, law_allocate_fixed, law_free, sorted_app).
#[local] Open Scope prog_scope.

Definition in_slice (y : Z) (d : slice) : Prop := ptr d <= y < ptr d + len d.

Section Model.
Context {A : Type} `{Laws : AllocatorLaws A}.
(** The registers that start a processing element *)
Variable controls : list Z.

(** The block of at least [n] bytes at [addr] is allocated. *)
Definition reserved (s : @rt A) (m : nat) (addr n : Z) : Prop :=
  exists b, b ∈ al_used (alloc s m) /\ base b = addr /\ n <= size b.

(** Memory is read and written by DMA only where it is allocated. *)
Definition rt_pre (X : Type) (e : @rtE A X) (s : @rt A) : Prop :=
  match e with
  | copy_to m d addr => reserved s m addr (len d)
  | copy_from m addr d => reserved s m addr (len d)
  | _ => True
  end.

Definition region (m : nat) (addr n : Z) (m' : nat) (y : Z) : Prop := m' = m /\ addr <= y < addr + n.

Definition rt_post (X : Type) (e : @rtE A X) (s : @rt A) : X -> @rt A -> Prop :=
  match e in rtE X return X -> rt -> Prop with
  | atomically X f => fun x s' => f s = (x, s')
  | write_volatile off v => fun _ s' =>
      s' = set_regs (write_words v off (regs s))
             (if bool_decide (off ∈ controls /\ v = U32 1) then Some (off, regs s, dmem s) else started s) s
  | read_volatile off u_32 => fun x s' => x = read_words (regs s) off u_32 /\ s' = s
  | copy_to m d addr => fun ok s' => exists f, s' = set_dmem f s /\
      (forall m' y, ~ region m addr (len d) m' y -> f m' y = dmem s m' y) /\
      (ok = true -> forall k, 0 <= k < len d -> f m (addr + k) = host s (ptr d + k))
  | copy_from m addr d => fun ok s' => exists h, s' = set_host h s /\
      (forall y, ~ in_slice y d -> h y = host s y) /\
      (ok = true -> forall k, 0 <= k < len d -> h (ptr d + k) = dmem s m (addr + k))
  | spawn_stream d c2h => fun _ s' => s' = s
  | join_stream d c2h => fun _ s' => exists h, s' = set_host h s /\ forall y, c2h = false \/ ~ in_slice y d -> h y = host s y
  (* the processing element has worked on memory and registers *)
  | wait_for_interrupt => fun _ s' => exists f r, s' = set_dmem f (set_regs r (started s) s)
  | check_for_interrupt => fun _ s' => exists f r, s' = set_dmem f (set_regs r (started s) s)
  end.

Definition rt_model : @model rtE rt := {| pre := rt_pre; post := rt_post |}.

Lemma wp_atomically {X} (f : rt -> X * rt) (s : rt) (Q : X -> rt -> Prop) :
  Q (fst (f s)) (snd (f s)) -> wp rt_model (call (atomically X f)) s Q.
Proof. intros HQ. apply wp_call; [done|]. simpl. intros x s' Hf. by rewrite Hf in HQ. Qed.

Lemma wp_drop_boxes (l : list slice) (s : rt) (Q : unit -> rt -> Prop) :
  Q tt (add_dropped l s) -> wp rt_model (drop_boxes l) s Q.
Proof. intros HQ. by apply wp_atomically. Qed.

Lemma wp_write (off : Z) (v : ValType) (s : rt) (Q : unit -> rt -> Prop) :
  Q tt (set_regs (write_words v off (regs s))
         (if bool_decide (off ∈ controls /\ v = U32 1) then Some (off, regs s, dmem s) else started s) s) ->
  wp rt_model (call (write_volatile off v)) s Q.
Proof. intros HQ. apply wp_call; [done|]. by intros [] s' ->. Qed.

(** ** Allocation *)

Definition all_ok (s : @rt A) : Prop := forall m, al_ok (alloc s m).

(** Blocks in the memories *)
Definition blocks_in (m : nat) (bs : list (nat * segment)) : list segment :=
  flat_map (fun b => if decide (b.1 = m) then [b.2] else []) bs.
Definition bapart (b c : nat * segment) : Prop := b.1 <> c.1 \/ apart b.2 c.2.

Definition set_allocs (al : nat -> A) (s : @rt A) : @rt A :=
  mk_rt (host s) (dmem s) al (regs s) (started s) (pes s) (dropped s).

(** The blocks [bs] have been allocated, apart from each other and from those in use. *)
Definition gained (s s' : @rt A) (bs : list (nat * segment)) : Prop :=
  s' = set_allocs (alloc s') s /\ all_ok s' /\
  (forall m, Permutation (al_used (alloc s' m)) (blocks_in m bs ++ al_used (alloc s m))) /\
  StronglySorted bapart bs /\ (forall m b c, (m, b) ∈ bs -> c ∈ al_used (alloc s m) -> apart c b).

(** Buffers become transfers to a block. *)
Inductive placed : list PEParameter -> list PEParameter -> list (nat * segment) -> Prop :=
| placed_nil : placed [] [] []
| placed_alloc x m fixed b args ps bs :
    len (data x) <= size b -> placed args ps bs ->
    placed (DataTransferAlloc x m fixed :: args) (DataTransferPrealloc x (base b) m :: ps) ((m, b) :: bs)
| placed_other p args ps bs :
    (match p with DataTransferAlloc _ _ _ => False | _ => True end) -> placed args ps bs ->
    placed (p :: args) (p :: ps) bs.

(** Buffers have a length a slice can have, none is on the device already, and all are to be
    freed after the job (as JobArgumentList makes them). *)
Definition arg_ok (p : PEParameter) : Prop :=
  match p with
  | DataTransferLocal x _ | DataTransferAlloc x _ _ => 0 <= len (data x) < 2 ^ 63 /\ free x = true
  | DataTransferPrealloc _ _ _ => False
  | _ => True
  end.

Lemma gained_nil (s : rt) : all_ok s -> gained s s [].
Proof.
  intros Hs. split_and!; [by destruct s|done|by intros|constructor|]. by intros m b c ?%elem_of_nil.
Qed.

Lemma blocks_in_cons (m : nat) (b : nat * segment) (bs : list (nat * segment)) :
  blocks_in m (b :: bs) = (if decide (b.1 = m) then [b.2] else []) ++ blocks_in m bs.
Proof. done. Qed.

Lemma elem_blocks_in (m : nat) (b : segment) (bs : list (nat * segment)) : b ∈ blocks_in m bs <-> (m, b) ∈ bs.
Proof.
  unfold blocks_in. rewrite list_elem_of_In, in_flat_map. split.
  - intros ([n c] & Hin%list_elem_of_In & Hc). simpl in Hc. destruct (decide (n = m)) as [->|]; [|done].
    destruct Hc as [->|[]]. done.
  - intros Hin. exists (m, b). split; [by apply list_elem_of_In|]. simpl. rewrite decide_True by done. by left.
Qed.

Lemma gained_cons (s s1 s' : rt) (m : nat) (b : segment) (bs : list (nat * segment)) :
  gained s s1 [(m, b)] -> gained s1 s' bs -> gained s s' ((m, b) :: bs).
Proof.
  intros (E1 & _ & U1 & _ & F1) (E2 & O2 & U2 & S2 & F2). split_and!.
  - rewrite E2. rewrite E1. done.
  - done.
  - intros n. rewrite U2, (U1 n), blocks_in_cons. simpl. destruct (decide (m = n)); simpl; [|done].
    symmetry. apply Permutation_middle.
  - constructor; [done|]. apply Forall_forall. intros [n c] Hc. unfold bapart. simpl.
    destruct (decide (m = n)) as [<-|]; [right|by left]. apply (F2 m); [done|].
    rewrite (U1 m). simpl. rewrite decide_True by done. left.
  - intros n c d [[= -> ->]|Hc]%elem_of_cons Hd; [apply (F1 m); [left|done]|]. apply (F2 n); [done|].
    rewrite (U1 n). apply elem_of_app. by right.
Qed.

Lemma on_allocator_spec (m : nat) (f : A -> result UserAlloc.Error Z * A) (sz : Z) (s : rt) :
  all_ok s -> UserAlloc.allocated al_ok al_used (alloc s m) sz (f (alloc s m)) ->
  wp rt_model (on_allocator m f) s (fun r s' =>
    match r with
    | Ok addr => exists b, base b = addr /\ sz <= size b /\ gained s s' [(m, b)]
    | Err _ => gained s s' []
    end).
Proof.
  intros Hs Hf. apply wp_atomically. destruct (f (alloc s m)) as [[addr|e] a']; simpl in Hf |- *.
  - destruct Hf as (Ha & b & Hb & Hsz & Hp & Hap). exists b. split_and!; [done|done|]. split_and!; simpl.
    + done.
    + intros n. simpl. destruct (decide (n = m)); [done|apply Hs].
    + intros n. destruct (decide (m = n)) as [<-|Hne]; simpl; [by rewrite decide_True by done|by rewrite decide_False by done].
    + repeat constructor.
    + intros n c d [= -> ->]%list_elem_of_singleton. apply Hap.
  - destruct Hf as [Ha Hp]. split_and!; simpl.
    + done.
    + intros n. simpl. destruct (decide (n = m)); [done|apply Hs].
    + intros n. destruct (decide (n = m)) as [->|]; [done|done].
    + constructor.
    + by intros n c d ?%elem_of_nil.
Qed.

Lemma handle_allocate_spec (p : PE) (x : transfer) (m : nat) (fixed : option Z) (s : rt) :
  svm_in_use p = false -> all_ok s -> 0 <= len (data x) < 2 ^ 63 ->
  wp rt_model (handle_allocate p (DataTransferAlloc x m fixed)) s (fun r s' =>
    match r with
    | Ok q => exists b, q = DataTransferPrealloc x (base b) m /\ len (data x) <= size b /\ gained s s' [(m, b)]
    | Err _ => gained s s' []
    end).
Proof.
  intros Hv Hs Hx. simpl. rewrite Hv. wp_seq on_allocator_spec; [done| |].
  - destruct fixed as [off|]; [by apply law_allocate_fixed|by apply law_allocate].
  - simpl. intros [addr|e] s'; [|done]. intros (b & <- & Hsz & Hg). apply wp_ret. by exists b.
Qed.

Lemma handle_allocates_spec (p : PE) (args : list PEParameter) (s : rt) :
  svm_in_use p = false -> all_ok s -> Forall arg_ok args ->
  wp rt_model (handle_allocates p args) s (fun r s' => exists bs, gained s s' bs /\
    match r with Ok ps => placed args ps bs | Err _ => True end).
Proof.
  intros Hv Hs Hargs. revert s Hs. induction Hargs as [|arg args Harg Hargs IH]; intros s Hs; simpl.
  - exists []. split; [by apply gained_nil|constructor].
  - assert (Hcase : (exists x m f, arg = DataTransferAlloc x m f) \/
      (handle_allocate p arg = Ret (Ok arg) /\ match arg with DataTransferAlloc _ _ _ => False | _ => True end)).
    { destruct arg; eauto. }
    destruct Hcase as [(x & m & f & ->)|[-> Hno]].
    + wp_seq handle_allocate_spec; [done|done|apply Harg|]. simpl. intros [q|e] s1; [|by exists []].
      intros (b & -> & Hsz & Hg). wp_seq IH; [apply Hg|].
      simpl. intros [qs|e] s2 (bs & Hg2 & Hp); (exists ((m, b) :: bs); split; [by eapply gained_cons|]); [by constructor|done].
    + apply wp_bind, wp_ret. wp_seq IH; [done|].
      simpl. intros [qs|e] s2 (bs & Hg2 & Hp); exists bs; (split; [done|]); [by apply placed_other|done].
Qed.

(** ** Transfers to the device *)

Definition address_of (q : PEParameter) : PEParameter :=
  match q with DataTransferPrealloc _ a _ => DeviceAddress a | _ => q end.
Definition cb_of (q : PEParameter) : list CopyBack :=
  match q with
  | DataTransferPrealloc x a m => if from_device x then [Transfer x a m] else if free x then [UserJob.Free a m] else []
  | _ => []
  end.
(** The buffers that are not needed after the start *)
Definition unused_of (q : PEParameter) : list slice :=
  match q with DataTransferPrealloc x _ _ => if from_device x then [] else [data x] | _ => [] end.

Definition add_copybacks (cs : list CopyBack) (p : PE) : PE := foldl (fun p c => add_copyback c p) p cs.

(** Transfers to different places *)
Definition papart (p q : PEParameter) : Prop :=
  match p, q with
  | DataTransferPrealloc x a m, DataTransferPrealloc y b n =>
      m <> n \/ a + len (data x) <= b \/ b + len (data y) <= a
  | _, _ => True
  end.

Definition all_reserved (s : @rt A) (ps : list PEParameter) : Prop :=
  forall x a m, DataTransferPrealloc x a m ∈ ps -> reserved s m a (len (data x)).

(** What is copied to the device by [ps], and nothing else *)
Definition copied (h : Z -> Z) (ps : list PEParameter) (f : nat -> Z -> Z) : Prop :=
  forall x a m, DataTransferPrealloc x a m ∈ ps -> to_device x = true ->
    forall k, 0 <= k < len (data x) -> f m (a + k) = h (ptr (data x) + k).
Definition outside (ps : list PEParameter) (f g : nat -> Z -> Z) : Prop :=
  forall n y, (forall x a m, DataTransferPrealloc x a m ∈ ps -> ~ region m a (len (data x)) n y) -> g n y = f n y.

Lemma outside_refl (ps : list PEParameter) (f : nat -> Z -> Z) : outside ps f f.
Proof. by intros n y _. Qed.

Lemma outside_tail (q : PEParameter) (ps : list PEParameter) (f g : nat -> Z -> Z) : outside ps f g -> outside (q :: ps) f g.
Proof. intros Ho n y Hn. apply Ho. intros x a m Hin. apply Hn. by right. Qed.

Lemma add_copybacks_svm (cs : list CopyBack) (p : PE) : svm_in_use (add_copybacks cs p) = svm_in_use p.
Proof. revert p. induction cs as [|c cs IH]; intros p; simpl; [done|]. by rewrite IH. Qed.

Lemma add_copybacks_active (cs : list CopyBack) (p : PE) : active (add_copybacks cs p) = active p.
Proof. revert p. induction cs as [|c cs IH]; intros p; simpl; [done|]. by rewrite IH. Qed.
Lemma add_copybacks_offset (cs : list CopyBack) (p : PE) : offset (add_copybacks cs p) = offset p.
Proof. revert p. induction cs as [|c cs IH]; intros p; simpl; [done|]. by rewrite IH. Qed.

Lemma copy_back_of_plain (p : PE) (x : transfer) (a : Z) (m : nat) :
  svm_in_use p = false ->
  let q := DataTransferPrealloc x a m in
  (match fst (copy_back_of p x a m) with Some c => add_copyback c p | None => p end) = add_copybacks (cb_of q) p /\
  forall un, (if snd (copy_back_of p x a m) then un else un ++ [data x]) = un ++ unused_of q.
Proof.
  intros Hv. unfold copy_back_of, cb_of, unused_of. rewrite Hv. simpl. destruct (from_device x), (free x); simpl; split; try done;
    intros un; by rewrite app_nil_r.
Qed.

Lemma copy_in_spec (x : transfer) (a : Z) (m : nat) (s : rt) :
  reserved s m a (len (data x)) ->
  wp rt_model (if to_device x then call (copy_to m (data x) a) else Ret true) s (fun ok s1 => exists f, s1 = set_dmem f s /\
    (forall n y, ~ region m a (len (data x)) n y -> f n y = dmem s n y) /\
    (ok = true -> to_device x = true -> forall k, 0 <= k < len (data x) -> f m (a + k) = host s (ptr (data x) + k))).
Proof.
  intros Hr. destruct (to_device x).
  - apply wp_call; [done|]. intros ok s1 (f & -> & Hf & Hok). exists f. split_and!; [done|done|]. auto.
  - apply wp_ret. exists (dmem s). split_and!; [by destruct s|done|done].
Qed.

(** A later transfer leaves an earlier one alone. *)
Lemma copied_cons (h : Z -> Z) (x : transfer) (a : Z) (m : nat) (ps : list PEParameter) (f f2 : nat -> Z -> Z) :
  (forall r, r ∈ ps -> papart (DataTransferPrealloc x a m) r) -> outside ps f f2 -> copied h ps f2 ->
  (to_device x = true -> forall k, 0 <= k < len (data x) -> f m (a + k) = h (ptr (data x) + k)) ->
  copied h (DataTransferPrealloc x a m :: ps) f2.
Proof.
  intros Hap Ho Hc Hx y b n [[= -> -> ->]|Hin]%elem_of_cons Hto k Hk; [|by apply (Hc y b n)].
  rewrite <- Hx by done. apply Ho. intros y b n Hin [-> Hreg]. specialize (Hap _ Hin). simpl in Hap. lia.
Qed.

Lemma handle_transfers_spec (p : PE) (ps xs : list PEParameter) (un : list slice) (s : rt) :
  svm_in_use p = false -> all_reserved s ps -> StronglySorted papart ps ->
  wp rt_model (handle_transfers_to_device p ps xs un) s (fun pr s' => exists f, outside ps (dmem s) f /\
    match snd pr with
    | Ok (xs', un') =>
        s' = set_dmem f s /\ copied (host s) ps f /\ fst pr = add_copybacks (flat_map cb_of ps) p /\
        xs' = xs ++ map address_of ps /\ un' = un ++ flat_map unused_of ps
    | Err e => e = DMAError /\ active (fst pr) = active p /\ exists l, s' = add_dropped l (set_dmem f s)
    end).
Proof.
  intros Hv. revert p Hv xs un s. induction ps as [|q ps IH]; intros p Hv xs un s Hres Hap.
  { simpl. exists (dmem s). rewrite !app_nil_r. split; [apply outside_refl|]. split_and!; try done; [by destruct s|].
    by intros x a m ?%elem_of_nil. }
  apply StronglySorted_inv in Hap as [Hap Hq]. rewrite Forall_forall in Hq.
  assert (Hres' : all_reserved s ps) by (intros x a m Hin; apply Hres; by right).
  assert (Hcase : (exists x a m, q = DataTransferPrealloc x a m) \/
    (match q with DataTransferPrealloc _ _ _ => False | _ => True end)) by (destruct q; eauto).
  destruct Hcase as [(x & a & m & ->)|Hno].
  - simpl. wp_seq copy_in_spec; [apply Hres; left|]. simpl. intros ok s1 (f & -> & Hf & Hok). destruct ok; simpl.
    + destruct (copy_back_of_plain p x a m Hv) as [Hcb Hun]. destruct (copy_back_of p x a m) as [c keeps]. simpl in Hcb, Hun.
      rewrite Hcb, Hun. eapply wp_mono; [apply IH; [by rewrite add_copybacks_svm|done|done]|].
      intros [p' r] s'; simpl. intros (f2 & Ho & Hr). exists f2.
      assert (outside (DataTransferPrealloc x a m :: ps) (dmem s) f2).
      { intros n y Hn. rewrite (outside_tail _ _ _ _ Ho n y Hn). apply Hf. apply Hn. left. }
      split; [done|]. destruct r as [[xs' un']|e]; [|by rewrite add_copybacks_active in Hr]. destruct Hr as (-> & Hc & -> & -> & ->).
      split_and!; [done| |by unfold add_copybacks; rewrite foldl_app|by rewrite <- app_assoc|by rewrite <- app_assoc].
      eapply copied_cons; eauto.
    + apply wp_bind, wp_drop_boxes, wp_ret. exists f. split; [|simpl; eauto].
      intros n y Hn. apply Hf. apply Hn. left.
  - assert (handle_transfers_to_device p (q :: ps) xs un = handle_transfers_to_device p ps (xs ++ [q]) un) as -> by by destruct q.
    eapply wp_mono; [by apply IH|]. intros [p' [[xs' un']|e]] s'; simpl; intros (f & Ho & Hr); exists f;
      (split; [by apply outside_tail|]); [|done].
    destruct Hr as (-> & Hc & -> & -> & ->). destruct q; try done; simpl; rewrite <- ?app_assoc; split_and!; try done;
      intros y b n [?|Hin]%elem_of_cons; try done; by apply Hc.
Qed.

(** Transfers that were placed go to different blocks. *)
Lemma placed_elem (args ps : list PEParameter) (bs : list (nat * segment)) (x : transfer) (a : Z) (m : nat) :
  placed args ps bs -> Forall arg_ok args -> DataTransferPrealloc x a m ∈ ps ->
  exists b, (m, b) ∈ bs /\ base b = a /\ len (data x) <= size b.
Proof.
  induction 1 as [|y n fixed b args ps bs Hsz Hp IH|q args ps bs Hq Hp IH]; intros Hok Hin.
  - by apply elem_of_nil in Hin.
  - apply Forall_cons in Hok as [_ Hok]. apply elem_of_cons in Hin as [[= -> -> ->]|Hin]; [exists b; split_and!; [left|done|done]|].
    destruct (IH Hok Hin) as (c & Hc & ? & ?). exists c. split_and!; [by right|done|done].
  - apply Forall_cons in Hok as [Hq' Hok]. apply elem_of_cons in Hin as [<-|Hin]; [done|]. by apply IH.
Qed.

Lemma placed_apart (args ps : list PEParameter) (bs : list (nat * segment)) :
  placed args ps bs -> Forall arg_ok args -> StronglySorted bapart bs -> StronglySorted papart ps.
Proof.
  induction 1 as [|y n fixed b args ps bs Hsz Hp IH|q args ps bs Hq Hp IH]; intros Hok Hap.
  - constructor.
  - apply Forall_cons in Hok as [_ Hok]. apply StronglySorted_inv in Hap as [Hap Hb]. constructor; [auto|].
    apply Forall_forall. rewrite Forall_forall in Hb. intros r Hr. unfold papart. destruct r as [| | | | |z c k| |]; try done.
    destruct (placed_elem _ _ _ _ _ _ Hp Hok Hr) as (d & Hd & <- & Hsz').
    destruct (Hb _ Hd) as [Hne|Hap']; [by left|right]. unfold apart, before in Hap'. simpl in Hap'. lia.
  - apply Forall_cons in Hok as [Hq' Hok]. constructor; [auto|]. apply Forall_forall. intros r _. by destruct q.
Qed.

Lemma placed_reserved (s s' : rt) (args ps : list PEParameter) (bs : list (nat * segment)) :
  placed args ps bs -> Forall arg_ok args -> gained s s' bs -> all_reserved s' ps.
Proof.
  intros Hp Hok (_ & _ & Hu & _) x a m Hin. destruct (placed_elem _ _ _ _ _ _ Hp Hok Hin) as (b & Hb & Hbase & Hsz).
  exists b. split_and!; [|done|done]. rewrite (Hu m). apply elem_of_app. left. by apply elem_blocks_in.
Qed.

(** Memory outside the blocks is as it was. *)
Definition outside_blocks (bs : list (nat * segment)) (f g : nat -> Z -> Z) : Prop :=
  forall n y, (forall b, (n, b) ∈ bs -> ~ (base b <= y < base b + size b)) -> g n y = f n y.

Lemma placed_outside (args ps : list PEParameter) (bs : list (nat * segment)) (f g : nat -> Z -> Z) :
  placed args ps bs -> Forall arg_ok args -> outside ps f g -> outside_blocks bs f g.
Proof.
  intros Hp Hok Ho n y Hn. apply Ho. intros x a m Hin [-> Hreg].
  destruct (placed_elem _ _ _ _ _ _ Hp Hok Hin) as (b & Hb & <- & Hsz). apply (Hn b Hb). lia.
Qed.

(** ** Streams *)

Definition is_stream (q : PEParameter) : bool := match q with DataTransferStream _ _ _ => true | _ => false end.
Definition stream_cb (q : PEParameter) : list CopyBack :=
  match q with DataTransferStream d c m => [Stream d c m] | _ => [] end.
Definition not_streams (ps : list PEParameter) : list PEParameter := List.filter (fun q => negb (is_stream q)) ps.

Lemma handle_streams_spec (p : PE) (args v : list PEParameter) (c h : bool) (s : rt) :
  wp rt_model (handle_stream_transfers p args v c h) s (fun pr s' =>
    match snd pr with
    | Ok v' => s' = s /\ v' = v ++ not_streams args /\ fst pr = add_copybacks (flat_map stream_cb args) p
    | Err e => e = TooManyStreams /\ active (fst pr) = active p /\ exists l, s' = add_dropped l s
    end).
Proof.
  revert p v c h s. induction args as [|q args IH]; intros p v c h s; [simpl; by rewrite app_nil_r|].
  assert (Hcase : (exists d c2h m, q = DataTransferStream d c2h m) \/ is_stream q = false) by (destruct q; eauto).
  destruct Hcase as [(d & c2h & m & ->)|Hno].
  - simpl. destruct (negb _).
    + apply wp_bind, wp_drop_boxes, wp_ret. simpl. eauto.
    + wp_do; [done|]. intros [] s' ->. eapply wp_mono; [apply IH|]. by intros [p' [v'|e]] s'.
  - assert (handle_stream_transfers p (q :: args) v c h = handle_stream_transfers p args (v ++ [q]) c h) as -> by by destruct q.
    eapply wp_mono; [apply IH|]. intros [p' [v'|e]] s'; simpl; [|done]. intros (-> & -> & ->).
    rewrite <- app_assoc. by destruct q.
Qed.

(** ** Registers *)

(** The registers at [o] hold the parameter. *)
Definition reg_holds (r : Z -> Z) (o : Z) (q : PEParameter) : Prop :=
  match q with
  | Single32 v => read_words r o true = v mod 2 ^ 32
  | Single64 v | DeviceAddress v => read_words r o false = v mod 2 ^ 64
  | _ => False
  end.

Lemma words_read_back (r : Z -> Z) (o v : Z) :
  read_words (write_words (U32 v) o r) o true = v mod 2 ^ 32 /\
  read_words (write_words (U64 v) o r) o false = v mod 2 ^ 64.
Proof.
  unfold read_words, write_words. rewrite Z.eqb_refl, (proj2 (Z.eqb_neq (o + 4) o)), Z.eqb_refl by lia. split; [done|].
  change (2 ^ 64) with (2 ^ 32 * 2 ^ 32). rewrite Z.rem_mul_r by lia. lia.
Qed.

Lemma words_elsewhere (w : ValType) (r : Z -> Z) (o o' : Z) : o' <> o -> o' <> o + 4 -> write_words w o r o' = r o'.
Proof. intros H1%Z.eqb_neq H2%Z.eqb_neq. destruct w; simpl; by rewrite H1, ?H2. Qed.

Lemma reg_holds_frame (r g : Z -> Z) (o : Z) (q : PEParameter) :
  g o = r o -> g (o + 4) = r (o + 4) -> reg_holds r o q -> reg_holds g o q.
Proof. intros H1 H2. unfold reg_holds, read_words. destruct q; by rewrite ?H1, ?H2. Qed.

(** The words of the registers of arguments from [i] on *)
Definition arg_word (p : PE) (i : nat) (o : Z) : Prop :=
  exists j, (i <= j)%nat /\ (o = arg_offset p j \/ o = arg_offset p j + 4).

Lemma arg_words_apart (p : PE) (i : nat) : ~ arg_word p (S i) (arg_offset p i) /\ ~ arg_word p (S i) (arg_offset p i + 4).
Proof. unfold arg_word, arg_offset. split; intros (j & Hj & [?|?]); lia. Qed.

(** What writing the parameter [q] to the register [i] of [p] does *)
Definition written (p : PE) (i : nat) (q : PEParameter) (s s' : @rt A) : Prop :=
  exists w st, s' = set_regs (write_words w (arg_offset p i) (regs s)) st s /\
    reg_holds (regs s') (arg_offset p i) q /\ (arg_offset p i ∉ controls -> st = started s).

Lemma set_register_spec (p : PE) (i : nat) (q q' : PEParameter) (v : Z) (s : rt) :
  q = Single32 v /\ q' = q \/ q = Single64 v /\ (q' = q \/ q' = DeviceAddress v) ->
  wp rt_model (set_register p i q) s (fun r s' => r = Ok tt /\ written p i q' s s').
Proof.
  intros Hq. destruct (words_read_back (regs s) (arg_offset p i) v) as [H32 H64].
  assert (Hc : forall w, arg_offset p i ∉ controls -> (if bool_decide (arg_offset p i ∈ controls /\ w = U32 1)
    then Some (arg_offset p i, regs s, dmem s) else started s) = started s) by (intros w Hno; by rewrite bool_decide_false by tauto).
  destruct Hq as [[-> ->]|[-> [-> | ->]]]; simpl; apply wp_bind, wp_write, wp_ret; (split; [done|]); eexists _, _; (split; [done|]);
    (split; [|apply Hc]); done.
Qed.

(** The program writes a parameter to its register, or refuses it. *)
Lemma write_argument_spec (p : PE) (i : nat) (q : PEParameter) (s : rt) :
  svm_in_use p = false ->
  wp rt_model
    (match q with
     | Single32 _ | Single64 _ => set_register p i q
     | DeviceAddress x => set_register p i (Single64 x)
     | VirtualAddress x => if svm_in_use p then set_register p i (Single64 x) else Ret (Err UnsupportedSVMParameter)
     | _ => Ret (Err UnsupportedRegisterParameter)
     end) s (fun r s' => match r with Ok _ => written p i q s s' | Err _ => s' = s end).
Proof.
  intros Hv. rewrite Hv. destruct q as [v|v|v|x f|x m f|x a m|d c m|v]; try by apply wp_ret.
  all: eapply wp_mono; [apply set_register_spec with (v := v); auto|]; by intros r s' [-> Hw].
Qed.

Lemma set_registers_spec (p : PE) (i : nat) (args : list PEParameter) (s : rt) :
  svm_in_use p = false -> (forall j, arg_offset p j ∉ controls) ->
  wp rt_model (set_registers p i args) s (fun r s' => exists g, s' = set_regs g (started s) s /\
    (forall o, ~ arg_word p i o -> g o = regs s o) /\
    match r with
    | Ok _ => forall j q, args !! j = Some q -> reg_holds g (arg_offset p (i + j)) q
    | Err _ => True
    end).
Proof.
  intros Hv Hctl. revert i s. induction args as [|q args IH]; intros i s; simpl.
  - exists (regs s). split_and!; [by destruct s|done|done].
  - wp_seq write_argument_spec; [done|]. intros [u|e] s1; simpl.
    2: { intros ->. exists (regs s). split_and!; [by destruct s|done|done]. }
    intros (w & st & -> & Hval & Hst). rewrite Hst by done. eapply wp_mono; [apply IH|].
    simpl. intros r s' (g & -> & Hg & Hr). exists g. split_and!; [done| |].
    + intros o Ho. rewrite Hg by (intros (j & Hj & Hjo); apply Ho; exists j; split; [lia|done]).
      apply words_elsewhere; intros ->; apply Ho; exists i; auto.
    + destruct r as [[]|e]; [|done]. intros [|j] r; simpl.
      * intros [= <-]. rewrite Nat.add_0_r. destruct (arg_words_apart p i) as [Ha Hb].
        eapply reg_holds_frame; [by apply Hg|by apply Hg|done].
      * intros Hj. rewrite <- Nat.add_succ_comm. by apply Hr.
Qed.

(** ** Starting a job *)

Definition idle (p : PE) : Prop := active p = false /\ copy_back p = None /\ svm_in_use p = false.

(** The registers of [p] are those of a processing element. *)
Definition has_registers (p : PE) : Prop :=
  offset p ∈ controls /\ offset p + 0x0c ∉ controls /\ forall j, arg_offset p j ∉ controls.

(** [s'] is [s] with the blocks [bs] allocated; only they may have been written. *)
Record extended (bs : list (nat * segment)) (s s' : @rt A) : Prop := {
  ex_used : forall m, Permutation (al_used (alloc s' m)) (blocks_in m bs ++ al_used (alloc s m));
  ex_apart : StronglySorted bapart bs;
  ex_fresh : forall m b c, (m, b) ∈ bs -> c ∈ al_used (alloc s m) -> apart c b;
  ex_ok : all_ok s';
  ex_dmem : outside_blocks bs (dmem s) (dmem s');
  ex_host : host s' = host s;
  ex_pes : pes s' = pes s
}.

Lemma gained_extended (s s' : rt) (bs : list (nat * segment)) : gained s s' bs -> extended bs s s'.
Proof. intros (E & O & U & S & F). constructor; try done; rewrite E; done. Qed.

(** What the processing element finds when it starts: its buffers hold what the program's
    hold, and its registers the values and addresses of the parameters, in order. *)
Definition sees (p : PE) (ps : list PEParameter) (h : Z -> Z) (st : option (Z * (Z -> Z) * (nat -> Z -> Z))) : Prop :=
  exists r dm, st = Some (offset p, r, dm) /\ copied h ps dm /\
    forall j q, not_streams (map address_of ps) !! j = Some q -> reg_holds r (arg_offset p j) q.

Definition copybacks (ps : list PEParameter) : list CopyBack := flat_map cb_of ps ++ flat_map stream_cb ps.

(** The parameters with the local memory of [p], and the transfers they have become *)
Definition placed_for (p : PE) (args ps : list PEParameter) (bs : list (nat * segment)) : Prop :=
  exists las, handle_local_memories p args = Ok las /\ Forall arg_ok las /\ placed las ps bs.

Lemma local_memories_ok (p : PE) (args las : list PEParameter) :
  handle_local_memories p args = Ok las -> Forall arg_ok args -> Forall arg_ok las.
Proof.
  intros Hl Hok. revert las Hl. induction Hok as [|arg args Ha Hok IH]; simpl; intros las Hl; [by injection Hl as <-|].
  destruct (handle_local_memory p arg) as [q|] eqn:Hq; [|done]. destruct (handle_local_memories p args) as [qs|]; [|done].
  injection Hl as <-. constructor; [|by apply IH]. destruct arg; simpl in *; try (by injection Hq as <-).
  destruct (local_memory p); [|done]. by injection Hq as <-.
Qed.

Lemma stream_cb_address (ps : list PEParameter) : flat_map stream_cb (map address_of ps) = flat_map stream_cb ps.
Proof. induction ps as [|q ps IH]; [done|]. simpl. rewrite IH. by destruct q. Qed.

Lemma finish_start_spec (p : PE) (args : list PEParameter) (un : list slice) (s : rt) :
  svm_in_use p = false -> active p = false -> has_registers p ->
  wp rt_model (finish_start p args un) s (fun pr s' => exists g st l,
    s' = add_dropped l (set_regs g st s) /\
    match pr.2 with
    | Ok un' => un' = un /\ l = [] /\ pr.1 = set_active true p /\ exists r, st = Some (offset p, r, dmem s) /\
        forall j q, args !! j = Some q -> reg_holds r (arg_offset p j) q
    | Err _ => st = started s /\ pr.1 = p
    end).
Proof.
  intros Hv Ha (Hoff & _ & Hctl). unfold finish_start. wp_seq set_registers_spec; [done|done|].
  simpl. intros [u|e] s1 (g & -> & _ & Hr).
  - unfold pe_start. rewrite Ha. apply wp_bind, wp_bind, wp_write, wp_ret, wp_ret. simpl.
    exists (fun o => if o =? offset p then 1 else g o), (Some (offset p, g, dmem s)), [].
    split; [|split_and!; try done; by exists g]. rewrite bool_decide_true by done.
    unfold add_dropped, set_regs. simpl. by rewrite app_nil_r.
  - apply wp_bind, wp_drop_boxes, wp_ret. by exists g, (started s), un.
Qed.

Lemma extended_frame (bs : list (nat * segment)) (s s1 s2 : rt) :
  extended bs s s1 -> alloc s2 = alloc s1 -> host s2 = host s1 -> pes s2 = pes s1 ->
  outside_blocks bs (dmem s1) (dmem s2) -> extended bs s s2.
Proof.
  intros [H1 H2 H3 H4 H5 H6 H7] Ha Hh Hp Hd. constructor; try done.
  - intros m. by rewrite Ha.
  - intros m. rewrite Ha. apply H4.
  - intros n y Hn. rewrite (Hd n y Hn). by apply H5.
  - by rewrite Hh.
  - by rewrite Hp.
Qed.

(** Job::start: the processing element is started on what the parameters say, or not at
    all.  After an error the blocks allocated so far stay allocated. *)
Lemma start_spec (p : PE) (args : list PEParameter) (s : rt) :
  idle p -> has_registers p -> all_ok s -> Forall arg_ok args ->
  wp rt_model (start p args) s (fun pr s' => exists bs, extended bs s s' /\
    match pr.2 with
    | Ok un => exists ps, placed_for p args ps bs /\ sees p ps (host s) (started s') /\ dropped s' = dropped s /\
        un = flat_map unused_of ps /\ pr.1 = set_active true (add_copybacks (copybacks ps) p)
    | Err _ => started s' = started s /\ active pr.1 = false
    end).
Proof.
  intros (Ha & Hcb & Hv) Hreg Hs Hok. unfold start. destruct (handle_local_memories p args) as [las|e] eqn:Hlas.
  2: { apply wp_bind, wp_drop_boxes, wp_ret. exists []. split; [|done].
       eapply extended_frame; [by apply gained_extended, gained_nil|done..]. }
  pose proof (local_memories_ok _ _ _ Hlas Hok) as Hlok. wp_seq handle_allocates_spec; [done..|].
  intros [ps|e] s1 (bs & Hg & Hps); simpl.
  2: { apply wp_bind, wp_drop_boxes, wp_ret. exists bs. split; [|by rewrite (proj1 Hg)].
       eapply extended_frame; [by apply gained_extended|done..]. }
  pose proof (gained_extended _ _ _ Hg) as Hex. wp_seq handle_transfers_spec;
    [done|by eapply placed_reserved|by eapply placed_apart; [..|apply Hg]|].
  intros [p1 [[xs un]|e]] s2 (f & Ho & Hr); simpl in Hr |- *.
  2: { destruct Hr as (_ & Hact & l & ->). exists bs. simpl. rewrite Hact. split; [|by rewrite (proj1 Hg)].
       eapply extended_frame; [done..|]. by eapply placed_outside. }
  destruct Hr as (-> & Hc & -> & -> & ->). wp_seq handle_streams_spec.
  assert (Hex2 : extended bs s (set_dmem f s1)).
  { eapply extended_frame; [done..|]. by eapply placed_outside. }
  assert (Hst : started (set_dmem f s1) = started s) by (simpl; by rewrite (proj1 Hg)).
  intros [p2 [v|e]] s3; simpl.
  2: { intros (_ & Hact & l & ->). apply wp_bind, wp_drop_boxes, wp_ret. exists bs. simpl.
       rewrite Hact, add_copybacks_active. split; [|done]. by eapply extended_frame. }
  intros (-> & -> & ->). unfold add_copybacks. rewrite <- foldl_app, stream_cb_address. fold (copybacks ps).
  fold (add_copybacks (copybacks ps) p). eapply wp_mono; [apply finish_start_spec|].
  - by rewrite add_copybacks_svm.
  - by rewrite add_copybacks_active.
  - unfold has_registers, arg_offset in *. by rewrite add_copybacks_offset.
  - intros [p3 r] s4 (g & st & l & -> & Hr). simpl in Hr. exists bs. split; [by eapply extended_frame|].
    destruct r as [un|e]; simpl.
    + destruct Hr as (-> & -> & -> & r & -> & Hvals). exists ps. split_and!; [by exists las| |..].
      * exists r, f. simpl. rewrite add_copybacks_offset. split_and!; [done|by rewrite (ex_host _ _ _ Hex) in Hc|].
        intros j q Hj. specialize (Hvals j q Hj). unfold arg_offset in *. by rewrite add_copybacks_offset in Hvals.
      * rewrite app_nil_r. by rewrite (proj1 Hg).
      * done.
      * done.
    + destruct Hr as (-> & ->). by rewrite add_copybacks_active.
Qed.

(** ** The end of a job *)

(** The blocks that copying back frees, in order *)
Inductive owing : list CopyBack -> list (nat * segment) -> Prop :=
| owing_nil : owing [] []
| owing_transfer x m b cs bs :
    free x = true -> len (data x) <= size b -> owing cs bs -> owing (Transfer x (base b) m :: cs) ((m, b) :: bs)
| owing_free m b cs bs : owing cs bs -> owing (UserJob.Free (base b) m :: cs) ((m, b) :: bs)
| owing_stream d c2h m cs bs : owing cs bs -> owing (Stream d c2h m :: cs) bs.

(** The program's memory that copying back writes *)
Definition outs (c : CopyBack) : list slice :=
  match c with Transfer x _ _ => [data x] | Stream d true _ => [d] | _ => [] end.
Definition sapart (d e : slice) : Prop := ptr d + len d <= ptr e \/ ptr e + len e <= ptr d.

Definition in_slices (y : Z) (l : list slice) : Prop := exists d, d ∈ l /\ in_slice y d.

(** [h] is [g] but for the slices [l]. *)
Definition host_outside (l : list slice) (g h : Z -> Z) : Prop := forall y, ~ in_slices y l -> h y = g y.

(** The results have arrived. *)
Definition copied_back (f : nat -> Z -> Z) (cs : list CopyBack) (h : Z -> Z) : Prop :=
  forall x a m, Transfer x a m ∈ cs -> forall k, 0 <= k < len (data x) -> h (ptr (data x) + k) = f m (a + k).

(** The blocks [bs] of the job and the blocks [U] of others are in use. *)
Definition holds (s : @rt A) (bs : list (nat * segment)) (U : nat -> list segment) : Prop :=
  forall m, Permutation (al_used (alloc s m)) (blocks_in m bs ++ U m).

(** Only the allocators, the program's memory and the list of freed buffers differ. *)
Definition same_card (s s' : @rt A) : Prop :=
  dmem s' = dmem s /\ regs s' = regs s /\ started s' = started s /\ pes s' = pes s.

Lemma same_card_trans (s1 s2 s3 : rt) : same_card s1 s2 -> same_card s2 s3 -> same_card s1 s3.
Proof. intros (? & ? & ? & ?) (? & ? & ? & ?). split_and!; congruence. Qed.

Lemma holds_head (s : rt) (m : nat) (b : segment) (bs : list (nat * segment)) (U : nat -> list segment) :
  holds s ((m, b) :: bs) U -> b ∈ al_used (alloc s m).
Proof. intros Hh. rewrite (Hh m), blocks_in_cons. simpl. rewrite decide_True by done. left. Qed.

Lemma free_block_spec (m : nat) (b : segment) (bs : list (nat * segment)) (U : nat -> list segment) (s : rt) :
  all_ok s -> holds s ((m, b) :: bs) U ->
  wp rt_model (free_block m (base b)) s (fun r s' => r = Ok tt /\ all_ok s' /\ holds s' bs U /\ s' = set_allocs (alloc s') s).
Proof.
  intros Hs Hh. apply wp_atomically. pose proof (law_free (alloc s m) b (Hs m) (holds_head _ _ _ _ _ Hh)) as Hlaw.
  destruct (al_free (alloc s m) (base b)) as [[[]|e] a']; [|done]. destruct Hlaw as [Ha Hp]. simpl. split_and!; [done| | |done].
  - intros n. simpl. destruct (decide (n = m)); [done|apply Hs].
  - intros n. simpl. specialize (Hh n). rewrite blocks_in_cons in Hh. simpl in Hh.
    destruct (decide (n = m)) as [->|Hne]; [|by rewrite decide_False in Hh by done].
    rewrite decide_True in Hh by done. apply (Permutation_cons_inv (a := b)). by rewrite <- Hp, Hh.
Qed.

Lemma in_slices_app (y : Z) (l1 l2 : list slice) : in_slices y (l1 ++ l2) <-> in_slices y l1 \/ in_slices y l2.
Proof. unfold in_slices. set_solver. Qed.

Lemma host_outside_trans (l1 l2 : list slice) (f g h : Z -> Z) :
  host_outside l1 f g -> host_outside l2 g h -> host_outside (l1 ++ l2) f h.
Proof. intros H1 H2 y Hy. rewrite in_slices_app in Hy. rewrite H2 by tauto. apply H1. tauto. Qed.

Definition copyback_post (s : @rt A) (U : nat -> list segment) (cs : list CopyBack) (res : list slice)
    (r : result JobError (list slice)) (s' : @rt A) : Prop :=
  same_card s s' /\ all_ok s' /\ host_outside (flat_map outs cs) (host s) (host s') /\
  match r with
  | Ok res' => holds s' [] U /\ dropped s' = dropped s /\ copied_back (dmem s) cs (host s') /\ res' = res ++ cb_datas cs
  | Err e => e = DMAError /\ exists bs, holds s' bs U
  end.

(** One step of copying back, that has written [l] and freed its block, before the rest. *)
Lemma copyback_step (s s1 s' : rt) (U : nat -> list segment) (c : CopyBack) (cs : list CopyBack) (res : list slice)
    (r : result JobError (list slice)) :
  StronglySorted sapart (flat_map outs (c :: cs)) -> same_card s s1 -> dropped s1 = dropped s ->
  host_outside (outs c) (host s) (host s1) -> copied_back (dmem s) [c] (host s1) ->
  copyback_post s1 U cs (res ++ cb_data c) r s' -> copyback_post s U (c :: cs) res r s'.
Proof.
  intros Hap Hsc Hdr Hh Hc (Hsc' & Hok & Hh' & Hr). split_and!.
  - by eapply same_card_trans.
  - done.
  - by eapply host_outside_trans.
  - destruct r as [res'|e]; [|done]. destruct Hr as (H1 & H2 & H3 & ->). split_and!; [done|by rewrite H2| |].
    + intros x a m [Hx|Hin]%elem_of_cons k Hk; [|rewrite (H3 x a m Hin k Hk); by destruct Hsc as [-> _]].
      rewrite <- (Hc x a m) by (done || by rewrite <- Hx; left). apply Hh'. intros (d & Hd & Hy).
      simpl in Hap. rewrite <- Hx in Hap. apply StronglySorted_inv in Hap as [_ Hap]. rewrite Forall_forall in Hap.
      specialize (Hap d Hd). unfold sapart, in_slice in *. lia.
    + by rewrite <- app_assoc.
Qed.

Lemma handle_copyback_spec (cs : list CopyBack) (res : list slice) (bs : list (nat * segment)) (U : nat -> list segment) (s : rt) :
  owing cs bs -> all_ok s -> holds s bs U -> StronglySorted sapart (flat_map outs cs) ->
  wp rt_model (handle_copyback cs res) s (copyback_post s U cs res).
Proof.
  intros Ho. revert res s. induction Ho as [|x m b cs bs Hfree Hlen Ho IH|m b cs bs Ho IH|d c2h m cs bs Ho IH];
    intros res s Hs Hh Hap; simpl.
  - apply wp_ret. unfold copyback_post, cb_datas. simpl. rewrite app_nil_r. split_and!; try done. by intros ? ? ? ?%elem_of_nil.
  - wp_do; [exists b; split_and!; [by eapply holds_head|done|done]|]. intros ok s1 (h & -> & Hout & Hin).
    assert (Hout' : host_outside (outs (Transfer x (base b) m)) (host s) h).
    { intros y Hy. apply Hout. intros Hys. apply Hy. exists (data x). split; [left|done]. }
    destruct ok; simpl.
    + rewrite Hfree. wp_seq free_block_spec; [done|done|]. intros r s2 (-> & Hs2 & Hh2 & E).
      eapply wp_mono; [apply IH; [done|done|]|].
      { simpl in Hap. by apply StronglySorted_inv in Hap as [Hap _]. }
      intros r s' Hr. eapply (copyback_step s s2); [done|rewrite E; done|rewrite E; done|rewrite E; done| |done].
      intros y a n [= -> -> ->]%list_elem_of_singleton k Hk. rewrite E. by apply Hin.
    + apply wp_bind, wp_drop_boxes, wp_ret. split_and!; [done|done| |done|by exists ((m, b) :: bs)].
      intros y Hy. apply Hout'. intros Hy'. apply Hy. simpl. apply (in_slices_app y [data x]). by left.
  - wp_seq free_block_spec; [done|done|]. intros r s1 (-> & Hs1 & Hh1 & E). eapply wp_mono; [by apply IH|].
    intros r s' Hr. eapply (copyback_step s s1); [done|rewrite E; done|rewrite E; done|rewrite E; done| |].
    + by intros y a n ?%list_elem_of_singleton.
    + by rewrite app_nil_r.
  - wp_do; [done|]. intros ok s1 (h & -> & Hout).
    assert (Hout' : host_outside (outs (Stream d c2h m)) (host s) h).
    { intros y Hy. apply Hout. destruct c2h; [right|by left]. intros Hys. apply Hy. exists d. split; [left|done]. }
    destruct ok; simpl.
    + eapply wp_mono; [apply IH; [done|done|]|].
      { simpl in Hap. apply sorted_app in Hap as (_ & Hap & _). done. }
      intros r s' Hr. eapply (copyback_step s (set_host h s)); try done. by intros y a n ?%list_elem_of_singleton.
    + apply wp_bind, wp_drop_boxes, wp_ret. split_and!; [done|done| |done|by exists bs].
      intros y Hy. apply Hout'. intros Hy'. apply Hy. simpl. rewrite in_slices_app. by left.
Qed.

(** The processing element has worked: memory and registers of the card are anything. *)
Definition worked (s s' : @rt A) : Prop := exists f g, s' = set_dmem f (set_regs g (started s) s).

Lemma reset_interrupt_spec (p : PE) (s : rt) :
  has_registers p -> wp rt_model (reset_interrupt p true) s (fun _ s' => worked s s').
Proof.
  intros (_ & Hc & _). apply wp_bind, wp_write. wp_do; [done|]. intros x s' [_ ->]. apply wp_ret.
  rewrite bool_decide_false by tauto. eexists (dmem s), _. reflexivity.
Qed.

Lemma worked_trans (s1 s2 s3 : rt) : worked s1 s2 -> worked s2 s3 -> worked s1 s3.
Proof. intros (f & g & ->) (f' & g' & ->). by exists f', g'. Qed.

Definition rested (p : PE) : PE := set_copy_back None (set_active false p).

Lemma finished_spec (p : PE) (ret : bool) (s : rt) :
  wp rt_model (finished p ret) s (fun pc s' => s' = s /\ pc.1 = set_copy_back None p /\ pc.2.2 = copy_back p /\
    (ret = true -> pc.2.1 = read_words (regs s) (offset p + 0x10) false)).
Proof.
  unfold finished, return_value. destruct ret.
  - wp_do; [done|]. intros v s' [-> ->]. by apply wp_ret.
  - apply wp_bind, wp_ret, wp_ret. done.
Qed.

Lemma pe_release_spec (p : PE) (ret : bool) (s : rt) :
  active p = true -> has_registers p ->
  wp rt_model (pe_release p ret) s (fun pr s' => worked s s' /\
    match pr.2 with
    | Ok (rv, c) => pr.1 = rested p /\ c = copy_back p /\ (ret = true -> rv = read_words (regs s') (offset p + 0x10) false)
    | Err e => e = ErrorInterrupt /\ pr.1 = p
    end).
Proof.
  intros Ha Hreg. unfold pe_release, wait_for_completion. rewrite Ha. apply wp_bind. wp_do; [done|].
  intros ok s1 Hw. destruct ok; simpl; [|by apply wp_ret, wp_ret].
  wp_seq reset_interrupt_spec; [done|]. intros [] s2 Hw2. apply wp_ret. wp_seq finished_spec.
  intros [p' [rv c]] s3 (-> & Hp & Hc & Hrv). simpl in *. apply wp_ret. simpl. subst.
  split; [by eapply worked_trans|]. done.
Qed.

Lemma pe_try_release_spec (p : PE) (ret : bool) (s : rt) :
  active p = true -> has_registers p ->
  wp rt_model (pe_try_release p ret) s (fun pr s' => worked s s' /\
    match pr.2 with
    | Ok (Some (rv, c)) => pr.1 = rested p /\ c = copy_back p /\ (ret = true -> rv = read_words (regs s') (offset p + 0x10) false)
    | Ok None => pr.1 = p
    | Err e => e = ErrorInterrupt /\ pr.1 = p
    end).
Proof.
  intros Ha Hreg. unfold pe_try_release, check_for_completion. rewrite Ha. apply wp_bind. wp_do; [done|].
  intros [r|] s1 Hw; [|by apply wp_ret, wp_ret]. destruct (r =? 0); [by apply wp_ret, wp_ret|].
  wp_seq reset_interrupt_spec; [done|]. intros [] s2 Hw2. apply wp_ret. wp_seq finished_spec.
  intros [p' [rv c]] s3 (-> & Hp & Hc & Hrv). simpl in *. apply wp_ret. simpl. subst.
  split; [by eapply worked_trans|]. done.
Qed.

(** Copying back what is left to do, also when that is nothing *)
Lemma copyback_all_spec (rv : Z) (cs : list CopyBack) (c : option (list CopyBack)) (bs : list (nat * segment))
    (U : nat -> list segment) (s : rt) :
  c = Some cs \/ (c = None /\ cs = []) ->
  owing cs bs -> all_ok s -> holds s bs U -> StronglySorted sapart (flat_map outs cs) ->
  wp rt_model (copyback_all rv c) s (fun r s' =>
    copyback_post s U cs [] (match r with Ok x => Ok x.2 | Err e => Err e end) s' /\
    match r with Ok x => x.1 = rv | Err _ => True end).
Proof.
  intros Hc Ho Hs Hh Hap. destruct Hc as [-> | [-> ->]]; simpl.
  - wp_seq (handle_copyback_spec cs [] bs U); [done..|]. by intros [res|e] s' Hr; apply wp_ret.
  - inversion Ho; subst. apply wp_ret. split; [|done]. unfold copyback_post, cb_datas. simpl.
    split_and!; try done. by intros ? ? ? ?%elem_of_nil.
Qed.

(** What the end of a job on [p] has done, from state [s]. *)
Definition released (s : @rt A) (U : nat -> list segment) (p : PE) (q : list PE) (cs : list CopyBack)
    (r : result JobError (Z * list slice)) (s' : @rt A) : Prop :=
  started s' = started s /\ all_ok s' /\ host_outside (flat_map outs cs) (host s) (host s') /\
  match r with
  | Ok (_, res) =>
      holds s' [] U /\ dropped s' = dropped s /\ copied_back (dmem s') cs (host s') /\ res = cb_datas cs /\
      pes s' = (fun t => if t =? type_id p then Some (q ++ [rested p]) else pes s t)
  | Err e => e = DMAError /\ exists bs, holds s' bs U
  end.

Lemma give_back_spec (p : PE) (q : list PE) (rv : Z) (cs : list CopyBack) (c : option (list CopyBack))
    (bs : list (nat * segment)) (U : nat -> list segment) (s : rt) :
  c = Some cs \/ (c = None /\ cs = []) -> pes s (type_id p) = Some q ->
  owing cs bs -> all_ok s -> holds s bs U -> StronglySorted sapart (flat_map outs cs) ->
  wp rt_model (give_back (rested p) true rv c) s (fun jr s' =>
    jr.1 = mk_job None /\ released s U p q cs jr.2 s' /\
    match jr.2 with Ok (rv', _) => rv' = rv /\ regs s' = regs s | Err _ => True end).
Proof.
  intros Hc Hq Ho Hs Hh Hap. unfold give_back, release_pe. simpl. apply wp_bind, wp_atomically. rewrite Hq. simpl.
  wp_seq (copyback_all_spec rv cs c bs U); [done|done|done|done|done|].
  intros r s' [((Hd & Hr & Hst & Hp) & Hok & Hout & Hres) Hrv]. apply wp_ret. simpl. split; [done|].
  split; [|by destruct r as [[rv' res]|e]]. split_and!; [done|done|done|]. destruct r as [[rv' res]|e]; [|done].
  simpl in *. destruct Hres as (H1 & H2 & H3 & ->). rewrite Hd. split_and!; done.
Qed.

(** The state between start and release: a job that runs on [p], with the copybacks [cs]. *)
Record runs (p : PE) (q : list PE) (cs : list CopyBack) (bs : list (nat * segment)) (U : nat -> list segment) (s : @rt A) : Prop := {
  ru_active : active p = true;
  ru_regs : has_registers p;
  ru_cs : copy_back p = Some cs \/ (copy_back p = None /\ cs = []);
  ru_owing : owing cs bs;
  ru_ok : all_ok s;
  ru_holds : holds s bs U;
  ru_outs : StronglySorted sapart (flat_map outs cs);
  ru_queue : pes s (type_id p) = Some q
}.

Lemma runs_worked p q cs bs U (s s' : rt) : runs p q cs bs U s -> worked s s' -> runs p q cs bs U s'.
Proof. intros [] (f & g & ->). by constructor. Qed.

Lemma released_worked (s s1 s' : rt) U p q cs r : worked s s1 -> released s1 U p q cs r s' -> released s U p q cs r s'.
Proof. by intros (f & g & ->). Qed.

Lemma job_release_spec p q cs bs U (ret : bool) (s : rt) :
  runs p q cs bs U s ->
  wp rt_model (job_release (mk_job (Some p)) true ret) s (fun jr s' =>
    match jr.2 with
    | Err ErrorInterrupt => jr.1 = mk_job (Some p) /\ worked s s'
    | r => jr.1 = mk_job None /\ released s U p q cs r s' /\
        match r with Ok (rv, _) => ret = true -> rv = read_words (regs s') (offset p + 0x10) false | Err _ => True end
    end).
Proof.
  intros Hr. unfold job_release. cbn [pe]. wp_seq pe_release_spec; [apply Hr|apply Hr|].
  intros [p' [[rv c]|e]] s1 [Hw H1]; cbn [fst snd] in H1 |- *.
  - destruct H1 as (-> & -> & Hrv). pose proof (runs_worked _ _ _ _ _ _ _ Hr Hw) as [].
    eapply wp_mono; [by eapply (give_back_spec p q rv cs _ bs U)|]. intros [j r] s' (Hj & Hrel & Hrv'). simpl in *.
    pose proof (released_worked _ _ _ _ _ _ _ _ Hw Hrel) as Hrel'.
    destruct r as [[rv' res]|e]; [destruct Hrv' as [-> ->]; done|].
    assert (e = DMAError) as -> by apply Hrel. done.
  - destruct H1 as [-> ->]. by apply wp_ret.
Qed.

Lemma job_try_release_spec p q cs bs U (ret : bool) (s : rt) :
  runs p q cs bs U s ->
  wp rt_model (job_try_release (mk_job (Some p)) true ret) s (fun jr s' =>
    match jr.2 with
    | Ok None | Err ErrorInterrupt => jr.1 = mk_job (Some p) /\ worked s s'
    | Ok (Some x) => jr.1 = mk_job None /\ released s U p q cs (Ok x) s' /\ (ret = true -> x.1 = read_words (regs s') (offset p + 0x10) false)
    | Err e => jr.1 = mk_job None /\ released s U p q cs (Err e) s'
    end).
Proof.
  intros Hr. unfold job_try_release. cbn [pe]. wp_seq pe_try_release_spec; [apply Hr|apply Hr|].
  intros [p' [[[rv c]|]|e]] s1 [Hw H1]; cbn [fst snd] in H1 |- *.
  - destruct H1 as (-> & -> & Hrv). pose proof (runs_worked _ _ _ _ _ _ _ Hr Hw) as [].
    wp_seq (give_back_spec p q rv cs _ bs U); [done|done|done|done|done|done|].
    intros [j r] s' (Hj & Hrel & Hrv'). simpl in *. apply wp_ret. simpl.
    pose proof (released_worked _ _ _ _ _ _ _ _ Hw Hrel) as Hrel'.
    destruct r as [[rv' res]|e]; [destruct Hrv' as [-> ->]; done|].
    assert (e = DMAError) as -> by apply Hrel. done.
  - apply wp_ret. simpl. by subst.
  - destruct H1 as [-> ->]. by apply wp_ret.
Qed.

(** ** From start to release *)

(** The program's memory that a parameter has written at the end *)
Definition arg_outs (q : PEParameter) : list slice :=
  match q with
  | DataTransferLocal x _ | DataTransferAlloc x _ _ | DataTransferPrealloc x _ _ => if from_device x then [data x] else []
  | DataTransferStream d c2h _ => if c2h then [d] else []
  | _ => []
  end.

Lemma local_outs (p : PE) (args las : list PEParameter) :
  handle_local_memories p args = Ok las -> flat_map arg_outs las = flat_map arg_outs args.
Proof.
  revert las. induction args as [|arg args IH]; intros las; simpl; [by intros [= <-]|].
  destruct (handle_local_memory p arg) as [q|] eqn:Hq; [|done]. destruct (handle_local_memories p args) as [qs|]; [|done].
  intros [= <-]. simpl. rewrite (IH qs) by done. f_equal. destruct arg; simpl in Hq; try (by injection Hq as <-).
  destruct (local_memory p); [by injection Hq as <-|done].
Qed.

Lemma placed_outs (args ps : list PEParameter) (bs : list (nat * segment)) :
  placed args ps bs -> Forall arg_ok args -> flat_map arg_outs ps = flat_map arg_outs args.
Proof.
  induction 1 as [|x m fixed b args ps bs Hsz Hp IH|q args ps bs Hq Hp IH]; intros Hok; [done|..];
    apply Forall_cons in Hok as [_ Hok]; simpl; by rewrite IH.
Qed.

Lemma copybacks_outs (ps : list PEParameter) :
  Forall (fun q => match q with DataTransferLocal _ _ | DataTransferAlloc _ _ _ => False | _ => True end) ps ->
  Permutation (flat_map outs (copybacks ps)) (flat_map arg_outs ps).
Proof.
  unfold copybacks. induction 1 as [|q ps Hq Hps IH]; [done|]. simpl. rewrite !flat_map_app, <- IH, !flat_map_app. clear IH.
  destruct q as [v|v|v|x f|x m f|x a m|d c m|v]; simpl in *; try done.
  - destruct (from_device x), (free x); simpl; done.
  - destruct c; simpl; [|done]. symmetry. apply Permutation_middle.
Qed.

Lemma placed_no_alloc (args ps : list PEParameter) (bs : list (nat * segment)) (p : PE) (args0 : list PEParameter) :
  handle_local_memories p args0 = Ok args -> placed args ps bs ->
  Forall (fun q => match q with DataTransferLocal _ _ | DataTransferAlloc _ _ _ => False | _ => True end) ps.
Proof.
  intros Hl Hp. revert args0 Hl. induction Hp as [|x m fixed b args ps bs Hsz Hp IH|q args ps bs Hq Hp IH]; intros args0 Hl;
    [constructor|..]; destruct args0 as [|arg args0]; simpl in Hl; try done;
    destruct (handle_local_memory p arg) as [q'|] eqn:Hq'; try done; destruct (handle_local_memories p args0) as [qs|] eqn:Hqs; try done;
    injection Hl as -> ->; (constructor; [|by eapply IH]); [done|].
  destruct arg; simpl in Hq'; try (injection Hq' as <-; done). destruct (local_memory p); [|done]. by injection Hq' as <-.
Qed.

Lemma placed_owing (args ps : list PEParameter) (bs : list (nat * segment)) (p : PE) (args0 : list PEParameter) :
  handle_local_memories p args0 = Ok args -> placed args ps bs -> Forall arg_ok args -> owing (copybacks ps) bs.
Proof.
  intros _ Hp Hok. unfold copybacks.
  assert (Hst : forall l, owing (flat_map stream_cb l) []).
  { induction l as [|q l IH]; [constructor|]. destruct q; simpl; try done. by constructor. }
  generalize (flat_map stream_cb ps) (Hst ps). clear Hst. intros cs Hcs.
  induction Hp as [|x m fixed b args ps bs Hsz Hp IH|q args ps bs Hq Hp IH]; simpl; [done|..].
  - apply Forall_cons in Hok as [[_ Hfree] Hok]. rewrite Hfree. destruct (from_device x); simpl; constructor; auto.
  - apply Forall_cons in Hok as [Hq' Hok]. destruct q; simpl in *; try done; by apply IH.
Qed.

Lemma sorted_perm {B} (R : B -> B -> Prop) (l1 l2 : list B) :
  (forall a b, R a b -> R b a) -> Permutation l1 l2 -> StronglySorted R l1 -> StronglySorted R l2.
Proof.
  intros Hsym. induction 1 as [|x l1 l2 Hp IH|x y l|l1 l2 l3 _ IH1 _ IH2]; intros Hs.
  - done.
  - apply StronglySorted_inv in Hs as [Hs Hx]. constructor; [auto|]. by rewrite <- Hp.
  - apply StronglySorted_inv in Hs as [Hs Hy]. apply StronglySorted_inv in Hs as [Hs Hx].
    apply Forall_cons in Hy as [Hyx Hy]. constructor; [by constructor|]. constructor; auto.
  - auto.
Qed.

Lemma add_copybacks_some (cs l : list CopyBack) (p : PE) :
  copy_back p = Some l -> copy_back (add_copybacks cs p) = Some (l ++ cs).
Proof.
  revert l p. induction cs as [|c cs IH]; intros l p Hl; simpl; [by rewrite app_nil_r|].
  rewrite (IH (l ++ [c])); [by rewrite <- app_assoc|]. simpl. by rewrite Hl.
Qed.

Lemma add_copybacks_back (cs : list CopyBack) (p : PE) :
  copy_back p = None ->
  copy_back (add_copybacks cs p) = Some cs \/ (copy_back (add_copybacks cs p) = None /\ cs = []).
Proof.
  intros Hp. destruct cs as [|c cs]; [by right|left]. simpl. apply (add_copybacks_some cs [c]). simpl. by rewrite Hp.
Qed.

Lemma add_copybacks_rested (cs : list CopyBack) (p : PE) : idle p -> rested (set_active true (add_copybacks cs p)) = p.
Proof.
  intros (Ha & Hc & _).
  assert (forall cs p, rested (set_active true (add_copybacks cs p)) = rested p) as ->.
  { clear. induction cs as [|c cs IH]; intros p; simpl; [done|]. by rewrite IH. }
  destruct p. unfold rested, set_copy_back, set_active. simpl in *. by subst.
Qed.

Lemma add_copybacks_type (cs : list CopyBack) (p : PE) : type_id (add_copybacks cs p) = type_id p.
Proof. revert p. induction cs as [|c cs IH]; intros p; simpl; [done|]. by rewrite IH. Qed.

(** A job that was started can be released. *)
Lemma started_runs (p : PE) (q : list PE) (args ps : list PEParameter) (bs : list (nat * segment)) (s s' : rt) :
  idle p -> has_registers p -> placed_for p args ps bs -> extended bs s s' ->
  StronglySorted sapart (flat_map arg_outs args) -> pes s (type_id p) = Some q ->
  runs (set_active true (add_copybacks (copybacks ps) p)) q (copybacks ps) bs (fun m => al_used (alloc s m)) s'.
Proof.
  intros Hi Hreg (las & Hl & Hok & Hp) Hex Hap Hq. constructor; simpl.
  - done.
  - unfold has_registers, arg_offset in *. simpl. by rewrite add_copybacks_offset.
  - apply add_copybacks_back, Hi.
  - by eapply placed_owing.
  - apply Hex.
  - exact (ex_used _ _ _ Hex).
  - apply (sorted_perm _ (flat_map arg_outs args)); [unfold sapart; intros; lia| |done].
    rewrite copybacks_outs by (by eapply placed_no_alloc). by rewrite (placed_outs _ _ _ Hp Hok), (local_outs _ _ _ Hl).
  - by rewrite add_copybacks_type, (ex_pes _ _ _ Hex).
Qed.

End Model.
End UserRun.
