(* ===== verification/UserLib.v ===== *)
(** * The C++ interface of the runtime (libtapasco: src/tapasco.hpp and the functions of
      src/ffi.rs it calls)

    Classes Tapasco, JobFuture, TapascoMemory and TapascoDriver: launching a job, waiting for
    it, and memory of the card.  A function of the library reports an error by its result and
    keeps it as the last error of the thread; the C++ side throws its text.  Arguments are
    collected by UserArgs.v, jobs run as in UserJob.v. *)
From S2P Require Import Prelude Kernel UserAlloc UserArgs UserJob UserRun.

Module UserLib.
Import Kernel UserArgs UserJob UserRun.
Import UserAlloc(segment, mk_seg, base, size, apart, Allocator, AllocatorLaws, al_allocate, al_allocate_fixed, al_free,
  al_ok, al_used, law_allocate, law_allocate_fixed, law_free, law_address).
#[local] Open Scope prog_scope.

(** ** Errors *)

(** The errors of the runtime that reach the program *)
Inductive rt_error :=
| job_error (e : JobError)
| allocator_error (e : UserAlloc.Error)
| dma_error
| exclusive_required
| device_not_found (id : Z)
| other_error.

(** Exceptions of class tapasco_error *)
Inductive exn :=
| argument_error (e : arg_error)
| runtime_error (e : rt_error)
| not_launched
| no_devices
| out_of_range (id num_devices : Z).

(** How a call ends; [Waits]: it is still waiting for a processing element. *)
Inductive outcome (X : Type) := Returns (x : X) | Throws (e : exn) | Waits | Undefined.
Arguments Returns {X} x.
Arguments Throws {X} e.
Arguments Waits {X}.
Arguments Undefined {X}.

(** The text of the last error *)
Section Text.
Variable to_string : rt_error -> list Z.

Definition tapasco_last_error_length (last : option rt_error) : Z :=
  match last with Some e => Z.of_nat (length (to_string e)) + 1 | None => 0 end.

(** The result, the buffer and the last error afterwards *)
Definition tapasco_last_error_message (last : option rt_error) (buffer : list Z) : Z * list Z * option rt_error :=
  match last with
  | None => (0, buffer, None)
  | Some e =>
      let error_message := to_string e in
      if Z.of_nat (length buffer) <=? Z.of_nat (length error_message) then (-1, buffer, None)
      else (Z.of_nat (length error_message),
            <[length error_message := 0]> (error_message ++ drop (length error_message) buffer), None)
  end.

(** std::string(buf): the bytes up to a zero; None when there is none in the buffer *)
Fixpoint c_string (buf : list Z) : option (list Z) :=
  match buf with
  | [] => None
  | c :: buf => if c =? 0 then Some [] else match c_string buf with Some t => Some (c :: t) | None => None end
  end.

(** handle_error: the text that is thrown, and the last error afterwards; [garbage] is the
    memory malloc returns. *)
Definition handle_error (last : option rt_error) (garbage : list Z) : option (list Z) * option rt_error :=
  let l := tapasco_last_error_length last in
  let '(_, buf, last) := tapasco_last_error_message last (take (Z.to_nat l) garbage) in
  (c_string buf, last).

Lemma c_string_app (text rest : list Z) : Forall (fun c => c <> 0) text -> c_string (text ++ 0 :: rest) = Some text.
Proof.
  induction 1 as [|c text Hc Htext IH]; simpl; [done|]. by rewrite (proj2 (Z.eqb_neq _ _) Hc), IH.
Qed.

(** The text of the error is thrown and the error is forgotten; without one, the program
    reads memory that was never written. *)
Theorem handle_error_text (e : rt_error) (garbage : list Z) :
  Forall (fun c => c <> 0) (to_string e) -> Z.of_nat (length (to_string e)) + 1 <= Z.of_nat (length garbage) ->
  handle_error (Some e) garbage = (Some (to_string e), None) /\ fst (handle_error None garbage) = None.
Proof.
  intros Hz Hl. split; [|done]. unfold handle_error, tapasco_last_error_message, tapasco_last_error_length.
  set (n := length (to_string e)) in *. rewrite length_take.
  rewrite (proj2 (Z.leb_gt _ _)) by lia. f_equal.
  assert (exists c, drop n (take (Z.to_nat (Z.of_nat n + 1)) garbage) = [c]) as [c ->].
  { destruct (drop n (take (Z.to_nat (Z.of_nat n + 1)) garbage)) as [|c [|d l]] eqn:Hd;
      [apply (f_equal length) in Hd; rewrite length_drop, length_take in Hd; simpl in Hd; lia|by exists c|].
    apply (f_equal length) in Hd. rewrite length_drop, length_take in Hd. simpl in Hd. lia. }
  rewrite insert_app_r_alt by done. unfold n. rewrite Nat.sub_diag. simpl. by apply c_string_app.
Qed.
End Text.

(** handle_error as the callers see it *)
Definition throw_last {X} (last : option rt_error) : outcome X :=
  match last with Some e => Throws (runtime_error e) | None => Undefined end.

(** ** Jobs *)
Section Lib.
Context {A : Type} `{Allocator A}.

(** A device; jobs need exclusive access to it. *)
Record Device := mk_device { address : Z; exclusive : bool }.

(** class JobFuture: no callback yet, or the callback of a job, with the number of bits of
    the return value that is asked for.  The object of a job that was released by
    tapasco_job_release is freed ([None]). *)
Inductive JobFuture :=
| unlaunched
| launched_job (ret : option Z) (j : option Job).

(** Scheduler::do_acquire_pe; running out of [fuel] is a caller that still waits. *)
Fixpoint do_acquire_pe (fuel : nat) (ty : Z) (block : bool) : prog (@rtE A) (option (result JobError (option PE))) :=
  match fuel with
  | O => Ret None
  | S fuel =>
      let! r := try_steal ty in
      match r with
      | None => Ret (Some (Err NoSuchPE))
      | Some (Some p) => Ret (Some (Ok (Some p)))
      | Some None => if negb block then Ret (Some (Ok None)) else do_acquire_pe fuel ty block
      end
  end.

(** tapasco_device_acquire_pe and Device::acquire_pe *)
Definition tapasco_device_acquire_pe (fuel : nat) (d : Device) (ty : Z) : prog (@rtE A) (option (rt_error + Job)) :=
  if negb (exclusive d) then Ret (Some (inl exclusive_required)) else
  let! r := do_acquire_pe fuel ty true in
  Ret (match r with
       | None => None
       | Some (Ok (Some p)) => Some (inr (mk_job (Some p)))
       | Some (Ok None) => None
       | Some (Err e) => Some (inl (job_error e))
       end).

(** tapasco_device_try_acquire_pe: an error, or a job if a processing element is idle *)
Definition tapasco_device_try_acquire_pe (d : Device) (ty : Z) : prog (@rtE A) (rt_error + option Job) :=
  if negb (exclusive d) then Ret (inl exclusive_required) else
  let! r := do_acquire_pe 1 ty false in
  Ret (match r with
       | Some (Ok (Some p)) => inr (Some (mk_job (Some p)))
       | Some (Err e) => inl (job_error e)
       | _ => inr None
       end).

(** tapasco_job_start: the job, the caller's list and the result with the last error; the
    list is taken from the caller, and the buffers that start returns stay with the program.
    None: a job without a processing element, a panic. *)
Definition tapasco_job_start (j : Job) (params : JobList) : prog (@rtE A) (option (Job * JobList * (Z * option rt_error))) :=
  match params, pe j with
  | None, _ => Ret (Some (j, None, (-1, Some other_error)))
  | Some jl, None => Ret None
  | Some jl, Some p =>
      let! pr := start p jl in
      Ret (Some (mk_job (Some pr.1), None, match pr.2 with Ok _ => (0, None) | Err e => (-1, Some (job_error e)) end))
  end.

(** ~JobArgumentList: a list that was not taken is freed with the buffers in it. *)
Definition destroy_list (l : JobList) : prog (@rtE A) unit :=
  match l with Some ps => drop_boxes (datas ps) | None => Ret tt end.

(** The arguments and tapasco_job_start, on a job that has been acquired *)
Definition start_on (j : Job) (a : JobArgumentList) (ret : option Z) : prog (@rtE A) (outcome JobFuture) :=
  let! r := tapasco_job_start j (list_inner a) in
  match r with
  | None => Ret Undefined
  | Some (j, l, (code, last)) =>
      destroy_list l;;;
      Ret (if code <? 0 then throw_last last else Returns (launched_job ret (Some j)))
  end.

(** Tapasco::launch; [ret]: the width of the value a RetVal argument points to *)
Definition launch (fuel : nat) (d : Device) (ty : Z) (ret : option Z) (args : list arg) : prog (@rtE A) (outcome JobFuture) :=
  match make_list (address d) default_memory_ok with
  | inl e => Ret (Throws (argument_error e))
  | inr a =>
      match set_args args a with
      | inl (e, a) => destroy_list (list_inner a);;; Ret (Throws (argument_error e))
      | inr a =>
          let! j := tapasco_device_acquire_pe fuel d ty in
          match j with
          | None => Ret Waits
          | Some (inl e) => destroy_list (list_inner a);;; Ret (throw_last (Some e))
          | Some (inr j) => start_on j a ret
          end
      end
  end.

(** Tapasco::try_launch: the result is -1 when no processing element is idle. *)
Definition try_launch (future : JobFuture) (d : Device) (ty : Z) (ret : option Z) (args : list arg)
    : prog (@rtE A) (JobFuture * outcome Z) :=
  let! j := tapasco_device_try_acquire_pe d ty in
  match j with
  | inl e => Ret (future, throw_last (Some e))
  | inr None => Ret (future, Returns (-1))
  | inr (Some j) =>
      match make_list (address d) default_memory_ok with
      | inl e => Ret (future, Throws (argument_error e))
      | inr a =>
          match set_args args a with
          | inl (e, a) => destroy_list (list_inner a);;; Ret (future, Throws (argument_error e))
          | inr a =>
              let! r := start_on j a ret in
              Ret (match r with
                   | Returns f => (f, Returns 0)
                   | Throws e => (future, Throws e)
                   | Waits => (future, Waits)
                   | Undefined => (future, Undefined)
                   end)
          end
      end
  end.

Definition wants (ret : option Z) : bool := match ret with Some _ => true | None => false end.
(** *ret.value = (R)ret_val *)
Definition returned (ret : option Z) (rv : Z) : option Z :=
  match ret with Some w => Some (wrap w rv) | None => None end.

(** JobFuture::operator() with the callbacks of getCallback, tapasco_job_release and
    tapasco_job_try_release: the code and the return value *)
Definition call_future (f : JobFuture) (block : bool) : prog (@rtE A) (JobFuture * outcome (Z * option Z)) :=
  match f with
  | unlaunched => Ret (f, Throws not_launched)
  | launched_job _ None => Ret (f, Undefined)
  | launched_job ret (Some j) =>
      if block then
        let! jr := job_release j true (wants ret) in
        match jr.2 with
        | Ok (rv, _) => Ret (launched_job ret None, Returns (0, returned ret rv))
        | Err e => Ret (launched_job ret (Some jr.1), throw_last (Some (job_error e)))
        end
      else
        let! jr := job_try_release j true (wants ret) in
        Ret (launched_job ret (Some jr.1),
             match jr.2 with
             | Ok (Some (rv, _)) => Returns (0, returned ret rv)
             | Ok None => Returns (1, None)
             | Err e => throw_last (Some (job_error e))
             end)
  end.

(** auto f = tapasco.launch(ty, args...); f(); *)
Definition launch_and_wait (fuel : nat) (d : Device) (ty : Z) (ret : option Z) (args : list arg)
    : prog (@rtE A) (outcome (Z * option Z)) :=
  let! f := launch fuel d ty ret args in
  match f with
  | Returns f => let! r := call_future f true in Ret r.2
  | Throws e => Ret (Throws e)
  | Waits => Ret Waits
  | Undefined => Ret Undefined
  end.

(** ** Memory: class TapascoMemory on the default memory, and the functions of Tapasco *)

Definition MAX : Z := 2 ^ 64 - 1.

(** tapasco_memory_allocate and tapasco_memory_allocate_fixed *)
Definition tapasco_memory_allocate (m : nat) (n : Z) : prog (@rtE A) (Z * option rt_error) :=
  let! r := on_allocator m (fun a => al_allocate a n None) in
  Ret (match r with Ok x => (x, None) | Err e => (MAX, Some (allocator_error e)) end).
Definition tapasco_memory_allocate_fixed (m : nat) (n offset : Z) : prog (@rtE A) (Z * option rt_error) :=
  let! r := on_allocator m (fun a => al_allocate_fixed a n offset) in
  Ret (match r with Ok x => (x, None) | Err e => (MAX, Some (allocator_error e)) end).

(** TapascoMemory::alloc and alloc_fixed, as Tapasco::alloc returns their address *)
Definition checked (r : Z * option rt_error) : outcome Z := if r.1 =? MAX then throw_last r.2 else Returns r.1.
Definition mem_alloc (m : nat) (n : Z) : prog (@rtE A) (outcome Z) :=
  let! r := tapasco_memory_allocate m n in Ret (checked r).
Definition mem_alloc_fixed (m : nat) (n offset : Z) : prog (@rtE A) (outcome Z) :=
  let! r := tapasco_memory_allocate_fixed m n offset in Ret (checked r).

Definition mem_free (m : nat) (a : Z) : prog (@rtE A) (outcome Z) :=
  let! r := free_block m a in
  Ret (match r with Ok _ => Returns 0 | Err e => throw_last (Some (allocator_error e)) end).

Definition mem_copy_to (m : nat) (d a n : Z) : prog (@rtE A) (outcome Z) :=
  let! ok := call (copy_to m (mk_slice d n) a) in
  Ret (if ok then Returns 0 else throw_last (Some dma_error)).
Definition mem_copy_from (m : nat) (a d n : Z) : prog (@rtE A) (outcome Z) :=
  let! ok := call (copy_from m a (mk_slice d n)) in
  Ret (if ok then Returns 0 else throw_last (Some dma_error)).
End Lib.

(** ** class TapascoDriver *)

(** TLKM::device_alloc: the device with the id among those the driver lists, which are
    numbered from 0; [open id]: whether Device::new succeeds *)
Definition tapasco_tlkm_device_alloc (num : Z) (open : Z -> bool) (id : Z) : rt_error + Z :=
  if (0 <=? id) && (id <? num) then (if open id then inr id else inl other_error) else inl (device_not_found id).

(** allocate_device; [num] is what num_devices returns. *)
Definition allocate_device (num : Z) (open : Z -> bool) (dev_id : Z) : outcome Z :=
  if num =? 0 then Throws no_devices
  else if dev_id >? num then Throws (out_of_range dev_id num)
  else match tapasco_tlkm_device_alloc num open dev_id with
       | inl e => throw_last (Some e)
       | inr d => Returns d
       end.

(** ** Remaining functions of Tapasco *)

Definition PLATFORM_CAP0_PE_LOCAL_MEM : Z := Z.shiftl 1 2.
Definition PLATFORM_CAP0_DYNAMIC_ADDRESS_MAP : Z := Z.shiftl 1 3.
Definition default_legacy_caps : Z := Z.lor PLATFORM_CAP0_PE_LOCAL_MEM PLATFORM_CAP0_DYNAMIC_ADDRESS_MAP.
Definition has_capability (cap : Z) : Z := Z.land default_legacy_caps cap.

(** version: the buffer is new char(len), one byte; tapasco_version writes the text of the
    version and a zero to [len] bytes.  None: a write behind the buffer. *)
Definition version (text : list Z) : option (list Z) :=
  let n := S (length text) in
  if Nat.leb n 1 then Some (text ++ [0]) else None.

(** ** Theorems on jobs *)
Section Jobs.
Context {A : Type} `{Laws : AllocatorLaws A}.
Variable controls : list Z.

Notation spec := (rt_model controls).

(** The buffers have lengths an object can have. *)
Definition fits_memory (t : arg) : Prop := match core t with WrappedPointer _ sz => 0 <= sz < 2 ^ 63 | _ => True end.

Lemma encode_all_ok (ts : list arg) : Forall fits_memory ts -> Forall arg_ok (fst (encode_all ts)).
Proof.
  induction 1 as [|t ts Ht Hts IH]; simpl; [constructor|]. destruct (encode t) as [e|p] eqn:He; [constructor|].
  destruct (encode_all ts) as [ps e]. constructor; [|done]. unfold encode, fits_memory in *.
  destruct (core t); simplify_eq/=; try done.
  - by repeat case_match; simplify_eq/=.
  - by destruct (is_local t).
Qed.

Lemma acquire_idle_spec (fuel : nat) (d : Device) (ty : Z) (p : PE) (q : list PE) (s : rt) :
  exclusive d = true -> pes s ty = Some (p :: q) ->
  wp spec (tapasco_device_acquire_pe (S fuel) d ty) s (fun r s' =>
    r = Some (inr (mk_job (Some p))) /\ s' = set_pes (fun t => if t =? ty then Some q else pes s t) s).
Proof.
  intros Hx Hq. unfold tapasco_device_acquire_pe. rewrite Hx. simpl. apply wp_bind, wp_bind, wp_atomically. rewrite Hq.
  by apply wp_ret, wp_ret.
Qed.

Lemma start_on_spec (p : PE) (d : Z) (ok : bool) (ps : list PEParameter) (ret : option Z) (s : rt) :
  idle p -> has_registers controls p -> all_ok s -> Forall arg_ok ps ->
  wp spec (start_on (mk_job (Some p)) (fresh d ok ps) ret) s (fun r s' => exists bs, extended bs s s' /\
    match r with
    | Returns f => exists qs, placed_for p ps qs bs /\ sees p qs (host s) (started s') /\ dropped s' = dropped s /\
        f = launched_job ret (Some (mk_job (Some (set_active true (add_copybacks (copybacks qs) p)))))
    | Throws e => started s' = started s /\ exists e', e = runtime_error (job_error e')
    | Waits | Undefined => False
    end).
Proof.
  intros Hi Hreg Hs Hps. unfold start_on, tapasco_job_start. cbn [pe list_inner fresh]. apply wp_bind. wp_seq start_spec; [done..|].
  intros [p' [un|e]] s' (bs & Hex & Hr); apply wp_ret; simpl in *; apply wp_bind, wp_ret, wp_ret; exists bs; (split; [done|]);
    simpl; [|destruct Hr; eauto]. destruct Hr as (qs & H1 & H2 & H3 & _ & ->). eauto.
Qed.

Lemma call_future_spec p q cs bs U (ret : option Z) (s : rt) :
  runs controls p q cs bs U s ->
  wp spec (call_future (launched_job ret (Some (mk_job (Some p)))) true) s (fun fr s' =>
    match fr.2 with
    | Returns (code, v) => code = 0 /\ (exists rv res, released s U p q cs (Ok (rv, res)) s') /\
        v = returned ret (read_words (regs s') (offset p + 0x10) false)
    | Throws e => all_ok s' /\ host_outside (flat_map outs cs) (host s) (host s') /\ exists e', e = runtime_error (job_error e')
    | Waits | Undefined => False
    end).
Proof.
  intros Hr. simpl. wp_seq (job_release_spec controls p q cs bs U); [done|]. intros [j r] s' H1. simpl in *.
  destruct r as [[rv res]|e].
  - destruct H1 as (-> & Hrel & Hrv). apply wp_ret. simpl. split_and!; [done|eauto|]. destruct ret; simpl in *; [by rewrite Hrv|done].
  - apply wp_ret. simpl. assert (all_ok s' /\ host_outside (flat_map outs cs) (host s) (host s')) as [? ?]; [|eauto].
    destruct e; try (by destruct H1 as (_ & (_ & ? & ? & _) & _)). destruct H1 as [_ (f & g & ->)]. split; [by apply Hr|by intros y _].
Qed.

(** The buffers a job writes, as its parameters name them *)
Lemma host_outside_args (p : PE) (ps qs : list PEParameter) (bs : list (nat * segment)) (g h : Z -> Z) :
  placed_for p ps qs bs -> host_outside (flat_map outs (copybacks qs)) g h <-> host_outside (flat_map arg_outs ps) g h.
Proof.
  intros (las & Hl & Hok & Hp). unfold host_outside, in_slices.
  setoid_rewrite (copybacks_outs qs (placed_no_alloc _ _ _ _ _ Hl Hp)).
  by rewrite (placed_outs _ _ _ Hp Hok), (local_outs _ _ _ Hl).
Qed.

(** What launch_and_wait may have done on the idle processing element [p], before [q] in its
    queue: the values, the results, and what is left *)
Definition job_outcome (ty : Z) (ret : option Z) (params : list PEParameter) (p : PE) (q : list PE) (s : @rt A)
    (r : outcome (Z * option Z)) (s' : @rt A) : Prop :=
    all_ok s' /\ host_outside (flat_map arg_outs params) (host s) (host s') /\
    match r with
    | Returns (code, v) => code = 0 /\ v = returned ret (read_words (regs s') (offset p + 0x10) false) /\
        (exists ps bs, placed_for p params ps bs /\ sees p ps (host s) (started s') /\
           copied_back (dmem s') (copybacks ps) (host s')) /\
        (forall m, Permutation (al_used (alloc s' m)) (al_used (alloc s m))) /\
        (forall t, pes s' t = if t =? ty then Some (q ++ [p]) else pes s t) /\ dropped s' = dropped s
    | Throws e => exists e', e = runtime_error (job_error e')
    | Waits | Undefined => False
    end.

(** C7: A program that launches a job and waits for it, under these conditions: the device
    pointer is not null and the device is open for exclusive access; annotations are only
    put around buffers (otherwise a later output buffer is not copied back, see
    [annotation_leaks] of UserArgs.v), buffers have fewer than 2^63 bytes, every argument is
    one that can be passed, and the buffers written by the job do not overlap; a processing
    element of the type is idle, without left-over results and not set up for SVM (with none
    idle the call waits until there is one); only its control register starts it; and the
    allocators of the card's memories are consistent.  Then the processing element is started once
    its registers and its memory hold the arguments, in order; when the call returns, the
    program's output buffers hold what the processing element left in card memory, nothing
    else of the program's memory has changed, the same blocks of card memory are in use as
    before and the processing element is back with the scheduler.  If it does not return a
    result, an error of the runtime is thrown; also then the program's memory outside its
    output buffers is unchanged, but blocks of card memory and the processing element may be
    lost. *)
Theorem launch_and_wait_correct (fuel : nat) (d : Device) (ty : Z) (ret : option Z) (args : list arg)
    (params : list PEParameter) (p : PE) (q : list PE) (s : rt) :
  address d <> 0 -> exclusive d = true -> Forall well_annotated args -> Forall fits_memory args ->
  encode_all args = (params, None) -> StronglySorted sapart (flat_map arg_outs params) ->
  idle p -> has_registers controls p -> type_id p = ty -> all_ok s -> pes s ty = Some (p :: q) ->
  wp spec (launch_and_wait (S fuel) d ty ret args) s (job_outcome ty ret params p q s).
Proof.
  intros Hd Hx Hw Hfit Henc Hap Hi Hreg Hty Hs Hq.
  destruct (launch_arguments (address d) default_memory_ok args Hd Hw) as (a0 & Ha0 & Hset). simpl in Hset. rewrite Henc in Hset.
  pose proof (encode_all_ok args Hfit) as Hok. rewrite Henc in Hok. simpl in Hok.
  unfold launch_and_wait, launch. rewrite Ha0, Hset. apply wp_bind. wp_seq acquire_idle_spec; [done..|].
  intros r s1 (-> & ->). eapply wp_mono; [by apply start_on_spec|].
  intros r s2 (bs & Hex & Hr). destruct r as [f|e| |]; simpl; try done.
  2: { apply wp_ret. destruct Hr as [_ He]. split_and!; [apply Hex| |done]. intros y _. by rewrite (ex_host _ _ _ Hex). }
  destruct Hr as (ps & Hpl & Hsee & Hdr & ->). set (p' := set_active true _).
  assert (Hruns : runs controls p' q (copybacks ps) bs (fun m => al_used (alloc s m)) s2).
  { apply (started_runs _ _ _ _ _ _ _ _ Hi Hreg Hpl Hex Hap). simpl. by rewrite Hty, Z.eqb_refl. }
  wp_seq (call_future_spec p' q (copybacks ps) bs (fun m => al_used (alloc s m))); [done|].
  intros [f r] s3 Hr. apply wp_ret. cbn [snd] in *. pose proof (ex_host _ _ _ Hex) as Hh. simpl in Hh.
  destruct r as [[code v]|e| |]; try done.
  - destruct Hr as (-> & (rv & res & Hst & Hok3 & Hout & Hfree & Hdrop & Hback & _ & Hpes) & ->).
    rewrite (host_outside_args _ _ _ _ _ _ Hpl), Hh in Hout. split_and!; [done|done|done| | | | |].
    + unfold p'. simpl. by rewrite add_copybacks_offset.
    + exists ps, bs. rewrite Hst. done.
    + intros m. apply (Hfree m).
    + intros t. rewrite Hpes. unfold p'. rewrite add_copybacks_rested by done. cbn [type_id set_active].
      rewrite add_copybacks_type, Hty, (ex_pes _ _ _ Hex). simpl. by destruct (t =? ty).
    + by rewrite Hdrop, Hdr.
  - destruct Hr as (Hok3 & Hout & He). rewrite (host_outside_args _ _ _ _ _ _ Hpl), Hh in Hout. done.
Qed.

(** try_launch acquires the processing element before it looks at the arguments: when they
    are refused, the program does not get the job and the scheduler does not get it back.
    The buffers of the arguments before are freed. *)
Lemma try_launch_loses_pe (future : JobFuture) (d : Device) (ty : Z) (ret : option Z) (args : list arg)
    (params : list PEParameter) (e : arg_error) (p : PE) (q : list PE) (s : rt) :
  address d <> 0 -> exclusive d = true -> Forall well_annotated args -> encode_all args = (params, Some e) ->
  pes s ty = Some (p :: q) ->
  wp spec (try_launch future d ty ret args) s (fun r s' =>
    r = (future, Throws (argument_error e)) /\ pes s' ty = Some q /\ dropped s' = dropped s ++ datas params).
Proof.
  intros Hd Hx Hw Henc Hq. destruct (launch_arguments (address d) default_memory_ok args Hd Hw) as (a0 & Ha0 & Hset). simpl in Hset. rewrite Henc in Hset.
  unfold try_launch, tapasco_device_try_acquire_pe. rewrite Hx, Ha0, Hset. apply wp_bind, wp_bind, wp_bind, wp_atomically.
  rewrite Hq. apply wp_ret, wp_ret. simpl. apply wp_bind, wp_drop_boxes, wp_ret. simpl.
  by rewrite Z.eqb_refl.
Qed.

(** Without exclusive access no processing element is acquired. *)
Lemma launch_needs_exclusive (fuel : nat) (d : Device) (ty : Z) (ret : option Z) (args : list arg)
    (params : list PEParameter) (s : rt) :
  address d <> 0 -> exclusive d = false -> Forall well_annotated args -> encode_all args = (params, None) ->
  wp spec (launch fuel d ty ret args) s (fun r s' =>
    r = Throws (runtime_error exclusive_required) /\ pes s' = pes s /\ dropped s' = dropped s ++ datas params).
Proof.
  intros Hd Hx Hw Henc. destruct (launch_arguments (address d) default_memory_ok args Hd Hw) as (a0 & Ha0 & Hset). simpl in Hset. rewrite Henc in Hset.
  unfold launch, tapasco_device_acquire_pe. rewrite Ha0, Hset, Hx. simpl. apply wp_bind, wp_ret. simpl.
  by apply wp_bind, wp_drop_boxes, wp_ret.
Qed.

(** A future that has returned holds a job that no longer exists. *)
Lemma future_once (ret : option Z) (block : bool) (s : rt) :
  wp spec (call_future (launched_job ret None) block) s (fun fr s' => fr.2 = Undefined /\ s' = s) /\
  wp spec (call_future unlaunched block) s (fun fr s' => fr.2 = Throws not_launched /\ s' = s).
Proof. by split; apply wp_ret. Qed.

(** ** Theorems on memory *)

Lemma mem_alloc_spec (m : nat) (n : Z) (s : rt) :
  all_ok s -> 0 <= n < 2 ^ 63 ->
  wp spec (mem_alloc m n) s (fun r s' =>
    match r with
    | Returns a => exists b, base b = a /\ n <= size b /\ gained s s' [(m, b)]
    | Throws e => gained s s' [] /\ exists e', e = runtime_error e'
    | Undefined | Waits => False
    end).
Proof.
  intros Hs Hn. unfold mem_alloc, tapasco_memory_allocate. apply wp_bind. wp_seq (on_allocator_spec controls m _ n); [done|by apply law_allocate|].
  intros [a|e] s' Hr; apply wp_ret, wp_ret; [|simpl; eauto]. unfold checked. cbn [fst snd]. destruct (Z.eqb_spec a MAX) as [->|]; [|done].
  destruct Hr as (b & Hb & _ & _ & Hok & Hu & _). pose proof (law_address (alloc s' m) b (Hok m)) as Hlt.
  rewrite (Hu m), Hb in Hlt. simpl in Hlt. rewrite decide_True in Hlt by done. specialize (Hlt ltac:(left)). unfold MAX in Hlt. lia.
Qed.

(** tapasco.alloc(h, n); tapasco.copy_to(src, h, n); tapasco.copy_from(h, dst, n);
    tapasco.free(h); *)
Definition store_and_load (n src dst : Z) : prog (@rtE A) (outcome Z) :=
  let! a := mem_alloc default_memory n in
  match a with
  | Returns a =>
      let! r := mem_copy_to default_memory src a n in
      match r with
      | Returns _ =>
          let! r := mem_copy_from default_memory a dst n in
          match r with Returns _ => mem_free default_memory a | e => Ret e end
      | e => Ret e
      end
  | e => Ret e
  end.

(** What is copied to allocated memory of the card is what is copied back, and afterwards
    the memory is free again; only an error of the runtime is thrown. *)
Theorem memory_roundtrip (n src dst : Z) (s : rt) :
  all_ok s -> 0 <= n < 2 ^ 63 ->
  wp spec (store_and_load n src dst) s (fun r s' =>
    all_ok s' /\ host_outside [mk_slice dst n] (host s) (host s') /\
    match r with
    | Returns code => code = 0 /\ (forall k, 0 <= k < n -> host s' (dst + k) = host s (src + k)) /\
        forall m, Permutation (al_used (alloc s' m)) (al_used (alloc s m))
    | Throws e => exists e', e = runtime_error e'
    | Waits | Undefined => False
    end).
Proof.
  intros Hs Hn. unfold store_and_load. wp_seq mem_alloc_spec; [done..|]. intros [a|e| |] s1 H1; try done.
  2: { apply wp_ret. destruct H1 as [(E & Hok & _) He]. split_and!; [done|by intros y _; rewrite E|done]. }
  destruct H1 as (b & <- & Hb & E & Hok & Hu & _).
  assert (Hres : reserved s1 default_memory (base b) n).
  { exists b. split_and!; [|done|done]. rewrite (Hu default_memory). simpl. left. }
  unfold mem_copy_to. apply wp_bind. wp_do; [done|]. intros ok s2 (f & -> & _ & Hf). apply wp_ret. destruct ok; simpl.
  2: { apply wp_ret. split_and!; [done|by intros y _; simpl; rewrite E|eauto]. }
  unfold mem_copy_from. apply wp_bind. wp_do; [done|]. intros ok s2 (h & -> & Hout & Hh). apply wp_ret. simpl in *.
  assert (Hhost : host_outside [mk_slice dst n] (host s) h).
  { intros y Hy. rewrite Hout; [by rewrite E|]. intros Hin. apply Hy. exists (mk_slice dst n). split; [left|done]. }
  destruct ok; simpl; [|apply wp_ret; split_and!; [done|done|eauto]].
  unfold mem_free. wp_seq (free_block_spec controls default_memory b [] (fun m => al_used (alloc s m))); [done|done|].
  intros r s2 (-> & Hok2 & Hh2 & E2). apply wp_ret. split_and!; [done|by rewrite E2|done| |apply Hh2].
  intros k Hk. rewrite E2. simpl. rewrite Hh, Hf by done. by rewrite E.
Qed.
End Jobs.

(** ** An instance *)
#[local] Existing Instances UserAlloc.generic_ops UserAlloc.generic_laws.

Definition demo_pe : PE := mk_pe 0 7 0 false None None false.
Definition demo_state : @rt UserAlloc.GenericAllocator :=
  mk_rt (fun y => y mod 256) (fun _ _ => 0) (fun _ => UserAlloc.mk_alloc [mk_seg 0 4096] [] 64) (fun _ => 0) None
    (fun t => if t =? 7 then Some [demo_pe] else None) [].
Definition demo_args : list arg := [Value 4 5; WrappedPointer 1000 4; InOnly (WrappedPointer 2000 8)].

(** Hardware whose processing element adds one to every byte and returns 42 *)
Definition demo_exec (X : Type) (e : @rtE UserAlloc.GenericAllocator X) (s : @rt UserAlloc.GenericAllocator)
    : X * @rt UserAlloc.GenericAllocator :=
  let work := set_dmem (fun n y => dmem s n y + 1) (set_regs (fun o => if o =? 0x10 then 42 else regs s o) (started s) s) in
  match e in rtE X return X * _ with
  | atomically _ f => f s
  | write_volatile off v =>
      (tt, set_regs (write_words v off (regs s))
             (if decide (off = 0 /\ v = U32 1) then Some (off, regs s, dmem s) else started s) s)
  | read_volatile off u_32 => (read_words (regs s) off u_32, s)
  | copy_to m d a =>
      (true, set_dmem (fun n y => if Nat.eqb n m && (a <=? y) && (y <? a + len d) then host s (ptr d + (y - a)) else dmem s n y) s)
  | copy_from m a d =>
      (true, set_host (fun y => if (ptr d <=? y) && (y <? ptr d + len d) then dmem s m (a + (y - ptr d)) else host s y) s)
  | spawn_stream _ _ => (tt, s)
  | join_stream _ _ => (true, s)
  | wait_for_interrupt => (true, work)
  | check_for_interrupt => (Some 1, work)
  end.

Example demo_launch :
  let '(r, s') := run demo_exec (launch_and_wait 1 (mk_device 1 true) 7 (Some 32) demo_args) demo_state in
  r = Returns (0, Some 42) /\ map (host s') [999; 1000; 1001; 1002; 1003; 1004] = [231; 233; 234; 235; 236; 236] /\
  host s' 2000 = 208 /\ alloc s' 0%nat = alloc demo_state 0%nat /\ pes s' 7 = Some [demo_pe] /\
  match started s' with
  | Some (off, r, dm) => map r [0x20; 0x30; 0x40] = [5; 0; 64] /\ map (dm 0%nat) [0; 3; 64; 71] = [232; 235; 208; 215]
  | None => False
  end.
Proof. vm_compute. repeat split. Qed.

Lemma demo_ok : all_ok demo_state.
Proof.
  intros m. simpl. destruct (UserAlloc.new_ok 0 4096 6) as (a & Ha & Hok & _); [lia..|].
  exists 0, 4096. by injection Ha as <-.
Qed.

Lemma launch_and_wait_correct_witness :
  wp (rt_model [0]) (launch_and_wait 1 (mk_device 1 true) 7 (Some 32) demo_args) demo_state
    (job_outcome 7 (Some 32) (fst (encode_all demo_args)) demo_pe [] demo_state).
Proof.
  apply (launch_and_wait_correct [0] 0 (mk_device 1 true) 7 (Some 32) demo_args); try done.
  - apply Forall_cons; split; [by left|]. apply Forall_cons; split; [by left|]. apply Forall_cons; split; [|done]. right. by exists 2000, 8.
  - repeat constructor; simpl; lia.
  - repeat constructor.
  - split; [left|]. unfold arg_offset. simpl. split; [set_solver|]. intros j Hj%list_elem_of_singleton. lia.
  - apply demo_ok.
Defined.

Lemma memory_roundtrip_witness :
  wp (rt_model [0]) (store_and_load 100 1000 2000) demo_state (fun r s' =>
    all_ok s' /\ host_outside [mk_slice 2000 100] (host demo_state) (host s') /\
    match r with
    | Returns code => code = 0 /\ (forall k, 0 <= k < 100 -> host s' (2000 + k) = host demo_state (1000 + k)) /\
        forall m, Permutation (al_used (alloc s' m)) (al_used (alloc demo_state m))
    | Throws e => exists e', e = runtime_error e'
    | Waits | Undefined => False
    end).
Proof. apply (memory_roundtrip [0] 100 1000 2000 demo_state); [apply demo_ok|lia]. Defined.

(** ** Theorems on the driver and on the rest *)

(** A device is returned only for an id below the number of devices; the check of the range
    lets the number itself pass, which the runtime then refuses. *)
Lemma allocate_device_range (num : Z) (open : Z -> bool) (id : Z) :
  0 < num -> 0 <= id ->
  match allocate_device num open id with
  | Returns d => d = id /\ id < num
  | Throws e => id >= num \/ open id = false
  | Waits | Undefined => False
  end /\ allocate_device num open num = Throws (runtime_error (device_not_found num)).
Proof.
  intros Hnum Hid. unfold allocate_device, tapasco_tlkm_device_alloc.
  rewrite (proj2 (Z.eqb_neq num 0)), (proj2 (Z.leb_le 0 id)), (proj2 (Z.leb_le 0 num)), Z.ltb_irrefl by lia.
  rewrite (Z.gtb_ltb num num), Z.ltb_irrefl. split; [|done]. rewrite Z.gtb_ltb. simpl.
  destruct (Z.ltb_spec num id); simpl; [left; lia|]. destruct (Z.ltb_spec id num); simpl; [|left; lia].
  destruct (open id); [done|by right].
Qed.

(** The result is not zero for the capabilities the bitstream has, and zero (documented as
    success) for the others. *)
Example capabilities_inverted :
  has_capability PLATFORM_CAP0_PE_LOCAL_MEM = 4 /\ has_capability 1 = 0.
Proof. done. Qed.

(** Every version text is written behind its buffer. *)
Example version_overflows (c : Z) (text : list Z) : version (c :: text) = None.
Proof. done. Qed.

End UserLib.
